(* ===== verification/_CoqProject ===== *)
-Q . S2P
Prelude.v
Bitfield.v
BitfieldProofs.v
NetDest.v
CFloat.v
FloatBounds.v
FloatExact.v
FaultModel.v
CommonTypes.v
Flit.v
Channels.v
Detector.v
DetectorProofs.v
RoutingUnit.v
Mesh.v
MeshRouting.v
WestFirst.v
Deadlock.v
RoutingTable.v
Topology.v
TopologyProofs.v
TopologyLinks.v
TopologyTheorems.v
Clock.v
Heap.v
MessageBuffer.v
MessageBufferProofs.v
MessageFifo.v
Network.v
Link.v
NetworkBridge.v
GarnetLink.v
BridgeProofs.v
BridgeCredits.v
NetworkInterface.v
DestProofs.v
NIPackets.v
Units.v
Router.v
SwitchAlloc.v
InputWakeup.v
RouterWakeup.v
GarnetNetwork.v
UnitLemmas.v
SwitchProofs.v
SwitchSafe.v
FlitBag.v
Crossbar.v
InputProofs.v
InputVariants.v
RouterCycle.v
SwitchTheorems.v
RouterRouting.v
RouterTheorems.v
TdmaProofs.v
RouterRun.v
NetworkProofs.v
NetworkBuild.v
NetworkTheorems.v
NetworkRouting.v
SimpleSwitch.v
SimpleNetwork.v
SimpleRouting.v
BufferStore.v
PerfectSwitchProofs.v
ThrottleProofs.v
SwitchBuild.v
EventQueue.v
EventAgenda.v
EventLists.v
EventQueueProofs.v
SimObjects.v
SimProofs.v
TopologyScripts.v
ScriptProofs.v
MeshScripts.v
AddrRange.v
AddrRangeProofs.v
AddrRangeMap.v
AddressMap.v
