(* ===== verification/Prelude.v ===== *)
(** * Verification of the garnet network with the Resister defence

    The repository is a fork of gem5 whose on-chip network model, garnet,
    has been extended with a defence against contention side channels: a
    detector in the input units of the routers watches the packets injected
    at a router, and a packet it finds risky is sent on a detour through a
    random intermediate router.  The development models the network, from
    the message buffers of the cache controllers through the network
    interfaces and routers, with the detector and the variants of the
    defence, the scripts that configure a network and its set-up from such a
    configuration, the maps from addresses to the controllers that are the
    destinations of messages, the simple network that gem5 has beside garnet,
    and the event queue and simulation loop that run them all.

    ** The program and its model

    Sources are below src/src/mem/ruby, or below src/src for sim/ and base/, or
    below src for configs/; "garnet" stands for network/garnet.
    Names of definitions are those of the source.  Data are records and
    inductive types with the source's fields and constructors; an operation
    is a function that passes the state on and returns [res], so that a
    failed assertion, a panic, an access out of range or undefined
    behaviour is a value.  Integers are [Z], with the wrap-around or the
    overflow of their type written out where it can matter.

    - Prelude.v (this file): [res], vectors, loops, integers, random
      numbers, record update, and the rules to reason about them.
    - Bitfield.v: base/bitfield.hh, masks, fields, counts and searches on
      64-bit values; BitfieldProofs.v: what they compute.
    - NetDest.v: common/Set.hh and common/NetDest.cc, sets of machines; the
      machine types of the protocol, which the protocol compiler generates,
      are a class.  DestProofs.v: the nodes of a destination.
    - CFloat.v: IEEE floating point numbers, through the specification in
      the standard library, for the statistics of the detector and the
      sizes of packets; FloatBounds.v and FloatExact.v: bounds on rounded
      results, and results that are exact.
    - FaultModel.v: network/fault_model/FaultModel.cc.
    - CommonTypes.v, Flit.v, Channels.v, Link.v: garnet/CommonTypes.hh,
      flit, Credit, flitBuffer, VirtualChannel, OutVcState, NetworkLink and
      CreditLink.
    - Clock.v: sim/clocked_object.hh and common/Consumer.cc, the scheduling
      of wakeups.
    - Detector.v: [HistoryRecord] of garnet/InputUnit.hh, the detector;
      DetectorProofs.v: what it reports.
    - RoutingUnit.v: garnet/RoutingUnit.cc, table routing, dimension order,
      west-first, and the detours of the defence.  Mesh.v, MeshRouting.v,
      WestFirst.v, Deadlock.v, RoutingTable.v: meshes, and what the routing
      algorithms achieve on them.
    - Topology.v: network/Topology.cc and BasicLink, links and routing
      tables from a configuration; TopologyProofs.v, TopologyLinks.v,
      TopologyTheorems.v: shortest paths and tables.
    - Heap.v: the heap and sort algorithms of the C++ library, as classes
      with specifications and instances.  MessageBuffer.v:
      network/MessageBuffer.cc and slicc_interface/Message.hh;
      MessageBufferProofs.v, MessageFifo.v: capacity and order.
    - Network.v: network/Network.cc and the counters of
      garnet/GarnetNetwork.cc.
    - NetworkBridge.v, GarnetLink.v: garnet/NetworkBridge.cc, where a link
      changes width or clock, and garnet/GarnetLink.cc, the links with the
      bridges at their ends; BridgeProofs.v, BridgeCredits.v: flits and
      credits through a pair of bridges.
    - NetworkInterface.v: garnet/NetworkInterface.cc, from messages to flits
      and back; NIPackets.v: the packets of a message.
    - Units.v, Router.v, SwitchAlloc.v, InputWakeup.v, RouterWakeup.v:
      garnet/InputUnit.cc (the original input unit, the one with the
      detector, Valiant for all packets, and time division), OutputUnit.cc,
      SwitchAllocator.cc, CrossbarSwitch.cc and Router.cc.  The parts of a
      router are fields of one record.  The other files on routers hold
      their proofs: UnitLemmas.v, SwitchProofs.v, SwitchSafe.v, FlitBag.v,
      Crossbar.v, InputProofs.v, InputVariants.v and RouterCycle.v lemmas;
      SwitchTheorems.v, RouterRouting.v, RouterTheorems.v, TdmaProofs.v and
      RouterRun.v theorems.
    - GarnetNetwork.v: garnet/GarnetNetwork.cc, which builds the network from
      the calls of the topology, collects its statistics and passes on
      functional accesses.  NetworkProofs.v, NetworkBuild.v: the ports,
      tables and wires that the calls leave; NetworkTheorems.v,
      NetworkRouting.v: the network that is built, and routing on it.
    - SimpleSwitch.v, SimpleNetwork.v: network/simple, the other network that
      the topology can build: WeightBased.cc, PerfectSwitch.cc, Throttle.cc,
      Switch.cc, SimpleLink.cc and SimpleNetwork.cc.  SimpleRouting.v: routes
      divide the destinations of a message; BufferStore.v: the buffers that
      switches share; PerfectSwitchProofs.v, ThrottleProofs.v: their wakeups;
      SwitchBuild.v: a switch that is put together satisfies their invariants.
    - EventQueue.v: base/flags.hh, sim/eventq.cc and the loop of
      sim/simulate.cc.  Events are linked by pointers in a store; what an event
      does when it is served is a program over the operations of the queue.
      EventAgenda.v: the abstract queue; EventLists.v: the lists of the store;
      EventQueueProofs.v: the refinement.
    - SimObjects.v: consumers of common/Consumer.cc whose events are on the
      queue, and systems of them; SimProofs.v: when they wake up.
    - TopologyScripts.v: configs/topologies, the scripts Mesh_XY,
      Mesh_westfirst, Pt2Pt, Crossbar and CrossbarGarnet.  ScriptProofs.v:
      they make consistent, connected networks; MeshScripts.v: the costs and
      tables of the meshes.

    - AddrRange.v: base/addr_range.hh, ranges of addresses with interleaving;
      AddrRangeProofs.v: stripes, offsets and differences.
      AddrRangeMap.v: base/addr_range_map.hh, maps of ranges, whose iterators
      are numbers of nodes; they are maps of addresses.
    - AddressMap.v: the address maps of network/Network.cc,
      slicc_interface/AbstractController.cc and
      RubySlicc_ComponentMapping.hh, with the order of hash tables as a
      parameter; the home of an address.

    Components are connected as in the source.  A router or interface holds
    the links it reads from and tells the links it writes to when to wake
    up; [RouterRun] closes the loop between a router, its output units and
    its links.  What the code shares through pointers is shared in the
    model: the counters of all routers, the schedule of time division, the
    messages that the flits of a packet point to, and the message buffers
    between the switches of the simple network.

    ** The theorems

    - Routers: a router assembled and initialised by the code stays ready
      for its next cycle through any interleaving of the events of the
      router, of its output units and of its links; no assertion fails, no
      flit is lost or duplicated, output channels have one owner; the switch
      allocator computes a matching and wastes no cycle.
    - Detector and defence: the detector's verdict as a condition on the
      recorded packets, for every history; which packets are tagged; time
      division gives one router at a time the right to inject, and refines
      an abstract schedule of slots.
    - Routing: each algorithm delivers on the paths it promises; dimension
      order is free of deadlock, and the detours of the defence are not.
    - Topology: the search for shortest paths ends with the least costs, the
      tables lead every packet to its destination; on the networks of the
      scripts all machines reach each other, and the weights of the meshes
      enforce dimension order and the west-first turn model.
    - Network: initialisation succeeds on every consistent configuration, with
      a fault model if that knows the routers,
      gives every port its wire and every sender the channels of its receiver;
      with table routing, routers, wires and tables together take a packet to
      the interface of its destination.
    - Bridges: a packet that is split into flits narrower by a whole ratio and
      merged again is the packet it was, and as many credits come back as were owed; the
      numbers of flits, computed in floating point, are exact.
    - Buffers and interfaces: free slots that a buffer reports can be
      filled, an ordered buffer refines a queue, which says when it
      refuses, holds back or panics, and a message becomes one
      well-formed packet per destination.
    - The simple network: a switch forwards messages to every destination
      exactly once, and a throttle keeps to the bandwidth of its link, pays
      for every message and comes back while it has work; both start in that
      state, however the switch was put together from enough buffers.
    - The fault model finds the record of every router it was told of.
    - The event queue refines an agenda that serves the last scheduled of the
      events of least tick and priority, for every simulation and in its
      failures too; its own consistency check approves it, but for one case.
    - Addresses: the ranges that interleave an interval divide it, taking
      interleaving bits out of addresses and putting them back are inverse, and
      excluding ranges is the difference of sets; a map of ranges refines a
      map of addresses, whatever its cache holds; every address has one home,
      the same in the map of the network and in those of the controllers
      attached to it.
    - Consumers on the queue, that ask each other for wakeups ahead of time,
      wake up exactly once at the clock edges that were asked for.

    Theorems hold for all states that satisfy an invariant, and the
    invariants are shown to hold initially and to be preserved.  Every
    theorem with hypotheses comes with an instance on concrete data.

    ** Bounds and fuel

    Counters of the code that wrap or overflow are bounded by hypotheses:
    2^31 cycles of a router, 2^31 messages of a buffer or packets of a
    network, ticks below 2^63.  Loops that are not counted run on fuel.
    [Topology.sweeps] needs [path_fuel] rounds, since every round that does
    not end the search lowers some distance, and distances are between 0 and
    [INFINITE_LATENCY]; [config_fuel] is that number for the weights of a
    configuration.  The loops of a switch and of a throttle over the messages
    of a buffer take a message in every round but one or two, so that their
    fuel is the number of messages and one or two more.  Walks along the lists of
    the event queue need the number of events, which the model takes from the
    store; the simulation loop, which need not end, has the number of events to
    serve as its fuel, and [consumers_wake_as_asked] gives one that is enough
    for the exit event to be served.  The ticks of the event queue, 64 bits of
    picoseconds, do not wrap in the model.  Addresses have 64 bits; look-ups are
    for addresses below the last one, whose range of size 1 would wrap, and stripes
    have at most 8 masks, the width of the match value, with lowest bits below
    31, where the code shifts an [int].  The constants of time division (16 routers, slots of
    100 cycles and 80 flits) are the source's.

    ** Not modelled

    The rest of the simulator (processors, caches, coherence protocols,
    memory), since the network meets it only through
    message buffers, wakeups and the maps of addresses; signals, and the barriers between several
    event queues; scripts for particular systems; printing and debugging output; the names
    and flags of statistics, and averages over simulated time.  Random
    sources are arbitrary streams of numbers.
    Message classes are generated code: a message has the members the
    network uses, and reading or writing its payload is a parameter. *)

From Stdlib Require Export ZArith Lia.
From stdpp Require Export base numbers list strings gmap option.

#[global] Open Scope Z_scope.

(** ** Outcomes of C++ code

    [assert], [panic], [fatal] and [exit] end the simulation; an index
    past the end of a vector, a read of an uninitialised variable and the
    other undefined behaviours have no meaning at all.  Every fallible
    operation of the model returns [res].  A loop whose number of rounds is
    not known beforehand runs on fuel and gives [OutOfFuel] without it; the
    theorems about such loops show that the fuel is enough. *)

Inductive error : Set :=
| AssertFail
| OutOfRange
| PanicCalled
| FatalCalled
| ExitCalled
| Undefined
| OutOfFuel.

#[global] Instance error_eq_dec : EqDecision error.
Proof. solve_decision. Defined.

Inductive res (A : Type) : Type :=
| Ok (a : A)
| Err (e : error).
Arguments Ok {A} a.
Arguments Err {A} e.

#[global] Instance res_ret : MRet res := fun A a => Ok a.
#[global] Instance res_bind : MBind res := fun A B k m =>
  match m with Ok a => k a | Err e => Err e end.
#[global] Instance res_fmap : FMap res := fun A B f m =>
  match m with Ok a => Ok (f a) | Err e => Err e end.

Definition assert (b : bool) : res unit := if b then Ok tt else Err AssertFail.

(** [safe m Q]: [m] ends normally and its value satisfies [Q]. *)
Definition safe {A} (m : res A) (Q : A -> Prop) : Prop :=
  match m with Ok a => Q a | Err _ => False end.

(** ** Record update

    [r <| fld := v |>] and [r <| fld ::= g |>]; a record supports them as
    soon as it has an [Etaed] instance. *)

Class Etaed (R : Type) := eta_expanded : R -> R.
Class Update {R T : Type} (fld : R -> T) := update : (T -> T) -> R -> R.
Arguments update {R T} fld {_} _ _ : simpl nomatch.

Ltac derive_update :=
  match goal with
  | |- @Update ?R ?T ?fld =>
      let e := constr:(ltac:(typeclasses eauto) : Etaed R) in
      let f := fresh "f" in
      let r := fresh "r" in
      refine (fun (f : T -> T) (r : R) => _);
      let t := eval hnf in (e r) in
      match eval pattern (fld r) in t with
      | ?u _ => let v := eval cbv beta in (u (f (fld r))) in exact v
      end
  end.
#[export] Hint Extern 1 (Update _) => derive_update : typeclass_instances.

Declare Scope garnet_scope.
Delimit Scope garnet_scope with garnet.
Notation "r '<|' fld ':=' v '|>'" := (update fld (fun _ => v) r)
  (at level 1, left associativity) : garnet_scope.
Notation "r '<|' fld '::=' g '|>'" := (update fld g r)
  (at level 1, left associativity) : garnet_scope.
#[global] Open Scope garnet_scope.

(** ** Machine integers

    Unsigned types wrap; a conversion to [int] keeps the low 32 bits.
    C++ division truncates, as [Z.quot] and [Z.rem] do. *)

Definition u64 (z : Z) : Z := z mod 2 ^ 64.
Definition u32 (z : Z) : Z := z mod 2 ^ 32.
Definition i32 (z : Z) : Z := (z + 2 ^ 31) mod 2 ^ 32 - 2 ^ 31.

(** [divCeil(a, b)] of base/intmath.hh at integer type. *)
Definition divCeil (a b : Z) : Z := Z.quot (a + b - 1) b.

Lemma divCeil_spec a b : 0 < b -> 0 < a -> a <= divCeil a b * b < a + b.
Proof.
  intros Hb Ha. unfold divCeil. rewrite Z.quot_div_nonneg by lia.
  pose proof (Z.mul_div_le (a + b - 1) b Hb). pose proof (Z.mul_succ_div_gt (a + b - 1) b Hb). lia.
Qed.

(** [a + b] at type [int]; signed overflow is undefined. *)
Definition iadd (a b : Z) : res Z :=
  if decide (- 2 ^ 31 <= a + b < 2 ^ 31) then Ok (a + b) else Err Undefined.

(** [a * b] at type [int]. *)
Definition imul (a b : Z) : res Z :=
  if decide (- 2 ^ 31 <= a * b < 2 ^ 31) then Ok (a * b) else Err Undefined.

(** [a / b] on integers; division by zero is undefined. *)
Definition cdiv (a b : Z) : res Z := if decide (b = 0) then Err Undefined else Ok (Z.quot a b).

(** The constant [INFINITE_]. *)
Definition INFINITE_ : Z := 10000.

(** ** Vectors *)

Section vectors.
Context {A : Type}.

Definition zlength (l : list A) : Z := Z.of_nat (length l).

(** [v[i]]: past the end there is nothing to read. *)
Definition vget (l : list A) (i : Z) : res A :=
  if decide (0 <= i) then
    match l !! Z.to_nat i with Some x => Ok x | None => Err OutOfRange end
  else Err OutOfRange.

(** [v[i] = x]. *)
Definition vset (l : list A) (i : Z) (x : A) : res (list A) :=
  if decide (0 <= i < zlength l) then Ok (<[Z.to_nat i := x]> l) else Err OutOfRange.

(** Replacing [v[i]] by the result of a fallible update. *)
Definition valterM (f : A -> res A) (l : list A) (i : Z) : res (list A) :=
  x ← vget l i; y ← f x; vset l i y.

Definition valter (f : A -> A) (l : list A) (i : Z) : res (list A) :=
  valterM (fun x => Ok (f x)) l i.

(** [v.erase(v.begin()); v.push_back(x)] on a vector: [erase] of an empty
    range is undefined. *)
Definition shift_push (l : list A) (x : A) : res (list A) :=
  match l with [] => Err Undefined | _ :: l' => Ok (l' ++ [x]) end.

End vectors.

(** ** Loops *)

Section loops.
Context {St : Type}.

(** [for (k = i; k < i + n; k++) s = f k s]. *)
Fixpoint for_ (n : nat) (i : Z) (f : Z -> St -> res St) (s : St) : res St :=
  match n with
  | O => Ok s
  | S n' => s' ← f i s; for_ n' (i + 1) f s'
  end.

(** The same loop with [break]: the body returns [true] to leave it. *)
Fixpoint for_break (n : nat) (i : Z) (f : Z -> St -> res (bool * St)) (s : St) : res St :=
  match n with
  | O => Ok s
  | S n' =>
      r ← f i s;
      if (fst r : bool) then Ok (snd r) else for_break n' (i + 1) f (snd r)
  end.

End loops.

(** The range-based [for] over a vector, with the state threaded. *)
Fixpoint for_each {A St} (l : list A) (f : A -> St -> res St) (s : St) : res St :=
  match l with
  | [] => Ok s
  | x :: l' => s' ← f x s; for_each l' f s'
  end.

(** ** Random numbers

    [std::random_device], the Mersenne twisters and [rand] are modelled
    by an arbitrary sequence of raw outcomes and a read position; every
    theorem quantifies over it. *)

Record Rng := mkRng { rng_raw : nat -> Z; rng_pos : nat }.
#[global] Instance Rng_eta : Etaed Rng := fun r => mkRng (rng_raw r) (rng_pos r).

(** A uniform draw from [lo..hi]; an empty interval is undefined. *)
Definition uniform (lo hi : Z) (g : Rng) : res (Z * Rng) :=
  if decide (lo <= hi) then
    Ok (lo + rng_raw g (rng_pos g) mod (hi - lo + 1), g <| rng_pos ::= S |>)
  else Err Undefined.

(** ** Lemmas *)

Create HintDb garnet.
Create Rewrite HintDb garnet.

Lemma safe_bind {A B} (m : res A) (k : A -> res B) Q :
  safe (m ≫= k) Q <-> safe m (fun a => safe (k a) Q).
Proof. by destruct m. Qed.

Lemma safe_mono {A} (m : res A) (P Q : A -> Prop) :
  safe m P -> (forall a, P a -> Q a) -> safe m Q.
Proof. destruct m; simpl; auto. Qed.

Lemma safe_conj {A} (m : res A) (P Q : A -> Prop) :
  safe m P -> safe m Q -> safe m (fun a => P a /\ Q a).
Proof. destruct m; simpl; auto. Qed.

Lemma safe_inv {A} (m : res A) Q : safe m Q -> exists a, m = Ok a /\ Q a.
Proof. destruct m as [a|]; simpl; [eauto|done]. Qed.

Lemma safe_Ok {A} (m : res A) (Q : A -> Prop) a : m = Ok a -> safe m Q -> Q a.
Proof. by intros ->. Qed.

Lemma safe_assert b (Q : unit -> Prop) : b = true -> Q tt -> safe (assert b) Q.
Proof. by intros ->. Qed.

Lemma bind_Ok {A B} (m : res A) (k : A -> res B) b :
  m ≫= k = Ok b -> exists a, m = Ok a /\ k a = Ok b.
Proof. destruct m; simpl; [eauto|done]. Qed.

Lemma assert_Ok b u : assert b = Ok u -> b = true.
Proof. by destruct b. Qed.

Lemma iadd_Ok a b : - 2 ^ 31 <= a + b < 2 ^ 31 -> iadd a b = Ok (a + b).
Proof. intros. unfold iadd. by rewrite decide_True. Qed.

Lemma iadd_inv a b c : iadd a b = Ok c -> c = a + b.
Proof. unfold iadd. case_decide; [by intros [= ->]|done]. Qed.

Lemma imul_Ok a b : - 2 ^ 31 <= a * b < 2 ^ 31 -> imul a b = Ok (a * b).
Proof. intros Hab. unfold imul. by rewrite decide_True. Qed.

Lemma imul_inv a b c : imul a b = Ok c -> c = a * b.
Proof. unfold imul. case_decide; [by intros [= ->]|done]. Qed.

Lemma cdiv_Ok a b : b <> 0 -> cdiv a b = Ok (Z.quot a b).
Proof. intros. unfold cdiv. by rewrite decide_False. Qed.

Lemma zlength_nonneg {A} (l : list A) : 0 <= zlength l.
Proof. unfold zlength. lia. Qed.

Lemma zlength_insert {A} (l : list A) i x : zlength (<[i := x]> l) = zlength l.
Proof. unfold zlength. by rewrite length_insert. Qed.

Lemma vget_Ok {A} (l : list A) i x :
  vget l i = Ok x <-> 0 <= i /\ l !! Z.to_nat i = Some x.
Proof.
  unfold vget. case_decide; [|naive_solver].
  destruct (l !! Z.to_nat i); naive_solver.
Qed.

Lemma vget_nat {A} (l : list A) (i : nat) x : l !! i = Some x -> vget l (Z.of_nat i) = Ok x.
Proof. intros. apply vget_Ok. rewrite Nat2Z.id. split; [lia|done]. Qed.

Lemma vget_range {A} (l : list A) i : 0 <= i < zlength l -> exists x, vget l i = Ok x.
Proof.
  intros Hi. unfold zlength in Hi.
  destruct (lookup_lt_is_Some_2 l (Z.to_nat i)) as [x Hx]; [lia|].
  exists x. apply vget_Ok. split; [lia|done].
Qed.

Lemma vget_bound {A} (l : list A) i x : vget l i = Ok x -> 0 <= i < zlength l.
Proof.
  intros [H Hl]%vget_Ok. apply lookup_lt_Some in Hl. unfold zlength. lia.
Qed.

Lemma vget_err {A} (l : list A) i e : vget l i = Err e -> e = OutOfRange.
Proof. unfold vget. repeat case_match; congruence. Qed.

Lemma safe_vget {A} (l : list A) i (Q : A -> Prop) :
  0 <= i < zlength l -> (forall x, l !! Z.to_nat i = Some x -> Q x) -> safe (vget l i) Q.
Proof.
  intros Hi HQ. destruct (vget_range l i Hi) as [x Hx].
  rewrite Hx. apply HQ. by apply vget_Ok in Hx as [_ ?].
Qed.

Lemma vset_Ok {A} (l : list A) i x l' :
  vset l i x = Ok l' <-> 0 <= i < zlength l /\ l' = <[Z.to_nat i := x]> l.
Proof. unfold vset. case_decide; naive_solver. Qed.

Lemma safe_vset {A} (l : list A) i x (Q : list A -> Prop) :
  0 <= i < zlength l -> Q (<[Z.to_nat i := x]> l) -> safe (vset l i x) Q.
Proof. intros. unfold vset. by rewrite decide_True. Qed.

Lemma vget_insert_eq {A} (l : list A) i x :
  0 <= i < zlength l -> vget (<[Z.to_nat i := x]> l) i = Ok x.
Proof.
  intros Hi. apply vget_Ok. split; [lia|]. apply list_lookup_insert_eq. unfold zlength in Hi. lia.
Qed.

Lemma vget_insert_ne {A} (l : list A) i j x :
  0 <= i -> i <> j -> vget (<[Z.to_nat i := x]> l) j = vget l j.
Proof.
  intros Hi Hne. unfold vget. case_decide; [|done].
  rewrite list_lookup_insert_ne by lia. reflexivity.
Qed.

Lemma safe_valter {A} f (l : list A) i (Q : list A -> Prop) :
  0 <= i < zlength l ->
  (forall x, l !! Z.to_nat i = Some x -> Q (<[Z.to_nat i := f x]> l)) ->
  safe (valter f l i) Q.
Proof.
  intros Hi HQ. unfold valter, valterM. apply safe_bind, safe_vget; [done|].
  intros x Hx. simpl. apply safe_vset; auto.
Qed.

Lemma safe_valterM {A} (f : A -> res A) (l : list A) i (Q : list A -> Prop) :
  0 <= i < zlength l ->
  (forall x, l !! Z.to_nat i = Some x -> safe (f x) (fun y => Q (<[Z.to_nat i := y]> l))) ->
  safe (valterM f l i) Q.
Proof.
  intros Hi HQ. unfold valterM. apply safe_bind, safe_vget; [done|].
  intros x Hx. apply safe_bind. eapply safe_mono; [by apply HQ|].
  intros y Hy. by apply safe_vset.
Qed.

(** Loop rules: an invariant indexed by the loop counter. *)
Lemma safe_for {St} (P : Z -> St -> Prop) n i f s :
  P i s ->
  (forall j s, i <= j < i + Z.of_nat n -> P j s -> safe (f j s) (P (j + 1))) ->
  safe (for_ n i f s) (P (i + Z.of_nat n)).
Proof.
  revert i s. induction n as [|n IH]; intros i s H0 Hf.
  { simpl. by rewrite Z.add_0_r. }
  cbn [for_]. apply safe_bind. eapply safe_mono; [apply Hf; [lia|done]|].
  intros s' Hs'. replace (i + Z.of_nat (S n)) with (i + 1 + Z.of_nat n) by lia.
  apply IH; [done|]. intros j s'' Hj. apply Hf. lia.
Qed.

Lemma safe_for_break {St} (P : Z -> St -> Prop) (Q : St -> Prop) n i f s :
  P i s ->
  (forall j s, i <= j < i + Z.of_nat n -> P j s ->
     safe (f j s) (fun r => if (fst r : bool) then Q (snd r) else P (j + 1) (snd r))) ->
  (forall s, P (i + Z.of_nat n) s -> Q s) ->
  safe (for_break n i f s) Q.
Proof.
  revert i s. induction n as [|n IH]; intros i s H0 Hf HQ.
  { simpl. apply HQ. by rewrite Z.add_0_r. }
  cbn [for_break]. apply safe_bind. eapply safe_mono; [apply Hf; [lia|done]|].
  intros [[] s'] Hs'; simpl in *; [done|]. apply IH; [done| |].
  - intros j s'' Hj. apply Hf. lia.
  - intros s''. replace (i + 1 + Z.of_nat n) with (i + Z.of_nat (S n)) by lia. apply HQ.
Qed.

(** What a loop that returned has established. *)
Lemma for_Ok {St} (P : Z -> St -> Prop) n i f s s' :
  P i s -> (forall j s s', i <= j < i + Z.of_nat n -> P j s -> f j s = Ok s' -> P (j + 1) s') ->
  for_ n i f s = Ok s' -> P (i + Z.of_nat n) s'.
Proof.
  revert i s. induction n as [|n IH]; intros i s H0 Hf Hfor.
  { injection Hfor as ->. by rewrite Z.add_0_r. }
  cbn [for_] in Hfor. apply bind_Ok in Hfor as (s1 & Hs1 & Hfor).
  replace (i + Z.of_nat (S n)) with (i + 1 + Z.of_nat n) by lia.
  apply (IH (i + 1) s1); [|intros j s2 s3 Hj; apply Hf; lia|done]. apply (Hf i s); [lia|done..].
Qed.

Lemma safe_for_each {A St} (P : list A -> St -> Prop) l f s :
  P [] s ->
  (forall pre x post s, l = pre ++ x :: post -> P pre s ->
     safe (f x s) (P (pre ++ [x]))) ->
  safe (for_each l f s) (P l).
Proof.
  intros H0 Hf. change l with ([] ++ l) at 2.
  assert (Hgen : forall pre s, P pre s ->
    (forall p x q s, l = p ++ x :: q -> P p s -> safe (f x s) (P (p ++ [x]))) ->
    forall l', l = pre ++ l' -> safe (for_each l' f s) (P (pre ++ l'))).
  { clear. intros pre s Hs Hf l'. revert pre s Hs.
    induction l' as [|x l' IH]; intros pre s Hs Hl; simpl.
    { by rewrite app_nil_r. }
    apply safe_bind. eapply safe_mono; [by eapply Hf|]. intros s' Hs'.
    rewrite cons_middle, app_assoc. apply IH; [done|].
    by rewrite Hl, cons_middle, app_assoc. }
  by apply Hgen.
Qed.

Lemma uniform_Ok lo hi g z g' :
  uniform lo hi g = Ok (z, g') -> lo <= z <= hi /\ rng_raw g' = rng_raw g.
Proof.
  unfold uniform. case_decide; [|done]. intros [= <- <-]. simpl.
  pose proof (Z.mod_pos_bound (rng_raw g (rng_pos g)) (hi - lo + 1)). split; [lia|done].
Qed.

Lemma safe_uniform lo hi g (Q : Z * Rng -> Prop) :
  lo <= hi -> (forall z g', lo <= z <= hi -> Q (z, g')) -> safe (uniform lo hi g) Q.
Proof.
  intros H HQ. destruct (uniform lo hi g) as [[z g']|] eqn:E.
  - simpl. apply HQ. by apply uniform_Ok in E as [? _].
  - unfold uniform in E. by rewrite decide_True in E.
Qed.

Lemma shift_push_length {A} (l l' : list A) x :
  shift_push l x = Ok l' -> length l' = length l.
Proof. destruct l; simpl; [done|]. intros [= <-]. rewrite length_app. simpl. lia. Qed.

Lemma u64_small z : 0 <= z < 2 ^ 64 -> u64 z = z.
Proof. apply Z.mod_small. Qed.

Lemma u32_small z : 0 <= z < 2 ^ 32 -> u32 z = z.
Proof. apply Z.mod_small. Qed.

Lemma i32_small z : - 2 ^ 31 <= z < 2 ^ 31 -> i32 z = z.
Proof. intros. unfold i32. rewrite Z.mod_small; lia. Qed.

(** ** Automation *)

(** Splits hypotheses [m ≫= k = Ok b] and [assert b = Ok _]. *)
Ltac res_inv :=
  repeat match goal with
  | H : _ ≫= _ = Ok _ |- _ => apply bind_Ok in H as (? & ? & H)
  | H : assert _ = Ok _ |- _ => apply assert_Ok in H
  | H : bool_decide _ = true |- _ => apply bool_decide_eq_true in H
  | H : vset _ _ _ = Ok _ |- _ => apply vset_Ok in H as [? H]
  | H : Ok _ = Ok _ |- _ => injection H as H; subst
  | H : mret _ = Ok _ |- _ => injection H as H; subst
  | H : Err _ = Ok _ |- _ => discriminate H
  end.

#[export] Hint Rewrite @zlength_insert @length_insert : garnet.
#[export] Hint Resolve zlength_nonneg : garnet.
