(* ===== verification/Bitfield.v ===== *)
(** * Bitfield: bits of machine words

    base/bitfield.hh and base/bitfield.cc, for 64-bit values.  A shift by the
    width of the word or more is undefined.  The built-in functions of the
    compiler count bits. *)

From S2P Require Import Prelude.

Definition lnot64 (x : Z) : Z := u64 (Z.lnot x).
Definition shl64 (x n : Z) : res Z := if (0 <=? n) && (n <? 64) then Ok (u64 (Z.shiftl x n)) else Err Undefined.
Definition shr64 (x n : Z) : res Z := if (0 <=? n) && (n <? 64) then Ok (Z.shiftr x n) else Err Undefined.

(** ** Fields of bits *)

Definition mask (nbits : Z) : Z := if 64 <=? nbits then 2 ^ 64 - 1 else Z.shiftl 1 nbits - 1.

Definition bits (val first last : Z) : res Z :=
  _ ← assert (last <=? first); v ← shr64 val last; Ok (Z.land v (mask (u32 (first - last + 1)))).

Definition mbits (val first last : Z) : Z := Z.land val (Z.land (mask (u32 (first + 1))) (lnot64 (mask last))).

(** [mask] of two arguments. *)
Definition mask_field (first last : Z) : Z := mbits (2 ^ 64 - 1) first last.

Definition sext (N val : Z) : res Z :=
  sign_bit ← bits val (N - 1) (N - 1); Ok (if sign_bit =? 0 then val else Z.lor val (lnot64 (mask N))).

Definition szext (N val : Z) : res Z :=
  sign_bit ← bits val (N - 1) (N - 1); Ok (if sign_bit =? 0 then Z.land val (mask N) else Z.lor val (lnot64 (mask N))).

Definition insertBits (val first last bit_val : Z) : res Z :=
  _ ← assert (last <=? first);
  let bmask := mask_field first last in
  let val := Z.land val (lnot64 bmask) in
  v ← shl64 bit_val last;
  Ok (Z.lor val (Z.land v bmask)).

(** ** Reversal *)

Definition reverseBitsLookUpTable : list Z :=
  [0x00; 0x80; 0x40; 0xC0; 0x20; 0xA0; 0x60; 0xE0; 0x10; 0x90; 0x50; 0xD0;
   0x30; 0xB0; 0x70; 0xF0; 0x08; 0x88; 0x48; 0xC8; 0x28; 0xA8; 0x68; 0xE8;
   0x18; 0x98; 0x58; 0xD8; 0x38; 0xB8; 0x78; 0xF8; 0x04; 0x84; 0x44; 0xC4;
   0x24; 0xA4; 0x64; 0xE4; 0x14; 0x94; 0x54; 0xD4; 0x34; 0xB4; 0x74; 0xF4;
   0x0C; 0x8C; 0x4C; 0xCC; 0x2C; 0xAC; 0x6C; 0xEC; 0x1C; 0x9C; 0x5C; 0xDC;
   0x3C; 0xBC; 0x7C; 0xFC; 0x02; 0x82; 0x42; 0xC2; 0x22; 0xA2; 0x62; 0xE2;
   0x12; 0x92; 0x52; 0xD2; 0x32; 0xB2; 0x72; 0xF2; 0x0A; 0x8A; 0x4A; 0xCA;
   0x2A; 0xAA; 0x6A; 0xEA; 0x1A; 0x9A; 0x5A; 0xDA; 0x3A; 0xBA; 0x7A; 0xFA;
   0x06; 0x86; 0x46; 0xC6; 0x26; 0xA6; 0x66; 0xE6; 0x16; 0x96; 0x56; 0xD6;
   0x36; 0xB6; 0x76; 0xF6; 0x0E; 0x8E; 0x4E; 0xCE; 0x2E; 0xAE; 0x6E; 0xEE;
   0x1E; 0x9E; 0x5E; 0xDE; 0x3E; 0xBE; 0x7E; 0xFE; 0x01; 0x81; 0x41; 0xC1;
   0x21; 0xA1; 0x61; 0xE1; 0x11; 0x91; 0x51; 0xD1; 0x31; 0xB1; 0x71; 0xF1;
   0x09; 0x89; 0x49; 0xC9; 0x29; 0xA9; 0x69; 0xE9; 0x19; 0x99; 0x59; 0xD9;
   0x39; 0xB9; 0x79; 0xF9; 0x05; 0x85; 0x45; 0xC5; 0x25; 0xA5; 0x65; 0xE5;
   0x15; 0x95; 0x55; 0xD5; 0x35; 0xB5; 0x75; 0xF5; 0x0D; 0x8D; 0x4D; 0xCD;
   0x2D; 0xAD; 0x6D; 0xED; 0x1D; 0x9D; 0x5D; 0xDD; 0x3D; 0xBD; 0x7D; 0xFD;
   0x03; 0x83; 0x43; 0xC3; 0x23; 0xA3; 0x63; 0xE3; 0x13; 0x93; 0x53; 0xD3;
   0x33; 0xB3; 0x73; 0xF3; 0x0B; 0x8B; 0x4B; 0xCB; 0x2B; 0xAB; 0x6B; 0xEB;
   0x1B; 0x9B; 0x5B; 0xDB; 0x3B; 0xBB; 0x7B; 0xFB; 0x07; 0x87; 0x47; 0xC7;
   0x27; 0xA7; 0x67; 0xE7; 0x17; 0x97; 0x57; 0xD7; 0x37; 0xB7; 0x77; 0xF7;
   0x0F; 0x8F; 0x4F; 0xCF; 0x2F; 0xAF; 0x6F; 0xEF; 0x1F; 0x9F; 0x5F; 0xDF;
   0x3F; 0xBF; 0x7F; 0xFF].

(** [bytes] is the size of the type of the value. *)
Definition reverseBits (bytes val size : Z) : res Z :=
  _ ← assert (size <=? bytes);
  if bytes =? 1 then vget reverseBitsLookUpTable val
  else
    '(output, _) ← for_ (Z.to_nat size) 0 (fun _ '(output, val) =>
      r ← vget reverseBitsLookUpTable (Z.land val (mask 8));
      Ok (Z.lor (Z.shiftl output 8 mod 2 ^ (8 * bytes)) r, Z.shiftr val 8)) (0, val);
    Ok output.

(** ** Searching and counting *)

(** One step of the search: skip [n] bits. *)
Definition msb_step (first last n : Z) (s : Z * Z) : res (Z * Z) :=
  let '(msb, val) := s in
  b ← bits val first last;
  if negb (b =? 0) then v ← shr64 val n; Ok (msb + n, v) else Ok (msb, val).

Definition findMsbSet (val : Z) : res Z :=
  if val =? 0 then Ok 0
  else
    s ← msb_step 63 32 32 (0, val);
    s ← msb_step 31 16 16 s;
    s ← msb_step 15 8 8 s;
    s ← msb_step 7 4 4 s;
    '(msb, val) ← msb_step 3 2 2 s;
    b ← bits val 1 1;
    Ok (if negb (b =? 0) then msb + 1 else msb).

Definition lsb_step (first n : Z) (s : Z * Z) : res (Z * Z) :=
  let '(lsb, val) := s in
  b ← bits val first 0;
  if b =? 0 then v ← shr64 val n; Ok (lsb + n, v) else Ok (lsb, val).

Definition findLsbSet (val : Z) : res Z :=
  if val =? 0 then Ok 64
  else
    s ← lsb_step 31 32 (0, val);
    s ← lsb_step 15 16 s;
    s ← lsb_step 7 8 s;
    s ← lsb_step 3 4 s;
    '(lsb, val) ← lsb_step 1 2 s;
    b ← bits val 0 0;
    Ok (if b =? 0 then lsb + 1 else lsb).

(** [__builtin_popcountl] *)
Fixpoint popcount_pos (p : positive) : Z :=
  match p with xH => 1 | xO p => popcount_pos p | xI p => 1 + popcount_pos p end.

Definition popCount (val : Z) : Z := match val with Zpos p => popcount_pos p | _ => 0 end.

(** [popCount] where the compiler has no such function. *)
Definition popCount_parallel (val : Z) : Z :=
  let m1 := 0x5555555555555555 in
  let m2 := 0x3333333333333333 in
  let m4 := 0x0f0f0f0f0f0f0f0f in
  let sum := 0x0101010101010101 in
  let val := u64 (val - Z.land (Z.shiftr val 1) m1) in
  let val := u64 (Z.land val m2 + Z.land (Z.shiftr val 2) m2) in
  let val := Z.land (u64 (val + Z.shiftr val 4)) m4 in
  Z.shiftr (u64 (val * sum)) 56.

Definition alignToPowerOfTwo (val : Z) : Z :=
  let val := u64 (val - 1) in
  let val := Z.lor val (Z.shiftr val 1) in
  let val := Z.lor val (Z.shiftr val 2) in
  let val := Z.lor val (Z.shiftr val 4) in
  let val := Z.lor val (Z.shiftr val 8) in
  let val := Z.lor val (Z.shiftr val 16) in
  let val := Z.lor val (Z.shiftr val 32) in
  u64 (val + 1).

(** [__builtin_ctzll] *)
Fixpoint ctz_pos (p : positive) : Z := match p with xO p => 1 + ctz_pos p | _ => 0 end.

Definition ctz64 (value : Z) : Z := match value with Zpos p => ctz_pos p | _ => 64 end.
Definition ctz32 (value : Z) : Z := match value with Zpos p => ctz_pos p | _ => 32 end.
Definition clz64 (value : Z) : Z := if value =? 0 then 64 else 63 - Z.log2 value.
Definition clz32 (value : Z) : Z := if value =? 0 then 32 else 31 - Z.log2 value.
