(* ===== verification/BitfieldProofs.v ===== *)
(** * BitfieldProofs: what the functions on bits compute

    The bits of the results, and the optimised searches and counts against
    their meaning. *)

From S2P Require Import Prelude Bitfield.

(** ** Words *)

Definition word (x : Z) : Prop := 0 <= x < 2 ^ 64.

Lemma bits_bound n x : 0 <= n -> 0 <= x < 2 ^ n <-> 0 <= x /\ forall i, n <= i -> Z.testbit x i = false.
Proof.
  intros Hn. split.
  - intros Hx. split; [lia|]. intros i Hi. destruct (decide (x = 0)) as [->|]; [apply Z.testbit_0_l|].
    apply Z.bits_above_log2; [lia|]. assert (Z.log2 x < n) by (apply Z.log2_lt_pow2; lia). lia.
  - intros [Hx Hi]. split; [done|]. apply Z.lt_nge. intros Hge. assert (0 < 2 ^ n) by (apply Z.pow_pos_nonneg; lia).
    assert (n <= Z.log2 x) as Hl by (apply Z.log2_le_pow2; lia). specialize (Hi _ Hl). rewrite Z.bit_log2 in Hi; [done|lia].
Qed.

Lemma word_bits x : word x <-> 0 <= x /\ forall i, 64 <= i -> Z.testbit x i = false.
Proof. by apply bits_bound. Qed.

Lemma u64_testbit x i : Z.testbit (u64 x) i = (i <? 64) && Z.testbit x i.
Proof.
  unfold u64. destruct (Z.ltb_spec i 64).
  - destruct (Z.lt_ge_cases i 0); [by rewrite !Z.testbit_neg_r|]. by rewrite Z.mod_pow2_bits_low.
  - by rewrite Z.mod_pow2_bits_high by lia.
Qed.

Lemma u64_word x : word (u64 x).
Proof. unfold word, u64. apply Z.mod_pos_bound. lia. Qed.

Lemma lnot64_testbit x i : 0 <= i -> Z.testbit (lnot64 x) i = (i <? 64) && negb (Z.testbit x i).
Proof. intros Hi. unfold lnot64. by rewrite u64_testbit, Z.lnot_spec. Qed.

Lemma word_land_l x y : word x -> 0 <= y -> word (Z.land x y).
Proof.
  rewrite !word_bits. intros [Hx Hb] Hy. split; [by apply Z.land_nonneg; left|]. intros i Hi. by rewrite Z.land_spec, Hb.
Qed.

Lemma word_lor x y : word x -> word y -> word (Z.lor x y).
Proof.
  rewrite !word_bits. intros [Hx Hb] [Hy Hc]. split; [by apply Z.lor_nonneg|]. intros i Hi. by rewrite Z.lor_spec, Hb, Hc.
Qed.

Lemma word_shiftr x n : word x -> 0 <= n -> word (Z.shiftr x n).
Proof.
  rewrite !word_bits. intros [Hx Hb] Hn. split; [by apply Z.shiftr_nonneg|]. intros i Hi. rewrite Z.shiftr_spec by lia. apply Hb. lia.
Qed.

Lemma word_ext x y : word x -> word y -> (forall i, 0 <= i < 64 -> Z.testbit x i = Z.testbit y i) -> x = y.
Proof.
  rewrite !word_bits. intros [Hx Hb] [Hy Hc] Heq. apply Z.bits_inj_iff'. intros i Hi.
  destruct (Z.lt_ge_cases i 64); [by apply Heq|by rewrite Hb, Hc].
Qed.

(** ** Fields *)

Lemma mask_testbit n i : 0 <= n -> 0 <= i -> Z.testbit (mask n) i = (i <? n) && (i <? 64).
Proof.
  intros Hn Hi. unfold mask. destruct (Z.leb_spec 64 n).
  - replace (2 ^ 64 - 1) with (Z.ones 64) by done. rewrite Z.testbit_ones_nonneg by lia. destruct (Z.ltb_spec i n), (Z.ltb_spec i 64); lia || done.
  - replace (Z.shiftl 1 n - 1) with (Z.ones n) by (unfold Z.ones; lia). rewrite Z.testbit_ones_nonneg by lia.
    destruct (Z.ltb_spec i n), (Z.ltb_spec i 64); lia || done.
Qed.

Lemma mask_word n : 0 <= n -> word (mask n).
Proof.
  intros Hn. apply word_bits. split.
  - unfold mask. destruct (Z.leb_spec 64 n); [lia|]. rewrite Z.shiftl_1_l. pose proof (Z.pow_pos_nonneg 2 n). lia.
  - intros i Hi. rewrite mask_testbit by lia. apply andb_false_iff. right. lia.
Qed.

Lemma u32_bound x : 0 <= u32 x < 2 ^ 32.
Proof. unfold u32. apply Z.mod_pos_bound. lia. Qed.

(** A field of bits, or none when [first] is the largest unsigned number. *)
Lemma mask_field_testbit first last i : 0 <= last -> -1 <= first < 64 -> 0 <= i ->
  Z.testbit (mask_field (u32 first) last) i = (last <=? i) && (i <=? first) && (i <? 64).
Proof.
  intros Hl Hf Hi. pose proof (u32_bound (u32 first + 1)). unfold mask_field, mbits. rewrite !Z.land_spec. replace (2 ^ 64 - 1) with (Z.ones 64) by done.
  rewrite Z.testbit_ones_nonneg, mask_testbit, lnot64_testbit, mask_testbit by lia.
  replace (u32 (u32 first + 1)) with (first + 1) 
    by (destruct (decide (first = -1)) as [->|]; [done|]; rewrite (u32_small first), u32_small; lia).
  destruct (Z.ltb_spec i 64), (Z.ltb_spec i (first + 1)), (Z.ltb_spec i last), (Z.leb_spec last i), (Z.leb_spec i first); try done; lia.
Qed.

Lemma mask_field_word first last : word (mask_field first last).
Proof.
  unfold mask_field, mbits. apply word_land_l; [by unfold word|]. apply Z.land_nonneg. left. apply mask_word, u32_bound.
Qed.

(** [insertBits] replaces the field by the low bits of the value. *)
Lemma insertBits_spec val first last v : word val -> 0 <= last < 64 -> -1 <= first < 64 -> last <= u32 first -> 0 <= v ->
  exists r, insertBits val (u32 first) last v = Ok r /\ word r /\
    forall i, 0 <= i < 64 -> Z.testbit r i = if (last <=? i) && (i <=? first) then Z.testbit v (i - last) else Z.testbit val i.
Proof.
  intros Hval Hl Hf Hle Hv. unfold insertBits. rewrite (proj2 (Z.leb_le _ _)) by done. cbn [assert mbind res_bind].
  unfold shl64. rewrite (proj2 (Z.leb_le _ _)), (proj2 (Z.ltb_lt _ _)) by lia. cbn [andb mbind res_bind].
  eexists. split; [done|]. split.
  - apply word_lor; apply word_land_l; [done|apply u64_word|apply u64_word|apply mask_field_word].
  - intros i Hi. rewrite Z.lor_spec, !Z.land_spec, lnot64_testbit, u64_testbit, mask_field_testbit by lia.
    rewrite (proj2 (Z.ltb_lt i 64)) by lia. rewrite !andb_true_r, andb_true_l. destruct (Z.leb_spec last i); simpl.
    + rewrite Z.shiftl_spec by lia. destruct (i <=? first); simpl; [by rewrite andb_false_r, andb_true_r|by rewrite andb_true_r, andb_false_r, orb_false_r].
    + by rewrite andb_true_r, andb_false_r, orb_false_r.
Qed.

Lemma bits_one val i : 0 <= i < 64 -> bits val i i = Ok (Z.b2z (Z.testbit val i)).
Proof.
  intros Hi. unfold bits. rewrite Z.leb_refl. cbn [assert mbind res_bind]. unfold shr64.
  rewrite (proj2 (Z.leb_le _ _)), (proj2 (Z.ltb_lt _ _)) by lia. cbn [andb mbind res_bind]. f_equal.
  replace (u32 (i - i + 1)) with 1 by (unfold u32; by rewrite Z.sub_diag). change (mask 1) with (Z.ones 1). rewrite Z.land_ones by lia.
  rewrite Z.testbit_spec' by lia. rewrite Z.shiftr_div_pow2 by lia. done.
Qed.

(** ** Counting *)

Lemma popCount_step b x : 0 <= x -> popCount (2 * x + Z.b2z b) = popCount x + Z.b2z b.
Proof.
  intros Hx. destruct x as [|p|p], b; [done|done| | |lia|lia].
  - change (2 * Z.pos p + Z.b2z true) with (Z.pos p~1). unfold popCount. cbn [popcount_pos Z.b2z]. lia.
  - change (2 * Z.pos p + Z.b2z false) with (Z.pos p~0). unfold popCount. cbn [popcount_pos Z.b2z]. lia.
Qed.

Lemma popCount_nonneg x : 0 <= popCount x.
Proof. destruct x as [|p|p]; [done| |done]. unfold popCount. induction p; cbn [popcount_pos]; lia. Qed.

Lemma popCount_split x : 0 <= x -> popCount x = popCount (x / 2) + x mod 2.
Proof.
  intros Hx. pose proof (Z.div_mod x 2 ltac:(lia)) as Hd. assert (0 <= x / 2) by (apply Z.div_pos; lia).
  pose proof (Z.mod_pos_bound x 2 ltac:(lia)).
  assert (x mod 2 = Z.b2z (Z.odd x)) as Ho by (by rewrite Zmod_odd; destruct (Z.odd x)).
  rewrite Ho, <-popCount_step by done. f_equal. lia.
Qed.

(** The parity of the bits that are set. *)
Definition parity (x : Z) : bool := Z.odd (popCount x).

Lemma parity_split x : 0 <= x -> parity x = xorb (parity (x / 2)) (Z.odd x).
Proof.
  intros Hx. unfold parity. rewrite (popCount_split x) by done. rewrite Z.odd_add. f_equal. rewrite Zmod_odd. by destruct (Z.odd x).
Qed.

Lemma parity_lxor x y : 0 <= x -> 0 <= y -> parity (Z.lxor x y) = xorb (parity x) (parity y).
Proof.
  intros Hx. revert y. pattern x. apply Zlt_0_ind; [|done]. clear x Hx. intros x IH Hx y Hy.
  assert (0 <= Z.lxor x y) by (apply Z.lxor_nonneg; lia).
  destruct (decide (x = 0)) as [->|]; [by rewrite Z.lxor_0_l|].
  rewrite (parity_split (Z.lxor x y)), (parity_split x), (parity_split y) by done.
  rewrite <-!Z.div2_div, Z.div2_spec, Z.shiftr_lxor, <-!Z.div2_spec, !Z.div2_div.
  rewrite IH; [|split; [apply Z.div_pos; lia|apply Z.div_lt; lia]|apply Z.div_pos; lia].
  rewrite <-!Z.bit0_odd, Z.lxor_spec. by destruct (parity (x / 2)), (parity (y / 2)), (Z.testbit x 0), (Z.testbit y 0).
Qed.

Lemma popCount_concat n x y : 0 <= n -> 0 <= x < 2 ^ n -> 0 <= y -> popCount (x + 2 ^ n * y) = popCount x + popCount y.
Proof.
  intros Hn. revert x. pattern n. apply natlike_ind; [|clear n Hn; intros n Hn IH|done].
  - intros x Hx Hy. assert (x = 0) as -> by lia. by replace (0 + 2 ^ 0 * y) with y by lia.
  - intros x Hx Hy. rewrite Z.pow_succ_r in * by done. assert (0 <= 2 ^ n) by (apply Z.pow_nonneg; lia).
    assert (0 <= 2 ^ n * y) by (by apply Z.mul_nonneg_nonneg).
    rewrite (popCount_split (x + _)), (popCount_split x) by lia.
    replace (x + 2 * 2 ^ n * y) with (x + (2 ^ n * y) * 2) by lia. rewrite Z.div_add, Z.mod_add by lia.
    rewrite IH; [lia| |done]. split; [apply Z.div_pos; lia|apply Z.div_lt_upper_bound; lia].
Qed.

(** *** The parallel count *)

(** Words as bytes, the lowest first. *)
Definition of_bytes (l : list Z) : Z := foldr (fun b acc => b + 256 * acc) 0 l.
Definition byte (b : Z) : Prop := 0 <= b < 256.

Lemma of_bytes_cons b l : of_bytes (b :: l) = b + 256 * of_bytes l.
Proof. done. Qed.

Lemma of_bytes_bound l : Forall byte l -> 0 <= of_bytes l < 256 ^ Z.of_nat (length l).
Proof.
  induction 1 as [|b l Hb _ IH]; [done|]. cbn [of_bytes foldr length]. fold (of_bytes l). rewrite Nat2Z.inj_succ, Z.pow_succ_r by lia. unfold byte in Hb. lia.
Qed.

Lemma to_bytes n x : 0 <= x < 256 ^ Z.of_nat n -> exists l, length l = n /\ Forall byte l /\ x = of_bytes l.
Proof.
  revert x. induction n as [|n IH]; intros x Hx; [exists []; simpl in *; split; [done|]; split; [constructor|lia]|].
  rewrite Nat2Z.inj_succ, Z.pow_succ_r in Hx by lia. pose proof (Z.div_mod x 256 ltac:(lia)). pose proof (Z.mod_pos_bound x 256 ltac:(lia)).
  destruct (IH (x / 256)) as (l & Hlen & Hl & Heq); [split; [apply Z.div_pos; lia|apply Z.div_lt_upper_bound; lia]|].
  exists (x mod 256 :: l). split; [simpl; lia|]. split; [by constructor|]. cbn [of_bytes foldr]. fold (of_bytes l). lia.
Qed.

Lemma byte_testbit b acc i : byte b -> 0 <= acc -> 0 <= i -> Z.testbit (b + 256 * acc) i = if i <? 8 then Z.testbit b i else Z.testbit acc (i - 8).
Proof.
  intros Hb Hacc Hi. change 256 with (2 ^ 8). destruct (Z.ltb_spec i 8).
  - rewrite <-(Z.mod_pow2_bits_low _ 8 i) by lia. rewrite (Z.mul_comm (2 ^ 8)), Z.mod_add by lia. rewrite Z.mod_small; [done|unfold byte in Hb; lia].
  - replace i with ((i - 8) + 8) at 1 by lia. rewrite <-Z.div_pow2_bits by lia. rewrite (Z.mul_comm (2 ^ 8)), Z.div_add by lia.
    rewrite Z.div_small; [done|unfold byte in Hb; lia].
Qed.

Lemma byte_land b m : byte b -> 0 <= m -> byte (Z.land b m).
Proof.
  change (byte b) with (0 <= b < 2 ^ 8). change (byte (Z.land b m)) with (0 <= Z.land b m < 2 ^ 8). rewrite !bits_bound by lia.
  intros [Hb Hi] Hm. split; [by apply Z.land_nonneg; left|]. intros i Hge. by rewrite Z.land_spec, Hi.
Qed.

Lemma land_cons b m X M : byte b -> byte m -> 0 <= X -> 0 <= M -> Z.land (b + 256 * X) (m + 256 * M) = Z.land b m + 256 * Z.land X M.
Proof.
  intros Hb Hm HX HM. assert (byte (Z.land b m)) by (apply byte_land; [done|unfold byte in Hm; lia]).
  assert (0 <= Z.land X M) by (apply Z.land_nonneg; by left).
  apply Z.bits_inj_iff'. intros i Hi. rewrite Z.land_spec, !byte_testbit by done. destruct (i <? 8); by rewrite Z.land_spec.
Qed.

Lemma of_bytes_nonneg l : Forall byte l -> 0 <= of_bytes l.
Proof. intros Hl. by apply of_bytes_bound in Hl as [? _]. Qed.

Lemma of_replicate n m : byte m -> 0 <= of_bytes (replicate n m).
Proof. intros Hm. by apply of_bytes_nonneg, Forall_replicate. Qed.

Lemma of_bytes_land n l m : length l = n -> Forall byte l -> byte m -> Z.land (of_bytes l) (of_bytes (replicate n m)) = of_bytes ((fun b => Z.land b m) <$> l).
Proof.
  intros <- Hl Hm. induction Hl as [|b l Hb Hl IH]; [done|]. simpl. fold (of_bytes l). rewrite land_cons; [|done..|by apply of_bytes_nonneg|by apply of_replicate].
  by rewrite IH.
Qed.

Lemma of_bytes_shiftr k n l m : 0 <= k <= 8 -> length l = n -> Forall byte l -> 0 <= m < 2 ^ (8 - k) ->
  Z.land (Z.shiftr (of_bytes l) k) (of_bytes (replicate n m)) = of_bytes ((fun b => Z.land (Z.shiftr b k) m) <$> l).
Proof.
  intros Hk <- Hl Hm. assert (2 ^ (8 - k) <= 2 ^ 8) by (apply Z.pow_le_mono_r; lia). assert (byte m) as Hbm by (unfold byte; lia).
  induction Hl as [|b l Hb Hl IH]; [by rewrite Z.shiftr_0_l|]. cbn [of_bytes foldr length replicate fmap list_fmap].
  fold (of_bytes l) (of_bytes (replicate (length l) m)) (of_bytes ((fun b => Z.land (Z.shiftr b k) m) <$> l)). rewrite <-IH.
  pose proof (of_bytes_bound l Hl) as [? _].
  assert (0 <= of_bytes (replicate (length l) m)) by (apply of_bytes_bound, Forall_replicate; done).
  assert (byte (Z.land (Z.shiftr b k) m)) by (rewrite Z.land_comm; apply byte_land; [done|apply Z.shiftr_nonneg; unfold byte in Hb; lia]).
  assert (0 <= Z.land (Z.shiftr (of_bytes l) k) (of_bytes (replicate (length l) m))) by (apply Z.land_nonneg; by right).
  assert (forall i, 8 - k <= i -> Z.testbit m i = false) as Hhigh.
  { apply bits_bound in Hm as [_ ?]; [done|lia]. }
  apply Z.bits_inj_iff'. intros i Hi. rewrite Z.land_spec, Z.shiftr_spec, !byte_testbit by (done || lia).
  destruct (Z.ltb_spec i 8).
  - rewrite Z.land_spec, Z.shiftr_spec by lia. destruct (Z.ltb_spec (i + k) 8); [done|]. by rewrite Hhigh, !andb_false_r by lia.
  - rewrite (proj2 (Z.ltb_ge (i + k) 8)) by lia. rewrite Z.land_spec, Z.shiftr_spec by lia. do 2 f_equal. lia.
Qed.

(** The bytes of the three steps of [popCount_parallel]. *)
Definition pairs (b : Z) : Z := b - Z.land (Z.shiftr b 1) 0x55.
Definition nibbles (b : Z) : Z := Z.land b 0x33 + Z.land (Z.shiftr b 2) 0x33.
Definition fold_nibbles (b : Z) : Z := Z.land (b + Z.shiftr b 4) 0x0f.

Lemma for_bytes (P : Z -> bool) : forallb P (Z.of_nat <$> seq 0 256) = true -> forall b, byte b -> P b = true.
Proof.
  intros Hall b Hb. rewrite forallb_forall in Hall. apply Hall. apply list_elem_of_In, list_elem_of_fmap. exists (Z.to_nat b).
  unfold byte in Hb. rewrite elem_of_seq. lia.
Qed.

Lemma pairs_byte b : byte b -> byte (pairs b).
Proof. intros Hb. apply (for_bytes (fun b => (0 <=? pairs b) && (pairs b <? 256))) in Hb; [unfold byte; lia|by vm_compute]. Qed.

(** After the second step no half of a byte is more than 4. *)
Lemma nibbles_small b : byte b -> let c := nibbles (pairs b) in byte c /\ c mod 16 <= 4 /\ c / 16 <= 4.
Proof.
  intros Hb. apply (for_bytes (fun b => let c := nibbles (pairs b) in (0 <=? c) && (c <? 256) && (c mod 16 <=? 4) && (c / 16 <=? 4))) in Hb; [|by vm_compute].
  cbv zeta in *. unfold byte. lia.
Qed.

Lemma counted b : byte b -> fold_nibbles (nibbles (pairs b)) = popCount b /\ 0 <= popCount b <= 8.
Proof.
  intros Hb. apply (for_bytes (fun b => (fold_nibbles (nibbles (pairs b)) =? popCount b) && (0 <=? popCount b) && (popCount b <=? 8))) in Hb; [lia|by vm_compute].
Qed.

Lemma of_bytes_fold n l : length l = n -> Forall (fun c => byte c /\ c mod 16 <= 4 /\ c / 16 <= 4) l ->
  Z.land (of_bytes l + Z.shiftr (of_bytes l) 4) (of_bytes (replicate n 0x0f)) = of_bytes (fold_nibbles <$> l) /\ of_bytes l mod 16 <= 4.
Proof.
  intros <-. induction 1 as [|b l (Hb & Hlo & Hhi) Hl [IH Hnext]]; [done|]. simpl. fold (of_bytes l).
  assert (0 <= of_bytes l) by (apply of_bytes_nonneg; eapply list.Forall_impl; [exact Hl|naive_solver]).
  rewrite Z.shiftr_div_pow2 in * by lia. change (2 ^ 4) with 16 in *. set (X := of_bytes l) in *.
  pose proof (Z.div_mod b 16 ltac:(lia)). pose proof (Z.mod_pos_bound b 16 ltac:(lia)). pose proof (Z.div_mod X 16 ltac:(lia)). pose proof (Z.mod_pos_bound X 16 ltac:(lia)).
  assert (0 <= X / 16) by (apply Z.div_pos; lia). assert (0 <= b / 16) by (apply Z.div_pos; unfold byte in Hb; lia). split.
  - replace (b + 256 * X) with (b + (16 * X) * 16) at 2 by lia. rewrite Z.div_add by lia.
    replace (b + 256 * X + (b / 16 + 16 * X)) with ((b + b / 16 + 16 * (X mod 16)) + 256 * (X + X / 16)) by lia.
    rewrite land_cons; [|unfold byte in *; lia|done|lia|by apply of_replicate]. rewrite IH. f_equal. unfold fold_nibbles.
    rewrite Z.shiftr_div_pow2 by lia. change 15 with (Z.ones 4). rewrite !Z.land_ones by lia. change (2 ^ 4) with 16.
    by rewrite (Z.mul_comm 16 (X mod 16)), Z.mod_add by lia.
  - replace (b + 256 * X) with (b + (16 * X) * 16) by lia. by rewrite Z.mod_add by lia.
Qed.

Lemma of_bytes_sub (f : Z -> Z) l : of_bytes l - of_bytes (f <$> l) = of_bytes ((fun b => b - f b) <$> l).
Proof. induction l as [|b l IH]; [done|]. rewrite !fmap_cons, !of_bytes_cons. lia. Qed.

Lemma of_bytes_add (f g : Z -> Z) l : of_bytes (f <$> l) + of_bytes (g <$> l) = of_bytes ((fun b => f b + g b) <$> l).
Proof. induction l as [|b l IH]; [done|]. rewrite !fmap_cons, !of_bytes_cons. lia. Qed.

Lemma popCount_bytes l : Forall byte l -> popCount (of_bytes l) = foldr (fun b n => popCount b + n) 0 l.
Proof.
  induction 1 as [|b l Hb Hl IH]; [done|]. simpl. fold (of_bytes l). rewrite <-IH. apply (popCount_concat 8); [done|done|by apply of_bytes_nonneg].
Qed.

(** The product adds up the bytes in its highest byte. *)
Lemma horizontal_sum l : length l = 8%nat -> Forall (fun c => 0 <= c <= 8) l ->
  Z.shiftr (u64 (of_bytes l * 0x0101010101010101)) 56 = foldr (fun c n => c + n) 0 l.
Proof.
  destruct l as [|c0 [|c1 [|c2 [|c3 [|c4 [|c5 [|c6 [|c7 [|]]]]]]]]]; try done. intros _ Hl.
  repeat (apply list.Forall_cons in Hl as [? Hl]). cbn [of_bytes foldr]. rewrite Z.shiftr_div_pow2 by lia. unfold u64.
  set (S := c0 + (c1 + (c2 + (c3 + (c4 + (c5 + (c6 + (c7 + 0)))))))).
  set (q := (c1 + c2 + c3 + c4 + c5 + c6 + c7) + 256 * ((c2 + c3 + c4 + c5 + c6 + c7) + 256 * ((c3 + c4 + c5 + c6 + c7) +
    256 * ((c4 + c5 + c6 + c7) + 256 * ((c5 + c6 + c7) + 256 * ((c6 + c7) + 256 * c7)))))).
  set (r := c0 + 256 * ((c0 + c1) + 256 * ((c0 + c1 + c2) + 256 * ((c0 + c1 + c2 + c3) + 256 * ((c0 + c1 + c2 + c3 + c4) +
    256 * ((c0 + c1 + c2 + c3 + c4 + c5) + 256 * (c0 + c1 + c2 + c3 + c4 + c5 + c6))))))).
  rewrite <-(Z.mod_unique _ (2 ^ 64) q (S * 2 ^ 56 + r)); [|left; unfold S, r; lia|unfold S, q, r; lia].
  symmetry. apply (Z.div_unique _ _ _ r); [left; unfold r; lia|lia].
Qed.

Lemma of_bytes_small l : length l = 8%nat -> Forall (fun c => byte c /\ c mod 16 <= 4 /\ c / 16 <= 4) l ->
  0 <= of_bytes l + Z.shiftr (of_bytes l) 4 < 2 ^ 64.
Proof.
  intros Hlen Hl. assert (Forall (fun c => 0 <= c <= 68) l) as Hsmall.
  { eapply list.Forall_impl; [exact Hl|]. intros c (Hc & Hlo & Hhi). simpl. unfold byte in Hc. pose proof (Z.div_mod c 16 ltac:(lia)). lia. }
  rewrite Z.shiftr_div_pow2 by lia. clear Hl.
  assert (0 <= of_bytes l < 2 ^ 63) as Hb.
  { destruct l as [|c0 [|c1 [|c2 [|c3 [|c4 [|c5 [|c6 [|c7 [|]]]]]]]]]; try done. repeat (apply list.Forall_cons in Hsmall as [? Hsmall]).
    cbn [of_bytes foldr]. lia. }
  pose proof (Z.div_pos (of_bytes l) (2 ^ 4)). assert (of_bytes l / 2 ^ 4 <= of_bytes l) by (apply Z.div_le_upper_bound; lia). lia.
Qed.

Lemma popCount_parallel_correct val : word val -> popCount_parallel val = popCount val.
Proof.
  intros Hw. destruct (to_bytes 8 val Hw) as (l & Hlen & Hl & ->). unfold popCount_parallel.
  assert (forall f : Z -> Z, (forall b, byte b -> byte (f b)) -> Forall byte (f <$> l)) as Hmap.
  { intros f Hf. apply Forall_fmap. eapply list.Forall_impl; [exact Hl|]. exact Hf. }
  assert (forall f : Z -> Z, (forall b, byte b -> byte (f b)) -> u64 (of_bytes (f <$> l)) = of_bytes (f <$> l)) as Hu.
  { intros f Hf. apply u64_small. pose proof (of_bytes_bound _ (Hmap f Hf)) as Hb. by rewrite length_fmap, Hlen in Hb. }
  change 0x5555555555555555 with (of_bytes (replicate 8 0x55)). change 0x3333333333333333 with (of_bytes (replicate 8 0x33)).
  change 0x0f0f0f0f0f0f0f0f with (of_bytes (replicate 8 0x0f)).
  cbv zeta. rewrite (of_bytes_shiftr 1 8 l), of_bytes_sub by done. change (fun b => b - Z.land (Z.shiftr b 1) 0x55) with pairs. rewrite Hu by apply pairs_byte.
  rewrite (of_bytes_land 8), (of_bytes_shiftr 2 8), of_bytes_add by (first [by rewrite ?length_fmap|by apply Hmap, pairs_byte|by split; vm_compute|by split_and!; vm_compute]).
  change (fun b => Z.land b 0x33 + Z.land (Z.shiftr b 2) 0x33) with nibbles. rewrite <-list_fmap_compose. unfold compose.
  assert (forall b, byte b -> byte (nibbles (pairs b))) as Hn by (intros b Hb; by destruct (nibbles_small b Hb)).
  rewrite Hu by done. set (c := (fun b => nibbles (pairs b)) <$> l).
  assert (Forall (fun c => byte c /\ c mod 16 <= 4 /\ c / 16 <= 4) c) as Hc by (apply Forall_fmap; eapply list.Forall_impl; [exact Hl|apply nibbles_small]).
  assert (length c = 8%nat) as Hlc by (unfold c; by rewrite length_fmap).
  destruct (of_bytes_fold 8 c Hlc Hc) as [Hfold _].
  assert (Forall byte c) as Hbc by (eapply list.Forall_impl; [exact Hc|naive_solver]).
  rewrite (u64_small (of_bytes c + _)), Hfold by (by apply (of_bytes_small c)).
  unfold c. rewrite <-list_fmap_compose. unfold compose.
  rewrite popCount_bytes by done. rewrite horizontal_sum.
  - clear -Hl. induction Hl as [|b l Hb Hl IH]; [done|]. rewrite fmap_cons. cbn [foldr]. by rewrite IH, (proj1 (counted b Hb)).
  - by rewrite length_fmap.
  - apply Forall_fmap. eapply list.Forall_impl; [exact Hl|]. intros b Hb. simpl. destruct (counted b Hb) as [-> ?]. done.
Qed.

(** ** Searching *)

Lemma bits_value val first last : 0 <= val -> 0 <= last <= first -> first < 64 -> bits val first last = Ok (val / 2 ^ last mod 2 ^ (first - last + 1)).
Proof.
  intros Hv Hl Hf. unfold bits. rewrite (proj2 (Z.leb_le _ _)) by lia. cbn [assert mbind res_bind]. unfold shr64.
  rewrite (proj2 (Z.leb_le _ _)), (proj2 (Z.ltb_lt _ _)) by lia. cbn [andb mbind res_bind]. f_equal.
  rewrite u32_small, Z.shiftr_div_pow2 by lia. rewrite <-Z.land_ones by lia. f_equal. apply Z.bits_inj_iff'. intros i Hi.
  rewrite mask_testbit, Z.testbit_ones_nonneg by lia. destruct (Z.ltb_spec i (first - last + 1)), (Z.ltb_spec i 64); lia || done.
Qed.

Lemma shr64_Ok x n : 0 <= n < 64 -> shr64 x n = Ok (x / 2 ^ n).
Proof. intros Hn. unfold shr64. rewrite (proj2 (Z.leb_le _ _)), (proj2 (Z.ltb_lt _ _)) by lia. simpl. by rewrite Z.shiftr_div_pow2 by lia. Qed.

Lemma msb_step_ok n msb val : 0 < n <= 32 -> 0 < val < 2 ^ (2 * n) -> exists msb' val',
  msb_step (2 * n - 1) n n (msb, val) = Ok (msb', val') /\ 0 < val' < 2 ^ n /\ msb' + Z.log2 val' = msb + Z.log2 val.
Proof.
  intros Hn Hv. unfold msb_step. rewrite bits_value by lia. cbn [mbind res_bind]. replace (2 * n - 1 - n + 1) with n by lia.
  assert (2 ^ (2 * n) = 2 ^ n * 2 ^ n) as Hp by (rewrite <-Z.pow_add_r by lia; f_equal; lia). assert (0 < 2 ^ n) by (apply Z.pow_pos_nonneg; lia).
  rewrite Z.mod_small by (split; [apply Z.div_pos; lia|apply Z.div_lt_upper_bound; lia]).
  destruct (Z.eqb_spec (val / 2 ^ n) 0) as [Hz|Hz]; simpl.
  - exists msb, val. split; [done|]. apply Z.div_small_iff in Hz; [|lia]. lia.
  - rewrite shr64_Ok by lia. simpl. exists (msb + n), (val / 2 ^ n). split; [done|].
    assert (0 <= val / 2 ^ n) by (apply Z.div_pos; lia). split; [split; [lia|apply Z.div_lt_upper_bound; lia]|].
    rewrite <-Z.shiftr_div_pow2, Z.log2_shiftr by lia.
    assert (n <= Z.log2 val); [|lia]. apply Z.log2_le_pow2; [lia|]. apply Z.nlt_ge. intros Hlt. apply Hz. apply Z.div_small. lia.
Qed.

Lemma findMsbSet_correct val : word val -> val <> 0 -> findMsbSet val = Ok (Z.log2 val).
Proof.
  intros Hw Hne. unfold findMsbSet. rewrite (proj2 (Z.eqb_neq _ _)) by done. unfold word in Hw.
  destruct (msb_step_ok 32 0 val) as (m1 & v1 & Hs1 & H1 & Hl1); [lia|change (2 ^ (2 * 32)) with (2 ^ 64); lia|]. change (2 * 32 - 1) with 63 in Hs1. rewrite Hs1. cbn [mbind res_bind].
  destruct (msb_step_ok 16 m1 v1) as (m2 & v2 & Hs2 & H2 & Hl2); [lia|exact H1|]. change (2 * 16 - 1) with 31 in Hs2. rewrite Hs2. cbn [mbind res_bind].
  destruct (msb_step_ok 8 m2 v2) as (m3 & v3 & Hs3 & H3 & Hl3); [lia|exact H2|]. change (2 * 8 - 1) with 15 in Hs3. rewrite Hs3. cbn [mbind res_bind].
  destruct (msb_step_ok 4 m3 v3) as (m4 & v4 & Hs4 & H4 & Hl4); [lia|exact H3|]. change (2 * 4 - 1) with 7 in Hs4. rewrite Hs4. cbn [mbind res_bind].
  destruct (msb_step_ok 2 m4 v4) as (m5 & v5 & Hs5 & H5 & Hl5); [lia|exact H4|]. change (2 * 2 - 1) with 3 in Hs5. rewrite Hs5. cbn [mbind res_bind].
  assert (v5 = 1 \/ v5 = 2 \/ v5 = 3) as Hv5 by (change (2 ^ 2) with 4 in H5; lia). rewrite bits_one by lia. cbn [mbind res_bind]. f_equal.
  destruct Hv5 as [->|[->| ->]]; cbn in Hl5 |- *; lia.
Qed.

(** [k] is the lowest bit of [val] that is set. *)
Definition is_lsb (val k : Z) : Prop := 0 <= k /\ Z.testbit val k = true /\ forall j, 0 <= j < k -> Z.testbit val j = false.

Lemma is_lsb_unique val k k' : is_lsb val k -> is_lsb val k' -> k = k'.
Proof.
  intros (Hk & Hb & Hlow) (Hk' & Hb' & Hlow'). destruct (Z.lt_trichotomy k k') as [?|[?|?]]; [|done|].
  - rewrite Hlow' in Hb by lia. done.
  - rewrite Hlow in Hb' by lia. done.
Qed.

Lemma ctz64_lsb val : 0 < val -> is_lsb val (ctz64 val).
Proof.
  destruct val as [|p|p]; try lia. intros _. simpl. induction p as [p _|p (Hk & Hb & Hlow)|]; simpl.
  - split; [lia|]. split; [done|]. intros j Hj. lia.
  - change (Z.pos p~0) with (2 * Z.pos p). split; [lia|]. split.
    + rewrite Z.add_comm, Z.double_bits_succ || rewrite Z.add_1_l, Z.double_bits_succ. done.
    + intros j Hj. destruct (decide (j = 0)) as [->|]; [by rewrite Z.testbit_even_0|]. replace j with (Z.succ (j - 1)) by lia.
      rewrite Z.double_bits_succ. apply Hlow. lia.
  - split; [lia|]. split; [done|]. intros j Hj. lia.
Qed.

Lemma is_lsb_div val k n : 0 <= n <= k -> is_lsb val k -> is_lsb (val / 2 ^ n) (k - n).
Proof.
  intros Hn (Hk & Hb & Hlow). split; [lia|]. rewrite Z.div_pow2_bits by lia. replace (k - n + n) with k by lia. split; [done|].
  intros j Hj. rewrite Z.div_pow2_bits by lia. apply Hlow. lia.
Qed.

Lemma is_lsb_mod val k n : 0 <= n -> is_lsb val k -> val mod 2 ^ n = 0 <-> n <= k.
Proof.
  intros Hn (Hk & Hb & Hlow). split.
  - intros Hm. apply Z.nlt_ge. intros Hlt. rewrite <-(Z.mod_pow2_bits_low _ n) in Hb by lia. by rewrite Hm, Z.testbit_0_l in Hb.
  - intros Hle. apply Z.bits_inj_0. intros i. destruct (Z.lt_ge_cases i 0); [by apply Z.testbit_neg_r|]. destruct (Z.lt_ge_cases i n).
    + rewrite Z.mod_pow2_bits_low by lia. apply Hlow. lia.
    + by rewrite Z.mod_pow2_bits_high by lia.
Qed.

Lemma lsb_step_ok n k lsb val : 0 < n <= 32 -> 0 <= val -> is_lsb val k -> k < 2 * n -> exists lsb' val' k',
  lsb_step (n - 1) n (lsb, val) = Ok (lsb', val') /\ 0 <= val' /\ is_lsb val' k' /\ k' < n /\ lsb' + k' = lsb + k.
Proof.
  intros Hn Hv Hk Hlt. unfold lsb_step. rewrite bits_value by lia. cbn [mbind res_bind]. rewrite Z.pow_0_r, Z.div_1_r. replace (n - 1 - 0 + 1) with n by lia.
  destruct (Z.eqb_spec (val mod 2 ^ n) 0) as [Hz|Hz].
  - apply (is_lsb_mod val k n) in Hz; [|lia|done]. rewrite shr64_Ok by lia. simpl. exists (lsb + n), (val / 2 ^ n), (k - n).
    split; [done|]. split; [apply Z.div_pos; [lia|apply Z.pow_pos_nonneg; lia]|]. split; [apply is_lsb_div; [lia|done]|]. lia.
  - exists lsb, val, k. split; [done|]. split; [done|]. split; [done|]. split; [|done].
    apply Z.nle_gt. intros Hle. apply Hz. by apply (is_lsb_mod val k n); [lia| |].
Qed.

Lemma findLsbSet_correct val : word val -> findLsbSet val = Ok (ctz64 val).
Proof.
  intros Hw. unfold findLsbSet. destruct (Z.eqb_spec val 0) as [->|Hne]; [done|]. unfold word in Hw.
  assert (is_lsb val (ctz64 val)) as Hk by (apply ctz64_lsb; lia). assert (ctz64 val < 64) as Hlt.
  { destruct Hk as (Hk & Hb & _). apply Z.nle_gt. intros Hge. apply word_bits in Hw as [_ Hi]. by rewrite Hi in Hb. }
  destruct (lsb_step_ok 32 _ 0 val ltac:(lia) ltac:(lia) Hk Hlt) as (l1 & v1 & k1 & Hs1 & Hv1 & Hk1 & H1 & Hl1). change (32 - 1) with 31 in Hs1. rewrite Hs1. cbn [mbind res_bind].
  destruct (lsb_step_ok 16 _ l1 v1 ltac:(lia) Hv1 Hk1 H1) as (l2 & v2 & k2 & Hs2 & Hv2 & Hk2 & H2 & Hl2). change (16 - 1) with 15 in Hs2. rewrite Hs2. cbn [mbind res_bind].
  destruct (lsb_step_ok 8 _ l2 v2 ltac:(lia) Hv2 Hk2 H2) as (l3 & v3 & k3 & Hs3 & Hv3 & Hk3 & H3 & Hl3). change (8 - 1) with 7 in Hs3. rewrite Hs3. cbn [mbind res_bind].
  destruct (lsb_step_ok 4 _ l3 v3 ltac:(lia) Hv3 Hk3 H3) as (l4 & v4 & k4 & Hs4 & Hv4 & Hk4 & H4 & Hl4). change (4 - 1) with 3 in Hs4. rewrite Hs4. cbn [mbind res_bind].
  destruct (lsb_step_ok 2 _ l4 v4 ltac:(lia) Hv4 Hk4 H4) as (l5 & v5 & k5 & Hs5 & Hv5 & Hk5 & H5 & Hl5). change (2 - 1) with 1 in Hs5. rewrite Hs5. cbn [mbind res_bind].
  rewrite bits_one by lia. cbn [mbind res_bind]. f_equal. destruct Hk5 as (Hk5 & Hb5 & Hlow5).
  assert (k5 = 0 \/ k5 = 1) as [-> | ->] by lia; [rewrite Hb5|rewrite Hlow5 by lia]; simpl; lia.
Qed.

(** ** Rounding up to a power of two *)

(** The highest [r] bits from the first that is set are set. *)
Definition run (r x : Z) : Prop := forall i, 0 <= i -> Z.log2 x - r < i <= Z.log2 x -> Z.testbit x i = true.

Lemma smear r x : 0 < r -> 0 < x -> run r x -> let y := Z.lor x (Z.shiftr x r) in 0 < y /\ Z.log2 y = Z.log2 x /\ run (2 * r) y.
Proof.
  intros Hr Hx Hrun y. assert (0 <= Z.shiftr x r) by (apply Z.shiftr_nonneg; lia).
  assert (Z.log2 y = Z.log2 x) as Hl.
  { unfold y. rewrite Z.log2_lor, Z.log2_shiftr by lia. pose proof (Z.log2_nonneg x). lia. }
  assert (0 <= y) by (apply Z.lor_nonneg; lia).
  split; [|split; [done|]].
  - assert (y <> 0); [|lia]. intros Hy. apply Z.lor_eq_0_iff in Hy as [? _]. lia.
  - intros i Hi Hrange. rewrite Hl in Hrange. unfold y. rewrite Z.lor_spec, Z.shiftr_spec by done.
    destruct (Z.lt_ge_cases (Z.log2 x - r) i); [by rewrite Hrun by lia|]. rewrite (Hrun (i + r)) by lia. apply orb_true_r.
Qed.

Lemma run_full x : 0 < x -> run 64 x -> Z.log2 x < 64 -> x + 1 = 2 ^ (Z.log2 x + 1).
Proof.
  intros Hx Hrun Hl. pose proof (Z.log2_nonneg x). assert (x = Z.ones (Z.log2 x + 1)) as Heq; [|rewrite Heq at 1; unfold Z.ones; rewrite Z.shiftl_1_l; lia].
  apply Z.bits_inj_iff'. intros i Hi. rewrite Z.testbit_ones_nonneg by lia. destruct (Z.ltb_spec i (Z.log2 x + 1)).
  - apply Hrun; lia.
  - apply Z.bits_above_log2; lia.
Qed.

Lemma alignToPowerOfTwo_correct val : word val -> alignToPowerOfTwo val = if val =? 0 then 0 else u64 (2 ^ Z.log2_up val).
Proof.
  intros Hw. destruct (Z.eqb_spec val 0) as [->|Hne]; [done|]. unfold word in Hw. unfold alignToPowerOfTwo. rewrite (u64_small (val - 1)) by lia.
  destruct (decide (val = 1)) as [->|]; [done|]. cbv zeta. set (x := val - 1). assert (0 < x) as Hx by lia.
  assert (Z.log2 x < 64) as Hl by (apply Z.log2_lt_pow2; lia).
  assert (run 1 x) as Hr by (intros i Hi Hrange; replace i with (Z.log2 x) by lia; by apply Z.bit_log2).
  destruct (smear 1 x ltac:(lia) Hx Hr) as (Hx1 & Hl1 & Hr1). set (x1 := Z.lor x _) in *.
  destruct (smear 2 x1 ltac:(lia) Hx1 Hr1) as (Hx2 & Hl2 & Hr2). set (x2 := Z.lor x1 _) in *.
  destruct (smear 4 x2 ltac:(lia) Hx2 Hr2) as (Hx3 & Hl3 & Hr3). set (x3 := Z.lor x2 _) in *.
  destruct (smear 8 x3 ltac:(lia) Hx3 Hr3) as (Hx4 & Hl4 & Hr4). set (x4 := Z.lor x3 _) in *.
  destruct (smear 16 x4 ltac:(lia) Hx4 Hr4) as (Hx5 & Hl5 & Hr5). set (x5 := Z.lor x4 _) in *.
  destruct (smear 32 x5 ltac:(lia) Hx5 Hr5) as (Hx6 & Hl6 & Hr6). set (x6 := Z.lor x5 _) in *.
  rewrite run_full by (done || lia). do 2 f_equal. unfold Z.log2_up. rewrite (proj2 (Z.compare_lt_iff 1 val)) by lia.
  change (Z.pred val) with (val - 1). fold x. lia.
Qed.

(** ** Reversal *)

Lemma reverse_byte b : byte b -> exists r, vget reverseBitsLookUpTable b = Ok r /\ byte r /\ forall i, 0 <= i < 8 -> Z.testbit r i = Z.testbit b (7 - i).
Proof.
  intros Hb. apply (for_bytes (fun b => match vget reverseBitsLookUpTable b with
    | Ok r => (0 <=? r) && (r <? 256) && forallb (fun i => Bool.eqb (Z.testbit r i) (Z.testbit b (7 - i))) (Z.of_nat <$> seq 0 8)
    | Err _ => false end)) in Hb; [|by vm_compute].
  destruct (vget _ b) as [r|]; [|done]. apply andb_true_iff in Hb as [Hr Hall]. exists r. split; [done|]. split; [unfold byte; lia|].
  intros i Hi. rewrite forallb_forall in Hall. apply eqb_prop, Hall, list_elem_of_In, list_elem_of_fmap.
  exists (Z.to_nat i). rewrite elem_of_seq. lia.
Qed.

Lemma reverseBits_correct bytes val size : 1 < bytes -> 0 <= size <= bytes -> 0 <= val -> exists r, reverseBits bytes val size = Ok r /\
  0 <= r < 2 ^ (8 * size) /\ forall i, 0 <= i < 8 * size -> Z.testbit r i = Z.testbit val (8 * size - 1 - i).
Proof.
  intros Hb Hs Hv. unfold reverseBits. rewrite (proj2 (Z.leb_le _ _)), (proj2 (Z.eqb_neq _ _)) by lia. cbn [assert mbind res_bind].
  apply safe_inv, safe_bind.
  eapply safe_mono; [apply (safe_for (fun k '(out, v) => v = Z.shiftr val (8 * k) /\ 0 <= out < 2 ^ (8 * k) /\
    forall i, 0 <= i < 8 * k -> Z.testbit out i = Z.testbit val (8 * k - 1 - i)))|].
  - split; [by rewrite Z.shiftr_0_r|]. split; [done|]. intros i Hi. lia.
  - intros k [out v] Hk (-> & Hout & Hbits). change (mask 8) with (Z.ones 8). rewrite Z.land_ones by lia.
    assert (byte (Z.shiftr val (8 * k) mod 2 ^ 8)) as Hbyte by (unfold byte; apply Z.mod_pos_bound; lia).
    destruct (reverse_byte _ Hbyte) as (r & -> & Hr & Hrev). simpl.
    assert (2 ^ (8 * (k + 1)) = 2 ^ (8 * k) * 256) as Hp by (rewrite Z.mul_add_distr_l, Z.pow_add_r by lia; done).
    assert (2 ^ (8 * (k + 1)) <= 2 ^ (8 * bytes)) by (apply Z.pow_le_mono_r; lia).
    rewrite Z.shiftl_mul_pow2 by lia. change (2 ^ 8) with 256. rewrite Z.mod_small by lia.
    assert (Z.lor (out * 256) r = r + 256 * out) as ->.
    { apply Z.bits_inj_iff'. intros i Hi. rewrite Z.lor_spec, byte_testbit by (done || lia). change 256 with (2 ^ 8). rewrite <-Z.shiftl_mul_pow2, Z.shiftl_spec by lia.
      destruct (Z.ltb_spec i 8); [by rewrite Z.testbit_neg_r by lia|]. assert (Z.testbit r i = false) as ->; [|apply orb_false_r].
      apply (bits_bound 8 r); [lia|exact Hr|lia]. }
    split; [rewrite Z.shiftr_shiftr by lia; f_equal; lia|]. split; [unfold byte in Hr; lia|]. intros i Hi. rewrite byte_testbit by (done || lia).
    destruct (Z.ltb_spec i 8).
    + rewrite Hrev, Z.mod_pow2_bits_low, Z.shiftr_spec by lia. f_equal. lia.
    + rewrite Hbits by lia. f_equal. lia.
  - intros [out v] (_ & Hout & Hbits). rewrite Z.add_0_l, Z2Nat.id in * by lia. done.
Qed.

(** C37: the functions that base/bitfield.hh computes by halving, masking and
    tables mean what they say, for every 64-bit value: the parallel count is
    the number of bits that are set, the searches find the highest and the
    lowest of them, rounding up gives the least power of two that is not
    smaller (0 where it does not fit), and the reversal of any number of the
    bytes of a value reverses its bits. *)
Theorem bit_functions_correct val : word val ->
  popCount_parallel val = popCount val /\
  (val <> 0 -> findMsbSet val = Ok (Z.log2 val)) /\
  findLsbSet val = Ok (ctz64 val) /\
  alignToPowerOfTwo val = (if val =? 0 then 0 else u64 (2 ^ Z.log2_up val)) /\
  forall bytes size, 1 < bytes -> 0 <= size <= bytes -> exists r, reverseBits bytes val size = Ok r /\
    0 <= r < 2 ^ (8 * size) /\ forall i, 0 <= i < 8 * size -> Z.testbit r i = Z.testbit val (8 * size - 1 - i).
Proof.
  intros Hw. split; [by apply popCount_parallel_correct|]. split; [by apply findMsbSet_correct|]. split; [by apply findLsbSet_correct|].
  split; [by apply alignToPowerOfTwo_correct|]. intros bytes size Hb Hs. apply reverseBits_correct; [done|done|apply Hw].
Qed.

Lemma bit_functions_correct_witness :
  popCount_parallel 0xf0f = 8 /\ findMsbSet 0xf0f = Ok 11 /\ findLsbSet 0xf0f = Ok 0 /\ alignToPowerOfTwo 0xf0f = 0x1000 /\
  exists r, reverseBits 4 0xf0f 2 = Ok r /\ Z.testbit r 15 = true.
Proof.
  destruct (bit_functions_correct 0xf0f) as (Hp & Hm & Hl & Ha & Hr); [by unfold word|].
  rewrite Hp, Hl, Ha, Hm by done. do 4 (split; [by vm_compute|]).
  destruct (Hr 4 2) as (r & Hrev & _ & Hbits); [lia|lia|]. exists r. split; [done|]. by rewrite Hbits by lia.
Defined.
