(* ===== verification/NetDest.v ===== *)
(** * NetDest: destination sets of Ruby messages

    [Set] (mem/ruby/common/Set.hh) is a [std::bitset] with a size in use;
    [NetDest] (mem/ruby/common/NetDest.cc) is a vector of them, one per
    machine type.  Routing tables and message destinations are [NetDest]s.

    [MachineType] and its helper functions are produced by the protocol
    compiler at build time; they are the class [MachineTypes], and what
    the sources rely on is [MachineTypesOk]. *)

From S2P Require Import Prelude.

(** ** The generated machine types *)

Class MachineTypes := {
  MachineType_NUM : Z;
  MachineType_base_level : Z -> Z;
  MachineType_base_count : Z -> Z;
  MachineType_base_number : Z -> Z;
  (** [NUMBER_BITS_PER_SET], a build option. *)
  NUMBER_BITS_PER_SET : Z;
}.

Class MachineTypesOk `{MachineTypes} : Prop := {
  machine_num_nonneg : 0 <= MachineType_NUM;
  machine_level : forall m, 0 <= m <= MachineType_NUM -> MachineType_base_level m = m;
  machine_count_nonneg : forall m, 0 <= MachineType_base_count m;
  machine_count_fits : forall m, MachineType_base_count m <= NUMBER_BITS_PER_SET;
  machine_number_0 : MachineType_base_number 0 = 0;
  machine_number_succ : forall m, 0 <= m < MachineType_NUM ->
    MachineType_base_number (m + 1) = MachineType_base_number m + MachineType_base_count m;
}.

(** A protocol with two machine types of sixteen instances each. *)
Definition two_machines : MachineTypes :=
  {| MachineType_NUM := 2; MachineType_base_level := fun m => m;
     MachineType_base_count := fun _ => 16; MachineType_base_number := fun m => 16 * m;
     NUMBER_BITS_PER_SET := 64 |}.

Lemma two_machines_ok : @MachineTypesOk two_machines.
Proof. split; simpl; lia. Qed.

(** The numbers of the machine types increase. *)
Lemma base_number_mono `{MachineTypesOk} m m' : 0 <= m <= m' -> m' <= MachineType_NUM ->
  0 <= MachineType_base_number m <= MachineType_base_number m'.
Proof.
  assert (Hmono : forall a (k : nat), 0 <= a -> a + Z.of_nat k <= MachineType_NUM ->
    MachineType_base_number a <= MachineType_base_number (a + Z.of_nat k)).
  { intros a k Ha. induction k as [|k IH]; intros Hk; [rewrite Z.add_0_r; lia|].
    replace (a + Z.of_nat (S k)) with (a + Z.of_nat k + 1) by lia. rewrite machine_number_succ by lia.
    pose proof (machine_count_nonneg (a + Z.of_nat k)). lia. }
  intros Hm Hm'. pose proof (Hmono 0 (Z.to_nat m) ltac:(lia)) as H1. pose proof (Hmono m (Z.to_nat (m' - m)) ltac:(lia)) as H2.
  rewrite Z2Nat.id in H1, H2 by lia. rewrite machine_number_0, Z.add_0_l in H1.
  replace (m + (m' - m)) with m' in H2 by lia. lia.
Qed.

Record MachineID := mkMachineID { mach_type : Z; mach_num : Z }.

#[global] Instance MachineID_eq_dec : EqDecision MachineID.
Proof. solve_decision. Defined.

(** ** Set *)

Module RSet.
Section rset.
Context `{MachineTypes}.

(** The bitset is kept as a non-negative integer. *)
Record t := mk { m_nSize : Z; bits : Z }.
#[global] Instance t_eta : Etaed t := fun r => mk (m_nSize r) (bits r).

Definition empty : t := mk 0 0.

(** [bitset::set], [reset] and [test] throw past the last bit. *)
Definition check (index : Z) : res unit :=
  if decide (0 <= index < NUMBER_BITS_PER_SET) then Ok tt else Err OutOfRange.

Definition add (index : Z) (s : t) : res t :=
  _ ← check index; Ok (s <| bits := Z.setbit (bits s) index |>).

Definition addSet (obj s : t) : res t :=
  _ ← assert (bool_decide (m_nSize s = m_nSize obj));
  Ok (s <| bits := Z.lor (bits s) (bits obj) |>).

Definition remove (index : Z) (s : t) : res t :=
  _ ← check index; Ok (s <| bits := Z.clearbit (bits s) index |>).

Definition removeSet (obj s : t) : res t :=
  _ ← assert (bool_decide (m_nSize s = m_nSize obj));
  Ok (s <| bits := Z.ldiff (bits s) (bits obj) |>).

Definition clear (s : t) : t := s <| bits := 0 |>.

Definition broadcast (s : t) : res t :=
  b ← for_ (Z.to_nat (NUMBER_BITS_PER_SET - m_nSize s)) (m_nSize s)
        (fun j b => _ ← check j; Ok (Z.clearbit b j)) (Z.ones NUMBER_BITS_PER_SET);
  Ok (s <| bits := b |>).

(** [bitset::count]. *)
Definition count (s : t) : Z :=
  Z.of_nat (length (filter (fun i : nat => Z.testbit (bits s) (Z.of_nat i) = true)
                           (seq 0 (Z.to_nat NUMBER_BITS_PER_SET)))).

Definition isEqual (obj s : t) : res bool :=
  _ ← assert (bool_decide (m_nSize s = m_nSize obj)); Ok (bits s =? bits obj).

Definition OR (obj s : t) : res t :=
  _ ← assert (bool_decide (m_nSize s = m_nSize obj));
  Ok (mk (m_nSize s) (Z.lor (bits s) (bits obj))).

Definition AND (obj s : t) : res t :=
  _ ← assert (bool_decide (m_nSize s = m_nSize obj));
  Ok (mk (m_nSize s) (Z.land (bits s) (bits obj))).

Definition intersectionIsEmpty (obj s : t) : bool := Z.land (bits s) (bits obj) =? 0.

Definition isSuperset (test s : t) : res bool :=
  _ ← assert (bool_decide (m_nSize s = m_nSize test));
  Ok (Z.lor (bits s) (bits test) =? bits s).

Definition isElement (element : Z) (s : t) : res bool :=
  _ ← check element; Ok (Z.testbit (bits s) element).

Definition isBroadcast (s : t) : bool := count s =? m_nSize s.

Definition isEmpty (s : t) : bool := bits s =? 0.

Definition setSize (size : Z) (s : t) : res t :=
  if decide (NUMBER_BITS_PER_SET < size) then Err FatalCalled else Ok (mk size 0).

(** First index below the size whose bit is set. *)
Definition smallestElement (s : t) : res Z :=
  r ← for_break (Z.to_nat (m_nSize s)) 0
        (fun i (_ : option Z) =>
           b ← isElement i s; Ok (b, if (b : bool) then Some i else None)) None;
  match r with Some i => Ok i | None => Err PanicCalled end.

(** Only the bits of a [NUMBER_BITS_PER_SET]-bit set can be on. *)
Definition wf (s : t) : Prop :=
  0 <= bits s /\ forall i, NUMBER_BITS_PER_SET <= i -> Z.testbit (bits s) i = false.

Definition mem (s : t) (i : Z) : Prop := 0 <= i /\ Z.testbit (bits s) i = true.

Lemma intersectionIsEmpty_spec s obj :
  intersectionIsEmpty obj s = false <-> exists i, mem s i /\ mem obj i.
Proof.
  unfold intersectionIsEmpty, mem. rewrite Z.eqb_neq. split.
  - intros Hne.
    destruct (Z.eq_dec (Z.land (bits s) (bits obj)) 0) as [|_]; [done|].
    assert (exists i, 0 <= i /\ Z.testbit (Z.land (bits s) (bits obj)) i = true)
      as (i & Hi & Hb).
    { set (x := Z.land _ _) in *.
      destruct (Z.lt_trichotomy x 0) as [Hneg|[?|Hpos]]; [|done|].
      - destruct (proj1 (Z.bits_iff_neg_ex x) Hneg) as [k Hk].
        exists (Z.max 0 (k + 1)). split; [lia|]. apply Hk. lia.
      - exists (Z.log2 x). split; [apply Z.log2_nonneg|by apply Z.bit_log2]. }
    rewrite Z.land_spec, andb_true_iff in Hb. exists i. naive_solver.
  - intros (i & [Hi H1] & [_ H2]) He.
    assert (Z.testbit (Z.land (bits s) (bits obj)) i = true) as Hb
      by (by rewrite Z.land_spec, H1, H2).
    rewrite He, Z.bits_0 in Hb. done.
Qed.

Lemma set_add_mem i j s s' :
  add i s = Ok s' -> 0 <= j -> mem s' j <-> j = i \/ mem s j.
Proof.
  unfold add, check. case_decide as Hi; [|done]. intros [= <-] Hj.
  unfold mem. simpl. rewrite Z.setbit_eqb by lia.
  destruct (Z.eqb_spec i j); simpl; naive_solver.
Qed.

Lemma add_index i s s' : add i s = Ok s' -> 0 <= i < NUMBER_BITS_PER_SET.
Proof. unfold add, check. case_decide; [done|discriminate]. Qed.

Lemma add_size i s s' : add i s = Ok s' -> m_nSize s' = m_nSize s.
Proof. unfold add, check. case_decide; [|done]. by intros [= <-]. Qed.

Lemma remove_mem i j s s' :
  remove i s = Ok s' -> 0 <= j -> mem s' j <-> j <> i /\ mem s j.
Proof.
  unfold remove, check. case_decide as Hi; [|done]. intros [= <-] Hj.
  unfold mem. simpl. rewrite Z.clearbit_eqb by lia.
  destruct (Z.eqb_spec i j); simpl; rewrite ?andb_false_r, ?andb_true_r; naive_solver.
Qed.

Lemma removeSet_mem obj s s' :
  removeSet obj s = Ok s' -> forall j, mem s' j <-> mem s j /\ ~ mem obj j.
Proof.
  unfold removeSet. intros H0. res_inv. intros j. unfold mem. simpl.
  destruct (decide (0 <= j)); [|naive_solver lia].
  rewrite Z.ldiff_spec, andb_true_iff, negb_true_iff.
  destruct (Z.testbit (bits obj) j); naive_solver.
Qed.

Lemma addSet_mem obj s s' :
  addSet obj s = Ok s' -> forall j, mem s' j <-> mem s j \/ mem obj j.
Proof.
  unfold addSet. intros H0. res_inv. intros j. unfold mem. simpl.
  rewrite Z.lor_spec, orb_true_iff. naive_solver.
Qed.

Lemma isSuperset_spec test s b :
  isSuperset test s = Ok b -> b = true <-> (forall j, mem test j -> mem s j).
Proof.
  unfold isSuperset. intros H0. res_inv. rewrite Z.eqb_eq. unfold mem. split.
  - intros He j [Hj Ht]. split; [done|]. rewrite <- He, Z.lor_spec, Ht. apply orb_true_r.
  - intros Hs. apply Z.bits_inj'. intros j Hj. rewrite Z.lor_spec.
    destruct (Z.testbit (bits test) j) eqn:E; [|apply orb_false_r].
    destruct (Hs j) as [_ ->]; done.
Qed.

End rset.
End RSet.

(** ** NetDest *)

Module NetDest.

(** [m_bits], a vector of bit vectors. *)
Notation t := (list RSet.t).

Section netdest.
Context `{MachineTypes}.

Definition getSize (d : t) : Z := zlength d.

Definition vecIndex (m : MachineID) (d : t) : res Z :=
  let vec_index := MachineType_base_level (mach_type m) in
  _ ← assert (bool_decide (vec_index < zlength d)); Ok vec_index.

Definition bitIndex (index : Z) : Z := index.

Definition resize : res t :=
  let n := MachineType_base_level MachineType_NUM in
  _ ← assert (bool_decide (n = MachineType_NUM));
  for_ (Z.to_nat n) 0
    (fun i d => valterM (RSet.setSize (MachineType_base_count i)) d i)
    (replicate (Z.to_nat n) RSet.empty).

(** The constructor: an empty set. *)
Definition new : res t := resize.

Definition add (newElement : MachineID) (d : t) : res t :=
  v ← vecIndex newElement d;
  s ← vget d v;
  _ ← assert (bool_decide (bitIndex (mach_num newElement) < RSet.m_nSize s));
  s' ← RSet.add (bitIndex (mach_num newElement)) s;
  vset d v s'.

(** The element-wise loops over two destinations of the same size. *)
Definition zipM (f : RSet.t -> RSet.t -> res RSet.t) (netDest d : t) : res t :=
  _ ← assert (bool_decide (zlength d = getSize netDest));
  for_ (length d) 0 (fun i d => obj ← vget netDest i; valterM (f obj) d i) d.

Definition addNetDest (netDest d : t) : res t := zipM RSet.addSet netDest d.

Definition setNetDest (machine : Z) (set : RSet.t) (d : t) : res t :=
  _ ← assert (bool_decide
        (MachineType_base_level (machine + 1) - MachineType_base_level machine = 1));
  vset d (MachineType_base_level machine) set.

Definition remove (oldElement : MachineID) (d : t) : res t :=
  v ← vecIndex oldElement d;
  valterM (RSet.remove (bitIndex (mach_num oldElement))) d v.

Definition removeNetDest (netDest d : t) : res t := zipM RSet.removeSet netDest d.

Definition clear (d : t) : t := RSet.clear <$> d.

Definition broadcast_machine (machineType : Z) (d : t) : res t :=
  for_ (Z.to_nat (MachineType_base_count machineType)) 0
    (fun i d => add (mkMachineID machineType i) d) d.

Definition broadcast (d : t) : res t :=
  for_ (Z.to_nat MachineType_NUM) 0 broadcast_machine d.

(** Global node numbers of all destinations, machine type by machine type. *)
Definition getAllDest (d : t) : res (list Z) :=
  for_ (length d) 0 (fun i dest =>
    s ← vget d i;
    for_ (Z.to_nat (RSet.m_nSize s)) 0 (fun j dest =>
      b ← RSet.isElement j s;
      Ok (if (b : bool) then dest ++ [MachineType_base_number i + j] else dest)) dest) [].

Definition count (d : t) : Z := foldr (fun s n => RSet.count s + n) 0 d.

Definition isBroadcast (d : t) : bool := forallb RSet.isBroadcast d.

Definition isEmpty (d : t) : bool := forallb RSet.isEmpty d.

Definition OR (orNetDest d : t) : res t :=
  _ ← assert (bool_decide (zlength d = getSize orNetDest));
  result ← new;
  for_ (length d) 0 (fun i result =>
    a ← vget d i; b ← vget orNetDest i; r ← RSet.OR b a; vset result i r) result.

Definition AND (andNetDest d : t) : res t :=
  _ ← assert (bool_decide (zlength d = getSize andNetDest));
  result ← new;
  for_ (length d) 0 (fun i result =>
    a ← vget d i; b ← vget andNetDest i; r ← RSet.AND b a; vset result i r) result.

(** Returns at the first machine type whose sets meet. *)
Definition intersectionIsNotEmpty (other_netDest d : t) : res bool :=
  _ ← assert (bool_decide (zlength d = getSize other_netDest));
  for_break (length d) 0 (fun i (_ : bool) =>
    a ← vget d i; b ← vget other_netDest i;
    let hit := negb (RSet.intersectionIsEmpty b a) in Ok (hit, hit)) false.

Definition isSuperset (test d : t) : res bool :=
  _ ← assert (bool_decide (zlength d = getSize test));
  for_break (length d) 0 (fun i (_ : bool) =>
    a ← vget d i; b ← vget test i; r ← RSet.isSuperset b a;
    Ok (negb r, r)) true.

Definition isElement (element : MachineID) (d : t) : res bool :=
  v ← vecIndex element d; s ← vget d v; RSet.isElement (bitIndex (mach_num element)) s.

Definition isEqual (n d : t) : res bool :=
  _ ← assert (bool_decide (zlength d = zlength n));
  for_break (length d) 0 (fun i (_ : bool) =>
    a ← vget d i; b ← vget n i; r ← RSet.isEqual b a; Ok (negb r, r)) true.

(** [mem d m i]: machine [i] of type [m] is a destination. *)
Definition mem (d : t) (m i : Z) : Prop :=
  0 <= m /\ exists s, d !! Z.to_nat m = Some s /\ RSet.mem s i.

(** An early-exit scan over two destination vectors. *)
Lemma scan_spec (P : RSet.t -> RSet.t -> bool) (other d : t) :
  length d = length other ->
  safe (for_break (length d) 0 (fun i (_ : bool) =>
          a ← vget d i; b ← vget other i; Ok (P a b, P a b)) false)
    (fun hit => hit = true <->
       exists i a b, d !! i = Some a /\ other !! i = Some b /\ P a b = true).
Proof.
  intros Hlen.
  apply (safe_for_break (fun j hit => hit = false /\
    forall i a b, Z.of_nat i < j -> d !! i = Some a -> other !! i = Some b -> P a b = false)).
  - split; [done|]. intros; lia.
  - intros j hit Hj [-> Hno].
    apply safe_bind, safe_vget; [unfold zlength; lia|]. intros a Ha.
    apply safe_bind, safe_vget; [unfold zlength; lia|]. intros b Hb. simpl.
    destruct (P a b) eqn:E; [split; [eauto 10|done]|].
    split; [done|]. intros i a' b' Hi Ha' Hb'.
    destruct (decide (i = Z.to_nat j)) as [->|]; [congruence|].
    eapply Hno; eauto. lia.
  - intros hit [-> Hno]. split; [done|]. intros (i & a & b & Ha & Hb & HP).
    rewrite (Hno i a b) in HP; [done| |done|done].
    apply lookup_lt_Some in Ha. lia.
Qed.

(** Whether two destinations meet: the scan never fails on destinations of
    the same shape and finds exactly the common machines. *)
Lemma intersectionIsNotEmpty_spec (other d : t) :
  length d = length other ->
  safe (intersectionIsNotEmpty other d)
    (fun hit => hit = true <-> exists m i, mem d m i /\ mem other m i).
Proof.
  intros Hlen. unfold intersectionIsNotEmpty, getSize, zlength.
  rewrite bool_decide_eq_true_2 by (by rewrite Hlen).
  eapply safe_mono; [by apply (scan_spec (fun a b => negb (RSet.intersectionIsEmpty b a)))|].
  intros hit ->. unfold mem. setoid_rewrite negb_true_iff.
  setoid_rewrite RSet.intersectionIsEmpty_spec. split.
  - intros (i & a & b & Ha & Hb & k & Hk1 & Hk2). exists (Z.of_nat i), k.
    rewrite Nat2Z.id. split; (split; [lia|eauto]).
  - intros (m & k & [_ (a & Ha & Hka)] & [_ (b & Hb & Hkb)]). naive_solver.
Qed.

Lemma add_mem (e : MachineID) (d d' : t) :
  0 <= MachineType_base_level (mach_type e) ->
  add e d = Ok d' ->
  forall m i, mem d' m i <->
    mem d m i \/ (m = MachineType_base_level (mach_type e) /\ i = mach_num e).
Proof.
  intros Hl Hadd. unfold add, vecIndex in Hadd. res_inv.
  match goal with Hv : vget d _ = Ok ?s |- _ => apply vget_Ok in Hv as [_ Hs]; rename s into s0 end.
  match goal with Ha : RSet.add _ _ = Ok ?s |- _ => rename s into s1, Ha into Hr end.
  subst. unfold bitIndex, zlength in *.
  pose proof (RSet.add_index _ _ _ Hr) as Hn.
  intros m i. unfold mem.
  destruct (decide (m = MachineType_base_level (mach_type e))) as [->|Hne].
  - rewrite list_lookup_insert_eq by lia. rewrite Hs. split.
    + intros (_ & s & [= <-] & Hm). pose proof (proj1 Hm) as Hi.
      apply (RSet.set_add_mem _ _ _ _ Hr) in Hm; [|done]. naive_solver.
    + intros [(_ & s & [= <-] & Hm)|[_ ->]]; (split; [done|]); eexists; (split; [done|]).
      * apply (RSet.set_add_mem _ _ _ _ Hr); [apply Hm|by right].
      * apply (RSet.set_add_mem _ _ _ _ Hr); [lia|by left].
  - destruct (decide (0 <= m)); [|naive_solver].
    rewrite list_lookup_insert_ne by lia. naive_solver.
Qed.

(** One set of the right size per machine type. *)
Definition sized (d : t) : Prop :=
  zlength d = MachineType_NUM /\
  forall m s, d !! m = Some s -> RSet.m_nSize s = MachineType_base_count (Z.of_nat m).

Context `{!MachineTypesOk}.

(** The constructor makes an empty destination. *)
Lemma new_spec : safe new (fun d => sized d /\ forall m i, ~ mem d m i).
Proof.
  pose proof machine_num_nonneg as Hn. unfold new, resize.
  rewrite machine_level by lia. rewrite bool_decide_eq_true_2 by done. cbn [assert mbind res_bind].
  eapply safe_mono; [apply (safe_for (fun j d => zlength d = MachineType_NUM /\
    (forall m s, d !! m = Some s -> RSet.bits s = 0) /\
    (forall m s, Z.of_nat m < j -> d !! m = Some s -> RSet.m_nSize s = MachineType_base_count (Z.of_nat m))))|].
  - split; [unfold zlength; rewrite length_replicate; lia|]. split; [|intros; lia].
    intros m s [-> _]%lookup_replicate. done.
  - intros j d Hj (Hl & Hz & Hs). apply safe_valterM; [lia|]. intros x Hx.
    unfold RSet.setSize. rewrite decide_False by (pose proof (machine_count_fits j); lia). simpl.
    split; [by rewrite zlength_insert|]. split.
    + intros m s [(<- & <- & _)|[_ Hm]]%list_lookup_insert_Some; [done|by eapply Hz].
    + intros m s Hm [(<- & <- & _)|[Hne Hm']]%list_lookup_insert_Some; [simpl; f_equal; lia|].
      apply (Hs m); [lia|done].
  - intros d (Hl & Hz & Hs). split; [split; [done|]|].
    + intros m s Hm. apply (Hs m); [|done]. apply lookup_lt_Some in Hm. unfold zlength in Hl. lia.
    + intros m i (_ & s & Hm & _ & Hb). rewrite (Hz _ _ Hm), Z.bits_0 in Hb. done.
Qed.

(** Adding a machine of the protocol. *)
Lemma add_spec m i d : sized d -> 0 <= m < MachineType_NUM -> 0 <= i < MachineType_base_count m ->
  safe (add (mkMachineID m i) d) (fun d' => sized d' /\
    forall m' i', mem d' m' i' <-> mem d m' i' \/ (m' = m /\ i' = i)).
Proof.
  intros [Hl Hs] Hm Hi. destruct (add (mkMachineID m i) d) as [d'|e] eqn:Hadd.
  - pose proof (add_mem (mkMachineID m i) d d') as Hmem. simpl in Hmem. rewrite machine_level in Hmem by lia.
    split; [|intros; apply Hmem; [lia|done]]. unfold add, vecIndex in Hadd. res_inv. subst.
    simpl in *. rewrite machine_level in * by lia. split; [by rewrite zlength_insert|].
    intros k s [(<- & <- & Hk)|[_ Hk]]%list_lookup_insert_Some; [|by apply Hs].
    match goal with H : RSet.add _ _ = Ok _ |- _ => rewrite (RSet.add_size _ _ _ H) end.
    match goal with H : vget d _ = Ok _ |- _ => apply vget_Ok in H as [_ H]; by apply Hs end.
  - exfalso. unfold add, vecIndex in Hadd. simpl in Hadd. rewrite machine_level in Hadd by lia.
    rewrite bool_decide_eq_true_2 in Hadd by lia. cbn [assert mbind res_bind] in Hadd.
    destruct (vget_range d m) as [s Hget]; [lia|]. rewrite Hget in Hadd. cbn [mbind res_bind] in Hadd.
    apply vget_Ok in Hget as [_ Hget]. pose proof (Hs _ _ Hget) as Hsize. rewrite Z2Nat.id in Hsize by lia.
    rewrite bool_decide_eq_true_2 in Hadd by (unfold bitIndex; lia). cbn [assert mbind res_bind] in Hadd.
    unfold RSet.add, RSet.check, bitIndex in Hadd. pose proof (machine_count_fits m).
    rewrite decide_True in Hadd by lia. cbn [mbind res_bind] in Hadd.
    unfold vset in Hadd. by rewrite decide_True in Hadd by lia.
Qed.

End netdest.
End NetDest.
