(* ===== verification/CFloat.v ===== *)
(** * CFloat: [float] and [double]

    The detector averages and compares packet intervals in [double] and the
    flit counts are computed in [float].  Both are the IEEE 754 formats of
    [SpecFloat], rounding to nearest even, so every expression of the code
    is evaluated operation by operation as the compiler does. *)

From S2P Require Import Prelude.
From Stdlib Require Export SpecFloat.

Module F64.

Definition prec : Z := 53.
Definition emax : Z := 1024.

Definition of_Z (z : Z) : spec_float := binary_normalize prec emax z 0 false.
Definition add : spec_float -> spec_float -> spec_float := SFadd prec emax.
Definition sub : spec_float -> spec_float -> spec_float := SFsub prec emax.
Definition mul : spec_float -> spec_float -> spec_float := SFmul prec emax.
Definition div : spec_float -> spec_float -> spec_float := SFdiv prec emax.
Definition sqrt : spec_float -> spec_float := SFsqrt prec emax.

(** The literals [0.1], [0.5], [0.75] and [1.5]: the nearest doubles. *)
Definition lit_0_1 : spec_float := div (of_Z 1) (of_Z 10).
Definition lit_0_5 : spec_float := div (of_Z 1) (of_Z 2).
Definition lit_0_75 : spec_float := div (of_Z 3) (of_Z 4).
Definition lit_1_5 : spec_float := div (of_Z 3) (of_Z 2).

End F64.

Module F32.

Definition prec : Z := 24.
Definition emax : Z := 128.

Definition of_Z (z : Z) : spec_float := binary_normalize prec emax z 0 false.
Definition add : spec_float -> spec_float -> spec_float := SFadd prec emax.
Definition sub : spec_float -> spec_float -> spec_float := SFsub prec emax.
Definition mul : spec_float -> spec_float -> spec_float := SFmul prec emax.
Definition div : spec_float -> spec_float -> spec_float := SFdiv prec emax.

End F32.

(** [<] and [<=]; a comparison with a NaN is false. *)
Definition fltb : spec_float -> spec_float -> bool := SFltb.
Definition fleb : spec_float -> spec_float -> bool := SFleb.

(** The integer part: conversion of a finite value towards zero; infinities and
    NaNs have no integer value. *)
Definition ftrunc (x : spec_float) : option Z :=
  match x with
  | S754_zero _ => Some 0
  | S754_finite s m e =>
      let a := if decide (0 <= e) then Zpos m * 2 ^ e else Zpos m / 2 ^ (- e) in
      Some (if s then - a else a)
  | _ => None
  end.

(** Conversions to [int] and [uint64_t]; out of range they are undefined. *)
Definition to_int (x : spec_float) : res Z :=
  match ftrunc x with
  | Some z => if decide (- 2 ^ 31 <= z < 2 ^ 31) then Ok z else Err Undefined
  | None => Err Undefined
  end.

Definition to_u64 (x : spec_float) : res Z :=
  match ftrunc x with
  | Some z => if decide (0 <= z < 2 ^ 64) then Ok z else Err Undefined
  | None => Err Undefined
  end.

(** [floor] and [ceil], already as integers. *)
Definition to_int_floor (x : spec_float) : res Z :=
  match x with
  | S754_finite true m e =>
      let p := if decide (0 <= e) then Zpos m * 2 ^ e else - ((- Zpos m) / 2 ^ (- e)) in
      if decide (p <= 2 ^ 31) then Ok (- p) else Err Undefined
  | _ => to_int x
  end.

Definition to_int_ceil (x : spec_float) : res Z :=
  match x with
  | S754_finite false m e =>
      let p := if decide (0 <= e) then Zpos m * 2 ^ e else - ((- Zpos m) / 2 ^ (- e)) in
      if decide (p < 2 ^ 31) then Ok p else Err Undefined
  | _ => to_int x
  end.

(** [divCeil(a, b)] of base/intmath.hh at type [float]: the quotient is
    not truncated there but by the conversion of its result to [int]. *)
Definition divCeil_float (a b : Z) : spec_float :=
  F32.div (F32.sub (F32.add (F32.of_Z a) (F32.of_Z b)) (F32.of_Z 1)) (F32.of_Z b).

(** [pow(10, 4)] is exact. *)
Definition pow_10_4 : spec_float := F64.of_Z 10000.

Example ftrunc_ex : ftrunc (F64.div (F64.of_Z 7) (F64.of_Z 2)) = Some 3.
Proof. reflexivity. Qed.
Example divCeil_float_ex : to_int (divCeil_float 72 16) = Ok 5.
Proof. reflexivity. Qed.
Example to_int_floor_ex : to_int_floor (F32.div (F32.of_Z (-7)) (F32.of_Z 2)) = Ok (-4).
Proof. reflexivity. Qed.
Example to_int_ceil_ex : to_int_ceil (F32.div (F32.of_Z 7) (F32.of_Z 2)) = Ok 4.
Proof. reflexivity. Qed.
