(* ===== verification/FloatBounds.v ===== *)
(** * FloatBounds: bounds on rounded results

    An exact result whose magnitude is at most an integer below [2^prec]
    is rounded to one with the same bound, so the averages of the detector
    stay in the range of the integers they are averages of. *)

From S2P Require Import Prelude CFloat.

Section bounds.
Context (prec emax : Z) (Hprec : 0 < prec) (Hemax : prec + 3 <= emax).

(** [|f| <= B], with a fraction that needs no scaling up. *)
Definition bnd (B : Z) (f : spec_float) : Prop :=
  match f with
  | S754_zero _ => 0 <= B
  | S754_finite _ m e => e <= 0 /\ Zpos m <= B * 2 ^ (- e)
  | _ => False
  end.

Definition nonneg (f : spec_float) : Prop :=
  match f with
  | S754_finite s _ _ => s = false
  | _ => True
  end.

Lemma bnd_abs B f : bnd B f -> bnd B (SFabs f).
Proof. by destruct f. Qed.

Lemma bnd_mono B B' f : B <= B' -> bnd B f -> bnd B' f.
Proof.
  destruct f as [| | |s m e]; simpl; try lia. intros HB [He Hm]. split; [done|].
  pose proof (Z.pow_pos_nonneg 2 (- e)). nia.
Qed.

(** ** Digits *)

Lemma digits2_bounds p : 2 ^ (Zpos (digits2_pos p) - 1) <= Zpos p < 2 ^ Zpos (digits2_pos p).
Proof.
  induction p as [p IH|p IH|]; [| |done];
    cbn [digits2_pos]; rewrite Pos2Z.inj_succ, Z.pow_succ_r by lia;
    replace (Z.succ (Zpos (digits2_pos p)) - 1) with (Z.succ (Zpos (digits2_pos p) - 1)) by lia;
    rewrite Z.pow_succ_r by lia; lia.
Qed.

Lemma digits2_le m k : 0 <= m < 2 ^ k -> Zdigits2 m <= Z.max 0 k.
Proof.
  intros Hm. destruct m as [|p|p]; [simpl; lia| |lia]. cbn [Zdigits2].
  pose proof (digits2_bounds p). destruct (decide (Zpos (digits2_pos p) <= k)); [lia|].
  destruct (decide (0 <= k)); [|rewrite Z.pow_neg_r in Hm by lia; lia].
  pose proof (Z.pow_le_mono_r 2 k (Zpos (digits2_pos p) - 1)). lia.
Qed.

(** ** Shifting right *)

(** The record stands for a value of at most [Y], strictly below when
    bits were lost. *)
Definition under (Y : Z) (r : shr_record) : Prop :=
  0 <= shr_m r /\ (if shr_r r || shr_s r then shr_m r < Y else shr_m r <= Y).

Lemma under_eq Y Y' r : under Y r -> Y = Y' -> under Y' r.
Proof. by intros ? <-. Qed.

Lemma shr_1_under Y r : under (2 * Y) r -> under Y (shr_1 r).
Proof.
  destruct r as [m rr ss]. unfold under. simpl. intros [Hm Hb].
  destruct m as [|[p|p|]|p]; destruct rr, ss; simpl in *; lia.
Qed.

Lemma iter_shr_under p : forall Y r, under (2 ^ Zpos p * Y) r -> under Y (iter_pos shr_1 p r).
Proof.
  induction p as [p IH|p IH|]; intros Y r Hr; simpl.
  - apply IH, IH, shr_1_under. eapply under_eq; [exact Hr|].
    replace (Zpos p~1) with (1 + (Zpos p + Zpos p)) by lia. rewrite !Z.pow_add_r by lia. lia.
  - apply IH, IH. eapply under_eq; [exact Hr|].
    replace (Zpos p~0) with (Zpos p + Zpos p) by lia. rewrite Z.pow_add_r by lia. lia.
  - by apply shr_1_under.
Qed.

Definition inexact (l : location) : bool := match l with loc_Exact => false | _ => true end.

Lemma shr_fexp_under B m e l mrs e' : 0 <= B < 2 ^ prec -> e <= 0 ->
  0 <= m -> (if inexact l then m < B * 2 ^ (- e) else m <= B * 2 ^ (- e)) ->
  shr_fexp prec emax m e l = (mrs, e') -> e' <= 0 /\ under (B * 2 ^ (- e')) mrs.
Proof.
  intros HB He Hm Hl. unfold shr_fexp, shr.
  assert (Hu : under (B * 2 ^ (- e)) (shr_record_of_loc m l)).
  { split; destruct l as [|[]]; simpl in *; lia. }
  assert (Hd : Zdigits2 m <= prec - e).
  { assert (m < 2 ^ (prec - e)).
    { unfold Z.sub. rewrite Z.pow_add_r by lia. pose proof (Z.pow_pos_nonneg 2 (- e)).
      destruct (inexact l); nia. }
    pose proof (digits2_le m (prec - e)). lia. }
  destruct (fexp prec emax (Zdigits2 m + e) - e) as [|p|p] eqn:En; intros [= <- <-]; try done.
  rewrite <- En in *. unfold fexp, emin in *. split; [lia|]. apply iter_shr_under.
  rewrite <- En. eapply under_eq; [exact Hu|].
  rewrite Z.mul_assoc, (Z.mul_comm _ B), <- Z.mul_assoc, <- Z.pow_add_r by lia. f_equal. f_equal. lia.
Qed.

(** ** Rounding *)

Lemma round_under Y r : under Y r ->
  0 <= round_nearest_even (shr_m r) (loc_of_shr_record r) <= Y.
Proof.
  destruct r as [m [] []]; unfold under; simpl; intros []; try lia. destruct (Z.even m); lia.
Qed.

Lemma binary_round_aux_bnd B s m e l : 0 <= B < 2 ^ prec -> e <= 0 ->
  0 <= m -> (if inexact l then m < B * 2 ^ (- e) else m <= B * 2 ^ (- e)) ->
  bnd B (binary_round_aux prec emax s m e l) /\
  (s = false -> nonneg (binary_round_aux prec emax s m e l)).
Proof.
  intros HB He Hm Hl. unfold binary_round_aux.
  destruct (shr_fexp _ _ m e l) as [mrs e1] eqn:E1.
  destruct (shr_fexp_under B m e l mrs e1 HB He Hm Hl E1) as [He1 Hu1].
  apply round_under in Hu1.
  destruct (shr_fexp _ _ _ e1 loc_Exact) as [mrs2 e2] eqn:E2.
  destruct (shr_fexp_under B _ e1 loc_Exact mrs2 e2 HB He1 (proj1 Hu1) (proj2 Hu1) E2) as [He2 [Hm2 Hb2]].
  destruct (shr_m mrs2) as [|p|p] eqn:Em; [split; [simpl; lia|done]| |lia].
  rewrite (proj2 (Z.leb_le _ _)) by lia. split; [|by intros ->].
  split; [done|]. destruct (_ || _); lia.
Qed.

Lemma iter_xO_value m d : Zpos (Pos.iter xO m d) = Zpos m * 2 ^ Zpos d.
Proof.
  induction d as [|d IH] using Pos.peano_ind; [simpl; lia|].
  rewrite Pos.iter_succ, Pos2Z.inj_succ, Z.pow_succ_r, Pos2Z.inj_xO, IH by lia. lia.
Qed.

Lemma shl_align_value m e e' : exists m', shl_align m e e' = (m', Z.min e e') /\
  Zpos m' = Zpos m * 2 ^ (e - Z.min e e').
Proof.
  unfold shl_align. destruct (e' - e) as [|d|d] eqn:E.
  1,2: exists m; rewrite Z.min_l, Z.sub_diag, Z.mul_1_r by lia; done.
  eexists. rewrite Z.min_r by lia. split; [done|]. rewrite iter_xO_value. do 2 f_equal. lia.
Qed.

Lemma scale_le m B e e' : m <= B * 2 ^ (- e) -> e' <= e -> e <= 0 ->
  m * 2 ^ (e - e') <= B * 2 ^ (- e').
Proof.
  intros Hm H1 H2. replace (- e') with (- e + (e - e')) by lia. rewrite Z.pow_add_r by lia.
  pose proof (Z.pow_pos_nonneg 2 (e - e')). nia.
Qed.

Lemma binary_normalize_bnd B m e z : 0 <= B < 2 ^ prec -> e <= 0 -> Z.abs m <= B * 2 ^ (- e) ->
  bnd B (binary_normalize prec emax m e z) /\
  (0 <= m -> nonneg (binary_normalize prec emax m e z)).
Proof.
  intros HB He Hm.
  assert (Hr : forall s p, Zpos p <= B * 2 ^ (- e) ->
    bnd B (binary_round prec emax s p e) /\ (s = false -> nonneg (binary_round prec emax s p e))).
  { intros s p Hp. unfold binary_round.
    destruct (shl_align_value p e (fexp prec emax (Zpos (digits2_pos p) + e))) as (m' & -> & Hm').
    apply binary_round_aux_bnd; [done|lia|lia|]. simpl. rewrite Hm'. apply scale_le; lia. }
  destruct m as [|p|p]; simpl in *; [split; [lia|done]|naive_solver|].
  destruct (Hr true p); [done|]. split; [done|lia].
Qed.

(** ** The operations *)

Lemma of_Z_bnd B z : Z.abs z <= B < 2 ^ prec ->
  bnd B (binary_normalize prec emax z 0 false) /\
  (0 <= z -> nonneg (binary_normalize prec emax z 0 false)).
Proof. intros H. apply binary_normalize_bnd; simpl; lia. Qed.

Lemma align_le m e ez A : ez <= e <= 0 -> Zpos m <= A * 2 ^ (- e) ->
  0 < Zpos (shl_align m e ez).1 <= A * 2 ^ (- ez).
Proof.
  intros He Hm. destruct (shl_align_value m e ez) as (m' & -> & Hm').
  rewrite Z.min_r in Hm' by lia. cbn [fst]. split; [lia|]. rewrite Hm'. apply scale_le; lia.
Qed.

Lemma SFadd_bnd A B x y : bnd A x -> nonneg x -> bnd B y -> nonneg y -> A + B < 2 ^ prec ->
  bnd (A + B) (SFadd prec emax x y) /\ nonneg (SFadd prec emax x y).
Proof.
  intros Hx Nx Hy Ny HAB.
  destruct x as [sx| | |sx mx ex], y as [sy| | |sy my ey]; simpl in Hx, Hy; try done.
  - destruct sx, sy; simpl; split; (done || lia).
  - split; [|done]. apply (bnd_mono B); [lia|done].
  - split; [|done]. apply (bnd_mono A); [lia|done].
  - cbn [nonneg] in *. subst. destruct Hx as [He1 Hm1], Hy as [He2 Hm2]. unfold SFadd, cond_Zopp.
    pose proof (align_le mx ex (Z.min ex ey) A). pose proof (align_le my ey (Z.min ex ey) B).
    pose proof (Z.pow_pos_nonneg 2 (- ex)). pose proof (Z.pow_pos_nonneg 2 (- ey)).
    destruct (binary_normalize_bnd (A + B) (Zpos (shl_align mx ex (Z.min ex ey)).1 +
      Zpos (shl_align my ey (Z.min ex ey)).1) (Z.min ex ey) false) as [? Hn]; [nia|lia|lia|].
    split; [done|]. apply Hn. lia.
Qed.

(** Of two values between 0 and [B] the difference is within [B]. *)
Lemma SFsub_bnd B x y : bnd B x -> nonneg x -> bnd B y -> nonneg y -> 0 <= B < 2 ^ prec ->
  bnd B (SFsub prec emax x y).
Proof.
  intros Hx Nx Hy Ny HB.
  destruct x as [sx| | |sx mx ex], y as [sy| | |sy my ey]; simpl in Hx, Hy; try done.
  { by destruct sx, sy. }
  cbn [nonneg] in *. subst. destruct Hx as [He1 Hm1], Hy as [He2 Hm2]. unfold SFsub, cond_Zopp.
  pose proof (align_le mx ex (Z.min ex ey) B). pose proof (align_le my ey (Z.min ex ey) B).
  apply binary_normalize_bnd; lia.
Qed.

Lemma new_location_exact n k : 0 < n -> inexact (new_location n k) = negb (k =? 0).
Proof.
  intros Hn. unfold new_location, new_location_even, new_location_odd.
  by destruct (Z.even n), (k =? 0).
Qed.

(** Dividing by an integer [n], given as its float [my * 2 ^ ey]. *)
Lemma SFdiv_bnd B n x my ey : bnd (n * B) x -> nonneg x -> 0 <= B -> n * B < 2 ^ prec ->
  ey <= 0 -> Zpos my = n * 2 ^ (- ey) ->
  bnd B (SFdiv prec emax x (S754_finite false my ey)) /\
  nonneg (SFdiv prec emax x (S754_finite false my ey)).
Proof.
  intros Hx Nx HB HnB Hey Hmy. destruct x as [sx| | |sx mx ex]; simpl in Hx; try done.
  cbn [nonneg] in Nx. subst sx. destruct Hx as [He1 Hm1]. unfold SFdiv, SFdiv_core_binary.
  set (e' := Z.min _ (ex - ey)). set (s := ex - ey - e').
  assert (Hn : 0 < n) by (pose proof (Z.pow_pos_nonneg 2 (- ey)); nia).
  assert (Hs : 0 <= s) by lia.
  assert (He' : e' <= 0).
  { assert (Zdigits2 (Zpos mx) <= prec - ex).
    { assert (Zpos mx < 2 ^ (prec - ex)).
      { unfold Z.sub. rewrite Z.pow_add_r by lia. pose proof (Z.pow_pos_nonneg 2 (- ex)). nia. }
      pose proof (digits2_le (Zpos mx) (prec - ex)). lia. }
    assert (1 <= Zdigits2 (Zpos my) + ey).
    { assert (0 <= Zpos (digits2_pos my) - 1 + ey); [|simpl; lia].
      pose proof (digits2_bounds my) as [_ Hd]. apply Znot_gt_le. intros Hgt.
      pose proof (Z.pow_le_mono_r 2 (Zpos (digits2_pos my)) (- ey)).
      pose proof (Z.pow_pos_nonneg 2 (- ey)). nia. }
    unfold e', fexp, emin. lia. }
  replace (match s with Zpos _ => Z.shiftl (Zpos mx) s | Z0 => Zpos mx | Zneg _ => 0 end)
    with (Zpos mx * 2 ^ s)
    by (destruct s; [simpl; lia|by rewrite Z.shiftl_mul_pow2 by lia|lia]).
  assert (Hle : Zpos mx * 2 ^ s <= B * 2 ^ (- e') * Zpos my).
  { rewrite Hmy. replace (B * 2 ^ (- e') * (n * 2 ^ (- ey))) with (n * B * (2 ^ (- e') * 2 ^ (- ey))) by lia.
    rewrite <- Z.pow_add_r by lia. replace (- e' + - ey) with (- ex + s) by lia.
    rewrite Z.pow_add_r by lia. pose proof (Z.pow_pos_nonneg 2 s). nia. }
  pose proof (Z_div_mod (Zpos mx * 2 ^ s) (Zpos my) ltac:(lia)) as Hdm.
  destruct (Z.div_eucl _ _) as [q r]. destruct Hdm as [Heq Hr].
  pose proof (Z.pow_pos_nonneg 2 s). pose proof (Z.pow_pos_nonneg 2 (- e')).
  destruct (binary_round_aux_bnd B false q e' (new_location (Zpos my) r)) as [? Hnn]; [nia|done|nia| |].
  { rewrite new_location_exact by lia. destruct (Z.eqb_spec r 0); simpl; nia. }
  split; [done|]. by apply Hnn.
Qed.

End bounds.
