(* ===== verification/FloatExact.v ===== *)
(** * FloatExact: exact integer arithmetic in floating point

    Sums and differences of integers below [2^prec] are exact, and a
    quotient of two of them, although it is rounded, has the floor and the
    ceiling of the exact quotient: it is off by less than the distance of
    a fraction to the next integer.  The flit counts of the network
    interface and of the bridges, computed in [float], are therefore the
    integers they stand for. *)

From S2P Require Import Prelude CFloat FloatBounds.

(** ** Records of shifted values *)

(** The record stands for [N / D]: its integer part and on which side of
    the middle of two integers it lies. *)
Definition rep (N D : Z) (r : shr_record) : Prop :=
  match r with
  | Build_shr_record m false false => N = m * D
  | Build_shr_record m false true => m * D < N /\ 2 * N < (2 * m + 1) * D
  | Build_shr_record m true false => 2 * N = (2 * m + 1) * D
  | Build_shr_record m true true => (2 * m + 1) * D < 2 * N /\ N < (m + 1) * D
  end /\ 0 <= shr_m r.

Lemma shr_1_rep N D r : 0 < D -> rep N D r -> rep N (2 * D) (shr_1 r).
Proof.
  intros HD. destruct r as [m rr ss]. unfold rep. intros [Hr Hm]. simpl in Hm.
  destruct m as [|[p|p|]|p]; [..|lia]; destruct rr, ss; simpl in *; lia.
Qed.

Lemma iter_shr_rep p : forall N D r, 0 < D -> rep N D r -> rep N (2 ^ Zpos p * D) (iter_pos shr_1 p r).
Proof.
  induction p as [p IH|p IH|]; intros N D r HD Hr; simpl.
  - replace (2 ^ Zpos p~1 * D) with (2 ^ Zpos p * (2 ^ Zpos p * (2 * D))).
    + pose proof (Z.pow_pos_nonneg 2 (Zpos p)). apply IH; [nia|]. apply IH; [lia|]. by apply shr_1_rep.
    + replace (Zpos p~1) with (1 + (Zpos p + Zpos p)) by lia. rewrite !Z.pow_add_r by lia. lia.
  - replace (2 ^ Zpos p~0 * D) with (2 ^ Zpos p * (2 ^ Zpos p * D)).
    + pose proof (Z.pow_pos_nonneg 2 (Zpos p)). apply IH; [nia|]. by apply IH.
    + replace (Zpos p~0) with (Zpos p + Zpos p) by lia. rewrite Z.pow_add_r by lia. lia.
  - by apply shr_1_rep.
Qed.

Lemma rep_exact K D r : 0 < D -> rep (K * D) D r -> r = Build_shr_record K false false.
Proof.
  intros HD. destruct r as [m rr ss]; unfold rep; intros [Hr Hm]; simpl in Hm.
  destruct (Z.lt_trichotomy m K) as [Hlt|[->|Hlt]].
  - assert ((m + 1) * D <= K * D) by nia. destruct rr, ss; lia.
  - destruct rr, ss; [lia..|done].
  - assert ((K + 1) * D <= m * D) by nia. destruct rr, ss; lia.
Qed.

(** Rounding to the nearest integer is off by half at most. *)
Lemma rep_round N D r : 0 < D -> rep N D r ->
  2 * Z.abs (N - round_nearest_even (shr_m r) (loc_of_shr_record r) * D) <= D.
Proof.
  intros HD. destruct r as [m [] []]; unfold rep; simpl; intros [Hr Hm]; try lia.
  destruct (Z.even m); lia.
Qed.

Lemma div_rep q n r : 0 <= q -> 0 <= r < n ->
  rep (q * n + r) n (shr_record_of_loc q (new_location n r)).
Proof.
  intros Hq Hr. unfold new_location, new_location_even, new_location_odd.
  destruct (Z.even n) eqn:E.
  - destruct (Z.eqb_spec r 0); [by unfold rep; simpl; lia|].
    destruct (Z.compare_spec (2 * r) n); unfold rep; simpl; lia.
  - apply (f_equal negb) in E. rewrite Z.negb_even, Z.odd_spec in E. destruct E as [h ->].
    destruct (Z.eqb_spec r 0); [by unfold rep; simpl; lia|].
    destruct (Z.compare_spec (2 * r + 1) (2 * h + 1)); unfold rep; simpl; lia.
Qed.

Section exact.
Context (prec emax : Z) (Hprec : 1 < prec) (Hemax : 2 * prec + 3 <= emax).

Lemma digits2_eq m d : 0 < d -> 2 ^ (d - 1) <= m < 2 ^ d -> Zdigits2 m = d.
Proof.
  intros Hd Hm. pose proof (Z.pow_pos_nonneg 2 (d - 1)). destruct m as [|p|p]; [lia| |lia].
  cbn [Zdigits2]. pose proof (digits2_bounds p) as [H1 H2].
  destruct (Z.lt_trichotomy (Zpos (digits2_pos p)) d) as [Hlt|[?|Hlt]]; [|done|].
  - pose proof (Z.pow_le_mono_r 2 (Zpos (digits2_pos p)) (d - 1)). lia.
  - pose proof (Z.pow_le_mono_r 2 d (Zpos (digits2_pos p) - 1)). lia.
Qed.

(** The mantissa and the exponent of the integer [c]. *)
Definition expo (c : Z) : Z := Zdigits2 c - prec.
Definition mant (c : Z) : Z := c * 2 ^ (- expo c).

Lemma expo_mant c : 0 < c < 2 ^ prec ->
  1 - prec <= expo c <= 0 /\ 2 ^ (prec - 1) <= mant c < 2 ^ prec.
Proof.
  intros Hc. unfold mant, expo.
  pose proof (digits2_le c prec). destruct c as [|p|p]; [lia| |lia]. cbn [Zdigits2] in *.
  pose proof (digits2_bounds p) as [H1 H2]. set (d := Zpos (digits2_pos p)) in *.
  split; [lia|]. pose proof (Z.pow_pos_nonneg 2 (- (d - prec))).
  assert (2 ^ (prec - 1) = 2 ^ (d - 1) * 2 ^ (- (d - prec))) by (rewrite <- Z.pow_add_r by lia; f_equal; lia).
  assert (2 ^ prec = 2 ^ d * 2 ^ (- (d - prec))) by (rewrite <- Z.pow_add_r by lia; f_equal; lia). nia.
Qed.

Lemma shr_fexp_id m e l : Zdigits2 m <= prec -> emin prec emax <= e ->
  shr_fexp prec emax m e l = (shr_record_of_loc m l, e).
Proof.
  intros Hd He. unfold shr_fexp, shr, fexp.
  destruct (Z.max _ _ - e) eqn:E; [done|lia|done].
Qed.

(** An integer scaled up is shifted back without loss. *)
Lemma round_aux_exact c e : 0 < c < 2 ^ prec -> 1 - prec - prec <= e <= expo c ->
  binary_round_aux prec emax false (c * 2 ^ (- e)) e loc_Exact =
  S754_finite false (Z.to_pos (mant c)) (expo c).
Proof.
  intros Hc He. destruct (expo_mant c Hc) as [Hx Hm].
  pose proof (Z.pow_pos_nonneg 2 (expo c - e)). pose proof (Z.pow_pos_nonneg 2 (prec - 1)).
  assert (Hd : Zdigits2 (c * 2 ^ (- e)) = prec + (expo c - e)).
  { apply digits2_eq; [lia|]. unfold mant in Hm.
    replace (- e) with (- expo c + (expo c - e)) by lia.
    replace (prec + (expo c - e) - 1) with (prec - 1 + (expo c - e)) by lia.
    rewrite !Z.pow_add_r, Z.mul_assoc by lia. nia. }
  assert (Hs : shr_fexp prec emax (c * 2 ^ (- e)) e loc_Exact =
    (Build_shr_record (mant c) false false, expo c)).
  { unfold shr_fexp. rewrite Hd. unfold fexp, emin. rewrite Z.max_l by lia.
    replace (prec + (expo c - e) + e - prec - e) with (expo c - e) by lia.
    unfold shr. destruct (expo c - e) as [|p|p] eqn:E; [|f_equal; [|lia]|lia].
    - simpl. unfold mant. repeat f_equal; lia.
    - apply (rep_exact _ (2 ^ Zpos p)); [lia|]. rewrite <- (Z.mul_1_r (2 ^ Zpos p)) at 2.
      apply iter_shr_rep; [done|]. split; [|simpl; lia]. simpl. unfold mant.
      rewrite <- Z.mul_assoc, <- Z.pow_add_r, Z.mul_1_r by lia. do 2 f_equal. lia. }
  unfold binary_round_aux. rewrite Hs. cbn [shr_m loc_of_shr_record round_nearest_even].
  assert (Hd' : Zdigits2 (mant c) = prec) by (apply digits2_eq; lia).
  rewrite shr_fexp_id by (rewrite ?Hd'; unfold emin; lia). cbn [shr_record_of_loc shr_m].
  destruct (mant c) as [|p|p]; [lia| |lia]. rewrite (proj2 (Z.leb_le _ _)) by lia. done.
Qed.

Lemma normalize_exact c e : 0 < c < 2 ^ prec -> 1 - prec <= e <= 0 ->
  binary_normalize prec emax (c * 2 ^ (- e)) e false = S754_finite false (Z.to_pos (mant c)) (expo c).
Proof.
  intros Hc He. destruct (expo_mant c Hc) as [Hx Hm]. pose proof (Z.pow_pos_nonneg 2 (- e)).
  destruct (c * 2 ^ (- e)) as [|p|p] eqn:Ep; [nia| |nia]. unfold binary_normalize, binary_round.
  assert (Hd : Zpos (digits2_pos p) + e = prec + expo c).
  { assert (Zdigits2 (Zpos p) = prec + expo c - e); [|simpl in *; lia].
    rewrite <- Ep. unfold expo. destruct c as [|c|c]; [lia| |lia]. cbn [Zdigits2].
    pose proof (digits2_bounds c). apply digits2_eq; [lia|].
    replace (prec + (Zpos (digits2_pos c) - prec) - e - 1) with (Zpos (digits2_pos c) - 1 + - e) by lia.
    replace (prec + (Zpos (digits2_pos c) - prec) - e) with (Zpos (digits2_pos c) + - e) by lia.
    rewrite !Z.pow_add_r by lia. nia. }
  rewrite Hd. unfold fexp, emin. rewrite Z.max_l by lia.
  destruct (shl_align_value p e (prec + expo c - prec)) as (m' & -> & Hm').
  replace (Zpos m') with (c * 2 ^ (- Z.min e (prec + expo c - prec))).
  - apply round_aux_exact; [done|lia].
  - rewrite Hm', <- Ep, <- Z.mul_assoc, <- Z.pow_add_r by lia. do 2 f_equal. lia.
Qed.

Local Notation of_Z c := (binary_normalize prec emax c 0 false).

Lemma of_Z_pos c : 0 < c < 2 ^ prec -> of_Z c = S754_finite false (Z.to_pos (mant c)) (expo c).
Proof. intros Hc. rewrite <- (Z.mul_1_r c) at 1. apply (normalize_exact c 0); lia. Qed.

Lemma align_value c ez : 0 < c < 2 ^ prec -> ez <= expo c ->
  Zpos (shl_align (Z.to_pos (mant c)) (expo c) ez).1 = c * 2 ^ (- ez).
Proof.
  intros Hc He. destruct (expo_mant c Hc) as [Hx Hm]. pose proof (Z.pow_pos_nonneg 2 (prec - 1)).
  destruct (shl_align_value (Z.to_pos (mant c)) (expo c) ez) as (m' & -> & Hm').
  cbn [fst]. rewrite Hm', Z2Pos.id, Z.min_r by lia. unfold mant.
  rewrite <- Z.mul_assoc, <- Z.pow_add_r by lia. do 2 f_equal. lia.
Qed.

(** ** Sums and differences *)

Lemma SFadd_exact a b : 0 <= a -> 0 <= b -> a + b < 2 ^ prec ->
  SFadd prec emax (of_Z a) (of_Z b) = of_Z (a + b).
Proof.
  intros Ha Hb Hab. destruct (decide (a = 0)) as [->|]; [destruct (decide (b = 0)) as [->|]; [done|]|].
  { rewrite Z.add_0_l, (of_Z_pos b) by lia. done. }
  destruct (decide (b = 0)) as [->|]; [rewrite Z.add_0_r, (of_Z_pos a) by lia; done|].
  rewrite !of_Z_pos by lia. cbn [SFadd cond_Zopp]. rewrite !align_value by lia.
  rewrite <- Z.mul_add_distr_r.
  pose proof (expo_mant a ltac:(lia)). pose proof (expo_mant b ltac:(lia)).
  apply normalize_exact; lia.
Qed.

Lemma SFsub_exact a b : 0 <= b <= a -> a < 2 ^ prec ->
  SFsub prec emax (of_Z a) (of_Z b) = of_Z (a - b).
Proof.
  intros Hb Ha. destruct (decide (b = 0)) as [->|].
  { rewrite Z.sub_0_r. destruct (decide (a = 0)) as [->|]; [done|].
    rewrite of_Z_pos by lia. done. }
  rewrite (of_Z_pos a), (of_Z_pos b) by lia. cbn [SFsub cond_Zopp]. rewrite !align_value by lia.
  rewrite <- Z.mul_sub_distr_r. pose proof (expo_mant a ltac:(lia)). pose proof (expo_mant b ltac:(lia)).
  destruct (decide (a = b)) as [->|]; [by rewrite Z.sub_diag|].
  rewrite of_Z_pos by lia. apply normalize_exact; lia.
Qed.

(** ** Quotients *)

Lemma pow_prec : 0 < 2 ^ (prec - 1) /\ 2 ^ prec = 2 * 2 ^ (prec - 1) /\ 2 ^ (prec + 1) = 2 * 2 ^ prec.
Proof.
  split_and!; [by apply Z.pow_pos_nonneg; lia|..]; rewrite <- Z.pow_succ_r by lia; f_equal; lia.
Qed.

(** A mantissa with at most one bit too many is shifted by [j]. *)
Lemma shr_fexp_rep N D q e l : 0 < D -> rep N D (shr_record_of_loc q l) ->
  2 ^ (prec - 1) <= q < 2 ^ (prec + 1) -> emin prec emax <= e ->
  exists mrs j, shr_fexp prec emax q e l = (mrs, e + j) /\ 0 <= j <= 1 /\
    rep N (D * 2 ^ j) mrs /\ 2 ^ (prec - 1) <= shr_m mrs < 2 ^ prec.
Proof.
  intros HD Hrep Hq He. destruct pow_prec as (Hpos & Hp1 & Hp2). destruct (decide (q < 2 ^ prec)).
  - exists (shr_record_of_loc q l), 0.
    rewrite shr_fexp_id, Z.add_0_r, Z.mul_1_r; [|rewrite (digits2_eq q prec); lia|lia].
    split_and!; try done; try lia; destruct l as [|[]]; simpl; lia.
  - exists (shr_1 (shr_record_of_loc q l)), 1. split; [|split; [lia|split]].
    + unfold shr_fexp. rewrite (digits2_eq q (prec + 1)); [|lia|rewrite Z.add_simpl_r; lia].
      unfold fexp. replace (Z.max _ _ - e) with 1 by lia. done.
    + rewrite Z.mul_comm. by apply shr_1_rep.
    + destruct q as [|[p|p|]|p]; [lia| | |lia|lia]; destruct l as [|[]]; simpl in *; lia.
Qed.

(** What rounding [N / D * 2 ^ e] gives: it shifts by [j], rounds, and
    shifts by [i] when the rounded mantissa overflows. *)
Lemma round_aux_near N D q e l : 0 < D -> rep N D (shr_record_of_loc q l) ->
  2 ^ (prec - 1) <= q < 2 ^ (prec + 1) -> emin prec emax <= e <= 0 ->
  exists m m0 i j, binary_round_aux prec emax false q e l = S754_finite false m (e + j + i) /\
    0 <= j <= 1 /\ (i = 0 \/ i = 1 /\ m0 = 2 ^ prec) /\ Zpos m * 2 ^ i = m0 /\
    2 * Z.abs (N - m0 * (D * 2 ^ j)) <= D * 2 ^ j /\ 2 ^ (prec - 1) * (D * 2 ^ j) <= N.
Proof.
  intros HD Hrep Hq He. destruct pow_prec as (Hpos & Hp1 & Hp2).
  destruct (shr_fexp_rep N D q e l) as (mrs & j & Hsh & Hj & Hr & Hm); [done..|lia|].
  unfold binary_round_aux. rewrite Hsh.
  assert (0 < D * 2 ^ j) by (pose proof (Z.pow_pos_nonneg 2 j); nia).
  pose proof (rep_round N (D * 2 ^ j) mrs ltac:(done) Hr) as Hround.
  assert (HN : 2 ^ (prec - 1) * (D * 2 ^ j) <= N).
  { destruct mrs as [m [] []]; unfold rep in Hr; simpl in *; nia. }
  set (m0 := round_nearest_even _ _) in *.
  assert (Hm0 : 2 ^ (prec - 1) <= m0 <= 2 ^ prec).
  { unfold m0. destruct mrs as [m [] []]; simpl in *; try lia. destruct (Z.even m); lia. }
  destruct (decide (m0 = 2 ^ prec)) as [Hov|].
  - exists (Z.to_pos (2 ^ (prec - 1))), m0, 1, j. split_and!; try done; try lia.
    unfold shr_fexp. rewrite (digits2_eq m0 (prec + 1)); [|lia|rewrite Z.add_simpl_r; lia].
    unfold fexp. replace (Z.max _ _ - _) with 1 by lia. cbn [shr iter_pos].
    replace (shr_1 _) with (Build_shr_record (2 ^ (prec - 1)) false false).
    + cbn [shr_m]. destruct (2 ^ (prec - 1)) as [|p|p]; [lia| |lia].
      rewrite (proj2 (Z.leb_le _ _)) by lia. done.
    + rewrite Hov, Hp1. by destruct (2 ^ (prec - 1)).
  - exists (Z.to_pos m0), m0, 0, j. split_and!; try done; try lia.
    rewrite shr_fexp_id; [|rewrite (digits2_eq m0 prec); lia|lia]. cbn [shr_record_of_loc shr_m].
    rewrite Z.add_0_r. destruct m0 as [|p|p]; [lia| |lia].
    rewrite (proj2 (Z.leb_le _ _)) by lia. done.
Qed.

(** The same integers lie below and above the rounded quotient as below
    and above the exact one. *)
Lemma near_quotient a b P D' m0 F : 0 <= F -> 0 < P -> 0 < b -> 0 < D' -> D' * 2 ^ F = b * P ->
  2 * Z.abs (a * P - m0 * D') <= D' -> D' < 2 * P ->
  forall k, 0 <= k -> (k * b <= a <-> k * 2 ^ F <= m0) /\ (a <= k * b <-> m0 <= k * 2 ^ F).
Proof.
  intros HF HP Hb HD Heq Hnear HDP k Hk.
  assert (Hkb : k * b * P = k * 2 ^ F * D') by (rewrite <- (Z.mul_assoc k b), <- Heq; lia).
  set (K := k * 2 ^ F) in *. split; split; intros H; apply Znot_gt_le; intros Hgt.
  - assert ((m0 + 1) * D' <= K * D') by nia. assert (k * b * P <= a * P) by nia. lia.
  - assert (K * D' <= m0 * D') by nia. assert ((a + 1) * P <= k * b * P) by nia. lia.
  - assert ((K + 1) * D' <= m0 * D') by nia. assert (a * P <= k * b * P) by nia. lia.
  - assert (m0 * D' <= K * D') by nia. assert ((k * b + 1) * P <= a * P) by nia. lia.
Qed.

Lemma SFdiv_near a b : 0 < a < 2 ^ prec -> 0 < b < 2 ^ prec ->
  exists m e, SFdiv prec emax (of_Z a) (of_Z b) = S754_finite false m e /\ e <= 0 /\
    forall k, 0 <= k -> (k * b <= a <-> k * 2 ^ (- e) <= Zpos m) /\
                       (a <= k * b <-> Zpos m <= k * 2 ^ (- e)).
Proof.
  intros Ha Hb. destruct (expo_mant a Ha) as [Hxa Hma], (expo_mant b Hb) as [Hxb Hmb].
  destruct pow_prec as (Hpos & Hp1 & Hp2).
  rewrite !of_Z_pos by lia. unfold SFdiv, SFdiv_core_binary. rewrite !Z2Pos.id by lia.
  rewrite !(digits2_eq _ prec) by lia. set (e' := Z.min _ _).
  assert (He' : e' = expo a - expo b - prec) by (unfold e', fexp, emin; lia). clearbody e'.
  replace (expo a - expo b - e') with prec by lia.
  replace (match prec with Zpos _ => Z.shiftl (mant a) prec | Z0 => mant a | Zneg _ => 0 end)
    with (mant a * 2 ^ prec) by (destruct prec; [lia|by rewrite Z.shiftl_mul_pow2 by lia|lia]).
  pose proof (Z_div_mod (mant a * 2 ^ prec) (mant b) ltac:(lia)) as Hdm.
  destruct (Z.div_eucl _ _) as [q r]. destruct Hdm as [Heq Hr].
  assert (Hq : 2 ^ (prec - 1) <= q < 2 ^ (prec + 1)) by nia. cbn [xorb].
  destruct (round_aux_near (mant a * 2 ^ prec) (mant b) q e' (new_location (mant b) r))
    as (m & m0 & i & j & -> & Hj & Hi & Hm & Hnear & Hbig); [lia| |done|unfold emin; lia|].
  { rewrite Heq, (Z.mul_comm (mant b)). apply div_rep; lia. }
  set (D' := mant b * 2 ^ j) in *. set (P := 2 ^ (prec - expo a)).
  assert (HP : 0 < P) by (by apply Z.pow_pos_nonneg; lia).
  assert (HD : 0 < D') by (apply Z.mul_pos_pos; [lia|apply Z.pow_pos_nonneg; lia]).
  assert (HN : mant a * 2 ^ prec = a * P).
  { unfold mant, P. rewrite <- Z.mul_assoc, <- Z.pow_add_r by lia. do 2 f_equal. lia. }
  assert (HF : D' * 2 ^ (- (e' + j)) = b * P).
  { unfold D', mant, P. rewrite <- !Z.mul_assoc, <- !Z.pow_add_r by lia. do 2 f_equal. lia. }
  rewrite HN in *. assert (HDP : D' < 2 * P).
  { apply (Z.mul_lt_mono_pos_l (2 ^ (prec - 1))); [done|].
    pose proof (Z.mul_lt_mono_pos_r P a (2 ^ prec) HP). lia. }
  pose proof (near_quotient a b P D' m0 (- (e' + j)) ltac:(lia) HP ltac:(lia) HD HF Hnear HDP) as Hk.
  exists m, (e' + j + i). split; [done|].
  assert (He : e' + j + i <= 0).
  { destruct Hi as [->|[-> Hov]]; [lia|]. destruct (decide (e' + j = 0)) as [E|]; [|lia].
    specialize (Hk (2 ^ prec) ltac:(lia)). rewrite E in Hk. simpl in Hk.
    pose proof (Z.mul_le_mono_nonneg_l 1 b (2 ^ prec)). lia. }
  split; [done|]. intros k Hk0. destruct (Hk k Hk0) as [-> ->].
  replace (- (e' + j)) with (- (e' + j + i) + i) by lia.
  rewrite Z.pow_add_r, Z.mul_assoc, <- Hm by lia.
  assert (0 < 2 ^ i) by (apply Z.pow_pos_nonneg; lia). by rewrite <- !Z.mul_le_mono_pos_r.
Qed.

End exact.

(** ** Conversions of quotients to integers *)

Lemma quotient_F32 a b : 0 < a < 2 ^ 24 -> 0 < b < 2 ^ 24 ->
  exists m e, F32.div (F32.of_Z a) (F32.of_Z b) = S754_finite false m e /\ e <= 0 /\
    Zpos m / 2 ^ (- e) = a / b /\ - (- Zpos m / 2 ^ (- e)) = - (- a / b).
Proof.
  intros Ha Hb. destruct (SFdiv_near 24 128 ltac:(lia) ltac:(lia) a b Ha Hb) as (m & e & He & Hle & Hk).
  exists m, e. split; [done|]. split; [done|]. pose proof (Z.pow_pos_nonneg 2 (- e) ltac:(lia) ltac:(lia)).
  set (E := 2 ^ (- e)) in *. split.
  - assert (0 <= a / b) by (apply Z.div_pos; lia).
    pose proof (Z.mul_div_le a b ltac:(lia)). pose proof (Z.mul_succ_div_gt a b ltac:(lia)).
    destruct (Hk (a / b)) as [Hk1 _]; [done|]. destruct (Hk (a / b + 1)) as [Hk2 _]; [lia|].
    symmetry. apply (Z.div_unique _ _ _ (Zpos m - E * (a / b))); lia.
  - set (c := - (- a / b)). assert (- a / b < 0) by (apply Z.div_lt_upper_bound; lia).
    pose proof (Z.mul_div_le (- a) b ltac:(lia)). pose proof (Z.mul_succ_div_gt (- a) b ltac:(lia)).
    destruct (Hk c) as [_ Hk1]; [lia|]. destruct (Hk (c - 1)) as [_ Hk2]; [lia|].
    f_equal. symmetry. apply (Z.div_unique _ _ _ (E * c - Zpos m)); unfold c in *; lia.
Qed.

Lemma quotient_range a b : 0 <= a < 2 ^ 24 -> 0 < b -> 0 <= a / b < 2 ^ 24.
Proof. intros Ha Hb. split; [apply Z.div_pos; lia|]. apply Z.div_lt_upper_bound; nia. Qed.

Lemma divCeil_opp a b : 0 <= a -> 0 < b -> divCeil a b = - (- a / b).
Proof.
  intros Ha Hb. unfold divCeil. rewrite Z.quot_div_nonneg by lia.
  pose proof (Z.mul_div_le (- a) b Hb). pose proof (Z.mul_succ_div_gt (- a) b Hb).
  symmetry. apply (Z.div_unique _ _ _ (a + b - 1 + b * (- a / b))); lia.
Qed.

Lemma zero_F32 b : 0 < b < 2 ^ 24 -> F32.div (F32.of_Z 0) (F32.of_Z b) = S754_zero false.
Proof.
  intros Hb. unfold F32.of_Z. change F32.prec with 24. change F32.emax with 128.
  rewrite (of_Z_pos 24 128 ltac:(lia) ltac:(lia) b Hb). done.
Qed.

Lemma to_int_div a b : 0 <= a < 2 ^ 24 -> 0 < b < 2 ^ 24 ->
  to_int (F32.div (F32.of_Z a) (F32.of_Z b)) = Ok (a / b).
Proof.
  intros Ha Hb. pose proof (quotient_range a b Ha ltac:(lia)). destruct (decide (a = 0)) as [->|].
  { by rewrite zero_F32. }
  destruct (quotient_F32 a b) as (m & e & -> & He & Hq & _); [lia..|].
  unfold to_int, ftrunc. destruct (decide (0 <= e)).
  - assert (e = 0) as -> by lia. change (- 0) with 0 in Hq. change (2 ^ 0) with 1 in *.
    rewrite Z.div_1_r in Hq. by rewrite Z.mul_1_r, Hq, decide_True by lia.
  - rewrite Hq. by rewrite decide_True by lia.
Qed.

(** [floor] of a quotient of [float]s. *)
Lemma floor_div a b : 0 <= a < 2 ^ 24 -> 0 < b < 2 ^ 24 ->
  to_int_floor (F32.div (F32.of_Z a) (F32.of_Z b)) = Ok (a / b).
Proof.
  intros Ha Hb. rewrite <- to_int_div by done. destruct (decide (a = 0)) as [->|].
  { by rewrite zero_F32. }
  by destruct (quotient_F32 a b) as (m & e & -> & _); [lia..|].
Qed.

(** [ceil] of a quotient of [float]s. *)
Lemma ceil_div a b : 0 <= a < 2 ^ 24 -> 0 < b < 2 ^ 24 ->
  to_int_ceil (F32.div (F32.of_Z a) (F32.of_Z b)) = Ok (divCeil a b).
Proof.
  intros Ha Hb. rewrite divCeil_opp by lia. destruct (decide (a = 0)) as [->|].
  { by rewrite zero_F32, Z.div_0_l by lia. }
  destruct (quotient_F32 a b) as (m & e & -> & He & _ & Hq); [lia..|].
  assert (- (- a / b) <= a) by (pose proof (Z.div_le_lower_bound (- a) b (- a)); nia).
  unfold to_int_ceil. destruct (decide (0 <= e)).
  - assert (e = 0) as -> by lia. change (- 0) with 0 in Hq. change (2 ^ 0) with 1 in *.
    rewrite Z.div_1_r in Hq. rewrite Z.mul_1_r. replace (Zpos m) with (- (- a / b)) by lia.
    by rewrite decide_True by lia.
  - rewrite Hq. by rewrite decide_True by lia.
Qed.

Lemma to_int_divCeil a b : 0 <= a -> 0 < b -> a + b < 2 ^ 24 ->
  to_int (divCeil_float a b) = Ok (divCeil a b).
Proof.
  intros Ha Hb Hab. unfold divCeil_float.
  unfold F32.add, F32.sub, F32.of_Z. change F32.prec with 24. change F32.emax with 128.
  rewrite SFadd_exact, SFsub_exact by lia.
  fold (F32.of_Z (a + b - 1)). unfold divCeil. rewrite Z.quot_div_nonneg by lia.
  apply to_int_div; lia.
Qed.

(** The counts of flits computed in [float] are the integers they
    stand for, as long as size and width add up to less than [2^24]
    although every quotient is rounded: [divCeil] truncated to [int], as
    the network interface and [flit::serialize] compute it, and [floor]
    and [ceil] of the quotient, as the bridges do. *)
Theorem flit_counts_exact a b : 0 <= a -> 0 < b -> a + b < 2 ^ 24 ->
  to_int (divCeil_float a b) = Ok (divCeil a b) /\
  to_int_floor (F32.div (F32.of_Z a) (F32.of_Z b)) = Ok (a / b) /\
  to_int_ceil (F32.div (F32.of_Z a) (F32.of_Z b)) = Ok (divCeil a b) /\
  (divCeil a b - 1) * b < a <= divCeil a b * b.
Proof.
  intros Ha Hb Hab. split_and!; [by apply to_int_divCeil|by apply floor_div; lia|by apply ceil_div; lia|..].
  all: rewrite divCeil_opp by lia.
  all: pose proof (Z.mul_div_le (- a) b Hb); pose proof (Z.mul_succ_div_gt (- a) b Hb); lia.
Qed.

Lemma flit_counts_exact_witness :
  to_int (divCeil_float 16711681 255) = Ok 65537 /\ (65537 - 1) * 255 < 16711681.
Proof.
  destruct (flit_counts_exact 16711681 255) as (H1 & _ & _ & H2 & _); [lia..|].
  split; [rewrite H1; reflexivity|lia].
Defined.
