(* ===== verification/FaultModel.v ===== *)
(** * FaultModel: fault probabilities of the routers

    mem/ruby/network/fault_model/FaultModel.hh/.cc.  The model holds a
    database of fault probabilities for numbers of channels and buffers and
    weights for temperatures.  A router that is declared is linked to the
    record of its configuration and gets the next number; its probabilities
    are those of the record, weighted by the temperature. *)

From stdpp Require Import strings.
From S2P Require Import Prelude CFloat.

(** Conversions between [float] and [double]. *)
Definition to_float (x : spec_float) : spec_float :=
  match x with S754_finite s m e => binary_round F32.prec F32.emax s m e | _ => x end.
Definition to_double (x : spec_float) : spec_float :=
  match x with S754_finite s m e => binary_round F64.prec F64.emax s m e | _ => x end.

Module FaultModel.

Definition MAX_VCs : Z := 40.
Definition MAX_BUFFERS_per_VC : Z := 5.
Definition BASELINE_TEMPERATURE_CELCIUS : Z := 71.

(** [fault_type], with the number of types at its end. *)
Definition data_corruption__few_bits : Z := 0.
Definition data_corruption__all_bits : Z := 1.
Definition flit_conservation__flit_duplication : Z := 2.
Definition flit_conservation__flit_loss_or_split : Z := 3.
Definition misrouting : Z := 4.
Definition credit_conservation__credit_generation : Z := 5.
Definition credit_conservation__credit_loss : Z := 6.
Definition erroneous_allocation__VC : Z := 7.
Definition erroneous_allocation__switch : Z := 8.
Definition unfair_arbitration : Z := 9.
Definition number_of_fault_types : Z := 10.

(** [conf_record_format] and [temperature_record_format]. *)
Definition conf_record_buff_per_vc : Z := 0.
Definition conf_record_vcs : Z := 1.
Definition conf_record_first_fault_type : Z := 2.
Definition fields_per_conf_record : Z := conf_record_first_fault_type + number_of_fault_types.
Definition temperature_record_temp : Z := 0.
Definition temperature_record_weight : Z := 1.
Definition fields_per_temperature_record : Z := 2.

Record system_conf := mkConf { vcs : Z; buff_per_vc : Z; conf_fault_type : list spec_float }.

(** [first_record] and [router_index] are static variables of the class'
    functions, shared by all objects. *)
Record Statics := mkStatics { first_record : bool; router_index : Z }.
#[global] Instance Statics_eta : Etaed Statics := fun s => mkStatics (first_record s) (router_index s).

Record t := mk {
  configurations : list system_conf;
  routers : list system_conf;
  temperature_weights : list Z;
}.
#[global] Instance t_eta : Etaed t := fun f => mk (configurations f) (routers f) (temperature_weights f).

(** ** Construction *)

Definition read_conf (db : list spec_float) (i : Z) : res system_conf :=
  b ← vget db (i + conf_record_buff_per_vc);
  buff ← to_int b;
  v ← vget db (i + conf_record_vcs);
  vs ← to_int v;
  types ← for_ (Z.to_nat number_of_fault_types) 0 (fun fault_index l =>
    x ← vget db (i + conf_record_first_fault_type + fault_index);
    Ok (l ++ [to_float (F64.div x (F64.of_Z 100))])) [];
  Ok (mkConf vs buff types).

(** A loop over records; the database has at least one element per record. *)
Fixpoint read_confs (fuel : nat) (db : list spec_float) (i : Z) (l : list system_conf) : res (list system_conf) :=
  match fuel with
  | O => Err OutOfFuel
  | S fuel =>
      c ← read_conf db i;
      x ← vget db (i + fields_per_conf_record);
      if fltb x (F64.of_Z 0) then Ok (l ++ [c])
      else read_confs fuel db (i + fields_per_conf_record) (l ++ [c])
  end.

Fixpoint read_weights (fuel : nat) (db : list Z) (i : Z) (first : bool) (l : list Z) : res (bool * list Z) :=
  match fuel with
  | O => Err OutOfFuel
  | S fuel =>
      record_temperature ← vget db (i + temperature_record_temp);
      record_weight ← vget db (i + temperature_record_weight);
      let l := if first then l ++ replicate (Z.to_nat record_temperature) 0 else l in
      _ ← assert (record_temperature =? zlength l);
      x ← vget db (i + fields_per_temperature_record);
      if x <? 0 then Ok (false, l ++ [record_weight])
      else read_weights fuel db (i + fields_per_temperature_record) false (l ++ [record_weight])
  end.

Definition new (baseline_fault_vector_database : list spec_float) (temperature_weights_database : list Z) (st : Statics)
    : res (t * Statics) :=
  c ← read_confs (length baseline_fault_vector_database) baseline_fault_vector_database 0 [];
  '(first, w) ← read_weights (length temperature_weights_database) temperature_weights_database 0 (first_record st) [];
  Ok (mk c [] w, st <| first_record := first |>).

Definition fault_type_to_string (ft : Z) : string :=
  if ft =? data_corruption__few_bits then "data_corruption__few_bits"
  else if ft =? data_corruption__all_bits then "data_corruption__all_bits"
  else if ft =? flit_conservation__flit_duplication then "flit_conservation__flit_duplication"
  else if ft =? flit_conservation__flit_loss_or_split then "flit_conservation__flit_loss_or_split"
  else if ft =? misrouting then "misrouting"
  else if ft =? credit_conservation__credit_generation then "credit_conservation__credit_generation"
  else if ft =? credit_conservation__credit_loss then "credit_conservation__credit_loss"
  else if ft =? erroneous_allocation__VC then "erroneous_allocation__VC"
  else if ft =? erroneous_allocation__switch then "erroneous_allocation__switch"
  else if ft =? unfair_arbitration then "unfair_arbitration"
  else "none".

(** ** Declaring routers *)

(** The last record of the configuration. *)
Definition find_record (buffers total_vcs : Z) (l : list system_conf) : option system_conf :=
  foldl (fun hit c => if (buff_per_vc c =? buffers) && (vcs c =? total_vcs) then Some c else hit) None l.

Definition declare_router (number_of_inputs number_of_outputs number_of_vcs_per_input number_of_buff_per_data_vc
    number_of_buff_per_ctrl_vc : Z) (f : t) (st : Statics) : res (Z * t * Statics) :=
  if (number_of_inputs <=? 0) || (number_of_outputs <=? 0) || (number_of_vcs_per_input <=? 0) ||
     (number_of_buff_per_data_vc <=? 0) || (number_of_buff_per_ctrl_vc <=? 0) then Err FatalCalled
  else
    let number_of_buffers_per_vc := Z.max number_of_buff_per_data_vc number_of_buff_per_ctrl_vc in
    let total_vcs := number_of_inputs * number_of_vcs_per_input in
    if MAX_VCs <? total_vcs then Err FatalCalled
    else if MAX_BUFFERS_per_VC <? number_of_buffers_per_vc then Err FatalCalled
    else
      match find_record number_of_buffers_per_vc total_vcs (configurations f) with
      | None => Err PanicCalled
      | Some c => Ok (router_index st, f <| routers ::= (fun l => l ++ [c]) |>, st <| router_index ::= Z.succ |>)
      end.

(** ** Queries *)

(** The temperature that is used and whether it is in the range of the database. *)
Definition clamp (temperature_input : Z) (f : t) : bool * Z :=
  if zlength (temperature_weights f) <=? temperature_input then (false, zlength (temperature_weights f) - 1)
  else if temperature_input <? 0 then (false, 0)
  else (true, temperature_input).

Definition weighted (c : system_conf) (w i : Z) : res spec_float :=
  x ← vget (conf_fault_type c) i; Ok (F32.mul x (F32.of_Z w)).

Definition fault_vector (routerID temperature_input : Z) (f : t) : res (bool * list spec_float) :=
  if (routerID <? 0) || (zlength (routers f) <=? routerID) then Err FatalCalled
  else
    let '(ok, temperature) := clamp temperature_input f in
    v ← for_ (Z.to_nat number_of_fault_types) 0 (fun i l =>
      c ← vget (routers f) routerID;
      w ← vget (temperature_weights f) temperature;
      x ← weighted c w i;
      Ok (l ++ [x])) [];
    Ok (ok, v).

Definition fault_prob (routerID temperature_input : Z) (f : t) : res (bool * spec_float) :=
  if (routerID <? 0) || (zlength (routers f) <=? routerID) then Err FatalCalled
  else
    let '(ok, temperature) := clamp temperature_input f in
    p ← for_ (Z.to_nat number_of_fault_types) 0 (fun i p =>
      c ← vget (routers f) routerID;
      w ← vget (temperature_weights f) temperature;
      x ← weighted c w i;
      Ok (to_float (F64.mul (to_double p) (F64.sub (F64.of_Z 1) (to_double x))))) (F32.of_Z 1);
    Ok (ok, to_float (F64.sub (F64.of_Z 1) (to_double p))).

(** ** Declared routers are found *)

(** A request of [declare_router]. *)
Record Request := mkRequest { rq_inputs : Z; rq_outputs : Z; rq_vcs : Z; rq_data : Z; rq_ctrl : Z }.

Definition rq_buffers (q : Request) : Z := Z.max (rq_data q) (rq_ctrl q).
Definition rq_channels (q : Request) : Z := rq_inputs q * rq_vcs q.

Definition declare (q : Request) (st : list Z * t * Statics) : res (list Z * t * Statics) :=
  let '(ids, f, s) := st in
  '(id, f, s) ← declare_router (rq_inputs q) (rq_outputs q) (rq_vcs q) (rq_data q) (rq_ctrl q) f s;
  Ok (ids ++ [id], f, s).

(** The limits of the tool, and a record for the configuration. *)
Definition supported (f : t) (q : Request) : Prop :=
  0 < rq_inputs q /\ 0 < rq_outputs q /\ 0 < rq_vcs q /\ 0 < rq_data q /\ 0 < rq_ctrl q /\
  rq_channels q <= MAX_VCs /\ rq_buffers q <= MAX_BUFFERS_per_VC /\
  exists c, c ∈ configurations f /\ buff_per_vc c = rq_buffers q /\ vcs c = rq_channels q.

(** The shape of the database. *)
Record database_ok (f : t) : Prop := {
  db_types : Forall (fun c => zlength (conf_fault_type c) = number_of_fault_types) (configurations f);
  db_weights : temperature_weights f <> [];
}.

(** A record that belongs to a request. *)
Definition record_of (f : t) (q : Request) (c : system_conf) : Prop :=
  c ∈ configurations f /\ buff_per_vc c = rq_buffers q /\ vcs c = rq_channels q.

Lemma find_record_spec buffers channels l c0 :
  c0 ∈ l -> buff_per_vc c0 = buffers -> vcs c0 = channels ->
  exists c, find_record buffers channels l = Some c /\ c ∈ l /\ buff_per_vc c = buffers /\ vcs c = channels.
Proof.
  unfold find_record. induction l as [|x l IH] using rev_ind; intros Hin Hb Hv; [by apply not_elem_of_nil in Hin|].
  rewrite foldl_app. cbn.
  destruct (Z.eqb_spec (buff_per_vc x) buffers), (Z.eqb_spec (vcs x) channels); cbn;
    try (exists x; split_and!; [done|apply elem_of_app; right; by left|done|done]);
    (apply elem_of_app in Hin as [Hin|Hin%list_elem_of_singleton]; [|congruence];
     destruct (IH Hin Hb Hv) as (c & -> & Hc & H1 & H2); exists c; split_and!; try done; apply elem_of_app; by left).
Qed.

Lemma declare_spec q ids f s : supported f q ->
  exists c, record_of f q c /\
    declare q (ids, f, s) = Ok (ids ++ [router_index s], f <| routers ::= (fun l => l ++ [c]) |>, s <| router_index ::= Z.succ |>).
Proof.
  intros (H1 & H2 & H3 & H4 & H5 & H6 & H7 & c0 & Hc0 & Hb & Hv).
  destruct (find_record_spec (rq_buffers q) (rq_channels q) (configurations f) c0 Hc0 Hb Hv) as (c & Hf & Hc & Hcb & Hcv).
  exists c. split; [done|]. unfold declare, declare_router.
  rewrite !(proj2 (Z.leb_gt _ _)) by lia. cbn [orb]. unfold rq_channels, rq_buffers in *.
  rewrite !(proj2 (Z.ltb_ge _ _)) by lia. by rewrite Hf.
Qed.

(** Each request appends its record. *)
Lemma declare_all_spec qs : forall ids f s, Forall (supported f) qs ->
  exists cs, Forall2 (record_of f) qs cs /\
    for_each qs declare (ids, f, s) =
      Ok (ids ++ seqZ (router_index s) (zlength qs), f <| routers ::= (fun l => l ++ cs) |>,
          s <| router_index ::= (fun i => i + zlength qs) |>).
Proof.
  induction qs as [|q qs IH]; intros ids f s Hs.
  - exists []. split; [done|]. destruct f, s. unfold update. cbn. by rewrite !app_nil_r, Z.add_0_r.
  - apply list.Forall_cons in Hs as [Hq Hs]. destruct (declare_spec q ids f s Hq) as (c & Hc & Hd).
    cbn [for_each]. rewrite Hd. cbn [mbind res_bind].
    destruct (IH (ids ++ [router_index s]) (f <| routers ::= (fun l => l ++ [c]) |>) (s <| router_index ::= Z.succ |>))
      as (cs & Hcs & ->); [done|].
    exists (c :: cs). split; [by constructor|]. unfold update. cbn.
    assert (zlength (q :: qs) = Z.succ (zlength qs)) as -> by (unfold zlength; cbn; lia).
    rewrite (seqZ_cons _ (Z.succ _)) by (pose proof (zlength_nonneg qs); lia). rewrite <- !app_assoc, Z.pred_succ. cbn.
    by rewrite Z.add_succ_comm.
Qed.

Lemma clamp_range T f : temperature_weights f <> [] ->
  0 <= (clamp T f).2 < zlength (temperature_weights f) /\
  ((clamp T f).1 = true <-> 0 <= T < zlength (temperature_weights f)) /\
  ((clamp T f).1 = true -> (clamp T f).2 = T).
Proof.
  intros Hne. assert (0 < zlength (temperature_weights f)) by (destruct (temperature_weights f); [done|unfold zlength; cbn; lia]).
  unfold clamp. destruct (Z.leb_spec (zlength (temperature_weights f)) T); [|destruct (Z.ltb_spec T 0)]; cbn;
    (split; [lia|]); split; try split; (done || lia).
Qed.

Lemma weighted_vector c w : zlength (conf_fault_type c) = number_of_fault_types ->
  for_ (Z.to_nat number_of_fault_types) 0 (fun i l => x ← weighted c w i; Ok (l ++ [x])) [] =
  Ok ((fun x => F32.mul x (F32.of_Z w)) <$> conf_fault_type c).
Proof.
  destruct c as [v b l]. cbn [conf_fault_type]. unfold zlength, number_of_fault_types. intros Hl.
  do 10 (destruct l as [|? l]; [done|]). destruct l; [reflexivity|cbn [length] in Hl; lia].
Qed.

Lemma fault_vector_spec id T f c : database_ok f -> routers f !! Z.to_nat id = Some c -> 0 <= id ->
  zlength (conf_fault_type c) = number_of_fault_types ->
  exists w, vget (temperature_weights f) (clamp T f).2 = Ok w /\
    fault_vector id T f = Ok ((clamp T f).1, (fun x => F32.mul x (F32.of_Z w)) <$> conf_fault_type c).
Proof.
  intros [_ Hw] Hc Hid Hty. pose proof (lookup_lt_Some _ _ _ Hc) as Hlt.
  destruct (clamp_range T f Hw) as (Hr & _ & _). destruct (vget_range _ _ Hr) as [w Hget]. exists w. split; [done|].
  unfold fault_vector. rewrite (proj2 (Z.ltb_ge _ _)), (proj2 (Z.leb_gt _ _)) by (unfold zlength; lia). cbn [orb].
  destruct (clamp T f) as [ok temperature]. cbn [fst snd] in *.
  rewrite <- (Z2Nat.id id Hid), (vget_nat _ _ _ Hc), Hget. cbn [mbind res_bind].
  by rewrite (weighted_vector c w Hty).
Qed.

Lemma fault_prob_ok id T f c : database_ok f -> routers f !! Z.to_nat id = Some c -> 0 <= id ->
  zlength (conf_fault_type c) = number_of_fault_types -> safe (fault_prob id T f) (fun _ => True).
Proof.
  intros [_ Hw] Hc Hid Hty. pose proof (lookup_lt_Some _ _ _ Hc) as Hlt. destruct (clamp_range T f Hw) as (Hr & _ & _).
  destruct (vget_range _ _ Hr) as [w Hget]. unfold fault_prob. rewrite (proj2 (Z.ltb_ge _ _)), (proj2 (Z.leb_gt _ _)) by (unfold zlength; lia). cbn [orb].
  destruct (clamp T f) as [ok temperature]. cbn [fst snd] in *. apply safe_bind. eapply safe_mono; [apply (safe_for (fun _ _ => True)); [done|]|done].
  intros i pr Hi _. rewrite <- (Z2Nat.id id Hid), (vget_nat _ _ _ Hc), Hget. cbn [mbind res_bind]. unfold weighted.
  destruct (vget_range (conf_fault_type c) i) as [x ->]; [rewrite Hty; lia|]. done.
Qed.

(** Routers that are declared are found again.  For requests within
    the limits of the tool, each with a record in the database, declaring
    them one after the other succeeds and numbers them from the first free
    number on; afterwards the fault vector of the router declared [k]-th is
    that of a record with its numbers of channels and buffers, weighted for
    the temperature, for every temperature, and the flag says whether the
    temperature is one of the database. *)
Theorem declared_routers_found f s qs : database_ok f -> routers f = [] -> router_index s = 0 -> Forall (supported f) qs ->
  exists f' s', for_each qs declare ([], f, s) = Ok (seqZ 0 (zlength qs), f', s') /\
    forall (k : nat) q T, qs !! k = Some q -> exists c w,
      record_of f q c /\ vget (temperature_weights f) (clamp T f).2 = Ok w /\
      fault_vector (Z.of_nat k) T f' =
        Ok (bool_decide (0 <= T < zlength (temperature_weights f)), (fun x => F32.mul x (F32.of_Z w)) <$> conf_fault_type c).
Proof.
  intros Hdb Hr Hi Hs. destruct (declare_all_spec qs [] f s Hs) as (cs & Hcs & Hd).
  rewrite Hi in Hd. eexists _, _. split; [exact Hd|]. intros k q T Hq.
  destruct (Forall2_lookup_l _ _ _ _ _ Hcs Hq) as (c & Hc & Hrec). set (f' := f <| _ ::= _ |>).
  assert (Hty : zlength (conf_fault_type c) = number_of_fault_types).
  { pose proof (db_types f Hdb) as Ht. rewrite list.Forall_forall in Ht. apply Ht, Hrec. }
  destruct (fault_vector_spec (Z.of_nat k) T f' c) as (w & Hw & Hv); [|rewrite Nat2Z.id; unfold f'; cbn; by rewrite Hr|lia|done|].
  { destruct Hdb. by split. }
  exists c, w. split; [done|]. split; [done|]. rewrite Hv. do 2 f_equal.
  destruct (clamp_range T f (db_weights f Hdb)) as (_ & Hok & _). symmetry.
  change (clamp T f') with (clamp T f). case_bool_decide as HT; [by symmetry; apply Hok|]. destruct (clamp T f).1; tauto.
Qed.

(** Two configurations and three temperatures. *)
Definition demo_fault_model : t :=
  mk [mkConf 20 4 (replicate 10 (F32.of_Z 1)); mkConf 12 4 (replicate 10 (F32.of_Z 2))] [] [0; 100; 120].

Lemma declared_routers_found_witness :
  exists f' s', for_each [mkRequest 5 5 4 4 1; mkRequest 3 3 4 4 1] declare ([], demo_fault_model, mkStatics true 0) =
    Ok ([0; 1], f', s') /\
    fault_vector 1 2 f' = Ok (true, replicate 10 (F32.of_Z 240)).
Proof.
  destruct (declared_routers_found demo_fault_model (mkStatics true 0) [mkRequest 5 5 4 4 1; mkRequest 3 3 4 4 1])
    as (f' & s' & Hd & Hv).
  - split; [by repeat constructor|done].
  - reflexivity.
  - reflexivity.
  - assert (Hs : forall q, q = mkRequest 5 5 4 4 1 \/ q = mkRequest 3 3 4 4 1 -> supported demo_fault_model q).
    { intros q [->| ->]; unfold supported; cbn; split_and!; try done; eexists.
      - split; [left|done].
      - split; [right; left|done]. }
    constructor; [apply Hs; by left|]. constructor; [apply Hs; by right|]. constructor.
  - exists f', s'. split; [exact Hd|]. vm_compute in Hd. injection Hd as <- <-. reflexivity.
Defined.

(** The static flag of the constructor: the second object of a simulation
    does not get the weights below the first temperature of the database,
    and an assertion fails. *)
Example second_model_fails :
  let db := [4; 20; 1; 1; 1; 1; 1; 1; 1; 1; 1; 1; -1] in
  let weights := [1; 100; 2; 120; -1] in
  exists f s, new (F64.of_Z <$> db) weights (mkStatics true 0) = Ok (f, s) /\
    new (F64.of_Z <$> db) weights s = Err AssertFail.
Proof. eexists _, _. split; vm_compute; reflexivity. Qed.

End FaultModel.
