(* ===== verification/CommonTypes.v ===== *)
(** * CommonTypes: enumerations, route information, output-port history

    mem/ruby/network/garnet/CommonTypes.hh. *)

From S2P Require Import Prelude NetDest.

Inductive flit_type : Set := HEAD_ | BODY_ | TAIL_ | HEAD_TAIL_ | CREDIT_.
Inductive VC_state_type : Set := IDLE_ | VC_AB_ | ACTIVE_.
Inductive VNET_type : Set := CTRL_VNET_ | DATA_VNET_ | NULL_VNET_.
Inductive flit_stage : Set := I_ | VA_ | SA_ | ST_ | LT_.
Inductive link_type : Set := EXT_IN_ | EXT_OUT_ | INT_ | NUM_LINK_TYPES_.

#[global] Instance flit_type_eq_dec : EqDecision flit_type.
Proof. solve_decision. Defined.
#[global] Instance VC_state_type_eq_dec : EqDecision VC_state_type.
Proof. solve_decision. Defined.
#[global] Instance VNET_type_eq_dec : EqDecision VNET_type.
Proof. solve_decision. Defined.
#[global] Instance flit_stage_eq_dec : EqDecision flit_stage.
Proof. solve_decision. Defined.
#[global] Instance link_type_eq_dec : EqDecision link_type.
Proof. solve_decision. Defined.

(** The values of the configuration's routing algorithm; any other number
    takes the [default] branch of the dispatch. *)
Inductive RoutingAlgorithm : Set :=
| TABLE_ | XY_ | RANWESTFIRST_ | SECTEST_ | TEST_ | DEFENSE0_ | DEFENSE1_ | ORIVA | CUSTOM_
| OtherAlgorithm (n : Z).

Definition RoutingAlgorithm_of (n : Z) : RoutingAlgorithm :=
  match n with
  | 0 => TABLE_ | 1 => XY_ | 2 => RANWESTFIRST_ | 3 => SECTEST_ | 4 => TEST_
  | 5 => DEFENSE0_ | 6 => DEFENSE1_ | 7 => ORIVA | 8 => CUSTOM_
  | _ => OtherAlgorithm n
  end.

(** [PortDirection] is a string. *)
Notation PortDirection := string.
(** Simulated time. *)
Notation Tick := Z (only parsing).

(** ** RouteInfo *)

Record RouteInfo := mkRouteInfo {
  vnet : Z;
  net_dest : NetDest.t;
  src_ni : Z;
  src_router : Z;
  dest_ni : Z;
  dest_router : Z;
  hops_traversed : Z;
  sTag : Z;
  inter_route : Z;
  passedMid : bool;
}.
#[global] Instance RouteInfo_eta : Etaed RouteInfo := fun r =>
  mkRouteInfo (vnet r) (net_dest r) (src_ni r) (src_router r) (dest_ni r)
    (dest_router r) (hops_traversed r) (sTag r) (inter_route r) (passedMid r).

(** The default constructor. *)
Definition RouteInfo_new : RouteInfo := mkRouteInfo 0 [] 0 0 0 0 0 0 (-1) false.

Definition setTag (newT : Z) (r : RouteInfo) : RouteInfo := r <| sTag := newT |>.
Definition setInter (inter : Z) (r : RouteInfo) : RouteInfo := r <| inter_route := inter |>.
Definition getTag (r : RouteInfo) : Z := sTag r.
Definition getInter (r : RouteInfo) : Z := inter_route r.
Definition setPassed (r : RouteInfo) : RouteInfo := r <| passedMid := true |>.
Definition getPassed (r : RouteInfo) : bool := passedMid r.

(** ** outportRecord

    Per output port, the source and destination routers of the last
    [eachEn] packets injected at this router. *)

Module outportRecord.

Record t := mk { record : list (list (Z * Z)); numPort : Z; eachEn : Z }.
#[global] Instance t_eta : Etaed t := fun r => mk (record r) (numPort r) (eachEn r).

(** The default constructor of the member in [Router]. *)
Definition new0 : t := mk [] 0 8.

Definition new (size : Z) : res t :=
  _ ← assert (bool_decide (0 < size));
  Ok (mk (replicate (Z.to_nat size) (replicate 8 (-1, -1))) size 8).

Definition update (outport src_rout dest_rout : Z) (o : t) : res t :=
  rec ← valterM (fun l => shift_push l (src_rout, dest_rout)) (record o) outport;
  Ok (o <| record := rec |>).

(** First pass: is the pair in the window of this port? *)
Definition findInThis (srcRoute destRoute : Z) (l : list (Z * Z)) (n : Z) : res bool :=
  for_break (Z.to_nat n) 0 (fun i (_ : bool) =>
    e ← vget l i;
    let hit := (e.1 =? srcRoute) && (e.2 =? destRoute) in Ok (hit, hit)) false.

(** Second pass: [conNum] is an in-out parameter. *)
Definition countMutual (srcRoute destRoute : Z) (l : list (Z * Z)) (n conNum : Z) : res Z :=
  for_ (Z.to_nat n) 0 (fun i c =>
    e ← vget l i;
    Ok (if negb (e.1 =? -1) && ((e.1 =? srcRoute) && (e.2 =? destRoute)) then c + 1 else c))
    conNum.

Definition findMutual (srcRoute destRoute conNum ourport : Z) (o : t) : res (bool * Z) :=
  l ← vget (record o) ourport;
  found ← findInThis srcRoute destRoute l (eachEn o);
  if negb found then Ok (false, conNum)
  else
    c ← countMutual srcRoute destRoute l (eachEn o) conNum;
    Ok (negb (c =? 0), c).

(** Every port keeps a full window. *)
Definition wf (o : t) : Prop :=
  eachEn o = 8 /\ Forall (fun l => length l = 8%nat) (record o).

(** How often a pair occurs in the window of a port. *)
Definition occurrences (src dst : Z) (l : list (Z * Z)) : Z :=
  Z.of_nat (length (filter (fun e => e = (src, dst)) l)).

Lemma new_wf size o : new size = Ok o -> wf o /\ zlength (record o) = size.
Proof.
  unfold new. intros H. res_inv. repeat split.
  - apply Forall_replicate. reflexivity.
  - unfold zlength. simpl. rewrite length_replicate. lia.
Qed.

Lemma update_wf outport s d o o' :
  wf o -> update outport s d o = Ok o' -> wf o' /\ zlength (record o') = zlength (record o).
Proof.
  intros [Hn Hall] Hu. unfold update, valterM in Hu. res_inv.
  match goal with Hv : vget _ _ = Ok _ |- _ => apply vget_Ok in Hv as [_ Hl] end.
  match goal with Hs : shift_push _ _ = Ok _ |- _ => apply shift_push_length in Hs as Hlen end.
  split; [split; [done|]|apply zlength_insert]. simpl.
  apply Forall_insert; [done|]. rewrite Hlen.
  by eapply Forall_lookup_1 in Hall; [|exact Hl].
Qed.

(** The window of a port in range can always be updated. *)
Lemma update_safe outport s d o :
  wf o -> 0 <= outport < zlength (record o) ->
  safe (update outport s d o) (fun o' =>
    exists l, record o !! Z.to_nat outport = Some l /\
      o' = o <| record := <[Z.to_nat outport := drop 1 l ++ [(s, d)]]> (record o) |>).
Proof.
  intros [Hn Hall] Hr. unfold update. apply safe_bind, safe_valterM; [done|].
  intros l Hl. pose proof (Forall_lookup_1 _ _ _ _ Hall Hl) as Hlen; cbv beta in Hlen.
  destruct l as [|e l]; [done|]. simpl. exists (e :: l). split; [done|]. reflexivity.
Qed.

Lemma findInThis_spec s d (l : list (Z * Z)) n :
  0 <= n <= zlength l ->
  safe (findInThis s d l n) (fun b => b = true <-> (s, d) ∈ take (Z.to_nat n) l).
Proof.
  intros Hn. unfold zlength in Hn. unfold findInThis.
  apply (safe_for_break (fun j b => b = false /\ (s, d) ∉ take (Z.to_nat j) l)).
  - split; [done|]. rewrite take_0. apply not_elem_of_nil.
  - intros j b Hj [-> Hno]. apply safe_bind, safe_vget; [unfold zlength; lia|].
    intros [e1 e2] He. simpl.
    replace (Z.to_nat (j + 1)) with (S (Z.to_nat j)) by lia.
    destruct (Z.eqb_spec e1 s); simpl; [destruct (Z.eqb_spec e2 d); simpl|].
    + split; [intros _|done]. apply list_elem_of_lookup. exists (Z.to_nat j).
      rewrite lookup_take_lt by lia. congruence.
    + split; [done|]. erewrite take_S_r by done. rewrite elem_of_app, list_elem_of_singleton.
      intros [?|[= ??]]; auto.
    + split; [done|]. erewrite take_S_r by done. rewrite elem_of_app, list_elem_of_singleton.
      intros [?|[= ??]]; auto.
  - intros b [-> Hno]. split; [done|]. intros Hin. exfalso. by rewrite Z.add_0_l, Nat2Z.id in Hno.
Qed.

Lemma countMutual_spec s d (l : list (Z * Z)) n c :
  0 <= n <= zlength l ->
  countMutual s d l n c =
    Ok (c + if decide (s = -1) then 0 else occurrences s d (take (Z.to_nat n) l)).
Proof.
  intros Hn. unfold zlength in Hn. unfold countMutual.
  enough (Hs : safe (countMutual s d l n c) (fun c' => c' = c +
    if decide (s = -1) then 0 else occurrences s d (take (Z.to_nat n) l))).
  { destruct (safe_inv _ _ Hs) as (c' & E & ->). exact E. }
  replace (take (Z.to_nat n) l) with (take (Z.to_nat (0 + Z.of_nat (Z.to_nat n))) l)
    by (f_equal; lia).
  apply (safe_for (fun j c' => c' = c +
    if decide (s = -1) then 0 else occurrences s d (take (Z.to_nat j) l))).
  - rewrite take_0. unfold occurrences. simpl. case_decide; lia.
  - intros j c' Hj ->. apply safe_bind, safe_vget; [unfold zlength; lia|].
    intros [e1 e2] He. simpl. replace (Z.to_nat (j + 1)) with (S (Z.to_nat j)) by lia.
    erewrite take_S_r by done. unfold occurrences. rewrite list.filter_app, length_app.
    rewrite list.filter_singleton by exact l.
    destruct (Z.eqb_spec e1 (-1)), (Z.eqb_spec e1 s), (Z.eqb_spec e2 d), (decide (s = -1)),
      (decide ((e1, e2) = (s, d))); simplify_eq; simpl; lia.
Qed.

Lemma occurrences_pos s d (l : list (Z * Z)) : (s, d) ∈ l <-> 0 < occurrences s d l.
Proof.
  unfold occurrences. split.
  - intros Hin. destruct (filter (fun e => e = (s, d)) l) eqn:E; [|simpl; lia].
    assert (Hf : (s, d) ∈ filter (fun e => e = (s, d)) l) by (by apply list_elem_of_filter).
    rewrite E in Hf. by apply not_elem_of_nil in Hf.
  - intros Hpos. destruct (filter (fun e => e = (s, d)) l) as [|x f] eqn:E; [simpl in Hpos; lia|].
    assert (Hf : x ∈ filter (fun e => e = (s, d)) l) by (rewrite E; apply list_elem_of_here).
    apply list_elem_of_filter in Hf as [-> ?]. done.
Qed.

(** Contention count of a pair at a port of a well-formed history. *)
Lemma findMutual_spec s d port o (l : list (Z * Z)) :
  wf o -> s <> -1 -> 0 <= port -> record o !! Z.to_nat port = Some l ->
  findMutual s d 0 port o = Ok (bool_decide ((s, d) ∈ l), occurrences s d l).
Proof.
  intros [Hn Hall] Hs Hp Hl. pose proof (Forall_lookup_1 _ _ _ _ Hall Hl) as Hlen; cbv beta in Hlen.
  unfold findMutual. rewrite (proj2 (vget_Ok _ _ _) (conj Hp Hl)). simpl. rewrite Hn.
  destruct (safe_inv _ _ (findInThis_spec s d l 8 ltac:(unfold zlength; lia))) as (b & -> & Hb).
  simpl. rewrite take_ge in Hb by (change (Z.to_nat 8) with 8%nat; lia). destruct b; simpl.
  - rewrite countMutual_spec by (unfold zlength; lia). simpl.
    rewrite decide_False by done. rewrite Z.add_0_l.
    rewrite take_ge by (change (Z.to_nat 8) with 8%nat; lia).
    assert (Hin : (s, d) ∈ l) by (by apply Hb). rewrite bool_decide_eq_true_2 by done.
    apply occurrences_pos in Hin. destruct (Z.eqb_spec (occurrences s d l) 0); [lia|done].
  - assert (Hnot : (s, d) ∉ l) by (intros ?; naive_solver).
    rewrite bool_decide_eq_false_2 by done. f_equal. f_equal.
    rewrite occurrences_pos in Hnot. unfold occurrences in *. lia.
Qed.

End outportRecord.
