(* ===== verification/Flit.v ===== *)
(** * Flit: flits, credits and flit buffers

    flit.hh/.cc, Credit.hh/.cc and flitBuffer.hh/.cc of garnet.  A flit is
    owned by exactly one queue at a time, so a [flit*] is its value. *)

From S2P Require Import Prelude CFloat NetDest CommonTypes.

(** ** flit *)

Module flit.

(** [m_is_free] is the member of the subclass [Credit]: [None] for a plain
    flit.  The two members the constructor leaves unset are options. *)
Record t := mk {
  m_width : Z;
  msgSize : Z;
  m_packet_id : Z;
  m_id : Z;
  m_vnet : Z;
  m_vc : Z;
  m_route : RouteInfo;
  m_size : Z;
  m_enqueue_time : Z;
  m_dequeue_time : Z;
  m_time : Z;
  m_type : flit_type;
  m_msg_ptr : Z;
  m_outport : option Z;
  src_delay : option Z;
  m_stage : flit_stage * Z;
  m_is_free : option bool;
}.
#[global] Instance t_eta : Etaed t := fun f =>
  mk (m_width f) (msgSize f) (m_packet_id f) (m_id f) (m_vnet f) (m_vc f) (m_route f)
     (m_size f) (m_enqueue_time f) (m_dequeue_time f) (m_time f) (m_type f) (m_msg_ptr f)
     (m_outport f) (src_delay f) (m_stage f) (m_is_free f).

(** The type the constructor gives to flit [id] of a packet of [size] flits. *)
Definition type_of (id size : Z) : flit_type :=
  if size =? 1 then HEAD_TAIL_
  else if id =? 0 then HEAD_
  else if id =? size - 1 then TAIL_
  else BODY_.

(** The constructor; [packet_id] is an argument it does not use. *)
Definition new (packet_id id vc vnet : Z) (route : RouteInfo) (size msg_ptr MsgSize bWidth
    curTime : Z) : t :=
  mk bWidth MsgSize id id vnet vc route size curTime curTime curTime (type_of id size)
     msg_ptr None None (I_, curTime) None.

Definition get_outport (f : t) : res Z :=
  match m_outport f with Some p => Ok p | None => Err Undefined end.
Definition get_src_delay (f : t) : res Z :=
  match src_delay f with Some d => Ok d | None => Err Undefined end.

Definition set_outport (port : Z) (f : t) : t := f <| m_outport := Some port |>.
Definition set_time (time : Z) (f : t) : t := f <| m_time := time |>.
Definition set_vc (vc : Z) (f : t) : t := f <| m_vc := vc |>.
Definition set_route (route : RouteInfo) (f : t) : t := f <| m_route := route |>.
Definition set_src_delay (delay : Z) (f : t) : t := f <| src_delay := Some delay |>.
Definition set_dequeue_time (time : Z) (f : t) : t := f <| m_dequeue_time := time |>.
Definition set_enqueue_time (time : Z) (f : t) : t := f <| m_enqueue_time := time |>.

Definition increment_hops (f : t) : t :=
  f <| m_route := (m_route f) <| hops_traversed := hops_traversed (m_route f) + 1 |> |>.

Definition is_stage (stage : flit_stage) (time : Z) (f : t) : bool :=
  bool_decide (stage = (m_stage f).1) && ((m_stage f).2 <=? time).

Definition advance_stage (t_stage : flit_stage) (newTime : Z) (f : t) : t :=
  f <| m_stage := (t_stage, newTime) |>.

Definition greater (n1 n2 : t) : bool :=
  if m_time n1 =? m_time n2 then m_id n2 <? m_id n1 else m_time n2 <? m_time n1.

(** [get_type() == HEAD_ || get_type() == HEAD_TAIL_], and the same for tails. *)
Definition is_head (f : t) : bool := bool_decide (m_type f = HEAD_ \/ m_type f = HEAD_TAIL_).
Definition is_tail (f : t) : bool := bool_decide (m_type f = TAIL_ \/ m_type f = HEAD_TAIL_).

(** Splitting a flit for a narrower link. *)
Definition serialize (ser_id parts bWidth : Z) (f : t) : res t :=
  _ ← assert (bWidth <? m_width f);
  let ratio := divCeil (m_width f) bWidth in
  let new_id := m_id f * ratio + ser_id in
  new_size ← to_int (divCeil_float (msgSize f) bWidth);
  _ ← assert (new_id <? new_size);
  let fl := new (m_packet_id f) new_id (m_vc f) (m_vnet f) (m_route f) new_size
                (m_msg_ptr f) (msgSize f) bWidth (m_time f) in
  Ok (fl <| m_enqueue_time := m_enqueue_time f |> <| src_delay := src_delay f |>).

(** Merging flits for a wider link. *)
Definition deserialize (des_id num_flits bWidth : Z) (f : t) : res t :=
  ratio ← to_int (divCeil_float bWidth (m_width f));
  q ← to_int (divCeil_float (m_id f + 1) ratio);
  let new_id := q - 1 in
  new_size ← to_int (divCeil_float (msgSize f) bWidth);
  _ ← assert (new_id <? new_size);
  let fl := new (m_packet_id f) new_id (m_vc f) (m_vnet f) (m_route f) new_size
                (m_msg_ptr f) (msgSize f) bWidth (m_time f) in
  Ok (fl <| m_enqueue_time := m_enqueue_time f |> <| src_delay := src_delay f |>).

(** The flits of one packet, in the order the network interface builds them. *)
Definition packet (packet_id vc vnet : Z) (route : RouteInfo) (size msg_ptr MsgSize bWidth
    curTime : Z) : list t :=
  (fun i : nat => new packet_id (Z.of_nat i) vc vnet route size msg_ptr MsgSize bWidth curTime)
    <$> seq 0 (Z.to_nat size).

Lemma type_of_head id size :
  0 <= id < size -> type_of id size = HEAD_ \/ type_of id size = HEAD_TAIL_ <-> id = 0.
Proof.
  intros Hid. unfold type_of.
  destruct (Z.eqb_spec size 1), (Z.eqb_spec id 0), (Z.eqb_spec id (size - 1));
    (split; [intros [H|H]|intros H]); first [done|lia|exfalso; lia|auto].
Qed.

Lemma type_of_tail id size :
  0 <= id < size -> type_of id size = TAIL_ \/ type_of id size = HEAD_TAIL_ <-> id = size - 1.
Proof.
  intros Hid. unfold type_of.
  destruct (Z.eqb_spec size 1), (Z.eqb_spec id 0), (Z.eqb_spec id (size - 1));
    (split; [intros [H|H]|intros H]); first [done|lia|exfalso; lia|auto].
Qed.

Lemma is_head_advance s n f : is_head (advance_stage s n f) = is_head f.
Proof. reflexivity. Qed.
Lemma is_tail_advance s n f : is_tail (advance_stage s n f) = is_tail f.
Proof. reflexivity. Qed.

End flit.

(** ** Credit *)

Module Credit.

(** A credit is built with size 0 and then retyped. *)
Definition new (vc : Z) (is_free_signal : bool) (curTime : Z) : flit.t :=
  (flit.new 0 0 vc 0 RouteInfo_new 0 0 0 0 curTime)
    <| flit.m_is_free := Some is_free_signal |> <| flit.m_type := CREDIT_ |>.

(** The cast of a flit pointer to [Credit] followed by [is_free_signal()]. *)
Definition is_free_signal (f : flit.t) : res bool :=
  match flit.m_is_free f with Some b => Ok b | None => Err Undefined end.

Definition serialize (ser_id parts bWidth : Z) (f : flit.t) (m_is_free_signal : bool) : flit.t :=
  new (flit.m_vc f) ((ser_id + 1 =? parts) && m_is_free_signal) (flit.m_time f).

Definition deserialize (des_id num_flits bWidth : Z) (f : flit.t) (m_is_free_signal : bool)
    : flit.t :=
  if m_is_free_signal then new (flit.m_vc f) true (flit.m_time f)
  else new (flit.m_vc f) false (flit.m_time f).

End Credit.

(** Virtual dispatch of [serialize] and [deserialize]. *)
Definition flit_serialize (ser_id parts bWidth : Z) (f : flit.t) : res flit.t :=
  match flit.m_is_free f with
  | Some b => Ok (Credit.serialize ser_id parts bWidth f b)
  | None => flit.serialize ser_id parts bWidth f
  end.

Definition flit_deserialize (des_id num_flits bWidth : Z) (f : flit.t) : res flit.t :=
  match flit.m_is_free f with
  | Some b => Ok (Credit.deserialize des_id num_flits bWidth f b)
  | None => flit.deserialize des_id num_flits bWidth f
  end.

(** ** flitBuffer *)

Module flitBuffer.

Record t := mk { m_buffer : list flit.t; max_size : Z }.
#[global] Instance t_eta : Etaed t := fun b => mk (m_buffer b) (max_size b).

Definition new : t := mk [] INFINITE_.
Definition new_sized (maximum_size : Z) : t := mk [] maximum_size.

Definition isEmpty (b : t) : bool := zlength (m_buffer b) =? 0.

Definition isReady (curTime : Z) (b : t) : bool :=
  match m_buffer b with
  | [] => false
  | t_flit :: _ => flit.m_time t_flit <=? curTime
  end.

Definition isFull (b : t) : bool := max_size b <=? zlength (m_buffer b).
Definition setMaxSize (maximum : Z) (b : t) : t := b <| max_size := maximum |>.
Definition getSize (b : t) : Z := zlength (m_buffer b).

(** [front] of an empty deque is undefined. *)
Definition getTopFlit (b : t) : res (flit.t * t) :=
  match m_buffer b with
  | [] => Err Undefined
  | f :: l => Ok (f, b <| m_buffer := l |>)
  end.

Definition peekTopFlit (b : t) : res flit.t :=
  match m_buffer b with [] => Err Undefined | f :: _ => Ok f end.

Definition insert (flt : flit.t) (b : t) : t := b <| m_buffer := m_buffer b ++ [flt] |>.

(** Functional accesses ask every message in the buffer; [rd] and [wr]
    stand for the message's own methods. *)
Definition functionalRead (rd : flit.t -> bool) (b : t) : bool :=
  foldl (fun read f => if rd f then true else read) false (m_buffer b).

Definition functionalWrite (wr : flit.t -> bool) (b : t) : Z :=
  foldl (fun n f => if wr f then n + 1 else n) 0 (m_buffer b).

(** A buffer is a first-in first-out queue. *)
Lemma insert_getTop f b :
  getTopFlit (insert f b) =
    match m_buffer b with
    | [] => Ok (f, b)
    | g :: l => Ok (g, insert f (b <| m_buffer := l |>))
    end.
Proof. destruct b as [[|g l] n]; reflexivity. Qed.

Lemma isReady_nonempty t b : isReady t b = true -> exists f l, m_buffer b = f :: l.
Proof. unfold isReady. destruct (m_buffer b); [done|eauto]. Qed.

End flitBuffer.
