(* ===== verification/Channels.v ===== *)
(** * Channels: the state of virtual channels

    VirtualChannel.hh/.cc is the input side of a channel, OutVcState.hh/.cc
    what the upstream side knows of it: idle or active, and how many
    buffer slots are left (credits). *)

From S2P Require Import Prelude NetDest CommonTypes Flit.

(** ** VirtualChannel *)

Module VirtualChannel.

Record t := mk {
  inputBuffer : flitBuffer.t;
  m_vc_state : VC_state_type * Z;
  m_output_port : Z;
  m_enqueue_time : Z;
  m_output_vc : Z;
}.
#[global] Instance t_eta : Etaed t := fun v =>
  mk (inputBuffer v) (m_vc_state v) (m_output_port v) (m_enqueue_time v) (m_output_vc v).

Definition new : t := mk flitBuffer.new (IDLE_, 0) (-1) INFINITE_ (-1).

Definition set_idle (curTime : Z) (v : t) : t :=
  v <| m_vc_state := (IDLE_, curTime) |> <| m_enqueue_time := INFINITE_ |>
    <| m_output_port := -1 |> <| m_output_vc := -1 |>.

Definition set_active (curTime : Z) (v : t) : t :=
  v <| m_vc_state := (ACTIVE_, curTime) |> <| m_enqueue_time := curTime |>.

Definition set_outvc (outvc : Z) (v : t) : t := v <| m_output_vc := outvc |>.
Definition get_outvc (v : t) : Z := m_output_vc v.
Definition set_outport (outport : Z) (v : t) : t := v <| m_output_port := outport |>.
Definition get_outport (v : t) : Z := m_output_port v.
Definition get_enqueue_time (v : t) : Z := m_enqueue_time v.
Definition set_enqueue_time (time : Z) (v : t) : t := v <| m_enqueue_time := time |>.
Definition get_state (v : t) : VC_state_type := (m_vc_state v).1.

Definition isReady (curTime : Z) (v : t) : bool := flitBuffer.isReady curTime (inputBuffer v).
Definition insertFlit (t_flit : flit.t) (v : t) : t := v <| inputBuffer ::= flitBuffer.insert t_flit |>.
Definition set_state (m_state : VC_state_type) (curTime : Z) (v : t) : t :=
  v <| m_vc_state := (m_state, curTime) |>.
Definition peekTopFlit (v : t) : res flit.t := flitBuffer.peekTopFlit (inputBuffer v).
Definition getTopFlit (v : t) : res (flit.t * t) :=
  r ← flitBuffer.getTopFlit (inputBuffer v); Ok (r.1, v <| inputBuffer := r.2 |>).

Definition need_stage (stage : flit_stage) (time : Z) (v : t) : res bool :=
  if flitBuffer.isReady time (inputBuffer v) then
    _ ← assert (bool_decide ((m_vc_state v).1 = ACTIVE_) && ((m_vc_state v).2 <=? time));
    t_flit ← flitBuffer.peekTopFlit (inputBuffer v);
    Ok (flit.is_stage stage time t_flit)
  else Ok false.

Definition functionalRead (rd : flit.t -> bool) (v : t) : bool :=
  flitBuffer.functionalRead rd (inputBuffer v).
Definition functionalWrite (wr : flit.t -> bool) (v : t) : Z :=
  flitBuffer.functionalWrite wr (inputBuffer v).

(** Buffered flits. *)
Definition flits (v : t) : list flit.t := flitBuffer.m_buffer (inputBuffer v).

End VirtualChannel.

(** ** OutVcState *)

Module OutVcState.

Record t := mk {
  m_id : Z;
  m_time : Z;
  m_vc_state : VC_state_type;
  m_credit_count : Z;
  m_max_credit_count : Z;
}.
#[global] Instance t_eta : Etaed t := fun o =>
  mk (m_id o) (m_time o) (m_vc_state o) (m_credit_count o) (m_max_credit_count o).

(** The constructor reads the type of the channel's virtual network and
    the buffer depths from the network. *)
Definition new (id : Z) (get_vnet_type : Z -> res VNET_type)
    (buffersPerDataVC buffersPerCtrlVC consumerVcs : Z) : res t :=
  vnet ← cdiv id consumerVcs;
  ty ← get_vnet_type vnet;
  let max := if bool_decide (ty = DATA_VNET_) then buffersPerDataVC else buffersPerCtrlVC in
  _ ← assert (1 <=? max);
  Ok (mk id 0 IDLE_ max max).

Definition get_credit_count (o : t) : Z := m_credit_count o.
Definition has_credit (o : t) : bool := 0 <? m_credit_count o.

Definition increment_credit (o : t) : res t :=
  let o := o <| m_credit_count := m_credit_count o + 1 |> in
  _ ← assert (m_credit_count o <=? m_max_credit_count o); Ok o.

Definition decrement_credit (o : t) : res t :=
  let o := o <| m_credit_count := m_credit_count o - 1 |> in
  _ ← assert (0 <=? m_credit_count o); Ok o.

Definition isInState (state : VC_state_type) (request_time : Z) (o : t) : bool :=
  bool_decide (m_vc_state o = state) && (m_time o <=? request_time).

Definition setState (state : VC_state_type) (time : Z) (o : t) : t :=
  o <| m_vc_state := state |> <| m_time := time |>.

(** Credits stay between 0 and the buffer depth. *)
Definition wf (o : t) : Prop := 0 <= m_credit_count o <= m_max_credit_count o /\ 1 <= m_max_credit_count o.

Lemma OutVcState_new_wf id ty bd bc vcs o : new id ty bd bc vcs = Ok o -> wf o /\ m_vc_state o = IDLE_.
Proof.
  unfold new. intros H. res_inv. unfold wf. simpl in *. split; [|done]. repeat case_bool_decide; lia.
Qed.

(** The two counters' assertions hold exactly at the ends of the range. *)
Lemma increment_credit_safe o :
  m_credit_count o < m_max_credit_count o ->
  increment_credit o = Ok (o <| m_credit_count := m_credit_count o + 1 |>).
Proof.
  intros H. unfold increment_credit. simpl.
  destruct (Z.leb_spec (m_credit_count o + 1) (m_max_credit_count o)); [done|lia].
Qed.

Lemma decrement_credit_safe o :
  0 < m_credit_count o ->
  decrement_credit o = Ok (o <| m_credit_count := m_credit_count o - 1 |>).
Proof.
  intros H. unfold decrement_credit. simpl.
  destruct (Z.leb_spec 0 (m_credit_count o - 1)); [done|lia].
Qed.

Lemma increment_credit_wf o o' : wf o -> increment_credit o = Ok o' -> wf o'.
Proof.
  unfold increment_credit. intros [Hc Hm] H. res_inv. unfold wf in *. simpl in *. lia.
Qed.

Lemma decrement_credit_wf o o' : wf o -> decrement_credit o = Ok o' -> wf o'.
Proof.
  unfold decrement_credit. intros [Hc Hm] H. res_inv. unfold wf in *. simpl in *. lia.
Qed.

End OutVcState.

#[export] Hint Resolve OutVcState.increment_credit_wf OutVcState.decrement_credit_wf : garnet.
