(* ===== verification/Detector.v ===== *)
(** * Detector: the injection history of an input port

    The classes nested in [InputUnit] (InputUnit.hh): pattern entries, the
    short-term history S-IH ([patternTable]), the long-term history L-IH
    ([LIH_table]) and [HistoryRecord::riskFind], which decides whether a
    packet looks like part of a timing attack; [InputUnitStats] (Router.hh). *)

From S2P Require Import Prelude CFloat NetDest CommonTypes.

(** ** Statistics of the defence, unsigned 64-bit counters *)

Record InputUnitStats := mkInputUnitStats {
  detour_counts : Z;
  risk_counts : Z;
  all_counts : Z;
  regular_Var : Z;
  Var_1 : Z;
  Var_2 : Z;
  Var_3 : Z;
}.
#[global] Instance InputUnitStats_eta : Etaed InputUnitStats := fun s =>
  mkInputUnitStats (detour_counts s) (risk_counts s) (all_counts s) (regular_Var s)
    (Var_1 s) (Var_2 s) (Var_3 s).
Definition InputUnitStats_new : InputUnitStats := mkInputUnitStats 0 0 0 0 0 0 0.

(** [x++] on a [uint64_t]. *)
Definition incr64 (x : Z) : Z := u64 (x + 1).

(** ** Attack variants, a bit mask *)

Definition Regular : Z := 0.
Definition Variant_1 : Z := 1.
Definition Variant_2 : Z := 2.
Definition Variant_3 : Z := 4.
Definition ALL : Z := 7.

(** The last [else if] has no [else]: the function may end without a value. *)
Definition isVariant (a vNow : Z) : res bool :=
  if a =? 0 then Ok (vNow =? Regular)
  else if a =? ALL then Ok true
  else if Z.land a 1 =? Variant_1 then Ok (vNow =? Variant_1)
  else if Z.land a 2 =? Variant_2 then Ok (vNow =? Variant_2)
  else if Z.land a 4 =? Variant_3 then Ok (vNow =? Variant_3)
  else Err Undefined.

(** ** Entries of the two histories *)

Record patternEntry := mkPattern {
  src : Z;
  dst : Z;
  inport : Z;
  output : Z;
  cycleRecieve : Z;
  packet_type : Z;
}.
Definition patternEntry_new : patternEntry := mkPattern 0 0 0 0 0 0.

#[global] Instance patternEntry_eq_dec : EqDecision patternEntry.
Proof. solve_decision. Defined.

Record LIH_entry := mkLIH {
  lih_dst : Z;
  allocate_time : Z;
  update_time : Z;
  sampleAvg : Z;
  lih_packet_type : Z;
}.
#[global] Instance LIH_entry_eta : Etaed LIH_entry := fun e =>
  mkLIH (lih_dst e) (allocate_time e) (update_time e) (sampleAvg e) (lih_packet_type e).
Definition LIH_entry_new : LIH_entry := mkLIH 0 0 0 0 0.

(** [getCycle]: the macro [TICKC] is [1000/2]. *)
Definition getCycle (curTick : Z) : Z := Z.quot curTick 500.

Module HistoryRecord.

Record t := mk {
  patternTable : list patternEntry;
  patternLen : Z;
  LIH_table : list LIH_entry;
  LIH_length : Z;
}.
#[global] Instance t_eta : Etaed t := fun h =>
  mk (patternTable h) (patternLen h) (LIH_table h) (LIH_length h).

Definition new (size : Z) : t :=
  mk (replicate (Z.to_nat size) patternEntry_new) size (replicate 4 LIH_entry_new) 4.

Definition updateHistory (riskEntry : patternEntry) (h : t) : res t :=
  tbl ← shift_push (patternTable h) riskEntry; Ok (h <| patternTable := tbl |>).

(** *** Statistics over intervals, in [double] *)

(** [std::accumulate(first, last, 0.0)]. *)
Definition accumulate (l : list Z) : spec_float :=
  foldl (fun a x => F64.add a (F64.of_Z x)) (S754_zero false) l.

Definition ComputeVariance (l : list Z) : spec_float :=
  let size := zlength l in
  if size <=? 1 then S754_zero false
  else
    let avg := F64.div (accumulate l) (F64.of_Z size) in
    let variance := foldl (fun v num =>
      let d := F64.sub (F64.of_Z num) avg in F64.add v (F64.mul d d)) (S754_zero false) l in
    F64.sqrt (F64.div variance (F64.of_Z size)).

(** The largest distance to the mean, each distance truncated to [int];
    [max_element] of an empty vector has nothing to return. *)
Definition ComputeFluctuation (time : list Z) : res Z :=
  let avg := F64.div (accumulate time) (F64.of_Z (zlength time)) in
  repo ← for_each time (fun i repo =>
    d ← to_int (SFabs (F64.sub (F64.of_Z i) avg)); Ok (repo ++ [d])) [];
  match repo with [] => Err Undefined | d :: ds => Ok (foldl Z.max d ds) end.

(** [time[i+1] - time[i]], unsigned. *)
Fixpoint differences (time : list Z) : list Z :=
  match time with
  | a :: (b :: _) as rest => u64 (b - a) :: differences rest
  | _ => []
  end.

(** [time.size()-1] wraps on an empty vector and the first read fails. *)
Definition timeDiffs (time : list Z) : res (list Z) :=
  match time with [] => Err OutOfRange | _ => Ok (differences time) end.

Definition ComputeAvg (time : list Z) : res spec_float :=
  ds ← timeDiffs time;
  Ok (F64.div (accumulate ds) (F64.of_Z (zlength time - 1))).

(** *** Matching *)

Definition entryCmp (AEntry BEntry : patternEntry) : bool :=
  (src AEntry =? src BEntry) && (dst AEntry =? dst BEntry) && (output AEntry =? output BEntry).

Definition compareAvg (avg0 avgRecord : Z) : bool :=
  let r := F64.of_Z avgRecord in
  let a := F64.of_Z avg0 in
  fltb (F64.sub r (F64.mul r F64.lit_0_1)) a && fltb a (F64.add r (F64.mul r F64.lit_0_1)).

(** The table counts as full once no entry has cycle 0. *)
Definition tableFull (h : t) : res bool :=
  for_break (Z.to_nat (patternLen h)) 0 (fun i (_ : bool) =>
    e ← vget (patternTable h) i;
    let z := cycleRecieve e =? 0 in Ok (z, negb z)) true.

(** [sum[i]]: how many entries of the table match entry [i]. *)
Definition matches (h : t) (i : Z) : res Z :=
  for_ (Z.to_nat (patternLen h)) 0 (fun j n =>
    a ← vget (patternTable h) i; b ← vget (patternTable h) j;
    Ok (if entryCmp a b then n + 1 else n)) 0.

(** The last entry whose count passes the test, with [find]. *)
Definition dominant (passes : Z -> bool) (h : t) : res (option patternEntry) :=
  for_ (Z.to_nat (patternLen h)) 0 (fun i found =>
    n ← matches h i;
    if passes n then e ← vget (patternTable h) i; Ok (Some e) else Ok found) None.

(** [sum[i] >= patternLen*BUF_PRO], and [sum[i] > patternLen*threshold] with
    [float threshold = 0.5]. *)
Definition passes_Gen (len n : Z) : bool :=
  fleb (F64.mul (F64.of_Z len) F64.lit_0_75) (F64.of_Z n).
Definition passes_half (len n : Z) : bool :=
  fltb (F32.mul (F32.of_Z len) (F32.div (F32.of_Z 1) (F32.of_Z 2))) (F32.of_Z n).

Definition riskFind_Gen (riskEntryNow : patternEntry) (h : t) : res bool :=
  full ← tableFull h;
  if negb full then Ok false
  else
    found ← dominant (passes_Gen (patternLen h)) h;
    match found with
    | None => Ok false
    | Some riskEntry => Ok (entryCmp riskEntryNow riskEntry)
    end.

(** *** The long-term history *)

Definition updateLIH (riskEntryNow : patternEntry) (Pkt_avg : Z) (h : t) : res t :=
  let now := cycleRecieve riskEntryNow in
  r ← for_ (Z.to_nat (LIH_length h)) 0 (fun i '(hasFind, tbl) =>
    e ← vget tbl i;
    if compareAvg (i32 Pkt_avg) (i32 (sampleAvg e)) && (dst riskEntryNow =? lih_dst e) then
      let e' := if u64 (now - update_time e) <=? 1000
                then e <| update_time := now |>
                else e <| update_time := now |> <| allocate_time := now |> in
      tbl' ← vset tbl i e'; Ok (true, tbl')
    else Ok (hasFind, tbl)) (false, LIH_table h);
  if (r.1 : bool) then Ok (h <| LIH_table := r.2 |>)
  else
    tbl ← shift_push r.2 (mkLIH (dst riskEntryNow) now now Pkt_avg (packet_type riskEntryNow));
    Ok (h <| LIH_table := tbl |>).

Definition non_linear_judge (existing : Z) : Z :=
  let riskLevel := 0 in
  if existing <? 5000 then 4 else if 5000 <=? existing then 4 else riskLevel.

Definition getDelayBounds (sampleC : Z) (hasMutual : bool) : res (list Z) :=
  if negb hasMutual then Ok [u64 sampleC; 0]
  else b ← to_u64 (F64.mul (F64.of_Z sampleC) F64.lit_1_5); Ok [b; 0].

(** The loop of [getRiskLevel] stops at the first match. *)
Definition getRiskLevel (dst pkg_avg loose_mode loose_input_nowTime : Z) (h : t) : res Z :=
  r ← for_break (Z.to_nat (LIH_length h)) 0 (fun i (acc : bool * Z) =>
    e ← vget (LIH_table h) i;
    let m := if loose_mode =? 0
             then (dst =? lih_dst e) && compareAvg (i32 pkg_avg) (i32 (sampleAvg e))
             else if loose_mode =? 1 then dst =? lih_dst e else false in
    if (m : bool) then
      let existing := if loose_mode =? 0 then u64 (update_time e - allocate_time e)
                      else u64 (loose_input_nowTime - allocate_time e) in
      Ok (true, (true, non_linear_judge existing))
    else Ok (false, acc)) (false, 0);
  _ ← (if loose_mode =? 0 then assert r.1 else Ok tt);
  Ok r.2.
(** *** riskFind *)

(** Receive cycles of the entries matching [riskEntry], oldest first. *)
Definition timePattern (riskEntry : patternEntry) (h : t) : res (list Z) :=
  for_ (Z.to_nat (patternLen h)) 0 (fun i acc =>
    e ← vget (patternTable h) i;
    Ok (if entryCmp e riskEntry then acc ++ [cycleRecieve e] else acc)) [].

(** The tests on the intervals of a dominant entry that the current packet
    matches; each selected variant overwrites [hasRisk]. *)
Definition intervalTests (variant : Z) (riskEntryNow riskEntry : patternEntry) (h : t)
    (InfoS : InputUnitStats) : res (bool * spec_float * InputUnitStats) :=
  tp ← timePattern riskEntry h;
  ds ← timeDiffs tp;
  let variance := ComputeVariance ds in
  avg ← ComputeAvg tp;
  let slow := fltb (SFabs avg) (F64.of_Z 120) in
  reg ← isVariant variant Regular;
  let '(hasRisk, InfoS) :=
    if (reg : bool) then
      let test := fleb variance (F64.of_Z 10) && slow in
      (test, if test then InfoS <| regular_Var ::= incr64 |> else InfoS)
    else (false, InfoS) in
  v1 ← isVariant variant Variant_1;
  '(hasRisk, InfoS) ←
    (if (v1 : bool) then
       fl ← ComputeFluctuation ds;
       let test := fltb (F64.of_Z fl) avg && slow in
       Ok (test, if test then InfoS <| Var_1 ::= incr64 |> else InfoS)
     else Ok (hasRisk, InfoS));
  v2 ← isVariant variant Variant_2;
  let '(hasRisk, InfoS) :=
    if (v2 : bool) then
      let test := entryCmp riskEntryNow riskEntry in
      (test, if test then InfoS <| Var_2 ::= incr64 |> else InfoS)
    else (hasRisk, InfoS) in
  Ok (hasRisk, avg, InfoS).

(** The contention test: the pair filled at least half of the window of
    the output port the packet would take. *)
Definition contentionTest (variant nowRoute destRoute ourport_preGet : Z)
    (outBuf : outportRecord.t) (hasRisk : bool) (InfoS : InputUnitStats)
    : res (bool * InputUnitStats) :=
  v3 ← isVariant variant Variant_3;
  if (v3 : bool) then
    r ← outportRecord.findMutual nowRoute destRoute 0 ourport_preGet outBuf;
    if fleb (F64.mul F64.lit_0_5 (F64.of_Z (outportRecord.eachEn outBuf))) (F64.of_Z r.2)
    then Ok (true, InfoS <| Var_3 ::= incr64 |>)
    else Ok (hasRisk, InfoS)
  else Ok (hasRisk, InfoS).

(** [riskFind] returns whether the packet is a risk, the interval average it
    stores through its reference argument, and the updated history and statistics.  [junk] is the
    value the conversion of the local [avg] yields when the contention
    test alone found the risk and [avg] was never assigned. *)
Definition riskFind (junk : Z) (riskEntryNow : patternEntry) (Pkt_avg : Z) (packetHead : bool)
    (outBuf : outportRecord.t) (nowRoute destRoute variant : Z) (InfoS : InputUnitStats)
    (ourport_preGet : Z) (h : t) : res (bool * Z * t * InputUnitStats) :=
  full ← tableFull h;
  if negb full then Ok (false, Pkt_avg, h, InfoS)
  else
    found ← dominant (passes_half (patternLen h)) h;
    let find := match found : option patternEntry with Some _ => true | None => false end in
    let riskEntry := default patternEntry_new (found : option patternEntry) in
    v3 ← (if find then Ok true else isVariant variant Variant_3);
    if negb v3 then Ok (false, Pkt_avg, h, InfoS)
    else
      let same := entryCmp riskEntryNow riskEntry in
      v3 ← (if same then Ok true else isVariant variant Variant_3);
      if negb v3 then Ok (false, Pkt_avg, h, InfoS)
      else
        '(hasRisk, avg, InfoS) ←
          (if find && same then
             r ← intervalTests variant riskEntryNow riskEntry h InfoS;
             Ok (r.1.1, Some r.1.2, r.2)
           else Ok (false, None, InfoS));
        '(hasRisk, InfoS) ←
          contentionTest variant nowRoute destRoute ourport_preGet outBuf hasRisk InfoS;
        if (hasRisk : bool) then
          Pkt_avg ← (match avg with Some a => to_u64 a | None => Ok junk end);
          h ← (if packetHead && (find && same) then updateLIH riskEntryNow Pkt_avg h else Ok h);
          Ok (true, Pkt_avg, h, InfoS)
        else Ok (false, Pkt_avg, h, InfoS).

End HistoryRecord.
