(* ===== verification/DetectorProofs.v ===== *)
(** * DetectorProofs: what the detector detects

    [riskFind] always returns on histories whose receive cycles are in
    order, and with the variants the router uses its verdict has a simple
    meaning: the packet's flow fills the majority of the short-term history,
    or at least half of the window of the output port it would take. *)

From Stdlib Require Import Sorted.
From S2P Require Import Prelude CFloat FloatBounds NetDest CommonTypes Detector.
Import HistoryRecord.

(** ** Well-formed histories *)

Definition hist_ok (h : t) : Prop :=
  patternLen h = 8 /\ length (patternTable h) = 8%nat /\
  LIH_length h = 4 /\ length (LIH_table h) = 4%nat.

(** Receive cycles in order, and less than [2^31] cycles apart. *)
Definition in_order (h : t) : Prop :=
  StronglySorted Z.le (cycleRecieve <$> patternTable h) /\
  forall a b, a ∈ patternTable h -> b ∈ patternTable h ->
    0 <= cycleRecieve a < 2 ^ 64 /\ cycleRecieve b - cycleRecieve a < 2 ^ 31.

(** How many entries of the table belong to the flow of [e]. *)
Definition flow_count (e : patternEntry) (h : t) : Z :=
  zlength (filter (fun b => entryCmp e b = true) (patternTable h)).

Definition full (h : t) : Prop := Forall (fun e => cycleRecieve e <> 0) (patternTable h).

#[global] Instance full_dec h : Decision (full h).
Proof. unfold full. apply _. Defined.

(** ** Flows *)

Lemma entryCmp_spec a b :
  entryCmp a b = true <-> src a = src b /\ dst a = dst b /\ output a = output b.
Proof. unfold entryCmp. rewrite !andb_true_iff, !Z.eqb_eq. tauto. Qed.

Lemma entryCmp_sym a b : entryCmp a b = true -> entryCmp b a = true.
Proof. rewrite !entryCmp_spec. intuition congruence. Qed.
Lemma entryCmp_trans a b c : entryCmp a b = true -> entryCmp b c = true -> entryCmp a c = true.
Proof. rewrite !entryCmp_spec. intuition congruence. Qed.

Lemma flow_count_same a b h : entryCmp a b = true -> flow_count a h = flow_count b h.
Proof.
  intros Hab. unfold flow_count. f_equal. apply list_filter_iff. intros x.
  split; intros Hx; eauto using entryCmp_sym, entryCmp_trans.
Qed.

Lemma filter_pigeonhole {A} (P Q : A -> Prop) `{!forall x, Decision (P x), !forall x, Decision (Q x)} l :
  (length l < length (filter P l) + length (filter Q l))%nat -> exists x, x ∈ l /\ P x /\ Q x.
Proof.
  induction l as [|x l IH]; simpl; [lia|]. rewrite !filter_cons.
  repeat case_decide; simpl; intros Hlt.
  { exists x. split; [apply list_elem_of_here|done]. }
  all: destruct IH as (y & Hy & ?); [lia|]; exists y; split; [by apply list_elem_of_further|done].
Qed.

(** Two majorities are the same flow. *)
Lemma majority_unique a b h : length (patternTable h) = 8%nat ->
  4 < flow_count a h -> 4 < flow_count b h -> entryCmp a b = true.
Proof.
  unfold flow_count, zlength. intros Hlen Ha Hb.
  destruct (filter_pigeonhole (fun x => entryCmp a x = true) (fun x => entryCmp b x = true)
    (patternTable h)) as (x & _ & Hax & Hbx); [lia|].
  eauto using entryCmp_sym, entryCmp_trans.
Qed.

(** ** The loops of [riskFind] *)

Section loops.
Context (h : t) (Hok : hist_ok h).

Lemma table_lookup i : 0 <= i < 8 ->
  exists e, vget (patternTable h) i = Ok e /\ patternTable h !! Z.to_nat i = Some e.
Proof.
  destruct Hok as (_ & Hlen & _). intros Hi.
  destruct (vget_range (patternTable h) i) as [e He]; [unfold zlength; lia|].
  exists e. split; [done|]. by apply vget_Ok in He as [_ He].
Qed.

Lemma tableFull_spec : tableFull h = Ok (bool_decide (full h)).
Proof.
  destruct Hok as (Hl & Hlen & _). unfold tableFull. rewrite Hl.
  enough (Hs : safe (tableFull h) (fun b => b = bool_decide (full h))).
  { unfold tableFull in Hs. rewrite Hl in Hs. destruct (safe_inv _ _ Hs) as (b & -> & ->). done. }
  unfold tableFull. rewrite Hl. change (Z.to_nat 8) with 8%nat.
  apply (safe_for_break (fun j b => b = true /\
    Forall (fun e => cycleRecieve e <> 0) (take (Z.to_nat j) (patternTable h)))).
  - split; [done|]. rewrite take_0. constructor.
  - intros j b Hj [-> Hall]. destruct (table_lookup j) as (e & -> & He); [lia|].
    cbn [mbind res_bind]. replace (Z.to_nat (j + 1)) with (S (Z.to_nat j)) by lia.
    erewrite take_S_r by done. destruct (Z.eqb_spec (cycleRecieve e) 0); simpl.
    + rewrite bool_decide_eq_false_2; [done|]. intros Hf.
      by apply (Forall_lookup_1 _ _ _ _ Hf) in He.
    + split; [done|]. apply Forall_app. split; [done|]. by apply Forall_singleton.
  - intros b [-> Hall]. rewrite take_ge in Hall by (rewrite Hlen; lia).
    by rewrite bool_decide_eq_true_2.
Qed.

(** A counting loop over the table. *)
Lemma count_loop (P : patternEntry -> bool) (f : Z -> Z -> res Z) :
  (forall j n e, patternTable h !! Z.to_nat j = Some e -> 0 <= j < 8 ->
    f j n = Ok (if P e then n + 1 else n)) ->
  for_ 8 0 f 0 = Ok (zlength (filter (fun e => P e = true) (patternTable h))).
Proof.
  intros Hf. destruct Hok as (_ & Hlen & _).
  enough (Hs : safe (for_ 8 0 f 0) (fun n => n = zlength (filter (fun e => P e = true) (patternTable h)))).
  { destruct (safe_inv _ _ Hs) as (n & -> & ->). done. }
  eapply safe_mono; [apply (safe_for (fun j n => n =
    zlength (filter (fun e => P e = true) (take (Z.to_nat j) (patternTable h)))))|].
  - by rewrite take_0.
  - intros j n Hj ->. destruct (table_lookup j) as (e & _ & He); [lia|].
    rewrite (Hf _ _ e He) by lia. simpl. replace (Z.to_nat (j + 1)) with (S (Z.to_nat j)) by lia.
    erewrite take_S_r by done. unfold zlength. rewrite list.filter_app, length_app.
    rewrite list.filter_singleton by exact (patternTable h). destruct (P e) eqn:EP, (decide _); simpl; done || lia.
  - intros n ->. by rewrite take_ge by (rewrite Hlen; lia).
Qed.

Lemma matches_spec i e : 0 <= i < 8 -> patternTable h !! Z.to_nat i = Some e ->
  matches h i = Ok (flow_count e h).
Proof.
  intros Hi He. unfold matches. destruct Hok as (Hl & _). rewrite Hl. apply count_loop.
  intros j n b Hb Hj. rewrite (proj2 (vget_Ok _ _ _) (conj (proj1 Hi) He)).
  by rewrite (proj2 (vget_Ok _ _ _) (conj (proj1 Hj) Hb)).
Qed.

Lemma flow_count_range e : 0 <= flow_count e h <= 8.
Proof.
  destruct Hok as (_ & Hlen & _). unfold flow_count, zlength.
  pose proof (length_filter (fun b => entryCmp e b = true) (patternTable h)). lia.
Qed.

(** The entry found is of a flow that passes, and none is found only when no
    flow of the table passes. *)
Lemma dominant_spec (passes : Z -> bool) :
  safe (dominant passes h) (fun found => match found with
    | Some e => e ∈ patternTable h /\ passes (flow_count e h) = true
    | None => forall e, e ∈ patternTable h -> passes (flow_count e h) = false end).
Proof.
  destruct Hok as (Hl & Hlen & _). unfold dominant. rewrite Hl.
  eapply safe_mono; [apply (safe_for (fun j found => match found with
    | Some e => e ∈ patternTable h /\ passes (flow_count e h) = true
    | None => forall e, e ∈ take (Z.to_nat j) (patternTable h) -> passes (flow_count e h) = false end))|].
  - intros e He. rewrite take_0 in He. by apply not_elem_of_nil in He.
  - intros j found Hj Hinv. destruct (table_lookup j) as (e & Hv & He); [lia|].
    rewrite (matches_spec j e) by (done || lia). cbn [mbind res_bind].
    destruct (passes (flow_count e h)) eqn:Ep.
    + rewrite Hv. simpl. split; [by eapply list_elem_of_lookup_2|done].
    + simpl. destruct found as [e'|]; [done|]. replace (Z.to_nat (j + 1)) with (S (Z.to_nat j)) by lia.
      erewrite take_S_r by done. intros e' [?| ->%list_elem_of_singleton]%elem_of_app; auto.
  - intros [e|]; [done|]. by rewrite take_ge by (rewrite Hlen; lia).
Qed.

Lemma timePattern_spec e :
  timePattern e h = Ok (cycleRecieve <$> filter (fun b => entryCmp b e = true) (patternTable h)).
Proof.
  destruct Hok as (Hl & Hlen & _). unfold timePattern. rewrite Hl.
  enough (Hs : safe (timePattern e h) (fun l => l =
    cycleRecieve <$> filter (fun b => entryCmp b e = true) (patternTable h))).
  { unfold timePattern in Hs. rewrite Hl in Hs. destruct (safe_inv _ _ Hs) as (n & -> & ->). done. }
  unfold timePattern. rewrite Hl. eapply safe_mono; [apply (safe_for (fun j l => l =
    cycleRecieve <$> filter (fun b => entryCmp b e = true) (take (Z.to_nat j) (patternTable h))))|].
  - by rewrite take_0.
  - intros j n Hj ->. destruct (table_lookup j) as (b & -> & He); [lia|].
    simpl. replace (Z.to_nat (j + 1)) with (S (Z.to_nat j)) by lia.
    erewrite take_S_r by done. rewrite list.filter_app, fmap_app.
    rewrite list.filter_singleton by exact (patternTable h).
    destruct (entryCmp b e) eqn:EP, (decide _); simpl; try done. by rewrite app_nil_r.
  - intros n ->. by rewrite take_ge by (rewrite Hlen; lia).
Qed.

End loops.

(** ** The statistics never leave their range *)

Lemma ftrunc_bnd B f : bnd B f -> nonneg f -> exists z, ftrunc f = Some z /\ 0 <= z <= B.
Proof.
  destruct f as [s| | |s m e]; simpl; intros Hb Hn; try done; [by exists 0|].
  destruct Hb as [He Hm]. subst s. eexists. split; [done|].
  pose proof (Z.pow_pos_nonneg 2 (- e)). case_decide.
  - assert (e = 0) as -> by lia. simpl in *. lia.
  - split; [apply Z.div_pos; lia|]. apply Z.div_le_upper_bound; lia.
Qed.

Definition interval (d : Z) : Prop := 0 <= d < 2 ^ 31.

Lemma F64_of_Z_bnd B z : 0 <= z <= B -> B < 2 ^ 53 -> bnd B (F64.of_Z z) /\ nonneg (F64.of_Z z).
Proof.
  intros Hz HB. unfold F64.of_Z.
  destruct (of_Z_bnd F64.prec F64.emax ltac:(done) ltac:(done) B z) as [Hb Hn].
  { change (2 ^ F64.prec) with (2 ^ 53). lia. }
  split; [done|]. apply Hn. lia.
Qed.

Lemma accumulate_bnd l : Forall interval l -> (length l <= 8)%nat ->
  bnd (Z.of_nat (length l) * (2 ^ 31 - 1)) (accumulate l) /\ nonneg (accumulate l).
Proof.
  induction l as [|d l IH] using rev_ind; intros Hall Hlen.
  { simpl. split; [lia|done]. }
  apply Forall_app in Hall as [Hall [Hd _]%list.Forall_cons]. rewrite length_app in *. simpl in Hlen.
  destruct IH as [Hb Hn]; [done|lia|]. unfold accumulate. rewrite foldl_app. simpl.
  destruct (F64_of_Z_bnd (2 ^ 31 - 1) d) as [Hbd Hnd]; [unfold interval in Hd; lia|done|].
  fold (accumulate l). replace (Z.of_nat (length l + 1) * (2 ^ 31 - 1))
    with (Z.of_nat (length l) * (2 ^ 31 - 1) + (2 ^ 31 - 1)) by lia.
  apply SFadd_bnd; try done. change (2 ^ F64.prec) with (2 ^ 53). lia.
Qed.

(** Division by the number of intervals. *)
Lemma average_bnd B n x : 1 <= n <= 8 -> bnd (n * B) x -> nonneg x -> 0 <= B -> n * B < 2 ^ 53 ->
  bnd B (F64.div x (F64.of_Z n)) /\ nonneg (F64.div x (F64.of_Z n)).
Proof.
  intros Hn Hx Nx HB HnB.
  assert (exists my ey, F64.of_Z n = S754_finite false my ey /\ ey <= 0 /\ Zpos my = n * 2 ^ (- ey))
    as (my & ey & -> & Hey & Hmy).
  { assert (n = 1 \/ n = 2 \/ n = 3 \/ n = 4 \/ n = 5 \/ n = 6 \/ n = 7 \/ n = 8) as Hc by lia.
    destruct_or! Hc; subst n; eexists _, _; split_and!; vm_compute; done || reflexivity. }
  by apply (SFdiv_bnd F64.prec F64.emax ltac:(done) ltac:(done) B n).
Qed.

Lemma timeDiffs_length tp ds : timeDiffs tp = Ok ds -> length ds = (length tp - 1)%nat.
Proof.
  destruct tp as [|a tp]; [done|]. intros [= <-]. simpl. rewrite Nat.sub_0_r.
  revert a. induction tp as [|b tp IH]; intros a; [done|]. simpl in *. by rewrite IH.
Qed.

Lemma ComputeAvg_safe tp ds : timeDiffs tp = Ok ds -> Forall interval ds ->
  (2 <= length tp <= 8)%nat ->
  safe (ComputeAvg tp) (fun avg => bnd (2 ^ 31 - 1) avg /\ nonneg avg).
Proof.
  intros Hds Hall Hlen. unfold ComputeAvg. rewrite Hds. simpl.
  pose proof (timeDiffs_length _ _ Hds) as Hd.
  destruct (accumulate_bnd ds Hall) as [Hb Hn]; [lia|]. unfold zlength.
  apply average_bnd; try done; [lia| |lia].
  eapply bnd_mono; [|exact Hb]. rewrite Hd. lia.
Qed.

Lemma ComputeFluctuation_safe ds : Forall interval ds -> (1 <= length ds <= 8)%nat ->
  safe (ComputeFluctuation ds) (fun _ => True).
Proof.
  intros Hall Hlen. unfold ComputeFluctuation.
  destruct (accumulate_bnd ds Hall) as [Hb Hn]; [lia|].
  destruct (average_bnd (2 ^ 31 - 1) (zlength ds) (accumulate ds)) as [Hab Han];
    [unfold zlength; lia|done|done|lia|unfold zlength; lia|].
  apply safe_bind. eapply safe_mono.
  { apply (safe_for_each (fun pre repo => length repo = length pre)); [done|].
    intros pre x post repo -> Hrepo. apply Forall_app in Hall as [_ [Hx _]%list.Forall_cons].
    destruct (F64_of_Z_bnd (2 ^ 31 - 1) x) as [Hbx Hnx]; [unfold interval in Hx; lia|done|].
    pose proof (SFsub_bnd F64.prec F64.emax ltac:(done) ltac:(done) (2 ^ 31 - 1) _ _ Hbx Hnx Hab Han
      ltac:(done)) as Hs.
    apply bnd_abs in Hs. destruct (ftrunc_bnd _ _ Hs) as (z & Hz & Hr).
    { unfold F64.sub. by destruct (SFsub _ _ _ _). }
    unfold to_int, F64.sub. rewrite Hz, decide_True by lia. simpl. rewrite !length_app. simpl. lia. }
  intros repo Hrepo. destruct repo; [simpl in *; lia|done].
Qed.

(** ** Intervals of a history in order *)

Lemma sorted_filter {A} (f : A -> Z) (P : A -> Prop) `{!forall x, Decision (P x)} l :
  StronglySorted Z.le (f <$> l) -> StronglySorted Z.le (f <$> filter P l).
Proof.
  induction l as [|x l IH]; simpl; [done|]. intros [Hs Hx]%StronglySorted_inv.
  rewrite filter_cons. case_decide; [|auto]. simpl. constructor; [auto|].
  apply Forall_fmap, list.Forall_forall. intros y [_ Hy]%list_elem_of_filter.
  rewrite Forall_fmap, list.Forall_forall in Hx. by apply Hx.
Qed.

Lemma differences_interval l : StronglySorted Z.le l ->
  (forall a b, a ∈ l -> b ∈ l -> 0 <= a < 2 ^ 64 /\ b - a < 2 ^ 31) ->
  Forall interval (differences l).
Proof.
  induction l as [|a l IH]; intros Hs Hb; [constructor|]. destruct l as [|b l]; [constructor|].
  apply StronglySorted_inv in Hs as [Hs [Hab _]%list.Forall_cons].
  assert (0 <= a < 2 ^ 64 /\ b - a < 2 ^ 31) as [? ?] by (apply Hb; [apply list_elem_of_here|apply list_elem_of_further, list_elem_of_here]).
  cbn [differences]. constructor; [unfold interval; rewrite u64_small; lia|].
  apply IH; [done|]. intros c d Hc Hd. apply Hb; by apply list_elem_of_further.
Qed.

Section flow.
Context (h : t) (Hok : hist_ok h) (Hord : in_order h).

(** The receive cycles of a flow, and the intervals between them. *)
Lemma flow_intervals e ds : timeDiffs (cycleRecieve <$>
    filter (fun b => entryCmp b e = true) (patternTable h)) = Ok ds -> Forall interval ds.
Proof.
  destruct Hord as [Hs Hb]. intros Hds.
  assert (ds = differences (cycleRecieve <$> filter (fun b => entryCmp b e = true) (patternTable h))) as ->.
  { unfold timeDiffs in Hds. case_match; [done|]. by injection Hds as <-. }
  apply differences_interval; [by apply sorted_filter|].
  intros a b (x & -> & [_ Hx]%list_elem_of_filter)%list_elem_of_fmap
    (y & -> & [_ Hy]%list_elem_of_filter)%list_elem_of_fmap. by apply Hb.
Qed.

Lemma flow_times_length e : length (cycleRecieve <$>
    filter (fun b => entryCmp b e = true) (patternTable h)) = Z.to_nat (flow_count e h).
Proof.
  rewrite length_fmap. unfold flow_count, zlength. rewrite Nat2Z.id. f_equal.
  apply list_filter_iff. intros b. split; apply entryCmp_sym.
Qed.

(** The interval tests of a majority flow return; with all variants on,
    the last one decides. *)
Lemma intervalTests_ALL now e st : entryCmp now e = true -> 4 < flow_count e h ->
  safe (intervalTests ALL now e h st) (fun r => r.1.1 = true /\ bnd (2 ^ 31 - 1) r.1.2 /\ nonneg r.1.2).
Proof.
  intros Hsame Hmaj. pose proof (flow_count_range h Hok e) as Hr.
  pose proof (flow_times_length e) as Hlen.
  unfold intervalTests. rewrite (timePattern_spec h Hok). cbn [mbind res_bind].
  set (tp := cycleRecieve <$> _) in *.
  destruct (timeDiffs tp) as [ds|] eqn:Hds; [|destruct tp; simpl in *; [lia|done]].
  pose proof (flow_intervals e ds Hds) as Hall. pose proof (timeDiffs_length _ _ Hds) as Hdl.
  cbn [mbind res_bind].
  apply safe_bind. eapply safe_mono; [by apply (ComputeAvg_safe tp ds); [| |lia]|].
  intros avg [Hb Hn]. cbn [isVariant mbind res_bind]. change (isVariant ALL _) with (Ok true).
  cbn [mbind res_bind]. change (isVariant ALL _) with (Ok true). cbn [mbind res_bind].
  destruct (safe_inv _ _ (ComputeFluctuation_safe ds Hall ltac:(lia))) as (fl & -> & _).
  cbn [mbind res_bind]. by rewrite Hsame.
Qed.

End flow.

(** ** The verdict *)

Lemma passes_half_spec n : 0 <= n <= 8 -> passes_half 8 n = bool_decide (4 < n).
Proof.
  intros Hn. assert (n = 0 \/ n = 1 \/ n = 2 \/ n = 3 \/ n = 4 \/ n = 5 \/ n = 6 \/ n = 7 \/ n = 8)
    as Hc by lia. by destruct_or! Hc; subst n.
Qed.

Lemma half_window_spec n : 0 <= n <= 8 ->
  fleb (F64.mul F64.lit_0_5 (F64.of_Z 8)) (F64.of_Z n) = bool_decide (4 <= n).
Proof.
  intros Hn. assert (n = 0 \/ n = 1 \/ n = 2 \/ n = 3 \/ n = 4 \/ n = 5 \/ n = 6 \/ n = 7 \/ n = 8)
    as Hc by lia. by destruct_or! Hc; subst n.
Qed.

Lemma contentionTest_ALL s d port o l b st : outportRecord.wf o -> s <> -1 -> 0 <= port ->
  outportRecord.record o !! Z.to_nat port = Some l ->
  safe (contentionTest ALL s d port o b st) (fun r =>
    r.1 = b || bool_decide (4 <= outportRecord.occurrences s d l)).
Proof.
  intros Hwf Hs Hp Hl. unfold contentionTest. change (isVariant ALL _) with (Ok true).
  cbn [mbind res_bind]. rewrite (outportRecord.findMutual_spec s d port o l) by done.
  cbn [mbind res_bind snd]. destruct Hwf as [Hn Hall]. rewrite Hn.
  pose proof (Forall_lookup_1 _ _ _ _ Hall Hl) as Hlen; cbv beta in Hlen.
  assert (0 <= outportRecord.occurrences s d l <= 8).
  { unfold outportRecord.occurrences. pose proof (length_filter (fun e => e = (s, d)) l). lia. }
  rewrite half_window_spec by done. case_bool_decide; simpl; by destruct b.
Qed.

Lemma updateLIH_safe e a h : hist_ok h ->
  safe (updateLIH e a h) (fun h' => hist_ok h' /\ patternTable h' = patternTable h).
Proof.
  intros (Hl & Hlen & Hn & Hln). unfold updateLIH. rewrite Hn. apply safe_bind.
  eapply safe_mono; [apply (safe_for (fun _ (r : bool * list LIH_entry) => length r.2 = 4%nat))|].
  - done.
  - intros j [b tbl] Hj Htbl. simpl in Htbl. apply safe_bind, safe_vget; [unfold zlength; lia|].
    intros x Hx. case_match; [|done]. apply safe_bind, safe_vset; [unfold zlength; lia|].
    simpl. by rewrite length_insert.
  - intros [b tbl] Htbl. simpl in Htbl. destruct b; simpl.
    { split; [|done]. by split_and!. }
    destruct tbl as [|x tbl]; [done|]. simpl in *. split; [|done].
    split_and!; try done. simpl. rewrite length_app. simpl. lia.
Qed.

(** The flow of the packet is the majority, or contends for the port. *)
Definition risky (now : patternEntry) (s d : Z) (window : list (Z * Z)) (h : t) : Prop :=
  full h /\ (4 < flow_count now h \/ 4 <= outportRecord.occurrences s d window).

#[global] Instance risky_dec now s d l h : Decision (risky now s d l h).
Proof. unfold risky. apply _. Defined.

(** The dominant entry is of the packet's flow exactly when that flow is the
    majority of the table. *)
Lemma dominant_same now h (Hok : hist_ok h) :
  safe (dominant (passes_half (patternLen h)) h) (fun found =>
    (bool_decide (4 < flow_count now h) =
      match found with Some e => entryCmp now e | None => false end) /\
    forall e, found = Some e -> 4 < flow_count e h).
Proof.
  pose proof Hok as (Hl & Hlen & _). eapply safe_mono; [by apply dominant_spec|].
  intros found Hf. rewrite Hl in Hf. destruct found as [e|].
  - destruct Hf as [Hin Hp]. rewrite passes_half_spec in Hp by (by apply flow_count_range).
    apply bool_decide_eq_true in Hp. split; [|by intros ? [= <-]]. case_bool_decide as Hm.
    + symmetry. by apply (majority_unique now e h).
    + destruct (entryCmp now e) eqn:E; [|done]. by rewrite (flow_count_same now e h E) in Hm.
  - split; [|done]. apply bool_decide_eq_false. intros Hm.
    assert (exists b, b ∈ patternTable h /\ entryCmp now b = true) as (b & Hb & Heq).
    { unfold flow_count, zlength in Hm.
      destruct (filter (fun b => entryCmp now b = true) (patternTable h)) as [|b l] eqn:E; [simpl in *; lia|].
      assert (Hb : b ∈ filter (fun b => entryCmp now b = true) (patternTable h))
        by (rewrite E; apply list_elem_of_here).
      apply list_elem_of_filter in Hb as []. eauto. }
    specialize (Hf b Hb). rewrite passes_half_spec in Hf by (by apply flow_count_range).
    apply bool_decide_eq_false in Hf. by rewrite (flow_count_same now b h Heq) in Hm.
Qed.

Lemma riskFind_spec junk now pa head o s d st port h l :
  hist_ok h -> (full h -> in_order h) -> outportRecord.wf o -> s <> -1 -> 0 <= port ->
  outportRecord.record o !! Z.to_nat port = Some l ->
  safe (riskFind junk now pa head o s d ALL st port h) (fun r =>
    r.1.1.1 = bool_decide (risky now s d l h) /\
    hist_ok r.1.2 /\ patternTable r.1.2 = patternTable h).
Proof.
  intros Hok Hord Hwf Hs Hp Hl. unfold riskFind. rewrite (tableFull_spec h Hok). cbn [mbind res_bind].
  destruct (decide (full h)) as [Hfull|Hfull].
  2: { rewrite (bool_decide_eq_false_2 (full h)) by done. simpl.
       by rewrite bool_decide_eq_false_2 by (by intros []). }
  rewrite (bool_decide_eq_true_2 (full h)) by done. cbn [negb]. apply safe_bind.
  eapply safe_mono; [by apply (dominant_same now)|]. intros found [Hsame Hmaj].
  change (isVariant ALL _) with (Ok true).
  set (fs := match found with Some _ => true | None => false end && entryCmp now (default patternEntry_new found)).
  assert (Hfs : fs = bool_decide (4 < flow_count now h)) by (rewrite Hsame; by destruct found).
  replace (if match found with Some _ => true | None => false end then Ok true else Ok true)
    with (Ok true) by (by destruct found). cbn [mbind res_bind negb].
  replace (if entryCmp now (default patternEntry_new found) then Ok true else Ok true)
    with (Ok true) by (by destruct (entryCmp _ _)). cbn [mbind res_bind negb].
  apply safe_bind. apply (safe_mono _ (fun r => r.1.1 = fs /\ match r.1.2 with
    | Some a => bnd (2 ^ 31 - 1) a /\ nonneg a | None => True end)).
  { destruct fs eqn:Efs; [|done]. destruct found as [e|]; [|done]. simpl in *.
    apply safe_bind. eapply safe_mono; [by apply (intervalTests_ALL h Hok (Hord Hfull) now e); [rewrite <- Hsame|apply Hmaj]|].
    intros r (? & ? & ?). by split. }
  intros [[b avg] st'] [Hb Havg]. simpl in Hb, Havg. subst b. apply safe_bind.
  eapply safe_mono; [by apply (contentionTest_ALL s d port o l)|]. intros [b st2] Hb. simpl in Hb.
  assert (Hr : b = bool_decide (risky now s d l h)).
  { rewrite Hb, Hfs. unfold risky. repeat case_bool_decide; simpl; tauto. }
  clearbody fs. destruct b; [|by split_and!]. apply safe_bind.
  apply (safe_mono _ (fun _ => True)).
  { destruct avg as [a|]; [|done]. destruct Havg as [Hba Hna].
    destruct (ftrunc_bnd _ _ Hba Hna) as (z & Hz & Hzr). unfold to_u64. rewrite Hz.
    by rewrite decide_True by lia. }
  intros a _. destruct (head && fs); [|by split_and!]. apply safe_bind.
  eapply safe_mono; [by apply updateLIH_safe|]. intros h' [Hok' Htbl]. by split_and!.
Qed.

(** ** Recording injections *)

(** The last eight. *)
Definition window {A} (l : list A) : list A := drop (length l - 8) l.

Definition record_all (es : list patternEntry) (h : t) : res t :=
  for_each es updateHistory h.

Lemma record_all_spec es : forall h, length (patternTable h) = 8%nat ->
  record_all es h = Ok (h <| patternTable := window (patternTable h ++ es) |>).
Proof.
  induction es as [|e es IH]; intros h Hlen; unfold record_all; cbn [for_each].
  { rewrite app_nil_r. unfold window. rewrite Hlen. by destruct h. }
  change (for_each es updateHistory) with (record_all es).
  unfold updateHistory. destruct (patternTable h) as [|x l] eqn:E; [done|].
  cbn [shift_push mbind res_bind].
  assert (Hw : window ((l ++ [e]) ++ es) = window ((x :: l) ++ e :: es)).
  { unfold window. rewrite !length_app. cbn [length app] in *.
    replace (S (length l) + S (length es) - 8)%nat with (S (length es)) by lia.
    replace (length l + 1 + length es - 8)%nat with (length es) by lia.
    simpl. by rewrite <- app_assoc. }
  rewrite IH by (simpl in *; rewrite length_app; simpl; lia). by rewrite <- Hw.
Qed.

Lemma window_new (es : list patternEntry) :
  window (replicate 8 patternEntry_new ++ es) =
    replicate (8 - length es) patternEntry_new ++ window es.
Proof.
  unfold window. rewrite length_app, length_replicate.
  destruct (decide (8 <= length es)%nat).
  - rewrite drop_app_ge by (rewrite length_replicate; lia). rewrite length_replicate.
    replace (8 - length es)%nat with 0%nat by lia. simpl. f_equal. lia.
  - rewrite drop_app_le by (rewrite length_replicate; lia). rewrite drop_replicate.
    replace (length es - 8)%nat with 0%nat by lia. rewrite drop_0. do 2 f_equal. lia.
Qed.

(** A new history is full once eight packets were recorded. *)
Lemma full_recorded (es : list patternEntry) n lih m : Forall (fun e => cycleRecieve e <> 0) es ->
  full (mk (window (replicate 8 patternEntry_new ++ es)) n lih m) <-> (8 <= length es)%nat.
Proof.
  intros Hes. rewrite window_new. unfold full. simpl. rewrite Forall_app. split.
  - intros [Hf _]. destruct (decide (8 <= length es)%nat); [done|].
    destruct (8 - length es)%nat eqn:E; [lia|]. simpl in Hf. by apply list.Forall_cons in Hf as [].
  - intros Hl. replace (8 - length es)%nat with 0%nat by lia. split; [constructor|].
    by apply Forall_drop.
Qed.

(** ** The theorem *)

(** The packets of the flow of [now] among the last eight of [es]. *)
Definition recent (now : patternEntry) (es : list patternEntry) : Z :=
  zlength (filter (fun b => entryCmp now b = true) (window es)).

(** C4: the verdict of the detector.  After any sequence of injections,
    recorded in a new history in order of time, [riskFind] returns for every
    further packet (no conversion overflows and no access is out of range),
    and with all variants on it reports a risk exactly when at least eight packets were
    recorded and more than four of the last eight belong to the packet's flow,
    or four of the last eight packets of its output port have its source and
    destination. *)
Theorem riskFind_verdict junk es now pa head o s d st port l :
  Forall (fun e => 0 < cycleRecieve e < 2 ^ 64) es ->
  StronglySorted Z.le (cycleRecieve <$> window es) ->
  (forall a b, a ∈ window es -> b ∈ window es -> cycleRecieve b - cycleRecieve a < 2 ^ 31) ->
  outportRecord.wf o -> s <> -1 -> 0 <= port -> outportRecord.record o !! Z.to_nat port = Some l ->
  exists risk avg h st',
    (h ← record_all es (HistoryRecord.new 8); riskFind junk now pa head o s d ALL st port h) =
      Ok (risk, avg, h, st') /\
    (risk = true <-> 8 <= zlength es /\
      (4 < recent now es \/ 4 <= outportRecord.occurrences s d l)).
Proof.
  intros Hcyc Hsort Hspan Hwf Hs Hp Hl. rewrite record_all_spec by done. cbn [mbind res_bind].
  set (h := (HistoryRecord.new 8) <| patternTable := _ |>).
  assert (Hfull : full h <-> (8 <= length es)%nat).
  { apply full_recorded. eapply list.Forall_impl; [exact Hcyc|]. simpl. lia. }
  assert (Hwin : (8 <= length es)%nat -> patternTable h = window es).
  { intros Hlen. change (patternTable h) with (window (replicate 8 patternEntry_new ++ es)).
    rewrite window_new.
    by replace (8 - length es)%nat with 0%nat by lia. }
  assert (Hok : hist_ok h).
  { split_and!; try done. change (patternTable h) with (window (replicate 8 patternEntry_new ++ es)).
    unfold window. rewrite length_drop, length_app, length_replicate. lia. }
  assert (Hord : full h -> in_order h).
  { intros Hf%Hfull. unfold in_order. rewrite Hwin by done. split; [done|].
    intros a b Ha Hb. split; [|by apply Hspan]. unfold window in Ha.
    apply (Forall_drop _ (length es - 8)) in Hcyc.
    apply (proj1 (list.Forall_forall _ _) Hcyc) in Ha. lia. }
  destruct (safe_inv _ _ (riskFind_spec junk now pa head o s d st port h l Hok Hord Hwf Hs Hp Hl)) as
    ([[[risk avg] h'] st'] & E & Hr & _).
  exists risk, avg, h', st'. split; [exact E|]. simpl in Hr. rewrite Hr, bool_decide_eq_true.
  unfold risky. rewrite Hfull. unfold zlength. split.
  - intros [Hlen Hor]. split; [lia|]. unfold flow_count in Hor. by rewrite Hwin in Hor.
  - intros [Hlen Hor]. assert (8 <= length es)%nat by lia. split; [done|].
    unfold flow_count. by rewrite Hwin.
Qed.

(** Five packets of a flow among eight, at irregular times. *)
Definition demo_entry (dst cycle : Z) : patternEntry := mkPattern 3 dst 0 dst cycle 0.
Definition demo_entries : list patternEntry :=
  [demo_entry 9 10; demo_entry 9 400; demo_entry 2 410; demo_entry 9 900; demo_entry 7 901;
   demo_entry 9 5000; demo_entry 9 5001; demo_entry 2 7000].
Definition demo_record : outportRecord.t :=
  outportRecord.mk (replicate 5 (replicate 8 (-1, -1))) 5 8.

Lemma riskFind_verdict_witness : exists risk avg h st',
  (h ← record_all demo_entries (HistoryRecord.new 8);
   riskFind 0 (demo_entry 9 7001) 0 true demo_record 3 9 ALL InputUnitStats_new 1 h) =
    Ok (risk, avg, h, st') /\
  (risk = true <-> 8 <= zlength demo_entries /\
    (4 < recent (demo_entry 9 7001) demo_entries \/
     4 <= outportRecord.occurrences 3 9 (replicate 8 (-1, -1)))).
Proof.
  apply riskFind_verdict; try done.
  - by repeat constructor.
  - by repeat constructor.
  - assert (Forall (fun a => Forall (fun b => cycleRecieve b - cycleRecieve a < 2 ^ 31)
      (window demo_entries)) (window demo_entries)) as Hall by (by repeat constructor).
    intros a b Ha Hb. apply (proj1 (list.Forall_forall _ _) Hall) in Ha.
    by apply (proj1 (list.Forall_forall _ _) Ha) in Hb.
  - by repeat constructor.
Defined.
