(* ===== verification/RoutingUnit.v ===== *)
(** * RoutingUnit: route computation

    RoutingUnit.hh/.cc: the routing table, the direction-based algorithms
    of the mesh (XY, random west-first, the two counter-based ones, the
    pattern defence) and the two Valiant detours of the defence, and their
    dispatch in [outportCompute]. *)

From S2P Require Import Prelude CFloat NetDest CommonTypes.

(** ** What the unit reads of its router and network *)

Record NetParams := mkNet {
  getNumRows : Z;
  getNumCols : Z;
  getRoutingAlgorithm : Z;
  (** [m_ordered]. *)
  m_ordered : list bool;
}.

Definition isVNetOrdered (net : NetParams) (vnet : Z) : res bool := vget (m_ordered net) vnet.

(** ** Global counters of RoutingUnit.cc *)

Definition MAXN : Z := 1000.

Record Counters := mkCounters { counterr_ : Z; routerr_ : list Z }.
#[global] Instance Counters_eta : Etaed Counters := fun c => mkCounters (counterr_ c) (routerr_ c).
Definition Counters_new : Counters := mkCounters 0 (replicate (Z.to_nat MAXN) 0).

(** [++x] on an [unsigned long long]. *)
Definition incr (x : Z) : Z := u64 (x + 1).

(** ** State of the unit *)

(** This unit's [patternEntry] stores a direction. *)
Record rpattern := mkRPattern {
  rp_src : Z;
  rp_dst : Z;
  rp_inport : Z;
  rp_output : PortDirection;
  rp_cycle : Z;
}.
Definition rpattern_new : rpattern := mkRPattern 0 0 0 "Unknown" 0.

Record RoutingUnit := mkRoutingUnit {
  m_routing_table : list (list NetDest.t);
  m_weight_table : list Z;
  m_inports_dirn2idx : gmap PortDirection Z;
  m_inports_idx2dirn : gmap Z PortDirection;
  m_outports_idx2dirn : gmap Z PortDirection;
  m_outports_dirn2idx : gmap PortDirection Z;
  rp_table : list rpattern;
  rp_len : Z;
}.
#[global] Instance RoutingUnit_eta : Etaed RoutingUnit := fun r =>
  mkRoutingUnit (m_routing_table r) (m_weight_table r) (m_inports_dirn2idx r)
    (m_inports_idx2dirn r) (m_outports_idx2dirn r) (m_outports_dirn2idx r) (rp_table r) (rp_len r).

Definition RoutingUnit_new : RoutingUnit :=
  mkRoutingUnit [] [] ∅ ∅ ∅ ∅ (replicate 8 rpattern_new) 8.

(** Everything a route computation may change: the unit, the global
    counters and the random sources. *)
Record RState := mkRState { ru : RoutingUnit; cnt : Counters; rng : Rng }.
#[global] Instance RState_eta : Etaed RState := fun s => mkRState (ru s) (cnt s) (rng s).

(** ** Directions and neighbours *)

Definition compute_dirn (index : Z) : PortDirection :=
  match index with
  | 0 => "North"
  | 1 => "East"
  | 2 => "West"
  | 3 => "South"
  | _ => "Unknown"
  end.

Definition compute_neighbor_id (my_id index num_cols : Z) : Z :=
  match index with
  | 0 => my_id + num_cols
  | 1 => my_id + 1
  | 2 => my_id - 1
  | 3 => my_id - num_cols
  | _ => my_id
  end.

(** [m_outports_dirn2idx[d]]: [operator[]] inserts 0 for a missing key. *)
Definition outport_of (d : PortDirection) (s : RState) : Z * RState :=
  match m_outports_dirn2idx (ru s) !! d with
  | Some i => (i, s)
  | None => (0, s <| ru := (ru s) <| m_outports_dirn2idx ::= <[d := 0]> |> |>)
  end.

(** ** Building the tables *)

(** [m_routing_table[v].push_back(routing_table_entry[v])] after a resize. *)
Definition addRoute (routing_table_entry : list NetDest.t) (r : RoutingUnit) : res RoutingUnit :=
  let n := Nat.max (length (m_routing_table r)) (length routing_table_entry) in
  let table := m_routing_table r ++ replicate (n - length (m_routing_table r)) [] in
  table' ← for_ (length routing_table_entry) 0 (fun v tbl =>
    e ← vget routing_table_entry v; valter (fun l => l ++ [e]) tbl v) table;
  Ok (r <| m_routing_table := table' |>).

Definition addWeight (link_weight : Z) (r : RoutingUnit) : RoutingUnit :=
  r <| m_weight_table := m_weight_table r ++ [link_weight] |>.

Definition addInDirection (inport_dirn : PortDirection) (inport_idx : Z) (r : RoutingUnit)
    : RoutingUnit :=
  r <| m_inports_dirn2idx ::= <[inport_dirn := inport_idx]> |>
    <| m_inports_idx2dirn ::= <[inport_idx := inport_dirn]> |>.

Definition addOutDirection (outport_dirn : PortDirection) (outport_idx : Z) (r : RoutingUnit)
    : RoutingUnit :=
  r <| m_outports_dirn2idx ::= <[outport_dirn := outport_idx]> |>
    <| m_outports_idx2dirn ::= <[outport_idx := outport_dirn]> |>.

Definition supportsVnet (vnet : Z) (sVnets : list Z) : bool :=
  if zlength sVnets =? 0 then true else bool_decide (vnet ∈ sVnets).

(** ** Table routing *)

Section routing.
Context `{MachineTypes}.

(** First loop: the least weight of a link that reaches the destination,
    starting from [INFINITE_]. *)
Definition minWeight (links : list NetDest.t) (weights : list Z) (d : NetDest.t) : res Z :=
  for_ (length links) 0 (fun link min_weight =>
    l ← vget links link;
    hit ← NetDest.intersectionIsNotEmpty l d;
    if (hit : bool) then
      w ← vget weights link; Ok (if w <=? min_weight then w else min_weight)
    else Ok min_weight) INFINITE_.

(** Second loop: the links that reach the destination with that weight. *)
Definition candidates (links : list NetDest.t) (weights : list Z) (d : NetDest.t) (min_weight : Z)
    : res (list Z) :=
  for_ (length links) 0 (fun link cands =>
    l ← vget links link;
    hit ← NetDest.intersectionIsNotEmpty l d;
    if (hit : bool) then
      w ← vget weights link; Ok (if w =? min_weight then cands ++ [link] else cands)
    else Ok cands) [].

(** Ordered networks take the first candidate, others [rand()] one. *)
Definition lookupRoutingTable (net : NetParams) (vnet : Z) (msg_destination : NetDest.t)
    (s : RState) : res (Z * RState) :=
  links ← vget (m_routing_table (ru s)) vnet;
  min_weight ← minWeight links (m_weight_table (ru s)) msg_destination;
  cands ← candidates links (m_weight_table (ru s)) msg_destination min_weight;
  if zlength cands =? 0 then Err FatalCalled
  else
    ordered ← isVNetOrdered net vnet;
    if (ordered : bool) then o ← vget cands 0; Ok (o, s)
    else
      '(r, g) ← uniform 0 (2 ^ 31 - 1) (rng s);
      o ← vget cands (Z.rem r (zlength cands)); Ok (o, s <| rng := g |>).

(** ** Dimension-order routing *)

(** The direction towards [dest_id], X first. *)
Definition XY_dirn (net : NetParams) (my_id dest_id : Z) : res PortDirection :=
  let num_cols := getNumCols net in
  _ ← assert ((0 <? getNumRows net) && (0 <? num_cols));
  let my_x := Z.rem my_id num_cols in
  let my_y := Z.quot my_id num_cols in
  let dest_x := Z.rem dest_id num_cols in
  let dest_y := Z.quot dest_id num_cols in
  let x_hops := Z.abs (dest_x - my_x) in
  let y_hops := Z.abs (dest_y - my_y) in
  let x_dirn := my_x <=? dest_x in
  let y_dirn := my_y <=? dest_y in
  _ ← assert (negb ((x_hops =? 0) && (y_hops =? 0)));
  if 0 <? x_hops then Ok (if x_dirn then "East" else "West")
  else if 0 <? y_hops then Ok (if y_dirn then "North" else "South")
  else Err PanicCalled.

(** The reference version asserts that the packet came from a side XY
    routing can have used. *)
Definition XY_inport_ok (inport_dirn d : PortDirection) : bool :=
  if bool_decide (d = "East") then bool_decide (inport_dirn = "Local" \/ inport_dirn = "West")
  else if bool_decide (d = "West") then bool_decide (inport_dirn = "Local" \/ inport_dirn = "East")
  else if bool_decide (d = "North") then bool_decide (inport_dirn <> "North")
  else bool_decide (inport_dirn <> "South").

Definition outportComputeXY (net : NetParams) (my_id : Z) (route : RouteInfo) (inport : Z)
    (inport_dirn : PortDirection) (s : RState) : res (Z * RState) :=
  d ← XY_dirn net my_id (dest_router route);
  _ ← assert (XY_inport_ok inport_dirn d);
  Ok (outport_of d s).

(** The overload used by the detours: no check of the input side, and a
    choice of target. *)
Definition outportComputeXY_mid (net : NetParams) (my_id : Z) (route : RouteInfo) (inport : Z)
    (inport_dirn : PortDirection) (mid : bool) (s : RState) : res (Z * RState) :=
  let dest_id := if mid then getInter route else dest_router route in
  d ← XY_dirn net my_id dest_id;
  Ok (outport_of d s).

(** Results that leave the route unchanged. *)
Definition keepRoute (route : RouteInfo) (m : res (Z * RState)) : res (Z * RouteInfo * RState) :=
  '(o, s) ← m; Ok (o, route, s).

(** ** The Valiant detours *)

(** [myRandom::getMyRandom]: the [int] bounds become [uint64_t]. *)
Definition getMyRandom (arg0 arg1 : Z) (g : Rng) : res (Z * Rng) :=
  uniform (u64 arg0) (u64 arg1) g.

(** The vectors of options: [0 .. n-1] without the excluded numbers. *)
Definition options (n : Z) (skip : list Z) : list Z :=
  filter (fun i => i ∉ skip) (Z.of_nat <$> seq 0 (Z.to_nat n)).

(** Drawing one of them. *)
Definition pick (opts : list Z) (hi : Z) (g : Rng) : res (Z * Rng) :=
  '(r, g) ← getMyRandom 0 hi g;
  o ← vget opts (i32 r); Ok (o, g).

(** The intermediate router of the secure detour: in the packet's column when
    it only moves in X, else in the destination's row. *)
Definition pickInterSecure (net : NetParams) (my_id dest_id : Z) (route : RouteInfo) (g : Rng)
    : res (RouteInfo * Rng) :=
  let num_cols := getNumCols net in
  _ ← assert ((0 <? getNumRows net) && (0 <? num_cols));
  let my_x := Z.rem my_id num_cols in
  let my_y := Z.quot my_id num_cols in
  let dest_x := Z.rem dest_id num_cols in
  let dest_y := Z.quot dest_id num_cols in
  let x_hops := Z.abs (dest_x - my_x) in
  let y_hops := Z.abs (dest_y - my_y) in
  if (0 <? x_hops) && (y_hops =? 0) then
    '(newY, g) ← pick (options num_cols [my_y]) (num_cols - 2) g;
    Ok (setInter (newY * num_cols + my_x) route, g)
  else if (0 <? y_hops) && (x_hops =? 0) then
    '(newX, g) ← pick (options num_cols [dest_x]) (num_cols - 2) g;
    Ok (setInter (dest_y * num_cols + newX) route, g)
  else if (0 <? y_hops) && (0 <? x_hops) then
    '(newX, g) ← pick (options num_cols [dest_x]) (num_cols - 2) g;
    Ok (setInter (newX + dest_y * num_cols) route, g)
  else Ok (route, g).

(** The intermediate router of the original Valiant algorithm: any router
    but the current one and the destination. *)
Definition pickInterOri (net : NetParams) (my_id dest_id : Z) (route : RouteInfo) (g : Rng)
    : res (RouteInfo * Rng) :=
  let num_cols := getNumCols net in
  let num_rows := getNumRows net in
  _ ← assert ((0 <? num_rows) && (0 <? num_cols));
  '(newNode, g) ← pick (options (num_cols * num_rows) [my_id; dest_id])
                       (num_cols * num_rows - 3) g;
  Ok (setInter newNode route, g).

(** The common shape of [outportValiant] and [outportOriValiant]: untagged packets
    go XY; tagged ones get an intermediate router, go there, then on to
    the destination. *)
Definition valiant
    (pickInter : NetParams -> Z -> Z -> RouteInfo -> Rng -> res (RouteInfo * Rng))
    (net : NetParams) (my_id : Z) (route : RouteInfo) (inport : Z) (inport_dirn : PortDirection)
    (s : RState) : res (Z * RouteInfo * RState) :=
  if getTag route =? 0 then
    keepRoute route (outportComputeXY_mid net my_id route inport inport_dirn false s)
  else
    let route :=
      if negb (getInter route =? -1) && (getTag route =? 1) && negb (getPassed route)
      then if getInter route =? my_id then setPassed route else route
      else route in
    if getInter route =? -1 then
      '(route, g) ← pickInter net my_id (dest_router route) route (rng s);
      keepRoute route
        (outportComputeXY_mid net my_id route inport inport_dirn true (s <| rng := g |>))
    else
      keepRoute route
        (outportComputeXY_mid net my_id route inport inport_dirn (negb (getPassed route)) s).

Definition outportValiant : NetParams -> Z -> RouteInfo -> Z -> PortDirection -> RState ->
    res (Z * RouteInfo * RState) := valiant pickInterSecure.

Definition outportOriValiant : NetParams -> Z -> RouteInfo -> Z -> PortDirection -> RState ->
    res (Z * RouteInfo * RState) := valiant pickInterOri.

(** ** West-first and the counter-based algorithms *)

(** [avail_dimension_set], indexed N, E, W, S. *)
Definition westFirstSet (ex ey : Z) : list Z :=
  if ex <? 0 then [0; 0; 1; 0]
  else [ (if 0 <? ey then 1 else 0); (if 0 <? ex then 1 else 0); 0;
         (if 0 <? ey then 0 else if ey <? 0 then 1 else 0) ].

(** The offsets to the destination, after the assertions. *)
Definition offsets (net : NetParams) (my_id dest_id : Z) : res (Z * Z) :=
  let num_cols := getNumCols net in
  _ ← assert ((0 <? getNumRows net) && (0 <? num_cols));
  let ex := Z.rem dest_id num_cols - Z.rem my_id num_cols in
  let ey := Z.quot dest_id num_cols - Z.quot my_id num_cols in
  _ ← assert (negb ((ex =? 0) && (ey =? 0)));
  Ok (ex, ey).

(** The loop over the four dimensions: [dir_count] and [outport_dirn]. *)
Definition dirLoop (avail : list Z) : Z * PortDirection :=
  foldl (fun '(dir_count, d) i =>
    let a := nth (Z.to_nat i) avail 0 in
    (dir_count + a, if negb (a =? 0) then compute_dirn i else d)) (0, "Unknown") [0; 1; 2; 3].

(** [i1] and [i2]: the first available index and the last later one. *)
Definition twoIndices (avail : list Z) : Z * Z :=
  foldl (fun '(i1, i2) i =>
    if 0 <? nth (Z.to_nat i) avail 0 then if i1 =? -1 then (i, i2) else (i1, i) else (i1, i2))
    (-1, -1) [0; 1; 2; 3].

(** [std::rand()]: [i1] on even draws, else [i2]. *)
Definition randomOf (i : Z * Z) (g : Rng) : res (PortDirection * Rng) :=
  '(random_var, g) ← uniform 0 (2 ^ 31 - 1) g;
  Ok (if Z.rem random_var 2 =? 0 then compute_dirn i.1 else compute_dirn i.2, g).

(** The direction taken: the only one, or a random one of two. *)
Definition randomDirn (avail : list Z) (g : Rng) : res (PortDirection * Rng) :=
  let '(dir_count, d) := dirLoop avail in
  if dir_count =? 2 then randomOf (twoIndices avail) g else Ok (d, g).

Definition outportRanWestFirst (net : NetParams) (my_id : Z) (route : RouteInfo) (inport : Z)
    (inport_dirn : PortDirection) (s : RState) : res (Z * RState) :=
  '(ex, ey) ← offsets net my_id (dest_router route);
  '(d, g) ← randomDirn (westFirstSet ex ey) (rng s);
  Ok (outport_of d (s <| rng := g |>)).

(** The counters of the four neighbours; an index outside the array is
    undefined. *)
Definition readNeighbours (net : NetParams) (my_id : Z) (c : Counters) : res (Z * Z * Z * Z) :=
  let num_cols := getNumCols net in
  c1 ← vget (routerr_ c) (compute_neighbor_id my_id 0 num_cols);
  c2 ← vget (routerr_ c) (compute_neighbor_id my_id 1 num_cols);
  c3 ← vget (routerr_ c) (compute_neighbor_id my_id 2 num_cols);
  c4 ← vget (routerr_ c) (compute_neighbor_id my_id 3 num_cols);
  Ok (c1, c2, c3, c4).

(** Index of the first least element, as the chain of comparisons finds it. *)
Definition argmin (c1 c2 c3 c4 : Z) : Z :=
  let m := Z.min (Z.min c1 c2) (Z.min c3 c4) in
  if m =? c1 then 0 else if m =? c2 then 1 else if m =? c3 then 2 else 3.

(** With two directions [outport_dirn] is set towards the neighbour with
    the least counter, and then set again by the random choice. *)
Definition outportSecTest (net : NetParams) (my_id : Z) (route : RouteInfo) (inport : Z)
    (inport_dirn : PortDirection) (s : RState) : res (Z * RState) :=
  '(ex, ey) ← offsets net my_id (dest_router route);
  let avail := westFirstSet ex ey in
  let num_cols := getNumCols net in
  let cx := Z.rem my_id num_cols in
  let cy := Z.quot my_id num_cols in
  let '(dir_count, d) := dirLoop avail in
  '(d, g) ←
    (if dir_count =? 2 then
       d ← (if negb (cy =? 0) || negb (cy =? num_cols) || negb (cx =? 0) || negb (cx =? num_cols)
            then '(c1, c2, c3, c4) ← readNeighbours net my_id (cnt s);
                 Ok (compute_dirn (argmin c1 c2 c3 c4))
            else Ok d);
       '(d, g) ← randomOf (twoIndices avail) (rng s);
       Ok (d, g)
     else Ok (d, rng s));
  Ok (outport_of d (s <| rng := g |>)).

(** A neighbour [out] of the mesh is replaced by a slot set to 0x7fffffff. *)
Definition redirect (out : bool) (slot n : Z) (c : list Z) : res (Z * list Z) :=
  if out then c' ← vset c slot 2147483647; Ok (slot, c') else Ok (n, c).

(** Algorithm 4: towards the neighbour with the least counter; neighbours
    outside the mesh are redirected to slots 900..903, which are set high. *)
Definition outportTest (net : NetParams) (my_id : Z) (route : RouteInfo) (inport : Z)
    (inport_dirn : PortDirection) (s : RState) : res (Z * RState) :=
  let num_cols := getNumCols net in
  let num_rows := getNumRows net in
  _ ← assert ((0 <? num_rows) && (0 <? num_cols));
  let n1 := compute_neighbor_id my_id 0 num_cols in
  let n2 := compute_neighbor_id my_id 1 num_cols in
  let n3 := compute_neighbor_id my_id 2 num_cols in
  let n4 := compute_neighbor_id my_id 3 num_cols in
  let row i := Z.quot i num_cols in
  '(n1, c) ← redirect (num_cols * num_rows <=? n1) 900 n1 (routerr_ (cnt s));
  '(n2, c) ← redirect ((num_cols * num_rows <=? n2) || negb (row n2 =? row my_id)) 901 n2 c;
  '(n3, c) ← redirect ((n3 <? 0) || negb (row n3 =? row my_id)) 902 n3 c;
  '(n4, c) ← redirect (n4 <? 0) 903 n4 c;
  c1 ← vget c n1; c2 ← vget c n2; c3 ← vget c n3; c4 ← vget c n4;
  let s := s <| cnt := (cnt s) <| routerr_ := c |> |> in
  Ok (outport_of (compute_dirn (argmin c1 c2 c3 c4)) s).

(** ** The pattern defence (algorithm 5) *)

(** This file's [ComputeVariance] has no square root. *)
Definition rp_variance (l : list Z) : spec_float :=
  let size := zlength l in
  if size <=? 1 then S754_zero false
  else
    let sum := foldl (fun a x => F64.add a (F64.of_Z x)) (S754_zero false) l in
    let avg := F64.div sum (F64.of_Z size) in
    let variance := foldl (fun v num =>
      let d := F64.sub (F64.of_Z num) avg in F64.add v (F64.mul d d)) (S754_zero false) l in
    F64.div variance (F64.of_Z size).

(** Consecutive differences; an empty vector makes the loop bound wrap. *)
Fixpoint rp_differences (time : list Z) : list Z :=
  match time with
  | a :: ((b :: _) as rest) => u64 (b - a) :: rp_differences rest
  | _ => []
  end.

Definition rp_avg (time : list Z) : spec_float :=
  F64.div (foldl (fun a x => F64.add a (F64.of_Z x)) (S754_zero false) (rp_differences time))
          (F64.of_Z (zlength time - 1)).

Definition rp_entryCmp (a b : rpattern) : bool :=
  (rp_src a =? rp_src b) && (rp_dst a =? rp_dst b) && bool_decide (rp_output a = rp_output b).

Definition rp_matches (r : RoutingUnit) (a : rpattern) : res Z :=
  for_ (Z.to_nat (rp_len r)) 0 (fun j n =>
    b ← vget (rp_table r) j; Ok (if rp_entryCmp a b then n + 1 else n)) 0.

Definition rp_full (r : RoutingUnit) : res bool :=
  for_break (Z.to_nat (rp_len r)) 0 (fun i (_ : bool) =>
    e ← vget (rp_table r) i; let z := rp_cycle e =? 0 in Ok (z, negb z)) true.

Definition rp_dominant (r : RoutingUnit) : res (option rpattern) :=
  for_ (Z.to_nat (rp_len r)) 0 (fun i found =>
    e ← vget (rp_table r) i;
    n ← rp_matches r e;
    Ok (if fltb (F32.mul (F32.of_Z (rp_len r)) (F32.div (F32.of_Z 1) (F32.of_Z 2))) (F32.of_Z n)
        then Some e else found)) None.

Definition rp_times (r : RoutingUnit) (riskEntry : rpattern) : res (list Z) :=
  for_ (Z.to_nat (rp_len r)) 0 (fun i acc =>
    e ← vget (rp_table r) i;
    Ok (if rp_entryCmp e riskEntry then acc ++ [rp_cycle e] else acc)) [].

(** [riskFind]: the risky entry when there is one. *)
Definition rp_riskFind (r : RoutingUnit) : res (option rpattern) :=
  full ← rp_full r;
  if negb full then Ok None
  else
    found ← rp_dominant r;
    match found with
    | None => Ok None
    | Some riskEntry =>
        tp ← rp_times r riskEntry;
        match tp with
        | [] => Err OutOfRange
        | _ =>
            Ok (if fleb (rp_variance (rp_differences tp)) (F64.of_Z 3) &&
                   fltb (SFabs (rp_avg tp)) (F64.of_Z 6)
                then Some riskEntry else None)
        end
    end.

(** Minimal direction with X or Y first. *)
Definition minimalDirn (xFirst : bool) (x_hops y_hops : Z) (x_dirn y_dirn : bool)
    : res PortDirection :=
  let x := if x_dirn then "East" else "West" in
  let y := if y_dirn then "North" else "South" in
  if xFirst then
    if 0 <? x_hops then Ok x else if 0 <? y_hops then Ok y else Err PanicCalled
  else
    if 0 <? y_hops then Ok y else if 0 <? x_hops then Ok x else Err PanicCalled.

(** The redirection of a risky packet: not the former direction, nor the
    one opposite to the destination's row; the other option when the first falls outside the mesh. *)
Definition redirectDirn (former : PortDirection) (y_dirn : bool)
    (my_x my_y num_rows num_cols rNum : Z) : res PortDirection :=
  let allList := filter (fun d => d <> former) ["East"; "West"; "South"; "North"] in
  let delete_dir := if y_dirn then "South" else "North" in
  let allList := filter (fun d => d <> delete_dir) allList in
  let chooseId := if rNum <? 50 then 0 else 1 in
  now ← vget allList chooseId;
  let boundConflic :=
    (bool_decide (now = "South") && (my_y =? 0)) ||
    (bool_decide (now = "North") && (my_y =? num_rows - 1)) ||
    (bool_decide (now = "West") && (my_x =? 0)) ||
    (bool_decide (now = "East") && (my_x =? num_cols - 1)) in
  if (boundConflic : bool) then vget allList (if chooseId =? 0 then 1 else 0) else Ok now.

Definition outportPattern (net : NetParams) (my_id curTick : Z) (route : RouteInfo) (inport : Z)
    (inport_dirn : PortDirection) (s : RState) : res (Z * RState) :=
  let num_rows := getNumRows net in
  let num_cols := getNumCols net in
  _ ← assert ((0 <? num_rows) && (0 <? num_cols));
  let my_x := Z.rem my_id num_cols in
  let my_y := Z.quot my_id num_cols in
  let dest_id := dest_router route in
  let dest_x := Z.rem dest_id num_cols in
  let dest_y := Z.quot dest_id num_cols in
  let x_hops := Z.abs (dest_x - my_x) in
  let y_hops := Z.abs (dest_y - my_y) in
  let x_dirn := my_x <=? dest_x in
  let y_dirn := my_y <=? dest_y in
  _ ← assert (negb ((x_hops =? 0) && (y_hops =? 0)));
  risk ← rp_riskFind (ru s);
  let risk := match risk : option rpattern with
              | Some e => if (rp_dst e =? dest_id) && (rp_src e =? src_router route)
                          then Some e else None
              | None => None
              end in
  '(r, g) ← uniform 0 100 (rng s);
  d ← match risk with
      | None => minimalDirn (r <? 50) x_hops y_hops x_dirn y_dirn
      | Some e => redirectDirn (rp_output e) y_dirn my_x my_y num_rows num_cols r
      end;
  tbl ← shift_push (rp_table (ru s))
          (mkRPattern (src_router route) dest_id inport d (Z.quot curTick 500));
  Ok (outport_of d (s <| rng := g |> <| ru := (ru s) <| rp_table := tbl |> |>)).

(** A placeholder that panics. *)
Definition outportComputeCustom : res (Z * RState) := Err PanicCalled.

(** ** Dispatch *)

(** [++counterr_] and [++(routerr_[m_id])] after every computed route. *)
Definition countRoute (my_id : Z) (s : RState) : res RState :=
  c ← valter incr (routerr_ (cnt s)) my_id;
  Ok (s <| cnt := mkCounters (counterr_ (cnt s) + 1) c |>).

(** The [switch] over the configured algorithm. *)
Definition dispatch (net : NetParams) (my_id curTick : Z) (route : RouteInfo) (inport : Z)
    (inport_dirn : PortDirection) (s : RState) : res (Z * RouteInfo * RState) :=
  match RoutingAlgorithm_of (getRoutingAlgorithm net) with
  | TABLE_ => keepRoute route (lookupRoutingTable net (vnet route) (net_dest route) s)
  | XY_ => keepRoute route (outportComputeXY net my_id route inport inport_dirn s)
  | RANWESTFIRST_ => keepRoute route (outportRanWestFirst net my_id route inport inport_dirn s)
  | SECTEST_ => keepRoute route (outportSecTest net my_id route inport inport_dirn s)
  | TEST_ => keepRoute route (outportTest net my_id route inport inport_dirn s)
  | DEFENSE0_ => keepRoute route (outportPattern net my_id curTick route inport inport_dirn s)
  | DEFENSE1_ => outportValiant net my_id route inport inport_dirn s
  | ORIVA => outportOriValiant net my_id route inport inport_dirn s
  | CUSTOM_ => keepRoute route outportComputeCustom
  | OtherAlgorithm _ => keepRoute route (lookupRoutingTable net (vnet route) (net_dest route) s)
  end.

Definition outportCompute (net : NetParams) (my_id curTick : Z) (route : RouteInfo) (inport : Z)
    (inport_dirn : PortDirection) (s : RState) : res (Z * RouteInfo * RState) :=
  if dest_router route =? my_id then
    keepRoute route (lookupRoutingTable net (vnet route) (net_dest route) s)
  else
    '(o, route, s) ← dispatch net my_id curTick route inport inport_dirn s;
    s ← countRoute my_id s;
    _ ← assert (negb (o =? -1));
    Ok (o, route, s).

End routing.
