(* ===== verification/Mesh.v ===== *)
(** * Mesh: the mesh topology and packets crossing it

    The internal links of configs/topologies/Mesh_XY.py, the port maps
    they give every router's [RoutingUnit], and the walk of a packet:
    each router on its way runs [outportCompute] and the packet follows
    the link behind the chosen output port.  The lemmas reduce a walk to
    what [outportCompute] does at one router. *)

From S2P Require Import Prelude NetDest CommonTypes RoutingUnit.

(** ** The topology *)

Record IntLink := mkIntLink {
  src_node : Z;
  dst_node : Z;
  src_outport : PortDirection;
  dst_inport : PortDirection;
  weight : Z;
}.

Definition range (n : Z) : list Z := Z.of_nat <$> seq 0 (Z.to_nat n).

(** The four loops of [makeTopology] over rows and columns. *)
Definition mesh_links (num_rows num_columns : Z) : list IntLink :=
  (row ← range num_rows; col ← range num_columns;
   if col + 1 <? num_columns
   then [mkIntLink (col + row * num_columns) ((col + 1) + row * num_columns) "East" "West" 1]
   else []) ++
  (row ← range num_rows; col ← range num_columns;
   if col + 1 <? num_columns
   then [mkIntLink ((col + 1) + row * num_columns) (col + row * num_columns) "West" "East" 1]
   else []) ++
  (col ← range num_columns; row ← range num_rows;
   if row + 1 <? num_rows
   then [mkIntLink (col + row * num_columns) (col + (row + 1) * num_columns) "North" "South" 2]
   else []) ++
  (col ← range num_columns; row ← range num_rows;
   if row + 1 <? num_rows
   then [mkIntLink (col + (row + 1) * num_columns) (col + row * num_columns) "South" "North" 2]
   else []).

(** An output port of a router: towards a network interface ([None]) or
    to an input port, of some direction, of another router. *)
Record OutPort := mkOutPort {
  p_outport : PortDirection;
  p_link : option (Z * Z * PortDirection);
}.

(** The output ports [ps] of router [r] are its links in the mesh, in any
    order, and ports of direction "Local". *)
Definition mesh_router (R C r : Z) (ps : list OutPort) : Prop :=
  Forall (fun p => match p_link p with
    | None => p_outport p = "Local"
    | Some (dst, _, dn) =>
        Exists (fun l => src_node l = r /\ dst_node l = dst /\
                         src_outport l = p_outport p /\ dst_inport l = dn) (mesh_links R C)
    end) ps /\
  Forall (fun l => src_node l = r ->
    Exists (fun p => p_outport p = src_outport l) ps) (mesh_links R C).

Definition is_mesh (R C : Z) (ports : list (list OutPort)) : Prop :=
  zlength ports = R * C /\
  Forall (fun rp => mesh_router R C (fst rp) (snd rp)) (zip (range (R * C)) ports).

(** [Router::addOutPort] numbers the ports in the order they are added. *)
Definition add_ports (ps : list OutPort) (u : RoutingUnit) : RoutingUnit :=
  foldl (fun u ip => addOutDirection (p_outport (snd ip)) (fst ip) u) u
        (zip (range (zlength ps)) ps).

(** ** The walk *)

(** The routing state of all routers. *)
Record NState := mkNState { units : list RoutingUnit; ncnt : Counters; nrng : Rng }.

(** Where a packet is: router, input port and its direction. *)
Record Pos := mkPos { at_router : Z; at_inport : Z; at_dirn : PortDirection }.

(** How a walk ends: at the destination router, through a local port of
    another router, or with the packet still in flight.  The list holds
    the routers entered on the way. *)
Inductive outcome :=
| Arrived (path : list Z) (st : NState)
| LeftEarly (path : list Z) (st : NState)
| InFlight (path : list Z) (st : NState).

Definition path_of (o : outcome) : list Z :=
  match o with Arrived p _ | LeftEarly p _ | InFlight p _ => p end.

Definition visit (r : Z) (o : outcome) : outcome :=
  match o with
  | Arrived p st => Arrived (r :: p) st
  | LeftEarly p st => LeftEarly (r :: p) st
  | InFlight p st => InFlight (r :: p) st
  end.

Section walk.
Variable net : NetParams.
Variable ports : list (list OutPort).
Variable tick : Z.

(** One router: route computation, then the link behind the port. *)
Definition hop (pos : Pos) (route : RouteInfo) (st : NState)
    : res (option Pos * RouteInfo * NState) :=
  u ← vget (units st) (at_router pos);
  '(o, route, s) ← outportCompute net (at_router pos) tick route (at_inport pos) (at_dirn pos)
                     (mkRState u (ncnt st) (nrng st));
  us ← vset (units st) (at_router pos) (ru s);
  ps ← vget ports (at_router pos);
  p ← vget ps o;
  Ok (match p_link p with
      | None => None
      | Some (dst, i, dn) => Some (mkPos dst i dn)
      end, route, mkNState us (cnt s) (rng s)).

(** Until the destination router is reached. *)
Fixpoint walk (fuel : nat) (pos : Pos) (route : RouteInfo) (st : NState) : res outcome :=
  if dest_router route =? at_router pos then Ok (Arrived [] st)
  else
    match fuel with
    | O => Ok (InFlight [] st)
    | S fuel' =>
        '(next, route, st) ← hop pos route st;
        match next : option Pos with
        | None => Ok (LeftEarly [] st)
        | Some pos' => o ← walk fuel' pos' route st; Ok (visit (at_router pos') o)
        end
    end.

End walk.

(** ** Geometry of the mesh *)

Notation coord := (Z * Z)%type.

Definition id_of (C : Z) (p : coord) : Z := p.1 + p.2 * C.

Definition in_mesh (R C : Z) (p : coord) : Prop := 0 <= p.1 < C /\ 0 <= p.2 < R.

Definition mesh_dirs : list PortDirection := ["East"; "West"; "North"; "South"].

Definition move (d : PortDirection) (p : coord) : coord :=
  if bool_decide (d = "East") then (p.1 + 1, p.2)
  else if bool_decide (d = "West") then (p.1 - 1, p.2)
  else if bool_decide (d = "North") then (p.1, p.2 + 1)
  else (p.1, p.2 - 1).

Definition opposite (d : PortDirection) : PortDirection :=
  if bool_decide (d = "East") then "West"
  else if bool_decide (d = "West") then "East"
  else if bool_decide (d = "North") then "South"
  else "North".

(** Number of hops between two routers. *)
Definition dist (p q : coord) : Z := Z.abs (q.1 - p.1) + Z.abs (q.2 - p.2).

(** The first hop of dimension-order routing. *)
Definition xy_dir (p t : coord) : PortDirection :=
  if p.1 <? t.1 then "East" else if t.1 <? p.1 then "West"
  else if p.2 <? t.2 then "North" else "South".

(** The numbers after [a] up to [b], upwards or downwards. *)
Definition zsteps (a b : Z) : list Z :=
  (fun i => if a <=? b then a + 1 + i else a - 1 - i) <$> range (Z.abs (b - a)).

(** The routers of the dimension-order path: first along the row, then
    along the column of the target. *)
Definition xy_path (p t : coord) : list coord :=
  ((fun x => (x, p.2)) <$> zsteps p.1 t.1) ++ ((fun y => (t.1, y)) <$> zsteps p.2 t.2).

Definition ids (C : Z) (l : list coord) : list Z := id_of C <$> l.

(** A routing unit knows a port for every direction of its router. *)
Definition wired (u : RoutingUnit) (ps : list OutPort) : Prop :=
  forall p, p ∈ ps -> exists i q, m_outports_dirn2idx u !! p_outport p = Some i /\
    vget ps i = Ok q /\ p_outport q = p_outport p.

Definition net_ok (ports : list (list OutPort)) (st : NState) : Prop :=
  Forall2 wired (units st) ports /\ zlength (routerr_ (ncnt st)) = MAXN.

(** *** Lemmas *)

Lemma range_elem n i : i ∈ range n <-> 0 <= i < n.
Proof.
  unfold range. rewrite list_elem_of_fmap. split.
  - intros (k & -> & Hk%elem_of_seq). lia.
  - intros Hi. exists (Z.to_nat i). rewrite elem_of_seq. lia.
Qed.

Lemma range_length n : length (range n) = Z.to_nat n.
Proof. unfold range. by rewrite length_fmap, length_seq. Qed.

Lemma range_lookup n i : (i < Z.to_nat n)%nat -> range n !! i = Some (Z.of_nat i).
Proof.
  intros Hi. unfold range. rewrite list_lookup_fmap, lookup_seq_lt by done. reflexivity.
Qed.

Lemma id_of_inj R C p q : in_mesh R C p -> in_mesh R C q -> id_of C p = id_of C q -> p = q.
Proof.
  destruct p as [x y], q as [x' y']. unfold in_mesh, id_of. simpl. intros Hp Hq Heq.
  assert (y = y') by nia. f_equal; nia.
Qed.

Lemma id_of_rem R C p : in_mesh R C p -> Z.rem (id_of C p) C = p.1.
Proof.
  destruct p as [x y]. unfold in_mesh, id_of. simpl. intros Hp.
  rewrite Z.rem_mod_nonneg by nia. rewrite Z.mod_add by lia. apply Z.mod_small; lia.
Qed.

Lemma id_of_quot R C p : in_mesh R C p -> Z.quot (id_of C p) C = p.2.
Proof.
  destruct p as [x y]. unfold in_mesh, id_of. simpl. intros Hp.
  rewrite Z.quot_div_nonneg by nia. rewrite Z.div_add by lia.
  rewrite Z.div_small by lia. lia.
Qed.

Lemma id_of_range R C p : in_mesh R C p -> 0 <= id_of C p < R * C.
Proof. destruct p as [x y]. unfold in_mesh, id_of. simpl. nia. Qed.

Lemma id_of_surj R C i : 0 < C -> 0 <= i < R * C -> exists p, in_mesh R C p /\ i = id_of C p.
Proof.
  intros HC Hi. exists (i mod C, i / C). unfold in_mesh, id_of; simpl.
  pose proof (Z.mod_pos_bound i C HC). pose proof (Z.div_mod i C ltac:(lia)).
  split; [|lia]. split; [lia|]. split; [apply Z.div_pos; lia|].
  apply Z.div_lt_upper_bound; lia.
Qed.

(** Links of the mesh go from a router to its neighbour and arrive at the
    opposite side, and every router has its links. *)
Lemma mesh_links_sound R C l :
  l ∈ mesh_links R C -> exists p, in_mesh R C p /\ in_mesh R C (move (src_outport l) p) /\
    src_outport l ∈ mesh_dirs /\ src_node l = id_of C p /\
    dst_node l = id_of C (move (src_outport l) p) /\ dst_inport l = opposite (src_outport l).
Proof.
  unfold mesh_links. rewrite !elem_of_app, !list_elem_of_bind.
  intros [(a & Ha & Hr')|[(a & Ha & Hr')|[(a & Ha & Hr')|(a & Ha & Hr')]]];
    apply list_elem_of_bind in Ha as (b & Hb & Hr);
    apply range_elem in Hr, Hr'; case_match; [|by apply not_elem_of_nil in Hb| |
      by apply not_elem_of_nil in Hb| |by apply not_elem_of_nil in Hb| |
      by apply not_elem_of_nil in Hb];
    apply list_elem_of_singleton in Hb as ->; simpl;
    [exists (b, a)|exists (b + 1, a)|exists (a, b)|exists (a, b + 1)];
    unfold in_mesh, id_of, move, mesh_dirs; simpl;
    (repeat split; try lia); set_solver.
Qed.

Lemma mesh_links_complete R C p d :
  in_mesh R C p -> in_mesh R C (move d p) -> d ∈ mesh_dirs ->
  exists l, l ∈ mesh_links R C /\ src_node l = id_of C p /\ src_outport l = d.
Proof.
  destruct p as [x y]. unfold mesh_dirs, in_mesh, id_of. intros Hp Hm Hd.
  rewrite !elem_of_cons, elem_of_nil in Hd.
  destruct Hd as [->|[->|[->|[->|[]]]]]; unfold move in Hm; simpl in *;
    [exists (mkIntLink (x + y * C) ((x + 1) + y * C) "East" "West" 1)
    |exists (mkIntLink ((x - 1 + 1) + y * C) (x - 1 + y * C) "West" "East" 1)
    |exists (mkIntLink (x + y * C) (x + (y + 1) * C) "North" "South" 2)
    |exists (mkIntLink (x + (y - 1 + 1) * C) (x + (y - 1) * C) "South" "North" 2)];
    (split; [|simpl; split; [f_equal; lia|done]]);
    unfold mesh_links; rewrite !elem_of_app, !list_elem_of_bind;
    [left; exists y|right; left; exists y|right; right; left; exists x|right; right; right; exists x];
    rewrite range_elem, list_elem_of_bind; (split; [|lia]);
    [exists x|exists (x - 1)|exists y|exists (y - 1)];
    rewrite range_elem; (split; [|lia]);
    (rewrite (proj2 (Z.ltb_lt _ _)) by lia); by apply list_elem_of_singleton.
Qed.

Lemma range_snoc n : 0 <= n -> range (n + 1) = range n ++ [n].
Proof.
  intros Hn. unfold range. rewrite Z2Nat.inj_add, Nat.add_1_r, seq_S, fmap_app by lia.
  simpl. do 2 f_equal. lia.
Qed.

Lemma add_ports_snoc ps p u :
  add_ports (ps ++ [p]) u = addOutDirection (p_outport p) (zlength ps) (add_ports ps u).
Proof.
  unfold add_ports. replace (zlength (ps ++ [p])) with (zlength ps + 1)
    by (unfold zlength; rewrite length_app; simpl; lia).
  rewrite range_snoc by apply zlength_nonneg. unfold zlength.
  rewrite zip_with_app by (rewrite range_length; lia).
  by rewrite foldl_app.
Qed.

Lemma vget_app_l {A} (l l' : list A) i x : vget l i = Ok x -> vget (l ++ l') i = Ok x.
Proof. rewrite !vget_Ok. intros [? ?]. split; [done|]. by apply lookup_app_l_Some. Qed.

(** Adding the output ports wires the unit. *)
Lemma add_ports_wired ps u : wired (add_ports ps u) ps.
Proof.
  induction ps as [|p ps IH] using rev_ind; [intros p Hp; by apply not_elem_of_nil in Hp|].
  rewrite add_ports_snoc. intros q Hq. simpl.
  destruct (decide (p_outport q = p_outport p)) as [Heq|Hne].
  - exists (zlength ps), p. rewrite Heq, lookup_insert_eq. split; [done|]. split; [|done].
    apply vget_nat, list_lookup_middle. done.
  - apply elem_of_app in Hq as [Hq|Hq%list_elem_of_singleton]; [|congruence].
    destruct (IH q Hq) as (i & q' & Hi & Hv & Ho). exists i, q'.
    rewrite lookup_insert_ne by congruence. auto using vget_app_l.
Qed.

Section mesh.
Context (R C : Z) (ports : list (list OutPort)) (Hmesh : is_mesh R C ports).

Lemma mesh_ports_at r ps : 0 <= r < R * C -> vget ports r = Ok ps -> mesh_router R C r ps.
Proof.
  intros Hr [_ Hps]%vget_Ok. destruct Hmesh as [_ Hall].
  rewrite Forall_lookup in Hall. apply (Hall (Z.to_nat r) (r, ps)).
  apply lookup_zip_Some. split; [|done]. simpl. rewrite range_lookup by lia. f_equal. lia.
Qed.

(** The port for a direction that stays in the mesh leads to the neighbour. *)
Lemma mesh_port p d ps u :
  in_mesh R C p -> in_mesh R C (move d p) -> d ∈ mesh_dirs ->
  vget ports (id_of C p) = Ok ps -> wired u ps ->
  exists o q i, m_outports_dirn2idx u !! d = Some o /\ vget ps o = Ok q /\
    p_link q = Some (id_of C (move d p), i, opposite d).
Proof.
  intros Hp Hm Hd Hps Hw.
  destruct (mesh_ports_at _ _ (id_of_range _ _ _ Hp) Hps) as [Hsound Hcompl].
  destruct (mesh_links_complete _ _ _ _ Hp Hm Hd) as (l & Hl & Hsrc & Hout).
  eapply list.Forall_forall in Hcompl; [|exact Hl].
  apply list.Exists_exists in Hcompl as (q0 & Hq0 & Ho0); [|done].
  destruct (Hw q0 Hq0) as (o & q & Ho & Hv & Hq). rewrite Ho0, Hout in Ho, Hq.
  assert (Hin : q ∈ ps) by (apply vget_Ok in Hv as [_ Hv]; by eapply list_elem_of_lookup_2).
  eapply list.Forall_forall in Hsound; [|exact Hin]. rewrite Hq in Hsound.
  destruct (p_link q) as [[[dst i] dn]|] eqn:Hlink.
  2:{ subst d. rewrite Hsound in Hd. unfold mesh_dirs in Hd. set_solver. }
  apply list.Exists_exists in Hsound as (l' & Hl' & Hs' & Hd' & Hout' & Hin').
  apply mesh_links_sound in Hl' as (p' & Hp' & _ & _ & Hid' & Hdst' & Hopp').
  rewrite Hs' in Hid'. apply (id_of_inj R C) in Hid' as <-; [|done|done].
  rewrite Hout' in Hdst', Hopp'. exists o, q, i. repeat split; [done..|]. congruence.
Qed.

Lemma wired_same u u' ps :
  m_outports_dirn2idx u' = m_outports_dirn2idx u -> wired u ps -> wired u' ps.
Proof. intros Heq Hw p Hp. rewrite Heq. by apply Hw. Qed.

Lemma net_ok_at st r :
  net_ok ports st -> 0 <= r < R * C ->
  exists u ps, vget (units st) r = Ok u /\ vget ports r = Ok ps /\ wired u ps.
Proof.
  intros [Hw _] Hr. destruct Hmesh as [Hlen _].
  destruct (vget_range ports r ltac:(lia)) as [ps Hps].
  pose proof (proj1 (vget_Ok _ _ _) Hps) as [_ Hl].
  destruct (Forall2_lookup_r _ _ _ _ _ Hw Hl) as (u & Hu & Hwu).
  exists u, ps. split; [apply vget_Ok; auto with lia|]. auto.
Qed.

Lemma net_ok_upd st r u ps u' c g :
  net_ok ports st -> vget (units st) r = Ok u -> vget ports r = Ok ps -> wired u ps ->
  m_outports_dirn2idx u' = m_outports_dirn2idx u -> zlength (routerr_ c) = MAXN ->
  net_ok ports (mkNState (<[Z.to_nat r := u']> (units st)) c g).
Proof.
  intros [Hw _] [_ Hu]%vget_Ok [_ Hps]%vget_Ok Hwu Heq Hc. split; [|done]. simpl.
  rewrite <- (list_insert_id ports (Z.to_nat r) ps Hps).
  apply Forall2_insert; [done|]. by eapply wired_same.
Qed.

(** *** The dimension-order path *)

Lemma range_cons n : 0 < n -> range n = 0 :: ((fun i => 1 + i) <$> range (n - 1)).
Proof.
  intros Hn. unfold range. replace (Z.to_nat n) with (S (Z.to_nat (n - 1))) by lia.
  cbn [seq]. rewrite fmap_cons. f_equal. rewrite <- seq_shift.
  rewrite <- !list_fmap_compose. apply list_fmap_ext. intros k x _. simpl. lia.
Qed.

Lemma zsteps_refl a : zsteps a a = [].
Proof. unfold zsteps. by rewrite Z.sub_diag. Qed.

Lemma zsteps_up a b : a < b -> zsteps a b = (a + 1) :: zsteps (a + 1) b.
Proof.
  intros Hab. unfold zsteps. rewrite (proj2 (Z.leb_le a b)), (proj2 (Z.leb_le (a + 1) b)) by lia.
  rewrite range_cons by lia. rewrite fmap_cons. f_equal; [lia|].
  rewrite <- list_fmap_compose. replace (Z.abs (b - a) - 1) with (Z.abs (b - (a + 1))) by lia.
  apply list_fmap_ext. intros k x _. simpl. lia.
Qed.

Lemma zsteps_down a b : b < a -> zsteps a b = (a - 1) :: zsteps (a - 1) b.
Proof.
  intros Hab. destruct (decide (a - 1 = b)) as [<-|Hne].
  { rewrite zsteps_refl. unfold zsteps. rewrite (proj2 (Z.leb_gt _ _)) by lia.
    replace (Z.abs (a - 1 - a)) with 1 by lia. simpl. f_equal. lia. }
  unfold zsteps. rewrite (proj2 (Z.leb_gt a b)), (proj2 (Z.leb_gt (a - 1) b)) by lia.
  rewrite range_cons by lia. rewrite fmap_cons. f_equal; [lia|].
  rewrite <- list_fmap_compose. replace (Z.abs (b - a) - 1) with (Z.abs (b - (a - 1))) by lia.
  apply list_fmap_ext. intros k x _. simpl. lia.
Qed.

Lemma zsteps_length a b : length (zsteps a b) = Z.to_nat (Z.abs (b - a)).
Proof. unfold zsteps. by rewrite length_fmap, range_length. Qed.

Lemma xy_path_length p t : Z.of_nat (length (xy_path p t)) = dist p t.
Proof. unfold xy_path, dist. rewrite length_app, !length_fmap, !zsteps_length. lia. Qed.

Lemma xy_path_refl p : xy_path p p = [].
Proof. unfold xy_path. by rewrite !zsteps_refl. Qed.

(** Case analysis on the first hop. *)
Ltac xy_cases p t :=
  destruct p as [?x ?y], t as [?tx ?ty]; unfold xy_dir, move in *; simpl in *;
  repeat (case_match; simpl in *); rewrite ?Z.ltb_lt, ?Z.ltb_ge in *.

Lemma xy_path_cons p t :
  p <> t -> xy_path p t = move (xy_dir p t) p :: xy_path (move (xy_dir p t) p) t.
Proof.
  intros Hne. unfold xy_path. xy_cases p t; try (exfalso; apply Hne; f_equal; lia).
  - by rewrite (zsteps_up x tx).
  - by rewrite (zsteps_down x tx).
  - replace tx with x by lia. by rewrite zsteps_refl, (zsteps_up y ty).
  - assert (x = tx) as -> by lia. rewrite zsteps_refl, (zsteps_down y ty); [done|].
    assert (y <> ty) by congruence. lia.
Qed.

Lemma xy_dist p t : p <> t -> dist (move (xy_dir p t) p) t = dist p t - 1.
Proof.
  intros Hne. unfold dist. xy_cases p t; try lia.
  assert (y <> ty \/ x <> tx) by (destruct (decide (y = ty)); [right; intros ->; congruence|by left]).
  lia.
Qed.

Lemma xy_in p t : in_mesh R C p -> in_mesh R C t -> p <> t -> in_mesh R C (move (xy_dir p t) p).
Proof.
  intros Hp Ht Hne. unfold in_mesh in *. xy_cases p t; try lia.
  assert (y <> ty \/ x <> tx) by (destruct (decide (y = ty)); [right; intros ->; congruence|by left]).
  lia.
Qed.

Lemma xy_dir_in p t : xy_dir p t ∈ mesh_dirs.
Proof. clear Hmesh ports R C. unfold xy_dir, mesh_dirs. repeat case_match; set_solver. Qed.

Lemma zsteps_elem a b i : i ∈ zsteps a b -> Z.min a b <= i <= Z.max a b.
Proof.
  unfold zsteps. rewrite list_elem_of_fmap. intros (k & -> & Hk%range_elem).
  destruct (Z.leb_spec a b); lia.
Qed.

Lemma xy_path_elem p t q : q ∈ xy_path p t ->
  (q.2 = p.2 /\ Z.min p.1 t.1 <= q.1 <= Z.max p.1 t.1) \/
  (q.1 = t.1 /\ Z.min p.2 t.2 <= q.2 <= Z.max p.2 t.2).
Proof.
  unfold xy_path. rewrite elem_of_app, !list_elem_of_fmap.
  intros [(x & -> & Hx%zsteps_elem)|(y & -> & Hy%zsteps_elem)]; simpl; auto.
Qed.

Lemma xy_path_in p t : in_mesh R C p -> in_mesh R C t -> Forall (in_mesh R C) (xy_path p t).
Proof.
  intros Hp Ht. apply list.Forall_forall. intros q Hq%xy_path_elem. unfold in_mesh in *. lia.
Qed.

(** A target on the path to [t] is reached by the same hops. *)
Lemma xy_on_path p t d :
  d ∈ xy_path p t -> p <> d ->
  xy_dir p d = xy_dir p t /\ (move (xy_dir p t) p = d \/ d ∈ xy_path (move (xy_dir p t) p) t).
Proof.
  intros Hd Hne. split.
  - apply xy_path_elem in Hd. destruct p as [x y], t as [tx ty], d as [dx dy].
    simpl in *. assert (x <> dx \/ y <> dy)
      by (destruct (decide (x = dx)); [right; intros ->; congruence|by left]).
    unfold xy_dir. simpl.
    repeat match goal with |- context [?a <? ?b] => destruct (Z.ltb_spec a b) end;
      first [done | lia].
  - destruct (decide (p = t)) as [->|Hpt].
    { rewrite xy_path_refl in Hd. by apply not_elem_of_nil in Hd. }
    rewrite xy_path_cons in Hd by done. apply elem_of_cons in Hd as [->|Hd]; auto.
Qed.

Lemma dist_0 p t : dist p t = 0 -> p = t.
Proof. destruct p, t. unfold dist. simpl. intros. f_equal; lia. Qed.

Context (net : NetParams) (tick : Z).

(** A route computation that takes direction [d], leaves the port maps
    alone and returns a route with [Q]. *)
Definition takes (d : PortDirection) (Q : RouteInfo -> Prop) (s : RState)
    (m : res (Z * RouteInfo * RState)) : Prop :=
  safe m (fun '(o, rt, s') =>
    m_outports_dirn2idx (ru s') = m_outports_dirn2idx (ru s) /\
    m_outports_dirn2idx (ru s) !! d = Some o /\
    zlength (routerr_ (cnt s')) = MAXN /\ Q rt).

(** A unit that has a port for [d]. *)
Definition has_port (s : RState) (d : PortDirection) : Prop :=
  zlength (routerr_ (cnt s)) = MAXN /\
  exists o, m_outports_dirn2idx (ru s) !! d = Some o /\ 0 <= o.

Lemma hop_takes p d Q i dn rt st :
  net_ok ports st -> in_mesh R C p -> in_mesh R C (move d p) -> d ∈ mesh_dirs ->
  (forall s, has_port s d -> rng s = nrng st ->
    takes d Q s (outportCompute net (id_of C p) tick rt i dn s)) ->
  safe (hop net ports tick (mkPos (id_of C p) i dn) rt st) (fun '(next, rt', st') =>
    (exists i', next = Some (mkPos (id_of C (move d p)) i' (opposite d))) /\
    Q rt' /\ net_ok ports st').
Proof.
  intros Hok Hp Hm Hd Ht. unfold hop. simpl at_router. simpl at_inport. simpl at_dirn.
  destruct (net_ok_at st _ Hok (id_of_range _ _ _ Hp)) as (u & ps & Hu & Hps & Hw).
  destruct (mesh_port _ _ _ _ Hp Hm Hd Hps Hw) as (o & q & i' & Ho & Hv & Hlink).
  specialize (Ht (mkRState u (ncnt st) (nrng st))).
  rewrite Hu, Hps. cbn [mbind res_bind]. apply safe_bind. eapply safe_mono.
  { apply Ht; [|done]. split; [apply Hok|]. exists o.
    split; [done|]. by apply vget_Ok in Hv as [? _]. }
  intros [[o' rt'] s'] (Heq & Ho' & Hc & HQ). simpl in Heq, Ho'.
  rewrite Ho in Ho'. injection Ho' as <-.
  apply safe_bind, safe_vset; [by apply vget_bound in Hu|].
  cbn [mbind res_bind]. rewrite Hv. cbn [mbind res_bind]. simpl. rewrite Hlink.
  split; [eauto|]. split; [done|]. by eapply net_ok_upd.
Qed.

(** A leg of a walk: as long as the routing follows the dimension-order
    path towards [t] and does not meet the destination, the walk reaches
    [t] along that path. *)
Definition visits (l : list Z) (m : res outcome) : res outcome :=
  foldr (fun r m => o ← m; Ok (visit r o)) m l.

Definition follows (t : coord) (P : coord -> PortDirection -> RouteInfo -> Prop) (d_id : Z) : Prop :=
  forall p dn rt i s, in_mesh R C p -> p <> t -> P p dn rt -> dest_router rt = d_id ->
    id_of C p <> d_id -> has_port s (xy_dir p t) ->
    takes (xy_dir p t)
      (fun rt' => P (move (xy_dir p t) p) (opposite (xy_dir p t)) rt' /\ dest_router rt' = d_id)
      s (outportCompute net (id_of C p) tick rt i dn s).

Lemma walk_leg t P d_id n : in_mesh R C t -> follows t P d_id ->
  forall p dn rt i st, Z.of_nat n = dist p t -> in_mesh R C p -> P p dn rt ->
    dest_router rt = d_id -> net_ok ports st ->
    Forall (fun q => q = t \/ id_of C q <> d_id) (p :: xy_path p t) ->
    exists dn' i' rt' st', P t dn' rt' /\ dest_router rt' = d_id /\ net_ok ports st' /\
      forall k, walk net ports tick (n + k) (mkPos (id_of C p) i dn) rt st =
        visits (ids C (xy_path p t)) (walk net ports tick k (mkPos (id_of C t) i' dn') rt' st').
Proof.
  intros Ht Hf. induction n as [|n IH]; intros p dn rt i st Hn Hp HP Hd Hok Hall.
  { symmetry in Hn. apply dist_0 in Hn as <-. exists dn, i, rt, st.
    rewrite xy_path_refl. by split_and!. }
  destruct (decide (p = t)) as [->|Hne].
  { unfold dist in Hn. lia. }
  rewrite xy_path_cons in Hall |- * by done. apply list.Forall_cons in Hall as [[?|Hnd] Hall]; [done|].
  pose proof (hop_takes p (xy_dir p t) _ i dn rt st Hok Hp (xy_in _ _ Hp Ht Hne)
    (xy_dir_in p t) (fun s Hs _ => Hf p dn rt i s Hp Hne HP Hd Hnd Hs)) as Hhop.
  apply safe_inv in Hhop as ([[next rt'] st'] & Hhop & (i' & ->) & (HP' & Hd') & Hok').
  destruct (IH _ _ _ i' st' ltac:(rewrite xy_dist by done; lia) (xy_in _ _ Hp Ht Hne)
    HP' Hd' Hok' Hall) as (dn2 & i2 & rt2 & st2 & ? & ? & ? & Hw).
  exists dn2, i2, rt2, st2. split_and!; [done..|]. intros k. cbn [Nat.add walk].
  simpl at_router. rewrite (proj2 (Z.eqb_neq _ _)) by congruence.
  rewrite Hhop. cbn [mbind res_bind]. by rewrite Hw.
Qed.

Lemma visits_Ok l m p st :
  m = Ok (Arrived p st) -> visits l m = Ok (Arrived (l ++ p) st).
Proof. intros ->. unfold visits. induction l as [|r l IH]; [done|]. cbn [foldr]. by rewrite IH. Qed.

(** A leg that ends at the destination. *)
Lemma walk_arrives t P : in_mesh R C t -> follows t P (id_of C t) ->
  forall p dn rt i st, in_mesh R C p -> P p dn rt -> dest_router rt = id_of C t ->
    net_ok ports st ->
    exists st', net_ok ports st' /\ forall fuel, (Z.to_nat (dist p t) <= fuel)%nat ->
      walk net ports tick fuel (mkPos (id_of C p) i dn) rt st =
        Ok (Arrived (ids C (xy_path p t)) st').
Proof.
  intros Ht Hf p dn rt i st Hp HP Hd Hok.
  destruct (walk_leg t P _ (Z.to_nat (dist p t)) Ht Hf p dn rt i st) as
    (dn' & i' & rt' & st' & _ & Hd' & Hok' & Hw); [unfold dist; lia|done..| |].
  { apply list.Forall_forall. intros q Hq. destruct (decide (q = t)); [by left|right].
    intros Heq. apply (id_of_inj R C) in Heq; [done| |done].
    apply elem_of_cons in Hq as [->|Hq]; [done|].
    by apply (proj1 (list.Forall_forall _ _) (xy_path_in p t Hp Ht)). }
  exists st'. split; [done|]. intros fuel Hfuel.
  replace fuel with (Z.to_nat (dist p t) + (fuel - Z.to_nat (dist p t)))%nat by lia.
  rewrite Hw. rewrite (visits_Ok _ _ [] st'); [by rewrite app_nil_r|].
  destruct (fuel - _)%nat; cbn [walk]; simpl at_router; by rewrite Hd', Z.eqb_refl.
Qed.

(** *** The algorithms at one router *)

Context (Hrows : getNumRows net = R) (Hcols : getNumCols net = C) (Hmax : R * C <= MAXN).

Lemma XY_dirn_spec p t :
  in_mesh R C p -> in_mesh R C t -> p <> t ->
  XY_dirn net (id_of C p) (id_of C t) = Ok (xy_dir p t).
Proof.
  intros Hp Ht Hne. unfold XY_dirn. rewrite Hrows, Hcols.
  rewrite !(id_of_rem R C), !(id_of_quot R C) by done.
  destruct p as [x y], t as [tx ty]. unfold in_mesh in *. simpl in *.
  assert (x <> tx \/ y <> ty) by (destruct (decide (x = tx)); [right; intros ->; congruence|by left]).
  rewrite (proj2 (Z.ltb_lt 0 R)), (proj2 (Z.ltb_lt 0 C)) by lia. cbn [andb assert mbind res_bind].
  unfold xy_dir. simpl.
  destruct (Z.eqb_spec (Z.abs (tx - x)) 0), (Z.eqb_spec (Z.abs (ty - y)) 0); [lia|..];
    cbn [andb negb assert mbind res_bind];
    destruct (Z.leb_spec x tx), (Z.leb_spec y ty), (Z.ltb_spec 0 (Z.abs (tx - x))),
      (Z.ltb_spec 0 (Z.abs (ty - y))), (Z.ltb_spec x tx), (Z.ltb_spec tx x), (Z.ltb_spec y ty);
    first [done | lia].
Qed.

Lemma outport_of_port s d o :
  m_outports_dirn2idx (ru s) !! d = Some o -> outport_of d s = (o, s).
Proof. unfold outport_of. by intros ->. Qed.

Lemma countRoute_safe r s :
  zlength (routerr_ (cnt s)) = MAXN -> 0 <= r < MAXN ->
  safe (countRoute r s) (fun s' => ru s' = ru s /\ rng s' = rng s /\
    zlength (routerr_ (cnt s')) = MAXN).
Proof.
  intros Hlen Hr. unfold countRoute. apply safe_bind, safe_valter; [lia|].
  intros x Hx. simpl. split_and!; [done..|]. by rewrite zlength_insert.
Qed.

(** The wrapper around the chosen algorithm. *)
Lemma outportCompute_takes p d Q rt i dn s :
  in_mesh R C p -> id_of C p <> dest_router rt -> has_port s d ->
  takes d Q s (dispatch net (id_of C p) tick rt i dn s) ->
  takes d Q s (outportCompute net (id_of C p) tick rt i dn s).
Proof.
  intros Hp Hne [_ (o & Ho & Hpos)] Ht. unfold outportCompute.
  rewrite (proj2 (Z.eqb_neq _ _)) by congruence.
  apply safe_bind. eapply safe_mono; [exact Ht|].
  intros [[o' rt'] s'] (Heq & Ho' & Hlen & HQ). apply safe_bind. pose proof (id_of_range _ _ _ Hp).
  eapply safe_mono; [apply countRoute_safe; [done|lia]|].
  intros s2 (Hru & _ & Hlen2). apply safe_bind, safe_assert.
  { rewrite Ho in Ho'. injection Ho' as <-. by destruct (Z.eqb_spec o (-1)); [lia|]. }
  simpl. rewrite Hru. auto.
Qed.

(** Dimension-order routing without the check of the input side. *)
Lemma XY_mid_takes p t rt i dn (mid : bool) s (Q : RouteInfo -> Prop) rt' :
  in_mesh R C p -> in_mesh R C t -> p <> t -> has_port s (xy_dir p t) ->
  (if mid then getInter rt else dest_router rt) = id_of C t -> Q rt' ->
  takes (xy_dir p t) Q s
    (keepRoute rt' (outportComputeXY_mid net (id_of C p) rt i dn mid s)).
Proof.
  intros Hp Ht Hne [Hlen (o & Ho & _)] Htgt HQ. unfold keepRoute, outportComputeXY_mid.
  rewrite Htgt, XY_dirn_spec by done. cbn [mbind res_bind]. rewrite (outport_of_port _ _ o) by done.
  by split_and!.
Qed.

End mesh.

(** More fuel does not change a walk that has arrived. *)
Lemma walk_mono net ports tick n k : forall pos rt st p st',
  walk net ports tick n pos rt st = Ok (Arrived p st') ->
  walk net ports tick (n + k) pos rt st = Ok (Arrived p st').
Proof.
  induction n as [|n IH]; intros pos rt st p st'.
  { destruct k; cbn [walk Nat.add]; by case_match. }
  cbn [walk Nat.add]. case_match; [done|]. intros Hw.
  apply bind_Ok in Hw as ([[[pos'|] rt'] st2] & -> & Hw); [|done].
  apply bind_Ok in Hw as (o & Hw & Ho). destruct o; try discriminate Ho.
  cbn [mbind res_bind]. by rewrite (IH _ _ _ _ _ Hw).
Qed.

(** The units of a freshly built network. *)
Definition fresh_net (ports : list (list OutPort)) (g : Rng) : NState :=
  mkNState ((fun ps => add_ports ps RoutingUnit_new) <$> ports) Counters_new g.

Lemma fresh_net_ok ports g : net_ok ports (fresh_net ports g).
Proof.
  split; [|done]. simpl. apply Forall2_fmap_l, Forall_Forall2_diag.
  apply list.Forall_forall. intros ps _. apply add_ports_wired.
Qed.

(** Some ports for every mesh: one local port, then the links. *)
Definition mesh_ports (R C : Z) : list (list OutPort) :=
  (fun r => mkOutPort "Local" None ::
    ((fun l => mkOutPort (src_outport l) (Some (dst_node l, 1, dst_inport l))) <$>
      filter (fun l => src_node l = r) (mesh_links R C))) <$> range (R * C).

Lemma mesh_ports_ok R C : 0 <= R * C -> is_mesh R C (mesh_ports R C).
Proof.
  intros Hpos. unfold mesh_ports. split.
  { unfold zlength. rewrite length_fmap, range_length. lia. }
  apply Forall_lookup. intros i [r ps] [Hr Hps]%lookup_zip_Some. simpl in *.
  rewrite list_lookup_fmap, Hr in Hps. injection Hps as <-. split.
  - apply Forall_cons; [done|]. apply Forall_fmap, list.Forall_forall.
    intros l [Hl Hin]%list_elem_of_filter. simpl. apply list.Exists_exists.
    exists l. by split_and!.
  - apply list.Forall_forall. intros l Hl Hsrc. apply Exists_cons. right.
    apply Exists_fmap, list.Exists_exists. exists l. split; [|done].
    by apply list_elem_of_filter.
Qed.
