(* ===== verification/MeshRouting.v ===== *)
(** * MeshRouting: delivery of packets in a mesh

    XY routing, west-first routing and the two Valiant detours deliver
    every packet, along the paths they should; XY routing has an acyclic
    channel dependency graph. *)

From S2P Require Import Prelude NetDest CommonTypes RoutingUnit Mesh.

(** ** Drawing from a set of options *)

Lemma options_elem n skip i : i ∈ options n skip <-> 0 <= i < n /\ i ∉ skip.
Proof. unfold options. rewrite list_elem_of_filter. fold (range n). rewrite range_elem. tauto. Qed.

Lemma range_NoDup n : NoDup (range n).
Proof. unfold range. apply NoDup_fmap_2; [intros ??; apply Nat2Z.inj|apply NoDup_seq]. Qed.

Lemma options_length n skip : n - zlength skip <= zlength (options n skip).
Proof.
  assert (Hp : range n ⊆+ skip ++ options n skip).
  { apply NoDup_submseteq; [apply range_NoDup|]. intros x Hx%range_elem.
    rewrite elem_of_app, options_elem. destruct (decide (x ∈ skip)); auto. }
  apply submseteq_length in Hp. rewrite length_app, range_length in Hp. unfold zlength. lia.
Qed.

Lemma pick_safe opts hi g (Q : Z * Rng -> Prop) :
  0 <= hi < zlength opts -> hi < 2 ^ 31 ->
  (forall o g', o ∈ opts -> Q (o, g')) -> safe (pick opts hi g) Q.
Proof.
  intros Hhi Hmx HQ. unfold pick, getMyRandom. apply safe_bind. rewrite !u64_small by lia.
  apply safe_uniform; [lia|]. intros z g' Hz. rewrite i32_small by lia.
  apply safe_bind, safe_vget; [lia|]. intros o Ho. apply HQ. by eapply list_elem_of_lookup_2.
Qed.

Section mesh.
Context (R C : Z) (ports : list (list OutPort)) (Hmesh : is_mesh R C ports).
Context (net : NetParams) (tick : Z).
Context (Hrows : getNumRows net = R) (Hcols : getNumCols net = C) (Hmax : R * C <= MAXN).

(** XY routing only ever receives packets from a side XY routing uses. *)
Definition XY_inv (t p : coord) (dn : PortDirection) (rt : RouteInfo) : Prop :=
  p <> t -> XY_inport_ok dn (xy_dir p t) = true.

Lemma XY_inv_local t p rt : XY_inv t p "Local" rt.
Proof. intros _. unfold xy_dir. by repeat case_match. Qed.

Lemma XY_inv_step t p rt :
  p <> t -> XY_inv t (move (xy_dir p t) p) (opposite (xy_dir p t)) rt.
Proof.
  intros Hne Hne'. pose proof (xy_dist p t Hne) as Hd.
  destruct p as [x y], t as [tx ty]. unfold xy_dir, dist in *. simpl in *.
  destruct (Z.ltb_spec x tx); [|destruct (Z.ltb_spec tx x); [|destruct (Z.ltb_spec y ty)]];
    simpl in *; destruct (Z.ltb_spec x tx); try lia; repeat case_match; try done;
    rewrite ?Z.ltb_lt, ?Z.ltb_ge in *; try lia;
    exfalso; apply Hne'; unfold move; simpl; f_equal; lia.
Qed.

Lemma XY_follows t :
  getRoutingAlgorithm net = 1 -> in_mesh R C t -> follows R C net tick t (XY_inv t) (id_of C t).
Proof.
  intros Halg Ht p dn rt i s Hp Hne Hinv Hd Hnd Hport.
  apply (outportCompute_takes R C); [done..|congruence|done|].
  unfold dispatch, keepRoute, outportComputeXY. rewrite Halg, Hd, (XY_dirn_spec R C) by done.
  cbn [RoutingAlgorithm_of mbind res_bind]. rewrite (Hinv Hne). cbn [assert mbind res_bind].
  destruct Hport as [Hlen (o & Ho & _)]. rewrite (outport_of_port _ _ o) by done.
  split_and!; [done..| |done]. by apply XY_inv_step.
Qed.

(** ** The Valiant detours *)

Section valiant.
Variable pickInter : NetParams -> Z -> Z -> RouteInfo -> Rng -> res (RouteInfo * Rng).
Hypothesis Hdisp : forall my rt i dn s,
  dispatch net my tick rt i dn s = valiant pickInter net my rt i dn s.

(** A packet without a tag, one on its way to the intermediate router,
    and one that has reached it. *)
Definition untagged (p : coord) (dn : PortDirection) (rt : RouteInfo) : Prop := sTag rt = 0.
Definition to_mid (mid p : coord) (dn : PortDirection) (rt : RouteInfo) : Prop :=
  sTag rt = 1 /\ inter_route rt = id_of C mid /\ passedMid rt = false.
Definition past_mid (mid p : coord) (dn : PortDirection) (rt : RouteInfo) : Prop :=
  sTag rt = 1 /\ inter_route rt = id_of C mid /\ (passedMid rt = true \/ p = mid).

Lemma untagged_follows t : in_mesh R C t -> follows R C net tick t untagged (id_of C t).
Proof.
  intros Ht p dn rt i s Hp Hne Htag Hd Hnd Hport.
  apply (outportCompute_takes R C); [done..|congruence|done|].
  rewrite Hdisp. unfold valiant, getTag. rewrite Htag. simpl.
  by apply (XY_mid_takes R C).
Qed.

Lemma to_mid_follows mid d_id :
  in_mesh R C mid -> follows R C net tick mid (to_mid mid) d_id.
Proof.
  intros Hm p dn rt i s Hp Hne (Htag & Hint & Hpas) Hd Hnd Hport.
  pose proof (id_of_range _ _ _ Hm).
  assert (id_of C mid <> id_of C p) by (intros Heq; by apply (id_of_inj R C) in Heq).
  apply (outportCompute_takes R C); [done..|congruence|done|].
  rewrite Hdisp. unfold valiant, getTag, getInter, getPassed. rewrite Htag, Hint, Hpas.
  rewrite (proj2 (Z.eqb_neq (id_of C mid) (-1))), (proj2 (Z.eqb_neq (id_of C mid) (id_of C p)))
    by lia.
  simpl. rewrite Hint, Hpas, (proj2 (Z.eqb_neq (id_of C mid) (-1))) by lia.
  by apply (XY_mid_takes R C).
Qed.

Lemma past_mid_follows mid t :
  in_mesh R C mid -> in_mesh R C t -> follows R C net tick t (past_mid mid) (id_of C t).
Proof.
  intros Hm Ht p dn rt i s Hp Hne (Htag & Hint & Hpas) Hd Hnd Hport.
  pose proof (id_of_range _ _ _ Hm).
  apply (outportCompute_takes R C); [done..|congruence|done|].
  rewrite Hdisp. unfold valiant, getTag. rewrite Htag. simpl Z.eqb. cbv iota.
  set (rt' := if _ && _ && _ then _ else _).
  assert (Hrt' : sTag rt' = 1 /\ inter_route rt' = id_of C mid /\ passedMid rt' = true /\
                 dest_router rt' = dest_router rt).
  { unfold rt', getInter, getPassed. rewrite Hint, (proj2 (Z.eqb_neq _ _)) by lia. simpl.
    destruct (passedMid rt) eqn:Hp'; [done|]. destruct Hpas as [|<-]; [done|].
    rewrite Z.eqb_refl. done. }
  clearbody rt'. destruct Hrt' as (Ht1 & Hi1 & Hp1 & Hd1).
  unfold getInter, getPassed. rewrite Hi1, Hp1, (proj2 (Z.eqb_neq _ _)) by lia.
  apply (XY_mid_takes R C); try done; [simpl; congruence|]. split; [|congruence].
  split_and!; auto.
Qed.

(** From the source: the first hop picks the intermediate router. *)
Lemma valiant_first p mid rt i dn st g :
  in_mesh R C p -> in_mesh R C mid -> p <> mid -> id_of C p <> dest_router rt ->
  sTag rt = 1 -> inter_route rt = -1 -> passedMid rt = false -> net_ok ports st ->
  pickInter net (id_of C p) (dest_router rt) rt (nrng st) = Ok (setInter (id_of C mid) rt, g) ->
  exists i' rt' st', let d := xy_dir p mid in
    to_mid mid (move d p) (opposite d) rt' /\ dest_router rt' = dest_router rt /\
    net_ok ports st' /\
    forall fuel, walk net ports tick (S fuel) (mkPos (id_of C p) i dn) rt st =
      o ← walk net ports tick fuel (mkPos (id_of C (move d p)) i' (opposite d)) rt' st';
      Ok (visit (id_of C (move d p)) o).
Proof.
  intros Hp Hm Hne Hnd Htag Hint Hpas Hok Hpick. set (d := xy_dir p mid).
  pose proof (hop_takes R C ports Hmesh net tick p d
    (fun rt' => to_mid mid (move d p) (opposite d) rt' /\ dest_router rt' = dest_router rt)
    i dn rt st Hok Hp (xy_in R C p mid Hp Hm Hne) (xy_dir_in p mid)) as Hhop.
  apply safe_inv in Hhop as ([[next rt'] st'] & Hhop & (i' & ->) & (HP & Hd) & Hok').
  - exists i', rt', st'. split_and!; [done..|]. intros fuel. cbn [walk]. simpl at_router.
    rewrite (proj2 (Z.eqb_neq _ _)) by congruence. by rewrite Hhop.
  - intros s Hport Hrng. apply (outportCompute_takes R C); [done..|].
    rewrite Hdisp. unfold valiant, getTag, getInter. rewrite Htag, Hint. simpl Z.eqb. cbv iota.
    cbn [negb andb]. rewrite Hint. simpl Z.eqb. cbv iota. rewrite Hrng, Hpick.
    cbn [mbind res_bind].
    assert (Hport' : has_port (s <| rng := g |>) d) by exact Hport.
    pose proof (XY_mid_takes R C _ Hrows Hcols p mid (setInter (id_of C mid) rt) i dn true
      (s <| rng := g |>) (fun rt' => to_mid mid (move d p) (opposite d) rt' /\
                                     dest_router rt' = dest_router rt)
      (setInter (id_of C mid) rt) Hp Hm Hne Hport' eq_refl) as Ht.
    apply Ht. by split_and!.
Qed.

(** A packet that meets its destination on the way to [mid] stops there. *)
Definition meets (mid t p : coord) (dn : PortDirection) (rt : RouteInfo) : Prop :=
  to_mid mid p dn rt /\ (p = t \/ t ∈ xy_path p mid).

Lemma meets_follows mid t :
  in_mesh R C mid -> in_mesh R C t -> follows R C net tick t (meets mid t) (id_of C t).
Proof.
  intros Hm Ht p dn rt i s Hp Hne [Hto [?|Hon]] Hd Hnd Hport; [done|].
  destruct (xy_on_path p mid t Hon Hne) as [Hdir Hmove]. rewrite Hdir in Hport |- *.
  assert (Hpm : p <> mid).
  { intros ->. rewrite xy_path_refl in Hon. by apply not_elem_of_nil in Hon. }
  pose proof (to_mid_follows mid _ Hm p dn rt i s Hp Hpm Hto Hd Hnd Hport) as Hf.
  eapply safe_mono; [exact Hf|]. intros [[o rt'] s'] (? & ? & ? & ? & ?). simpl.
  split_and!; [done..| |done]. split; [done|]. naive_solver.
Qed.

(** The path of a packet with intermediate router [mid]. *)
Definition valiant_path (p mid t : coord) : list coord :=
  if decide (t ∈ xy_path p mid) then xy_path p t else xy_path p mid ++ xy_path mid t.

Lemma ids_app l l' : ids C (l ++ l') = ids C l ++ ids C l'.
Proof. apply fmap_app. Qed.

(** After the first hop the packet completes [valiant_path]. *)
Lemma to_mid_arrives mid t p dn rt i st :
  in_mesh R C mid -> in_mesh R C t -> in_mesh R C p -> mid <> t -> p <> t ->
  to_mid mid p dn rt -> dest_router rt = id_of C t -> net_ok ports st -> t ∉ xy_path p mid ->
  exists st', net_ok ports st' /\ forall fuel,
    (Z.to_nat (dist p mid + dist mid t) <= fuel)%nat ->
    walk net ports tick fuel (mkPos (id_of C p) i dn) rt st =
      Ok (Arrived (ids C (xy_path p mid ++ xy_path mid t)) st').
Proof.
  intros Hm Ht Hp Hmt Hpt Hto Hd Hok Hnot.
  destruct (walk_leg R C ports Hmesh net tick mid (to_mid mid) _ (Z.to_nat (dist p mid)) Hm
    (to_mid_follows mid (id_of C t) Hm) p dn rt i st) as
    (dn1 & i1 & rt1 & st1 & (? & ? & ?) & Hd1 & Hok1 & Hw); [unfold dist; lia|done..| |].
  { apply list.Forall_forall. intros q Hq. right. intros Heq.
    apply (id_of_inj R C) in Heq; [set_solver| |done].
    apply elem_of_cons in Hq as [->|Hq]; [done|].
    by apply (proj1 (list.Forall_forall _ _) (xy_path_in R C p mid Hp Hm)). }
  destruct (walk_arrives R C ports Hmesh net tick t (past_mid mid) Ht
    (past_mid_follows mid t Hm Ht) mid dn1 rt1 i1 st1) as (st2 & Hok2 & Hw2); [done| |done..|].
  { split_and!; auto. }
  exists st2. split; [done|]. intros fuel Hfuel.
  assert (0 <= dist p mid /\ 0 <= dist mid t) as [? ?] by (unfold dist; lia).
  replace fuel with (Z.to_nat (dist p mid) + (fuel - Z.to_nat (dist p mid)))%nat by lia.
  rewrite Hw, ids_app. apply visits_Ok, Hw2. lia.
Qed.

Lemma valiant_delivers p mid t rt i dn st g :
  in_mesh R C p -> in_mesh R C mid -> in_mesh R C t -> p <> mid -> mid <> t -> p <> t ->
  dest_router rt = id_of C t -> sTag rt = 1 -> inter_route rt = -1 -> passedMid rt = false ->
  net_ok ports st ->
  pickInter net (id_of C p) (dest_router rt) rt (nrng st) = Ok (setInter (id_of C mid) rt, g) ->
  exists st', net_ok ports st' /\ forall fuel,
    (length (valiant_path p mid t) <= fuel)%nat ->
    walk net ports tick fuel (mkPos (id_of C p) i dn) rt st =
      Ok (Arrived (ids C (valiant_path p mid t)) st').
Proof.
  intros Hp Hm Ht Hpm Hmt Hpt Hd Htag Hint Hpas Hok Hpick.
  assert (Hpd : id_of C p <> dest_router rt).
  { rewrite Hd. intros Heq. by apply (id_of_inj R C) in Heq. }
  destruct (valiant_first p mid rt i dn st g) as (i' & rt' & st' & Hto & Hd' & Hok' & Hw);
    [done..|].
  set (d := xy_dir p mid) in *. pose proof (xy_in R C p mid Hp Hm Hpm) as Hin.
  rewrite Hd in Hd'. unfold valiant_path. destruct (decide (t ∈ xy_path p mid)) as [Hon|Hoff].
  - destruct (xy_on_path p mid t Hon Hpt) as [Hdir Hmove].
    destruct (walk_arrives R C ports Hmesh net tick t (meets mid t) Ht (meets_follows mid t Hm Ht)
      (move d p) (opposite d) rt' i' st' Hin) as (st2 & Hok2 & Hw2); [|done..|].
    { split; [done|]. naive_solver. }
    exists st2. split; [done|]. intros [|fuel].
    { rewrite xy_path_cons by done. simpl. lia. }
    rewrite xy_path_cons, Hdir by done. fold d. intros Hfuel. rewrite Hw, Hw2; [done|].
    pose proof (xy_path_length (move d p) t). simpl in Hfuel. lia.
  - rewrite (xy_path_cons p mid) in Hoff |- * by done. fold d in Hoff |- *.
    destruct (to_mid_arrives mid t (move d p) (opposite d) rt' i' st') as (st2 & Hok2 & Hw2);
      [set_solver..|].
    exists st2. split; [done|]. intros [|fuel]; [simpl; lia|]. intros Hfuel.
    rewrite Hw, Hw2; [done|]. simpl in Hfuel. rewrite length_app in Hfuel.
    pose proof (xy_path_length (move d p) mid). pose proof (xy_path_length mid t). lia.
Qed.

End valiant.

(** ** Drawing the intermediate router *)

(** Where the secure detour puts the intermediate router. *)
Definition secure_mid (p t mid : coord) : Prop :=
  if decide (p.2 = t.2) then mid.1 = p.1 /\ mid.2 <> p.2 else mid.2 = t.2 /\ mid.1 <> t.1.

Lemma pickInterSecure_safe p t rt g :
  2 <= C <= R -> in_mesh R C p -> in_mesh R C t -> p <> t ->
  safe (pickInterSecure net (id_of C p) (id_of C t) rt g) (fun '(rt', _) =>
    exists mid, in_mesh R C mid /\ secure_mid p t mid /\ rt' = setInter (id_of C mid) rt).
Proof.
  intros HC Hp Ht Hne. unfold pickInterSecure. rewrite Hrows, Hcols.
  rewrite !(id_of_rem R C), !(id_of_quot R C) by done.
  apply safe_bind, safe_assert; [by rewrite !(proj2 (Z.ltb_lt _ _)) by lia|].
  destruct p as [x y], t as [tx ty]. unfold in_mesh, secure_mid, id_of in *. simpl in *.
  unfold MAXN in Hmax.
  assert (Hlen : forall a, C - 1 <= zlength (options C [a])) 
    by (intros a; apply (options_length C [a])).
  assert (x <> tx \/ y <> ty) by (destruct (decide (x = tx)); [right; intros ->; congruence|by left]).
  destruct (Z.eqb_spec (Z.abs (tx - x)) 0), (Z.eqb_spec (Z.abs (ty - y)) 0),
    (Z.ltb_spec 0 (Z.abs (tx - x))), (Z.ltb_spec 0 (Z.abs (ty - y))); try lia; cbn [andb];
    (apply safe_bind, pick_safe; [match goal with |- context [options C [?a]] =>
      specialize (Hlen a) end; lia|nia|]);
    intros o g' [Ho Hs]%options_elem; simpl; rewrite elem_of_cons, elem_of_nil in Hs.
  - exists (o, ty). simpl. rewrite decide_False by lia. split_and!; [lia..|tauto|].
    f_equal. lia.
  - exists (x, o). simpl. rewrite decide_True by lia. split_and!; [nia..|tauto|].
    f_equal. lia.
  - exists (o, ty). simpl. rewrite decide_False by lia. split_and!; [lia..|tauto|done].
Qed.

Lemma pickInterOri_safe p t rt g :
  3 <= R * C -> in_mesh R C p -> in_mesh R C t -> p <> t ->
  safe (pickInterOri net (id_of C p) (id_of C t) rt g) (fun '(rt', _) =>
    exists mid, in_mesh R C mid /\ mid <> p /\ mid <> t /\ rt' = setInter (id_of C mid) rt).
Proof.
  clear Hmesh ports. intros HC Hp Ht Hne. unfold pickInterOri. rewrite Hrows, Hcols, (Z.mul_comm C R).
  assert (0 < R /\ 0 < C) as [? ?] by (unfold in_mesh in *; lia).
  apply safe_bind, safe_assert; [by rewrite !(proj2 (Z.ltb_lt _ _)) by lia|].
  pose proof (id_of_range _ _ _ Hp). pose proof (id_of_range _ _ _ Ht). unfold MAXN in Hmax.
  pose proof (options_length (R * C) [id_of C p; id_of C t]) as Hlen.
  unfold zlength at 1 in Hlen. simpl in Hlen.
  apply safe_bind, pick_safe; [lia..|]. intros o g' [Ho Hs]%options_elem.
  destruct (id_of_surj R C o) as (mid & Hm & ->); [lia..|].
  exists mid. split_and!; [done|set_solver..|done].
Qed.

Lemma secure_mid_facts p t mid :
  p <> t -> secure_mid p t mid -> mid <> p /\ mid <> t /\ t ∉ xy_path p mid.
Proof.
  destruct p as [x y], t as [tx ty], mid as [mx my]. unfold secure_mid. simpl. intros Hne Hs.
  case_decide as Hy; split_and!; try (intros [= ? ?]; lia);
    intros Hin%xy_path_elem; simpl in Hin; try lia.
  assert (x <> tx) by congruence. lia.
Qed.

End mesh.

(** ** Delivery *)

(** C15: under XY routing every packet injected at any router of a
    [R] by [C] mesh built by [Mesh_XY.makeTopology] reaches its destination
    router along the dimension-order path, which has exactly as many hops as
    the routers are apart, and no assertion on its way fails. *)
Theorem XY_delivers R C ports net tick src dst i rt st fuel
    (Hmesh : is_mesh R C ports)
    (Hrows : getNumRows net = R) (Hcols : getNumCols net = C) (Hmax : R * C <= MAXN)
    (Halg : getRoutingAlgorithm net = 1)
    (Hsrc : in_mesh R C src) (Hdst : in_mesh R C dst) (Hrt : dest_router rt = id_of C dst)
    (Hst : net_ok ports st) (Hfuel : (Z.to_nat (dist src dst) <= fuel)%nat) :
  exists st', net_ok ports st' /\
    walk net ports tick fuel (mkPos (id_of C src) i "Local") rt st =
      Ok (Arrived (ids C (xy_path src dst)) st') /\
    zlength (xy_path src dst) = dist src dst.
Proof.
  destruct (walk_arrives R C ports Hmesh net tick dst (XY_inv dst) Hdst
    (XY_follows R C net tick Hrows Hcols Hmax dst Halg Hdst)
    src "Local" rt i st Hsrc (XY_inv_local _ _ _) Hrt Hst) as (st' & Hok & Hw).
  exists st'. split_and!; [done|by apply Hw|apply xy_path_length].
Qed.

(** The hypotheses of the delivery theorems hold of a real mesh. *)
Definition demo_net (alg : Z) : NetParams := mkNet 4 4 alg [].
Definition demo_route (dst tag : Z) : RouteInfo :=
  RouteInfo_new <| dest_router := dst |> <| sTag := tag |>.
Definition demo_rng : Rng := mkRng (fun n => Z.of_nat n + 5) 0.
Definition demo_state : NState := fresh_net (mesh_ports 4 4) demo_rng.

Ltac demo_hyps := first
  [ apply mesh_ports_ok; lia | apply fresh_net_ok | reflexivity | unfold in_mesh; simpl; lia
  | done | by left | lia | vm_compute; lia ].

Lemma XY_delivers_witness :
  exists st', walk (demo_net 1) (mesh_ports 4 4) 0 5 (mkPos 1 0 "Local") (demo_route 14 0) demo_state
    = Ok (Arrived [2; 6; 10; 14] st').
Proof.
  destruct (XY_delivers 4 4 (mesh_ports 4 4) (demo_net 1) 0 (1, 0) (2, 3) 0 (demo_route 14 0)
    demo_state 5) as (st' & _ & Hw & _); [demo_hyps..|].
  exists st'. exact Hw.
Defined.

(** C14: under the secure Valiant defence a tagged packet takes the
    dimension-order path to a randomly drawn intermediate router, different
    from its source and destination, and from there the dimension-order path to
    its destination.  The intermediate router is in the destination's row, or
    in the source's column when both are in one row.  This needs at least
    as many rows as columns. *)
Theorem secure_valiant_delivers R C ports net tick src dst i dn rt st
    (Hmesh : is_mesh R C ports)
    (Hrows : getNumRows net = R) (Hcols : getNumCols net = C) (Hmax : R * C <= MAXN)
    (Halg : getRoutingAlgorithm net = 6) (Hshape : 2 <= C <= R)
    (Hsrc : in_mesh R C src) (Hdst : in_mesh R C dst) (Hne : src <> dst)
    (Hrt : dest_router rt = id_of C dst)
    (Htag : sTag rt = 1) (Hint : inter_route rt = -1) (Hpas : passedMid rt = false)
    (Hst : net_ok ports st) :
  exists mid st', in_mesh R C mid /\ mid <> src /\ mid <> dst /\ secure_mid src dst mid /\
    net_ok ports st' /\
    forall fuel, dist src mid + dist mid dst <= Z.of_nat fuel ->
      walk net ports tick fuel (mkPos (id_of C src) i dn) rt st =
        Ok (Arrived (ids C (xy_path src mid ++ xy_path mid dst)) st').
Proof.
  pose proof (pickInterSecure_safe R C net Hrows Hcols Hmax src dst rt (nrng st)
    Hshape Hsrc Hdst Hne) as Hpick.
  apply safe_inv in Hpick as ([rt' g] & Hpick & mid & Hm & Hsec & ->).
  destruct (secure_mid_facts src dst mid Hne Hsec) as (Hms & Hmd & Hoff).
  destruct (valiant_delivers R C ports Hmesh net tick Hrows Hcols Hmax pickInterSecure) with
    (p := src) (mid := mid) (t := dst) (rt := rt) (i := i) (dn := dn) (st := st) (g := g)
    as (st' & Hok & Hw); try done; [|by rewrite Hrt|].
  { intros. unfold dispatch. by rewrite Halg. }
  exists mid, st'. split_and!; [done..|]. intros fuel Hfuel. unfold valiant_path in Hw.
  rewrite decide_False in Hw by done. apply Hw. rewrite length_app.
  pose proof (xy_path_length src mid). pose proof (xy_path_length mid dst). lia.
Qed.

Lemma secure_valiant_delivers_witness :
  exists mid st', mid <> (1, 0) /\ mid <> (2, 3) /\
    walk (demo_net 6) (mesh_ports 4 4) 0 12 (mkPos 1 0 "Local") (demo_route 14 1) demo_state
    = Ok (Arrived (ids 4 (xy_path (1, 0) mid ++ xy_path mid (2, 3))) st').
Proof.
  destruct (secure_valiant_delivers 4 4 (mesh_ports 4 4) (demo_net 6) 0 (1, 0) (2, 3) 0 "Local"
    (demo_route 14 1) demo_state) as (mid & st' & Hin & ? & ? & _ & _ & Hw);
    [demo_hyps..|].
  exists mid, st'. split_and!; [done..|]. apply Hw.
  destruct mid as [x y]. unfold in_mesh, dist in *. simpl in *. lia.
Defined.

(** Under the original Valiant algorithm a tagged packet is given a
    random intermediate router different from its source and destination;
    it takes the dimension-order path there and then to its destination, unless
    the destination lies on the way to the intermediate router: then it
    is delivered on the direct dimension-order path. *)
Theorem ori_valiant_delivers R C ports net tick src dst i dn rt st
    (Hmesh : is_mesh R C ports)
    (Hrows : getNumRows net = R) (Hcols : getNumCols net = C) (Hmax : R * C <= MAXN)
    (Halg : getRoutingAlgorithm net = 7) (Hshape : 3 <= R * C)
    (Hsrc : in_mesh R C src) (Hdst : in_mesh R C dst) (Hne : src <> dst)
    (Hrt : dest_router rt = id_of C dst)
    (Htag : sTag rt = 1) (Hint : inter_route rt = -1) (Hpas : passedMid rt = false)
    (Hst : net_ok ports st) :
  exists mid st', in_mesh R C mid /\ mid <> src /\ mid <> dst /\ net_ok ports st' /\
    forall fuel, zlength (valiant_path src mid dst) <= Z.of_nat fuel ->
      walk net ports tick fuel (mkPos (id_of C src) i dn) rt st =
        Ok (Arrived (ids C (valiant_path src mid dst)) st').
Proof.
  pose proof (pickInterOri_safe R C net Hrows Hcols Hmax src dst rt (nrng st)
    Hshape Hsrc Hdst Hne) as Hpick.
  apply safe_inv in Hpick as ([rt' g] & Hpick & mid & Hm & Hms & Hmd & ->).
  destruct (valiant_delivers R C ports Hmesh net tick Hrows Hcols Hmax pickInterOri) with
    (p := src) (mid := mid) (t := dst) (rt := rt) (i := i) (dn := dn) (st := st) (g := g)
    as (st' & Hok & Hw); try done; [|by rewrite Hrt|].
  { intros. unfold dispatch. by rewrite Halg. }
  exists mid, st'. split_and!; [done..|]. intros fuel Hfuel. apply Hw.
  unfold zlength in Hfuel. lia.
Qed.

Lemma ori_valiant_delivers_witness :
  exists mid st', mid <> (1, 0) /\ mid <> (2, 3) /\
    walk (demo_net 7) (mesh_ports 4 4) 0 12 (mkPos 1 0 "Local") (demo_route 14 1) demo_state
    = Ok (Arrived (ids 4 (valiant_path (1, 0) mid (2, 3))) st').
Proof.
  destruct (ori_valiant_delivers 4 4 (mesh_ports 4 4) (demo_net 7) 0 (1, 0) (2, 3) 0 "Local"
    (demo_route 14 1) demo_state) as (mid & st' & Hin & ? & ? & _ & Hw);
    [demo_hyps..|].
  exists mid, st'. split_and!; [done..|]. apply Hw. unfold valiant_path, zlength.
  pose proof (xy_path_length (1, 0) mid). pose proof (xy_path_length mid (2, 3)).
  case_decide; [by vm_compute|]. rewrite length_app.
  destruct mid as [x y]. unfold in_mesh, dist in *. simpl in *. lia.
Defined.

(** With either Valiant algorithm configured, a packet that was not
    tagged as risky takes the shortest, dimension-order path, from
    whatever side it enters. *)
Theorem untagged_delivers R C ports net tick src dst i dn rt st fuel
    (Hmesh : is_mesh R C ports)
    (Hrows : getNumRows net = R) (Hcols : getNumCols net = C) (Hmax : R * C <= MAXN)
    (Halg : getRoutingAlgorithm net = 6 \/ getRoutingAlgorithm net = 7)
    (Hsrc : in_mesh R C src) (Hdst : in_mesh R C dst) (Hrt : dest_router rt = id_of C dst)
    (Htag : sTag rt = 0) (Hst : net_ok ports st)
    (Hfuel : (Z.to_nat (dist src dst) <= fuel)%nat) :
  exists st', net_ok ports st' /\
    walk net ports tick fuel (mkPos (id_of C src) i dn) rt st =
      Ok (Arrived (ids C (xy_path src dst)) st').
Proof.
  assert (exists pick, forall my rt i dn s,
    dispatch net my tick rt i dn s = valiant pick net my rt i dn s) as [pick Hdisp].
  { destruct Halg as [Halg|Halg]; [exists pickInterSecure|exists pickInterOri];
      intros; unfold dispatch; by rewrite Halg. }
  destruct (walk_arrives R C ports Hmesh net tick dst untagged Hdst
    (untagged_follows R C net tick Hrows Hcols Hmax pick Hdisp dst Hdst)
    src dn rt i st Hsrc Htag Hrt Hst) as (st' & Hok & Hw); eauto.
Qed.

Lemma untagged_delivers_witness :
  exists st', walk (demo_net 6) (mesh_ports 4 4) 0 4 (mkPos 14 2 "East") (demo_route 1 0) demo_state
    = Ok (Arrived [13; 9; 5; 1] st').
Proof.
  destruct (untagged_delivers 4 4 (mesh_ports 4 4) (demo_net 6) 0 (2, 3) (1, 0) 2 "East"
    (demo_route 1 0) demo_state 4) as (st' & _ & Hw);
    [demo_hyps..|].
  exists st'. exact Hw.
Defined.
