(* ===== verification/WestFirst.v ===== *)
(** * WestFirst: west-first routing and its counter-based variants

    Algorithm 2 of [RoutingUnit] delivers along a shortest path without
    a turn to the west; algorithm 3 makes the same choices where it does
    not read outside its counter array; algorithm 4 goes to the
    neighbour with the least counter, wherever the destination is. *)

From S2P Require Import Prelude NetDest CommonTypes RoutingUnit Mesh MeshRouting.

(** ** Specification *)

(** A packet goes west first; otherwise any direction that brings it
    closer will do. *)
Definition west_first (p t : coord) (d : PortDirection) : Prop :=
  if p.1 <=? t.1 then
    (d = "East" /\ p.1 < t.1) \/ (d = "North" /\ p.2 < t.2) \/ (d = "South" /\ t.2 < p.2)
  else d = "West".

(** Every hop of the path [l] from [p] satisfies [S]. *)
Fixpoint chain (S : coord -> coord -> Prop) (p : coord) (l : list coord) : Prop :=
  match l with
  | [] => True
  | q :: l' => S p q /\ chain S q l'
  end.

Definition is_west (p q : coord) : Prop := q = move "West" p.

(** The turn model: a hop to the west only follows hops to the west. *)
Fixpoint no_turn_west (p : coord) (l : list coord) : Prop :=
  match l with
  | [] => True
  | q :: l' => match l' with
               | [] => True
               | r :: _ => is_west q r -> is_west p q
               end /\ no_turn_west q l'
  end.

Lemma west_first_productive R C p t d :
  in_mesh R C p -> in_mesh R C t -> west_first p t d ->
  in_mesh R C (move d p) /\ d ∈ mesh_dirs /\ dist (move d p) t = dist p t - 1.
Proof.
  destruct p as [x y], t as [tx ty]. unfold in_mesh, west_first, dist, mesh_dirs. simpl.
  intros Hp Ht Hw. destruct (Z.leb_spec x tx).
  - destruct Hw as [[-> ?]|[[-> ?]|[-> ?]]]; unfold move; simpl; (split; [lia|]);
      (split; [set_solver|lia]).
  - subst. unfold move; simpl; (split; [lia|]); (split; [set_solver|lia]).
Qed.

Lemma chain_no_turn t p l :
  chain (fun a b => exists d, west_first a t d /\ b = move d a) p l -> no_turn_west p l.
Proof.
  revert p. induction l as [|q l IH]; intros p; [done|].
  intros [(d & Hd & ->) Hc]. split; [|by apply IH].
  destruct l as [|r l]; [done|]. destruct Hc as [(d' & Hd' & ->) _]. intros Hw.
  destruct p as [x y], t as [tx ty]. unfold is_west, west_first in *. simpl in *.
  destruct (Z.leb_spec x tx); [|by subst].
  destruct Hd as [[-> ?]|[[-> ?]|[-> ?]]]; unfold move in Hd', Hw; simpl in *;
    repeat case_match; rewrite ?Z.leb_le, ?Z.leb_gt in *; simplify_eq; try lia; naive_solver lia.
Qed.

(** ** One router *)

Section mesh.
Context (R C : Z) (net : NetParams).
Context (Hrows : getNumRows net = R) (Hcols : getNumCols net = C).

Lemma offsets_spec p t :
  in_mesh R C p -> in_mesh R C t -> p <> t ->
  offsets net (id_of C p) (id_of C t) = Ok (t.1 - p.1, t.2 - p.2).
Proof.
  intros Hp Ht Hne. unfold offsets. rewrite Hrows, Hcols.
  rewrite !(id_of_rem R C), !(id_of_quot R C) by done.
  destruct p as [x y], t as [tx ty]. unfold in_mesh in *. simpl in *.
  rewrite (proj2 (Z.ltb_lt 0 R)), (proj2 (Z.ltb_lt 0 C)) by lia. cbn [andb assert mbind res_bind].
  destruct (Z.eqb_spec (tx - x) 0), (Z.eqb_spec (ty - y) 0); try done.
  exfalso. apply Hne. f_equal; lia.
Qed.

Lemma randomDirn_two i1 i2 avail g (Q : PortDirection * Rng -> Prop) :
  (dirLoop avail).1 = 2 -> twoIndices avail = (i1, i2) ->
  (forall g', Q (compute_dirn i1, g')) -> (forall g', Q (compute_dirn i2, g')) ->
  safe (randomDirn avail g) Q.
Proof.
  intros Hc Ha H1 H2. unfold randomDirn. destruct (dirLoop avail) as [n d]. simpl in Hc. subst n.
  rewrite Ha. apply safe_bind, safe_uniform; [lia|].
  intros z g' _. simpl. by destruct (Z.rem z 2 =? 0).
Qed.

Lemma randomDirn_one i avail g : dirLoop avail = (1, compute_dirn i) ->
  randomDirn avail g = Ok (compute_dirn i, g).
Proof. intros Ha. unfold randomDirn. by rewrite Ha. Qed.

(** The set of available directions, by the sign of the offsets. *)
Lemma westFirst_safe p t g :
  p <> t ->
  safe (randomDirn (westFirstSet (t.1 - p.1) (t.2 - p.2)) g) (fun '(d, _) => west_first p t d).
Proof.
  destruct p as [x y], t as [tx ty]. unfold westFirstSet, west_first. simpl. intros Hne.
  destruct (Z.ltb_spec (tx - x) 0), (Z.leb_spec x tx); try lia.
  { by rewrite (randomDirn_one 2). }
  destruct (Z.ltb_spec 0 (tx - x)), (Z.ltb_spec 0 (ty - y)), (Z.ltb_spec (ty - y) 0); try lia.
  - apply (randomDirn_two 0 1); [done|done|..]; intros; simpl; naive_solver lia.
  - apply (randomDirn_two 1 3); [done|done|..]; intros; simpl; naive_solver lia.
  - rewrite (randomDirn_one 1) by done. simpl. naive_solver lia.
  - rewrite (randomDirn_one 0) by done. simpl. naive_solver lia.
  - rewrite (randomDirn_one 3) by done. simpl. naive_solver lia.
  - exfalso. apply Hne. f_equal; lia.
Qed.

Lemma RanWestFirst_takes p t rt i dn st :
  in_mesh R C p -> in_mesh R C t -> p <> t -> dest_router rt = id_of C t ->
  exists d, west_first p t d /\ forall s, has_port s d -> rng s = nrng st ->
    takes d (eq rt) s (keepRoute rt (outportRanWestFirst net (id_of C p) rt i dn s)).
Proof.
  intros Hp Ht Hne Hd. pose proof (westFirst_safe p t (nrng st) Hne) as Hw.
  apply safe_inv in Hw as ([d g] & Hr & Hwf). exists d. split; [done|].
  intros s [Hlen (o & Ho & _)] Hrng. unfold keepRoute, outportRanWestFirst.
  rewrite Hd, offsets_spec by done. cbn [mbind res_bind]. rewrite Hrng, Hr. cbn [mbind res_bind].
  rewrite (outport_of_port _ d o) by done. by split_and!.
Qed.

End mesh.

(** A walk in which every hop brings the packet closer. *)
Lemma walk_progress R C ports net tick t (step : coord -> coord -> PortDirection -> Prop) :
  is_mesh R C ports -> in_mesh R C t ->
  (forall p d, in_mesh R C p -> step p t d ->
     in_mesh R C (move d p) /\ d ∈ mesh_dirs /\ dist (move d p) t = dist p t - 1) ->
  (forall p i dn rt st, in_mesh R C p -> p <> t -> dest_router rt = id_of C t ->
     exists d, step p t d /\ forall s, has_port s d -> rng s = nrng st ->
       takes d (eq rt) s (outportCompute net (id_of C p) tick rt i dn s)) ->
  forall n p i dn rt st, Z.of_nat n = dist p t -> in_mesh R C p ->
    dest_router rt = id_of C t -> net_ok ports st ->
    exists l st', chain (fun a b => exists d, step a t d /\ b = move d a) p l /\ length l = n /\
      net_ok ports st' /\ walk net ports tick n (mkPos (id_of C p) i dn) rt st =
        Ok (Arrived (ids C l) st').
Proof.
  intros Hmesh Ht Hprod Hstep. induction n as [|n IH]; intros p i dn rt st Hn Hp Hd Hok.
  { symmetry in Hn. apply dist_0 in Hn as ->. exists [], st. cbn [walk]. simpl at_router.
    rewrite Hd, Z.eqb_refl. by split_and!. }
  assert (Hne : p <> t) by (intros ->; unfold dist in Hn; lia).
  destruct (Hstep p i dn rt st Hp Hne Hd) as (d & Hd' & Htk).
  destruct (Hprod p d Hp Hd') as (Hin & Hdir & Hdist).
  pose proof (hop_takes R C ports Hmesh net tick p d (eq rt) i dn rt st Hok Hp Hin Hdir Htk) as Hhop.
  apply safe_inv in Hhop as ([[next rt'] st'] & Hhop & (i' & ->) & <- & Hok').
  destruct (IH _ i' (opposite d) rt st' ltac:(rewrite Hdist; lia) Hin Hd Hok') as
    (l & st2 & Hc & Hl & Hok2 & Hw).
  exists (move d p :: l), st2. split_and!; [by split; eauto|simpl; lia|done|].
  cbn [walk]. simpl at_router. rewrite (proj2 (Z.eqb_neq _ _)).
  2:{ rewrite Hd. intros Heq. by apply (id_of_inj R C) in Heq. }
  rewrite Hhop. cbn [mbind res_bind]. by rewrite Hw.
Qed.

(** C38: random west-first routing delivers every packet in exactly as
    many hops as its routers are apart, every hop is one west-first
    routing allows, and the packet never turns to the west. *)
Theorem RanWestFirst_delivers R C ports net tick src dst i dn rt st
    (Hmesh : is_mesh R C ports)
    (Hrows : getNumRows net = R) (Hcols : getNumCols net = C) (Hmax : R * C <= MAXN)
    (Halg : getRoutingAlgorithm net = 2)
    (Hsrc : in_mesh R C src) (Hdst : in_mesh R C dst) (Hrt : dest_router rt = id_of C dst)
    (Hst : net_ok ports st) :
  exists l st', chain (fun a b => exists d, west_first a dst d /\ b = move d a) src l /\
    no_turn_west src l /\ zlength l = dist src dst /\ net_ok ports st' /\
    walk net ports tick (Z.to_nat (dist src dst)) (mkPos (id_of C src) i dn) rt st =
      Ok (Arrived (ids C l) st').
Proof.
  destruct (walk_progress R C ports net tick dst west_first Hmesh Hdst) with
    (n := Z.to_nat (dist src dst)) (p := src) (i := i) (dn := dn) (rt := rt) (st := st)
    as (l & st' & Hc & Hl & Hok & Hw); [| |unfold dist; lia|done..|].
  - intros p d Hp Hd. by apply west_first_productive.
  - intros p i' dn' rt' st' Hp Hne Hd.
    destruct (RanWestFirst_takes R C net Hrows Hcols p dst rt' i' dn' st' Hp Hdst Hne Hd) as
      (d & Hwf & Htk).
    exists d. split; [done|]. intros s Hport Hrng. apply (outportCompute_takes R C); [done..| |done|].
    + rewrite Hd. intros Heq. by apply (id_of_inj R C) in Heq.
    + unfold dispatch. rewrite Halg. by apply Htk.
  - exists l, st'. split_and!; [done|by eapply chain_no_turn| |done..].
    unfold zlength. rewrite Hl. unfold dist. lia.
Qed.

Lemma RanWestFirst_delivers_witness :
  exists l st', no_turn_west (3, 0) l /\ zlength l = 5 /\
    walk (demo_net 2) (mesh_ports 4 4) 0 5 (mkPos 3 0 "Local") (demo_route 13 0) demo_state
    = Ok (Arrived (ids 4 l) st').
Proof.
  destruct (RanWestFirst_delivers 4 4 (mesh_ports 4 4) (demo_net 2) 0 (3, 0) (1, 3) 0 "Local"
    (demo_route 13 0) demo_state) as (l & st' & _ & ? & ? & _ & Hw); [demo_hyps..|].
  exists l, st'. by split_and!.
Defined.

(** ** The counter-based variants *)

Lemma readNeighbours_safe net my_id c :
  zlength (routerr_ c) = MAXN -> 0 < getNumCols net <= my_id -> my_id + getNumCols net < MAXN ->
  exists c1 c2 c3 c4, readNeighbours net my_id c = Ok (c1, c2, c3, c4).
Proof.
  intros Hlen Hlo Hhi. unfold readNeighbours, compute_neighbor_id.
  destruct (vget_range (routerr_ c) (my_id + getNumCols net) ltac:(lia)) as [? ->].
  destruct (vget_range (routerr_ c) (my_id + 1) ltac:(lia)) as [? ->].
  destruct (vget_range (routerr_ c) (my_id - 1) ltac:(lia)) as [? ->].
  destruct (vget_range (routerr_ c) (my_id - getNumCols net) ltac:(lia)) as [? ->].
  simpl. eauto.
Qed.

(** The guard on the position is always true. *)
Lemma SecTest_guard cx cy num_cols : 0 < num_cols ->
  negb (cy =? 0) || negb (cy =? num_cols) || negb (cx =? 0) || negb (cx =? num_cols) = true.
Proof. intros H. destruct (Z.eqb_spec cy 0), (Z.eqb_spec cy num_cols); simpl; try done. lia. Qed.

Lemma readNeighbours_negative net my_id c :
  my_id < getNumCols net -> readNeighbours net my_id c = Err OutOfRange.
Proof.
  intros Hneg. unfold readNeighbours.
  destruct (vget _ (compute_neighbor_id _ 0 _)) eqn:E; [clear E|by apply vget_err in E as ->].
  cbn [mbind res_bind].
  destruct (vget _ (compute_neighbor_id _ 1 _)) eqn:E; [clear E|by apply vget_err in E as ->].
  cbn [mbind res_bind].
  destruct (vget _ (compute_neighbor_id _ 2 _)) eqn:E; [clear E|by apply vget_err in E as ->].
  cbn [mbind res_bind].
  unfold vget. rewrite decide_False; [done|]. simpl. lia.
Qed.

(** Where all four neighbour numbers index the counter array, the
    security test algorithm is random west-first routing: the comparison of the
    neighbours' counters never influences the output port. *)
Theorem SecTest_is_RanWestFirst net my_id rt i dn s
    (Hlen : zlength (routerr_ (cnt s)) = MAXN)
    (Hlo : 0 < getNumCols net <= my_id) (Hhi : my_id + getNumCols net < MAXN) :
  outportSecTest net my_id rt i dn s = outportRanWestFirst net my_id rt i dn s.
Proof.
  unfold outportSecTest, outportRanWestFirst, randomDirn.
  destruct (offsets net my_id (dest_router rt)) as [[ex ey]|]; [|done]. cbn [mbind res_bind].
  destruct (dirLoop _) as [n d]. rewrite SecTest_guard by lia.
  destruct (readNeighbours_safe net my_id (cnt s) Hlen Hlo Hhi) as (? & ? & ? & ? & ->).
  destruct (n =? 2); [|done]. cbn [mbind res_bind]. by destruct (randomOf _ _) as [[]|].
Qed.

Lemma SecTest_is_RanWestFirst_witness :
  let s := mkRState RoutingUnit_new Counters_new demo_rng in
  outportSecTest (demo_net 3) 5 (demo_route 15 0) 0 "Local" s =
  outportRanWestFirst (demo_net 3) 5 (demo_route 15 0) 0 "Local" s.
Proof. apply SecTest_is_RanWestFirst; [reflexivity|simpl; lia|by vm_compute]. Defined.

(** On the bottom row a packet for a router to the north-east makes
    the security test algorithm read [routerr_] at a negative index. *)
Theorem SecTest_out_of_range R C net p t rt i dn s
    (Hrows : getNumRows net = R) (Hcols : getNumCols net = C)
    (Hp : in_mesh R C p) (Ht : in_mesh R C t) (Hrt : dest_router rt = id_of C t)
    (Hbottom : p.2 = 0) (Hx : p.1 < t.1) (Hy : 0 < t.2) :
  outportSecTest net (id_of C p) rt i dn s = Err OutOfRange.
Proof.
  unfold outportSecTest. rewrite Hrt, (offsets_spec R C) by (try done; intros ->; lia).
  cbn [mbind res_bind]. unfold westFirstSet.
  rewrite (proj2 (Z.ltb_ge _ _)), !(proj2 (Z.ltb_lt _ _)) by lia.
  rewrite SecTest_guard by (unfold in_mesh in *; lia).
  rewrite readNeighbours_negative; [done|].
  unfold id_of, in_mesh in *. destruct p; simpl in *. lia.
Qed.

Lemma SecTest_out_of_range_witness :
  outportSecTest (demo_net 3) 1 (demo_route 15 0) 0 "Local"
    (mkRState RoutingUnit_new Counters_new demo_rng) = Err OutOfRange.
Proof.
  apply (SecTest_out_of_range 4 4 (demo_net 3) (1, 0) (3, 3)); try reflexivity;
    unfold in_mesh; simpl; lia.
Defined.

#[global] Instance in_mesh_dec R C p : Decision (in_mesh R C p).
Proof. unfold in_mesh. apply _. Defined.

(** The counter of the neighbour in direction [d], or the value the code
    gives a neighbour outside the mesh. *)
Definition neighbour_count (R C : Z) (c : list Z) (p : coord) (d : PortDirection) : Z :=
  if bool_decide (in_mesh R C (move d p))
  then nth (Z.to_nat (id_of C (move d p))) c 0 else 2147483647.

Section counters.
Context (R C : Z) (p : coord) (Hp : in_mesh R C p).

(** When the code replaces a neighbour. *)
Lemma out_north : (C * R <=? id_of C p + C) = negb (bool_decide (in_mesh R C (move "North" p))).
Proof.
  destruct p as [x y]. unfold in_mesh, id_of, move in *. simpl in *.
  destruct (Z.leb_spec (C * R) (x + y * C + C)); case_bool_decide; simpl; try done; exfalso; nia.
Qed.

Lemma out_east :
  (C * R <=? id_of C p + 1) || negb (Z.quot (id_of C p + 1) C =? Z.quot (id_of C p) C) =
  negb (bool_decide (in_mesh R C (move "East" p))).
Proof.
  rewrite (id_of_quot R C) by done. case_bool_decide as Hin; simpl.
  - replace (id_of C p + 1) with (id_of C (move "East" p)) by (unfold id_of, move; simpl; lia).
    rewrite (id_of_quot R C), Z.eqb_refl by done.
    pose proof (id_of_range _ _ _ Hin). rewrite (proj2 (Z.leb_gt _ _)) by lia. done.
  - destruct p as [x y]. unfold in_mesh, id_of, move in *. simpl in *.
    replace (x + y * C + 1) with (0 + (y + 1) * C) by lia.
    rewrite Z.quot_div_nonneg, Z.div_add, Z.div_0_l by nia.
    rewrite (proj2 (Z.eqb_neq _ _)) by lia. apply orb_true_r.
Qed.

Lemma out_west :
  (id_of C p - 1 <? 0) || negb (Z.quot (id_of C p - 1) C =? Z.quot (id_of C p) C) =
  negb (bool_decide (in_mesh R C (move "West" p))).
Proof.
  rewrite (id_of_quot R C) by done. case_bool_decide as Hin; simpl.
  - replace (id_of C p - 1) with (id_of C (move "West" p)) by (unfold id_of, move; simpl; lia).
    rewrite (id_of_quot R C), Z.eqb_refl by done.
    pose proof (id_of_range _ _ _ Hin). rewrite (proj2 (Z.ltb_ge _ _)) by lia. done.
  - destruct p as [x y]. unfold in_mesh, id_of, move in *. simpl in *.
    destruct (Z.ltb_spec (x + y * C - 1) 0) as [|Hge]; [done|]. simpl.
    replace (x + y * C - 1) with ((C - 1) + (y - 1) * C) in * by lia.
    rewrite Z.quot_div_nonneg, Z.div_add, Z.div_small by lia.
    rewrite (proj2 (Z.eqb_neq _ _)) by lia. done.
Qed.

Lemma out_south : (id_of C p - C <? 0) = negb (bool_decide (in_mesh R C (move "South" p))).
Proof.
  destruct p as [x y]. unfold in_mesh, id_of, move in *. simpl in *.
  destruct (Z.ltb_spec (x + y * C - C) 0); case_bool_decide; simpl; try done; exfalso; nia.
Qed.

Context (Hsize : R * C <= 900).

(** Reading a neighbour's counter, replaced or not, from an array that
    holds the replacement value in the neighbour's slot. *)
Lemma redirect_safe c0 c d slot n :
  zlength c = MAXN -> 900 <= slot < MAXN -> (forall i, 0 <= i < 900 -> vget c i = vget c0 i) ->
  (in_mesh R C (move d p) -> n = id_of C (move d p)) ->
  safe (redirect (negb (bool_decide (in_mesh R C (move d p)))) slot n c) (fun '(n', c') =>
    zlength c' = MAXN /\ (forall i, 0 <= i -> i <> slot -> vget c' i = vget c i) /\
    vget c' n' = Ok (neighbour_count R C c0 p d) /\ (n' = slot \/ 0 <= n' < 900)).
Proof.
  unfold MAXN. intros Hlen Hslot Hsame Hn. unfold redirect, neighbour_count.
  case_bool_decide as Hin; simpl.
  - rewrite (Hn Hin). pose proof (id_of_range _ _ _ Hin).
    rewrite Hsame by lia. split_and!; [done..| |lia].
    assert (Hlen0 : exists x, vget c0 (id_of C (move d p)) = Ok x).
    { rewrite <- Hsame by lia. apply vget_range. lia. }
    destruct Hlen0 as [x Hx]. rewrite Hx. apply vget_Ok in Hx as [_ Hx].
    by rewrite (nth_lookup_Some _ _ _ _ Hx).
  - apply safe_bind, safe_vset; [lia|]. simpl. split_and!; [by rewrite zlength_insert| | |by left].
    + intros i Hi Hne. apply vget_insert_ne; lia.
    + apply vget_insert_eq. lia.
Qed.

End counters.

Lemma argmin_spec c1 c2 c3 c4 :
  let i := argmin c1 c2 c3 c4 in
  let v := Z.min (Z.min c1 c2) (Z.min c3 c4) in
  (i = 0 /\ v = c1) \/ (i = 1 /\ v = c2) \/ (i = 2 /\ v = c3) \/ (i = 3 /\ v = c4).
Proof.
  simpl. unfold argmin. repeat case_match; rewrite ?Z.eqb_eq, ?Z.eqb_neq in *; lia.
Qed.

Lemma outportTest_eval R C net p s :
  getNumRows net = R -> getNumCols net = C -> in_mesh R C p -> R * C <= 900 ->
  zlength (routerr_ (cnt s)) = MAXN ->
  let v := neighbour_count R C (routerr_ (cnt s)) p in
  exists c', forall rt i dn, outportTest net (id_of C p) rt i dn s =
    Ok (outport_of (compute_dirn (argmin (v "North") (v "East") (v "West") (v "South")))
          (s <| cnt := (cnt s) <| routerr_ := c' |> |>)).
Proof.
  intros Hrows Hcols Hp Hsize Hlen v. set (c0 := routerr_ (cnt s)) in *.
  pose proof (redirect_safe R C p Hsize c0) as Hred. unfold MAXN in *.
  destruct (safe_inv _ _ (Hred c0 "North" 900 (id_of C p + C) Hlen ltac:(lia) ltac:(done)
    ltac:(intros; unfold id_of, move; simpl; lia))) as ([n1 c1] & E1 & L1 & S1 & V1 & N1).
  destruct (safe_inv _ _ (Hred c1 "East" 901 (id_of C p + 1) L1 ltac:(lia)
    ltac:(intros; rewrite S1 by lia; done)
    ltac:(intros; unfold id_of, move; simpl; lia))) as ([n2 c2] & E2 & L2 & S2 & V2 & N2).
  destruct (safe_inv _ _ (Hred c2 "West" 902 (id_of C p - 1) L2 ltac:(lia)
    ltac:(intros; rewrite S2, S1 by lia; done)
    ltac:(intros; unfold id_of, move; simpl; lia))) as ([n3 c3] & E3 & L3 & S3 & V3 & N3).
  destruct (safe_inv _ _ (Hred c3 "South" 903 (id_of C p - C) L3 ltac:(lia)
    ltac:(intros; rewrite S3, S2, S1 by lia; done)
    ltac:(intros; unfold id_of, move; simpl; lia))) as ([n4 c4] & E4 & L4 & S4 & V4 & N4).
  exists c4. intros rt i dn. unfold outportTest. rewrite Hrows, Hcols. fold c0.
  rewrite (proj2 (Z.ltb_lt 0 R)), (proj2 (Z.ltb_lt 0 C)) by (unfold in_mesh in Hp; lia).
  cbn [andb assert mbind res_bind compute_neighbor_id].
  rewrite (out_north R C p Hp), E1. cbn [mbind res_bind].
  rewrite (out_east R C p Hp), E2. cbn [mbind res_bind].
  rewrite (out_west R C p Hp), E3. cbn [mbind res_bind].
  rewrite (out_south R C p Hp), E4. cbn [mbind res_bind].
  rewrite (S4 n1), (S3 n1), (S2 n1), V1 by lia. cbn [mbind res_bind].
  rewrite (S4 n2), (S3 n2), V2 by lia. cbn [mbind res_bind].
  rewrite (S4 n3), V3 by lia. cbn [mbind res_bind]. by rewrite V4.
Qed.

Lemma some_neighbour R C p :
  in_mesh R C p -> 2 <= R * C -> exists d, d ∈ mesh_dirs /\ in_mesh R C (move d p).
Proof.
  destruct p as [x y]. unfold in_mesh, mesh_dirs, move. simpl. intros Hp Hs.
  destruct (decide (x + 1 < C)); [exists "East"; simpl; split; [set_solver|lia]|].
  destruct (decide (0 < x)); [exists "West"; simpl; split; [set_solver|lia]|].
  destruct (decide (y + 1 < R)); [exists "North"; simpl; split; [set_solver|lia]|].
  exists "South"; simpl; split; [set_solver|]. nia.
Qed.

(** In a mesh of 2 to 900 routers whose counters are below 0x7fffffff,
    algorithm 4 sends every packet to a neighbour inside the mesh that has
    the least counter, whatever the destination and the input port are. *)
Theorem outportTest_least_counter R C net p s
    (Hrows : getNumRows net = R) (Hcols : getNumCols net = C)
    (Hp : in_mesh R C p) (Hsize : 2 <= R * C <= 900)
    (Hlen : zlength (routerr_ (cnt s)) = MAXN)
    (Hcnt : forall q, in_mesh R C q -> nth (Z.to_nat (id_of C q)) (routerr_ (cnt s)) 0 < 2147483647) :
  exists d c', in_mesh R C (move d p) /\ d ∈ mesh_dirs /\
    (forall d', d' ∈ mesh_dirs ->
       neighbour_count R C (routerr_ (cnt s)) p d <= neighbour_count R C (routerr_ (cnt s)) p d') /\
    forall rt i dn, outportTest net (id_of C p) rt i dn s =
      Ok (outport_of d (s <| cnt := (cnt s) <| routerr_ := c' |> |>)).
Proof.
  destruct (outportTest_eval R C net p s) as [c' Hc]; [done..|lia|done|].
  set (v := neighbour_count R C (routerr_ (cnt s)) p) in *.
  pose proof (argmin_spec (v "North") (v "East") (v "West") (v "South")) as Hmin.
  set (i := argmin _ _ _ _) in *. simpl in Hmin.
  assert (Hin : compute_dirn i ∈ mesh_dirs)
    by (destruct Hmin as [[-> _]|[[-> _]|[[-> _]|[-> _]]]]; unfold mesh_dirs; simpl; set_solver).
  assert (Hle : forall d', d' ∈ mesh_dirs -> v (compute_dirn i) <= v d').
  { intros d' Hd'. unfold mesh_dirs in Hd'. rewrite !elem_of_cons, elem_of_nil in Hd'.
    destruct Hmin as [[-> ?]|[[-> ?]|[[-> ?]|[-> ?]]]]; simpl;
      destruct Hd' as [->|[->|[->|[->|[]]]]]; lia. }
  exists (compute_dirn i), c'. split_and!; [|done..].
  destruct (some_neighbour R C p Hp) as (d0 & Hd0 & Hin0); [lia|]. specialize (Hle d0 Hd0).
  unfold v, neighbour_count in Hle. rewrite (bool_decide_eq_true_2 (in_mesh _ _ (move d0 _))) in Hle by done.
  specialize (Hcnt _ Hin0). case_bool_decide; [done|lia].
Qed.

Lemma outportTest_least_counter_witness :
  exists d c', in_mesh 4 4 (move d (0, 0)) /\ forall rt i dn,
    outportTest (demo_net 4) 0 rt i dn (mkRState RoutingUnit_new Counters_new demo_rng) =
    Ok (outport_of d (mkRState RoutingUnit_new (mkCounters 0 c') demo_rng)).
Proof.
  destruct (outportTest_least_counter 4 4 (demo_net 4) (0, 0)
    (mkRState RoutingUnit_new Counters_new demo_rng)) as (d & c' & Hd & _ & _ & Hc);
    [done..|unfold in_mesh; simpl; lia|lia|reflexivity| |].
  { intros q Hq. change (routerr_ _) with (replicate (Z.to_nat MAXN) 0).
    rewrite nth_lookup. destruct (_ !! _) eqn:E; [apply lookup_replicate in E as [-> _]|];
      simpl; lia. }
  exists d, c'. split; [exact Hd|exact Hc].
Defined.
