(* ===== verification/Deadlock.v ===== *)
(** * Deadlock: channel dependencies of the routing algorithms

    A packet that holds the channel into a router and wants the channel
    out of it makes the second depend on the first.  Wormhole routing cannot
    deadlock when these dependencies have no cycle.  XY routing has
    none; the secure Valiant detour has one in the smallest mesh. *)

From S2P Require Import Prelude NetDest CommonTypes RoutingUnit Mesh MeshRouting.

(** A channel is the pair of routers it connects.  [c2] depends on [c1]
    when some packet, injected anywhere with the given tag, uses them in
    turn. *)
Definition channel_dep (R C tag : Z) (net : NetParams) (ports : list (list OutPort)) (c1 c2 : Z * Z)
    : Prop :=
  exists src dst rt st fuel path st' l1 l2,
    in_mesh R C src /\ in_mesh R C dst /\ net_ok ports st /\
    rt = demo_route (id_of C dst) tag /\
    walk net ports 0 fuel (mkPos (id_of C src) 0 "Local") rt st = Ok (Arrived path st') /\
    c1.2 = c2.1 /\ id_of C src :: path = l1 ++ c1.1 :: c1.2 :: c2.2 :: l2.

(** The order of the channels: rows before columns, along each direction. *)
Definition rank (R C : Z) (p q : coord) : Z :=
  if p.1 <? q.1 then p.1
  else if q.1 <? p.1 then C - p.1
  else if p.2 <? q.2 then 2 * C + p.2
  else 2 * C + R - p.2.

Lemma coord_neq (p q : coord) : p <> q -> p.1 <> q.1 \/ p.2 <> q.2.
Proof.
  destruct p as [x y], q as [x' y']. simpl. intros Hne.
  destruct (decide (x = x')) as [->|]; [right; congruence|by left].
Qed.

(** The first hop and the rank of its channel. *)
Lemma xy_hop_rank R C p t : p <> t ->
  let q := move (xy_dir p t) p in
  (p.1 < t.1 /\ q = (p.1 + 1, p.2) /\ rank R C p q = p.1) \/
  (t.1 < p.1 /\ q = (p.1 - 1, p.2) /\ rank R C p q = C - p.1) \/
  (p.1 = t.1 /\ p.2 < t.2 /\ q = (p.1, p.2 + 1) /\ rank R C p q = 2 * C + p.2) \/
  (p.1 = t.1 /\ t.2 < p.2 /\ q = (p.1, p.2 - 1) /\ rank R C p q = 2 * C + R - p.2).
Proof.
  intros Hne%coord_neq. destruct p as [x y], t as [tx ty]. simpl in *.
  unfold xy_dir, rank, move. simpl.
  destruct (Z.ltb_spec x tx); [|destruct (Z.ltb_spec tx x); [|destruct (Z.ltb_spec y ty)]]; simpl;
    repeat (match goal with |- context [?a <? ?b] => destruct (Z.ltb_spec a b) end; try lia);
    [left|right; left|right; right; left|right; right; right]; split_and!; auto with lia.
Qed.

Lemma rank_turn R C p t :
  in_mesh R C p -> in_mesh R C t -> p <> t -> move (xy_dir p t) p <> t ->
  let q := move (xy_dir p t) p in rank R C p q < rank R C q (move (xy_dir q t) q).
Proof.
  intros Hp Ht Hne Hne'. unfold in_mesh in *. set (q := move (xy_dir p t) p) in *.
  pose proof (xy_hop_rank R C p t Hne) as H1. pose proof (xy_hop_rank R C q t Hne') as H2.
  fold q in H1. apply coord_neq in Hne'. simpl in *. clearbody q.
  destruct H1 as [(? & -> & ->)|[(? & -> & ->)|[(? & ? & -> & ->)|(? & ? & -> & ->)]]];
    destruct H2 as [(? & _ & ->)|[(? & _ & ->)|[(? & ? & _ & ->)|(? & ? & _ & ->)]]];
    simpl in *; lia.
Qed.

(** Along a dimension-order path the ranks increase. *)
Lemma xy_path_rank R C n : forall p t a b c l1 l2,
  Z.of_nat n = dist p t -> in_mesh R C p -> in_mesh R C t ->
  p :: xy_path p t = l1 ++ a :: b :: c :: l2 -> rank R C a b < rank R C b c.
Proof.
  induction n as [|n IH]; intros p t a b c l1 l2 Hn Hp Ht Heq.
  { symmetry in Hn. apply dist_0 in Hn as ->. rewrite xy_path_refl in Heq.
    destruct l1 as [|? [|? ?]]; discriminate Heq. }
  assert (Hne : p <> t) by (intros ->; unfold dist in Hn; lia).
  rewrite xy_path_cons in Heq by done. destruct l1 as [|p' l1].
  - injection Heq as <- <- Heq. destruct (decide (move (xy_dir p t) p = t)) as [Ht'|Hne'].
    { rewrite Ht', xy_path_refl in Heq. discriminate Heq. }
    rewrite xy_path_cons in Heq by done. injection Heq as <- _. by apply rank_turn.
  - injection Heq as <- Heq. eapply (IH (move (xy_dir p t) p) t); [rewrite xy_dist by done; lia|by apply xy_in|done|].
    exact Heq.
Qed.

(** The rank of a channel between router numbers. *)
Definition channel_rank (R C : Z) (c : Z * Z) : Z :=
  rank R C (c.1 mod C, c.1 / C) (c.2 mod C, c.2 / C).

Lemma id_of_coord R C p : in_mesh R C p -> (id_of C p mod C, id_of C p / C) = p.
Proof.
  intros Hp. pose proof (id_of_rem R C p Hp). pose proof (id_of_quot R C p Hp).
  pose proof (id_of_range R C p Hp). assert (0 < C) by (unfold in_mesh in Hp; lia).
  rewrite Z.rem_mod_nonneg in * by lia. rewrite Z.quot_div_nonneg in * by lia.
  destruct p; simpl in *; congruence.
Qed.

Lemma ids_split C l l1 a b c l2 :
  ids C l = l1 ++ a :: b :: c :: l2 ->
  exists k1 p q r k2, l = k1 ++ p :: q :: r :: k2 /\ a = id_of C p /\ b = id_of C q /\ c = id_of C r.
Proof.
  intros Heq. apply fmap_app_inv in Heq as (k1 & k2 & -> & Heq & ->).
  destruct k2 as [|p [|q [|r k2]]]; try discriminate Heq. injection Heq as -> -> -> ->.
  by exists k1, p, q, r, k2.
Qed.

(** C16: the channel dependency graph of XY routing has no cycle. *)
Theorem XY_deadlock_free R C tag ports net c
    (Hmesh : is_mesh R C ports)
    (Hrows : getNumRows net = R) (Hcols : getNumCols net = C) (Hmax : R * C <= MAXN)
    (Halg : getRoutingAlgorithm net = 1) :
  ~ tc (channel_dep R C tag net ports) c c.
Proof.
  assert (Hstep : forall c1 c2, channel_dep R C tag net ports c1 c2 ->
    channel_rank R C c1 < channel_rank R C c2).
  { intros [a b] [b' c2] (src & dst & rt & st & fuel & path & st' & l1 & l2 &
      Hs & Hd & Hok & -> & Hw & Hb & Heq). simpl in *. subst b'.
    destruct (walk_arrives R C ports Hmesh net 0 dst (XY_inv dst) Hd
      (XY_follows R C net 0 Hrows Hcols Hmax dst Halg Hd)
      src "Local" (demo_route (id_of C dst) tag) 0 st Hs (XY_inv_local _ _ _) eq_refl Hok)
      as (st2 & _ & Hw2).
    specialize (Hw2 (fuel + Z.to_nat (dist src dst))%nat ltac:(lia)).
    rewrite (walk_mono _ _ _ _ _ _ _ _ _ _ Hw) in Hw2. injection Hw2 as -> _.
    change (id_of C src :: ids C (xy_path src dst)) with (ids C (src :: xy_path src dst)) in Heq.
    apply ids_split in Heq as (k1 & p & q & r & k2 & Heq & -> & -> & ->).
    unfold channel_rank. simpl.
    assert (Hall : Forall (in_mesh R C) (src :: xy_path src dst))
      by (apply Forall_cons; [done|by apply xy_path_in]).
    rewrite Heq in Hall. apply Forall_app in Hall as [_ Hall]. rewrite !list.Forall_cons in Hall.
    destruct Hall as (Hp & Hq & Hr & _). rewrite !(id_of_coord R C) by done.
    apply (xy_path_rank R C (Z.to_nat (dist src dst)) src dst p q r k1 k2);
      [unfold dist; lia|done..]. }
  assert (Htc : forall c1 c2, tc (channel_dep R C tag net ports) c1 c2 ->
    channel_rank R C c1 < channel_rank R C c2).
  { intros c1 c2 Ht. induction Ht as [c1 c2 Hs|c1 c2 c3 Hs Ht IH]; [by apply Hstep|].
    apply Hstep in Hs. lia. }
  intros Hc%Htc. lia.
Qed.

Lemma XY_deadlock_free_witness :
  ~ tc (channel_dep 4 4 0 (demo_net 1) (mesh_ports 4 4)) (0, 1) (0, 1).
Proof. apply XY_deadlock_free; demo_hyps. Defined.

(** Instantiates a dependency with a given walk. *)
Ltac use_walk H :=
  split; [unfold in_mesh; simpl; lia|]; split; [unfold in_mesh; simpl; lia|];
  split; [apply fresh_net_ok|]; split; [reflexivity|]; split; [exact H|]; done.

(** C40: the secure Valiant detour closes a cycle of channel
    dependencies in a two by two mesh: the detours of two tagged packets
    use its four routers in a circle. *)
Theorem secure_valiant_cyclic :
  tc (channel_dep 2 2 1 (mkNet 2 2 6 []) (mesh_ports 2 2)) (0, 2) (0, 2).
Proof.
  assert (H1 : exists st', walk (mkNet 2 2 6 []) (mesh_ports 2 2) 0 4 (mkPos 0 0 "Local")
    (demo_route 1 1) (fresh_net (mesh_ports 2 2) demo_rng) = Ok (Arrived [2; 3; 1] st')).
  { eexists. vm_compute. reflexivity. }
  assert (H2 : exists st', walk (mkNet 2 2 6 []) (mesh_ports 2 2) 0 4 (mkPos 3 0 "Local")
    (demo_route 2 1) (fresh_net (mesh_ports 2 2) demo_rng) = Ok (Arrived [1; 0; 2] st')).
  { eexists. vm_compute. reflexivity. }
  destruct H1 as [st1 H1], H2 as [st2 H2].
  apply tc_l with (2, 3); [|apply tc_l with (3, 1); [|apply tc_l with (1, 0); [|apply tc_once]]].
  - exists (0, 0), (1, 0), (demo_route 1 1), (fresh_net (mesh_ports 2 2) demo_rng), 4%nat, [2; 3; 1], st1,
      [], [1]. use_walk H1.
  - exists (0, 0), (1, 0), (demo_route 1 1), (fresh_net (mesh_ports 2 2) demo_rng), 4%nat, [2; 3; 1], st1,
      [0], []. use_walk H1.
  - exists (1, 1), (0, 1), (demo_route 2 1), (fresh_net (mesh_ports 2 2) demo_rng), 4%nat, [1; 0; 2], st2,
      [], [2]. use_walk H2.
  - exists (1, 1), (0, 1), (demo_route 2 1), (fresh_net (mesh_ports 2 2) demo_rng), 4%nat, [1; 0; 2], st2,
      [3], []. use_walk H2.
Qed.
