(* ===== verification/RoutingTable.v ===== *)
(** * RoutingTable: table-based routing

    What [RoutingUnit::lookupRoutingTable] returns for a routing table
    with one entry and one weight per output link. *)

From S2P Require Import Prelude NetDest CommonTypes RoutingUnit.

(** The destination set and a table entry have a machine in common. *)
Definition reaches (d l : NetDest.t) : Prop :=
  exists m i, NetDest.mem d m i /\ NetDest.mem l m i.

Section table.
Context (links : list NetDest.t) (weights : list Z) (d : NetDest.t).

(** Link [k] leads to the destination with weight [w]. *)
Definition link_to (k : nat) (w : Z) : Prop :=
  exists l, links !! k = Some l /\ weights !! k = Some w /\ reaches d l.

Context (Hshape : Forall (fun l => length d = length l) links)
        (Hweights : length weights = length links).

Lemma scan_link j (Q : bool -> Prop) l :
  links !! Z.to_nat j = Some l ->
  (forall hit, (hit = true <-> reaches d l) -> Q hit) ->
  safe (NetDest.intersectionIsNotEmpty l d) Q.
Proof.
  intros Hl HQ. pose proof (Forall_lookup_1 _ _ _ _ Hshape Hl) as Hlen. cbv beta in Hlen.
  eapply safe_mono; [by apply NetDest.intersectionIsNotEmpty_spec|]. exact HQ.
Qed.

Lemma minWeight_spec :
  safe (minWeight links weights d) (fun w => w <= INFINITE_ /\
    (forall k wk, link_to k wk -> w <= wk) /\ (w = INFINITE_ \/ exists k, link_to k w)).
Proof.
  unfold minWeight. eapply safe_mono.
  { apply (safe_for (fun j w => w <= INFINITE_ /\
      (forall k wk, Z.of_nat k < j -> link_to k wk -> w <= wk) /\
      (w = INFINITE_ \/ exists k, link_to k w))).
    { split; [done|]. split; [intros; lia|by left]. }
    intros j w Hj (Hinf & Hle & Hex).
    apply safe_bind, safe_vget; [unfold zlength; lia|]. intros l Hl.
    apply safe_bind, (scan_link j _ l Hl). intros hit Hhit.
    assert (Hprev : forall k, Z.of_nat k < j + 1 -> Z.of_nat k < j \/ k = Z.to_nat j) by lia.
    destruct hit.
    - apply safe_bind, safe_vget; [unfold zlength; lia|]. intros wj Hwj. simpl.
      assert (Hto : link_to (Z.to_nat j) wj) by (exists l; split_and!; try done; by apply Hhit).
      destruct (Z.leb_spec wj w); (split; [lia|]; split; [|eauto]);
        intros k wk [Hk| ->]%Hprev Hto'; try (specialize (Hle k wk Hk Hto'); lia);
        destruct Hto' as (? & _ & Hw' & _); simplify_eq; lia.
    - simpl. split; [done|]. split; [|done]. intros k wk [Hk| ->]%Hprev Hto'; [eauto|].
      destruct Hto' as (l' & Hl' & _ & Hr). simplify_eq. by apply Hhit in Hr. }
  intros w (Hinf & Hle & Hex). split_and!; [done| |done]. intros k wk Hk. apply (Hle k); [|done].
  destruct Hk as (l & Hl%lookup_lt_Some & _). lia.
Qed.

Lemma candidates_spec w :
  safe (candidates links weights d w) (fun cs =>
    (forall c, c ∈ cs <-> 0 <= c /\ link_to (Z.to_nat c) w) /\
    forall c, head cs = Some c -> forall c', c' ∈ cs -> c <= c').
Proof.
  unfold candidates. eapply safe_mono.
  { apply (safe_for (fun j cs =>
      (forall c, c ∈ cs <-> 0 <= c < j /\ link_to (Z.to_nat c) w) /\
      forall c, head cs = Some c -> forall c', c' ∈ cs -> c <= c')).
    { split; [|done]. intros c. rewrite elem_of_nil. lia. }
    intros j cs Hj (Hin & Hhd).
    apply safe_bind, safe_vget; [unfold zlength; lia|]. intros l Hl.
    apply safe_bind, (scan_link j _ l Hl). intros hit Hhit.
    assert (Hskip : ~ link_to (Z.to_nat j) w ->
      forall c, c ∈ cs <-> 0 <= c < j + 1 /\ link_to (Z.to_nat c) w).
    { intros Hno c. rewrite Hin. split; [intuition lia|]. intros [Hc Hl'].
      destruct (decide (c = j)) as [->|]; [done|]. intuition lia. }
    destruct hit.
    2:{ simpl. split; [|done]. apply Hskip. intros (l' & Hl' & _ & Hr). simplify_eq.
        by apply Hhit in Hr. }
    apply safe_bind, safe_vget; [unfold zlength; lia|]. intros wj Hwj. simpl.
    destruct (Z.eqb_spec wj w) as [->|Hne].
    2:{ split; [|done]. apply Hskip. intros (l' & _ & Hw' & _). simplify_eq. }
    assert (Hto : link_to (Z.to_nat j) w) by (exists l; split_and!; try done; by apply Hhit).
    split.
    - intros c. rewrite elem_of_app, Hin, list_elem_of_singleton. split.
      + intros [[? ?]| ->]; split; auto with lia.
      + intros [Hc Hl']. destruct (decide (c = j)); [by right|]. left. split; [lia|done].
    - intros c Hc c' [Hc'|Hc'%list_elem_of_singleton]%elem_of_app.
      + destruct cs as [|c0 cs]; [by apply not_elem_of_nil in Hc'|]. by apply (Hhd c).
      + subst c'. destruct cs as [|c0 cs]; simplify_eq/=; [lia|].
        assert (c ∈ c :: cs) as Hh by apply elem_of_cons, or_introl, eq_refl.
        apply Hin in Hh. lia. }
  intros cs [Hin Hhd]. split; [|done]. intros c. rewrite Hin. split; [intuition lia|].
  intros [Hc Hl]. split; [|done]. destruct Hl as (l & Hl%lookup_lt_Some & _). lia.
Qed.

End table.

(** The table has a row for the virtual network, whose entries have the
    shape of the destination, and a weight for every link. *)
Definition table_ok (net : NetParams) (vnet : Z) (d : NetDest.t) (links : list NetDest.t)
    (s : RState) : Prop :=
  vget (m_routing_table (ru s)) vnet = Ok links /\
  Forall (fun l => length d = length l) links /\
  length (m_weight_table (ru s)) = length links /\
  0 <= vnet < zlength (m_ordered net).

(** The chosen link. *)
Lemma lookup_spec net vnet d links s
    (Hok : table_ok net vnet d links s)
    (Hex : exists k w, link_to links (m_weight_table (ru s)) d k w /\ w <= INFINITE_) :
  safe (lookupRoutingTable net vnet d s) (fun '(o, s') =>
    ru s' = ru s /\ cnt s' = cnt s /\ 0 <= o /\
    exists w, link_to links (m_weight_table (ru s)) d (Z.to_nat o) w /\
      (forall k wk, link_to links (m_weight_table (ru s)) d k wk -> w <= wk) /\
      (isVNetOrdered net vnet = Ok true -> rng s' = rng s /\
         forall k, link_to links (m_weight_table (ru s)) d k w -> o <= Z.of_nat k)).
Proof.
  destruct Hok as (Hrow & Hshape & Hweights & Hord). set (ws := m_weight_table (ru s)) in *.
  unfold lookupRoutingTable. fold ws. rewrite Hrow. cbn [mbind res_bind].
  apply safe_bind. eapply safe_mono; [by apply (minWeight_spec links ws d)|].
  intros w (Hinf & Hle & Hw).
  assert (Hk : exists k, link_to links ws d k w).
  { destruct Hw as [->|Hw]; [|done]. destruct Hex as (k & wk & Hk & Hwk). exists k.
    pose proof (Hle k wk Hk). by replace INFINITE_ with wk by lia. }
  apply safe_bind. eapply safe_mono; [by apply (candidates_spec links ws d Hshape Hweights w)|].
  intros cs [Hin Hhd].
  assert (Hpos : 0 < zlength cs).
  { destruct Hk as [k Hk]. assert (Z.of_nat k ∈ cs) as Hc.
    { apply Hin. rewrite Nat2Z.id. split; [lia|done]. }
    destruct cs; [by apply not_elem_of_nil in Hc|]. unfold zlength. simpl. lia. }
  rewrite (proj2 (Z.eqb_neq _ _)) by lia.
  assert (Hres : forall o, o ∈ cs -> 0 <= o /\ link_to links ws d (Z.to_nat o) w)
    by (intros o Ho; by apply Hin).
  unfold isVNetOrdered. destruct (vget_range _ _ Hord) as [ordered Ho]. rewrite Ho.
  cbn [mbind res_bind]. destruct ordered.
  - apply safe_bind, safe_vget; [lia|]. intros o Ho'. simpl.
    destruct (Hres o) as [? ?]; [by eapply list_elem_of_lookup_2|].
    split_and!; [done..|]. exists w. split_and!; [done..|]. intros _. split; [done|].
    intros k Hlk. apply (Hhd o); [by destruct cs|]. apply Hin. rewrite Nat2Z.id.
    split; [lia|done].
  - apply safe_bind, safe_uniform; [lia|]. intros r g Hr.
    apply safe_bind, safe_vget; [apply Z.rem_bound_pos; lia|]. intros o Ho'. simpl.
    destruct (Hres o) as [? ?]; [by eapply list_elem_of_lookup_2|].
    split_and!; [done..|]. exists w. by split_and!.
Qed.

(** When some link leads to the destination with a weight of at
    most 10000, table routing returns one of least weight among all links
    that lead there; on an ordered virtual network it is the first of them and
    no random number is drawn. *)
Theorem lookupRoutingTable_least_weight net vnet d links s
    (Hok : table_ok net vnet d links s)
    (Hex : exists k w, link_to links (m_weight_table (ru s)) d k w /\ w <= INFINITE_) :
  safe (lookupRoutingTable net vnet d s) (fun '(o, s') =>
    ru s' = ru s /\ cnt s' = cnt s /\ 0 <= o /\
    exists w, link_to links (m_weight_table (ru s)) d (Z.to_nat o) w /\
      (forall k wk, link_to links (m_weight_table (ru s)) d k wk -> w <= wk) /\
      (isVNetOrdered net vnet = Ok true -> rng s' = rng s /\
         forall k, link_to links (m_weight_table (ru s)) d k w -> o <= Z.of_nat k)).
Proof. by apply (lookup_spec net vnet d links). Qed.

(** When no link leads to the destination with a weight of at most
    10000, table routing ends the simulation. *)
Theorem lookupRoutingTable_fatal net vnet d links s
    (Hok : table_ok net vnet d links s)
    (Hno : forall k w, link_to links (m_weight_table (ru s)) d k w -> INFINITE_ < w) :
  lookupRoutingTable net vnet d s = Err FatalCalled.
Proof.
  destruct Hok as (Hrow & Hshape & Hweights & Hord). set (ws := m_weight_table (ru s)) in *.
  unfold lookupRoutingTable. fold ws. rewrite Hrow. cbn [mbind res_bind].
  destruct (safe_inv _ _ (minWeight_spec links ws d Hshape Hweights)) as (w & -> & Hinf & _ & _).
  cbn [mbind res_bind].
  destruct (safe_inv _ _ (candidates_spec links ws d Hshape Hweights w)) as (cs & -> & Hin & _).
  cbn [mbind res_bind]. destruct cs as [|c cs]; [done|]. exfalso.
  assert (c ∈ c :: cs) as [_ Hc]%Hin by apply elem_of_cons, or_introl, eq_refl.
  apply Hno in Hc. lia.
Qed.

(** Two machine types; link 0 to machine 3 of type 0, links 1 and 2 to machine 5
    of type 1 with weights 2 and 1. *)
Definition demo_dest (m i : Z) : NetDest.t :=
  let s b := RSet.mk 16 b in if m =? 0 then [s (2 ^ i); s 0] else [s 0; s (2 ^ i)].
Definition demo_table : RState :=
  mkRState (RoutingUnit_new
      <| m_routing_table := [[demo_dest 0 3; demo_dest 1 5; demo_dest 1 5]] |>
      <| m_weight_table := [1; 2; 1] |>) Counters_new (mkRng (fun n => Z.of_nat n) 0).

Lemma demo_reaches m i : m = 0 \/ m = 1 -> 0 <= i -> reaches (demo_dest m i) (demo_dest m i).
Proof.
  intros Hm Hi. exists m, i. unfold NetDest.mem, RSet.mem, demo_dest.
  destruct Hm as [->| ->]; simpl; (split; (split; [lia|]); eexists; (split; [reflexivity|]));
    split; simpl; auto; apply Z.pow2_bits_true; lia.
Qed.

Lemma lookupRoutingTable_least_weight_witness :
  safe (lookupRoutingTable (mkNet 4 4 0 [true]) 0 (demo_dest 1 5) demo_table)
    (fun '(o, _) => 0 <= o).
Proof.
  eapply safe_mono.
  - apply (lookupRoutingTable_least_weight (mkNet 4 4 0 [true]) 0 (demo_dest 1 5)
      [demo_dest 0 3; demo_dest 1 5; demo_dest 1 5] demo_table).
    + split_and!; [reflexivity|repeat constructor|reflexivity|done..].
    + exists 2%nat, 1. split; [|unfold INFINITE_; lia]. exists (demo_dest 1 5).
      split_and!; [reflexivity|reflexivity|apply demo_reaches; lia].
  - intros [o s'] (_ & _ & Ho & _). exact Ho.
Defined.

Lemma lookupRoutingTable_fatal_witness :
  lookupRoutingTable (mkNet 4 4 0 [true]) 0 (demo_dest 0 9)
    (demo_table <| ru := (ru demo_table) <| m_routing_table := [[]] |> <| m_weight_table := [] |> |>)
  = Err FatalCalled.
Proof.
  apply (lookupRoutingTable_fatal _ _ _ []); [split_and!; [reflexivity|constructor|reflexivity|done..]|].
  intros k w (l & Hl & _). discriminate Hl.
Defined.
