(* ===== verification/Topology.v ===== *)
(** * Topology: the links of a network and the routes over them

    mem/ruby/network/Topology.cc, BasicLink.hh and BasicRouter.hh.  The
    topology is a list of links between switches.  The first [m_nodes]
    switch numbers stand for the inputs of the machines, the next [m_nodes]
    for their outputs, and the routers follow.  [createLinks] computes the
    distances between all switches, one virtual network at a time, and
    gives every link the set of machines it leads to on a shortest path;
    these sets are the routing tables of the routers.  The network that
    makes the links is represented by the list of calls it gets. *)

From S2P Require Import Prelude NetDest CommonTypes RoutingUnit.

Definition INFINITE_LATENCY : Z := 10000.

(** ** Links *)

(** [bl_ptr] is the address of the object, by which a network finds the link
    of its own kind that a [BasicLink*] points to. *)
Record BasicLink := mkBasicLink {
  bl_latency : Z;
  bl_bandwidth_factor : Z;
  bl_weight : Z;
  bl_vnets : list Z;
  bl_ptr : Z;
}.

Record BasicExtLink := mkExtLink {
  xl_link : BasicLink;
  xl_ext_node : MachineID;
  xl_int_node : Z;
}.

Record BasicIntLink := mkIntLink {
  il_link : BasicLink;
  il_src_node : Z;
  il_dst_node : Z;
  il_src_outport : PortDirection;
  il_dst_inport : PortDirection;
}.

Record LinkEntry := mkLinkEntry {
  le_link : BasicLink;
  le_src_outport_dirn : PortDirection;
  le_dst_inport_dirn : PortDirection;
}.

(** A [std::map] from pairs of switches: a list in the order of its keys. *)
Definition LinkMap : Type := list ((Z * Z) * list LinkEntry).

Definition key_ltb (a b : Z * Z) : bool :=
  (a.1 <? b.1) || ((a.1 =? b.1) && (a.2 <? b.2)).

(** Finding the links of a pair and adding one at their end. *)
Fixpoint link_find (k : Z * Z) (m : LinkMap) : list LinkEntry :=
  match m with
  | [] => []
  | (k', l) :: m' => if bool_decide (k = k') then l else link_find k m'
  end.

Fixpoint link_push (k : Z * Z) (e : LinkEntry) (m : LinkMap) : LinkMap :=
  match m with
  | [] => [(k, [e])]
  | (k', l) :: m' =>
      if bool_decide (k = k') then (k', l ++ [e]) :: m'
      else if key_ltb k k' then (k, [e]) :: m
      else (k', l) :: link_push k e m'
  end.

(** ** Matrices *)

(** [std::vector<std::vector<std::vector<int>>>]. *)
Definition Matrix : Type := list (list (list Z)).

Definition mget (m : Matrix) (a b c : Z) : res Z :=
  x ← vget m a; y ← vget x b; vget y c.

Definition mset (m : Matrix) (a b c v : Z) : res Matrix :=
  valterM (fun x => valterM (fun y => vset y c v) x b) m a.

Definition matrix (na nb nc : nat) (v : Z) : Matrix := replicate na (replicate nb (replicate nc v)).

Module Topology.
Section topology.
Context `{MachineTypes}.

Record t := mk {
  m_nodes : Z;
  m_number_of_switches : Z;
  m_vnets : Z;
  m_link_map : LinkMap;
}.
#[global] Instance t_eta : Etaed t := fun s =>
  mk (m_nodes s) (m_number_of_switches s) (m_vnets s) (m_link_map s).

Definition addLink (src dest : Z) (link : BasicLink) (src_outport_dirn dst_inport_dirn : PortDirection)
    (s : t) : res t :=
  _ ← assert (src <=? m_number_of_switches s + m_nodes s + m_nodes s);
  _ ← assert (dest <=? m_number_of_switches s + m_nodes s + m_nodes s);
  Ok (s <| m_link_map ::= link_push (src, dest) (mkLinkEntry link src_outport_dirn dst_inport_dirn) |>).

(** An external link is bi-directional: one link for each direction. *)
Definition addExtLink (l : BasicExtLink) (s : t) : res t :=
  let ext_idx1 := MachineType_base_number (mach_type (xl_ext_node l)) + mach_num (xl_ext_node l) in
  let ext_idx2 := ext_idx1 + m_nodes s in
  let int_idx := xl_int_node l + 2 * m_nodes s in
  s ← addLink ext_idx1 int_idx (xl_link l) "" "" s;
  addLink int_idx ext_idx2 (xl_link l) "" "" s.

Definition addIntLink (l : BasicIntLink) (s : t) : res t :=
  addLink (il_src_node l + 2 * m_nodes s) (il_dst_node l + 2 * m_nodes s) (il_link l)
    (il_src_outport l) (il_dst_inport l) s.

Definition new (num_routers num_vnets : Z) (ext_links : list BasicExtLink) (int_links : list BasicIntLink)
    : res t :=
  let nodes := MachineType_base_number MachineType_NUM in
  _ ← assert (1 <? nodes);
  s ← for_each ext_links addExtLink (mk nodes num_routers num_vnets []);
  for_each int_links addIntLink s.

(** ** Shortest paths *)

(** One candidate [k] for a stop between [i] and [j]. *)
Definition relax_via (dist : Matrix) (v i j k : Z) (st : Z * Z * Matrix) : res (Z * Z * Matrix) :=
  let '(previous_minimum, intermediate_switch, inter_switches) := st in
  dik ← mget dist v i k;
  dkj ← mget dist v k j;
  d ← iadd dik dkj;
  let minimum := Z.min previous_minimum d in
  if negb (previous_minimum =? minimum) then
    a ← mget inter_switches i k v;
    b ← mget inter_switches k j v;
    inter_switches ← mset inter_switches i j v (a + b + 1);
    Ok (minimum, k, inter_switches)
  else Ok (minimum, intermediate_switch, inter_switches).

(** Distances, latencies and numbers of intermediate switches. *)
Record Paths := mkPaths { p_dist : Matrix; p_latencies : Matrix; p_inter : Matrix }.
#[global] Instance Paths_eta : Etaed Paths := fun p => mkPaths (p_dist p) (p_latencies p) (p_inter p).

Definition relax (nodes v i j : Z) (st : bool * Paths) : res (bool * Paths) :=
  let '(change, p) := st in
  d0 ← mget (p_dist p) v i j;
  '(minimum, intermediate_switch, inter) ←
    for_ (Z.to_nat nodes) 0 (fun k => relax_via (p_dist p) v i j k) (d0, -1, p_inter p);
  let p := p <| p_inter := inter |> in
  if negb (d0 =? minimum) then
    dist ← mset (p_dist p) v i j minimum;
    _ ← assert (0 <=? intermediate_switch);
    row ← vget (p_latencies p) i;
    _ ← assert (intermediate_switch <? zlength row);
    a ← mget (p_latencies p) i intermediate_switch v;
    b ← mget (p_latencies p) intermediate_switch j v;
    lat ← mset (p_latencies p) i j v (a + b);
    Ok (true, mkPaths dist lat inter)
  else Ok (change, p).

(** One round over all pairs. *)
Definition sweep (nodes v : Z) (p : Paths) : res (bool * Paths) :=
  for_ (Z.to_nat nodes) 0 (fun i => for_ (Z.to_nat nodes) 0 (fun j => relax nodes v i j)) (false, p).

(** [while (change)]. *)
Fixpoint sweeps (fuel : nat) (nodes v : Z) (p : Paths) : res Paths :=
  match fuel with
  | O => Err OutOfFuel
  | S fuel =>
      '(change, p) ← sweep nodes v p;
      if (change : bool) then sweeps fuel nodes v p else Ok p
  end.

Definition extend_shortest_path (fuel : nat) (s : t) (p : Paths) : res Paths :=
  d0 ← vget (p_dist p) 0;
  for_ (Z.to_nat (m_vnets s)) 0 (sweeps fuel (zlength d0)) p.

Definition shortest_path (fuel : nat) (s : t) (weights latencies inter_switches : Matrix) : res Paths :=
  extend_shortest_path fuel s (mkPaths weights latencies inter_switches).

(** ** Routing tables *)

Definition link_is_shortest_path_to_node (src next final : Z) (weights dist : Matrix) (vnet : Z) : res bool :=
  w ← mget weights vnet src next;
  d ← mget dist vnet next final;
  sum ← iadd w d;
  best ← mget dist vnet src final;
  Ok (sum =? best).

(** The machines that the link from [src] to [next] leads to on a shortest path. *)
Definition shortest_path_to_node (src next : Z) (weights dist : Matrix) (vnet : Z) : res NetDest.t :=
  result ← NetDest.new;
  let max_machines := MachineType_base_number MachineType_NUM in
  '(result, _) ←
    for_ (Z.to_nat MachineType_NUM) 0 (fun m =>
      for_ (Z.to_nat (MachineType_base_count m)) 0 (fun i '(result, d) =>
        short ← link_is_shortest_path_to_node src next (d + max_machines) weights dist vnet;
        result ← (if (short : bool) then NetDest.add (mkMachineID m i) result else Ok result);
        Ok (result, d + 1))) (result, 0);
  Ok result.

(** ** Making the links *)

(** The calls to the network. *)
Inductive MadeLink :=
| MakeExtInLink (src dest : Z) (link : BasicLink) (table : list NetDest.t)
| MakeExtOutLink (src dest : Z) (link : BasicLink) (table : list NetDest.t)
| MakeInternalLink (src dest : Z) (link : BasicLink) (table : list NetDest.t)
    (src_outport dst_inport : PortDirection).

(** A link that carries some of the virtual networks only has the entries of these. *)
Definition linkRoute (s : t) (link : BasicLink) (routing_table_entry : list NetDest.t) : res (list NetDest.t) :=
  match bl_vnets link with
  | [] => Ok routing_table_entry
  | vnets =>
      none ← NetDest.new;
      for_each vnets (fun vnet lr => e ← vget routing_table_entry vnet; vset lr vnet e)
        (replicate (Z.to_nat (m_vnets s)) none)
  end.

Definition makeLink (src dest : Z) (routing_table_entry : list NetDest.t) (s : t) (made : list MadeLink)
    : res (list MadeLink) :=
  _ ← assert ((2 * m_nodes s <=? src) || (2 * m_nodes s <=? dest));
  let links := link_find (src, dest) (m_link_map s) in
  if src <? m_nodes s then
    for_each links (fun e made =>
      table ← linkRoute s (le_link e) routing_table_entry;
      Ok (made ++ [MakeExtInLink src (dest - 2 * m_nodes s) (le_link e) table])) made
  else if dest <? 2 * m_nodes s then
    _ ← assert (m_nodes s <=? dest);
    for_each links (fun e made =>
      table ← linkRoute s (le_link e) routing_table_entry;
      Ok (made ++ [MakeExtOutLink (src - 2 * m_nodes s) (dest - m_nodes s) (le_link e) table])) made
  else
    _ ← assert ((2 * m_nodes s <=? src) && (2 * m_nodes s <=? dest));
    for_each links (fun e made =>
      table ← linkRoute s (le_link e) routing_table_entry;
      Ok (made ++ [MakeInternalLink (src - 2 * m_nodes s) (dest - 2 * m_nodes s) (le_link e) table
                     (le_src_outport_dirn e) (le_dst_inport_dirn e)])) made.

Definition num_switches (m : LinkMap) : Z :=
  foldl (fun acc '((src, dest), _) => Z.max (Z.max acc src) dest) 0 m + 1.

(** The weight of a link in one virtual network; two links between the same switches cannot carry the same one. *)
Definition set_weight (src dst : Z) (link : BasicLink) (v : Z) (st : list bool * Matrix * Matrix)
    : res (list bool * Matrix * Matrix) :=
  let '(vnet_done, latencies, weights) := st in
  done ← vget vnet_done v;
  if (done : bool) then Err FatalCalled
  else
    latencies ← mset latencies src dst v (bl_latency link);
    weights ← mset weights v src dst (bl_weight link);
    vnet_done ← vset vnet_done v true;
    Ok (vnet_done, latencies, weights).

Definition fill_link (s : t) (src dst : Z) (link : BasicLink) (st : list bool * Matrix * Matrix)
    : res (list bool * Matrix * Matrix) :=
  match bl_vnets link with
  | [] => for_ (Z.to_nat (m_vnets s)) 0 (set_weight src dst link) st
  | vnets => for_each vnets (fun vnet st =>
      if m_vnets s <=? vnet then Err FatalCalled else set_weight src dst link vnet st) st
  end.

Definition fill_group (s : t) (g : (Z * Z) * list LinkEntry) (st : Matrix * Matrix) : res (Matrix * Matrix) :=
  let '((src, dst), link_entries) := g in
  '(_, latencies, weights) ←
    for_each link_entries (fun e => fill_link s src dst (le_link e))
      (replicate (Z.to_nat (m_vnets s)) false, st.1, st.2);
  Ok (latencies, weights).

(** The weights and latencies of the links as matrices. *)
Definition link_matrices (s : t) : res (Matrix * Matrix) :=
  let n := Z.to_nat (num_switches (m_link_map s)) in
  let nv := Z.to_nat (m_vnets s) in
  let weights := matrix nv n n INFINITE_LATENCY in
  weights ← (w0 ← vget weights 0;
    for_ (length w0) 0 (fun i => for_ nv 0 (fun v w => mset w v i i 0)) weights);
  for_each (m_link_map s) (fill_group s) (matrix n n nv (-1), weights).

(** The table entries of the link from [i] to [j] in all virtual networks, and whether there is such a link. *)
Definition routing_map (s : t) (weights dist : Matrix) (i j : Z) : res (bool * list NetDest.t) :=
  none ← NetDest.new;
  for_ (Z.to_nat (m_vnets s)) 0 (fun v '(realLink, routingMap) =>
    weight ← mget weights v i j;
    if (0 <? weight) && negb (weight =? INFINITE_LATENCY) then
      d ← shortest_path_to_node i j weights dist v;
      routingMap ← vset routingMap v d;
      Ok (true, routingMap)
    else Ok (realLink, routingMap)) (false, replicate (Z.to_nat (m_vnets s)) none).

Definition createLinks (fuel : nat) (s : t) : res (list MadeLink) :=
  '(latencies, weights) ← link_matrices s;
  let n := Z.to_nat (num_switches (m_link_map s)) in
  p ← shortest_path fuel s weights latencies (matrix n n (Z.to_nat (m_vnets s)) 0);
  for_ n 0 (fun i => for_ n 0 (fun j made =>
    '(realLink, routingMap) ← routing_map s weights (p_dist p) i j;
    if (realLink : bool) then makeLink i j routingMap s made else Ok made)) [].

End topology.
End Topology.
