(* ===== verification/TopologyProofs.v ===== *)
(** * TopologyProofs: shortest paths and routing tables

    The loops of [Topology::extend_shortest_path] end and compute the
    distances between switches, and the routing tables made from them lead
    every packet to its destination on a shortest path, whichever of the
    allowed links is taken. *)

From S2P Require Import Prelude NetDest CommonTypes RoutingUnit Topology.

(** ** Matrices *)

Definition shape (na nb nc : nat) (m : Matrix) : Prop :=
  length m = na /\ Forall (fun x => length x = nb /\ Forall (fun y => length y = nc) x) m.

Definition in_range (n i : Z) : Prop := 0 <= i < n.

Section matrices.
Context (na nb nc : nat).

Lemma shape_vget m a : shape na nb nc m -> in_range (Z.of_nat na) a ->
  exists x, vget m a = Ok x /\ length x = nb /\ Forall (fun y => length y = nc) x.
Proof.
  intros [Hl Hf] Ha. destruct (vget_range m a) as [x Hx]; [unfold zlength, in_range in *; lia|].
  exists x. split; [done|]. apply vget_Ok in Hx as [_ Hx]. by eapply Forall_lookup_1 in Hf.
Qed.

Lemma mget_range m a b c : shape na nb nc m -> in_range (Z.of_nat na) a -> in_range (Z.of_nat nb) b ->
  in_range (Z.of_nat nc) c -> exists v, mget m a b c = Ok v.
Proof.
  intros Hs Ha Hb Hc. destruct (shape_vget m a Hs Ha) as (x & Hx & Hl & Hf). unfold mget. rewrite Hx.
  cbn [mbind res_bind]. destruct (vget_range x b) as [y Hy]; [unfold zlength, in_range in *; lia|].
  rewrite Hy. cbn [mbind res_bind]. apply vget_range. apply vget_Ok in Hy as [_ Hy].
  eapply Forall_lookup_1 in Hf; [|exact Hy]. unfold zlength, in_range in *. lia.
Qed.

Lemma mget_bound m a b c v : shape na nb nc m -> mget m a b c = Ok v ->
  in_range (Z.of_nat na) a /\ in_range (Z.of_nat nb) b /\ in_range (Z.of_nat nc) c.
Proof.
  intros [Hl Hf] (x & Hx & (y & Hy & Hv)%bind_Ok)%bind_Ok.
  pose proof (vget_bound _ _ _ Hx). pose proof (vget_bound _ _ _ Hy). pose proof (vget_bound _ _ _ Hv).
  apply vget_Ok in Hx as [_ Hx], Hy as [_ Hy]. eapply Forall_lookup_1 in Hf as [Hl2 Hf]; [|exact Hx].
  eapply Forall_lookup_1 in Hf; [|exact Hy]. unfold zlength, in_range in *. lia.
Qed.

(** Writing one element. *)
Record written (m : Matrix) (a b c v : Z) (m' : Matrix) : Prop := {
  wr_shape : shape na nb nc m';
  wr_same : mget m' a b c = Ok v;
  wr_other : forall a' b' c', (a', b', c') <> (a, b, c) -> mget m' a' b' c' = mget m a' b' c';
  wr_outer : forall a', a' <> a -> 0 <= a' -> m' !! Z.to_nat a' = m !! Z.to_nat a';
}.

Lemma mset_written m a b c v : shape na nb nc m -> in_range (Z.of_nat na) a -> in_range (Z.of_nat nb) b ->
  in_range (Z.of_nat nc) c -> safe (mset m a b c v) (written m a b c v).
Proof.
  intros [Hl Hf] Ha Hb Hc. unfold mset. apply safe_valterM; [unfold zlength, in_range in *; lia|].
  intros x Hx. pose proof (Forall_lookup_1 _ _ _ _ Hf Hx) as [Hl2 Hf2].
  apply safe_valterM; [unfold zlength, in_range in *; lia|].
  intros y Hy. pose proof (Forall_lookup_1 _ _ _ _ Hf2 Hy) as Hl3.
  apply safe_vset; [unfold zlength, in_range in *; lia|]. unfold in_range in *.
  assert (Ha' : 0 <= a < zlength m) by (unfold zlength; lia).
  assert (Hb' : 0 <= b < zlength x) by (unfold zlength; lia).
  assert (Hc' : 0 <= c < zlength y) by (unfold zlength; lia).
  assert (Hmx : vget m a = Ok x) by (apply vget_Ok; split; [lia|done]). assert (Hxy : vget x b = Ok y) by (apply vget_Ok; split; [lia|done]).
  split.
  - split; [by rewrite length_insert|]. apply Forall_insert; [done|]. split; [by rewrite length_insert|].
    apply Forall_insert; [done|]. by rewrite length_insert.
  - unfold mget. rewrite vget_insert_eq by done. cbn [mbind res_bind]. rewrite vget_insert_eq by done.
    cbn [mbind res_bind]. by apply vget_insert_eq.
  - intros a' b' c' Hne. unfold mget. destruct (decide (a' = a)) as [->|]; [|by rewrite vget_insert_ne by lia].
    rewrite vget_insert_eq, Hmx by done. cbn [mbind res_bind].
    destruct (decide (b' = b)) as [->|]; [|by rewrite vget_insert_ne by lia].
    rewrite vget_insert_eq, Hxy by done. cbn [mbind res_bind].
    destruct (decide (c' = c)) as [->|]; [done|by rewrite vget_insert_ne by lia].
  - intros a' Hne Ha2. apply list_lookup_insert_ne. lia.
Qed.
End matrices.

(** The sum of the elements of a plane. *)
Definition row_sum (l : list Z) : Z := foldr Z.add 0 l.
Definition plane_sum (x : list (list Z)) : Z := row_sum (row_sum <$> x).

Lemma row_sum_insert l i x y : l !! i = Some x -> row_sum (<[i := y]> l) = row_sum l - x + y.
Proof.
  revert i. induction l as [|z l IH]; intros [|i] Hi; simpl in *; [done|done|injection Hi as ->; lia|].
  rewrite IH by done. lia.
Qed.

Lemma plane_sum_nonneg x : (forall i j r c, x !! i = Some r -> r !! j = Some c -> 0 <= c) -> 0 <= plane_sum x.
Proof.
  intros Hx. unfold plane_sum. assert (Hrow : forall l, Forall (fun c => 0 <= c) l -> 0 <= row_sum l).
  { induction 1; simpl; lia. }
  apply Hrow, Forall_fmap, Forall_lookup. intros i r Hr. apply Hrow, Forall_lookup. intros j c Hc. by eapply Hx.
Qed.

Lemma mget_plane (m m' : Matrix) a b c : m !! Z.to_nat a = m' !! Z.to_nat a -> mget m a b c = mget m' a b c.
Proof. intros Hm. unfold mget, vget. unfold Matrix in *. by rewrite Hm. Qed.

(** The plane of index [a]. *)
Definition plane (m : Matrix) (a : Z) : list (list Z) := m !!! Z.to_nat a.

Lemma mset_plane_sum m a b c x y m' : mget m a b c = Ok y -> mset m a b c x = Ok m' ->
  plane_sum (plane m' a) = plane_sum (plane m a) - y + x.
Proof.
  intros (p & Hp & (r & Hr & Hy)%bind_Ok)%bind_Ok Hm'. unfold mset, valterM in Hm'.
  rewrite Hp in Hm'. cbn [mbind res_bind] in Hm'. rewrite Hr in Hm'. cbn [mbind res_bind] in Hm'.
  apply bind_Ok in Hm' as (p' & Hp' & [Hb ->]%vset_Ok). apply bind_Ok in Hp' as (r' & [_ ->]%vset_Ok & [_ ->]%vset_Ok).
  apply vget_Ok in Hp as [Ha Hp], Hr as [Hb' Hr], Hy as [Hc Hy]. unfold plane.
  rewrite (list_lookup_total_insert_eq m) by (apply lookup_lt_Some in Hp; lia).
  rewrite (list_lookup_total_correct _ _ _ Hp). unfold plane_sum. rewrite list_fmap_insert.
  rewrite (row_sum_insert _ _ (row_sum r)) by (by rewrite list_lookup_fmap, Hr).
  rewrite (row_sum_insert _ _ y) by done. lia.
Qed.

(** ** Walks *)

(** A walk over the switches [0 .. n-1] and its cost. *)
Inductive walk (n : Z) (W : Z -> Z -> Z) : Z -> Z -> Z -> Prop :=
| walk_nil i : in_range n i -> walk n W i i 0
| walk_cons i k j c : in_range n i -> in_range n k -> walk n W k j c -> walk n W i j (W i k + c).

(** The distance: the least cost of a walk. *)
Definition is_dist (n : Z) (W : Z -> Z -> Z) (i j c : Z) : Prop :=
  walk n W i j c /\ forall c', walk n W i j c' -> c <= c'.

Lemma walk_app n W i k j c1 c2 : walk n W i k c1 -> walk n W k j c2 -> walk n W i j (c1 + c2).
Proof.
  induction 1 as [|i k' k c Hi Hk _ IH]; intros H2; [done|].
  rewrite <- Z.add_assoc. apply walk_cons; auto.
Qed.

Lemma walk_one n W i j : in_range n i -> in_range n j -> walk n W i j (W i j).
Proof. intros. rewrite <- (Z.add_0_r (W i j)). apply walk_cons; [done..|]. by apply walk_nil. Qed.

Lemma is_dist_unique n W i j c c' : is_dist n W i j c -> is_dist n W i j c' -> c = c'.
Proof. intros [H1 H2] [H3 H4]. specialize (H2 _ H3). specialize (H4 _ H1). lia. Qed.

(** A matrix of realised costs that no intermediate switch improves is the
    matrix of the distances. *)
Lemma settled_is_dist n W d : (forall i j, in_range n i -> in_range n j -> walk n W i j (d i j)) ->
  (forall i j, in_range n i -> in_range n j -> d i j <= W i j) ->
  (forall i, in_range n i -> d i i <= 0) ->
  (forall i j k, in_range n i -> in_range n j -> in_range n k -> d i j <= d i k + d k j) ->
  forall i j, in_range n i -> in_range n j -> is_dist n W i j (d i j).
Proof.
  intros Hw Hle Hz Htri i j Hi Hj. split; [by apply Hw|].
  assert (H : forall i c, walk n W i j c -> in_range n i -> d i j <= c).
  { intros i' c. induction 1 as [|i' k j c Hi' Hk _ IH]; intros _; [by apply Hz|].
    specialize (IH Hj Hk). specialize (Htri i' j k Hi' Hj Hk). specialize (Hle i' k Hi' Hk). lia. }
  intros c' Hc. by apply (H i c').
Qed.

(** ** The loops *)

(** What the search relies on: weights are non-negative, small enough for [int], and zero from a switch to itself. *)
Record weights_ok (nv n : nat) (m : Matrix) : Prop := {
  wo_shape : shape nv n n m;
  wo_range : forall v i j w, mget m v i j = Ok w -> 0 <= w < 2 ^ 30;
  wo_diag : forall v i w, mget m v i i = Ok w -> w = 0;
}.

(** An element as a function of its indices. *)
Definition entry (m : Matrix) (a b c : Z) : Z := match mget m a b c with Ok x => x | Err _ => 0 end.

Lemma entry_Ok m a b c x : mget m a b c = Ok x -> entry m a b c = x.
Proof. unfold entry. by intros ->. Qed.

Section search.
Context (nv n : nat) (W : Z -> Z -> Z).
Context (HW : forall i j, in_range (Z.of_nat n) i -> in_range (Z.of_nat n) j -> 0 <= W i j < 2 ^ 30).
Context (v : Z) (Hv : in_range (Z.of_nat nv) v).
Abbreviation N := (Z.of_nat n).

(** Distances under way: every element is the cost of a walk. *)
Record underway (D : Matrix) : Prop := {
  uw_shape : shape nv n n D;
  uw_entry : forall i j, in_range N i -> in_range N j ->
    mget D v i j = Ok (entry D v i j) /\ 0 <= entry D v i j <= W i j /\ walk N W i j (entry D v i j);
}.

(** The auxiliary matrices only have to have the right size. *)
Definition paths_ok (p : Topology.Paths) : Prop :=
  underway (Topology.p_dist p) /\ shape n n nv (Topology.p_latencies p) /\ shape n n nv (Topology.p_inter p).

(** The loop over the candidates for an intermediate switch. *)
Lemma relax_via_loop D i j inter : underway D -> in_range N i -> in_range N j -> shape n n nv inter ->
  safe (for_ n 0 (fun k => Topology.relax_via D v i j k) (entry D v i j, -1, inter))
    (fun '(m, s, inter') => shape n n nv inter' /\
      (forall k, in_range N k -> m <= entry D v i k + entry D v k j) /\
      (m = entry D v i j \/ m < entry D v i j /\ in_range N s /\
         exists k, in_range N k /\ m = entry D v i k + entry D v k j)).
Proof.
  intros [Hs He] Hi Hj Hin.
  eapply safe_mono; [apply (safe_for (fun k '(m, s, inter') => shape n n nv inter' /\
      (forall k', 0 <= k' < k -> m <= entry D v i k' + entry D v k' j) /\
      (m = entry D v i j \/ m < entry D v i j /\ in_range N s /\
         exists k, in_range N k /\ m = entry D v i k + entry D v k j)))|].
  - split; [done|]. split; [lia|by left].
  - intros k [[m s] inter'] Hk (Hin' & Hle & Hm). assert (Hkr : in_range N k) by (unfold in_range; lia).
    destruct (He i k Hi Hkr) as (Hik & Bik & _), (He k j Hkr Hj) as (Hkj & Bkj & _).
    pose proof (HW i k Hi Hkr). pose proof (HW k j Hkr Hj).
    unfold Topology.relax_via. rewrite Hik, Hkj. cbn [mbind res_bind]. rewrite iadd_Ok by lia. cbn [mbind res_bind].
    destruct (Z.eqb_spec m (Z.min m (entry D v i k + entry D v k j))) as [E|E]; cbn [negb].
    + simpl. rewrite <- E. split; [done|]. split; [|done]. intros k' Hk'.
      destruct (decide (k' = k)) as [->|]; [lia|]. apply Hle. lia.
    + destruct (mget_range n n nv inter' i k v Hin' Hi Hkr Hv) as [a ->].
      destruct (mget_range n n nv inter' k j v Hin' Hkr Hj Hv) as [b ->]. cbn [mbind res_bind].
      apply safe_bind. eapply safe_mono; [by apply mset_written|]. intros inter2 [Hsh _ _ _]. simpl.
      split; [done|]. split.
      * intros k' Hk'. destruct (decide (k' = k)) as [->|]; [lia|]. specialize (Hle k'). lia.
      * right. split; [|split; [done|exists k; split; [done|lia]]]. destruct Hm as [->|[? _]]; lia.
  - intros [[m s] inter'] (? & Hle & ?). split; [done|]. split; [|done].
    intros k Hk. apply Hle. unfold in_range in Hk. lia.
Qed.

Lemma underway_sum D : underway D -> 0 <= plane_sum (plane D v).
Proof.
  intros [Hs He]. destruct (shape_vget nv n n D v Hs Hv) as (x & [_ Hx]%vget_Ok & Hl & Hf).
  unfold plane. rewrite (list_lookup_total_correct _ _ _ Hx). apply plane_sum_nonneg. intros i j r c Hr Hc.
  assert (Hi : in_range N (Z.of_nat i)) by (apply lookup_lt_Some in Hr; unfold in_range; lia).
  assert (Hj : in_range N (Z.of_nat j)).
  { apply lookup_lt_Some in Hc. eapply Forall_lookup_1 in Hf; [|exact Hr]. unfold in_range. lia. }
  destruct (He _ _ Hi Hj) as (Hget & Hb & _). unfold mget in Hget.
  assert (Hv' : vget D v = Ok x) by (apply vget_Ok; unfold in_range in Hv; split; [lia|done]).
  rewrite Hv' in Hget. cbn [mbind res_bind] in Hget.
  rewrite (vget_nat _ _ _ Hr) in Hget. cbn [mbind res_bind] in Hget.
  rewrite (vget_nat _ _ _ Hc) in Hget. injection Hget as ->. lia.
Qed.

(** No intermediate switch shortens the way from [i] to [j]. *)
Definition settled (D : Matrix) (i j : Z) : Prop :=
  forall k, in_range N k -> entry D v i j <= entry D v i k + entry D v k j.

(** The planes of the other virtual networks stay. *)
Definition others (D D' : Matrix) : Prop :=
  forall v', v' <> v -> 0 <= v' -> D' !! Z.to_nat v' = D !! Z.to_nat v'.

Lemma underway_write D i j m D' : underway D -> in_range N i -> in_range N j -> 0 <= m <= W i j ->
  walk N W i j m -> written nv n n D v i j m D' -> underway D'.
Proof.
  intros [Hs He] Hi Hj Hm Hw [Hs' Hsame Hoth _]. split; [done|]. intros i' j' Hi' Hj'. unfold entry.
  destruct (decide ((v, i', j') = (v, i, j))) as [[= -> ->]|Hne]; [by rewrite Hsame|].
  rewrite Hoth by done. destruct (He i' j' Hi' Hj') as (Hg & ? & ?). by rewrite Hg.
Qed.

(** One pair of switches: either nothing changes and the pair is settled, or
    a distance becomes smaller. *)
Lemma relax_spec i j change p : paths_ok p -> in_range N i -> in_range N j ->
  safe (Topology.relax N v i j (change, p)) (fun '(change', p') => paths_ok p' /\
    others (Topology.p_dist p) (Topology.p_dist p') /\
    ((change' = change /\ Topology.p_dist p' = Topology.p_dist p /\ settled (Topology.p_dist p) i j) \/
     (change' = true /\
      plane_sum (plane (Topology.p_dist p') v) < plane_sum (plane (Topology.p_dist p) v)))).
Proof.
  intros (Hu & Hlat & Hin) Hi Hj. unfold Topology.relax. destruct (uw_entry _ Hu i j Hi Hj) as (Hij & Bij & Wij).
  rewrite Hij. cbn [mbind res_bind]. apply safe_bind. rewrite Nat2Z.id.
  eapply safe_mono; [by apply relax_via_loop|]. intros [[m s] inter] (Hin' & Hle & Hm).
  destruct (Z.eqb_spec (entry (Topology.p_dist p) v i j) m) as [E|E]; cbn [negb].
  - simpl. split; [by split_and!|]. split; [done|]. left. do 2 (split; [done|]). intros k Hk. rewrite E. by apply Hle.
  - destruct Hm as [Hm|(Hlt & Hsr & k & Hk & Hmk)]; [congruence|].
    destruct (uw_entry _ Hu i k Hi Hk) as (_ & ? & Wik), (uw_entry _ Hu k j Hk Hj) as (_ & ? & Wkj).
    apply safe_bind. cbn [Topology.p_dist Topology.p_latencies].
    pose proof (mset_written nv n n (Topology.p_dist p) v i j m (uw_shape _ Hu) Hv Hi Hj) as Hset.
    apply safe_inv in Hset as (D' & Hset & Hwr).
    change (Topology.p_dist p <| Topology.p_inter := inter |>) with (Topology.p_dist p).
    change (Topology.p_latencies p <| Topology.p_inter := inter |>) with (Topology.p_latencies p).
    rewrite Hset. cbn [safe]. apply safe_bind, safe_assert; [apply Z.leb_le; unfold in_range in Hsr; lia|].
    destruct (shape_vget n n nv (Topology.p_latencies p) i Hlat Hi) as (row & -> & Hrow & _).
    cbn [mbind res_bind]. apply safe_bind, safe_assert.
    { apply Z.ltb_lt. unfold zlength, in_range in *. lia. }
    destruct (mget_range n n nv _ i s v Hlat Hi Hsr Hv) as [a ->].
    destruct (mget_range n n nv _ s j v Hlat Hsr Hj Hv) as [b ->]. cbn [mbind res_bind].
    apply safe_bind. eapply safe_mono; [by apply mset_written|]. intros lat' [Hlat' _ _ _]. simpl.
    split; [split_and!; [|done|done]|split; [exact (wr_outer _ _ _ _ _ _ _ _ _ Hwr)|right; split; [done|]]].
    + apply (underway_write (Topology.p_dist p) i j m); [done..|lia| |done]. rewrite Hmk. by eapply walk_app.
    + rewrite (mset_plane_sum _ _ _ _ _ _ _ Hij Hset). lia.
Qed.

Lemma others_trans D1 D2 D3 : others D1 D2 -> others D2 D3 -> others D1 D3.
Proof. intros H1 H2 v' Hne Hv'. rewrite H2 by done. by apply H1. Qed.

(** A round under way, before the pair [i], [j] of it. *)
Definition sweeping (D : Matrix) (before : Z -> Z -> Prop) (st : bool * Topology.Paths) : Prop :=
  paths_ok st.2 /\ others D (Topology.p_dist st.2) /\
  ((st.1 = false /\ Topology.p_dist st.2 = D /\
    forall i j, in_range N i -> in_range N j -> before i j -> settled D i j) \/
   (st.1 = true /\ plane_sum (plane (Topology.p_dist st.2) v) < plane_sum (plane D v))).

Lemma relax_sweeping D before i j st : sweeping D before st -> in_range N i -> in_range N j ->
  safe (Topology.relax N v i j st) (sweeping D (fun i' j' => before i' j' \/ (i' = i /\ j' = j))).
Proof.
  intros (Hp & Ho & Hst) Hi Hj. destruct st as [change p]. simpl in *.
  eapply safe_mono; [by apply relax_spec|]. intros [change' p'] (Hp' & Ho' & Hst').
  split; [done|]. split; [by eapply others_trans|]. simpl.
  destruct Hst' as [(-> & -> & Hset)|[-> Hlt]]; [|right; split; [done|destruct Hst as [(_ & <- & _)|[_ ?]]; lia]].
  destruct Hst as [(-> & <- & Hb)|[-> ?]]; [left|by right].
  do 2 (split; [done|]). intros i' j' Hi' Hj' [Hbe|[-> ->]]; [by apply Hb|done].
Qed.

Lemma sweep_spec p : paths_ok p ->
  safe (Topology.sweep N v p) (sweeping (Topology.p_dist p) (fun _ _ => True)).
Proof.
  intros Hp. unfold Topology.sweep. rewrite Nat2Z.id.
  assert (Hmono : forall D (P Q : Z -> Z -> Prop) st, (forall i j, in_range N i -> in_range N j -> Q i j -> P i j) ->
    sweeping D P st -> sweeping D Q st).
  { intros D P Q st Himp (? & ? & [(? & ? & Hb)|?]); split; try done; split; try done; [left|by right].
    do 2 (split; [done|]). intros. apply Hb; [done..|]. by apply Himp. }
  eapply safe_mono; [apply (safe_for (fun i => sweeping (Topology.p_dist p) (fun i' _ => i' < i)))|].
  - split; [done|]. split; [done|]. left. do 2 (split; [done|]). unfold in_range. lia.
  - intros i st Hi Hst. eapply safe_mono;
      [apply (safe_for (fun j => sweeping (Topology.p_dist p) (fun i' j' => i' < i \/ (i' = i /\ j' < j))))|].
    + eapply Hmono; [|exact Hst]. unfold in_range. simpl. lia.
    + intros j st' Hj Hst'. eapply safe_mono; [apply relax_sweeping; [exact Hst'|unfold in_range; lia..]|].
      intros st2. apply Hmono. simpl. lia.
    + intros st'. apply Hmono. unfold in_range. simpl. lia.
  - intros st. apply Hmono. unfold in_range. simpl. lia.
Qed.

(** The loop ends: every round but the last makes the sum of the distances
    smaller. *)
Lemma sweeps_spec fuel p : paths_ok p -> plane_sum (plane (Topology.p_dist p) v) < Z.of_nat fuel ->
  safe (Topology.sweeps fuel N v p) (fun p' => paths_ok p' /\ others (Topology.p_dist p) (Topology.p_dist p') /\
    forall i j, in_range N i -> in_range N j -> settled (Topology.p_dist p') i j).
Proof.
  revert p. induction fuel as [|fuel IH]; intros p Hp Hf.
  { pose proof (underway_sum _ (proj1 Hp)). lia. }
  simpl. apply safe_bind. eapply safe_mono; [by apply sweep_spec|].
  intros [change p'] (Hp' & Ho & Hst). simpl in Hp', Ho, Hst. destruct Hst as [(-> & Heq & Hb)|[-> Hlt]].
  - split; [done|]. split; [done|]. intros i j Hi Hj. rewrite Heq. by apply Hb.
  - eapply safe_mono; [apply IH; [done|lia]|]. intros p2 (Hp2 & Ho2 & Hset). split; [done|].
    split; [by eapply others_trans|done].
Qed.
End search.

(** ** Distances of all virtual networks *)

(** Rounds enough for every virtual network. *)
Definition path_fuel (weights : Matrix) : nat :=
  S (Z.to_nat (foldr (fun x acc => Z.max (plane_sum x) acc) 0 weights)).

Lemma path_fuel_enough weights x : x ∈ weights -> plane_sum x < Z.of_nat (path_fuel weights).
Proof.
  unfold path_fuel. induction weights as [|y l IH]; intros Hx; [by apply not_elem_of_nil in Hx|].
  apply elem_of_cons in Hx as [->|Hx]; simpl; [lia|]. specialize (IH Hx). lia.
Qed.

(** The distances of virtual network [v], for the weights [weights]. *)
Definition dist_plane (n : nat) (weights D : Matrix) (v : Z) : Prop :=
  forall i j, in_range (Z.of_nat n) i -> in_range (Z.of_nat n) j ->
    exists c, mget D v i j = Ok c /\ is_dist (Z.of_nat n) (entry weights v) i j c.

Lemma start_underway nv n weights D v : weights_ok nv n weights -> shape nv n n D -> in_range (Z.of_nat nv) v ->
  D !! Z.to_nat v = weights !! Z.to_nat v -> underway nv n (entry weights v) v D.
Proof.
  intros [Hsw Hr Hd] Hs Hv Heq. split; [done|]. intros i j Hi Hj.
  assert (Hget : mget D v i j = mget weights v i j) by (by apply mget_plane).
  unfold entry. rewrite Hget. destruct (mget_range nv n n weights v i j Hsw Hv Hi Hj) as [w Hw].
  rewrite Hw. split; [done|]. pose proof (Hr _ _ _ _ Hw). split; [lia|].
  pose proof (walk_one (Z.of_nat n) (entry weights v) i j Hi Hj) as H1. by rewrite (entry_Ok _ _ _ _ _ Hw) in H1.
Qed.

Lemma settled_plane nv n weights D v : weights_ok nv n weights -> in_range (Z.of_nat nv) v ->
  underway nv n (entry weights v) v D ->
  (forall i j, in_range (Z.of_nat n) i -> in_range (Z.of_nat n) j -> settled n v D i j) -> dist_plane n weights D v.
Proof.
  intros Hw Hv Hu Hset i j Hi Hj. exists (entry D v i j). split; [by apply (uw_entry _ _ _ _ _ Hu)|].
  apply settled_is_dist; try done.
  - intros. by apply (uw_entry _ _ _ _ _ Hu).
  - intros. by apply (uw_entry _ _ _ _ _ Hu).
  - intros k Hk. destruct (uw_entry _ _ _ _ _ Hu k k Hk Hk) as (_ & Hb & _).
    destruct (mget_range nv n n weights v k k (wo_shape _ _ _ Hw) Hv Hk Hk) as [w Hwk].
    rewrite (entry_Ok _ _ _ _ _ Hwk), (wo_diag _ _ _ Hw _ _ _ Hwk) in Hb. lia.
  - intros. by apply Hset.
Qed.

Lemma shortest_path_spec fuel s weights latencies inter nv n :
  weights_ok nv n weights -> shape n n nv latencies -> shape n n nv inter ->
  Topology.m_vnets s = Z.of_nat nv -> (0 < nv)%nat -> (path_fuel weights <= fuel)%nat ->
  safe (Topology.shortest_path fuel s weights latencies inter) (fun p =>
    shape nv n n (Topology.p_dist p) /\ shape n n nv (Topology.p_latencies p) /\
    shape n n nv (Topology.p_inter p) /\
    forall v, in_range (Z.of_nat nv) v -> dist_plane n weights (Topology.p_dist p) v).
Proof.
  intros Hw Hl Hi Hnv Hpos Hf. unfold Topology.shortest_path, Topology.extend_shortest_path.
  pose proof (wo_shape _ _ _ Hw) as Hsw.
  destruct (shape_vget nv n n weights 0 Hsw) as (x & Hx & Hlen & _); [unfold in_range; lia|].
  cbn [Topology.p_dist]. rewrite Hx. cbn [mbind res_bind]. rewrite Hnv, Nat2Z.id.
  replace (zlength x) with (Z.of_nat n) by (unfold zlength; lia).
  eapply safe_mono; [apply (safe_for (fun v p => shape nv n n (Topology.p_dist p) /\
    shape n n nv (Topology.p_latencies p) /\ shape n n nv (Topology.p_inter p) /\
    (forall v', 0 <= v' < v -> dist_plane n weights (Topology.p_dist p) v') /\
    (forall v', v <= v' -> Topology.p_dist p !! Z.to_nat v' = weights !! Z.to_nat v')))|].
  - split_and!; try done. intros. lia.
  - intros v p Hv (Hsd & Hsl & Hsi & Hdone & Htodo). assert (Hvr : in_range (Z.of_nat nv) v) by (unfold in_range; lia).
    assert (HWr : forall i j, in_range (Z.of_nat n) i -> in_range (Z.of_nat n) j -> 0 <= entry weights v i j < 2 ^ 30).
    { intros i j Hi' Hj'. destruct (mget_range nv n n weights v i j Hsw Hvr Hi' Hj') as [w Hwij].
      rewrite (entry_Ok _ _ _ _ _ Hwij). by apply (wo_range _ _ _ Hw _ _ _ _ Hwij). }
    assert (Hu : underway nv n (entry weights v) v (Topology.p_dist p)) by (apply start_underway; auto; apply Htodo; lia).
    eapply safe_mono; [apply (sweeps_spec nv n (entry weights v) HWr v Hvr fuel p); [by split_and!|]|].
    { destruct (shape_vget nv n n weights v Hsw Hvr) as (y & [_ Hy]%vget_Ok & _). unfold plane.
      assert (Hpy : Topology.p_dist p !! Z.to_nat v = Some y) by (rewrite Htodo by lia; done).
      rewrite (list_lookup_total_correct _ _ _ Hpy). pose proof (path_fuel_enough weights y (list_elem_of_lookup_2 _ _ _ Hy)). lia. }
    intros p' ((Hu' & Hl' & Hi') & Ho & Hset). split_and!; [apply (uw_shape _ _ _ _ _ Hu')|done|done| |].
    + intros v' Hv'. destruct (decide (v' = v)) as [->|]; [by eapply settled_plane|].
      intros i j Hi2 Hj2. destruct (Hdone v' ltac:(lia) i j Hi2 Hj2) as (c & Hc & Hdc). exists c. split; [|done].
      rewrite <- Hc. apply mget_plane, Ho; lia.
    + intros v' Hv'. rewrite Ho by lia. apply Htodo. lia.
  - intros p (? & ? & ? & Hdone & _). split_and!; [done..|]. intros v Hv. apply Hdone. unfold in_range in Hv. lia.
Qed.

(** ** Routing tables *)

(** The link from [src] to [next] is the first of a shortest way to [final]. *)
Definition leads (n : nat) (W : Z -> Z -> Z) (src next final : Z) : Prop :=
  exists d d', is_dist (Z.of_nat n) W next final d /\ is_dist (Z.of_nat n) W src final d' /\ W src next + d = d'.

Section machines.
Context `{Hmt : MachineTypes} `{!MachineTypesOk}.

(** The number of machines and the switch of the output of a machine. *)
Definition machines : Z := MachineType_base_number MachineType_NUM.
Definition out_switch (m i : Z) : Z := machines + MachineType_base_number m + i.
Definition machine (m i : Z) : Prop := 0 <= m < MachineType_NUM /\ 0 <= i < MachineType_base_count m.

End machines.

Section tables.
Context `{Hmt : MachineTypes} `{!MachineTypesOk}.
Context (nv n : nat) (weights dist : Matrix) (Hw : weights_ok nv n weights) (Hsd : shape nv n n dist).
Context (v : Z) (Hv : in_range (Z.of_nat nv) v) (Hdist : dist_plane n weights dist v).
Abbreviation W := (entry weights v).

Context (Hn : 2 * machines <= Z.of_nat n).

Lemma out_switch_range m i : machine m i -> in_range (Z.of_nat n) (out_switch m i).
Proof.
  intros [Hm Hi]. unfold out_switch, in_range.
  assert (H1 : 0 <= MachineType_base_number (m + 1) <= machines) by (apply base_number_mono; lia).
  assert (H2 : 0 <= MachineType_base_number m <= machines) by (apply base_number_mono; lia).
  rewrite machine_number_succ in H1 by lia. lia.
Qed.

Lemma weight_entry i j : in_range (Z.of_nat n) i -> in_range (Z.of_nat n) j ->
  mget weights v i j = Ok (W i j) /\ 0 <= W i j < 2 ^ 30.
Proof.
  intros Hi Hj. destruct (mget_range nv n n weights v i j (wo_shape _ _ _ Hw) Hv Hi Hj) as [w Hwij].
  rewrite (entry_Ok _ _ _ _ _ Hwij). split; [done|]. by apply (wo_range _ _ _ Hw _ _ _ _ Hwij).
Qed.

Lemma walk_nonneg i j c : walk (Z.of_nat n) W i j c -> 0 <= c.
Proof. induction 1 as [|i k j c Hi Hk _ IH]; [done|]. pose proof (weight_entry i k Hi Hk). lia. Qed.

Lemma is_shortest_spec src next final : in_range (Z.of_nat n) src -> in_range (Z.of_nat n) next ->
  in_range (Z.of_nat n) final ->
  safe (Topology.link_is_shortest_path_to_node src next final weights dist v)
    (fun b => b = true <-> leads n W src next final).
Proof.
  intros Hs Hx Hf. unfold Topology.link_is_shortest_path_to_node.
  destruct (weight_entry src next Hs Hx) as [-> Hwb]. cbn [mbind res_bind].
  destruct (Hdist next final Hx Hf) as (d & -> & Hd), (Hdist src final Hs Hf) as (d' & -> & Hd').
  cbn [mbind res_bind]. pose proof (walk_nonneg _ _ _ (proj1 Hd)).
  pose proof (proj2 Hd _ (walk_one _ _ _ _ Hx Hf)). destruct (weight_entry next final Hx Hf) as [_ Hb].
  rewrite iadd_Ok by lia. simpl. rewrite Z.eqb_eq. split; [intros; by exists d, d'|].
  intros (e & e' & He & He' & Heq). by rewrite (is_dist_unique _ _ _ _ _ _ Hd He), (is_dist_unique _ _ _ _ _ _ Hd' He').
Qed.

(** The table entry of a link holds the machines it leads to. *)
Definition entry_of (src next : Z) (d : NetDest.t) : Prop :=
  NetDest.sized d /\ forall m i, NetDest.mem d m i <-> machine m i /\ leads n W src next (out_switch m i).

Lemma shortest_path_to_node_spec src next : in_range (Z.of_nat n) src -> in_range (Z.of_nat n) next ->
  safe (Topology.shortest_path_to_node src next weights dist v) (entry_of src next).
Proof.
  intros Hs Hx. unfold Topology.shortest_path_to_node. pose proof machine_num_nonneg.
  apply safe_bind. eapply safe_mono; [apply NetDest.new_spec|]. intros d0 [Hd0 Hnone]. apply safe_bind.
  eapply safe_mono; [apply (safe_for (fun m '(d, k) => k = MachineType_base_number m /\ NetDest.sized d /\
    forall m' i', NetDest.mem d m' i' <-> (machine m' i' /\ m' < m) /\ leads n W src next (out_switch m' i')))|].
  - split; [by rewrite machine_number_0|]. split; [done|]. intros m i. split; [by intros ?%Hnone|].
    unfold machine. lia.
  - intros m [d k] Hm (-> & Hsz & Hmem). eapply safe_mono.
    + apply (safe_for (fun i '(d, k) => k = MachineType_base_number m + i /\ NetDest.sized d /\
        forall m' i', NetDest.mem d m' i' <->
          (machine m' i' /\ (m' < m \/ (m' = m /\ i' < i))) /\ leads n W src next (out_switch m' i'))).
      * split; [lia|]. split; [done|]. intros m' i'. rewrite Hmem. unfold machine. intuition lia.
      * intros i [d1 k1] Hi (-> & Hsz1 & Hmem1). assert (Hmi : machine m i) by (unfold machine; lia).
        apply safe_bind. replace (_ + _ + _) with (out_switch m i) by (unfold out_switch, machines; lia).
        eapply safe_mono; [by apply is_shortest_spec, out_switch_range|]. intros short Hshort. apply safe_bind.
        assert (Hext : forall m' i', (machine m' i' /\ (m' < m \/ m' = m /\ i' < i + 1)) <->
          (machine m' i' /\ (m' < m \/ m' = m /\ i' < i)) \/ (m' = m /\ i' = i)).
        { intros m' i'. unfold machine. intuition (subst; lia). }
        destruct short.
        -- eapply safe_mono; [by apply NetDest.add_spec; [|apply Hmi..]|]. intros d2 [Hsz2 Hmem2]. simpl.
           split; [lia|]. split; [done|]. intros m' i'. rewrite Hmem2, Hmem1, Hext.
           split; [intros [[? ?]|[-> ->]]|intros [[?|?] ?]]; intuition.
        -- simpl. split; [lia|]. split; [done|]. intros m' i'. rewrite Hmem1, Hext. split; [tauto|].
           intros [[?|[-> ->]] Hl]; [done|]. by apply Hshort in Hl.
    + intros [d1 k1] (-> & Hsz1 & Hmem1). pose proof (machine_count_nonneg m).
      split; [rewrite machine_number_succ by lia; lia|]. split; [done|].
      intros m' i'. rewrite Hmem1. unfold machine. destruct (decide (m' = m)) as [->|]; intuition lia.
  - intros [d k] (_ & Hsz & Hmem). simpl. split; [done|]. intros m i. rewrite Hmem. unfold machine.
    rewrite Z2Nat.id by lia. intuition lia.
Qed.

(** ** Following the tables *)

(** Two different switches are connected at a positive cost, or by the
    weight that stands for no link. *)
Definition positive : Prop :=
  forall i j, in_range (Z.of_nat n) i -> in_range (Z.of_nat n) j -> i <> j -> 0 < W i j.

(** From [src] a packet for [final] arrives whichever of the links it takes
    at every switch, within [bound] hops, and there always is one. *)
Inductive arrives (hop : Z -> Z -> Prop) (final : Z) : nat -> Z -> Prop :=
| arrived k : arrives hop final k final
| underway_hop k src : (exists next, hop src next) -> (forall next, hop src next -> arrives hop final k next) ->
    arrives hop final (S k) src.

Lemma walk_first i j c : walk (Z.of_nat n) W i j c -> i <> j ->
  exists k c', k <> i /\ in_range (Z.of_nat n) k /\ walk (Z.of_nat n) W k j c' /\ W i k + c' <= c.
Proof.
  induction 1 as [|i k j c Hi Hk Hwk IH]; intros Hne; [done|].
  destruct (decide (k = i)) as [->|Hki]; [|exists k, c; do 3 (split; [done|]); lia].
  destruct (IH Hne) as (k & c' & ? & ? & ? & ?). exists k, c'. do 3 (split; [done|]).
  pose proof (weight_entry i i Hi Hi). lia.
Qed.

(** Hops along links that lead to the destination arrive. *)
Lemma leads_arrives (hop : Z -> Z -> Prop) final : positive -> in_range (Z.of_nat n) final ->
  (forall src next, hop src next -> in_range (Z.of_nat n) next /\ 0 < W src next /\ leads n W src next final) ->
  (forall src next, in_range (Z.of_nat n) src -> in_range (Z.of_nat n) next -> 0 < W src next < INFINITE_LATENCY ->
     leads n W src next final -> hop src next) ->
  forall k c src, in_range (Z.of_nat n) src -> is_dist (Z.of_nat n) W src final c -> c < INFINITE_LATENCY ->
  c <= Z.of_nat k -> arrives hop final k src.
Proof.
  intros Hpos Hf Hhop1 Hhop2 k. induction k as [|k IH]; intros c src Hs Hd Hinf Hk.
  all: destruct (decide (src = final)) as [->|Hne]; [apply arrived|];
    destruct (walk_first _ _ _ (proj1 Hd) Hne) as (x & c' & Hxs & Hx & Hwx & Hle);
    pose proof (Hpos src x Hs Hx (not_eq_sym Hxs)); pose proof (walk_nonneg _ _ _ Hwx).
  { lia. }
  destruct (Hdist x _ Hx Hf) as (dx & _ & Hdx).
  assert (Hsum : W src x + dx = c).
  { pose proof (proj2 Hdx _ Hwx). pose proof (proj2 Hd _ (walk_cons _ _ _ _ _ _ Hs Hx (proj1 Hdx))). lia. }
  pose proof (walk_nonneg _ _ _ (proj1 Hdx)).
  apply underway_hop.
  - exists x. apply Hhop2; [done..|lia|]. by exists dx, c.
  - intros next Hhop. apply Hhop1 in Hhop as (Hnx & Hwp & (e & e' & He & He' & Hsum')).
    rewrite (is_dist_unique _ _ _ _ _ _ He' Hd) in Hsum'. apply (IH e); [done..|lia|lia].
Qed.

End tables.
