(* ===== verification/TopologyLinks.v ===== *)
(** * TopologyLinks: from the links of a topology to its routing tables

    What [Topology::createLinks] makes of the links that the constructor
    collected: the matrices of weights hold the weights of the links, and
    every link gets, for every virtual network it carries, the machines it
    leads to on a shortest way. *)

From Stdlib Require Import Sorted.
From stdpp Require Import sorting.
From S2P Require Import Prelude NetDest CommonTypes RoutingUnit Topology TopologyProofs.
Import Topology.

(** ** The map of the links *)

Definition key_lt (a b : Z * Z) : Prop := key_ltb a b = true.

Lemma key_lt_trans a b c : key_lt a b -> key_lt b c -> key_lt a c.
Proof. unfold key_lt, key_ltb. intros. lia. Qed.

Lemma key_lt_irrefl a : ~ key_lt a a.
Proof. unfold key_lt, key_ltb. lia. Qed.

Lemma key_total a b : a <> b -> key_ltb a b = false -> key_lt b a.
Proof.
  destruct a as [a1 a2], b as [b1 b2]. unfold key_lt, key_ltb. simpl. intros Hne H.
  assert (a1 <> b1 \/ a2 <> b2) by (destruct (decide (a1 = b1)), (decide (a2 = b2)); subst; tauto). lia.
Qed.

Definition map_ok (m : LinkMap) : Prop := StronglySorted key_lt (fst <$> m).

Lemma link_push_keys k e m k' : k' ∈ (fst <$> link_push k e m) <-> k' = k \/ k' ∈ (fst <$> m).
Proof.
  induction m as [|[k0 l] m IH]; simpl; [set_solver|].
  case_bool_decide as Hk; [subst; set_solver|]. destruct (key_ltb k k0); simpl; set_solver.
Qed.

Lemma link_push_ok k e m : map_ok m -> map_ok (link_push k e m).
Proof.
  unfold map_ok. induction m as [|[k0 l] m IH]; simpl; intros Hs; [repeat constructor|].
  apply StronglySorted_inv in Hs as [Hs Hf]. case_bool_decide as Hk; [by constructor|].
  destruct (key_ltb k k0) eqn:E; simpl.
  - constructor; [by constructor|]. constructor; [done|]. eapply list.Forall_impl; [exact Hf|].
    intros x. by apply key_lt_trans.
  - constructor; [by apply IH|]. apply list.Forall_forall. intros x [->|Hx]%link_push_keys; [by apply key_total|].
    by eapply list.Forall_forall in Hf.
Qed.

Lemma link_find_absent k m : k ∉ (fst <$> m) -> link_find k m = [].
Proof.
  induction m as [|[k0 l] m IH]; simpl; [done|]. intros Hk. rewrite bool_decide_eq_false_2 by set_solver.
  apply IH. set_solver.
Qed.

Lemma link_find_push k k' e m : map_ok m ->
  link_find k (link_push k' e m) = link_find k m ++ (if decide (k = k') then [e] else []).
Proof.
  unfold map_ok. induction m as [|[k0 l] m IH]; simpl; intros Hs.
  { case_decide; [by rewrite bool_decide_eq_true_2|by rewrite bool_decide_eq_false_2]. }
  apply StronglySorted_inv in Hs as [Hs Hf]. case_bool_decide as Hk'; simpl.
  - subst k0. case_bool_decide; [by rewrite decide_True|by rewrite decide_False, app_nil_r].
  - destruct (key_ltb k' k0) eqn:E; simpl.
    + case_bool_decide as Hk; [|rewrite decide_False, app_nil_r by done; done]. subst k'.
      rewrite decide_True by done. rewrite bool_decide_eq_false_2 by done.
      rewrite link_find_absent; [done|]. intros Hin. eapply list.Forall_forall in Hf; [|exact Hin].
      apply (key_lt_irrefl k). by eapply key_lt_trans.
    + case_bool_decide as Hk; [subst; by rewrite decide_False, app_nil_r|]. by apply IH.
Qed.

Lemma link_find_elem m k l : map_ok m -> (k, l) ∈ m -> link_find k m = l.
Proof.
  unfold map_ok. induction m as [|[k0 l0] m IH]; simpl; intros Hs Hin; [by apply not_elem_of_nil in Hin|].
  apply StronglySorted_inv in Hs as [Hs Hf]. apply elem_of_cons in Hin as [[= -> ->]|Hin].
  - by rewrite bool_decide_eq_true_2.
  - rewrite bool_decide_eq_false_2; [by apply IH|]. intros ->. eapply list.Forall_forall in Hf;
      [by apply (key_lt_irrefl k0)|]. apply list_elem_of_fmap. by exists (k0, l).
Qed.

Lemma link_find_in m k e : e ∈ link_find k m -> (k, link_find k m) ∈ m.
Proof.
  induction m as [|[k0 l0] m IH]; simpl; [intros H; by apply not_elem_of_nil in H|].
  case_bool_decide as Hk; intros He; [subst; by left|right; by apply IH].
Qed.

(** ** Filling the matrices *)

(** The virtual networks of a link, among [nv]. *)
Definition vnets_of (nv : nat) (l : BasicLink) : list Z :=
  match bl_vnets l with [] => seqZ 0 (Z.of_nat nv) | vs => vs end.

(** What the links between two switches carry. *)
Definition carried (nv : nat) (es : list LinkEntry) : list (Z * BasicLink) :=
  es ≫= (fun e => (fun v => (v, le_link e)) <$> vnets_of nv (le_link e)).

Lemma for_seqZ {St} (f : Z -> St -> res St) n i s : for_ n i f s = for_each (seqZ i (Z.of_nat n)) f s.
Proof.
  revert i s. induction n as [|n IH]; intros i s; [done|].
  rewrite Nat2Z.inj_succ, seqZ_cons by lia. simpl. destruct (f i s) as [s'|]; [|done]. cbn [mbind res_bind].
  rewrite IH. do 2 f_equal; lia.
Qed.

Lemma for_each_ext {A St} (f g : A -> St -> res St) l s : (forall x s, x ∈ l -> f x s = g x s) ->
  for_each l f s = for_each l g s.
Proof.
  revert s. induction l as [|x l IH]; intros s Hfg; [done|]. simpl. rewrite Hfg by (by left).
  destruct (g x s); [|done]. cbn [mbind res_bind]. apply IH. intros. apply Hfg. by right.
Qed.

Lemma for_each_app {A St} (f : A -> St -> res St) l1 l2 s :
  for_each (l1 ++ l2) f s = s ← for_each l1 f s; for_each l2 f s.
Proof.
  revert s. induction l1 as [|x l1 IH]; intros s; [done|]. simpl. destruct (f x s); [|done]. cbn [mbind res_bind]. apply IH.
Qed.

Lemma for_each_fmap {A B St} (h : A -> B) (f : B -> St -> res St) l s :
  for_each (h <$> l) f s = for_each l (fun x => f (h x)) s.
Proof. revert s. induction l as [|x l IH]; intros s; [done|]. simpl. destruct (f (h x) s); [apply IH|done]. Qed.

Lemma for_each_bind {A B St} (h : A -> list B) (f : B -> St -> res St) l s :
  for_each (l ≫= h) f s = for_each l (fun x => for_each (h x) f) s.
Proof.
  revert s. induction l as [|x l IH]; intros s; [done|]. cbn [mbind list_bind]. rewrite for_each_app. simpl.
  destruct (for_each (h x) f s); [apply IH|done].
Qed.

Lemma matrix_shape na nb nc x : shape na nb nc (matrix na nb nc x).
Proof.
  unfold matrix. split; [by rewrite length_replicate|]. apply Forall_replicate. split; [by rewrite length_replicate|].
  apply Forall_replicate. by rewrite length_replicate.
Qed.

(** Two results that differ in the way a condition is written. *)
Ltac same_condition :=
  unfold in_range in *;
  match goal with
  | |- Ok (if ?a then _ else _) = Ok (if ?b then _ else _) => replace a with b by lia; done
  end.

Section fill.
Context `{MachineTypes} (s : t) (nv n : nat) (Hnv : m_vnets s = Z.of_nat nv).

Lemma fill_link_carried src dst l st : Forall (in_range (Z.of_nat nv)) (vnets_of nv l) ->
  fill_link s src dst l st = for_each (vnets_of nv l) (set_weight src dst l) st.
Proof.
  intros Hf. unfold fill_link, vnets_of in *. rewrite Hnv, Nat2Z.id. destruct (bl_vnets l) as [|v vs]; [apply for_seqZ|].
  apply for_each_ext. intros x st' Hx. eapply list.Forall_forall in Hf; [|exact Hx]. unfold in_range in Hf.
  by rewrite (proj2 (Z.leb_gt _ _)) by lia.
Qed.

(** The links of a group carry each virtual network once at most. *)
Definition group_ok (es : list LinkEntry) : Prop :=
  NoDup (fst <$> carried nv es) /\ Forall (fun '(v, l) => in_range (Z.of_nat nv) v) (carried nv es).

Lemma fill_links_carried src dst es st : Forall (fun '(v, l) => in_range (Z.of_nat nv) v) (carried nv es) ->
  for_each es (fun e => fill_link s src dst (le_link e)) st =
  for_each (carried nv es) (fun '(v, l) => set_weight src dst l v) st.
Proof.
  intros Hf. unfold carried. rewrite for_each_bind. apply for_each_ext. intros e st' He.
  rewrite for_each_fmap. apply fill_link_carried. apply list.Forall_forall. intros v Hv.
  rewrite list.Forall_forall in Hf. apply (Hf (v, le_link e)). apply list_elem_of_bind.
  exists e. split; [|done]. apply list_elem_of_fmap. by exists v.
Qed.

(** The weights after the links between [src] and [dst]. *)
Record group_filled (src dst : Z) (ls : list (Z * BasicLink)) (w0 w : Matrix) : Prop := {
  gf_shape : shape nv n n w;
  gf_link : forall v l, (v, l) ∈ ls -> mget w v src dst = Ok (bl_weight l);
  gf_other : forall v i j, ((i, j) = (src, dst) -> v ∉ (fst <$> ls)) -> mget w v i j = mget w0 v i j;
}.

Lemma set_weights_spec src dst ls lat0 w0 : in_range (Z.of_nat n) src -> in_range (Z.of_nat n) dst ->
  shape n n nv lat0 -> shape nv n n w0 ->
  NoDup (fst <$> ls) -> Forall (fun '(v, l) => in_range (Z.of_nat nv) v) ls ->
  safe (for_each ls (fun '(v, l) => set_weight src dst l v) (replicate nv false, lat0, w0))
    (fun '(_, lat, w) => shape n n nv lat /\ group_filled src dst ls w0 w).
Proof.
  intros Hs Hd Hl0 Hw0 Hnd Hr.
  eapply safe_mono; [apply (safe_for_each (fun pre '(vd, lat, w) => shape n n nv lat /\ group_filled src dst pre w0 w /\
    length vd = nv /\ forall v, vget vd v = Ok true -> v ∈ (fst <$> pre)))|].
  - split; [done|]. split; [split; [done| |done]|split; [by rewrite length_replicate|]].
    + intros v l Hin. by apply not_elem_of_nil in Hin.
    + intros v [_ [Hx _]%lookup_replicate]%vget_Ok. done.
  - intros pre [v l] post [[vd lat] w] -> (Hlat & [Hw Hlk Hoth] & Hvd & Htrue).
    rewrite fmap_app in Hnd. apply list.NoDup_app in Hnd as (_ & Hdis & _).
    assert (Hnew : v ∉ (fst <$> pre)) by (intros Hin; apply (Hdis v Hin); left).
    apply Forall_app in Hr as [_ Hr]. apply list.Forall_cons in Hr as [Hvr _].
    unfold set_weight. destruct (vget_range vd v) as [b Hb]; [unfold zlength, in_range in *; lia|].
    rewrite Hb. cbn [mbind res_bind]. destruct b; [by apply Htrue in Hb|].
    apply safe_bind. eapply safe_mono; [by apply (mset_written n n nv)|]. intros lat' [Hlat' _ _ _].
    apply safe_bind. eapply safe_mono; [by apply (mset_written nv n n)|]. intros w' [Hw' Hsame Hother _].
    apply safe_bind, safe_vset; [by eapply vget_bound|]. simpl. rewrite fmap_app. simpl.
    split; [done|]. split; [split; [done| |]|split; [by rewrite length_insert|]].
    + intros v' l' [Hin|[= -> ->]%list_elem_of_singleton]%elem_of_app; [|done].
      rewrite Hother; [by apply Hlk|]. intros [= ->]. apply Hnew, list_elem_of_fmap. by exists (v, l').
    + intros v' i j Hne. rewrite fmap_app in Hne. rewrite Hother.
      * apply Hoth. intros Hij Hin. apply (Hne Hij), elem_of_app. by left.
      * intros [= -> -> ->]. apply (Hne eq_refl), elem_of_app. right. by left.
    + intros v' Hget. apply elem_of_app. destruct (decide (v' = v)) as [->|Hne]; [right; by left|left].
      rewrite vget_insert_ne in Hget by (unfold in_range in *; lia). by apply Htrue.
  - by intros [[vd lat] w] (? & ? & _).
Qed.

Lemma fill_group_spec src dst es lat0 w0 : group_ok es -> in_range (Z.of_nat n) src -> in_range (Z.of_nat n) dst ->
  shape n n nv lat0 -> shape nv n n w0 ->
  safe (fill_group s ((src, dst), es) (lat0, w0))
    (fun '(lat, w) => shape n n nv lat /\ group_filled src dst (carried nv es) w0 w).
Proof.
  intros [Hnd Hr] Hs Hd Hl Hw. unfold fill_group. rewrite fill_links_carried by done. rewrite Hnv, Nat2Z.id.
  apply safe_bind. eapply safe_mono; [by apply set_weights_spec|]. by intros [[vd lat] w] [? ?].
Qed.

(** The weights of all links; elsewhere the matrix is as before. *)
Record filled (m : LinkMap) (w0 w : Matrix) : Prop := {
  fl_shape : shape nv n n w;
  fl_link : forall src dst es v l, ((src, dst), es) ∈ m -> (v, l) ∈ carried nv es ->
    mget w v src dst = Ok (bl_weight l);
  fl_other : forall v i j, (forall es l, ((i, j), es) ∈ m -> (v, l) ∉ carried nv es) ->
    mget w v i j = mget w0 v i j;
}.

Lemma fill_groups_spec m lat0 w0 : map_ok m ->
  Forall (fun '((src, dst), es) => in_range (Z.of_nat n) src /\ in_range (Z.of_nat n) dst /\ group_ok es) m ->
  shape n n nv lat0 -> shape nv n n w0 ->
  safe (for_each m (fill_group s) (lat0, w0)) (fun '(lat, w) => shape n n nv lat /\ filled m w0 w).
Proof.
  intros Hm Hall Hl Hw.
  eapply safe_mono; [apply (safe_for_each (fun pre '(lat, w) => shape n n nv lat /\ filled pre w0 w))|].
  - split; [done|]. split; [done| |done]. intros src dst es v l Hin. by apply not_elem_of_nil in Hin.
  - intros pre [[src dst] es] post [lat w] -> [Hlat [Hsh Hlk Hoth]].
    apply Forall_app in Hall as [_ Hall]. apply list.Forall_cons in Hall as [(Hs & Hd & Hg) _].
    assert (Hnew : forall es', ((src, dst), es') ∉ pre).
    { intros es' Hin. unfold map_ok in Hm. rewrite fmap_app in Hm. simpl in Hm.
      apply (key_lt_irrefl (src, dst)). eapply StronglySorted_app_1_elem_of; [exact Hm| |by left].
      apply list_elem_of_fmap. by exists ((src, dst), es'). }
    eapply safe_mono; [by apply fill_group_spec|]. intros [lat' w'] [Hlat' [Hsh' Hlk' Hoth']].
    split; [done|]. split; [done| |].
    + intros src' dst' es' v l [Hin|[= -> -> ->]%list_elem_of_singleton]%elem_of_app Hv; [|by apply Hlk'].
      rewrite Hoth'; [by eapply Hlk|]. intros [= -> ->]. by apply Hnew in Hin.
    + intros v i j Hno. rewrite Hoth'.
      * apply Hoth. intros es' l Hin. apply Hno, elem_of_app. by left.
      * intros [= -> ->] ([v' l] & -> & Hin)%list_elem_of_fmap.
        eapply Hno; [|exact Hin]. apply elem_of_app. right. by left.
  - by intros [lat w].
Qed.

(** No links yet: a switch is at distance zero from itself only. *)
Lemma identity_spec : (0 < nv)%nat ->
  safe (w0 ← vget (matrix nv n n INFINITE_LATENCY) 0;
        for_ (length w0) 0 (fun i => for_ nv 0 (fun v w => mset w v i i 0)) (matrix nv n n INFINITE_LATENCY))
    (fun w => shape nv n n w /\ forall v i j, in_range (Z.of_nat nv) v -> in_range (Z.of_nat n) i ->
      in_range (Z.of_nat n) j -> mget w v i j = Ok (if i =? j then 0 else INFINITE_LATENCY)).
Proof.
  intros Hpos. pose proof (matrix_shape nv n n INFINITE_LATENCY) as Hsh.
  destruct (shape_vget nv n n _ 0 Hsh) as (x & -> & Hx & _); [unfold in_range; lia|]. cbn [mbind res_bind]. rewrite Hx.
  pose (upto := fun (a b : Z) (w : Matrix) => shape nv n n w /\
    forall v i j, in_range (Z.of_nat nv) v -> in_range (Z.of_nat n) i -> in_range (Z.of_nat n) j ->
      mget w v i j = Ok (if (i =? j) && ((i <? a) || ((i =? a) && (v <? b))) then 0 else INFINITE_LATENCY)).
  eapply safe_mono; [apply (safe_for (fun i => upto i 0))|].
  - split; [done|]. intros v i j Hv Hi Hj. replace (_ && _) with false by (unfold in_range in *; lia).
    unfold in_range in *. unfold mget, vget, matrix. rewrite decide_True by lia.
    rewrite lookup_replicate_2 by lia. cbn [mbind res_bind]. rewrite decide_True by lia.
    rewrite lookup_replicate_2 by lia. cbn [mbind res_bind]. rewrite decide_True by lia.
    by rewrite lookup_replicate_2 by lia.
  - intros i w Hi Hw. eapply safe_mono; [apply (safe_for (fun v => upto i v)); [exact Hw|]|].
    + intros v w' Hv [Hs' Hw']. eapply safe_mono; [apply (mset_written nv n n); [done|unfold in_range; lia..]|].
      intros w2 [Hs2 Hsame Hoth _]. split; [done|]. intros v' i' j' Hv' Hi' Hj'.
      destruct (decide ((v', i', j') = (v, i, i))) as [[= -> -> ->]|Hne].
      * rewrite Hsame. by replace (_ && _) with true by lia.
      * rewrite Hoth, Hw' by done.
        assert (v' <> v \/ i' <> i \/ j' <> i) by (destruct (decide (v' = v)), (decide (i' = i)), (decide (j' = i)); subst; tauto).
        same_condition.
    + intros w' [Hs' Hw']. split; [done|]. intros v' i' j' Hv' Hi' Hj'. rewrite Hw' by done.
      same_condition.
  - intros w [Hs Hw]. split; [done|]. intros v i j Hv Hi Hj. rewrite Hw by done. same_condition.
Qed.
End fill.

(** ** Well-formed topologies *)

(** A link goes from an input or a router to an output or a router, and one end is a router. *)
Definition placed (nodes src dst : Z) : Prop :=
  0 <= src /\ (src < nodes \/ 2 * nodes <= src) /\ nodes <= dst /\
  (2 * nodes <= src \/ 2 * nodes <= dst) /\ src <> dst.

Definition weighed (e : LinkEntry) : Prop := 0 < bl_weight (le_link e) < INFINITE_LATENCY.

Record topo_ok `{MachineTypes} (nv : nat) (s : t) : Prop := {
  to_vnets : m_vnets s = Z.of_nat nv;
  to_some_vnet : (0 < nv)%nat;
  to_nodes : m_nodes s = machines;
  to_map : map_ok (m_link_map s);
  to_some_link : m_link_map s <> [];
  to_links : Forall (fun '((src, dst), es) =>
    placed (m_nodes s) src dst /\ group_ok nv es /\ es <> [] /\ Forall weighed es) (m_link_map s);
}.

Lemma num_switches_spec m : 1 <= num_switches m /\
  Forall (fun '((src, dst), _) => src < num_switches m /\ dst < num_switches m) m.
Proof.
  unfold num_switches. pose (f := fun (acc : Z) (g : (Z * Z) * list LinkEntry) =>
    let '((src, dest), _) := g in Z.max (Z.max acc src) dest).
  assert (Hmono : forall l acc, acc <= foldl f acc l).
  { induction l as [|[[a b] x] l IH]; intros acc; simpl; [lia|]. specialize (IH (Z.max (Z.max acc a) b)). lia. }
  assert (H : forall l acc, Forall (fun '((src, dst), _) => src <= foldl f acc l /\ dst <= foldl f acc l) l).
  { induction l as [|[[a b] x] l IH]; intros acc; constructor; [|apply IH]. simpl.
    pose proof (Hmono l (Z.max (Z.max acc a) b)). lia. }
  fold f. split; [pose proof (Hmono m 0); lia|]. eapply list.Forall_impl; [apply (H m 0)|].
  intros [[a b] x]. simpl. lia.
Qed.

Section create.
Context `{Hmt : MachineTypes} `{!MachineTypesOk} (nv : nat) (s : t) (Hok : topo_ok nv s).
Abbreviation n := (Z.to_nat (num_switches (m_link_map s))).

Lemma group_facts src dst es : ((src, dst), es) ∈ m_link_map s ->
  in_range (Z.of_nat n) src /\ in_range (Z.of_nat n) dst /\ placed (m_nodes s) src dst /\ group_ok nv es /\
  es <> [] /\ Forall weighed es.
Proof.
  intros Hin. destruct Hok as [_ _ Hnodes _ _ Hall]. rewrite list.Forall_forall in Hall.
  specialize (Hall _ Hin). simpl in Hall. destruct (num_switches_spec (m_link_map s)) as [Hpos Hb].
  rewrite list.Forall_forall in Hb. specialize (Hb _ Hin). simpl in Hb. destruct Hall as (Hp & ? & ? & ?).
  assert (0 <= machines) by (apply (base_number_mono MachineType_NUM MachineType_NUM); pose proof machine_num_nonneg; lia).
  split_and!; try done; unfold placed, in_range in *; lia.
Qed.

Lemma switches_enough : 2 * machines <= Z.of_nat n.
Proof.
  destruct (m_link_map s) as [|[[src dst] es] m] eqn:E; [by destruct (to_some_link _ _ Hok)|].
  destruct (group_facts src dst es) as (Hs & Hd & Hp & _); [rewrite E; by left|]. rewrite <- E.
  rewrite (to_nodes _ _ Hok) in Hp. unfold placed, in_range in *. lia.
Qed.

(** The weights the search starts from. *)
Record link_weights (w : Matrix) : Prop := {
  lw_shape : shape nv n n w;
  lw_link : forall src dst es v l, ((src, dst), es) ∈ m_link_map s -> (v, l) ∈ carried nv es ->
    mget w v src dst = Ok (bl_weight l);
  lw_none : forall v i j, in_range (Z.of_nat nv) v -> in_range (Z.of_nat n) i -> in_range (Z.of_nat n) j ->
    (forall es l, ((i, j), es) ∈ m_link_map s -> (v, l) ∉ carried nv es) ->
    mget w v i j = Ok (if i =? j then 0 else INFINITE_LATENCY);
}.

Lemma link_matrices_spec : safe (link_matrices s) (fun '(lat, w) => shape n n nv lat /\ link_weights w).
Proof.
  unfold link_matrices. rewrite (to_vnets _ _ Hok), Nat2Z.id.
  apply safe_bind. eapply safe_mono; [apply identity_spec, (to_some_vnet _ _ Hok)|]. intros w0 [Hw0 Hid].
  eapply safe_mono; [apply (fill_groups_spec s nv n (to_vnets _ _ Hok)); [apply (to_map _ _ Hok)| |apply matrix_shape|exact Hw0]|].
  - apply list.Forall_forall. intros [[src dst] es] Hin. destruct (group_facts src dst es Hin) as (? & ? & _ & ? & _). done.
  - intros [lat w] [Hlat [Hsh Hlk Hoth]]. split; [done|]. split; [done|done|].
    intros v i j Hv Hi Hj Hno. rewrite Hoth by done. by apply Hid.
Qed.

(** Either a link carries the virtual network between the two switches, or none does. *)
Lemma link_or_none v i j :
  (exists es e, ((i, j), es) ∈ m_link_map s /\ e ∈ es /\ (v, le_link e) ∈ carried nv es /\ weighed e) \/
  (forall es l, ((i, j), es) ∈ m_link_map s -> (v, l) ∉ carried nv es).
Proof.
  set (es := link_find (i, j) (m_link_map s)).
  destruct (decide (v ∈ (fst <$> carried nv es))) as [Hin|Hno].
  - left. apply list_elem_of_fmap in Hin as ([v' l] & -> & Hin). pose proof Hin as Hin'.
    apply list_elem_of_bind in Hin' as (e & (v2 & [= -> ->] & _)%list_elem_of_fmap & He).
    pose proof (link_find_in _ _ _ He) as Hg. exists es, e. split_and!; try done.
    destruct (group_facts _ _ _ Hg) as (_ & _ & _ & _ & _ & Hwe). by eapply list.Forall_forall in Hwe.
  - right. intros es' l Hg Hin. apply (link_find_elem _ _ _ (to_map _ _ Hok)) in Hg.
    apply Hno, list_elem_of_fmap. exists (v, l). by rewrite <- Hg in Hin.
Qed.

Section weights.
Context (w : Matrix) (Hlw : link_weights w).

(** An element of the matrix is the weight of a link, zero, or stands for no link. *)
Lemma weight_cases v i j x : mget w v i j = Ok x ->
  (exists es e, ((i, j), es) ∈ m_link_map s /\ e ∈ es /\ (v, le_link e) ∈ carried nv es /\
     0 < x < INFINITE_LATENCY) \/
  ((forall es l, ((i, j), es) ∈ m_link_map s -> (v, l) ∉ carried nv es) /\
   x = if i =? j then 0 else INFINITE_LATENCY).
Proof.
  intros Hx. destruct (mget_bound nv n n w v i j x (lw_shape _ Hlw) Hx) as (Hv & Hi & Hj).
  destruct (link_or_none v i j) as [(es & e & Hg & He & Hc & Hwe)|Hno].
  - left. exists es, e. rewrite (lw_link _ Hlw _ _ _ _ _ Hg Hc) in Hx. injection Hx as <-. done.
  - right. split; [done|]. rewrite (lw_none _ Hlw v i j Hv Hi Hj Hno) in Hx. by injection Hx.
Qed.

Lemma link_weights_ok : weights_ok nv n w.
Proof.
  split; [apply (lw_shape _ Hlw)| |].
  - intros v i j x Hx. unfold INFINITE_LATENCY in *. apply weight_cases in Hx as [(? & ? & _ & _ & _ & ?)|[_ ->]];
      [unfold INFINITE_LATENCY in *; lia|]. destruct (i =? j); unfold INFINITE_LATENCY; lia.
  - intros v i x Hx. apply weight_cases in Hx as [(es & e & Hg & _)|[_ ->]]; [|by rewrite Z.eqb_refl].
    destruct (group_facts _ _ _ Hg) as (_ & _ & Hp & _). unfold placed in Hp. lia.
Qed.

Lemma link_weights_positive v : in_range (Z.of_nat nv) v -> positive n w v.
Proof.
  intros Hv i j Hi Hj Hne. destruct (mget_range nv n n w v i j (lw_shape _ Hlw) Hv Hi Hj) as [x Hx].
  rewrite (entry_Ok _ _ _ _ _ Hx). apply weight_cases in Hx as [(? & ? & _ & _ & _ & ?)|[_ ->]]; [lia|].
  rewrite (proj2 (Z.eqb_neq _ _)) by done. done.
Qed.

(** Enough rounds for the distances of any such network. *)
Definition links_fuel : nat := S (n * n * Z.to_nat INFINITE_LATENCY).

Lemma row_sum_le l B : Forall (fun x => x <= B) l -> row_sum l <= zlength l * B.
Proof. unfold zlength. induction 1 as [|x l Hx _ IH]; simpl; [lia|]. nia. Qed.

Lemma path_fuel_links : (path_fuel w <= links_fuel)%nat.
Proof.
  unfold path_fuel, links_fuel. apply le_n_S.
  assert (Hall : Forall (fun x => plane_sum x <= Z.of_nat n * Z.of_nat n * INFINITE_LATENCY) w).
  { apply Forall_lookup. intros v x Hx. destruct (lw_shape _ Hlw) as [Hl Hf].
    pose proof (Forall_lookup_1 _ _ _ _ Hf Hx) as [Hl2 Hf2].
    assert (Hrow : Forall (fun y => y <= Z.of_nat n * INFINITE_LATENCY) (row_sum <$> x)).
    { apply Forall_fmap, Forall_lookup. intros i y Hy. pose proof (Forall_lookup_1 _ _ _ _ Hf2 Hy) as Hl3. simpl in Hl3.
      replace (Z.of_nat n) with (zlength y) by (unfold zlength; lia). apply row_sum_le, Forall_lookup.
      intros j c Hc. assert (Hget : mget w (Z.of_nat v) (Z.of_nat i) (Z.of_nat j) = Ok c).
      { unfold mget. rewrite (vget_nat _ _ _ Hx). cbn [mbind res_bind]. rewrite (vget_nat _ _ _ Hy).
        cbn [mbind res_bind]. by apply vget_nat. }
      apply weight_cases in Hget as [(? & ? & _ & _ & _ & ?)|[_ ->]]; [lia|].
      destruct (_ =? _); unfold INFINITE_LATENCY; lia. }
    apply row_sum_le in Hrow. unfold plane_sum. unfold zlength in Hrow. rewrite length_fmap, Hl2 in Hrow. lia. }
  assert (Hmax : forall l B, 0 <= B -> Forall (fun x => plane_sum x <= B) l ->
    foldr (fun x acc => Z.max (plane_sum x) acc) 0 l <= B).
  { intros l B HB. induction 1; simpl; lia. }
  unfold INFINITE_LATENCY in *. apply (Hmax w) in Hall; [|lia]. set (k := n) in *. nia.
Qed.
End weights.

(** ** The tables *)

Section tables.
Context (w D : Matrix) (Hlw : link_weights w) (HD : shape nv n n D).
Context (Hdist : forall v, in_range (Z.of_nat nv) v -> dist_plane n w D v).

(** A link from [i] to [j] carries virtual network [v]. *)
Definition linked (v i j : Z) : Prop := v ∈ (fst <$> carried nv (link_find (i, j) (m_link_map s))).

#[global] Instance linked_dec v i j : Decision (linked v i j).
Proof. unfold linked. apply _. Defined.

Definition no_machine (d : NetDest.t) : Prop := NetDest.sized d /\ forall m k, ~ NetDest.mem d m k.

Lemma real_weight v i j : in_range (Z.of_nat nv) v -> in_range (Z.of_nat n) i -> in_range (Z.of_nat n) j ->
  exists x, mget w v i j = Ok x /\ (0 <? x) && negb (x =? INFINITE_LATENCY) = bool_decide (linked v i j).
Proof.
  intros Hv Hi Hj. destruct (mget_range nv n n w v i j (lw_shape _ Hlw) Hv Hi Hj) as [x Hx].
  exists x. split; [done|]. destruct (weight_cases w Hlw v i j x Hx) as [(es & e & Hg & He & Hc & Hb)|[Hno ->]].
  - rewrite bool_decide_eq_true_2; [lia|]. unfold linked.
    rewrite (link_find_elem _ _ _ (to_map _ _ Hok) Hg). apply list_elem_of_fmap. by exists (v, le_link e).
  - rewrite bool_decide_eq_false_2; [destruct (i =? j); reflexivity|].
    intros ([v' l] & -> & Hc)%list_elem_of_fmap. pose proof Hc as (e & _ & He)%list_elem_of_bind.
    eapply Hno; [|exact Hc]. by eapply link_find_in.
Qed.

(** The entries of all virtual networks for the links from [i] to [j]. *)
Definition good_map (i j upto : Z) (st : bool * list NetDest.t) : Prop :=
  length st.2 = nv /\ (st.1 = true <-> exists v, 0 <= v < upto /\ linked v i j) /\
  forall v d, vget st.2 v = Ok d ->
    if decide (linked v i j /\ v < upto) then entry_of n w v i j d else no_machine d.

Lemma routing_map_spec i j : in_range (Z.of_nat n) i -> in_range (Z.of_nat n) j ->
  safe (routing_map s w D i j) (good_map i j (Z.of_nat nv)).
Proof.
  intros Hi Hj. unfold routing_map. rewrite (to_vnets _ _ Hok), Nat2Z.id.
  apply safe_bind. eapply safe_mono; [apply NetDest.new_spec|]. intros none Hnone.
  eapply safe_mono; [apply (safe_for (good_map i j))|done].
  - split; [apply length_replicate|]. split; [split; [done|intros (v & ? & _); lia]|].
    intros v d [Hv [-> _]%lookup_replicate]%vget_Ok. by rewrite decide_False by lia.
  - intros v [real rm] Hv (Hl & Hreal & Hent). simpl in Hl, Hreal, Hent.
    assert (Hvr : in_range (Z.of_nat nv) v) by (unfold in_range; lia).
    destruct (real_weight v i j Hvr Hi Hj) as (x & Hx & Hb).
    rewrite Hx. cbn [mbind res_bind]. rewrite Hb. case_bool_decide as Hlk.
    + apply safe_bind. eapply safe_mono; [apply (shortest_path_to_node_spec nv n w D (link_weights_ok w Hlw)); auto; apply switches_enough|].
      intros d Hd. apply safe_bind, safe_vset; [unfold zlength; lia|]. split; [simpl; by rewrite length_insert|].
      split; [simpl; split; [intros _; exists v; split; [lia|done]|done]|]. simpl. intros v' d' Hget.
      destruct (decide (v' = v)) as [->|Hne].
      * rewrite vget_insert_eq in Hget by (unfold zlength; lia). injection Hget as <-. by rewrite decide_True by (split; [done|lia]).
      * rewrite vget_insert_ne in Hget by lia. apply Hent in Hget. case_decide; case_decide; try done; exfalso; intuition lia.
    + split; [done|]. simpl. split.
      * rewrite Hreal. split; intros (v' & Hv' & Hlk'); exists v'; (split; [|done]); [lia|].
        destruct (decide (v' = v)) as [->|]; [done|lia].
      * intros v' d' Hget. apply Hent in Hget. case_decide; case_decide; try done; exfalso; [intuition lia|].
        destruct (decide (v' = v)) as [->|]; [tauto|intuition lia].
Qed.

(** The table of one link. *)
Definition good_table (i j : Z) (e : LinkEntry) (table : list NetDest.t) : Prop :=
  length table = nv /\ forall v d, vget table v = Ok d ->
    if decide (v ∈ vnets_of nv (le_link e)) then entry_of n w v i j d else no_machine d.

Lemma linked_link i j e v : e ∈ link_find (i, j) (m_link_map s) -> v ∈ vnets_of nv (le_link e) ->
  linked v i j /\ in_range (Z.of_nat nv) v.
Proof.
  intros He Hv. pose proof (link_find_in _ _ _ He) as Hg. destruct (group_facts _ _ _ Hg) as (_ & _ & _ & [_ Hr] & _).
  assert (Hc : (v, le_link e) ∈ carried nv (link_find (i, j) (m_link_map s))).
  { apply list_elem_of_bind. exists e. split; [|done]. apply list_elem_of_fmap. by exists v. }
  split; [apply list_elem_of_fmap; by exists (v, le_link e)|]. rewrite list.Forall_forall in Hr. by apply (Hr _ Hc).
Qed.

Lemma linkRoute_spec i j e rm : e ∈ link_find (i, j) (m_link_map s) -> good_map i j (Z.of_nat nv) (true, rm) ->
  safe (linkRoute s (le_link e) rm) (good_table i j e).
Proof.
  intros He (Hl & _ & Hent). simpl in Hl, Hent. unfold linkRoute.
  assert (Hown : forall v d, v ∈ vnets_of nv (le_link e) -> vget rm v = Ok d -> entry_of n w v i j d).
  { intros v d Hv Hget. destruct (linked_link i j e v He Hv) as [Hlk Hr]. apply Hent in Hget.
    rewrite decide_True in Hget by (unfold in_range in Hr; split; [done|lia]). done. }
  assert (Hrange : forall v, v ∈ vnets_of nv (le_link e) -> in_range (Z.of_nat nv) v).
  { intros v Hv. by apply (linked_link i j e v He Hv). }
  unfold good_table. unfold vnets_of in *. destruct (bl_vnets (le_link e)) as [|v0 vs] eqn:E.
  - split; [done|]. intros v d Hget. assert (Hin : v ∈ seqZ 0 (Z.of_nat nv)).
    { apply vget_bound in Hget. unfold zlength in Hget. apply elem_of_seqZ. lia. }
    rewrite decide_True by done. by eapply Hown.
  - apply safe_bind. eapply safe_mono; [apply NetDest.new_spec|]. intros none Hnone.
    rewrite (to_vnets _ _ Hok), Nat2Z.id.
    eapply safe_mono; [apply (safe_for_each (fun pre table => length table = nv /\ forall v d, vget table v = Ok d ->
      if decide (v ∈ pre) then entry_of n w v i j d else no_machine d))|done].
    + split; [apply length_replicate|]. intros v d [_ [-> _]%lookup_replicate]%vget_Ok.
      by rewrite decide_False by apply not_elem_of_nil.
    + intros pre v post table Heq [Ht Hte]. assert (Hin : v ∈ v0 :: vs) by (rewrite Heq; apply elem_of_app; right; by left).
      pose proof (Hrange v Hin) as Hr. destruct (vget_range rm v) as [d Hd]; [unfold zlength, in_range in *; lia|].
      rewrite Hd. cbn [mbind res_bind]. apply safe_vset; [unfold zlength, in_range in *; lia|].
      split; [by rewrite length_insert|]. intros v' d' Hget. destruct (decide (v' = v)) as [->|Hne].
      * rewrite vget_insert_eq in Hget by (unfold zlength, in_range in *; lia). injection Hget as <-.
        rewrite decide_True by (apply elem_of_app; right; by left). by apply Hown.
      * rewrite vget_insert_ne in Hget by (unfold in_range in *; lia). apply Hte in Hget.
        case_decide; case_decide; try done; exfalso; set_solver.
Qed.

(** The call that makes a link. *)
Definition made_link (i j : Z) (e : LinkEntry) (table : list NetDest.t) : MadeLink :=
  if i <? m_nodes s then MakeExtInLink i (j - 2 * m_nodes s) (le_link e) table
  else if j <? 2 * m_nodes s then MakeExtOutLink (i - 2 * m_nodes s) (j - m_nodes s) (le_link e) table
  else MakeInternalLink (i - 2 * m_nodes s) (j - 2 * m_nodes s) (le_link e) table
         (le_src_outport_dirn e) (le_dst_inport_dirn e).

Definition made_for (i j : Z) (e : LinkEntry) (c : MadeLink) : Prop :=
  exists table, c = made_link i j e table /\ good_table i j e table.

Lemma make_all_spec i j rm (mk : LinkEntry -> list NetDest.t -> MadeLink) made :
  good_map i j (Z.of_nat nv) (true, rm) -> (forall e table, mk e table = made_link i j e table) ->
  safe (for_each (link_find (i, j) (m_link_map s))
         (fun e made => table ← linkRoute s (le_link e) rm; Ok (made ++ [mk e table])) made)
    (fun made' => exists cs, made' = made ++ cs /\ Forall2 (made_for i j) (link_find (i, j) (m_link_map s)) cs).
Proof.
  intros Hrm Hmk.
  apply (safe_for_each (fun pre made' => exists cs, made' = made ++ cs /\ Forall2 (made_for i j) pre cs)).
  { exists []. split; [by rewrite app_nil_r|constructor]. }
  intros pre e post made' Heq (cs & -> & Hcs).
  assert (He : e ∈ link_find (i, j) (m_link_map s)) by (rewrite Heq; apply elem_of_app; right; by left).
  apply safe_bind. eapply safe_mono; [by apply linkRoute_spec|]. intros table Ht. simpl.
  exists (cs ++ [mk e table]). split; [by rewrite app_assoc|]. apply Forall2_app; [done|].
  constructor; [|constructor]. exists table. split; [apply Hmk|done].
Qed.

Lemma makeLink_spec i j rm made : placed (m_nodes s) i j -> good_map i j (Z.of_nat nv) (true, rm) ->
  safe (makeLink i j rm s made) (fun made' => exists cs, made' = made ++ cs /\
    Forall2 (made_for i j) (link_find (i, j) (m_link_map s)) cs).
Proof.
  intros Hp Hrm. unfold makeLink. unfold placed in Hp. apply safe_bind, safe_assert; [lia|].
  destruct (Z.ltb_spec i (m_nodes s)).
  - apply make_all_spec; [done|]. intros e table. unfold made_link. by rewrite (proj2 (Z.ltb_lt _ _)) by lia.
  - destruct (Z.ltb_spec j (2 * m_nodes s)); (apply safe_bind, safe_assert; [lia|]);
      (apply make_all_spec; [done|]); intros e table; unfold made_link;
      rewrite (proj2 (Z.ltb_ge i _)) by lia;
      [by rewrite (proj2 (Z.ltb_lt j _)) by lia|by rewrite (proj2 (Z.ltb_ge j _)) by lia].
Qed.

Lemma real_link i j : (exists v, 0 <= v < Z.of_nat nv /\ linked v i j) <-> link_find (i, j) (m_link_map s) <> [].
Proof.
  split.
  - intros (v & _ & ([v' l] & _ & (e & _ & He)%list_elem_of_bind)%list_elem_of_fmap) Hnil. rewrite Hnil in He. by apply not_elem_of_nil in He.
  - intros Hne. destruct (link_find (i, j) (m_link_map s)) as [|e es] eqn:E; [done|].
    assert (He : e ∈ link_find (i, j) (m_link_map s)) by (rewrite E; by left).
    assert (Hv : exists v, v ∈ vnets_of nv (le_link e)).
    { unfold vnets_of. destruct (bl_vnets (le_link e)) as [|v vs]; [|exists v; by left].
      exists 0. apply elem_of_seqZ. pose proof (to_some_vnet _ _ Hok). lia. }
    destruct Hv as [v Hv]. destruct (linked_link i j e v He Hv) as [Hlk Hr]. by exists v.
Qed.

(** The calls made for the pairs of switches so far. *)
Definition making (before : Z -> Z -> Prop) (made : list MadeLink) : Prop :=
  (forall c, c ∈ made -> exists i j e, e ∈ link_find (i, j) (m_link_map s) /\ made_for i j e c) /\
  (forall i j e, in_range (Z.of_nat n) i -> in_range (Z.of_nat n) j -> before i j ->
     e ∈ link_find (i, j) (m_link_map s) -> exists c, c ∈ made /\ made_for i j e c).

Lemma make_pair_spec before i j made : making before made -> in_range (Z.of_nat n) i -> in_range (Z.of_nat n) j ->
  safe ('(realLink, routingMap) ← routing_map s w D i j;
        if (realLink : bool) then makeLink i j routingMap s made else Ok made)
    (making (fun i' j' => before i' j' \/ (i' = i /\ j' = j))).
Proof.
  intros [Hfrom Hto] Hi Hj. apply safe_bind. eapply safe_mono; [by apply routing_map_spec|]. intros [real rm] Hrm.
  pose proof (proj1 (proj2 Hrm)) as Hreal. simpl in Hreal. rewrite real_link in Hreal. destruct real.
  - destruct (link_find (i, j) (m_link_map s)) as [|e0 es0] eqn:E; [by destruct (proj1 Hreal eq_refl)|].
    assert (He0 : e0 ∈ link_find (i, j) (m_link_map s)) by (rewrite E; by left).
    destruct (group_facts _ _ _ (link_find_in _ _ _ He0)) as (_ & _ & Hp & _).
    eapply safe_mono; [by apply makeLink_spec|]. intros made' (cs & -> & Hcs). split.
    + intros c [Hc|Hc]%elem_of_app; [by apply Hfrom|]. apply list_elem_of_lookup in Hc as [k Hk].
      destruct (Forall2_lookup_r _ _ _ _ _ Hcs Hk) as (e & He & Hmf). exists i, j, e. split; [|done].
      by eapply list_elem_of_lookup_2.
    + intros i' j' e Hi' Hj' [Hb|[-> ->]] He.
      * destruct (Hto i' j' e Hi' Hj' Hb He) as (c & Hc & Hm). exists c. split; [apply elem_of_app; by left|done].
      * apply list_elem_of_lookup in He as [k Hk]. destruct (Forall2_lookup_l _ _ _ _ _ Hcs Hk) as (c & Hc & Hm).
        exists c. split; [apply elem_of_app; right; by eapply list_elem_of_lookup_2|done].
  - split; [done|]. intros i' j' e Hi' Hj' [Hb|[-> ->]] He; [by apply Hto|]. exfalso.
    assert (link_find (i, j) (m_link_map s) <> []) as Hne by (intros Hn; rewrite Hn in He; by apply not_elem_of_nil in He).
    by apply Hreal in Hne.
Qed.

Lemma make_pairs_spec :
  safe (for_ n 0 (fun i => for_ n 0 (fun j made =>
         '(realLink, routingMap) ← routing_map s w D i j;
         if (realLink : bool) then makeLink i j routingMap s made else Ok made)) [])
    (making (fun _ _ => True)).
Proof.
  assert (Hmono : forall (P Q : Z -> Z -> Prop) made, (forall i j, in_range (Z.of_nat n) i -> in_range (Z.of_nat n) j -> Q i j -> P i j) ->
    making P made -> making Q made).
  { intros P Q made Himp [Hf Ht]. split; [done|]. intros i j e Hi Hj HQ. apply Ht; [done..|]. by apply Himp. }
  eapply safe_mono; [apply (safe_for (fun i => making (fun i' _ => i' < i)))|].
  - split; [intros c Hc; by apply not_elem_of_nil in Hc|]. unfold in_range. intros. lia.
  - intros i made Hi Hmade. eapply safe_mono; [apply (safe_for (fun j => making (fun i' j' => i' < i \/ (i' = i /\ j' < j))))|].
    + eapply Hmono; [|exact Hmade]. unfold in_range. simpl. lia.
    + intros j made' Hj Hmade'. eapply safe_mono; [apply make_pair_spec; [exact Hmade'|unfold in_range; lia..]|].
      intros made2. apply Hmono. simpl. lia.
    + intros made'. apply Hmono. unfold in_range. simpl. lia.
  - intros made. apply Hmono. unfold in_range. simpl. lia.
Qed.
End tables.

Lemma createLinks_spec fuel : (links_fuel <= fuel)%nat ->
  safe (createLinks fuel s) (fun made => exists w D, link_weights w /\ shape nv n n D /\
    (forall v, in_range (Z.of_nat nv) v -> dist_plane n w D v) /\ making w (fun _ _ => True) made).
Proof.
  intros Hf. unfold createLinks. apply safe_bind. eapply safe_mono; [apply link_matrices_spec|].
  intros [lat w] [Hlat Hlw]. apply safe_bind. rewrite (to_vnets _ _ Hok), Nat2Z.id.
  eapply safe_mono; [apply (shortest_path_spec fuel s w lat _ nv n); [by apply link_weights_ok|done|apply matrix_shape|
    apply (to_vnets _ _ Hok)|apply (to_some_vnet _ _ Hok)|pose proof (path_fuel_links w Hlw); lia]|].
  intros p (HD & _ & _ & Hdist). eapply safe_mono; [by apply (make_pairs_spec w (p_dist p))|].
  intros made Hmade. by exists w, (p_dist p).
Qed.
End create.
