(* ===== verification/TopologyTheorems.v ===== *)
(** * TopologyTheorems: the routes of a configured network

    The constructor of [Topology] collects the configured links; the
    theorems say what [createLinks] makes of them. *)

From Stdlib Require Import Sorted.
From S2P Require Import Prelude NetDest CommonTypes RoutingUnit Topology TopologyProofs TopologyLinks.
Import Topology.

(** ** The links of a configuration *)

Section config.
Context `{Hmt : MachineTypes} `{!MachineTypesOk}.

Definition in_switch (m i : Z) : Z := MachineType_base_number m + i.
Definition router_switch (r : Z) : Z := r + 2 * machines.

Definition ext_pairs (l : BasicExtLink) : list ((Z * Z) * LinkEntry) :=
  let m := mach_type (xl_ext_node l) in
  let i := mach_num (xl_ext_node l) in
  let e := mkLinkEntry (xl_link l) "" "" in
  [((in_switch m i, router_switch (xl_int_node l)), e);
   ((router_switch (xl_int_node l), in_switch m i + machines), e)].

Definition int_pair (l : BasicIntLink) : (Z * Z) * LinkEntry :=
  ((router_switch (il_src_node l), router_switch (il_dst_node l)),
   mkLinkEntry (il_link l) (il_src_outport l) (il_dst_inport l)).

Definition all_links (ext : list BasicExtLink) (int : list BasicIntLink) : list ((Z * Z) * LinkEntry) :=
  (ext ≫= ext_pairs) ++ (int_pair <$> int).

Definition between (k : Z * Z) (ls : list ((Z * Z) * LinkEntry)) : list LinkEntry :=
  snd <$> filter (fun p => p.1 = k) ls.

(** What the configuration scripts have to respect. *)
Record config_ok (nr : Z) (nv : nat) (ext : list BasicExtLink) (int : list BasicIntLink) : Prop := {
  cf_machines : 1 < machines;
  cf_vnets : (0 < nv)%nat;
  cf_ext : Forall (fun l => machine (mach_type (xl_ext_node l)) (mach_num (xl_ext_node l)) /\
    0 <= xl_int_node l < nr) ext;
  cf_int : Forall (fun l => 0 <= il_src_node l < nr /\ 0 <= il_dst_node l < nr /\
    il_src_node l <> il_dst_node l) int;
  cf_weights : Forall (fun p => weighed p.2) (all_links ext int);
  (** Two links between the same switches carry different virtual networks. *)
  cf_vnets_once : forall k, group_ok nv (between k (all_links ext int));
  cf_some : all_links ext int <> [];
}.

(** The topology after some of the links. *)
Record built (nr : Z) (nv : nat) (ls : list ((Z * Z) * LinkEntry)) (s : t) : Prop := {
  bt_nodes : m_nodes s = machines;
  bt_routers : m_number_of_switches s = nr;
  bt_vnets : m_vnets s = Z.of_nat nv;
  bt_map : map_ok (m_link_map s);
  bt_groups : Forall (fun g => g.2 <> []) (m_link_map s);
  bt_find : forall k, link_find k (m_link_map s) = between k ls;
}.

Lemma link_push_nonempty k e m : Forall (fun g : (Z * Z) * list LinkEntry => g.2 <> []) m ->
  Forall (fun g => g.2 <> []) (link_push k e m).
Proof.
  induction 1 as [|[k0 l] m Hl Hm IH]; simpl; [by repeat constructor|].
  case_bool_decide; [constructor; [by destruct l|done]|]. destruct (key_ltb k k0); by repeat constructor.
Qed.

Lemma addLink_spec nr nv ls src dst link o d s : built nr nv ls s ->
  src <= nr + 2 * machines -> dst <= nr + 2 * machines ->
  safe (addLink src dst link o d s) (built nr nv (ls ++ [((src, dst), mkLinkEntry link o d)])).
Proof.
  intros [Hn Hr Hv Hm Hg Hf] Hs Hd. unfold addLink. rewrite Hn, Hr.
  apply safe_bind, safe_assert; [lia|]. apply safe_bind, safe_assert; [lia|].
  split; simpl; try done; [by apply link_push_ok|by apply link_push_nonempty|].
  intros k. rewrite link_find_push, Hf by done. unfold between. rewrite list.filter_app, fmap_app. f_equal.
  rewrite filter_cons, filter_nil. simpl. by case_decide; case_decide; subst.
Qed.

Lemma machine_switch m i : machine m i -> 0 <= in_switch m i < machines.
Proof.
  intros [Hm Hi]. unfold in_switch.
  assert (H1 : 0 <= MachineType_base_number (m + 1) <= machines) by (apply base_number_mono; lia).
  assert (H2 : 0 <= MachineType_base_number m <= machines) by (apply base_number_mono; lia).
  rewrite machine_number_succ in H1 by lia. lia.
Qed.

Lemma new_built nr nv ext int : config_ok nr nv ext int ->
  safe (new nr (Z.of_nat nv) ext int) (built nr nv (all_links ext int)).
Proof.
  intros [Hmach _ Hext Hint _ _ _]. unfold new. fold machines.
  apply safe_bind, safe_assert; [lia|]. apply safe_bind.
  eapply safe_mono; [apply (safe_for_each (fun pre => built nr nv (pre ≫= ext_pairs)))|].
  - split; simpl; try done; constructor.
  - intros pre l post s Heq Hs. rewrite Heq in Hext. apply Forall_app in Hext as [_ Hext].
    apply list.Forall_cons in Hext as [[Hm Hr] _]. pose proof (machine_switch _ _ Hm) as Hb.
    unfold addExtLink. rewrite (bt_nodes _ _ _ _ Hs). apply safe_bind.
    eapply safe_mono; [apply (addLink_spec nr nv); [exact Hs|unfold in_switch in Hb; lia..]|].
    intros s1 Hs1. eapply safe_mono; [apply (addLink_spec nr nv); [exact Hs1|unfold in_switch in Hb; lia..]|].
    intros s2 Hs2. rewrite bind_app. simpl. rewrite <- app_assoc in Hs2. exact Hs2.
  - intros s Hs. eapply safe_mono;
      [apply (safe_for_each (fun pre => built nr nv ((ext ≫= ext_pairs) ++ (int_pair <$> pre))))|done].
    + by rewrite app_nil_r.
    + intros pre l post s1 Heq Hs1. rewrite Heq in Hint. apply Forall_app in Hint as [_ Hint].
      apply list.Forall_cons in Hint as [(H1 & H2 & _) _]. unfold addIntLink. rewrite (bt_nodes _ _ _ _ Hs1).
      eapply safe_mono; [apply (addLink_spec nr nv); [exact Hs1|lia..]|]. intros s2 Hs2.
      rewrite fmap_app, app_assoc. exact Hs2.
Qed.

Lemma all_links_placed nr nv ext int p : config_ok nr nv ext int -> p ∈ all_links ext int -> placed machines p.1.1 p.1.2.
Proof.
  intros [Hmach _ Hext Hint _ _ _] [Hp|Hp]%elem_of_app.
  - apply list_elem_of_bind in Hp as (l & Hp & Hl). rewrite list.Forall_forall in Hext. destruct (Hext _ Hl) as [Hm Hr].
    pose proof (machine_switch _ _ Hm). unfold placed, router_switch.
    apply elem_of_cons in Hp as [->|Hp]; [|apply list_elem_of_singleton in Hp as ->]; unfold router_switch; simpl; lia.
  - apply list_elem_of_fmap in Hp as (l & -> & Hl). rewrite list.Forall_forall in Hint.
    destruct (Hint _ Hl) as (? & ? & ?). unfold placed, int_pair, router_switch. simpl. lia.
Qed.

Lemma built_ok nr nv ext int s : config_ok nr nv ext int -> built nr nv (all_links ext int) s -> topo_ok nv s.
Proof.
  intros Hc [Hn Hr Hv Hm Hg Hf]. split; try done; [apply (cf_vnets _ _ _ _ Hc)| |].
  - destruct (all_links ext int) as [|[k e] ls] eqn:E; [by destruct (cf_some _ _ _ _ Hc)|].
    intros Hnil. specialize (Hf k). rewrite Hnil in Hf. simpl in Hf. unfold between in Hf.
    by rewrite filter_cons_True in Hf.
  - apply list.Forall_forall. intros [[src dst] es] Hin.
    pose proof (link_find_elem _ _ _ Hm Hin) as Hes. rewrite Hf in Hes.
    rewrite list.Forall_forall in Hg. pose proof (Hg _ Hin) as Hne. simpl in Hne.
    assert (Hall : forall e, e ∈ es -> ((src, dst), e) ∈ all_links ext int).
    { intros e He. rewrite <- Hes in He. apply list_elem_of_fmap in He as ([k e'] & -> & [Hk Hp]%list_elem_of_filter).
      simpl in *. by subst k. }
    split; [|split; [rewrite <- Hes; apply (cf_vnets_once _ _ _ _ Hc)|split; [done|]]].
    + destruct es as [|e es]; [done|]. rewrite Hn.
      apply (all_links_placed nr nv ext int ((src, dst), e) Hc). apply Hall. by left.
    + apply list.Forall_forall. intros e He. pose proof (cf_weights _ _ _ _ Hc) as Hw.
      rewrite list.Forall_forall in Hw. by apply (Hw ((src, dst), e)), Hall.
Qed.

(** Rounds of the search that are enough for [nr] routers. *)
Definition config_fuel (nr : Z) : nat :=
  S (Z.to_nat (nr + 2 * machines) * Z.to_nat (nr + 2 * machines) * Z.to_nat INFINITE_LATENCY).

Lemma num_switches_le m b : 0 < b -> Forall (fun '((src, dst), _) => src < b /\ dst < b) m -> num_switches m <= b.
Proof.
  intros Hb Hm. unfold num_switches. cut (foldl (fun acc '((src, dest), _) => Z.max (Z.max acc src) dest) 0 m < b); [lia|].
  assert (Hacc : forall acc, acc < b -> foldl (fun acc '((src, dest), _) => Z.max (Z.max acc src) dest) acc m < b).
  { induction Hm as [|[[x y] l] m Hx _ IH]; intros acc Ha; simpl; [done|]. apply IH. lia. }
  by apply Hacc.
Qed.

Lemma links_bound nr nv ext int p : config_ok nr nv ext int -> p ∈ all_links ext int ->
  p.1.1 < nr + 2 * machines /\ p.1.2 < nr + 2 * machines.
Proof.
  intros [Hmach _ Hext Hint _ _ _] [Hp|Hp]%elem_of_app.
  - apply list_elem_of_bind in Hp as (l & Hp & Hl). rewrite list.Forall_forall in Hext. destruct (Hext _ Hl) as [Hm Hr].
    pose proof (machine_switch _ _ Hm).
    apply elem_of_cons in Hp as [->|Hp]; [|apply list_elem_of_singleton in Hp as ->]; unfold router_switch; simpl; lia.
  - apply list_elem_of_fmap in Hp as (l & -> & Hl). rewrite list.Forall_forall in Hint.
    destruct (Hint _ Hl) as (? & ? & ?). unfold int_pair, router_switch. simpl. lia.
Qed.

Lemma num_switches_config nr nv ext int s : config_ok nr nv ext int -> built nr nv (all_links ext int) s ->
  num_switches (m_link_map s) <= nr + 2 * machines.
Proof.
  intros Hc [Hn Hr Hv Hm Hg Hf]. apply num_switches_le.
  - destruct (all_links ext int) as [|p ls] eqn:E; [by destruct (cf_some _ _ _ _ Hc)|].
    destruct (links_bound nr nv ext int p Hc) as [H1 _]; [rewrite E; by left|].
    destruct (all_links_placed nr nv ext int p Hc) as [H2 _]; [rewrite E; by left|]. lia.
  - apply list.Forall_forall. intros [[src dst] es] Hin.
    pose proof (link_find_elem _ _ _ Hm Hin) as Hes. rewrite Hf in Hes. rewrite list.Forall_forall in Hg.
    destruct es as [|e es]; [by destruct (Hg _ Hin)|].
    assert (He : e ∈ between (src, dst) (all_links ext int)) by (rewrite Hes; by left).
    apply list_elem_of_fmap in He as ([k e'] & -> & [Hk Hp]%list_elem_of_filter). simpl in Hk. subst k.
    by apply (links_bound nr nv ext int _ Hc) in Hp.
Qed.

Lemma config_fuel_enough nr nv ext int s : config_ok nr nv ext int -> built nr nv (all_links ext int) s ->
  (links_fuel s <= config_fuel nr)%nat.
Proof.
  intros Hc Hb. pose proof (num_switches_config _ _ _ _ _ Hc Hb).
  unfold links_fuel, config_fuel. apply le_n_S. apply Nat.mul_le_mono_r, Nat.mul_le_mono; lia.
Qed.

Lemma between_elem k e ls : e ∈ between k ls <-> (k, e) ∈ ls.
Proof.
  unfold between. rewrite list_elem_of_fmap. split.
  - intros ([k' e'] & -> & [Hk Hin]%list_elem_of_filter). simpl in *. by subst.
  - intros Hin. exists (k, e). split; [done|]. by apply list_elem_of_filter.
Qed.

(** The whole way from the configuration to the calls. *)
Lemma create_spec nr nv ext int fuel : config_ok nr nv ext int -> (config_fuel nr <= fuel)%nat ->
  exists s made w D, new nr (Z.of_nat nv) ext int = Ok s /\ createLinks fuel s = Ok made /\
    built nr nv (all_links ext int) s /\ topo_ok nv s /\ link_weights nv s w /\
    (forall v, in_range (Z.of_nat nv) v -> dist_plane (Z.to_nat (num_switches (m_link_map s))) w D v) /\
    making nv s w (fun _ _ => True) made.
Proof.
  intros Hc Hf. destruct (safe_inv _ _ (new_built nr nv ext int Hc)) as (s & Hnew & Hb).
  pose proof (built_ok _ _ _ _ _ Hc Hb) as Hok. pose proof (config_fuel_enough _ _ _ _ _ Hc Hb).
  destruct (safe_inv _ _ (createLinks_spec nv s Hok fuel ltac:(lia))) as (made & Hmade & w & D & Hw & _ & HD & Hm).
  by exists s, made, w, D.
Qed.

(** From a consistent configuration the constructor and [createLinks]
    run to their ends.  Every configured link is made, nothing else is,
    and for every virtual network a link carries its table entry holds
    exactly the machines it leads to on a way of least weight; for the
    others the entry is empty. *)
Theorem createLinks_tables nr nv ext int fuel : config_ok nr nv ext int -> (config_fuel nr <= fuel)%nat ->
  exists s made w, new nr (Z.of_nat nv) ext int = Ok s /\ createLinks fuel s = Ok made /\ link_weights nv s w /\
    (forall c, c ∈ made -> exists src dst e, ((src, dst), e) ∈ all_links ext int /\ made_for nv s w src dst e c) /\
    (forall src dst e, ((src, dst), e) ∈ all_links ext int -> exists c, c ∈ made /\ made_for nv s w src dst e c).
Proof.
  intros Hc Hf. destruct (create_spec nr nv ext int fuel Hc Hf) as (s & made & w & D & Hnew & Hmade & Hb & Hok & Hw & _ & Hfrom & Hto).
  exists s, made, w. do 3 (split; [done|]). split.
  - intros c Hcm. destruct (Hfrom c Hcm) as (i & j & e & He & Hm). exists i, j, e. split; [|done].
    rewrite (bt_find _ _ _ _ Hb) in He. by apply between_elem.
  - intros src dst e He. apply between_elem in He. rewrite <- (bt_find _ _ _ _ Hb) in He.
    destruct (group_facts nv s Hok src dst _ (link_find_in _ _ _ He)) as (Hs & Hd & _). by apply Hto.
Qed.

(** ** Delivery *)

(** A way over configured links that carry virtual network [v], and its weight. *)
Inductive route (nv : nat) (ls : list ((Z * Z) * LinkEntry)) (v : Z) : Z -> Z -> Z -> Prop :=
| route_nil i : route nv ls v i i 0
| route_cons src next dst e c : ((src, next), e) ∈ ls -> v ∈ vnets_of nv (le_link e) -> route nv ls v next dst c ->
    route nv ls v src dst (bl_weight (le_link e) + c).

(** A packet of virtual network [v] for machine [m], [i] may take the link from [src] to [next]. *)
Definition may_take (nv : nat) (ls : list ((Z * Z) * LinkEntry)) (s : t) (made : list MadeLink) (v m i src next : Z) : Prop :=
  exists e table d, ((src, next), e) ∈ ls /\ v ∈ vnets_of nv (le_link e) /\
    made_link s src next e table ∈ made /\ vget table v = Ok d /\ NetDest.mem d m i.

Lemma made_link_inj s i j e table i' j' e' table' : made_link s i j e table = made_link s i' j' e' table' ->
  i = i' /\ j = j' /\ le_link e = le_link e' /\ table = table'.
Proof.
  unfold made_link. destruct (i <? m_nodes s), (i' <? m_nodes s); try destruct (j <? _); try destruct (j' <? _);
    intros Heq; simplify_eq; (split_and!; [lia|lia|done|done]).
Qed.

Lemma may_take_leads nr nv ext int s made w v m i src next : topo_ok nv s -> built nr nv (all_links ext int) s ->
  link_weights nv s w -> making nv s w (fun _ _ => True) made -> in_range (Z.of_nat nv) v -> machine m i ->
  let n := Z.to_nat (num_switches (m_link_map s)) in
  may_take nv (all_links ext int) s made v m i src next <->
  linked nv s v src next /\ leads n (entry w v) src next (out_switch m i).
Proof.
  intros Hok Hb Hw [Hfrom Hto] Hv Hmi n. split.
  - intros (e & table & d & He & Hve & Hin & Hget & Hmem).
    apply between_elem in He. rewrite <- (bt_find _ _ _ _ Hb) in He.
    destruct (linked_link nv s Hok src next e v He Hve) as [Hlk _]. split; [done|].
    destruct (Hfrom _ Hin) as (i' & j' & e' & _ & table' & (-> & -> & Hl & ->)%made_link_inj & _ & Hgood).
    apply Hgood in Hget. rewrite <- Hl, decide_True in Hget by done. by apply Hget in Hmem as [_ ?].
  - intros [Hlk Hlead]. pose proof Hlk as ([v' l] & Hv' & (e & Hc & He)%list_elem_of_bind)%list_elem_of_fmap.
    apply list_elem_of_fmap in Hc as (v2 & [= -> ->] & Hve). simpl in Hv'. subst v2.
    destruct (group_facts nv s Hok src next _ (link_find_in _ _ _ He)) as (Hs & Hd & _).
    destruct (Hto src next e Hs Hd Logic.I He) as (c & Hc & table & -> & Hlen & Hgood).
    destruct (vget_range table v) as [d Hget]; [unfold zlength, in_range in *; lia|].
    exists e, table, d. rewrite (bt_find _ _ _ _ Hb) in He. apply between_elem in He. do 4 (split; [done|]).
    pose proof (Hgood v d Hget) as Hent. rewrite decide_True in Hent by done. by apply Hent.
Qed.

Lemma route_walk nr nv ext int s w v src dst c : topo_ok nv s -> built nr nv (all_links ext int) s ->
  link_weights nv s w -> in_range (Z.of_nat (Z.to_nat (num_switches (m_link_map s)))) dst ->
  route nv (all_links ext int) v src dst c ->
  walk (Z.of_nat (Z.to_nat (num_switches (m_link_map s)))) (entry w v) src dst c.
Proof.
  intros Hok Hb Hw Hdst. induction 1 as [|src next dst e c He Hve _ IH]; [by apply walk_nil|].
  apply between_elem in He. rewrite <- (bt_find _ _ _ _ Hb) in He. pose proof (link_find_in _ _ _ He) as Hg.
  destruct (group_facts nv s Hok src next _ Hg) as (Hs & Hd & _).
  assert (Hc : (v, le_link e) ∈ carried nv (link_find (src, next) (m_link_map s))).
  { apply list_elem_of_bind. exists e. split; [|done]. apply list_elem_of_fmap. by exists v. }
  rewrite <- (entry_Ok _ _ _ _ _ (lw_link _ _ _ Hw _ _ _ _ _ Hg Hc)). apply walk_cons; auto.
Qed.

(** A link carries [v] exactly where the weight is that of a link. *)
Lemma linked_weight nv s w v i j : topo_ok nv s -> link_weights nv s w -> in_range (Z.of_nat nv) v ->
  let n := Z.to_nat (num_switches (m_link_map s)) in
  linked nv s v i j <-> in_range (Z.of_nat n) i /\ in_range (Z.of_nat n) j /\
    0 < entry w v i j /\ entry w v i j <> INFINITE_LATENCY.
Proof.
  intros Hok Hw Hv n. split.
  - intros Hlk. pose proof Hlk as (p & _ & (e & _ & He)%list_elem_of_bind)%list_elem_of_fmap.
    destruct (group_facts nv s Hok i j _ (link_find_in _ _ _ He)) as (Hi & Hj & _).
    destruct (real_weight nv s Hok w Hw v i j Hv Hi Hj) as (x & Hx & Hb).
    rewrite bool_decide_eq_true_2 in Hb by done. rewrite (entry_Ok _ _ _ _ _ Hx). do 2 (split; [done|]). lia.
  - intros (Hi & Hj & Hpos & Hfin). destruct (real_weight nv s Hok w Hw v i j Hv Hi Hj) as (x & Hx & Hb).
    rewrite (entry_Ok _ _ _ _ _ Hx) in *. case_bool_decide; [done|]. lia.
Qed.

(** Over the links of a topology, whatever leads to a machine arrives there. *)
Lemma created_arrive nr nv ext int s made w D v m i src c : config_ok nr nv ext int -> built nr nv (all_links ext int) s ->
  topo_ok nv s -> link_weights nv s w ->
  (forall v, in_range (Z.of_nat nv) v -> dist_plane (Z.to_nat (num_switches (m_link_map s))) w D v) ->
  making nv s w (fun _ _ => True) made -> in_range (Z.of_nat nv) v -> machine m i ->
  route nv (all_links ext int) v src (out_switch m i) c -> c < INFINITE_LATENCY ->
  arrives (may_take nv (all_links ext int) s made v m i) (out_switch m i) (Z.to_nat c) src.
Proof.
  intros Hc Hb Hok Hw HD Hmk Hv Hmi Hr Hinf.
  set (n := Z.to_nat (num_switches (m_link_map s))) in *.
  assert (Hout : in_range (Z.of_nat n) (out_switch m i)) by (apply out_switch_range; [by apply (switches_enough nv s)|done]).
  apply (route_walk nr nv ext int s w v _ _ _ Hok Hb Hw Hout) in Hr as Hwalk. fold n in Hwalk.
  pose proof (link_weights_ok nv s Hok w Hw) as Hwo. fold n in Hwo.
  assert (Hsrc : in_range (Z.of_nat n) src) by (by destruct Hwalk).
  destruct (HD v Hv src _ Hsrc Hout) as (d & _ & Hd). pose proof (proj2 Hd _ Hwalk) as Hle.
  apply (leads_arrives nv n w D Hwo v Hv (HD v Hv)) with (c := d); try done; [by apply (link_weights_positive nv s Hok w Hw v)| | |lia|lia].
  - intros x y [Hlk Hl]%(may_take_leads nr nv ext int s made w v m i x y Hok Hb Hw Hmk Hv Hmi).
    apply (linked_weight nv s w v x y Hok Hw Hv) in Hlk as (_ & Hy & Hpos & _). done.
  - intros x y Hx Hy Hxy Hl. apply (may_take_leads nr nv ext int s made w v m i x y Hok Hb Hw Hmk Hv Hmi).
    split; [|done]. apply (linked_weight nv s w v x y Hok Hw Hv). do 2 (split; [done|]). lia.
Qed.

(** C26: the routing tables deliver.  Wherever a packet of virtual network
    [v] is, if configured links of total weight [c], less than the weight that
    stands for no link, lead from there to its destination, there is a link
    it may take, and whichever it takes at every switch, it arrives within [c]
    hops. *)
Theorem created_tables_deliver nr nv ext int fuel : config_ok nr nv ext int -> (config_fuel nr <= fuel)%nat ->
  exists s made, new nr (Z.of_nat nv) ext int = Ok s /\ createLinks fuel s = Ok made /\
    forall v m i src c, in_range (Z.of_nat nv) v -> machine m i ->
      route nv (all_links ext int) v src (out_switch m i) c -> c < INFINITE_LATENCY ->
      arrives (may_take nv (all_links ext int) s made v m i) (out_switch m i) (Z.to_nat c) src.
Proof.
  intros Hc Hf. destruct (create_spec nr nv ext int fuel Hc Hf)
    as (s & made & w & D & Hnew & Hmade & Hb & Hok & Hw & HD & Hmk).
  exists s, made. do 2 (split; [done|]). intros. by eapply created_arrive.
Qed.

End config.

(** C30: the search for shortest paths ends and computes the distances: for
    weights that are non-negative and fit, zero from a switch to itself,
    every element of the result is the least cost of a walk between its two
    switches, in every virtual network.  Enough rounds for the loop are one more than
    the largest sum of the weights of a virtual network. *)
Theorem shortest_path_distances fuel s weights latencies inter nv n :
  weights_ok nv n weights -> shape n n nv latencies -> shape n n nv inter ->
  m_vnets s = Z.of_nat nv -> (0 < nv)%nat -> (path_fuel weights <= fuel)%nat ->
  exists p, shortest_path fuel s weights latencies inter = Ok p /\
    forall v i j, in_range (Z.of_nat nv) v -> in_range (Z.of_nat n) i -> in_range (Z.of_nat n) j ->
      exists c, mget (p_dist p) v i j = Ok c /\ is_dist (Z.of_nat n) (entry weights v) i j c.
Proof.
  intros Hw Hl Hi Hv Hpos Hf.
  destruct (safe_inv _ _ (shortest_path_spec fuel s weights latencies inter nv n Hw Hl Hi Hv Hpos Hf))
    as (p & Hp & _ & _ & _ & Hd).
  exists p. split; [done|]. intros v i j Hv' Hi' Hj'. by apply Hd.
Qed.

(** ** Examples *)

(** Three switches in a line. *)
Definition line_weights : Matrix := [[[0; 1; 10000]; [10000; 0; 1]; [10000; 10000; 0]]].

Lemma line_weights_ok : weights_ok 1 3 line_weights.
Proof.
  assert (Hall : forall v i j w, mget line_weights v i j = Ok w -> 0 <= w < 2 ^ 30 /\ (i = j -> w = 0)).
  { intros v i j w (x & [Hv Hx]%vget_Ok & (y & [Hi Hy]%vget_Ok & [Hj Hw]%vget_Ok)%bind_Ok)%bind_Ok.
    destruct (Z.to_nat v) as [|k] eqn:Ev; [|by destruct k]. injection Hx as <-.
    destruct (Z.to_nat i) as [|[|[|a]]] eqn:Ei; try discriminate Hy; injection Hy as <-;
      destruct (Z.to_nat j) as [|[|[|b]]] eqn:Ej; try discriminate Hw; injection Hw as <-; split; lia. }
  split; [|intros v i j w Hw; by apply Hall in Hw as [Hw _]|].
  { split; [done|]. repeat (apply list.Forall_cons; split; [split; [done|]|]); [|by apply list.Forall_nil].
    repeat (apply list.Forall_cons; split; [done|]). by apply list.Forall_nil. }
  intros v i w Hw. apply Hall in Hw as [_ Hw]. by apply Hw.
Qed.

(** A protocol with two machine types of one machine each, at two routers. *)
Definition pair_machines : MachineTypes :=
  {| MachineType_NUM := 2; MachineType_base_level := fun m => m;
     MachineType_base_count := fun _ => 1; MachineType_base_number := fun m => m;
     NUMBER_BITS_PER_SET := 64 |}.

Lemma pair_machines_ok : @MachineTypesOk pair_machines.
Proof. split; simpl; lia. Qed.

Lemma shortest_path_distances_witness : exists p,
  shortest_path (path_fuel line_weights) (mk 2 3 1 []) line_weights (matrix 3 3 1 (-1)) (matrix 3 3 1 0) = Ok p /\
  forall v i j, in_range 1 v -> in_range 3 i -> in_range 3 j ->
    exists c, mget (p_dist p) v i j = Ok c /\ is_dist 3 (entry line_weights v) i j c.
Proof.
  apply (shortest_path_distances (path_fuel line_weights) (mk 2 3 1 []) line_weights (matrix 3 3 1 (-1))
    (matrix 3 3 1 0) 1 3); [apply line_weights_ok|apply matrix_shape|apply matrix_shape|done|lia|lia].
Defined.

Definition plain_link (ptr : Z) : BasicLink := mkBasicLink 1 16 1 [] ptr.
Definition pair_ext : list BasicExtLink :=
  [mkExtLink (plain_link 0) (mkMachineID 0 0) 0; mkExtLink (plain_link 1) (mkMachineID 1 0) 1].
Definition pair_int : list BasicIntLink :=
  [mkIntLink (plain_link 2) 0 1 "East" "West"; mkIntLink (plain_link 3) 1 0 "West" "East"].

Lemma pair_config : @config_ok pair_machines 2 1 pair_ext pair_int.
Proof.
  split; simpl.
  - by vm_compute.
  - lia.
  - unfold machine. simpl. repeat constructor; simpl; lia.
  - repeat constructor; simpl; lia.
  - unfold weighed. repeat constructor; simpl; lia.
  - intros k. unfold between. vm_compute (@all_links _ _ _).
    rewrite !filter_cons, filter_nil. repeat case_decide; subst; simplify_eq; unfold group_ok; vm_compute; repeat constructor.
    all: try by intros ?%not_elem_of_nil. all: done.
  - done.
Qed.

Lemma createLinks_tables_witness : exists s made w,
  @new pair_machines 2 1 pair_ext pair_int = Ok s /\ @createLinks pair_machines (@config_fuel pair_machines 2) s = Ok made /\
  @link_weights 1 s w /\
  (forall c, c ∈ made -> exists src dst e, ((src, dst), e) ∈ @all_links pair_machines pair_ext pair_int /\
     @made_for pair_machines 1 s w src dst e c) /\
  (forall src dst e, ((src, dst), e) ∈ @all_links pair_machines pair_ext pair_int ->
     exists c, c ∈ made /\ @made_for pair_machines 1 s w src dst e c).
Proof.
  apply (@createLinks_tables pair_machines pair_machines_ok 2 1 pair_ext pair_int (@config_fuel pair_machines 2));
    [apply pair_config|lia].
Defined.

Lemma created_tables_deliver_witness : exists s made,
  @new pair_machines 2 1 pair_ext pair_int = Ok s /\ @createLinks pair_machines (@config_fuel pair_machines 2) s = Ok made /\
  @arrives (may_take 1 (@all_links pair_machines pair_ext pair_int) s made 0 1 0) (@out_switch pair_machines 1 0) 3 0.
Proof.
  destruct (@created_tables_deliver pair_machines pair_machines_ok 2 1 pair_ext pair_int
    (@config_fuel pair_machines 2) pair_config (le_n _)) as (s & made & Hs & Hm & Hd).
  exists s, made. split; [exact Hs|]. split; [exact Hm|].
  apply (Hd 0 1 0 0 3); [done|by vm_compute| |done].
  apply (route_cons _ _ _ 0 4 _ (mkLinkEntry (plain_link 0) "" "") 2); [by vm_compute; left|by left|].
  apply (route_cons _ _ _ 4 5 _ (mkLinkEntry (plain_link 2) "East" "West") 1); [vm_compute; do 4 right; by left|by left|].
  apply (route_cons _ _ _ 5 3 _ (mkLinkEntry (plain_link 1) "" "") 0); [vm_compute; do 3 right; by left|by left|].
  apply route_nil.
Defined.
