(* ===== verification/Clock.v ===== *)
(** * Clock: clocked objects and event consumers

    [Clocked] of sim/clocked_object.hh keeps the next clock edge; the
    [Consumer] of mem/ruby/common/Consumer.cc keeps a set of ticks at
    which its object must wake up, and one event in the event queue.  The
    theorems show that a consumer that is only scheduled for the present
    or the future wakes up at exactly the requested clock edges. *)

From Stdlib Require Import Sorted.
From S2P Require Import Prelude.

(** ** Clocked *)

Module Clocked.

Record t := mk { tick : Z; cycle : Z; clockPeriod : Z }.
#[global] Instance t_eta : Etaed t := fun c => mk (tick c) (cycle c) (clockPeriod c).

Definition new (period : Z) : t := mk 0 0 period.

Definition update (curTick : Z) (c : t) : t :=
  if curTick <=? tick c then c
  else
    let c := c <| tick := tick c + clockPeriod c |> <| cycle := cycle c + 1 |> in
    if curTick <=? tick c then c
    else
      let elapsedCycles := divCeil (curTick - tick c) (clockPeriod c) in
      c <| cycle := cycle c + elapsedCycles |>
        <| tick := tick c + elapsedCycles * clockPeriod c |>.

(** [clockEdge] and [curCycle] update the cached edge and read it. *)
Definition clockEdge (curTick cycles : Z) (c : t) : Z :=
  let c := update curTick c in tick c + clockPeriod c * cycles.

Definition curCycle (curTick : Z) (c : t) : Z := cycle (update curTick c).

Definition resetClock (curTick : Z) (c : t) : t :=
  let elapsedCycles := divCeil curTick (clockPeriod c) in
  c <| cycle := elapsedCycles |> <| tick := elapsedCycles * clockPeriod c |>.

(** The cached edge is a multiple of the period, counted by [cycle], and
    no more than one period ahead. *)
Definition wf (now : Z) (c : t) : Prop :=
  0 < clockPeriod c /\ 0 <= cycle c /\ tick c = cycle c * clockPeriod c /\
  tick c < now + clockPeriod c.

(** The edge found is the first one not before the current tick. *)
Lemma update_spec now c : wf now c ->
  wf now (update now c) /\ clockPeriod (update now c) = clockPeriod c /\
  now <= tick (update now c).
Proof.
  unfold wf, update. intros (Hp & Hc & Ht & Hlt).
  destruct (Z.leb_spec now (tick c)); [auto with lia|]. simpl.
  destruct (Z.leb_spec now (tick c + clockPeriod c)); simpl; [lia|].
  pose proof (divCeil_spec (now - (tick c + clockPeriod c)) (clockPeriod c) Hp ltac:(lia)).
  split; [|lia]. split_and!; nia.
Qed.

Lemma wf_later now now' c : now <= now' -> wf now c -> wf now' c.
Proof. unfold wf. lia. Qed.

(** An aligned tick is its own edge. *)
Lemma clockEdge_aligned now k c :
  wf now c -> now = k * clockPeriod c -> clockEdge now 0 c = now.
Proof.
  intros Hwf Hk. destruct (update_spec now c Hwf) as ((Hp & _ & Ht & Hlt) & Hper & Hge).
  unfold clockEdge. rewrite Hper in *. rewrite Z.mul_0_r, Z.add_0_r.
  assert (cycle (update now c) = k) by nia. congruence.
Qed.

Lemma clockEdge_plus now n c : clockEdge now n c = clockEdge now 0 c + clockPeriod c * n.
Proof.
  unfold clockEdge, update. repeat case_match; simpl; lia.
Qed.

(** Reading an edge does not change later reads: the cache is invisible. *)
Lemma clockEdge_update now now' n c :
  wf now c -> now <= now' -> clockEdge now' n (update now c) = clockEdge now' n c.
Proof.
  intros Hwf Hle. destruct (update_spec now c Hwf) as (Hwf1 & Hp1 & Hge1).
  destruct (update_spec now' (update now c) (wf_later _ _ _ Hle Hwf1)) as ((? & ? & Ht2 & Hl2) & Hp2 & Hge2).
  destruct (update_spec now' c (wf_later _ _ _ Hle Hwf)) as ((? & ? & Ht3 & Hl3) & Hp3 & Hge3).
  unfold clockEdge. rewrite Hp2, Hp3, Hp1 in *.
  assert (cycle (update now' (update now c)) = cycle (update now' c)) as Heq by nia.
  by rewrite Ht2, Ht3, Heq.
Qed.

End Clocked.

(** ** Consumer *)

Module Consumer.

(** [m_wakeup_ticks] is a [std::set], kept as an increasing list;
    [m_wakeup_event] is the tick its event is scheduled for, if any. *)
Record t := mk { m_wakeup_ticks : list Z; m_wakeup_event : option Z }.
#[global] Instance t_eta : Etaed t := fun c => mk (m_wakeup_ticks c) (m_wakeup_event c).

Definition new : t := mk [] None.

(** [std::set::insert] and [lower_bound]. *)
Fixpoint insert_tick (k : Z) (l : list Z) : list Z :=
  match l with
  | [] => [k]
  | x :: l' => if k <? x then k :: l else if k =? x then l else x :: insert_tick k l'
  end.

Fixpoint lower_bound (k : Z) (l : list Z) : option Z :=
  match l with
  | [] => None
  | x :: l' => if k <=? x then Some x else lower_bound k l'
  end.

Definition alreadyScheduled (time : Z) (c : t) : bool := bool_decide (time ∈ m_wakeup_ticks c).

Section clocked.
(** The object's clock and the current tick. *)
Context (em : Clocked.t) (curTick : Z).

Definition scheduleNextWakeup (c : t) : res t :=
  match lower_bound (Clocked.clockEdge curTick 0 em) (m_wakeup_ticks c) with
  | None => Ok c
  | Some when =>
      _ ← assert (Clocked.clockEdge curTick 0 em <=? when);
      Ok (match m_wakeup_event c with
          | Some w => if when <? w then c <| m_wakeup_event := Some when |> else c
          | None => c <| m_wakeup_event := Some when |>
          end)
  end.

Definition scheduleEvent (timeDelta : Z) (c : t) : res t :=
  scheduleNextWakeup (c <| m_wakeup_ticks ::= insert_tick (Clocked.clockEdge curTick timeDelta em) |>).

Definition scheduleEventAbsolute (evt_time : Z) (c : t) : res t :=
  scheduleNextWakeup (c <| m_wakeup_ticks ::= insert_tick
    (divCeil evt_time (Clocked.clockPeriod em) * Clocked.clockPeriod em) |>).

(** The event fires: it has left the event queue. *)
Definition processCurrentEvent (wakeup : t -> res t) (c : t) : res t :=
  let c := c <| m_wakeup_event := None |> in
  match m_wakeup_ticks c with
  | [] => Err Undefined
  | curr :: rest =>
      _ ← assert (Clocked.clockEdge curTick 0 em =? curr);
      c ← wakeup (c <| m_wakeup_ticks := rest |>);
      scheduleNextWakeup c
  end.

End clocked.

(** The ticks at which a consumer wakes up when nothing new is scheduled. *)
Fixpoint fires (fuel : nat) (em : Clocked.t) (c : t) : res (list Z) :=
  match m_wakeup_event c, fuel with
  | None, _ => Ok []
  | Some _, O => Err Undefined
  | Some when, S fuel' =>
      c ← processCurrentEvent em when (fun c => Ok c) c;
      l ← fires fuel' em c;
      Ok (when :: l)
  end.

(** Pending ticks are distinct edges from [edge] on; [m_wakeup_event] is
    the first of them ([wf]), or any or none of them ([waking]). *)
Definition pending (em : Clocked.t) (edge : Z) (l : list Z) : Prop :=
  StronglySorted Z.lt l /\ Forall (fun k => edge <= k /\ exists n, k = n * Clocked.clockPeriod em) l.
Definition wf (em : Clocked.t) (edge : Z) (c : t) : Prop :=
  pending em edge (m_wakeup_ticks c) /\ m_wakeup_event c = head (m_wakeup_ticks c).
Definition waking (em : Clocked.t) (edge : Z) (c : t) : Prop :=
  pending em edge (m_wakeup_ticks c) /\
  forall k, m_wakeup_event c = Some k -> k ∈ m_wakeup_ticks c.

Lemma insert_tick_elem k l x : x ∈ insert_tick k l <-> x = k \/ x ∈ l.
Proof.
  induction l as [|y l IH]; simpl; [set_solver|].
  destruct (Z.ltb_spec k y); [set_solver|]. destruct (Z.eqb_spec k y); set_solver.
Qed.

Lemma insert_tick_sorted k l : StronglySorted Z.lt l -> StronglySorted Z.lt (insert_tick k l).
Proof.
  induction 1 as [|y l Hs IH Hall]; simpl; [by repeat constructor|].
  destruct (Z.ltb_spec k y).
  { constructor; [by constructor|]. constructor; [done|].
    eapply list.Forall_impl; [exact Hall|]. simpl. lia. }
  destruct (Z.eqb_spec k y); [by constructor|]. constructor; [done|].
  apply list.Forall_forall. intros x [->|Hx]%insert_tick_elem; [lia|].
  by apply (proj1 (list.Forall_forall _ _) Hall).
Qed.

Lemma pending_insert em edge k l :
  pending em edge l -> edge <= k -> (exists n, k = n * Clocked.clockPeriod em) ->
  pending em edge (insert_tick k l).
Proof.
  intros [Hs Hall] Hk Hn. split.
  - by apply insert_tick_sorted.
  - apply list.Forall_forall. intros x [->|Hx]%insert_tick_elem; [done|].
    by apply (proj1 (list.Forall_forall _ _) Hall).
Qed.

Lemma lower_bound_head em edge l : pending em edge l -> lower_bound edge l = head l.
Proof.
  intros [_ Hall]. destruct l as [|x l]; [done|]. simpl.
  apply list.Forall_cons in Hall as [[Hx _] _]. by rewrite (proj2 (Z.leb_le _ _)).
Qed.

(** The wake-up event is moved to the first pending tick. *)
Lemma scheduleNextWakeup_wf em now c :
  waking em (Clocked.clockEdge now 0 em) c ->
  safe (scheduleNextWakeup em now c) (fun c' =>
    wf em (Clocked.clockEdge now 0 em) c' /\ m_wakeup_ticks c' = m_wakeup_ticks c).
Proof.
  intros [Hp Hev]. unfold scheduleNextWakeup. rewrite (lower_bound_head em) by done.
  destruct c as [[|k l] ev]; simpl in *.
  { split; [|done]. split; [done|]. simpl. destruct ev as [k|]; [|done].
    specialize (Hev k eq_refl). by apply not_elem_of_nil in Hev. }
  pose proof Hp as [Hs Hall]. apply list.Forall_cons in Hall as [[Hk _] _].
  apply safe_bind, safe_assert; [lia|]. simpl. destruct ev as [w|]; [|done].
  specialize (Hev w eq_refl).
  destruct (Z.ltb_spec k w); simpl; [done|]. split; [|done]. split; [done|]. simpl.
  apply elem_of_cons in Hev as [->|Hw]; [done|]. apply StronglySorted_inv in Hs as [_ Hs].
  apply (proj1 (list.Forall_forall _ _) Hs) in Hw. lia.
Qed.

Lemma wf_waking em edge c : wf em edge c -> waking em edge c.
Proof.
  intros [Hp Hev]. split; [done|]. intros k Hk. rewrite Hev in Hk.
  destruct (m_wakeup_ticks c); simplify_eq/=. apply elem_of_cons. by left.
Qed.

Lemma schedule_wf em now c k :
  waking em (Clocked.clockEdge now 0 em) c -> Clocked.clockEdge now 0 em <= k ->
  (exists n, k = n * Clocked.clockPeriod em) ->
  safe (scheduleNextWakeup em now (c <| m_wakeup_ticks ::= insert_tick k |>)) (fun c' =>
    wf em (Clocked.clockEdge now 0 em) c' /\ m_wakeup_ticks c' = insert_tick k (m_wakeup_ticks c)).
Proof.
  intros [Hp Hev] Hk Hn. apply scheduleNextWakeup_wf. split; [by apply pending_insert|].
  intros k' Hk'. apply insert_tick_elem. right. by apply Hev.
Qed.

Lemma pending_later em edge edge' l :
  pending em edge l -> (forall k, k ∈ l -> edge' <= k) -> pending em edge' l.
Proof.
  intros [Hs Hall] Hk. split; [done|]. apply list.Forall_forall. intros x Hx.
  split; [by apply Hk|]. by apply (proj1 (list.Forall_forall _ _) Hall).
Qed.

(** The event for the first pending tick runs the object's wake-up
    with that tick removed, and is then set to the next pending tick. *)
Lemma processCurrentEvent_wf em now c wakeup (Q : t -> Prop) :
  Clocked.wf now em -> wf em (Clocked.clockEdge now 0 em) c -> m_wakeup_event c = Some now ->
  (forall c1, waking em (Clocked.clockEdge now 0 em) c1 -> now :: m_wakeup_ticks c1 = m_wakeup_ticks c ->
     safe (wakeup c1) (fun c2 => waking em (Clocked.clockEdge now 0 em) c2 /\ Q c2)) ->
  safe (processCurrentEvent em now wakeup c) (fun c' => wf em (Clocked.clockEdge now 0 em) c' /\
    exists c2, Q c2 /\ m_wakeup_ticks c' = m_wakeup_ticks c2).
Proof.
  intros Hclk [Hp Hev] Hnow Hw. unfold processCurrentEvent. rewrite Hev in Hnow.
  destruct c as [[|k l] ev]; simplify_eq/=.
  pose proof Hp as [Hs Hall]. apply list.Forall_cons in Hall as [[_ [n Hn]] Hall].
  apply StronglySorted_inv in Hs as [Hs _].
  rewrite (Clocked.clockEdge_aligned now n em Hclk Hn), Z.eqb_refl in *.
  cbn [assert mbind res_bind]. apply safe_bind. eapply safe_mono.
  { apply Hw; [|done]. split; [|done]. by split. }
  intros c2 [Hwk HQ]. eapply safe_mono.
  { apply (scheduleNextWakeup_wf em now c2).
    by rewrite (Clocked.clockEdge_aligned now n em Hclk Hn). }
  intros c' [Hwf' Hticks]. rewrite (Clocked.clockEdge_aligned now n em Hclk Hn) in Hwf'. eauto.
Qed.

(** Scheduling from a clock edge keeps the consumer consistent. *)
Lemma scheduleEvent_ticks em now c n : Clocked.wf now em -> Clocked.clockEdge now 0 em = now ->
  waking em now c -> 0 <= n -> safe (scheduleEvent em now n c) (fun c' =>
    wf em now c' /\ m_wakeup_ticks c' = insert_tick (now + Clocked.clockPeriod em * n) (m_wakeup_ticks c)).
Proof.
  intros Hclk Hedge Hwk Hn. unfold scheduleEvent.
  destruct (Clocked.update_spec now em Hclk) as ((Hp & Hc & Ht & _) & Hper & _).
  assert (Halign : now = Clocked.cycle (Clocked.update now em) * Clocked.clockPeriod em).
  { rewrite <- Hedge at 1. unfold Clocked.clockEdge. rewrite Ht, Hper. lia. }
  rewrite (Clocked.clockEdge_plus now n), Hedge. rewrite Hper in Hp.
  pose proof (schedule_wf em now c (now + Clocked.clockPeriod em * n)) as Hs. rewrite Hedge in Hs.
  apply Hs; [done|nia|].
  exists (Clocked.cycle (Clocked.update now em) + n). lia.
Qed.

Lemma scheduleEvent_safe em now c n : Clocked.wf now em -> Clocked.clockEdge now 0 em = now ->
  waking em now c -> 0 <= n -> safe (scheduleEvent em now n c) (wf em now).
Proof. intros. eapply safe_mono; [by apply scheduleEvent_ticks|]. by intros ? [? _]. Qed.

Lemma sorted_head_le x l : StronglySorted Z.lt (x :: l) -> forall k, k ∈ x :: l -> x <= k.
Proof.
  intros [_ Hs]%StronglySorted_inv k [->|Hk]%elem_of_cons; [done|].
  apply (proj1 (list.Forall_forall _ _) Hs) in Hk. lia.
Qed.

Lemma fires_spec em now : Clocked.wf now em -> forall fuel c edge,
  now <= edge -> wf em edge c -> (length (m_wakeup_ticks c) <= fuel)%nat ->
  fires fuel em c = Ok (m_wakeup_ticks c).
Proof.
  intros Hclk. induction fuel as [|fuel IH]; intros c edge Hge Hwf Hlen;
    pose proof Hwf as [Hp Hev].
  { destruct c as [[|k l] ev]; simplify_eq/=; [done|lia]. }
  destruct c as [[|k l] ev]; simplify_eq/=; [done|]. cbn [fires m_wakeup_event].
  pose proof Hp as [Hs Hall]. apply list.Forall_cons in Hall as [[Hk [n Hn]] Hall].
  assert (Hclk' : Clocked.wf k em) by (apply (Clocked.wf_later now); [lia|done]).
  pose proof (Clocked.clockEdge_aligned k n em Hclk' Hn) as Hedge.
  assert (Hwf' : wf em (Clocked.clockEdge k 0 em) (mk (k :: l) (Some k))).
  { split; [|done]. rewrite Hedge. eapply pending_later; [exact Hp|]. by apply sorted_head_le. }
  destruct (safe_inv _ _ (processCurrentEvent_wf em k _ (fun c => Ok c)
    (fun c2 => m_wakeup_ticks c2 = l) Hclk' Hwf' eq_refl ltac:(simpl; intros; by simplify_eq)))
    as (c' & -> & Hwf2 & c2 & <- & Hticks).
  cbn [mbind res_bind]. rewrite (IH c' (Clocked.clockEdge k 0 em)); [by rewrite Hticks|lia|done|].
  rewrite Hticks. lia.
Qed.

(** The edge a request is rounded up to is not before the current edge. *)
Lemma request_edge em now r :
  Clocked.wf now em -> 0 <= now <= r ->
  Clocked.clockEdge now 0 em <= divCeil r (Clocked.clockPeriod em) * Clocked.clockPeriod em.
Proof.
  intros Hclk Hr. destruct (Clocked.update_spec now em Hclk) as ((Hp & Hc & Ht & Hlt) & Hper & Hge).
  unfold Clocked.clockEdge. rewrite Hper in *. rewrite Z.mul_0_r, Z.add_0_r.
  assert (r <= divCeil r (Clocked.clockPeriod em) * Clocked.clockPeriod em).
  { destruct (decide (r = 0)) as [->|]; [|pose proof (divCeil_spec r _ Hp); lia].
    unfold divCeil. rewrite Z.quot_div_nonneg by lia.
    pose proof (Z.div_pos (0 + Clocked.clockPeriod em - 1) (Clocked.clockPeriod em)). nia. }
  rewrite Ht. apply Z.mul_le_mono_nonneg_r; [lia|]. set (n := divCeil _ _) in *. nia.
Qed.

Lemma scheduleAll_safe em now requests : Clocked.wf now em -> 0 <= now ->
  Forall (fun r => now <= r) requests ->
  safe (for_each requests (scheduleEventAbsolute em now) new) (fun c =>
    wf em (Clocked.clockEdge now 0 em) c /\ (length (m_wakeup_ticks c) <= length requests)%nat /\
    forall k, k ∈ m_wakeup_ticks c <->
      exists r, r ∈ requests /\ k = divCeil r (Clocked.clockPeriod em) * Clocked.clockPeriod em).
Proof.
  intros Hclk Hnow Hreq.
  apply (safe_for_each (fun pre c => wf em (Clocked.clockEdge now 0 em) c /\
    (length (m_wakeup_ticks c) <= length pre)%nat /\
    forall k, k ∈ m_wakeup_ticks c <->
      exists r, r ∈ pre /\ k = divCeil r (Clocked.clockPeriod em) * Clocked.clockPeriod em)).
  { split_and!; [by repeat constructor|done|set_solver]. }
  intros pre r post c Heq (Hwf & Hlen & Hk). rewrite Heq in Hreq.
  apply Forall_app in Hreq as [_ [Hr _]%list.Forall_cons].
  eapply safe_mono.
  { apply schedule_wf; [by apply wf_waking|by apply request_edge|eauto]. }
  intros c' [Hwf' Hticks]. split; [done|]. rewrite Hticks. split.
  - rewrite length_app. simpl.
    assert (forall k l, (length (insert_tick k l) <= S (length l))%nat) as Hins.
    { intros k l. induction l; simpl; [lia|]. repeat case_match; simpl; lia. }
    specialize (Hins (divCeil r (Clocked.clockPeriod em) * Clocked.clockPeriod em) (m_wakeup_ticks c)).
    lia.
  - intros k. rewrite insert_tick_elem, Hk. set_solver.
Qed.

(** A consumer that is asked, at one time, to wake up at any
    present or future times wakes up exactly once at each clock edge the
    requests round up to, in order of time, and its consistency
    assertions never fail. *)
Theorem consumer_wakes_at_requests em now requests
    (Hclk : Clocked.wf now em) (Hnow : 0 <= now) (Hreq : Forall (fun r => now <= r) requests) :
  safe (c ← for_each requests (scheduleEventAbsolute em now) new; fires (length requests) em c)
    (fun l => StronglySorted Z.lt l /\ forall k, k ∈ l <->
       exists r, r ∈ requests /\ k = divCeil r (Clocked.clockPeriod em) * Clocked.clockPeriod em).
Proof.
  apply safe_bind. eapply safe_mono; [by apply (scheduleAll_safe em now)|].
  intros c (Hwf & Hlen & Hk).
  assert (now <= Clocked.clockEdge now 0 em).
  { destruct (Clocked.update_spec now em Hclk) as (_ & _ & ?). unfold Clocked.clockEdge. lia. }
  rewrite (fires_spec em now Hclk (length requests) c (Clocked.clockEdge now 0 em)) by done.
  split; [|done]. apply Hwf.
Qed.

Lemma consumer_wakes_at_requests_witness :
  safe (c ← for_each [1200; 900; 1000; 500] (scheduleEventAbsolute (Clocked.new 500) 0) new;
        fires 4 (Clocked.new 500) c)
    (fun l => StronglySorted Z.lt l).
Proof.
  eapply safe_mono.
  - apply (consumer_wakes_at_requests (Clocked.new 500) 0 [1200; 900; 1000; 500]);
      [unfold Clocked.wf; simpl; lia|lia|repeat constructor; lia].
  - by intros l [Hs _].
Defined.

End Consumer.
