(* ===== verification/Heap.v ===== *)
(** * Heap: the heap and sort algorithms of the standard library

    [std::push_heap] and [std::pop_heap] with [std::greater], as the C++
    standard describes them: they rearrange a vector so that no element is
    smaller than its first one.  Which of the heaps they make is not
    specified, so that clients are verified against the class; a vector in
    increasing order is the instance that the examples run on.  [std::sort]
    leaves the order of equal elements open and is a class as well. *)

From Stdlib Require Import Sorted.
From stdpp Require Import sorting.
From S2P Require Import Prelude.

Class StdHeap (A : Type) (gt : A -> A -> bool) := {
  is_heap : list A -> Prop;
  (** [push_heap(v.begin(), v.end())] after [v.push_back(x)]. *)
  push_heap : list A -> list A;
  (** Puts the first element last, and the others in front of it. *)
  pop_heap : list A -> list A;
}.
Arguments is_heap {A} gt {_} l.
Arguments push_heap {A} gt {_} l.
Arguments pop_heap {A} gt {_} l.

Class StdHeapOk (A : Type) (gt : A -> A -> bool) `{!StdHeap A gt} : Prop := {
  heap_nil : is_heap gt [];
  heap_front : forall x l y, is_heap gt (x :: l) -> y ∈ l -> gt x y = false;
  push_heap_perm : forall l x, is_heap gt l -> push_heap gt (l ++ [x]) ≡ₚ x :: l;
  push_heap_heap : forall l x, is_heap gt l -> is_heap gt (push_heap gt (l ++ [x]));
  pop_heap_spec : forall x l, is_heap gt (x :: l) ->
    exists l', pop_heap gt (x :: l) = l' ++ [x] /\ l' ≡ₚ l /\ is_heap gt l';
}.

(** ** Vectors in increasing order *)

Section sorted.
Context {A : Type} (gt : A -> A -> bool).

Definition not_after (x y : A) : Prop := gt x y = false.

Fixpoint sorted_insert (x : A) (l : list A) : list A :=
  match l with
  | [] => [x]
  | y :: l' => if gt x y then y :: sorted_insert x l' else x :: l
  end.

Definition sorted_push (l : list A) : list A :=
  match reverse l with [] => [] | x :: l' => sorted_insert x (reverse l') end.

#[global] Instance sorted_heap : StdHeap A gt := {
  is_heap := StronglySorted not_after;
  push_heap := sorted_push;
  pop_heap := fun l => match l with [] => [] | x :: l' => l' ++ [x] end;
}.

(** A strict weak order. *)
Context (Hasym : forall x y, gt x y = true -> gt y x = false).
Context (Htrans : forall x y z, gt x y = false -> gt y z = false -> gt x z = false).

Lemma sorted_push_last l x : sorted_push (l ++ [x]) = sorted_insert x l.
Proof. unfold sorted_push. by rewrite reverse_snoc, reverse_involutive. Qed.

Lemma sorted_insert_perm x l : sorted_insert x l ≡ₚ x :: l.
Proof.
  induction l as [|y l IH]; simpl; [done|]. destruct (gt x y); [|done]. rewrite IH. by constructor.
Qed.

Lemma sorted_insert_sorted x l : StronglySorted not_after l -> StronglySorted not_after (sorted_insert x l).
Proof.
  induction 1 as [|y l Hl IH Hy]; simpl; [by repeat constructor|]. destruct (gt x y) eqn:E.
  - constructor; [done|]. apply list.Forall_forall. intros z Hz. rewrite sorted_insert_perm in Hz.
    apply elem_of_cons in Hz as [->|Hz]; [by apply Hasym|]. by eapply list.Forall_forall in Hy.
  - constructor; [by constructor|]. constructor; [done|]. eapply list.Forall_impl; [exact Hy|].
    intros z Hz. by eapply Htrans.
Qed.

Lemma sorted_heap_ok : StdHeapOk A gt.
Proof.
  split; simpl.
  - constructor.
  - intros x l y [_ Hf]%StronglySorted_inv Hy. by eapply list.Forall_forall in Hf.
  - intros l x _. rewrite sorted_push_last. apply sorted_insert_perm.
  - intros l x Hl. rewrite sorted_push_last. by apply sorted_insert_sorted.
  - intros x l [Hl _]%StronglySorted_inv. by exists l.
Qed.
End sorted.

(** ** Sorting *)

Class StdSort (A : Type) (lt : A -> A -> bool) := std_sort : list A -> list A.
Arguments std_sort {A} lt {_} l.

Class StdSortOk (A : Type) (lt : A -> A -> bool) `{!StdSort A lt} : Prop := {
  sort_perm : forall l, std_sort lt l ≡ₚ l;
  sort_sorted : forall l, StronglySorted (fun x y => lt y x = false) (std_sort lt l);
}.

(** Insertion, which keeps the order of equal elements. *)
#[global] Instance insertion_sort {A} (lt : A -> A -> bool) : StdSort A lt :=
  foldr (sorted_insert (fun x y => lt y x)) [].

Section sort.
Context {A : Type} (lt : A -> A -> bool).
Hypothesis lt_asym : forall x y, lt x y = true -> lt y x = false.
Hypothesis lt_trans : forall x y z, lt y x = false -> lt z y = false -> lt z x = false.

Lemma insertion_sort_ok : @StdSortOk A lt (insertion_sort lt).
Proof.
  split; intros l; unfold std_sort, insertion_sort; induction l as [|x l IH]; cbn; [done| |constructor|].
  - by rewrite sorted_insert_perm, IH.
  - by apply (sorted_insert_sorted (fun x y => lt y x)); [intros ???; apply lt_asym|intros ?????; eapply lt_trans|].
Qed.
End sort.
