(* ===== verification/MessageBuffer.v ===== *)
(** * MessageBuffer: messages and the buffers between controllers and network

    mem/ruby/slicc_interface/Message.hh and
    mem/ruby/network/MessageBuffer.hh/.cc.  A buffer is a priority queue of
    messages, ordered by the tick at which they may be taken and then by a
    counter, with a map of messages that the receiver stalled and one of
    messages whose enqueueing the sender deferred.

    A message is a value: its destination and size, which the generated
    message classes provide, are fields of the record.  The calls to the
    consumer of the buffer, and to the callback of a dequeue, are kept in a
    list in the order in which they happen. *)

From S2P Require Import Prelude Bitfield NetDest Heap.

(** The sizes of messages, from the protocol language. *)
Inductive MessageSizeType :=
| MessageSizeType_Control | MessageSizeType_Request_Control | MessageSizeType_Reissue_Control
| MessageSizeType_Response_Control | MessageSizeType_Writeback_Control | MessageSizeType_Broadcast_Control
| MessageSizeType_Multicast_Control | MessageSizeType_Forwarded_Control | MessageSizeType_Invalidate_Control
| MessageSizeType_Unblock_Control | MessageSizeType_Persistent_Control | MessageSizeType_Completion_Control
| MessageSizeType_Data | MessageSizeType_Response_Data | MessageSizeType_ResponseLocal_Data
| MessageSizeType_ResponseL2hit_Data | MessageSizeType_Writeback_Data
| MessageSizeType_Undefined.

Module Message.

(** [m_id] stands for the object and its payload. *)
Record t := mk {
  m_id : Z;
  m_MessageSize : MessageSizeType;
  m_Destination : NetDest.t;
  m_time : Z;
  m_LastEnqueueTime : Z;
  m_DelayedTicks : Z;
  m_msg_counter : Z;
  incoming_link : Z;
  vnet : Z;
}.
#[global] Instance t_eta : Etaed t := fun m =>
  mk (m_id m) (m_MessageSize m) (m_Destination m) (m_time m) (m_LastEnqueueTime m) (m_DelayedTicks m)
     (m_msg_counter m) (incoming_link m) (vnet m).

Definition new (id : Z) (size : MessageSizeType) (dest : NetDest.t) (curTime : Z) : t :=
  mk id size dest curTime curTime 0 0 0 0.

Definition updateDelayedTicks (curTime : Z) (m : t) : res t :=
  _ ← assert (m_LastEnqueueTime m <=? curTime);
  Ok (m <| m_DelayedTicks ::= (fun d => u64 (d + (curTime - m_LastEnqueueTime m))) |>).

(** [operator>]. *)
Definition gt (l r : t) : bool :=
  if m_LastEnqueueTime l =? m_LastEnqueueTime r then m_msg_counter r <? m_msg_counter l
  else m_LastEnqueueTime r <? m_LastEnqueueTime l.

End Message.

Inductive MessageRandomization := disabled | enabled | ruby_system.

(** Calls of a buffer to its consumer and to the callback of a dequeue. *)
Inductive BufferCall :=
| scheduleEventAbsolute_ (tick : Z)
| scheduleEvent_ (cycles : Z)
| storeEventInfo_ (vnet : Z)
| dequeue_callback_.

(** What the buffers read of [RubySystem]. *)
Record RubySystem := mkRubySystem {
  getRandomization : bool;
  getWarmupEnabled : bool;
  getBlockSizeBits : Z;
}.

Definition random_time (g : Rng) : res (Z * Rng) :=
  '(a, g) ← uniform 0 3 g;
  '(b, g) ← uniform 0 7 g;
  if b =? 0 then '(c, g) ← uniform 1 15 g; Ok (1 + a + (100 + c), g) else Ok (1 + a, g).

Definition bitSelect (addr small big : Z) : res Z := _ ← assert (small <=? big); bits addr big small.

(** The bits of an address below the size of a block. *)
Definition getOffset (rs : RubySystem) (addr : Z) : res Z := bitSelect addr 0 (u32 (getBlockSizeBits rs - 1)).

(** A [std::map] from addresses to lists of messages, in the order of the addresses. *)
Definition MsgMap : Type := list (Z * list Message.t).

Fixpoint msgs_at (addr : Z) (m : MsgMap) : option (list Message.t) :=
  match m with
  | [] => None
  | (a, l) :: m' => if addr =? a then Some l else msgs_at addr m'
  end.

Definition has_msgs (addr : Z) (m : MsgMap) : bool := match msgs_at addr m with Some _ => true | None => false end.

Fixpoint push_at (addr : Z) (msg : Message.t) (m : MsgMap) : MsgMap :=
  match m with
  | [] => [(addr, [msg])]
  | (a, l) :: m' =>
      if addr =? a then (a, l ++ [msg]) :: m'
      else if addr <? a then (addr, [msg]) :: m
      else (a, l) :: push_at addr msg m'
  end.

Fixpoint erase_at (addr : Z) (m : MsgMap) : MsgMap :=
  match m with
  | [] => []
  | (a, l) :: m' => if addr =? a then m' else (a, l) :: erase_at addr m'
  end.

(** [v.pop_back()]. *)
Definition pop_back {A} (l : list A) : list A := take (length l - 1) l.

Module MessageBuffer.

Record t := mk {
  m_consumer : bool;
  m_prio_heap : list Message.t;
  m_dequeue_callback : bool;
  m_stall_msg_map : MsgMap;
  m_deferred_msg_map : MsgMap;
  m_stall_map_size : Z;
  m_max_size : Z;
  m_max_dequeue_rate : Z;
  m_dequeues_this_cy : Z;
  m_time_last_time_size_checked : Z;
  m_size_last_time_size_checked : Z;
  m_time_last_time_enqueue : Z;
  m_time_last_time_pop : Z;
  m_last_arrival_time : Z;
  m_size_at_cycle_start : Z;
  m_stalled_at_cycle_start : Z;
  m_msgs_this_cycle : Z;
  m_msg_counter : Z;
  m_priority_rank : Z;
  m_strict_fifo : bool;
  m_randomization : MessageRandomization;
  m_allow_zero_latency : bool;
  m_routing_priority : Z;
  m_input_link_id : Z;
  m_vnet_id : Z;
  m_not_avail_count : Z;
  m_msg_count : Z;
  m_buf_msgs : Z;
  m_stall_time : Z;
  m_stall_count : Z;
  calls : list BufferCall;
}.
#[global] Instance t_eta : Etaed t := fun b =>
  mk (m_consumer b) (m_prio_heap b) (m_dequeue_callback b) (m_stall_msg_map b) (m_deferred_msg_map b)
     (m_stall_map_size b) (m_max_size b) (m_max_dequeue_rate b) (m_dequeues_this_cy b)
     (m_time_last_time_size_checked b) (m_size_last_time_size_checked b) (m_time_last_time_enqueue b)
     (m_time_last_time_pop b) (m_last_arrival_time b) (m_size_at_cycle_start b) (m_stalled_at_cycle_start b)
     (m_msgs_this_cycle b) (m_msg_counter b) (m_priority_rank b) (m_strict_fifo b) (m_randomization b)
     (m_allow_zero_latency b) (m_routing_priority b) (m_input_link_id b) (m_vnet_id b) (m_not_avail_count b)
     (m_msg_count b) (m_buf_msgs b) (m_stall_time b) (m_stall_count b) (calls b).

Definition new (buffer_size max_dequeue_rate : Z) (ordered : bool) (randomization : MessageRandomization)
    (allow_zero_latency : bool) (routing_priority : Z) : t :=
  mk false [] false [] [] 0 buffer_size max_dequeue_rate 0 0 0 0 0 0 0 0 0 0 0 ordered randomization
     allow_zero_latency routing_priority 0 0 0 0 0 0 0 [].

Definition call (c : BufferCall) (b : t) : t := b <| calls ::= (fun l => l ++ [c]) |>.

(** [m_consumer->scheduleEventAbsolute(tick)]; the pointer may not be null. *)
Definition wake_at (tick : Z) (b : t) : res t :=
  if m_consumer b then Ok (call (scheduleEventAbsolute_ tick) b) else Err Undefined.

Definition heap_size (b : t) : Z := zlength (m_prio_heap b).

(** [m_prio_heap.front()]. *)
Definition front (b : t) : res Message.t :=
  match m_prio_heap b with [] => Err Undefined | m :: _ => Ok m end.

Definition setConsumer (b : t) : res t :=
  if m_consumer b then Err FatalCalled else Ok (b <| m_consumer := true |>).

Definition setPriority (rank : Z) (b : t) : t := b <| m_priority_rank := rank |>.
Definition setIncomingLink (link_id : Z) (b : t) : t := b <| m_input_link_id := link_id |>.
Definition setVnet (net : Z) (b : t) : t := b <| m_vnet_id := net |>.

Definition isEmpty (b : t) : bool := heap_size b =? 0.
Definition isStallMapEmpty (b : t) : bool := zlength (m_stall_msg_map b) =? 0.
Definition getStallMapSize (b : t) : Z := u32 (zlength (m_stall_msg_map b)).

Definition getSize (curTime : Z) (b : t) : Z * t :=
  let b := if m_time_last_time_size_checked b =? curTime then b
           else b <| m_time_last_time_size_checked := curTime |> <| m_size_last_time_size_checked := u32 (heap_size b) |> in
  (m_size_last_time_size_checked b, b).

(** The size that counts for [areNSlotsAvailable]: pops do not make room
    before the next cycle, enqueues count at once. *)
Definition visible_size (current_time : Z) (b : t) : Z :=
  if m_time_last_time_pop b <? current_time then u32 (heap_size b) + u32 (m_stall_map_size b)
  else
    (if m_time_last_time_enqueue b <? current_time then m_size_at_cycle_start b
     else u32 (m_size_at_cycle_start b + m_msgs_this_cycle b)) + m_stalled_at_cycle_start b.

Definition areNSlotsAvailable (n current_time : Z) (b : t) : bool * t :=
  if m_max_size b =? 0 then (true, b)
  else if u32 (visible_size current_time b + n) <=? m_max_size b then (true, b)
  else (false, b <| m_not_avail_count ::= Z.succ |>).

Definition peek (b : t) : res Message.t := front b.
Definition peekMsgPtr (b : t) : res Message.t := front b.

(** A message that is ready may have to wait for the next cycle, in which
    the consumer is woken. *)
Definition isReady (current_time : Z) (b : t) : res (bool * t) :=
  _ ← assert (m_time_last_time_pop b <=? current_time);
  let can_dequeue := (m_max_dequeue_rate b =? 0) || (m_time_last_time_pop b <? current_time)
                     || (m_dequeues_this_cy b <? m_max_dequeue_rate b) in
  let is_ready := match m_prio_heap b with [] => false | m :: _ => Message.m_LastEnqueueTime m <=? current_time end in
  if negb can_dequeue && is_ready then
    if m_consumer b then Ok (can_dequeue && is_ready, call (scheduleEvent_ 1) b) else Err Undefined
  else Ok (can_dequeue && is_ready, b).

(** [MaxTick] when there is no message. *)
Definition readyTime (b : t) : Z :=
  match m_prio_heap b with [] => 2 ^ 64 - 1 | m :: _ => Message.m_LastEnqueueTime m end.

(** The tick from which a message can be taken, and the last arrival, which
    a random delay moves forward. *)
Definition arrival (rs : RubySystem) (current_time delta : Z) (b : t) (g : Rng) : res (Z * Z * Rng) :=
  let random := match m_randomization b with disabled => false | ruby_system => getRandomization rs | enabled => true end in
  let last := m_last_arrival_time b in
  if negb random then Ok (u64 (current_time + delta), last, g)
  else if m_strict_fifo b then
    let last := if last <? current_time then current_time else last in
    '(d, g) ← random_time g; Ok (u64 (last + d), last, g)
  else
    '(d, g) ← random_time g; Ok (u64 (current_time + d), last, g).

Section heap.
Context `{!StdHeap Message.t Message.gt}.

Definition push (m : Message.t) (b : t) : t := b <| m_prio_heap ::= (fun h => push_heap Message.gt (h ++ [m])) |>.
Definition pop (b : t) : t := b <| m_prio_heap ::= (fun h => pop_back (pop_heap Message.gt h)) |>.

Definition enqueue (rs : RubySystem) (message : Message.t) (current_time delta : Z) (b : t) (g : Rng) : res (t * Rng) :=
  let first := m_time_last_time_enqueue b <? current_time in
  let b := b <| m_msgs_this_cycle ::= (fun c => if first then 0 else c) |>
             <| m_time_last_time_enqueue ::= (fun t => if first then current_time else t) |>
             <| m_msg_counter ::= (fun c => u64 (c + 1)) |> <| m_msgs_this_cycle ::= (fun c => u32 (c + 1)) |> in
  if (delta =? 0) && negb (m_allow_zero_latency b) then Err PanicCalled
  else
    '(arrival_time, last, g) ← arrival rs current_time delta b g;
    _ ← assert (current_time <=? arrival_time);
    if m_strict_fifo b && (arrival_time <? last) then Err PanicCalled
    else
      let b := b <| m_last_arrival_time := if getWarmupEnabled rs then last else arrival_time |> in
      _ ← assert (Message.m_LastEnqueueTime message <=? current_time);
      message ← Message.updateDelayedTicks current_time message;
      let message := message <| Message.m_LastEnqueueTime := arrival_time |> <| Message.m_msg_counter := m_msg_counter b |> in
      let b := push message (b <| m_buf_msgs ::= Z.succ |>) in
      _ ← assert ((m_max_size b =? 0) || (heap_size b + m_stall_map_size b <=? m_max_size b));
      _ ← assert (m_consumer b);
      Ok (call (storeEventInfo_ (m_vnet_id b)) (call (scheduleEventAbsolute_ arrival_time) b), g).

(** [assert(isReady(current_time))]. *)
Definition assert_ready (current_time : Z) (b : t) : res t :=
  '(ready, b) ← isReady current_time b; _ ← assert ready; Ok b.

(** Returns the message, which the caller holds, with its delay. *)
Definition dequeue (curTick current_time : Z) (decrement_messages : bool) (b : t) : res (Message.t * t) :=
  b ← assert_ready current_time b;
  message ← front b;
  message ← Message.updateDelayedTicks current_time message;
  let first := m_time_last_time_pop b <? current_time in
  let b := b <| m_size_at_cycle_start ::= (fun s => if first then u32 (heap_size b) else s) |>
             <| m_stalled_at_cycle_start ::= (fun s => if first then u32 (m_stall_map_size b) else s) |>
             <| m_time_last_time_pop ::= (fun t => if first then current_time else t) |>
             <| m_dequeues_this_cy ::= (fun c => u32 ((if first then 0 else c) + 1)) |> in
  let b := pop b in
  let b := if decrement_messages then
             b <| m_stall_time ::= (fun s => s + u64 (curTick - Message.m_LastEnqueueTime message)) |>
               <| m_msg_count ::= Z.succ |> <| m_buf_msgs ::= Z.pred |>
           else b in
  Ok (message, b <| calls ::= (fun l => if m_dequeue_callback b then l ++ [dequeue_callback_] else l) |>).

Definition registerDequeueCallback (b : t) : t := b <| m_dequeue_callback := true |>.
Definition unregisterDequeueCallback (b : t) : t := b <| m_dequeue_callback := false |>.

Definition clear (b : t) : t :=
  b <| m_prio_heap := [] |> <| m_msg_counter := 0 |> <| m_time_last_time_enqueue := 0 |> <| m_time_last_time_pop := 0 |>
    <| m_size_at_cycle_start := 0 |> <| m_stalled_at_cycle_start := 0 |> <| m_msgs_this_cycle := 0 |>.

Definition clearStats (b : t) : t := b <| m_not_avail_count := 0 |> <| m_msg_counter := 0 |>.

Definition recycle (current_time recycle_latency : Z) (b : t) : res t :=
  b ← assert_ready current_time b;
  node ← front b;
  let future_time := u64 (current_time + recycle_latency) in
  wake_at future_time (push (node <| Message.m_LastEnqueueTime := future_time |>) (pop b)).

Fixpoint reanalyzeList (lt : list Message.t) (schdTick : Z) (b : t) : res t :=
  match lt with
  | [] => Ok b
  | m :: lt =>
      _ ← assert (Message.m_LastEnqueueTime m <=? schdTick);
      b ← wake_at schdTick (push m b);
      reanalyzeList lt schdTick b
  end.

(** Moves the messages stalled at one address back to the heap. *)
Definition unstall (current_time : Z) (l : list Message.t) (b : t) : res t :=
  let b := b <| m_stall_map_size ::= (fun s => s - zlength l) |> in
  _ ← assert (0 <=? m_stall_map_size b);
  reanalyzeList l current_time b.

Definition reanalyzeMessages (addr current_time : Z) (b : t) : res t :=
  match msgs_at addr (m_stall_msg_map b) with
  | None => Err AssertFail
  | Some l => b ← unstall current_time l b; Ok (b <| m_stall_msg_map ::= erase_at addr |>)
  end.

Fixpoint unstall_all (current_time : Z) (m : MsgMap) (b : t) : res t :=
  match m with
  | [] => Ok b
  | (_, l) :: m => b ← unstall current_time l b; unstall_all current_time m b
  end.

Definition reanalyzeAllMessages (current_time : Z) (b : t) : res t :=
  b ← unstall_all current_time (m_stall_msg_map b) b;
  Ok (b <| m_stall_msg_map := [] |>).

Definition stallMessage (rs : RubySystem) (curTick addr current_time : Z) (b : t) : res t :=
  b ← assert_ready current_time b;
  offset ← getOffset rs addr;
  _ ← assert (offset =? 0);
  '(message, b) ← dequeue curTick current_time false b;
  Ok (b <| m_stall_msg_map ::= push_at addr message |> <| m_stall_map_size ::= Z.succ |> <| m_stall_count ::= Z.succ |>).

Definition hasStalledMsg (addr : Z) (b : t) : bool := has_msgs addr (m_stall_msg_map b).

Definition deferEnqueueingMessage (addr : Z) (message : Message.t) (b : t) : t :=
  b <| m_deferred_msg_map ::= push_at addr message |>.

Definition isDeferredMsgMapEmpty (addr : Z) (b : t) : bool := negb (has_msgs addr (m_deferred_msg_map b)).

Fixpoint enqueue_all (rs : RubySystem) (l : list Message.t) (curTime delay : Z) (b : t) (g : Rng) : res (t * Rng) :=
  match l with
  | [] => Ok (b, g)
  | m :: l => '(b, g) ← enqueue rs m curTime delay b g; enqueue_all rs l curTime delay b g
  end.

Definition enqueueDeferredMessages (rs : RubySystem) (addr curTime delay : Z) (b : t) (g : Rng) : res (t * Rng) :=
  match msgs_at addr (m_deferred_msg_map b) with
  | None => Err AssertFail
  | Some msg_vec =>
      _ ← assert (0 <? zlength msg_vec);
      '(b, g) ← enqueue_all rs msg_vec curTime delay b g;
      Ok (b <| m_deferred_msg_map ::= erase_at addr |>, g)
  end.

Definition delayHead (rs : RubySystem) (current_time delta : Z) (b : t) (g : Rng) : res (t * Rng) :=
  m ← front b;
  enqueue rs m current_time delta (pop b) g.

End heap.

(** The functional accesses walk the heap and then the stalled messages.
    Reading or writing one message is the business of its class: [access]
    says whether it matched. *)
Inductive Access := ReadFirst (access : Message.t -> bool) | ReadMasked (access : Message.t -> bool) | Write (access : Message.t -> bool).

Fixpoint functional_walk (a : Access) (l : list Message.t) (num : Z) : Z + Z :=
  match l with
  | [] => inl num
  | m :: l =>
      match a with
      | ReadFirst access => if access m then inr 1 else functional_walk a l num
      | ReadMasked access | Write access => functional_walk a l (if access m then u32 (num + 1) else num)
      end
  end.

Definition functionalAccess (a : Access) (b : t) : Z :=
  match functional_walk a (m_prio_heap b) 0 with
  | inr n => n
  | inl num => match functional_walk a (concat (map snd (m_stall_msg_map b))) num with inl n | inr n => n end
  end.

Definition functionalWrite (access : Message.t -> bool) (b : t) : Z := functionalAccess (Write access) b.
Definition functionalRead (access : Message.t -> bool) (b : t) : bool := functionalAccess (ReadFirst access) b =? 1.
Definition functionalReadMask (access : Message.t -> bool) (b : t) : bool := functionalAccess (ReadMasked access) b =? 1.

End MessageBuffer.
