(* ===== verification/MessageBufferProofs.v ===== *)
(** * MessageBufferProofs: message buffers

    What an enqueue and a dequeue do, the invariant that ties the size that
    the network sees to the messages that are there, and two theorems: slots
    that are reported available can be filled, and an ordered buffer is a
    queue. *)

From Stdlib Require Import Sorted.
From stdpp Require Import sorting.
From S2P Require Import Prelude NetDest Heap MessageBuffer.
Import MessageBuffer.

(** ** The order of messages *)

Lemma gt_asym x y : Message.gt x y = true -> Message.gt y x = false.
Proof. unfold Message.gt. rewrite Z.eqb_sym. destruct (Z.eqb_spec (Message.m_LastEnqueueTime y) (Message.m_LastEnqueueTime x)); lia. Qed.

Lemma gt_trans x y z : Message.gt x y = false -> Message.gt y z = false -> Message.gt x z = false.
Proof. unfold Message.gt. repeat case_match; lia. Qed.

#[global] Instance message_heap_ok : StdHeapOk Message.t Message.gt.
Proof. exact (sorted_heap_ok _ gt_asym gt_trans). Qed.

Definition stalled (b : t) : list Message.t := concat (map snd (m_stall_msg_map b)).

(** The messages that take up room. *)
Definition occupancy (b : t) : Z := heap_size b + m_stall_map_size b.

(** ** Maps of messages *)

Lemma push_at_concat addr m mm : concat (map snd (push_at addr m mm)) ≡ₚ m :: concat (map snd mm).
Proof.
  induction mm as [|[a l] mm IH]; simpl; [done|]. repeat case_match; simpl.
  - rewrite <- app_assoc. simpl. by rewrite Permutation_middle.
  - done.
  - rewrite IH. by rewrite Permutation_middle.
Qed.

Lemma erase_at_concat addr mm l :
  msgs_at addr mm = Some l -> concat (map snd mm) ≡ₚ l ++ concat (map snd (erase_at addr mm)).
Proof.
  induction mm as [|[a l'] mm IH]; simpl; [done|]. case_match.
  - by intros [= ->].
  - intros ->%IH. simpl. by rewrite !app_assoc, (Permutation_app_comm l' l).
Qed.

Section buffers.
Context `{!StdHeap Message.t Message.gt, !StdHeapOk Message.t Message.gt}.

(** The fields that only enqueues and dequeues touch. *)
Record same_books (b b' : t) : Prop := {
  sb_max : m_max_size b' = m_max_size b;
  sb_pop : m_time_last_time_pop b' = m_time_last_time_pop b;
  sb_enqueue : m_time_last_time_enqueue b' = m_time_last_time_enqueue b;
  sb_size : m_size_at_cycle_start b' = m_size_at_cycle_start b;
  sb_stalled : m_stalled_at_cycle_start b' = m_stalled_at_cycle_start b;
  sb_msgs : m_msgs_this_cycle b' = m_msgs_this_cycle b;
}.

(** The invariant at tick [now], after [k] enqueues. *)
Record buffer_ok (k now : Z) (b : t) : Prop := {
  bo_heap : is_heap Message.gt (m_prio_heap b);
  bo_stall : m_stall_map_size b = zlength (stalled b);
  bo_max : 0 <= m_max_size b < 2 ^ 31;
  bo_capacity : m_max_size b = 0 \/ occupancy b <= m_max_size b;
  bo_pop : m_time_last_time_pop b <= now;
  bo_enqueue : m_time_last_time_enqueue b <= now;
  bo_cycle : m_max_size b = 0 \/ m_time_last_time_pop b < now \/
    occupancy b <= m_size_at_cycle_start b + m_stalled_at_cycle_start b +
      (if m_time_last_time_enqueue b <? now then 0 else m_msgs_this_cycle b);
  bo_start : 0 <= m_size_at_cycle_start b /\ 0 <= m_stalled_at_cycle_start b /\
    (m_max_size b = 0 \/ m_size_at_cycle_start b + m_stalled_at_cycle_start b <= m_max_size b);
  bo_msgs : 0 <= m_msgs_this_cycle b <= k;
}.

Lemma buffer_ok_frame k now b b' :
  same_books b b' -> is_heap Message.gt (m_prio_heap b') -> m_stall_map_size b' = zlength (stalled b') ->
  occupancy b' <= occupancy b -> buffer_ok k now b -> buffer_ok k now b'.
Proof.
  intros [E1 E2 E3 E4 E5 E6] Hh Hs Ho []. split; rewrite ?E1, ?E2, ?E3, ?E4, ?E5, ?E6; try done; lia.
Qed.

Lemma buffer_ok_later k k' now now' b : buffer_ok k now b -> k <= k' -> now <= now' -> buffer_ok k' now' b.
Proof.
  intros [] Hk Hn. split; try done; try lia.
  destruct (decide (now = now')) as [->|]; [done|]. destruct bo_cycle0; [by left|]. right; left. lia.
Qed.

Lemma occupancy_nonneg b : m_stall_map_size b = zlength (stalled b) -> 0 <= m_stall_map_size b /\ 0 <= heap_size b.
Proof. intros ->. split; apply zlength_nonneg. Qed.

Lemma slots_room k now n b :
  buffer_ok k now b -> 0 <= n -> k + n < 2 ^ 31 -> (areNSlotsAvailable n now b).1 = true ->
  m_max_size b = 0 \/ occupancy b + n <= m_max_size b.
Proof.
  intros [] Hn Hk. unfold areNSlotsAvailable. destruct (Z.eqb_spec (m_max_size b) 0) as [|Hm]; [by left|].
  destruct (Z.leb_spec (u32 (visible_size now b + n)) (m_max_size b)) as [Hv|]; [intros _; right|done].
  pose proof (occupancy_nonneg b bo_stall0) as [Hs Hh].
  destruct bo_capacity0 as [|Hc]; [done|]. destruct bo_start0 as (S0 & S1 & [|S2]); [done|].
  unfold occupancy in *. revert Hv. unfold visible_size.
  destruct (Z.ltb_spec (m_time_last_time_pop b) now).
  - rewrite (u32_small (heap_size b)), (u32_small (m_stall_map_size b)), u32_small by lia. lia.
  - destruct bo_cycle0 as [|[|Hcy]]; [done|lia|].
    destruct (Z.ltb_spec (m_time_last_time_enqueue b) now).
    + rewrite u32_small by lia. lia.
    + rewrite (u32_small (_ + m_msgs_this_cycle b)), u32_small by (rewrite ?u32_small; lia). lia.
Qed.

(** ** Enqueueing *)

Definition randomized (rs : RubySystem) (b : t) : bool :=
  match m_randomization b with disabled => false | ruby_system => getRandomization rs | enabled => true end.

Definition msgs_before (now : Z) (b : t) : Z := if m_time_last_time_enqueue b <? now then 0 else m_msgs_this_cycle b.

(** What a message keeps on its way. *)
Definition content (m : Message.t) : Z * MessageSizeType * NetDest.t :=
  (Message.m_id m, Message.m_MessageSize m, Message.m_Destination m).

(** [b'] is [b] with the message stored as [m']. *)
Record enqueued (rs : RubySystem) (now delta : Z) (m : Message.t) (b : t) (g : Rng) (b' : t) (m' : Message.t) : Prop := {
  en_heap : m_prio_heap b' = push_heap Message.gt (m_prio_heap b ++ [m']);
  en_id : Message.m_id m' = Message.m_id m;
  en_content : content m' = content m;
  en_time : now <= Message.m_LastEnqueueTime m';
  en_number : Message.m_msg_counter m' = u64 (m_msg_counter b + 1);
  en_counter : m_msg_counter b' = u64 (m_msg_counter b + 1);
  en_map : m_stall_msg_map b' = m_stall_msg_map b;
  en_stall : m_stall_map_size b' = m_stall_map_size b;
  en_max : m_max_size b' = m_max_size b;
  en_pop : m_time_last_time_pop b' = m_time_last_time_pop b;
  en_enqueue : m_time_last_time_enqueue b' = Z.max now (m_time_last_time_enqueue b);
  en_size : m_size_at_cycle_start b' = m_size_at_cycle_start b;
  en_stalled : m_stalled_at_cycle_start b' = m_stalled_at_cycle_start b;
  en_msgs : m_msgs_this_cycle b' = u32 (msgs_before now b + 1);
  en_random : m_randomization b' = m_randomization b;
  en_strict : m_strict_fifo b' = m_strict_fifo b;
  en_zero : m_allow_zero_latency b' = m_allow_zero_latency b;
  en_consumer : m_consumer b' = m_consumer b;
  en_rate : m_max_dequeue_rate b' = m_max_dequeue_rate b;
  en_dequeues : m_dequeues_this_cy b' = m_dequeues_this_cy b;
  en_arrival : exists last g1, arrival rs now delta b g = Ok (Message.m_LastEnqueueTime m', last, g1) /\
    (m_strict_fifo b = true -> last <= Message.m_LastEnqueueTime m') /\
    m_last_arrival_time b' = if getWarmupEnabled rs then last else Message.m_LastEnqueueTime m';
}.

Lemma random_time_safe g : safe (random_time g) (fun '(d, _) => 1 <= d <= 119).
Proof.
  unfold random_time. apply safe_bind, safe_uniform; [lia|]. intros a g1 Ha.
  apply safe_bind, safe_uniform; [lia|]. intros c g2 Hc. case_match; [|simpl; lia].
  apply safe_bind, safe_uniform; [lia|]. intros d g3 Hd. simpl. lia.
Qed.

Lemma arrival_Ok rs now delta b g arr last g' :
  arrival rs now delta b g = Ok (arr, last, g') ->
  m_last_arrival_time b <= last /\
  (0 <= now -> 0 <= delta -> 0 <= m_last_arrival_time b ->
    arr <= Z.max (now + delta) (Z.max (m_last_arrival_time b) now + 119) /\ last <= Z.max (m_last_arrival_time b) now /\
    (randomized rs b = false -> arr <= now + delta /\ last = m_last_arrival_time b)).
Proof.
  assert (Hu : forall z, 0 <= z -> u64 z <= z) by (intros; by apply Z.mod_le).
  unfold arrival. fold (randomized rs b). destruct (randomized rs b); simpl.
  - destruct (m_strict_fifo b); intros ((d & g1) & Hd & [= <- <- _])%bind_Ok;
      pose proof (safe_Ok _ _ _ Hd (random_time_safe g)) as H; simpl in H.
    + pose proof (Hu (now + d)). pose proof (Hu (m_last_arrival_time b + d)). case_match; split; lia.
    + pose proof (Hu (now + d)). split; lia.
  - intros [= <- <- _]. pose proof (Hu (now + delta)). split; lia.
Qed.

Lemma enqueue_Ok rs m now delta b g b' g' :
  enqueue rs m now delta b g = Ok (b', g') ->
  exists m', enqueued rs now delta m b g b' m' /\ (m_max_size b' = 0 \/ occupancy b' <= m_max_size b').
Proof.
  unfold enqueue. set (b1 := b <| m_msgs_this_cycle ::= _ |> <| m_time_last_time_enqueue ::= _ |> <| m_msg_counter ::= _ |> <| m_msgs_this_cycle ::= _ |>).
  destruct (_ && _); [done|]. intros ([[arr last] g1] & Ha & H)%bind_Ok.
  change (arrival rs now delta b1 g) with (arrival rs now delta b g) in Ha.
  apply bind_Ok in H as ([] & Hn%assert_Ok%Z.leb_le & H).
  destruct (m_strict_fifo b1 && (arr <? last)) eqn:Hs; [done|].
  apply bind_Ok in H as ([] & Hl%assert_Ok & H). apply bind_Ok in H as (m1 & Hm1 & H).
  unfold Message.updateDelayedTicks in Hm1. rewrite Hl in Hm1. injection Hm1 as <-.
  apply bind_Ok in H as ([] & Hcap%assert_Ok & H). apply bind_Ok in H as ([] & _ & H).
  injection H as <- <-. change (m_strict_fifo b1) with (m_strict_fifo b) in Hs.
  eexists. split; [|apply orb_prop in Hcap as [E%Z.eqb_eq|E%Z.leb_le]; [left; exact E|right; exact E]].
  split; try reflexivity; [exact Hn| |].
  - cbn. unfold b1. cbn. destruct (Z.ltb_spec (m_time_last_time_enqueue b) now); lia.
  - exists last, g1. split; [exact Ha|]. split; [|reflexivity].
    intros E. rewrite E in Hs. cbn in Hs |- *. lia.
Qed.

Lemma heap_push h m : is_heap Message.gt h ->
  is_heap Message.gt (push_heap Message.gt (h ++ [m])) /\ push_heap Message.gt (h ++ [m]) ≡ₚ m :: h.
Proof. intros Hh. split; [by apply push_heap_heap|by apply push_heap_perm]. Qed.

Lemma enqueued_occupancy rs now delta m b g b' m' :
  is_heap Message.gt (m_prio_heap b) -> enqueued rs now delta m b g b' m' -> occupancy b' = occupancy b + 1.
Proof.
  intros Hh []. unfold occupancy, heap_size, zlength. rewrite en_heap0, en_stall0.
  rewrite (proj2 (heap_push _ m' Hh)). simpl. lia.
Qed.

Lemma buffer_ok_enqueued k rs now delta m b g b' m' :
  buffer_ok k now b -> k < 2 ^ 31 -> enqueued rs now delta m b g b' m' ->
  m_max_size b' = 0 \/ occupancy b' <= m_max_size b' -> buffer_ok (k + 1) now b'.
Proof.
  intros Hb Hk Hen Hc. pose proof (enqueued_occupancy _ _ _ _ _ _ _ _ (bo_heap _ _ _ Hb) Hen) as Ho.
  destruct Hb, Hen. assert (0 <= msgs_before now b <= k) as Hmb by (unfold msgs_before; destruct (_ <? _); lia).
  assert (m_msgs_this_cycle b' = msgs_before now b + 1) as Hm by (rewrite en_msgs0; apply u32_small; lia).
  rewrite Z.max_l in en_enqueue0 by lia.
  split; rewrite ?en_pop0, ?en_max0, ?en_enqueue0, ?en_size0, ?en_stalled0, ?Hm; try done; try lia.
  - rewrite en_heap0. by apply heap_push.
  - unfold stalled in *. by rewrite en_stall0, en_map0.
  - rewrite Z.ltb_irrefl, Ho. unfold msgs_before. destruct bo_cycle0 as [|[|]]; [by left|by right; left|].
    right; right. lia.
Qed.

(** What a caller of [enqueue] is responsible for; the longest random delay is 119. *)
Record may_enqueue (rs : RubySystem) (now delta : Z) (m : Message.t) (b : t) : Prop := {
  me_now : 0 <= now < 2 ^ 64 - 119;
  me_delta : 0 <= delta < 2 ^ 64 - now;
  me_zero : delta <> 0 \/ m_allow_zero_latency b = true;
  me_last : m_last_arrival_time b < 2 ^ 64 - 119;
  me_fifo : m_strict_fifo b = true -> randomized rs b = false -> m_last_arrival_time b <= now + delta;
  me_message : Message.m_LastEnqueueTime m <= now;
  me_consumer : m_consumer b = true;
}.

Lemma arrival_safe rs now delta m b b1 g :
  may_enqueue rs now delta m b ->
  m_randomization b1 = m_randomization b -> m_strict_fifo b1 = m_strict_fifo b ->
  m_last_arrival_time b1 = m_last_arrival_time b ->
  safe (arrival rs now delta b1 g) (fun '(arr, last, _) => now <= arr /\ (m_strict_fifo b = true -> last <= arr)).
Proof.
  intros [] E1 E2 E3. unfold arrival. rewrite E1, E2, E3. fold (randomized rs b).
  destruct (randomized rs b); simpl.
  - destruct (m_strict_fifo b).
    + apply safe_bind. eapply safe_mono; [apply random_time_safe|]. intros [d g1] Hd. simpl.
      case_match; rewrite u64_small; lia.
    + apply safe_bind. eapply safe_mono; [apply random_time_safe|]. intros [d g1] Hd. simpl.
      rewrite u64_small; lia.
  - rewrite u64_small by lia. split; [lia|]. intros Hs. by apply me_fifo0.
Qed.

Lemma enqueue_safe rs m now delta b g :
  is_heap Message.gt (m_prio_heap b) -> may_enqueue rs now delta m b ->
  m_max_size b = 0 \/ occupancy b + 1 <= m_max_size b ->
  exists b' g', enqueue rs m now delta b g = Ok (b', g').
Proof.
  intros Hh Hm Ho. assert (Hm' := Hm). destruct Hm'. unfold enqueue.
  set (b1 := b <| m_msgs_this_cycle ::= _ |> <| m_time_last_time_enqueue ::= _ |> <| m_msg_counter ::= _ |> <| m_msgs_this_cycle ::= _ |>).
  change (m_allow_zero_latency b1) with (m_allow_zero_latency b).
  replace ((delta =? 0) && negb (m_allow_zero_latency b)) with false
    by (destruct me_zero0 as [|E]; [destruct (Z.eqb_spec delta 0); done|rewrite E; by rewrite andb_false_r]).
  destruct (safe_inv _ _ (arrival_safe rs now delta m b b1 g Hm eq_refl eq_refl eq_refl)) as ([[arr last] g1] & Ha & H1 & H2).
  rewrite Ha. cbn [mbind res_bind]. rewrite (proj2 (Z.leb_le now arr)) by lia. cbn [mbind res_bind assert].
  change (m_strict_fifo b1) with (m_strict_fifo b).
  replace (m_strict_fifo b && (arr <? last)) with false
    by (destruct (m_strict_fifo b); [symmetry; specialize (H2 eq_refl); simpl; lia|done]).
  unfold Message.updateDelayedTicks. rewrite (proj2 (Z.leb_le (Message.m_LastEnqueueTime m) now)) by lia. cbn [mbind res_bind assert].
  match goal with |- context [push ?m' ?b'] => set (b2 := push m' b'); set (m2 := m') in b2 end.
  change (m_max_size b2) with (m_max_size b).
  change (heap_size b2) with (zlength (push_heap Message.gt (m_prio_heap b ++ [m2]))).
  change (m_stall_map_size b2) with (m_stall_map_size b).
  change (m_consumer b2) with (m_consumer b).
  assert (E : zlength (push_heap Message.gt (m_prio_heap b ++ [m2])) = heap_size b + 1).
  { unfold heap_size, zlength. rewrite (proj2 (heap_push _ m2 Hh)). simpl. lia. }
  rewrite E, me_consumer0. replace (_ || _) with true; [cbn; eauto|]. symmetry. apply orb_true_iff.
  unfold occupancy in Ho. destruct Ho; [left|right]; lia.
Qed.

(** ** Taking messages *)

Lemma assert_ready_Ok now b b' :
  assert_ready now b = Ok b' ->
  b' = b /\ isReady now b = Ok (true, b) /\ m_time_last_time_pop b <= now /\
  exists x l, m_prio_heap b = x :: l /\ Message.m_LastEnqueueTime x <= now.
Proof.
  intros ((r & b1) & H & H')%bind_Ok. apply bind_Ok in H' as ([] & ->%assert_Ok & [= ->]).
  assert (H' := H). unfold isReady in H'. apply bind_Ok in H' as ([] & Hp%assert_Ok%Z.leb_le & H').
  set (can := _ || _) in H'. destruct (m_prio_heap b) as [|x l]; [by destruct can|].
  destruct (Z.leb_spec (Message.m_LastEnqueueTime x) now); [|by destruct can].
  destruct can; cbn in H'; [|by destruct (m_consumer b)]. injection H' as <-. eauto 10.
Qed.

Lemma heap_pop x l : is_heap Message.gt (x :: l) ->
  is_heap Message.gt (pop_back (pop_heap Message.gt (x :: l))) /\ pop_back (pop_heap Message.gt (x :: l)) ≡ₚ l.
Proof.
  intros (l' & -> & Hl & Hh)%pop_heap_spec. unfold pop_back. rewrite length_app. simpl.
  replace (length l' + 1 - 1)%nat with (length l') by lia. by rewrite take_app_length.
Qed.

(** [b'] is [b] without its first message [x], which the caller gets as [x']. *)
Record dequeued (now : Z) (b : t) (x : Message.t) (l : list Message.t) (x' : Message.t) (b' : t) : Prop := {
  dq_before : m_prio_heap b = x :: l;
  dq_ready : Message.m_LastEnqueueTime x <= now;
  dq_heap : m_prio_heap b' = pop_back (pop_heap Message.gt (x :: l));
  dq_message : x' = x <| Message.m_DelayedTicks ::= (fun d => u64 (d + (now - Message.m_LastEnqueueTime x))) |>;
  dq_map : m_stall_msg_map b' = m_stall_msg_map b;
  dq_stall : m_stall_map_size b' = m_stall_map_size b;
  dq_max : m_max_size b' = m_max_size b;
  dq_now : m_time_last_time_pop b <= now;
  dq_pop : m_time_last_time_pop b' = now;
  dq_enqueue : m_time_last_time_enqueue b' = m_time_last_time_enqueue b;
  dq_size : m_size_at_cycle_start b' =
    if m_time_last_time_pop b <? now then u32 (heap_size b) else m_size_at_cycle_start b;
  dq_stalled : m_stalled_at_cycle_start b' =
    if m_time_last_time_pop b <? now then u32 (m_stall_map_size b) else m_stalled_at_cycle_start b;
  dq_msgs : m_msgs_this_cycle b' = m_msgs_this_cycle b;
  dq_counter : m_msg_counter b' = m_msg_counter b;
  dq_random : m_randomization b' = m_randomization b;
  dq_strict : m_strict_fifo b' = m_strict_fifo b;
  dq_zero : m_allow_zero_latency b' = m_allow_zero_latency b;
  dq_consumer : m_consumer b' = m_consumer b;
  dq_last : m_last_arrival_time b' = m_last_arrival_time b;
  dq_rate : m_max_dequeue_rate b' = m_max_dequeue_rate b;
  dq_dequeues : m_dequeues_this_cy b' = u32 ((if m_time_last_time_pop b <? now then 0 else m_dequeues_this_cy b) + 1);
}.

Lemma dequeue_Ok ct now dec b x' b' :
  dequeue ct now dec b = Ok (x', b') -> exists x l, dequeued now b x l x' b'.
Proof.
  unfold dequeue. intros (b1 & (-> & _ & Hp & x & l & Hx & Ht)%assert_ready_Ok & H)%bind_Ok.
  unfold front in H. rewrite Hx in H. cbn [mbind res_bind] in H.
  apply bind_Ok in H as (m1 & Hm1 & H). unfold Message.updateDelayedTicks in Hm1.
  rewrite (proj2 (Z.leb_le _ _)) in Hm1 by done. injection Hm1 as <-. injection H as <- <-.
  exists x, l. destruct dec; split; try reflexivity; try assumption; cbn; rewrite ?Hx; try reflexivity;
    destruct (Z.ltb_spec (m_time_last_time_pop b) now); lia.
Qed.

Lemma dequeue_safe ct now dec b b1 :
  isReady now b = Ok (true, b1) -> exists x' b', dequeue ct now dec b = Ok (x', b').
Proof.
  intros H. assert (Ha : assert_ready now b = Ok b1) by (unfold assert_ready; by rewrite H).
  destruct (assert_ready_Ok _ _ _ Ha) as (-> & _ & _ & x & l & Hx & Ht).
  unfold dequeue. rewrite Ha. cbn [mbind res_bind]. unfold front. rewrite Hx. cbn [mbind res_bind].
  unfold Message.updateDelayedTicks. rewrite (proj2 (Z.leb_le _ _)) by done. cbn. eauto.
Qed.

Lemma dequeued_occupancy now b x l x' b' :
  is_heap Message.gt (m_prio_heap b) -> dequeued now b x l x' b' -> occupancy b' = occupancy b - 1.
Proof.
  intros Hh []. rewrite dq_before0 in Hh. unfold occupancy, heap_size, zlength.
  rewrite dq_heap0, dq_stall0, dq_before0, (proj2 (heap_pop _ _ Hh)). simpl. lia.
Qed.

(** Pops do not make room in the same tick, so that a message may go back to the buffer. *)
Lemma buffer_ok_popped k now b x l x' b1 b' :
  buffer_ok k now b -> dequeued now b x l x' b1 -> same_books b1 b' ->
  is_heap Message.gt (m_prio_heap b') -> m_stall_map_size b' = zlength (stalled b') ->
  occupancy b' <= occupancy b -> buffer_ok k now b'.
Proof.
  intros [] [] [] Hh Hst Ho. pose proof (occupancy_nonneg b bo_stall0) as [Hs Hh0].
  unfold occupancy in bo_capacity0, bo_cycle0.
  assert (Hu : forall z, 0 <= u32 z) by (intros; by apply Z.mod_pos_bound).
  assert (0 <= if m_time_last_time_enqueue b <? now then 0 else m_msgs_this_cycle b) by (destruct (_ <? _); lia).
  split; rewrite ?sb_max0, ?sb_pop0, ?sb_enqueue0, ?sb_msgs0, ?sb_size0, ?sb_stalled0,
    ?dq_max0, ?dq_pop0, ?dq_enqueue0, ?dq_msgs0; try done.
  - unfold occupancy in *. lia.
  - destruct bo_capacity0 as [|Hc]; [by left|]. right; right. rewrite dq_size0, dq_stalled0. unfold occupancy in *.
    destruct (Z.ltb_spec (m_time_last_time_pop b) now); [rewrite !u32_small|destruct bo_cycle0 as [|[|]]]; lia.
  - rewrite dq_size0, dq_stalled0. destruct (m_time_last_time_pop b <? now); [|done].
    split_and!; [done..|]. destruct bo_capacity0 as [|Hc]; [by left|right]. rewrite !u32_small; lia.
Qed.

Lemma dequeued_heap now b x l x' b' :
  is_heap Message.gt (m_prio_heap b) -> dequeued now b x l x' b' ->
  is_heap Message.gt (m_prio_heap b') /\ m_prio_heap b' ≡ₚ l.
Proof. intros Hh []. rewrite dq_heap0. rewrite dq_before0 in Hh. by apply heap_pop. Qed.

Lemma buffer_ok_dequeued k now b x l x' b' :
  buffer_ok k now b -> dequeued now b x l x' b' -> buffer_ok k now b'.
Proof.
  intros Hb Hd. pose proof (dequeued_occupancy _ _ _ _ _ _ (bo_heap _ _ _ Hb) Hd) as Ho.
  pose proof (dequeued_heap _ _ _ _ _ _ (bo_heap _ _ _ Hb) Hd) as [Hh _].
  eapply buffer_ok_popped; [done|done|by split|done| |lia].
  unfold stalled. rewrite (dq_stall _ _ _ _ _ _ Hd), (dq_map _ _ _ _ _ _ Hd). apply (bo_stall _ _ _ Hb).
Qed.

(** ** Moving messages back *)

(** The heap of [b'] has the messages [l] in addition, and the count of the
    stalled ones is lower by [n]. *)
Record returned (l : list Message.t) (n : Z) (b b' : t) : Prop := {
  rt_heap : is_heap Message.gt (m_prio_heap b');
  rt_messages : m_prio_heap b' ≡ₚ l ++ m_prio_heap b;
  rt_stall : m_stall_map_size b' = m_stall_map_size b - n;
  rt_map : m_stall_msg_map b' = m_stall_msg_map b;
  rt_books : same_books b b';
}.

Lemma same_books_trans b1 b2 b3 : same_books b1 b2 -> same_books b2 b3 -> same_books b1 b3.
Proof. intros [] []. split; congruence. Qed.

Lemma reanalyzeList_Ok l now b b' :
  is_heap Message.gt (m_prio_heap b) -> reanalyzeList l now b = Ok b' -> returned l 0 b b'.
Proof.
  revert b. induction l as [|m l IH]; intros b Hh; simpl.
  - intros [= <-]. split; [done|done|lia|done|by split].
  - intros ([] & _ & (b1 & H1 & H)%bind_Ok)%bind_Ok. unfold wake_at in H1.
    destruct (m_consumer (push m b)); [|done]. injection H1 as <-.
    destruct (heap_push _ m Hh) as [Hp1 Hp2].
    apply IH in H as [H1 H2 H3 H4 H5]; [|exact Hp1]. split; [done| |by rewrite H3|by rewrite H4|].
    + rewrite H2. cbn. rewrite Hp2. by rewrite Permutation_middle.
    + eapply same_books_trans; [|exact H5]. by split.
Qed.

Lemma unstall_Ok now l b b' :
  is_heap Message.gt (m_prio_heap b) -> unstall now l b = Ok b' -> returned l (zlength l) b b'.
Proof.
  intros Hh ([] & _ & [H1 H2 H3 H4 H5]%reanalyzeList_Ok)%bind_Ok; [|exact Hh].
  split; [done|exact H2|rewrite H3; cbn; lia|exact H4|]. eapply same_books_trans; [|exact H5]. by split.
Qed.

Lemma unstall_all_Ok now mm b b' :
  is_heap Message.gt (m_prio_heap b) -> unstall_all now mm b = Ok b' ->
  returned (concat (map snd mm)) (zlength (concat (map snd mm))) b b'.
Proof.
  revert b. induction mm as [|[a l] mm IH]; intros b Hh; simpl.
  - intros [= <-]. split; [done|done|unfold zlength; simpl; lia|done|by split].
  - intros (b1 & H1 & H)%bind_Ok. apply unstall_Ok in H1 as [H1 H2 H3 H4 H5]; [|done].
    apply IH in H as [H6 H7 H8 H9 H10]; [|done]. split; [done| | |congruence|by eapply same_books_trans].
    + rewrite H7, H2. by rewrite !app_assoc, (Permutation_app_comm l).
    + rewrite H8, H3. unfold zlength. rewrite length_app. lia.
Qed.

(** ** The operations of a buffer, one after the other *)

Inductive op :=
| OEnqueue (m : Message.t) (delta : Z)
| ODequeue (decrement_messages : bool)
| ORecycle (recycle_latency : Z)
| OStall (addr : Z)
| OReanalyze (addr : Z)
| OReanalyzeAll
| ODefer (addr : Z) (m : Message.t)
| OEnqueueDeferred (addr delay : Z)
| ODelayHead (delta : Z)
| OCheck (n : Z)
| OSize
| OClearStats
| OClear.

(** One operation at tick [now]; the last component counts the enqueues. *)
Definition step (rs : RubySystem) (now : Z) (o : op) (b : t) (g : Rng) : res (t * Rng * Z) :=
  match o with
  | OEnqueue m delta => '(b, g) ← enqueue rs m now delta b g; Ok (b, g, 1)
  | ODequeue dec => '(_, b) ← dequeue now now dec b; Ok (b, g, 0)
  | ORecycle lat => b ← recycle now lat b; Ok (b, g, 0)
  | OStall addr => b ← stallMessage rs now addr now b; Ok (b, g, 0)
  | OReanalyze addr => b ← reanalyzeMessages addr now b; Ok (b, g, 0)
  | OReanalyzeAll => b ← reanalyzeAllMessages now b; Ok (b, g, 0)
  | ODefer addr m => Ok (deferEnqueueingMessage addr m b, g, 0)
  | OEnqueueDeferred addr delay =>
      let n := match msgs_at addr (m_deferred_msg_map b) with Some l => zlength l | None => 0 end in
      '(b, g) ← enqueueDeferredMessages rs addr now delay b g; Ok (b, g, n)
  | ODelayHead delta => '(b, g) ← delayHead rs now delta b g; Ok (b, g, 1)
  | OCheck n => Ok ((areNSlotsAvailable n now b).2, g, 0)
  | OSize => Ok ((getSize now b).2, g, 0)
  | OClearStats => Ok (clearStats b, g, 0)
  | OClear => Ok (clear b, g, 0)
  end.

Fixpoint run (rs : RubySystem) (ops : list (Z * op)) (b : t) (g : Rng) : res (t * Rng * Z) :=
  match ops with
  | [] => Ok (b, g, 0)
  | (now, o) :: ops =>
      '(b, g, n) ← step rs now o b g;
      '(b, g, n') ← run rs ops b g;
      Ok (b, g, n + n')
  end.

(** The ticks of the operations do not decrease. *)
Fixpoint ordered_from (now : Z) (ops : list (Z * op)) : Prop :=
  match ops with [] => True | (now', _) :: ops => now <= now' /\ ordered_from now' ops end.

Definition end_time (now : Z) (ops : list (Z * op)) : Z := foldl (fun _ o => o.1) now ops.

Lemma buffer_ok_recycled k now lat b b' : buffer_ok k now b -> recycle now lat b = Ok b' -> buffer_ok k now b'.
Proof.
  intros Hb (b1 & (-> & _ & _ & x & l & Hx & _)%assert_ready_Ok & H)%bind_Ok.
  unfold front in H. rewrite Hx in H. cbn [mbind res_bind] in H. unfold wake_at in H.
  destruct (m_consumer _); [|done]. injection H as <-.
  pose proof (bo_heap _ _ _ Hb) as Hh. rewrite Hx in Hh. destruct (heap_pop _ _ Hh) as [Hp1 Hp2].
  set (x' := x <| Message.m_LastEnqueueTime := _ |>). destruct (heap_push _ x' Hp1) as [Hq1 Hq2].
  eapply buffer_ok_frame; [| | | |exact Hb]; [by split|cbn; by rewrite Hx|exact (bo_stall _ _ _ Hb)|].
  unfold occupancy, heap_size, zlength. cbn. rewrite Hx, Hq2, Hp2. done.
Qed.

Lemma buffer_ok_returned k now b b1 b' l mm :
  buffer_ok k now b -> returned l (zlength l) b b1 -> stalled b ≡ₚ l ++ concat (map snd mm) ->
  b' = b1 <| m_stall_msg_map := mm |> -> buffer_ok k now b'.
Proof.
  intros Hb [H1 H2 H3 H4 H5] Hs ->. pose proof (bo_stall _ _ _ Hb) as Hst.
  eapply buffer_ok_frame; [| | | |exact Hb]; [eapply same_books_trans; [exact H5|by split]|exact H1| |].
  - cbn. unfold stalled. cbn. rewrite H3, Hst. unfold zlength. rewrite Hs, length_app. lia.
  - unfold occupancy, heap_size, zlength. cbn. rewrite H3, H2, length_app. unfold zlength. lia.
Qed.

Lemma buffer_ok_stalled k rs now ct addr b b' :
  buffer_ok k now b -> stallMessage rs ct addr now b = Ok b' -> buffer_ok k now b'.
Proof.
  intros Hb (b1 & (-> & _)%assert_ready_Ok & H)%bind_Ok. apply bind_Ok in H as (off & _ & H).
  apply bind_Ok in H as ([] & _ & H). apply bind_Ok in H as ((m & b2) & H & [= <-]).
  apply dequeue_Ok in H as (x & l & Hd).
  pose proof (dequeued_occupancy _ _ _ _ _ _ (bo_heap _ _ _ Hb) Hd) as Ho.
  pose proof (dequeued_heap _ _ _ _ _ _ (bo_heap _ _ _ Hb) Hd) as [Hh _].
  eapply buffer_ok_popped; [done|done|by split|done| |].
  - unfold stalled, zlength. cbn. rewrite push_at_concat. simpl.
    rewrite (dq_stall _ _ _ _ _ _ Hd), (dq_map _ _ _ _ _ _ Hd), (bo_stall _ _ _ Hb). unfold zlength, stalled. lia.
  - unfold occupancy, heap_size in *. cbn. lia.
Qed.

Lemma enqueue_all_ok k rs l now delay b g b' g' :
  buffer_ok k now b -> k + zlength l < 2 ^ 31 -> enqueue_all rs l now delay b g = Ok (b', g') ->
  buffer_ok (k + zlength l) now b'.
Proof.
  revert k b g. unfold zlength. induction l as [|m l IH]; intros k b g Hb Hk; simpl.
  - intros [= <- _]. by rewrite Z.add_0_r.
  - intros ((b1 & g1) & (m' & He & Hc)%enqueue_Ok & H)%bind_Ok. simpl in Hk.
    replace (k + Z.of_nat (S (length l))) with (k + 1 + Z.of_nat (length l)) by lia.
    eapply IH; [|lia|exact H]. eapply buffer_ok_enqueued; [done|lia|done|done].
Qed.

Lemma buffer_ok_delayHead k rs now delta b g b' g' :
  buffer_ok k now b -> k < 2 ^ 31 -> delayHead rs now delta b g = Ok (b', g') -> buffer_ok (k + 1) now b'.
Proof.
  intros Hb Hk. unfold delayHead, front. destruct (m_prio_heap b) as [|x l] eqn:Hx; [done|]. cbn [mbind res_bind].
  intros (m' & He & Hc)%enqueue_Ok. eapply buffer_ok_enqueued; [|done|done|done].
  pose proof (bo_heap _ _ _ Hb) as Hh. rewrite Hx in Hh. destruct (heap_pop _ _ Hh) as [Hp1 Hp2].
  eapply buffer_ok_frame; [| | | |exact Hb]; [by split|cbn; by rewrite Hx|exact (bo_stall _ _ _ Hb)|].
  unfold occupancy, heap_size, zlength. cbn. rewrite Hx, Hp2. simpl. lia.
Qed.

Lemma buffer_ok_clear k now b : buffer_ok k now b -> 0 < now -> buffer_ok k now (clear b).
Proof.
  intros [] Hn. pose proof (occupancy_nonneg b bo_stall0) as [Hs Hh]. unfold occupancy in *.
  split; try done; try apply heap_nil; try (cbn; lia).
  change (occupancy (clear b)) with (0 + m_stall_map_size b). change (m_max_size (clear b)) with (m_max_size b). lia.
Qed.

Lemma step_count rs now o b g b' g' n : step rs now o b g = Ok (b', g', n) -> 0 <= n.
Proof.
  destruct o; simpl; intros H; res_inv; repeat case_match; simplify_eq; try lia; apply zlength_nonneg.
Qed.

Lemma run_count rs ops b g b' g' n : run rs ops b g = Ok (b', g', n) -> 0 <= n.
Proof.
  revert b g n b' g'. induction ops as [|[now o] ops IH]; intros b g n b' g'; simpl; [by intros [= _ _ <-]|].
  intros ([[b1 g1] n1] & H1%step_count & H)%bind_Ok. apply bind_Ok in H as ([[b2 g2] n2] & H2%IH & [= _ _ <-]). lia.
Qed.

Lemma step_ok k rs now o b g b' g' n :
  buffer_ok k now b -> 0 < now -> k + n < 2 ^ 31 -> step rs now o b g = Ok (b', g', n) -> buffer_ok (k + n) now b'.
Proof.
  intros Hb Hn Hk. destruct o; simpl.
  - intros ((b1 & g1) & (m' & He & Hc)%enqueue_Ok & [= <- <- <-])%bind_Ok. eapply buffer_ok_enqueued; [done|lia|done|done].
  - intros ((x & b1) & (y & l & Hd)%dequeue_Ok & [= <- <- <-])%bind_Ok. rewrite Z.add_0_r. by eapply buffer_ok_dequeued.
  - intros (b1 & H & [= <- <- <-])%bind_Ok. rewrite Z.add_0_r. by eapply buffer_ok_recycled.
  - intros (b1 & H & [= <- <- <-])%bind_Ok. rewrite Z.add_0_r. by eapply buffer_ok_stalled.
  - intros (b1 & H & [= <- <- <-])%bind_Ok. rewrite Z.add_0_r.
    unfold reanalyzeMessages in H. destruct (msgs_at addr _) as [l|] eqn:E; [|done].
    apply bind_Ok in H as (b2 & H & [= <-]). apply unstall_Ok in H; [|apply (bo_heap _ _ _ Hb)].
    eapply buffer_ok_returned; [done|done|by apply erase_at_concat|].
    rewrite <- (rt_map _ _ _ _ H). by destruct b2.
  - intros (b1 & H & [= <- <- <-])%bind_Ok. rewrite Z.add_0_r.
    apply bind_Ok in H as (b2 & H & [= <-]). apply unstall_all_Ok in H; [|apply (bo_heap _ _ _ Hb)].
    eapply buffer_ok_returned; [done|done| |done]. by rewrite app_nil_r.
  - intros [= <- <- <-]. rewrite Z.add_0_r. by destruct Hb.
  - intros ((b1 & g1) & H & [= <- <- <-])%bind_Ok. unfold enqueueDeferredMessages in H.
    destruct (msgs_at addr _) as [l|]; [|done].
    apply bind_Ok in H as ([] & _ & H). apply bind_Ok in H as ((b2 & g2) & H & [= <- _]).
    apply (enqueue_all_ok k) in H; [|done..]. by destruct H.
  - intros ((b1 & g1) & H & [= <- <- <-])%bind_Ok. eapply buffer_ok_delayHead; [done|lia|done].
  - intros [= <- <- <-]. rewrite Z.add_0_r. unfold areNSlotsAvailable. repeat case_match; simpl; by destruct Hb.
  - intros [= <- <- <-]. rewrite Z.add_0_r. unfold getSize. case_match; simpl; by destruct Hb.
  - intros [= <- <- <-]. rewrite Z.add_0_r. by destruct Hb.
  - intros [= <- <- <-]. rewrite Z.add_0_r. by apply buffer_ok_clear.
Qed.

Lemma run_ok k rs now ops b g b' g' n :
  buffer_ok k now b -> 0 < now -> ordered_from now ops -> k + n < 2 ^ 31 ->
  run rs ops b g = Ok (b', g', n) -> buffer_ok (k + n) (end_time now ops) b'.
Proof.
  revert k now b g n b' g'. induction ops as [|[now' o] ops IH]; intros k now b g n b' g' Hb Hn Hord Hk; simpl.
  - intros [= <- _ <-]. by rewrite Z.add_0_r.
  - intros ([[b1 g1] n1] & H1 & H)%bind_Ok. apply bind_Ok in H as ([[b2 g2] n2] & H2 & [= <- _ <-]).
    destruct Hord as [Hle Hord]. pose proof (run_count _ _ _ _ _ _ _ H2). rewrite Z.add_assoc.
    eapply IH; [|lia|done|lia|exact H2].
    eapply step_ok; [by apply (buffer_ok_later k k now)|lia|lia|exact H1].
Qed.

(** ** Filling the slots that are available *)

(** What a caller is responsible for that enqueues [n] messages in one tick. *)
Record may_enqueue_all (rs : RubySystem) (now delta : Z) (l : list Message.t) (b : t) : Prop := {
  ma_now : 0 <= now;
  ma_delta : 0 <= delta;
  ma_time : now + delta + 119 * zlength l < 2 ^ 64;
  ma_zero : delta <> 0 \/ m_allow_zero_latency b = true;
  ma_last : 0 <= m_last_arrival_time b < 2 ^ 64 - 119 * zlength l;
  ma_fifo : m_strict_fifo b = true -> randomized rs b = false -> m_last_arrival_time b <= now + delta;
  ma_messages : Forall (fun m => Message.m_LastEnqueueTime m <= now) l;
  ma_consumer : m_consumer b = true;
}.

Lemma enqueue_all_safe rs l now delta b g :
  is_heap Message.gt (m_prio_heap b) -> may_enqueue_all rs now delta l b ->
  m_max_size b = 0 \/ occupancy b + zlength l <= m_max_size b ->
  exists b' g', enqueue_all rs l now delta b g = Ok (b', g').
Proof.
  unfold zlength. revert b g. induction l as [|m l IH]; intros b g Hh Hm Ho; simpl; [eauto|].
  destruct Hm. unfold zlength in *. simpl in *. apply list.Forall_cons in ma_messages0 as [Hm Hms].
  destruct (enqueue_safe rs m now delta b g) as (b1 & g1 & H1); [done|split; try done; lia|lia|].
  rewrite H1. cbn [mbind res_bind]. apply enqueue_Ok in H1 as (m' & He & _).
  pose proof (enqueued_occupancy _ _ _ _ _ _ _ _ Hh He) as Ho1. destruct He.
  destruct en_arrival0 as (last & g2 & [Ha1 Ha2]%arrival_Ok & Hs & Hl). destruct Ha2 as (Ha2 & Ha3 & Ha4); [lia..|].
  apply IH; [rewrite en_heap0; by apply heap_push| |rewrite Ho1, en_max0; lia].
  split; unfold zlength; rewrite ?en_zero0, ?en_consumer0, ?en_strict0; try done; try lia.
  - rewrite Hl. destruct (getWarmupEnabled rs); lia.
  - unfold randomized in *. rewrite en_random0. intros E1 E2. destruct (Ha4 E2). rewrite Hl.
    specialize (ma_fifo0 E1 E2). destruct (getWarmupEnabled rs); lia.
Qed.

Lemma new_ok size rate ordered rand zero prio b now :
  0 <= size < 2 ^ 31 -> 0 <= now -> setConsumer (new size rate ordered rand zero prio) = Ok b -> buffer_ok 0 now b.
Proof.
  intros Hs Hn [= <-]. split; unfold occupancy, heap_size, zlength; cbn; try done; try lia; [apply heap_nil|].
  destruct (0 <? now); lia.
Qed.

(** C21: a buffer keeps the promise of [areNSlotsAvailable].  After any
    sequence of operations that succeeded, with fewer than 2^31 enqueues, on
    a buffer of any size: when the buffer reports [n] slots at a tick, [n]
    messages can be enqueued at that tick, and neither the capacity assertion
    nor another one fails.  The caller has to respect the latency, the clock
    and, for an ordered buffer without random delays, the order of
    arrivals. *)
Theorem available_slots_fill rs size rate ordered rand zero prio ops b g b' g' k now delta l :
  0 <= size < 2 ^ 31 ->
  setConsumer (new size rate ordered rand zero prio) = Ok b ->
  ordered_from 1 ops ->
  run rs ops b g = Ok (b', g', k) ->
  end_time 1 ops <= now ->
  k + zlength l < 2 ^ 31 ->
  (areNSlotsAvailable (zlength l) now b').1 = true ->
  may_enqueue_all rs now delta l b' ->
  exists b'' g'', enqueue_all rs l now delta b' g' = Ok (b'', g'').
Proof.
  intros Hs Hnew Hord Hrun Hnow Hk Hav Hm. pose proof (zlength_nonneg l).
  assert (Hb0 : buffer_ok 0 1 b) by (by eapply new_ok).
  pose proof (run_ok 0 rs 1 ops _ _ _ _ k Hb0 ltac:(lia) Hord ltac:(lia) Hrun) as Hb.
  apply (buffer_ok_later _ k _ now) in Hb; [|lia|done].
  apply enqueue_all_safe; [apply (bo_heap _ _ _ Hb)|done|]. by apply (slots_room k now).
Qed.

End buffers.

(** ** An example *)

Definition demo_message (id : Z) : Message.t := Message.new id MessageSizeType_Control [] 0.

Definition demo_system : RubySystem := mkRubySystem false false 6.

(** Three messages, of which one is stalled and one is taken. *)
Definition demo_ops : list (Z * op) :=
  [(1, OEnqueue (demo_message 10) 1); (1, OEnqueue (demo_message 11) 1); (2, OStall 64); (2, OEnqueue (demo_message 12) 1);
   (3, ODequeue true); (3, OReanalyze 64)].

Definition demo_buffer : t := (new 4 0 false disabled false 0) <| m_consumer := true |>.

Definition demo_rng : Rng := mkRng (fun _ => 0) 0.

Lemma available_slots_fill_witness :
  exists b' g' k, run demo_system demo_ops demo_buffer demo_rng = Ok (b', g', k) /\
    map Message.m_id (m_prio_heap b') = [10; 12] /\
    (areNSlotsAvailable 2 3 b').1 = false /\ (areNSlotsAvailable 2 4 b').1 = true /\
    exists b'' g'', enqueue_all demo_system [demo_message 13; demo_message 14] 4 1 b' g' = Ok (b'', g'').
Proof.
  destruct (run demo_system demo_ops demo_buffer demo_rng) as [[[b' g'] k]|] eqn:E; [|by vm_compute in E].
  pose proof (available_slots_fill demo_system 4 0 false disabled false 0 demo_ops demo_buffer demo_rng b' g' k 4 1
    [demo_message 13; demo_message 14] ltac:(lia) eq_refl ltac:(cbn; lia) E ltac:(cbn; lia)) as H.
  vm_compute in E. injection E as <- <- <-. eexists _, _, _. split; [reflexivity|]. do 3 (split; [reflexivity|]).
  apply H; [reflexivity|reflexivity|]. split; cbn; unfold zlength; cbn; try done; try lia. by repeat constructor.
Defined.
