(* ===== verification/MessageFifo.v ===== *)
(** * MessageFifo: an ordered message buffer is a queue

    A sender that asks for a slot before it enqueues, and a receiver that
    asks whether a message is ready before it takes one, see a queue: the
    heap, its comparison and the counter of the buffer implement it. *)

From Stdlib Require Import Sorted.
From stdpp Require Import sorting.
From S2P Require Import Prelude NetDest Heap MessageBuffer MessageBufferProofs.
Import MessageBuffer.

(** ** The specification: a queue of names and arrival times *)

(** A sender gives the message and its latency. *)
Inductive client := Send (m : Message.t) (delta : Z) | Take.

Inductive event :=
| Accepted (id arrival : Z)
| Refused
| Taken (id : Z)
| Idle.

(** A size or a rate of zero is unlimited. *)
Record config := mkConfig { qc_size : Z; qc_rate : Z; qc_random : bool; qc_zero : bool }.

(** The messages with their arrival times and the latest arrival, and what
    happened in the current tick: the number of messages at the first take of
    the tick, if there was one, and the numbers of messages accepted and
    taken. *)
Record queue := mkQueue { items : list (Z * Z); qu_last : Z; qu_tick : Z; opening : option Z; sent : Z; taken : Z }.

(** A buffer begins in tick 0 as one that was emptied in that tick. *)
Definition new_queue : queue := mkQueue [] 0 0 (Some 0) 0 0.

Definition advance (now : Z) (q : queue) : queue :=
  if qu_tick q <? now then mkQueue (items q) (qu_last q) now None 0 0 else q.

(** The places that a sender finds occupied.  A take frees no place in its
    tick; from the first take on, all messages accepted in the tick are added
    to the number of messages at that take. *)
Definition places (q : queue) : Z := match opening q with None => zlength (items q) | Some n => n + sent q end.

Definition slot_free (cf : config) (q : queue) : bool := (qc_size cf =? 0) || (places q + 1 <=? qc_size cf).

(** A latency of zero that is not allowed, or an arrival before that of an
    earlier message. *)
Definition improper (cf : config) (now delta : Z) (q : queue) : bool :=
  (delta =? 0) && negb (qc_zero cf) || negb (qc_random cf) && (now + delta <? qu_last q).

Definition arrives (cf : config) (now delta : Z) (q : queue) (arr : Z) : bool :=
  if qc_random cf then let from := Z.max (qu_last q) now in (from + 1 <=? arr) && (arr <=? from + 119) else arr =? now + delta.

(** The message that a receiver gets. *)
Definition first_due (cf : config) (q : queue) : option Z :=
  match items q with
  | (id, arr) :: _ => if (arr <=? qu_tick q) && ((qc_rate cf =? 0) || (taken q <? qc_rate cf)) then Some id else None
  | [] => None
  end.

Definition put_last (id arr : Z) (q : queue) : queue :=
  mkQueue (items q ++ [(id, arr)]) arr (qu_tick q) (opening q) (sent q + 1) (taken q).

Definition drop_first (q : queue) : queue :=
  mkQueue (tail (items q)) (qu_last q) (qu_tick q) (Some (default (zlength (items q)) (opening q))) (sent q) (taken q + 1).

(** The queue after the answer [e] to a client in the tick of the queue;
    [None] when it is not the answer of a queue. *)
Definition queue_step (cf : config) (c : client) (e : event) (q : queue) : option queue :=
  match c, e with
  | Send m delta, Accepted id arr =>
      if slot_free cf q && negb (improper cf (qu_tick q) delta q) && (id =? Message.m_id m) && arrives cf (qu_tick q) delta q arr
      then Some (put_last id arr q) else None
  | Send _ _, Refused => if slot_free cf q then None else Some q
  | Take, Taken id => if decide (first_due cf q = Some id) then Some (drop_first q) else None
  | Take, Idle => if first_due cf q then None else Some q
  | _, _ => None
  end.

(** One answer for each client. *)
Fixpoint queue_run (cf : config) (cs : list (Z * client)) (es : list event) (q : queue) : option queue :=
  match cs, es with
  | [], [] => Some q
  | (now, c) :: cs, e :: es => match queue_step cf c e (advance now q) with Some q => queue_run cf cs es q | None => None end
  | _, _ => None
  end.

(** ** The implementation *)

Section fifo.
Context `{!StdHeap Message.t Message.gt, !StdHeapOk Message.t Message.gt}.
Context (rs : RubySystem).

Definition serve (now : Z) (c : client) (b : t) (g : Rng) : res (event * t * Rng) :=
  match c with
  | Send m delta =>
      let '(ok, b) := areNSlotsAvailable 1 now b in
      if ok then '(b, g) ← enqueue rs m now delta b g; Ok (Accepted (Message.m_id m) (m_last_arrival_time b), b, g)
      else Ok (Refused, b, g)
  | Take =>
      '(ready, b) ← isReady now b;
      if (ready : bool) then m ← peek b; '(_, b) ← dequeue now now true b; Ok (Taken (Message.m_id m), b, g)
      else Ok (Idle, b, g)
  end.

Fixpoint serve_all (cs : list (Z * client)) (b : t) (g : Rng) : res (list event * t) :=
  match cs with
  | [] => Ok ([], b)
  | (now, c) :: cs =>
      '(e, b, g) ← serve now c b g;
      '(es, b) ← serve_all cs b g;
      Ok (e :: es, b)
  end.

Definition sound_client (now : Z) (c : client) : Prop :=
  match c with Send m delta => 0 <= delta /\ now + delta < 2 ^ 63 /\ Message.m_LastEnqueueTime m <= now | Take => True end.

(** Clients whose ticks do not decrease and that send no message of the future. *)
Fixpoint clients_from (now : Z) (cs : list (Z * client)) : Prop :=
  match cs with
  | [] => True
  | (now', c) :: cs => now <= now' < 2 ^ 63 /\ sound_client now' c /\ clients_from now' cs
  end.

Definition config_of (b : t) : config :=
  mkConfig (m_max_size b) (m_max_dequeue_rate b) (randomized rs b) (m_allow_zero_latency b).

Definition entry (m : Message.t) : Z * Z := (Message.m_id m, Message.m_LastEnqueueTime m).

Definition older (x y : Message.t) : Prop :=
  Message.m_LastEnqueueTime x <= Message.m_LastEnqueueTime y /\ Message.m_msg_counter x < Message.m_msg_counter y.

(** The messages of the heap, in the order of their numbers, are the queue. *)
Record fifo (k now : Z) (b : t) (l : list Message.t) : Prop := {
  ff_ok : buffer_ok k now b;
  ff_queue : m_prio_heap b ≡ₚ l;
  ff_sorted : StronglySorted older l;
  ff_newest : Forall (fun m => Message.m_LastEnqueueTime m <= m_last_arrival_time b /\ Message.m_msg_counter m <= k) l;
  ff_counter : m_msg_counter b = k;
  ff_strict : m_strict_fifo b = true;
  ff_consumer : m_consumer b = true;
  ff_last : 0 <= m_last_arrival_time b < 2 ^ 63 + 119 * k;
  ff_stall : m_stall_map_size b = 0 /\ m_stalled_at_cycle_start b = 0;
  ff_rate : 0 <= m_max_dequeue_rate b;
}.

Definition takes_before (now : Z) (b : t) : Z := if m_time_last_time_pop b <? now then 0 else m_dequeues_this_cy b.

(** The counters of the buffer are those of the queue in its tick. *)
Record mirrors (k now : Z) (b : t) (l : list Message.t) (q : queue) : Prop := {
  mi_items : items q = entry <$> l;
  mi_last : qu_last q = m_last_arrival_time b;
  mi_tick : qu_tick q = now;
  mi_opening : opening q = if m_time_last_time_pop b <? now then None else Some (m_size_at_cycle_start b);
  mi_sent : sent q = msgs_before now b;
  mi_taken : taken q = takes_before now b;
  mi_count : 0 <= taken q /\ taken q + zlength l <= k;
}.

Lemma older_first x y : older x y -> Message.gt y x = true.
Proof. unfold Message.gt. intros [? ?]. destruct (Z.eqb_spec (Message.m_LastEnqueueTime y) (Message.m_LastEnqueueTime x)); lia. Qed.

(** The first element of the heap is the head of the queue. *)
Lemma fifo_head k now b q x l : fifo k now b q -> m_prio_heap b = x :: l -> exists q', q = x :: q' /\ l ≡ₚ q'.
Proof.
  intros [] Hx. rewrite Hx in ff_queue0. destruct q as [|y q']; [by apply Permutation_nil_r in ff_queue0|].
  assert (Hxq : x ∈ y :: q') by (rewrite <- ff_queue0; by left).
  assert (Hyl : y ∈ x :: l) by (rewrite ff_queue0; by left).
  apply elem_of_cons in Hxq as [->|Hxq]; [exists q'; split; [done|by apply Permutation_cons_inv in ff_queue0]|]. exfalso.
  apply StronglySorted_inv in ff_sorted0 as [_ Hf]. eapply list.Forall_forall in Hf; [|exact Hxq].
  apply elem_of_cons in Hyl as [->|Hyl]; [destruct Hf; lia|].
  apply older_first in Hf. pose proof (bo_heap _ _ _ ff_ok0) as Hh. rewrite Hx in Hh.
  by rewrite (heap_front x l y Hh Hyl) in Hf.
Qed.

Lemma StronglySorted_snoc {A} (R : A -> A -> Prop) l x :
  StronglySorted R l -> Forall (fun y => R y x) l -> StronglySorted R (l ++ [x]).
Proof.
  induction 1 as [|y l Hl IH Hy]; intros Hf; simpl; [by repeat constructor|].
  apply list.Forall_cons in Hf as [Hyx Hf]. constructor; [by apply IH|]. apply list.Forall_app. by repeat constructor.
Qed.

Lemma fifo_later k now now' b l : fifo k now b l -> now <= now' -> fifo k now' b l.
Proof. intros [] Hn. split; try done. by eapply buffer_ok_later. Qed.

Lemma mirrors_later k now now' b l q :
  buffer_ok k now b -> mirrors k now b l q -> now <= now' -> mirrors k now' b l (advance now' q).
Proof.
  intros Hb Hm Hn. destruct (decide (now = now')) as [->|Hne].
  { unfold advance. by rewrite (mi_tick _ _ _ _ _ Hm), Z.ltb_irrefl. }
  destruct Hb, Hm. unfold advance. rewrite mi_tick0, (proj2 (Z.ltb_lt _ _)) by lia.
  split; unfold msgs_before, takes_before in *; cbn; rewrite ?(proj2 (Z.ltb_lt _ now')) by lia; try done; lia.
Qed.

Lemma fifo_length k now b l : fifo k now b l -> heap_size b = zlength l.
Proof. intros []. unfold heap_size, zlength. by rewrite ff_queue0. Qed.

(** A buffer whose slots are limited reports the places of the queue. *)
Lemma visible_places k now b l q :
  fifo k now b l -> mirrors k now b l q -> m_max_size b <> 0 -> k < 2 ^ 31 -> visible_size now b = places q.
Proof.
  intros Hff Hm Hmax Hk. pose proof (fifo_length _ _ _ _ Hff) as Hlen. destruct Hff as [Hb _ _ _ _ _ _ _ [Hs1 Hs2] _]. destruct Hb, Hm.
  pose proof (zlength_nonneg l). destruct bo_capacity as [|Hc]; [done|]. destruct bo_start as (S0 & S1 & [|S2]); [done|].
  unfold occupancy in Hc. unfold visible_size, places. rewrite mi_opening0, mi_sent0, mi_items0, Hs1, Hs2, Hlen. unfold msgs_before.
  destruct (m_time_last_time_pop b <? now).
  - rewrite !u32_small by lia. unfold zlength. rewrite length_fmap. lia.
  - destruct (m_time_last_time_enqueue b <? now); [lia|]. rewrite u32_small; lia.
Qed.

(** A slot is granted exactly when the queue has a free place. *)
Lemma slots_exact k now b l q :
  fifo k now b l -> mirrors k now b l q -> 0 <= k < 2 ^ 31 - 1 ->
  areNSlotsAvailable 1 now b = (slot_free (config_of b) q, if slot_free (config_of b) q then b else b <| m_not_avail_count ::= Z.succ |>).
Proof.
  intros Hff Hm Hk. unfold areNSlotsAvailable, slot_free. cbn [qc_size config_of].
  destruct (Z.eqb_spec (m_max_size b) 0) as [|Hmax]; [done|]. rewrite (visible_places _ _ _ _ _ Hff Hm) by (done || lia). cbn [orb].
  pose proof (bo_max _ _ _ (ff_ok _ _ _ _ Hff)). pose proof (bo_start _ _ _ (ff_ok _ _ _ _ Hff)). pose proof (bo_msgs _ _ _ (ff_ok _ _ _ _ Hff)).
  rewrite u32_small; [by destruct (_ <=? _)|].
  destruct Hm. unfold places. rewrite mi_opening0, mi_sent0, mi_items0. pose proof (zlength_nonneg l). unfold msgs_before, zlength in *. rewrite length_fmap.
  destruct (m_time_last_time_pop b <? now), (m_time_last_time_enqueue b <? now); lia.
Qed.

(** A random delay counts from the latest arrival. *)
Lemma arrival_exact now delta b g arr last g' :
  arrival rs now delta b g = Ok (arr, last, g') -> m_strict_fifo b = true ->
  0 <= now < 2 ^ 63 -> 0 <= delta -> now + delta < 2 ^ 63 -> 0 <= m_last_arrival_time b < 2 ^ 64 - 119 ->
  if randomized rs b then Z.max (m_last_arrival_time b) now + 1 <= arr <= Z.max (m_last_arrival_time b) now + 119
  else arr = now + delta.
Proof.
  intros Ha Hs Hn Hd Hnd Hl. unfold arrival in Ha. fold (randomized rs b) in Ha. rewrite Hs in Ha. destruct (randomized rs b); cbn in Ha.
  - apply bind_Ok in Ha as ((d & g1) & Hr & [= <- _ _]). pose proof (safe_Ok _ _ _ Hr (random_time_safe g)) as Hb. simpl in Hb.
    case_match; rewrite u64_small; lia.
  - injection Ha as <- _ _. rewrite u64_small; lia.
Qed.

Lemma fifo_send k now m delta b g b' g' l q :
  fifo k now b l -> mirrors k now b l q -> getWarmupEnabled rs = false -> 0 <= k < 2 ^ 31 - 1 -> 0 <= now < 2 ^ 63 ->
  0 <= delta -> now + delta < 2 ^ 63 -> enqueue rs m now delta b g = Ok (b', g') ->
  exists m', arrives (config_of b) now delta q (m_last_arrival_time b') = true /\ config_of b' = config_of b /\
    fifo (k + 1) now b' (l ++ [m']) /\ mirrors (k + 1) now b' (l ++ [m']) (put_last (Message.m_id m) (m_last_arrival_time b') q).
Proof.
  intros Hff Hm Hw Hk Hn Hd Hnd H. assert (Hff' := Hff). destruct Hff'.
  apply enqueue_Ok in H as (m' & He & Hc). assert (He' := He). destruct He'.
  destruct en_arrival as (last & g1 & Ha & Hs & Hl). rewrite Hw in Hl. specialize (Hs ff_strict0).
  pose proof (arrival_exact _ _ _ _ _ _ _ Ha ff_strict0 Hn Hd Hnd ltac:(lia)) as Hx. apply arrival_Ok in Ha as [Ha _].
  rewrite ff_counter0, u64_small in en_number, en_counter by lia.
  assert (Hnew : Forall (fun y => older y m') l).
  { eapply list.Forall_impl; [exact ff_newest0|]. intros y [? ?]. split; lia. }
  exists m'. split.
  { unfold arrives. cbn [qc_random config_of]. rewrite (mi_last _ _ _ _ _ Hm), Hl. destruct (randomized rs b); lia. }
  split; [unfold config_of, randomized; by rewrite en_max, en_rate, en_random, en_zero|]. split.
  - split; rewrite ?en_counter, ?en_strict, ?en_consumer, ?en_stall, ?en_stalled, ?en_rate, ?Hl; try done.
    + eapply buffer_ok_enqueued; [done|lia|exact He|done].
    + rewrite en_heap, (proj2 (heap_push _ m' (bo_heap _ _ _ ff_ok0))), ff_queue0. apply Permutation_cons_append.
    + by apply StronglySorted_snoc.
    + apply list.Forall_app. split; [|repeat constructor; lia]. eapply list.Forall_impl; [exact Hnew|]. intros y [? ?]. lia.
    + destruct (randomized rs b); lia.
  - destruct Hm, ff_ok0. unfold put_last, takes_before, msgs_before in *.
    split; cbn; unfold takes_before, msgs_before; rewrite ?en_pop, ?en_size, ?en_dequeues, ?en_msgs, ?en_enqueue, ?Hl; try done.
    + rewrite mi_items0, fmap_app. unfold entry. simpl. by rewrite en_id.
    + unfold msgs_before. rewrite Z.max_l, Z.ltb_irrefl, mi_sent0 by lia. rewrite u32_small; [done|]. clear - bo_msgs Hk. destruct (m_time_last_time_enqueue b <? now); lia.
    + unfold zlength in *. rewrite length_app. simpl. lia.
Qed.

Lemma fifo_take k now b x h x' b' l q :
  fifo k now b l -> mirrors k now b l q -> 0 <= k < 2 ^ 31 -> dequeued now b x h x' b' ->
  exists l', l = x :: l' /\ config_of b' = config_of b /\ fifo k now b' l' /\ mirrors k now b' l' (drop_first q).
Proof.
  intros Hff Hm Hk Hd. destruct (fifo_head _ _ _ _ _ _ Hff (dq_before _ _ _ _ _ _ Hd)) as (l' & -> & Hl).
  pose proof (fifo_length _ _ _ _ Hff) as Hlen. exists l'. split; [done|]. assert (Hff' := Hff). destruct Hff'. assert (Hd' := Hd). destruct Hd'.
  apply StronglySorted_inv in ff_sorted0 as [Hst _]. apply list.Forall_cons in ff_newest0 as [_ Hnew].
  split; [unfold config_of, randomized; by rewrite dq_max, dq_rate, dq_random, dq_zero|]. split.
  - split; rewrite ?dq_counter, ?dq_strict, ?dq_consumer, ?dq_last, ?dq_stall, ?dq_rate; try done.
    + by eapply buffer_ok_dequeued.
    + rewrite <- Hl. by eapply dequeued_heap; [apply (bo_heap _ _ _ ff_ok0)|].
    + rewrite dq_stalled. destruct ff_stall0 as [-> ->]. by destruct (_ <? _).
  - destruct Hm. pose proof (zlength_nonneg l') as Hl'. unfold zlength in mi_count0, Hlen, Hl'. simpl in mi_count0, Hlen.
    split; cbn; unfold takes_before, msgs_before in *; rewrite ?dq_pop, ?Z.ltb_irrefl, ?dq_size, ?dq_last, ?dq_enqueue, ?dq_msgs, ?dq_dequeues; try done.
    + by rewrite mi_items0.
    + rewrite mi_opening0, mi_items0. destruct (m_time_last_time_pop b <? now); [|done]. simpl. unfold zlength. simpl. rewrite length_fmap, u32_small; [|lia]. do 2 f_equal. lia.
    + rewrite <- mi_taken0, u32_small; lia.
    + unfold zlength. lia.
Qed.

(** Calls and statistics are not part of the state of the queue. *)
Lemma fifo_quiet k now b c n l : fifo k now b l -> fifo k now (b <| calls := c |> <| m_not_avail_count := n |>) l.
Proof. intros [[]]. by split. Qed.

Lemma mirrors_quiet k now b c n l q : mirrors k now b l q -> mirrors k now (b <| calls := c |> <| m_not_avail_count := n |>) l q.
Proof. intros []. by split. Qed.

(** A message is ready exactly when the queue hands one out; otherwise
    [isReady] at most asks the consumer to come back. *)
Lemma isReady_exact k now b l q :
  fifo k now b l -> mirrors k now b l q ->
  exists b', isReady now b = Ok (if first_due (config_of b) q then true else false, b') /\ config_of b' = config_of b /\
    fifo k now b' l /\ mirrors k now b' l q /\ (is_Some (first_due (config_of b) q) -> b' = b).
Proof.
  intros Hff Hm. unfold isReady. rewrite (proj2 (Z.leb_le _ _)) by apply (bo_pop _ _ _ (ff_ok _ _ _ _ Hff)). cbn [mbind res_bind assert].
  rewrite (ff_consumer _ _ _ _ Hff). set (can := _ || _). set (rdy := match m_prio_heap b with [] => false | _ => _ end).
  assert (Hcan : can = (m_max_dequeue_rate b =? 0) || (taken q <? m_max_dequeue_rate b)).
  { pose proof (ff_rate _ _ _ _ Hff). unfold can. rewrite (mi_taken _ _ _ _ _ Hm). unfold takes_before.
    destruct (m_time_last_time_pop b <? now); [|by rewrite orb_false_r]. destruct (Z.eqb_spec (m_max_dequeue_rate b) 0); simpl; lia. }
  assert (Hfd : (if first_due (config_of b) q then true else false) = can && rdy).
  { unfold first_due. rewrite (mi_items _ _ _ _ _ Hm), (mi_tick _ _ _ _ _ Hm). unfold rdy. destruct (m_prio_heap b) as [|x h] eqn:Hx.
    - pose proof (ff_queue _ _ _ _ Hff) as Hq. rewrite Hx in Hq. apply Permutation_nil in Hq as ->. by rewrite andb_false_r.
    - destruct (fifo_head _ _ _ _ _ _ Hff Hx) as (l' & -> & _). simpl. rewrite <- Hcan, andb_comm. by destruct (can && _). }
  rewrite Hfd. exists (if negb can && rdy then call (scheduleEvent_ 1) b else b). split; [by destruct can, rdy|].
  split; [by destruct can, rdy|]. split; [destruct (negb can && rdy); [exact (fifo_quiet _ _ _ _ (m_not_avail_count b) _ Hff)|done]|].
  split; [destruct (negb can && rdy); [exact (mirrors_quiet _ _ _ _ (m_not_avail_count b) _ _ Hm)|done]|].
  intros [i Hi]. rewrite Hi in Hfd. by destruct can, rdy.
Qed.

(** A send that is improper stops the simulation; every other one for which
    there is a slot is accepted. *)
Lemma enqueue_improper k now m delta b g l q :
  fifo k now b l -> mirrors k now b l q -> 0 <= now -> 0 <= delta -> now + delta < 2 ^ 63 ->
  improper (config_of b) now delta q = true -> enqueue rs m now delta b g = Err PanicCalled.
Proof.
  intros Hff Hm Hn Hd Ht Hi. unfold enqueue. unfold improper in Hi. cbn [qc_zero qc_random config_of] in Hi.
  set (b1 := b <| m_msgs_this_cycle ::= _ |> <| m_time_last_time_enqueue ::= _ |> <| m_msg_counter ::= _ |> <| m_msgs_this_cycle ::= _ |>).
  change (m_allow_zero_latency b1) with (m_allow_zero_latency b). destruct ((delta =? 0) && _); [done|]. simpl in Hi.
  unfold arrival. change (m_randomization b1) with (m_randomization b). fold (randomized rs b). destruct (randomized rs b); [done|]. simpl in Hi. simpl negb. cbn iota.
  cbn [mbind res_bind]. rewrite u64_small by lia. rewrite (proj2 (Z.leb_le now _)) by lia. cbn [mbind res_bind assert].
  change (m_strict_fifo b1) with (m_strict_fifo b). change (m_last_arrival_time b1) with (m_last_arrival_time b).
  rewrite (mi_last _ _ _ _ _ Hm) in Hi. by rewrite (ff_strict _ _ _ _ Hff), Hi.
Qed.

Lemma enqueue_proper k now m delta b g l q :
  fifo k now b l -> mirrors k now b l q -> 0 <= k < 2 ^ 31 - 1 -> 0 <= now < 2 ^ 63 -> 0 <= delta -> now + delta < 2 ^ 63 ->
  Message.m_LastEnqueueTime m <= now -> slot_free (config_of b) q = true -> improper (config_of b) now delta q = false ->
  exists b' g', enqueue rs m now delta b g = Ok (b', g').
Proof.
  intros Hff Hm Hk Hn Hd Ht Hl Hf [Hz Hi]%orb_false_elim. cbn [qc_zero qc_random config_of] in Hz, Hi. rewrite (mi_last _ _ _ _ _ Hm) in Hi.
  apply enqueue_safe; [apply (bo_heap _ _ _ (ff_ok _ _ _ _ Hff))| |].
  - destruct Hff. split; try done; try lia.
    + destruct (Z.eqb_spec delta 0); [right; by destruct (m_allow_zero_latency b)|by left].
    + intros _ E. rewrite E in Hi. simpl in Hi. lia.
  - apply (slots_room k now 1 b (ff_ok _ _ _ _ Hff)); [lia..|]. by rewrite (slots_exact _ _ _ _ _ Hff Hm Hk), Hf.
Qed.

Lemma serve_send k now m delta b g l q :
  fifo k now b l -> mirrors k now b l q -> getWarmupEnabled rs = false -> 0 <= k < 2 ^ 31 - 1 -> 0 <= now < 2 ^ 63 ->
  sound_client now (Send m delta) ->
  (serve now (Send m delta) b g = Err PanicCalled /\ slot_free (config_of b) q = true /\ improper (config_of b) now delta q = true) \/
  exists e b' g' k' l' q', serve now (Send m delta) b g = Ok (e, b', g') /\ k <= k' <= k + 1 /\ fifo k' now b' l' /\ mirrors k' now b' l' q' /\
    config_of b' = config_of b /\ queue_step (config_of b) (Send m delta) e q = Some q'.
Proof.
  intros Hff Hm Hw Hk Hn (Hd & Ht & Hl). unfold serve. rewrite (slots_exact _ _ _ _ _ Hff Hm Hk). destruct (slot_free (config_of b) q) eqn:Hf.
  - destruct (improper (config_of b) now delta q) eqn:Hi.
    { left. by rewrite (enqueue_improper _ _ _ _ _ _ _ _ Hff Hm) by (done || lia). }
    right. destruct (enqueue_proper k now m delta b g l q) as (b2 & g2 & H2); [done..|]. rewrite H2. cbn [mbind res_bind].
    destruct (fifo_send _ _ _ _ _ _ _ _ _ _ Hff Hm Hw Hk Hn Hd Ht H2) as (m' & Ha & Hc & Hff' & Hm').
    eexists _, b2, g2, (k + 1), (l ++ [m']), _. split; [done|]. split; [lia|]. split; [done|]. split; [exact Hm'|]. split; [done|].
    cbn [queue_step]. by rewrite (mi_tick _ _ _ _ _ Hm), Hf, Hi, Z.eqb_refl, Ha.
  - right. eexists Refused, _, g, k, l, q. split; [done|]. split; [lia|]. split; [exact (fifo_quiet _ _ _ (calls b) _ _ Hff)|].
    split; [exact (mirrors_quiet _ _ _ (calls b) _ _ _ Hm)|]. split; [done|]. cbn [queue_step]. by rewrite Hf.
Qed.

Lemma serve_take k now b g l q :
  fifo k now b l -> mirrors k now b l q -> 0 <= k < 2 ^ 31 - 1 ->
  exists e b' l' q', serve now Take b g = Ok (e, b', g) /\ fifo k now b' l' /\ mirrors k now b' l' q' /\
    config_of b' = config_of b /\ queue_step (config_of b) Take e q = Some q'.
Proof.
  intros Hff Hm Hk. destruct (isReady_exact _ _ _ _ _ Hff Hm) as (b1 & Hr & Hc & Hff1 & Hm1 & Hsame). unfold serve. rewrite Hr. cbn [mbind res_bind].
  destruct (first_due (config_of b) q) as [i|] eqn:Hf.
  - rewrite Hsame in Hr |- * by eauto. destruct (dequeue_safe now now true b b Hr) as (x' & b2 & H2). rewrite H2.
    destruct (dequeue_Ok _ _ _ _ _ _ H2) as (x & h & Hdq). destruct (fifo_take _ _ _ _ _ _ _ _ _ Hff Hm ltac:(lia) Hdq) as (l' & -> & Hc' & Hff' & Hm').
    unfold peek, front. rewrite (dq_before _ _ _ _ _ _ Hdq). cbn [mbind res_bind].
    exists (Taken (Message.m_id x)), b2, l', (drop_first q). do 4 (split; [done|]). cbn [queue_step]. rewrite decide_True; [done|].
    revert Hf. unfold first_due. rewrite (mi_items _ _ _ _ _ Hm). simpl. by destruct (_ && _).
  - exists Idle, b1, l, q. do 4 (split; [done|]). cbn [queue_step]. by rewrite Hf.
Qed.

(** What the clients see: the answers of the queue, one for each, or the
    panic of the first improper send for which there is a slot. *)
Definition answers (cf : config) (cs : list (Z * client)) (q : queue) (r : res (list event * t)) : Prop :=
  match r with
  | Ok (es, b') => exists q', queue_run cf cs es q = Some q' /\ entry <$> m_prio_heap b' ≡ₚ items q'
  | Err e => e = PanicCalled /\ exists cs1 now m delta cs2 es q', cs = cs1 ++ (now, Send m delta) :: cs2 /\
      queue_run cf cs1 es q = Some q' /\ slot_free cf (advance now q') = true /\ improper cf now delta (advance now q') = true
  end.

Lemma answers_cons cf now c cs e q q' r :
  queue_step cf c e (advance now q) = Some q' -> answers cf cs q' r ->
  answers cf ((now, c) :: cs) q ('(es, b) ← r; Ok (e :: es, b)).
Proof.
  intros Hq. destruct r as [[es b]|]; cbn [mbind res_bind answers]; [cbn [queue_run]; by rewrite Hq|].
  intros (-> & cs1 & n & m & d & cs2 & es & q2 & -> & Hrun & H). split; [done|]. exists ((now, c) :: cs1), n, m, d, cs2, (e :: es), q2.
  split; [done|]. cbn [queue_run]. by rewrite Hq.
Qed.

Lemma serve_all_answers k now cs b g l q :
  fifo k now b l -> mirrors k now b l q -> getWarmupEnabled rs = false -> 0 <= k -> k + zlength cs < 2 ^ 31 - 1 -> 0 <= now ->
  clients_from now cs -> answers (config_of b) cs q (serve_all cs b g).
Proof.
  unfold zlength. revert k now b g l q.
  induction cs as [|[now' c] cs IH]; intros k now b g l q Hff Hm Hw Hk0 Hk Hn Hcs; cbn [serve_all].
  { exists q. split; [done|]. by rewrite (mi_items _ _ _ _ _ Hm), (ff_queue _ _ _ _ Hff). }
  destruct Hcs as ([Hle Ht] & Hc & Hcs). simpl in Hk. apply (mirrors_later _ _ now') in Hm; [|apply (ff_ok _ _ _ _ Hff)|done].
  apply (fifo_later _ _ now') in Hff; [|done].
  assert (Hgo : forall e b' g' k' l' q', k <= k' <= k + 1 -> fifo k' now' b' l' -> mirrors k' now' b' l' q' -> config_of b' = config_of b ->
    queue_step (config_of b) c e (advance now' q) = Some q' ->
    answers (config_of b) ((now', c) :: cs) q ('(es, b2) ← serve_all cs b' g'; Ok (e :: es, b2))).
  { intros e b' g' k' l' q' Hk' Hff' Hm' Hcf Hq. eapply answers_cons; [exact Hq|]. rewrite <- Hcf. eapply IH; [done..|lia|lia|lia|done]. }
  destruct c as [m delta|].
  - destruct (serve_send k now' m delta b g l _ Hff Hm Hw ltac:(lia) ltac:(lia) Hc) as [(-> & Hf & Hi)|(e & b' & g' & k' & l' & q' & -> & H)].
    + split; [done|]. by exists [], now', m, delta, cs, [], q.
    + cbn [mbind res_bind]. eapply Hgo; apply H.
  - destruct (serve_take k now' b g l _ Hff Hm ltac:(lia)) as (e & b' & l' & q' & -> & H). cbn [mbind res_bind]. eapply (Hgo _ _ _ k); [lia|apply H..].
Qed.

Lemma new_fifo sz rt rand zero prio b :
  0 <= sz < 2 ^ 31 -> 0 <= rt -> setConsumer (new sz rt true rand zero prio) = Ok b -> fifo 0 0 b [] /\ mirrors 0 0 b [] new_queue.
Proof.
  intros Hs Hr Hb. split; [split; [by eapply new_ok|..]|split]; injection Hb as <-; try done; try constructor; cbn; lia.
Qed.

(** C20: an ordered message buffer refines a queue.  Take any sequence of
    clients, at ticks that do not decrease, that send messages, each with its
    own latency, or take them; with or without random delays, for every size
    and dequeue rate.  The buffer serves them all and no assertion fails, and
    each answer is the one of the queue: a message is refused exactly when
    the places that the queue counts in this tick reach the size, a receiver
    gets the oldest message exactly when it is due and the rate of the tick is
    not used up, and an accepted message arrives after its latency, or after a
    random delay of 1 to 119 ticks counted from the latest arrival.  So
    messages leave in the order in which they were accepted, and none is lost
    or duplicated; at the end the heap holds the rest of the queue.  The one
    exception is the panic of [enqueue]: it stops the simulation exactly at
    the first send with a slot whose latency of zero is not allowed or which,
    without random delays, would arrive before an earlier message. *)
Theorem ordered_buffer_is_queue size rate rand zero prio cs b g :
  0 <= size < 2 ^ 31 -> 0 <= rate -> getWarmupEnabled rs = false ->
  setConsumer (new size rate true rand zero prio) = Ok b ->
  zlength cs < 2 ^ 31 - 1 -> clients_from 0 cs ->
  answers (config_of b) cs new_queue (serve_all cs b g).
Proof.
  intros Hs Hr Hw Hb Hl Hcs. destruct (new_fifo _ _ _ _ _ _ Hs Hr Hb) as [Hff Hm].
  exact (serve_all_answers 0 0 cs b g [] new_queue Hff Hm Hw ltac:(lia) Hl ltac:(lia) Hcs).
Qed.

End fifo.

(** ** Examples *)

(** Four messages for a buffer of three places.  In tick 3 a message is
    accepted before one is taken: it counts twice, and the next one is
    refused although two places are free. *)
Definition demo_clients : list (Z * client) :=
  [(1, Send (demo_message 10) 2); (3, Send (demo_message 11) 4); (3, Take); (3, Send (demo_message 12) 5); (3, Take);
   (4, Send (demo_message 13) 3); (7, Take); (7, Take)].

Definition demo_fifo : t := (new 3 1 true ruby_system false 0) <| m_consumer := true |>.

(** The last message would arrive before the one sent in tick 4. *)
Definition early_clients : list (Z * client) := take 6 demo_clients ++ [(5, Send (demo_message 14) 1)].

Lemma ordered_buffer_is_queue_witness :
  answers (config_of demo_system demo_fifo) demo_clients new_queue (serve_all demo_system demo_clients demo_fifo demo_rng) /\
  fst <$> serve_all demo_system demo_clients demo_fifo demo_rng =
    Ok [Accepted 10 3; Accepted 11 7; Taken 10; Refused; Idle; Accepted 13 7; Taken 11; Idle] /\
  answers (config_of demo_system demo_fifo) early_clients new_queue (serve_all demo_system early_clients demo_fifo demo_rng) /\
  fst <$> serve_all demo_system early_clients demo_fifo demo_rng = Err PanicCalled.
Proof.
  split; [apply (ordered_buffer_is_queue demo_system 3 1 ruby_system false 0); [lia|lia|reflexivity|reflexivity|by vm_compute|by vm_compute]|].
  split; [vm_compute; reflexivity|].
  split; [apply (ordered_buffer_is_queue demo_system 3 1 ruby_system false 0); [lia|lia|reflexivity|reflexivity|by vm_compute|by vm_compute]|].
  vm_compute; reflexivity.
Defined.
