(* ===== verification/Network.v ===== *)
(** * Network: the base class of the networks and the statistics of garnet

    mem/ruby/network/Network.hh/.cc: the numbering of the controllers of a
    network, the message buffers between the controllers and the network, and
    the sizes of messages; and the counters of
    garnet/GarnetNetwork.hh/.cc that the network interfaces keep.

    A controller is known by its machine type and its version.  The topology
    that the constructor builds is the one of Topology.v; the address
    ranges of the controllers are mapped in AddressMap.v, and the registration
    with the Ruby system is left out. *)

From stdpp Require Import gmap strings.
From S2P Require Import Prelude NetDest CommonTypes Heap MessageBuffer.

Module Network.

Record t := mk {
  m_nodes : Z;
  m_virtual_networks : Z;
  m_control_msg_size : Z;
  m_data_msg_size : Z;
  m_vnet_type_names : list string;
  m_ordered : list bool;
  m_toNetQueues : list (list (option MessageBuffer.t));
  m_fromNetQueues : list (list (option MessageBuffer.t));
  globalToLocalMap : gmap Z Z;
}.
#[global] Instance t_eta : Etaed t := fun n =>
  mk (m_nodes n) (m_virtual_networks n) (m_control_msg_size n) (m_data_msg_size n) (m_vnet_type_names n)
     (m_ordered n) (m_toNetQueues n) (m_fromNetQueues n) (globalToLocalMap n).

Section machines.
Context `{MachineTypes}.

(** [localNodeVersions]: the versions of a machine type, in the order of the links. *)
Definition versions_of (ext_nodes : list MachineID) (mach : Z) : list Z :=
  mach_num <$> filter (fun c => mach_type c = mach) ext_nodes.

(** [emplace] keeps an entry that is already there. *)
Definition emplace (k v : Z) (m : gmap Z Z) : gmap Z Z :=
  match m !! k with Some _ => m | None => <[k := v]> m end.

Definition number_version (mach ver : Z) (st : gmap Z Z * Z) : gmap Z Z * Z :=
  (emplace (MachineType_base_number mach + ver) st.2 st.1, st.2 + 1).

Definition number_machine (ext_nodes : list MachineID) (st : gmap Z Z * Z) (mach : Z) : gmap Z Z * Z :=
  foldl (fun st ver => number_version mach ver st) st (versions_of ext_nodes mach).

Definition number_nodes (ext_nodes : list MachineID) : gmap Z Z * Z :=
  foldl (number_machine ext_nodes) (∅, 0) (seqZ 0 (MachineType_base_level MachineType_NUM)).

Definition new (number_of_virtual_networks control_msg_size data_msg_size block_size_bytes : Z)
    (ext_nodes : list MachineID) : res t :=
  if block_size_bytes <? data_msg_size then Err FatalCalled
  else
    let '(map, nodes) := number_nodes ext_nodes in
    _ ← assert (negb (nodes =? 0));
    _ ← assert (negb (number_of_virtual_networks =? 0));
    let vnets := Z.to_nat number_of_virtual_networks in
    Ok (mk nodes number_of_virtual_networks control_msg_size (u32 (data_msg_size + control_msg_size))
           (replicate vnets EmptyString) (replicate vnets false)
           (replicate (Z.to_nat nodes) []) (replicate (Z.to_nat nodes) []) map).

End machines.

Definition MessageSizeType_to_int (n : t) (size_type : MessageSizeType) : res Z :=
  match size_type with
  | MessageSizeType_Control | MessageSizeType_Request_Control | MessageSizeType_Reissue_Control
  | MessageSizeType_Response_Control | MessageSizeType_Writeback_Control | MessageSizeType_Broadcast_Control
  | MessageSizeType_Multicast_Control | MessageSizeType_Forwarded_Control | MessageSizeType_Invalidate_Control
  | MessageSizeType_Unblock_Control | MessageSizeType_Persistent_Control | MessageSizeType_Completion_Control =>
      Ok (m_control_msg_size n)
  | MessageSizeType_Data | MessageSizeType_Response_Data | MessageSizeType_ResponseLocal_Data
  | MessageSizeType_ResponseL2hit_Data | MessageSizeType_Writeback_Data => Ok (m_data_msg_size n)
  | MessageSizeType_Undefined => Err PanicCalled
  end.

Definition getLocalNodeID (global_id : Z) (n : t) : res Z :=
  match globalToLocalMap n !! global_id with Some l => Ok l | None => Err AssertFail end.

Definition checkNetworkAllocation (local_id : Z) (ordered : bool) (network_num : Z) (vnet_type : string) (n : t) : res t :=
  if m_nodes n <=? local_id then Err FatalCalled
  else if m_virtual_networks n <=? u32 network_num then Err FatalCalled
  else
    o ← (if ordered then vset (m_ordered n) network_num true else Ok (m_ordered n));
    names ← vset (m_vnet_type_names n) network_num vnet_type;
    Ok (n <| m_ordered := o |> <| m_vnet_type_names := names |>).

(** Extends a vector of queues with null pointers, and stores a buffer. *)
Definition put_queue (network_num : Z) (b : MessageBuffer.t) (q : list (option MessageBuffer.t)) : res (list (option MessageBuffer.t)) :=
  vset (q ++ replicate (Z.to_nat (network_num + 1 - zlength q)) None) network_num (Some b).

Definition setToNetQueue (global_id : Z) (ordered : bool) (network_num : Z) (vnet_type : string) (b : MessageBuffer.t) (n : t) : res t :=
  local_id ← getLocalNodeID global_id n;
  n ← checkNetworkAllocation local_id ordered network_num vnet_type n;
  q ← valterM (put_queue network_num b) (m_toNetQueues n) local_id;
  Ok (n <| m_toNetQueues := q |>).

Definition setFromNetQueue (global_id : Z) (ordered : bool) (network_num : Z) (vnet_type : string) (b : MessageBuffer.t) (n : t) : res t :=
  local_id ← getLocalNodeID global_id n;
  n ← checkNetworkAllocation local_id ordered network_num vnet_type n;
  q ← valterM (put_queue network_num b) (m_fromNetQueues n) local_id;
  Ok (n <| m_fromNetQueues := q |>).

End Network.

(** ** The counters of GarnetNetwork *)

Module GarnetStats.

(** Statistics are exact numbers. *)
Record t := mk {
  m_packets_received : list Z;
  m_packets_injected : list Z;
  m_packet_network_latency : list Z;
  m_packet_queueing_latency : list Z;
  m_flits_received : list Z;
  m_flits_injected : list Z;
  m_flit_network_latency : list Z;
  m_flit_queueing_latency : list Z;
  m_total_hops : Z;
  m_data_traffic_distribution : list (list Z);
  m_ctrl_traffic_distribution : list (list Z);
  m_next_packet_id : Z;
}.
#[global] Instance t_eta : Etaed t := fun s =>
  mk (m_packets_received s) (m_packets_injected s) (m_packet_network_latency s) (m_packet_queueing_latency s)
     (m_flits_received s) (m_flits_injected s) (m_flit_network_latency s) (m_flit_queueing_latency s) (m_total_hops s)
     (m_data_traffic_distribution s) (m_ctrl_traffic_distribution s) (m_next_packet_id s).

(** The part of [regStats] that sizes the vectors. *)
Definition new (virtual_networks routers : Z) : t :=
  let v := replicate (Z.to_nat virtual_networks) 0 in
  let d := replicate (Z.to_nat routers) (replicate (Z.to_nat routers) 0) in
  mk v v v v v v v v 0 d d 0.

Definition increment_injected_packets (vnet : Z) (s : t) : res t :=
  l ← valter Z.succ (m_packets_injected s) vnet; Ok (s <| m_packets_injected := l |>).
Definition increment_received_packets (vnet : Z) (s : t) : res t :=
  l ← valter Z.succ (m_packets_received s) vnet; Ok (s <| m_packets_received := l |>).
Definition increment_packet_network_latency (latency vnet : Z) (s : t) : res t :=
  l ← valter (Z.add latency) (m_packet_network_latency s) vnet; Ok (s <| m_packet_network_latency := l |>).
Definition increment_packet_queueing_latency (latency vnet : Z) (s : t) : res t :=
  l ← valter (Z.add latency) (m_packet_queueing_latency s) vnet; Ok (s <| m_packet_queueing_latency := l |>).
Definition increment_injected_flits (vnet : Z) (s : t) : res t :=
  l ← valter Z.succ (m_flits_injected s) vnet; Ok (s <| m_flits_injected := l |>).
Definition increment_received_flits (vnet : Z) (s : t) : res t :=
  l ← valter Z.succ (m_flits_received s) vnet; Ok (s <| m_flits_received := l |>).
Definition increment_flit_network_latency (latency vnet : Z) (s : t) : res t :=
  l ← valter (Z.add latency) (m_flit_network_latency s) vnet; Ok (s <| m_flit_network_latency := l |>).
Definition increment_flit_queueing_latency (latency vnet : Z) (s : t) : res t :=
  l ← valter (Z.add latency) (m_flit_queueing_latency s) vnet; Ok (s <| m_flit_queueing_latency := l |>).
Definition increment_total_hops (hops : Z) (s : t) : t := s <| m_total_hops ::= (fun h => h + hops) |>.

Definition update_traffic_distribution (vnet_type : VNET_type) (route : RouteInfo) (s : t) : res t :=
  if bool_decide (vnet_type = DATA_VNET_) then
    d ← valterM (fun row => valter Z.succ row (dest_router route)) (m_data_traffic_distribution s) (src_router route);
    Ok (s <| m_data_traffic_distribution := d |>)
  else
    d ← valterM (fun row => valter Z.succ row (dest_router route)) (m_ctrl_traffic_distribution s) (src_router route);
    Ok (s <| m_ctrl_traffic_distribution := d |>).

(** [m_next_packet_id++]. *)
Definition getNextPacketID (s : t) : res (Z * t) :=
  n ← iadd (m_next_packet_id s) 1; Ok (m_next_packet_id s, s <| m_next_packet_id := n |>).

End GarnetStats.
