(* ===== verification/Link.v ===== *)
(** * Link: network links and credit links

    NetworkLink.hh/.cc.  A link takes a flit from the queue of its source
    at every clock edge and hands it to its consumer after its latency;
    a CreditLink is a NetworkLink that carries credits.  The source queue
    belongs to the source object and is passed to [wakeup]; the tick at
    which the consumer is to be woken up is part of its result. *)

From S2P Require Import Prelude NetDest CommonTypes Flit Clock.

Module NetworkLink.

Record t := mk {
  m_id : Z;
  m_type : link_type;
  m_latency : Z;
  m_link_utilized : Z;
  m_vc_load : list Z;
  m_virt_nets : Z;
  linkBuffer : flitBuffer.t;
  mVnets : list Z;
  bitWidth : Z;
  em : Clocked.t;
  consumer : Consumer.t;
}.
#[global] Instance t_eta : Etaed t := fun l =>
  mk (m_id l) (m_type l) (m_latency l) (m_link_utilized l) (m_vc_load l) (m_virt_nets l)
     (linkBuffer l) (mVnets l) (bitWidth l) (em l) (consumer l).

Definition new (link_id link_latency virt_nets width clk_period : Z) (supported_vnets : list Z) : t :=
  mk link_id NUM_LINK_TYPES_ link_latency 0 [] virt_nets flitBuffer.new supported_vnets width
     (Clocked.new clk_period) Consumer.new.

Definition setType (type : link_type) (l : t) : t := l <| m_type := type |>.

(** [m_vc_load.resize(...)]. *)
Definition setVcsPerVnet (consumerVcs : Z) (l : t) : t :=
  l <| m_vc_load ::= resize (Z.to_nat (u32 (m_virt_nets l * consumerVcs))) 0 |>.

Definition isReady (curTime : Z) (l : t) : bool := flitBuffer.isReady curTime (linkBuffer l).
Definition peekLink (l : t) : res flit.t := flitBuffer.peekTopFlit (linkBuffer l).
Definition consumeLink (l : t) : res (flit.t * t) :=
  r ← flitBuffer.getTopFlit (linkBuffer l); Ok (r.1, l <| linkBuffer := r.2 |>).

(** The assertions on a flit that enters a typed link. *)
Definition flit_fits (l : t) (f : flit.t) : bool :=
  bool_decide (m_type l = NUM_LINK_TYPES_) ||
  ((flit.m_width f =? bitWidth l) &&
   bool_decide (flit.m_vnet f ∈ mVnets l \/ mVnets l = [])).

(** Returns the link, the source queue and the tick at which the consumer
    is scheduled. *)
Definition wakeup (curTick : Z) (l : t) (link_srcQueue : flitBuffer.t)
    : res (t * flitBuffer.t * option Z) :=
  _ ← assert (curTick =? Clocked.clockEdge curTick 0 (em l));
  '(l, q, ev) ←
    (if flitBuffer.isReady curTick link_srcQueue then
       '(t_flit, q) ← flitBuffer.getTopFlit link_srcQueue;
       _ ← assert (flit_fits l t_flit);
       let finish := Clocked.clockEdge curTick (m_latency l) (em l) in
       let t_flit := flit.set_time finish t_flit in
       load ← valter (fun n => u32 (n + 1)) (m_vc_load l) (flit.m_vc t_flit);
       Ok (l <| linkBuffer ::= flitBuffer.insert t_flit |>
             <| m_link_utilized ::= (fun n => u32 (n + 1)) |>
             <| m_vc_load := load |>, q, Some finish)
     else Ok (l, link_srcQueue, None));
  if flitBuffer.isEmpty q then Ok (l, q, ev)
  else
    c ← Consumer.scheduleEvent (em l) curTick 1 (consumer l);
    Ok (l <| consumer := c |>, q, ev).

Definition resetStats (l : t) : t :=
  l <| m_vc_load := replicate (length (m_vc_load l)) 0 |> <| m_link_utilized := 0 |>.

Definition functionalRead (rd : flit.t -> bool) (l : t) : bool :=
  flitBuffer.functionalRead rd (linkBuffer l).
Definition functionalWrite (wr : flit.t -> bool) (l : t) : Z :=
  flitBuffer.functionalWrite wr (linkBuffer l).

End NetworkLink.
