(* ===== verification/NetworkBridge.v ===== *)
(** * NetworkBridge: clock crossings and serializers

    NetworkBridge.hh/.cc.  A bridge sits between a link and a router or a
    network interface.  It adds the latency of a clock domain crossing, and
    when the widths of its two sides differ it splits flits for the narrow
    side or merges them for the wide one.  Its co-bridge carries the credits
    of the opposite direction and is told how many narrow flits stand for
    one wide flit, so that it merges or splits the credits alike.

    A bridge is a CreditLink; the link it is attached to ([nLink]), the clock
    of its consumer and its source queue are arguments.  An operation
    returns the bridge, the ticks at which its consumer is scheduled and the
    calls of [neutralize] on the co-bridge. *)

From S2P Require Import Prelude CFloat NetDest CommonTypes Flit Clock Link.

(** [CDCType] of GarnetLink.py. *)
Inductive CDCType := LINK_OBJECT | OBJECT_LINK.
#[global] Instance CDCType_eq_dec : EqDecision CDCType.
Proof. solve_decision. Defined.

Module NetworkBridge.

Record t := mk {
  link : NetworkLink.t;
  enCdc : bool;
  enSerDes : bool;
  mType : CDCType;
  cdcLatency : Z;
  serDesLatency : Z;
  lastScheduledAt : Z;
  lenBuffer : list Z;
  sizeSent : list Z;
  flitsSent : list Z;
  extraCredit : list (list Z);
}.
#[global] Instance t_eta : Etaed t := fun b =>
  mk (link b) (enCdc b) (enSerDes b) (mType b) (cdcLatency b) (serDesLatency b) (lastScheduledAt b)
     (lenBuffer b) (sizeSent b) (flitsSent b) (extraCredit b).

(** The wiring of the constructor is [GarnetNetwork]'s. *)
Definition new (base : NetworkLink.t) (vtype : CDCType) (cdc_latency serdes_latency : Z) : t :=
  mk base true true vtype cdc_latency serdes_latency 0 [] [] [] [].

Definition setVcsPerVnet (consumerVcs : Z) (nLink : NetworkLink.t) (b : t) : t * NetworkLink.t :=
  let n := Z.to_nat (u32 (consumerVcs * NetworkLink.m_virt_nets (link b))) in
  (b <| link ::= NetworkLink.setVcsPerVnet consumerVcs |>
     <| lenBuffer ::= resize n 0 |> <| sizeSent ::= resize n 0 |>
     <| flitsSent ::= resize n 0 |> <| extraCredit ::= resize n [] |>,
   NetworkLink.setVcsPerVnet consumerVcs nLink).

(** The pointer to the co-bridge is kept by the owner of the two. *)
Definition initBridge (cdc_en serdes_en : bool) (b : t) : t :=
  b <| enCdc := cdc_en |> <| enSerDes := serdes_en |>.

Definition neutralize (vc eCredit : Z) (b : t) : res t :=
  e ← valter (fun q => q ++ [eCredit]) (extraCredit b) vc;
  Ok (b <| extraCredit := e |>).

(** [front] of an empty [std::queue] is undefined. *)
Definition queue_front (q : list Z) : res Z :=
  match q with [] => Err Undefined | x :: _ => Ok x end.

Section wakeup.
(** The clock of [link_consumer->getObject()] and the current tick. *)
Context (consumer_clock : Clocked.t) (curTick : Z).

Definition scheduleFlit (t_flit : flit.t) (latency : Z) (b : t) : t * Z :=
  let totLatency := if enCdc b then latency + cdcLatency b else latency in
  let sendTime := Clocked.clockEdge curTick totLatency consumer_clock in
  let nextAvailTick := lastScheduledAt b + Clocked.clockPeriod consumer_clock in
  let sendTime := Z.max nextAvailTick sendTime in
  (b <| link ::= (fun l => l <| NetworkLink.linkBuffer ::= flitBuffer.insert (flit.set_time sendTime t_flit) |>) |>
     <| lastScheduledAt := sendTime |>, sendTime).

Definition target_width (nLink : NetworkLink.t) (b : t) : Z :=
  match mType b with
  | OBJECT_LINK => NetworkLink.bitWidth nLink
  | LINK_OBJECT => NetworkLink.bitWidth (link b)
  end.

Definition cur_width (nLink : NetworkLink.t) (b : t) : Z :=
  match mType b with
  | OBJECT_LINK => NetworkLink.bitWidth (link b)
  | LINK_OBJECT => NetworkLink.bitWidth nLink
  end.

(** [floor((float)a/(float)b)] and [ceil((float)a/(float)b)]. *)
Definition floor_of (a b : Z) : res Z := to_int_floor (F32.div (F32.of_Z a) (F32.of_Z b)).
Definition ceil_of (a b : Z) : res Z := to_int_ceil (F32.div (F32.of_Z a) (F32.of_Z b)).

(** The flits that can be made of a flit received by the deserializer,
    [flitPossible], and how many flits they stand for, [num_flits]. *)
Definition collect (cur target : Z) (t_flit : flit.t) (b : t) : res (Z * Z * t) :=
  let vc := flit.m_vc t_flit in
  if bool_decide (flit.m_type t_flit = CREDIT_) then
    len ← valter Z.succ (lenBuffer b) vc;
    q ← vget (extraCredit b) vc;
    front ← queue_front q;
    _ ← assert (negb (front =? 0));
    n ← vget len vc;
    if n =? front then
      e ← vset (extraCredit b) vc (tail q);
      len ← vset len vc 0;
      Ok (1, 0, b <| extraCredit := e |> <| lenBuffer := len |>)
    else Ok (0, 0, b <| lenBuffer := len |>)
  else
    sent ← vget (sizeSent b) vc;
    fsent ← vget (flitsSent b) vc;
    let num_flits := flit.m_id t_flit + 1 - fsent in
    if flit.is_tail t_flit then
      flitPossible ← ceil_of (flit.msgSize t_flit - sent) target;
      _ ← assert (flitPossible <? 2);
      fs ← vset (flitsSent b) vc 0;
      ss ← vset (sizeSent b) vc 0;
      Ok (flitPossible, num_flits, b <| flitsSent := fs |> <| sizeSent := ss |>)
    else
      flitPossible ← floor_of ((flit.m_id t_flit + 1) * cur - sent) target;
      _ ← assert (flitPossible <? 2);
      if flitPossible =? 0 then Ok (flitPossible, num_flits, b)
      else
        ss ← vset (sizeSent b) vc (sent + target);
        fs ← vset (flitsSent b) vc (flit.m_id t_flit + 1);
        Ok (flitPossible, num_flits, b <| sizeSent := ss |> <| flitsSent := fs |>).

Definition deserialize (cur target : Z) (t_flit : flit.t) (b : t) : res (t * list Z * list (Z * Z)) :=
  let vc := flit.m_vc t_flit in
  '(flitPossible, num_flits, b) ← collect cur target t_flit b;
  if flitPossible =? 0 then Ok (b, [], [])
  else
    len ← vget (lenBuffer b) vc;
    fl ← flit_deserialize len num_flits target t_flit;
    lens ← vset (lenBuffer b) vc 0;
    let '(b, tick) := scheduleFlit fl (serDesLatency b) (b <| lenBuffer := lens |>) in
    Ok (b, [tick], if bool_decide (flit.m_type t_flit = CREDIT_) then [] else [(vc, num_flits)]).

(** The number of flits the serializer makes of a flit. *)
Definition parts (cur target : Z) (t_flit : flit.t) (b : t) : res (Z * t) :=
  let vc := flit.m_vc t_flit in
  if bool_decide (flit.m_type t_flit = CREDIT_) then
    q ← vget (extraCredit b) vc;
    front ← queue_front q;
    _ ← assert (negb (front =? 0));
    e ← vset (extraCredit b) vc (tail q);
    Ok (front, b <| extraCredit := e |>)
  else if bool_decide (flit.m_type t_flit = HEAD_ \/ flit.m_type t_flit = BODY_) then
    sent ← vget (sizeSent b) vc;
    flitPossible ← floor_of ((flit.m_id t_flit + 1) * cur - sent) target;
    if flitPossible =? 0 then Ok (flitPossible, b)
    else
      ss ← vset (sizeSent b) vc (sent + flitPossible * target);
      fs ← valter (fun n => n + flitPossible) (flitsSent b) vc;
      Ok (flitPossible, b <| sizeSent := ss |> <| flitsSent := fs |>)
  else
    sent ← vget (sizeSent b) vc;
    flitPossible ← ceil_of (flit.msgSize t_flit - sent) target;
    ss ← vset (sizeSent b) vc 0;
    fs ← vset (flitsSent b) vc 0;
    Ok (flitPossible, b <| sizeSent := ss |> <| flitsSent := fs |>).

Definition serialize (cur target : Z) (t_flit : flit.t) (b : t) : res (t * list Z * list (Z * Z)) :=
  let vc := flit.m_vc t_flit in
  '(flitPossible, b) ← parts cur target t_flit b;
  _ ← assert (0 <? flitPossible);
  '(b, ticks) ← for_ (Z.to_nat flitPossible) 0 (fun i '(b, ticks) =>
      fl ← flit_serialize i flitPossible target t_flit;
      let '(b, tick) := scheduleFlit fl (serDesLatency b) b in
      Ok (b, ticks ++ [tick])) (b, []);
  Ok (b, ticks, if bool_decide (flit.m_type t_flit = CREDIT_) then [] else [(vc, flitPossible)]).

Definition flitisizeAndSend (nLink : NetworkLink.t) (t_flit : flit.t) (b : t) : res (t * list Z * list (Z * Z)) :=
  if enSerDes b then
    let target := target_width nLink b in
    let cur := cur_width nLink b in
    _ ← assert (negb (target =? cur));
    if cur <? target then deserialize cur target t_flit b else serialize cur target t_flit b
  else
    let '(b, tick) := scheduleFlit t_flit 0 b in Ok (b, [tick], []).

Definition wakeup (nLink : NetworkLink.t) (link_srcQueue : flitBuffer.t) (b : t)
    : res (t * flitBuffer.t * list Z * list (Z * Z)) :=
  '(b, q, ticks, calls) ←
    (if flitBuffer.isReady curTick link_srcQueue then
       '(t_flit, q) ← flitBuffer.getTopFlit link_srcQueue;
       '(b, ticks, calls) ← flitisizeAndSend nLink t_flit b;
       Ok (b, q, ticks, calls)
     else Ok (b, link_srcQueue, [], []));
  if flitBuffer.isEmpty q then Ok (b, q, ticks, calls)
  else
    c ← Consumer.scheduleEvent (NetworkLink.em (link b)) curTick 1 (NetworkLink.consumer (link b));
    Ok (b <| link ::= (fun l => l <| NetworkLink.consumer := c |>) |>, q, ticks, calls).

End wakeup.

(** Flits waiting in the bridge. *)
Definition buffered (b : t) : list flit.t := flitBuffer.m_buffer (NetworkLink.linkBuffer (link b)).

End NetworkBridge.
