(* ===== verification/GarnetLink.v ===== *)
(** * GarnetLink: links of the network and what they are made of

    GarnetLink.hh/.cc.  An internal link carries flits one way and credits
    the other way, an external link does so in both directions; at either
    end of a link a pair of bridges may stand between the link and the
    object.  A [Line] is one direction of one of these: the bridge at the
    sender, the link and the bridge at the receiver. *)

From S2P Require Import Prelude CFloat NetDest CommonTypes Flit Clock Link NetworkBridge.

(** ** Lines *)

Record Line := mkLine {
  ln_near : option NetworkBridge.t;
  ln_link : NetworkLink.t;
  ln_far : option NetworkBridge.t;
}.
#[global] Instance Line_eta : Etaed Line := fun l => mkLine (ln_near l) (ln_link l) (ln_far l).

(** The link objects the sender writes to and the receiver reads from. *)
Definition sender_end (l : Line) : NetworkLink.t :=
  match ln_near l with Some b => NetworkBridge.link b | None => ln_link l end.
Definition receiver_end (l : Line) : NetworkLink.t :=
  match ln_far l with Some b => NetworkBridge.link b | None => ln_link l end.

(** [setVcsPerVnet] is virtual: a bridge passes the call on to its link. *)
Definition resize_sender (vcs : Z) (l : Line) : Line :=
  match ln_near l with
  | Some b => let '(b, k) := NetworkBridge.setVcsPerVnet vcs (ln_link l) b in mkLine (Some b) k (ln_far l)
  | None => l <| ln_link ::= NetworkLink.setVcsPerVnet vcs |>
  end.
Definition resize_receiver (vcs : Z) (l : Line) : Line :=
  match ln_far l with
  | Some b => let '(b, k) := NetworkBridge.setVcsPerVnet vcs (ln_link l) b in mkLine (ln_near l) k (Some b)
  | None => l <| ln_link ::= NetworkLink.setVcsPerVnet vcs |>
  end.

(** A bridge pointer that is used must not be null. *)
Definition not_null {A} (p : option A) : res A :=
  match p with Some x => Ok x | None => Err AssertFail end.

(** The bridge at one end of a line, if it is enabled; using a null pointer is undefined. *)
Definition bridge_at (en : bool) (p : option NetworkBridge.t) : res (option NetworkBridge.t) :=
  if en then match p with Some b => Ok (Some b) | None => Err Undefined end else Ok None.

Definition initBridges (en cdc serdes : bool) (netb credb : option NetworkBridge.t)
    : res (option NetworkBridge.t * option NetworkBridge.t) :=
  if en then
    n ← not_null netb;
    c ← not_null credb;
    Ok (Some (NetworkBridge.initBridge cdc serdes n), Some (NetworkBridge.initBridge cdc serdes c))
  else Ok (netb, credb).

(** ** Internal links *)

Module GarnetIntLink.

Record t := mk {
  m_network_link : NetworkLink.t;
  m_credit_link : NetworkLink.t;
  srcBridgeEn : bool;
  dstBridgeEn : bool;
  srcSerdesEn : bool;
  dstSerdesEn : bool;
  srcCdcEn : bool;
  dstCdcEn : bool;
  srcNetBridge : option NetworkBridge.t;
  dstNetBridge : option NetworkBridge.t;
  srcCredBridge : option NetworkBridge.t;
  dstCredBridge : option NetworkBridge.t;
}.
#[global] Instance t_eta : Etaed t := fun g =>
  mk (m_network_link g) (m_credit_link g) (srcBridgeEn g) (dstBridgeEn g) (srcSerdesEn g) (dstSerdesEn g)
     (srcCdcEn g) (dstCdcEn g) (srcNetBridge g) (dstNetBridge g) (srcCredBridge g) (dstCredBridge g).

(** The constructor takes over the bridges only where they are enabled. *)
Definition new (network_link credit_link : NetworkLink.t) (src_cdc dst_cdc src_serdes dst_serdes : bool)
    (src_net_bridge src_cred_bridge dst_net_bridge dst_cred_bridge : option NetworkBridge.t) : t :=
  let src := src_cdc || src_serdes in
  let dst := dst_cdc || dst_serdes in
  mk network_link credit_link src dst src_serdes dst_serdes src_cdc dst_cdc
     (if src then src_net_bridge else None) (if dst then dst_net_bridge else None)
     (if src then src_cred_bridge else None) (if dst then dst_cred_bridge else None).

Definition init (g : t) : res t :=
  '(sn, sc) ← initBridges (srcBridgeEn g) (srcCdcEn g) (srcSerdesEn g) (srcNetBridge g) (srcCredBridge g);
  '(dn, dc) ← initBridges (dstBridgeEn g) (dstCdcEn g) (dstSerdesEn g) (dstNetBridge g) (dstCredBridge g);
  Ok (g <| srcNetBridge := sn |> <| srcCredBridge := sc |> <| dstNetBridge := dn |> <| dstCredBridge := dc |>).

(** Flits go from the source to the destination, credits back. *)
Definition flit_line (g : t) : res Line :=
  src ← bridge_at (srcBridgeEn g) (srcNetBridge g);
  dst ← bridge_at (dstBridgeEn g) (dstNetBridge g);
  Ok (mkLine src (m_network_link g) dst).
Definition credit_line (g : t) : res Line :=
  src ← bridge_at (srcBridgeEn g) (srcCredBridge g);
  dst ← bridge_at (dstBridgeEn g) (dstCredBridge g);
  Ok (mkLine dst (m_credit_link g) src).

End GarnetIntLink.

(** ** External links *)

Inductive LinkDirection := LinkDirection_In | LinkDirection_Out.

Module GarnetExtLink.

(** The arrays of two are functions of the direction. *)
Record t := mk {
  m_network_links : LinkDirection -> NetworkLink.t;
  m_credit_links : LinkDirection -> NetworkLink.t;
  extBridgeEn : bool;
  intBridgeEn : bool;
  extSerdesEn : bool;
  intSerdesEn : bool;
  extCdcEn : bool;
  intCdcEn : bool;
  extNetBridge : LinkDirection -> option NetworkBridge.t;
  intNetBridge : LinkDirection -> option NetworkBridge.t;
  extCredBridge : LinkDirection -> option NetworkBridge.t;
  intCredBridge : LinkDirection -> option NetworkBridge.t;
}.
#[global] Instance t_eta : Etaed t := fun g =>
  mk (m_network_links g) (m_credit_links g) (extBridgeEn g) (intBridgeEn g) (extSerdesEn g) (intSerdesEn g)
     (extCdcEn g) (intCdcEn g) (extNetBridge g) (intNetBridge g) (extCredBridge g) (intCredBridge g).

Definition new (network_links credit_links : LinkDirection -> NetworkLink.t) (ext_cdc int_cdc ext_serdes int_serdes : bool)
    (ext_net_bridge ext_cred_bridge int_net_bridge int_cred_bridge : LinkDirection -> option NetworkBridge.t) : t :=
  let ext := ext_cdc || ext_serdes in
  let int := int_cdc || int_serdes in
  mk network_links credit_links ext int ext_serdes int_serdes ext_cdc int_cdc
     (if ext then ext_net_bridge else fun _ => None) (if int then int_net_bridge else fun _ => None)
     (if ext then ext_cred_bridge else fun _ => None) (if int then int_cred_bridge else fun _ => None).

(** The bridges of both directions of one end. *)
Definition initBoth (en cdc serdes : bool) (netb credb : LinkDirection -> option NetworkBridge.t)
    : res ((LinkDirection -> option NetworkBridge.t) * (LinkDirection -> option NetworkBridge.t)) :=
  '(n0, c0) ← initBridges en cdc serdes (netb LinkDirection_In) (credb LinkDirection_In);
  '(n1, c1) ← initBridges en cdc serdes (netb LinkDirection_Out) (credb LinkDirection_Out);
  Ok (fun d => match d with LinkDirection_In => n0 | LinkDirection_Out => n1 end,
      fun d => match d with LinkDirection_In => c0 | LinkDirection_Out => c1 end).

Definition init (g : t) : res t :=
  '(en, ec) ← initBoth (extBridgeEn g) (extCdcEn g) (extSerdesEn g) (extNetBridge g) (extCredBridge g);
  '(n, c) ← initBoth (intBridgeEn g) (intCdcEn g) (intSerdesEn g) (intNetBridge g) (intCredBridge g);
  Ok (g <| extNetBridge := en |> <| extCredBridge := ec |> <| intNetBridge := n |> <| intCredBridge := c |>).

(** Into the network flits go from the interface to the router, out of it
    from the router to the interface; credits go the other way. *)
Definition flit_line (d : LinkDirection) (g : t) : res Line :=
  ext ← bridge_at (extBridgeEn g) (extNetBridge g d);
  int ← bridge_at (intBridgeEn g) (intNetBridge g d);
  Ok (match d with
      | LinkDirection_In => mkLine ext (m_network_links g d) int
      | LinkDirection_Out => mkLine int (m_network_links g d) ext
      end).
Definition credit_line (d : LinkDirection) (g : t) : res Line :=
  ext ← bridge_at (extBridgeEn g) (extCredBridge g d);
  int ← bridge_at (intBridgeEn g) (intCredBridge g d);
  Ok (match d with
      | LinkDirection_In => mkLine int (m_credit_links g d) ext
      | LinkDirection_Out => mkLine ext (m_credit_links g d) int
      end).

End GarnetExtLink.
