(* ===== verification/BridgeProofs.v ===== *)
(** * BridgeProofs: serializing and merging packets

    A packet split by a bridge for a narrow link and merged by the bridge
    at the other end comes out as it went in, and so do the credits that
    travel back; the two ends tell their co-bridges the same numbers of
    flits. *)

From S2P Require Import Prelude CFloat FloatExact NetDest CommonTypes Flit Clock Link NetworkBridge.
Import NetworkBridge.

(** ** What a bridge sends *)

(** The bridge has sent [gs]; nothing else changed. *)
Definition emitted (b : t) (gs : list flit.t) (b' : t) : Prop :=
  exists last, b' = b <| link ::= (fun l => l <| NetworkLink.linkBuffer ::= (fun q => q <| flitBuffer.m_buffer ::= (fun fs => fs ++ gs) |>) |>) |>
                      <| lastScheduledAt := last |>.

Lemma emitted_nil b : emitted b [] b.
Proof.
  exists (lastScheduledAt b). destruct b as [[? ? ? ? ? ? [] ? ? ? ?] ? ? ? ? ? ? ? ? ? ?]. unfold update. cbn.
  by rewrite app_nil_r.
Qed.

Lemma emitted_app b gs b' hs b'' : emitted b gs b' -> emitted b' hs b'' -> emitted b (gs ++ hs) b''.
Proof. intros [l1 ->] [l2 ->]. exists l2. unfold update. cbn. by rewrite app_assoc. Qed.

Lemma emitted_buffered b gs b' : emitted b gs b' -> buffered b' = buffered b ++ gs.
Proof. by intros [l ->]. Qed.

Lemma scheduleFlit_emitted clk now f lat b :
  exists b' tick, scheduleFlit clk now f lat b = (b', tick) /\ emitted b [flit.set_time tick f] b'.
Proof. eexists _, _. split; [reflexivity|]. by eexists. Qed.

(** What a flit carries, without the times and marks of its journey. *)
Definition content (f : flit.t) : flit.t :=
  flit.mk (flit.m_width f) (flit.msgSize f) 0 (flit.m_id f) (flit.m_vnet f) (flit.m_vc f) (flit.m_route f)
    (flit.m_size f) (flit.m_enqueue_time f) 0 0 (flit.m_type f) (flit.m_msg_ptr f) None (flit.src_delay f)
    (I_, 0) (flit.m_is_free f).

Lemma content_set_time tick f : content (flit.set_time tick f) = content f.
Proof. reflexivity. Qed.

(** Flits received one after the other, with the ticks of their arrivals;
    the calls to the co-bridge are collected. *)
Fixpoint feed (clk : Clocked.t) (nLink : NetworkLink.t) (l : list (Z * flit.t)) (b : t) : res (t * list (Z * Z)) :=
  match l with
  | [] => Ok (b, [])
  | (now, f) :: l =>
      '(b, _, calls) ← flitisizeAndSend clk now nLink f b;
      '(b, calls') ← feed clk nLink l b;
      Ok (b, calls ++ calls')
  end.

Lemma feed_app clk nLink l1 l2 b Q :
  safe (feed clk nLink l1 b) (fun '(b1, c1) => safe (feed clk nLink l2 b1) (fun '(b2, c2) => Q (b2, c1 ++ c2))) ->
  safe (feed clk nLink (l1 ++ l2) b) Q.
Proof.
  revert b Q. induction l1 as [|[now f] l1 IH]; intros b Q Hs; cbn [feed app] in *.
  - cbn [safe] in Hs. eapply safe_mono; [exact Hs|]. by intros [b2 c2].
  - apply safe_bind. apply safe_inv in Hs as ([b2 c2] & Hf & Hs).
    apply bind_Ok in Hf as ([[b1 ticks] calls] & -> & Hf). cbn [safe].
    apply bind_Ok in Hf as ([b3 c3] & Hf & [= <- <-]). apply safe_bind, IH. rewrite Hf. cbn [safe].
    eapply safe_mono; [exact Hs|]. intros [b4 c4]. cbn [safe]. by rewrite app_assoc.
Qed.

(** ** Flits of a packet at two widths *)

Section serdes.
(** Messages of [size] bits in flits of [W] bits on the wide side, which
    are [ratio] flits of [w] bits on the narrow side, on channel [vc]. *)
Context (ratio w size vc : Z).
Local Notation W := (ratio * w).
Local Notation n := (divCeil size W).
Local Notation m := (divCeil size w).
Context (Hratio : 2 <= ratio) (Hw : 0 < w) (Hsize : 0 < size) (Hvc : 0 <= vc).
Context (Hsmall : size + W < 2 ^ 24) (HsmallW : W + w < 2 ^ 24).

(** Flit [id] of the packet, at width [width]. *)
Record is_flit (width id : Z) (f : flit.t) : Prop := {
  if_id : flit.m_id f = id;
  if_size : flit.m_size f = divCeil size width;
  if_type : flit.m_type f = flit.type_of id (divCeil size width);
  if_width : flit.m_width f = width;
  if_msgSize : flit.msgSize f = size;
  if_vc : flit.m_vc f = vc;
  if_credit : flit.m_is_free f = None;
}.

(** [f] remade as flit [id] of the packet at another width. *)
Definition remade (width id : Z) (f : flit.t) : flit.t :=
  (flit.new (flit.m_packet_id f) id (flit.m_vc f) (flit.m_vnet f) (flit.m_route f) (divCeil size width)
     (flit.m_msg_ptr f) (flit.msgSize f) width (flit.m_time f))
  <| flit.m_enqueue_time := flit.m_enqueue_time f |> <| flit.src_delay := flit.src_delay f |>.

Lemma remade_is_flit width width' id id' f : is_flit width id f -> is_flit width' id' (remade width' id' f).
Proof. intros []. by split. Qed.

Lemma content_remade width width' id id' f :
  is_flit width id f -> content (remade width id (remade width' id' f)) = content f.
Proof. intros [H1 H2 H3 H4 H5 H6 H7]. unfold content. cbn. by rewrite H1, H2, H3, H4, H7. Qed.

Lemma is_flit_content width id f g : content f = content g -> is_flit width id f -> is_flit width id g.
Proof. intros [= E1 E2 E3 E4 E5 E6 E7 E8 E9 E10 E11 E12] [H1 H2 H3 H4 H5 H6 H7]. split; congruence. Qed.

Lemma remade_content width id f g : content f = content g -> content (remade width id f) = content (remade width id g).
Proof. intros [= E1 E2 E3 E4 E5 E6 E7 E8 E9 E10 E11 E12]. unfold content. cbn. by rewrite E2, E4, E5, E6, E8, E10, E11. Qed.

(** ** Arithmetic of the two widths *)

Lemma narrow_count : (n - 1) * ratio < m <= n * ratio /\ 1 <= n.
Proof.
  assert (HW : 0 < W) by (apply Z.mul_pos_pos; lia).
  pose proof (divCeil_spec size W HW Hsize) as Hn. pose proof (divCeil_spec size w Hw Hsize) as Hm.
  rewrite Z.mul_assoc in Hn. set (N := n) in *. set (M := m) in *. clearbody N M.
  assert ((N - 1) * ratio < M) by (apply (Z.mul_lt_mono_pos_r w); lia).
  assert (M - 1 < N * ratio) by (apply (Z.mul_lt_mono_pos_r w); lia).
  assert (Hpos : 0 < N * ratio) by (apply (Z.mul_lt_mono_pos_r w); lia).
  split; [lia|]. apply (Z.mul_pos_cancel_r _ ratio) in Hpos; lia.
Qed.

(** The narrow flits that flit [i] is split into. *)
Definition share (i : Z) : Z := Z.min ratio (m - i * ratio).

Lemma share_bounds i : 0 <= i < n -> 1 <= share i <= ratio /\ (i < n - 1 -> share i = ratio) /\ i * ratio + share i <= m.
Proof.
  intros Hi. pose proof narrow_count as [Hm Hn]. unfold share.
  pose proof (Z.mul_le_mono_nonneg_r i (n - 1) ratio).
  split; [lia|]. split; [|lia]. intros Hlt. pose proof (Z.mul_le_mono_nonneg_r (i + 1) (n - 1) ratio). lia.
Qed.

Lemma divCeil_exact : divCeil W w = ratio.
Proof.
  pose proof (divCeil_spec W w Hw ltac:(apply Z.mul_pos_pos; lia)) as Hd.
  assert (ratio - 1 < divCeil W w) by (apply (Z.mul_lt_mono_pos_r w); lia).
  assert (divCeil W w - 1 < ratio) by (apply (Z.mul_lt_mono_pos_r w); lia). lia.
Qed.

Lemma divCeil_succ j : 0 <= j -> divCeil (j + 1) ratio = j / ratio + 1.
Proof.
  intros Hj. unfold divCeil. rewrite Z.quot_div_nonneg by lia.
  replace (j + 1 + ratio - 1) with (j + 1 * ratio) by lia. by rewrite Z.div_add by lia.
Qed.

Lemma divCeil_sub a k : 0 <= a - k * w -> 0 <= a -> divCeil (a - k * w) w = divCeil a w - k.
Proof.
  intros Ha Ha'. unfold divCeil. rewrite !Z.quot_div_nonneg by lia.
  replace (a - k * w + w - 1) with (a + w - 1 + - k * w) by lia. rewrite Z.div_add; lia.
Qed.

Lemma widths : w < W /\ ratio <= W /\ m <= size /\ 2 * w <= W.
Proof.
  pose proof (Z.mul_le_mono_nonneg_r 2 ratio w). pose proof (Z.mul_le_mono_nonneg_l 1 w ratio).
  pose proof (divCeil_spec size w Hw Hsize). split_and!; try lia.
  assert (m - 1 < size); [|lia]. apply (Z.mul_lt_mono_pos_r w); [done|].
  pose proof (Z.mul_le_mono_nonneg_l 1 w size). lia.
Qed.

Lemma serialize_remade i k l f : is_flit W i f -> 0 <= i -> 0 <= k -> i * ratio + k < m ->
  flit_serialize k l w f = Ok (remade w (i * ratio + k) f).
Proof.
  intros Hf Hi Hk Hm. destruct widths as (? & ? & ? & ?). unfold flit_serialize, flit.serialize.
  rewrite (if_credit _ _ _ Hf), (if_width _ _ _ Hf), (if_id _ _ _ Hf), (if_msgSize _ _ _ Hf).
  rewrite (proj2 (Z.ltb_lt w W)), divCeil_exact, to_int_divCeil by lia. cbn [mbind res_bind assert].
  rewrite (proj2 (Z.ltb_lt _ m)) by lia. cbn [mbind res_bind assert].
  unfold remade. by rewrite (if_msgSize _ _ _ Hf).
Qed.

Lemma deserialize_remade j l k g : is_flit w j g -> 0 <= j < m ->
  flit_deserialize l k W g = Ok (remade W (j / ratio) g).
Proof.
  intros Hg Hj. destruct widths as (? & ? & ? & ?). pose proof narrow_count as [Hm Hn].
  unfold flit_deserialize, flit.deserialize.
  rewrite (if_credit _ _ _ Hg), (if_width _ _ _ Hg), (if_id _ _ _ Hg), (if_msgSize _ _ _ Hg).
  rewrite (to_int_divCeil W w), divCeil_exact by lia. cbn [mbind res_bind].
  rewrite (to_int_divCeil (j + 1) ratio), divCeil_succ by lia. cbn [mbind res_bind].
  rewrite (to_int_divCeil size W) by lia. cbn [mbind res_bind]. rewrite Z.add_simpl_r.
  assert (j / ratio < n) by (apply Z.div_lt_upper_bound; lia).
  rewrite (proj2 (Z.ltb_lt _ _)) by lia. cbn [mbind res_bind assert].
  unfold remade. by rewrite (if_msgSize _ _ _ Hg).
Qed.

(** ** The state of a bridge *)

(** The sizes tracked for the channel. *)
Record tracks (sent fsent : Z) (b : t) : Prop := {
  tr_size : sizeSent b !! Z.to_nat vc = Some sent;
  tr_flits : flitsSent b !! Z.to_nat vc = Some fsent;
  tr_len : vc < zlength (lenBuffer b);
}.

(** The bridge has sent flits with contents [cs]; its configuration and
    the other channels are as before. *)
Record has_sent (b : t) (cs : list flit.t) (b' : t) : Prop := {
  hs_out : exists gs, buffered b' = buffered b ++ gs /\ content <$> gs = cs;
  hs_config : enSerDes b' = enSerDes b /\ mType b' = mType b /\
    NetworkLink.bitWidth (link b') = NetworkLink.bitWidth (link b);
  hs_others : forall v, v <> Z.to_nat vc -> sizeSent b' !! v = sizeSent b !! v /\
    flitsSent b' !! v = flitsSent b !! v /\ lenBuffer b' !! v = lenBuffer b !! v /\
    extraCredit b' !! v = extraCredit b !! v;
}.

Lemma has_sent_nil b : has_sent b [] b.
Proof. split; [exists []; by rewrite app_nil_r|done|done]. Qed.

Lemma has_sent_app b cs b' cs' b'' : has_sent b cs b' -> has_sent b' cs' b'' -> has_sent b (cs ++ cs') b''.
Proof.
  intros [(gs & Hg & <-) (A1 & A2 & A3) Ho] [(gs' & Hg' & <-) (B1 & B2 & B3) Ho']. split.
  - exists (gs ++ gs'). by rewrite Hg', Hg, app_assoc, fmap_app.
  - split_and!; congruence.
  - intros v Hv. destruct (Ho' v Hv) as (-> & -> & -> & ->). by apply Ho.
Qed.

Lemma emitted_sent b gs b' : emitted b gs b' -> has_sent b (content <$> gs) b'.
Proof. intros [last ->]. split; [by exists gs|done|done]. Qed.

Lemma emitted_tracks s fs b gs b' : emitted b gs b' -> tracks s fs b -> tracks s fs b'.
Proof. intros [last ->] []. by split. Qed.

Lemma send_loop clk now (g : Z -> res flit.t) (fl : Z -> flit.t) k b :
  0 <= k -> (forall i, 0 <= i < k -> g i = Ok (fl i)) ->
  safe (for_ (Z.to_nat k) 0 (fun i '(b, ticks) =>
      f ← g i;
      let '(b, tick) := scheduleFlit clk now f (serDesLatency b) b in
      Ok (b, ticks ++ [tick])) (b, []))
    (fun '(b', _) => exists gs, emitted b gs b' /\ content <$> gs = (fun i => content (fl i)) <$> seqZ 0 k).
Proof.
  intros Hk Hg. eapply safe_mono; [apply (safe_for (fun j '(b', _) => exists gs, emitted b gs b' /\
    content <$> gs = (fun i => content (fl i)) <$> seqZ 0 j))|].
  - exists []. split; [apply emitted_nil|done].
  - intros j [b' ticks] Hj (gs & He & Hc). rewrite Z2Nat.id in Hj by lia.
    rewrite Hg by lia. cbn [mbind res_bind].
    destruct (scheduleFlit_emitted clk now (fl j) (serDesLatency b') b') as (b'' & tick & -> & He').
    cbn [safe]. exists (gs ++ [flit.set_time tick (fl j)]). split; [by eapply emitted_app|].
    rewrite fmap_app, Hc. replace (j + 1) with (Z.of_nat (S (Z.to_nat j))) by lia.
    by rewrite seqZ_S, Z2Nat.id, Z.add_0_l, fmap_app by lia.
  - intros [b' ticks] (gs & He & Hc). exists gs. split; [done|]. by rewrite Z2Nat.id in Hc by lia.
Qed.

Lemma type_of_cases i N : 0 <= i < N -> flit.type_of i N <> CREDIT_ /\
  (flit.type_of i N = HEAD_ \/ flit.type_of i N = BODY_ <-> i <> N - 1).
Proof.
  intros Hi. unfold flit.type_of.
  destruct (Z.eqb_spec N 1), (Z.eqb_spec i 0), (Z.eqb_spec i (N - 1)); split; try done; try lia;
    (split; [intros [?|?]; done || lia|intros; auto]); lia.
Qed.

(** Updating the tracked sizes. *)
Lemma has_sent_track b s fs :
  has_sent b [] (b <| sizeSent ::= <[Z.to_nat vc := s]> |> <| flitsSent ::= <[Z.to_nat vc := fs]> |>).
Proof.
  split; [exists []; by rewrite app_nil_r|done|]. intros v Hv. cbn. by rewrite !list_lookup_insert_ne by done.
Qed.

Lemma tracks_track b s fs s' fs' : tracks s fs b ->
  tracks s' fs' (b <| sizeSent ::= <[Z.to_nat vc := s']> |> <| flitsSent ::= <[Z.to_nat vc := fs']> |>).
Proof.
  intros [Hs Hf Hl]. split; cbn; [| |done]; apply list_lookup_insert_eq; by eapply lookup_lt_Some.
Qed.

Lemma tracks_range s fs b : tracks s fs b ->
  0 <= vc < zlength (sizeSent b) /\ 0 <= vc < zlength (flitsSent b) /\ 0 <= vc < zlength (lenBuffer b).
Proof. intros [Hs%lookup_lt_Some Hf%lookup_lt_Some Hl]. unfold zlength in *. lia. Qed.

(** ** The serializer *)

Lemma parts_spec i f x b : is_flit W i f -> 0 <= i < n -> tracks (i * W) x b ->
  safe (parts W w f b) (fun '(k, b') => k = share i /\ has_sent b [] b' /\
    exists x', tracks (if decide (i = n - 1) then 0 else (i + 1) * W) x' b' /\ (i = n - 1 -> x' = 0)).
Proof.
  intros Hf Hi Htr. pose proof (tracks_range _ _ _ Htr) as (R1 & R2 & R3).
  pose proof (type_of_cases i n Hi) as [Hnc Hhb]. pose proof (share_bounds i Hi) as (S1 & S2 & S3).
  destruct widths as (? & ? & ? & ?). unfold parts, floor_of, ceil_of.
  rewrite (if_type _ _ _ Hf), (if_vc _ _ _ Hf), (if_id _ _ _ Hf), (if_msgSize _ _ _ Hf).
  rewrite bool_decide_eq_false_2 by done. case_bool_decide as Hty.
  - apply Hhb in Hty. rewrite decide_False, S2 by lia.
    apply safe_bind, safe_vget; [done|]. intros s Hs. rewrite (tr_size _ _ _ Htr) in Hs. injection Hs as <-.
    replace ((i + 1) * W - i * W) with W by lia. rewrite floor_div, Z.div_mul by lia. cbn [mbind res_bind].
    rewrite (proj2 (Z.eqb_neq _ _)) by lia.
    apply safe_bind, safe_vset; [done|]. apply safe_bind, safe_valter; [done|]. intros y Hy. cbn [safe].
    split; [done|]. split; [apply has_sent_track|]. eexists. split; [|lia].
    replace ((i + 1) * W) with (i * W + ratio * w) by lia. by eapply tracks_track.
  - assert (i = n - 1) as Hlast by (destruct (decide (i = n - 1)); tauto). rewrite decide_True by done.
    apply safe_bind, safe_vget; [done|]. intros s Hs. rewrite (tr_size _ _ _ Htr) in Hs. injection Hs as <-.
    pose proof (divCeil_spec size W ltac:(lia) Hsize). pose proof (divCeil_spec size w Hw Hsize).
    rewrite ceil_div by lia. cbn [mbind res_bind].
    apply safe_bind, safe_vset; [done|]. apply safe_bind, safe_vset; [done|]. cbn [safe].
    split; [|split; [apply has_sent_track|exists 0; split; [by eapply tracks_track|done]]].
    rewrite Z.mul_assoc, divCeil_sub by lia. pose proof narrow_count. unfold share. subst i. lia.
Qed.

(** The contents of the narrow flits of flit [f], number [i]. *)
Definition narrow (i : Z) (f : flit.t) : list flit.t :=
  (fun k => content (remade w (i * ratio + k) f)) <$> seqZ 0 (share i).

Lemma serialize_spec clk now i f x b : is_flit W i f -> 0 <= i < n -> tracks (i * W) x b ->
  safe (serialize clk now W w f b) (fun '(b', _, calls) => has_sent b (narrow i f) b' /\ calls = [(vc, share i)] /\
    exists x', tracks (if decide (i = n - 1) then 0 else (i + 1) * W) x' b' /\ (i = n - 1 -> x' = 0)).
Proof.
  intros Hf Hi Htr. unfold serialize. apply safe_bind. eapply safe_mono; [by eapply parts_spec|].
  intros [k b1] (-> & Hs1 & x' & Htr' & Hx'). pose proof (share_bounds i Hi) as (S1 & S2 & S3).
  rewrite (proj2 (Z.ltb_lt _ _)) by lia. cbn [mbind res_bind assert safe].
  apply safe_bind. eapply safe_mono; [apply (send_loop _ _ _ (fun k => remade w (i * ratio + k) f)); [lia|]|].
  { intros k Hk. apply serialize_remade; (done || lia). }
  intros [b2 ticks] (gs & He & Hc). cbn [safe].
  rewrite (if_type _ _ _ Hf), (if_vc _ _ _ Hf), bool_decide_eq_false_2 by by apply type_of_cases.
  split; [|split; [done|exists x'; split; [by eapply emitted_tracks|done]]].
  unfold narrow. rewrite <- Hc. apply (has_sent_app _ [] b1); [done|]. by apply emitted_sent.
Qed.

(** ** The deserializer *)

(** The last narrow flit of a wide one. *)
Definition completes (j : Z) : Prop := j = m - 1 \/ (j + 1) mod ratio = 0.
#[local] Instance completes_dec j : Decision (completes j).
Proof. unfold completes. apply _. Defined.

Lemma next_quotient j : 0 <= j -> (j + 1) / ratio = if decide ((j + 1) mod ratio = 0) then j / ratio + 1 else j / ratio.
Proof.
  intros Hj. pose proof (Z.div_mod (j + 1) ratio ltac:(lia)). pose proof (Z.mod_pos_bound (j + 1) ratio ltac:(lia)).
  destruct (decide _) as [E|E].
  - enough ((j + 1) / ratio - 1 = j / ratio) by lia. apply (Z.div_unique _ _ _ (ratio - 1)); lia.
  - apply (Z.div_unique _ _ _ ((j + 1) mod ratio - 1)); lia.
Qed.

(** The sizes tracked after [j] narrow flits. *)
Definition merging (j : Z) (b : t) : Prop := tracks (j / ratio * W) (j / ratio * ratio) b.

Lemma divCeil_one a b : 0 < a <= b -> divCeil a b = 1.
Proof.
  intros Hab. unfold divCeil. rewrite Z.quot_div_nonneg by lia.
  symmetry. apply (Z.div_unique _ _ _ (a - 1)); lia.
Qed.

(** A narrow flit adds [w] bits; a wide flit is full with the last of its
    [ratio] narrow ones. *)
Lemma bits_available j : 0 <= j ->
  0 <= (j + 1) * w - j / ratio * W <= W /\
  ((j + 1) * w - j / ratio * W) / W = if decide ((j + 1) mod ratio = 0) then 1 else 0.
Proof.
  intros Hj. pose proof (Z.div_mod j ratio ltac:(lia)) as Hdm. pose proof (Z.mod_pos_bound j ratio ltac:(lia)) as Hmod.
  set (q := j / ratio) in *. set (c := j mod ratio) in *.
  replace ((j + 1) * w - q * W) with ((c + 1) * w) by (rewrite Hdm; lia).
  pose proof (Z.mul_le_mono_nonneg_r (c + 1) ratio w). split; [lia|]. rewrite Z.div_mul_cancel_r by lia.
  replace (j + 1) with (c + 1 + q * ratio) by lia. rewrite Z.mod_add by lia.
  destruct (decide (c + 1 = ratio)) as [E|E].
  - by rewrite E, Z.mod_same, Z.div_same by lia.
  - by rewrite Z.mod_small, Z.div_small, decide_False by lia.
Qed.

Lemma collect_spec j g b : is_flit w j g -> 0 <= j < m -> merging j b ->
  safe (collect w W g b) (fun '(k, num, b') => k = (if decide (completes j) then 1 else 0) /\
    num = j + 1 - j / ratio * ratio /\ has_sent b [] b' /\
    merging (if decide (j = m - 1) then 0 else j + 1) b').
Proof.
  intros Hg Hj Htr. pose proof (tracks_range _ _ _ Htr) as (R1 & R2 & R3).
  pose proof (type_of_cases j m Hj) as [Hnc _]. pose proof (flit.type_of_tail j m Hj) as Htail.
  destruct widths as (? & ? & ? & ?). unfold collect, floor_of, ceil_of, flit.is_tail.
  rewrite (if_type _ _ _ Hg), (if_vc _ _ _ Hg), (if_id _ _ _ Hg), (if_msgSize _ _ _ Hg).
  rewrite bool_decide_eq_false_2 by done.
  apply safe_bind, safe_vget; [done|]. intros s Hs. rewrite (tr_size _ _ _ Htr) in Hs. injection Hs as <-.
  apply safe_bind, safe_vget; [done|]. intros fs Hfs. rewrite (tr_flits _ _ _ Htr) in Hfs. injection Hfs as <-.
  pose proof (divCeil_spec size w Hw Hsize) as Hmw. pose proof (bits_available j ltac:(lia)) as [Hbits Hfull].
  case_bool_decide as Hty.
  - apply Htail in Hty. rewrite !(decide_True (P := j = m - 1)), (decide_True (P := completes j)) by (done || by left).
    replace ((j + 1) * w) with (m * w) in Hbits by (f_equal; lia).
    assert (j / ratio * W <= j * w) by (rewrite Z.mul_assoc; apply Z.mul_le_mono_nonneg_r; [lia|];
      rewrite Z.mul_comm; apply Z.mul_div_le; lia).
    rewrite ceil_div, divCeil_one by lia. cbn [mbind res_bind]. change (1 <? 2) with true. cbn [mbind res_bind assert].
    apply safe_bind, safe_vset; [done|]. apply safe_bind, safe_vset; [done|]. cbn [safe].
    split_and!; [done|done|apply (has_sent_track b 0 0)|]. unfold merging. rewrite Z.div_0_l, !Z.mul_0_l by lia.
    by apply (tracks_track b (j / ratio * W) (j / ratio * ratio) 0 0).
  - assert (j <> m - 1) as Hlast by tauto. rewrite (decide_False (P := j = m - 1)) by done.
    rewrite floor_div, Hfull by lia. cbn [mbind res_bind]. unfold merging. rewrite next_quotient by lia.
    destruct (decide ((j + 1) mod ratio = 0)) as [E|E].
    + rewrite (decide_True (P := completes j)) by by right. change (1 <? 2) with true. cbn [assert mbind res_bind]. change (1 =? 0) with false. cbv iota.
      apply safe_bind, safe_vset; [done|]. apply safe_bind, safe_vset; [done|]. cbn [safe].
      split_and!; [done|done|apply has_sent_track|].
      pose proof (next_quotient j ltac:(lia)) as Hnext. rewrite decide_True in Hnext by done.
      replace (j / ratio * W + W) with ((j / ratio + 1) * W) by lia.
      replace (j + 1) with ((j / ratio + 1) * ratio) by (pose proof (Z.div_mod (j + 1) ratio); lia).
      by eapply tracks_track.
    + rewrite (decide_False (P := completes j)) by by intros [?|?]. change (0 <? 2) with true. cbn [assert mbind res_bind].
      change (0 =? 0) with true. cbn [safe].
      split_and!; [done|done|apply has_sent_nil|done].
Qed.

Lemma deserialize_spec clk now j g b : is_flit w j g -> 0 <= j < m -> merging j b ->
  safe (deserialize clk now w W g b) (fun '(b', _, calls) =>
    has_sent b (if decide (completes j) then [content (remade W (j / ratio) g)] else []) b' /\
    calls = (if decide (completes j) then [(vc, j + 1 - j / ratio * ratio)] else []) /\
    merging (if decide (j = m - 1) then 0 else j + 1) b').
Proof.
  intros Hg Hj Htr. unfold deserialize. apply safe_bind. eapply safe_mono; [by eapply collect_spec|].
  intros [[k num] b1] (-> & -> & Hs & Htr'). pose proof (tracks_range _ _ _ Htr') as (_ & _ & R3).
  destruct (decide (completes j)) as [Hc|Hc]; [|done]. cbn [Z.eqb]. rewrite (if_vc _ _ _ Hg).
  apply safe_bind, safe_vget; [done|]. intros len _.
  rewrite (deserialize_remade j) by done. cbn [mbind res_bind].
  apply safe_bind, safe_vset; [done|].
  edestruct scheduleFlit_emitted as (b2 & tick & -> & He). cbn [safe].
  rewrite (if_type _ _ _ Hg), bool_decide_eq_false_2 by by apply type_of_cases.
  split; [|split; [done|]].
  - apply (has_sent_app _ [] b1); [done|]. apply (has_sent_app _ [] (b1 <| lenBuffer ::= <[Z.to_nat vc := 0]> |>)).
    + split; [exists []; by rewrite app_nil_r|done|]. intros v Hv. cbn. by rewrite !list_lookup_insert_ne by done.
    + by apply emitted_sent in He.
  - eapply emitted_tracks; [done|]. destruct Htr'. split; [done..|]. cbn. by rewrite zlength_insert.
Qed.

(** ** Packets *)

(** The two sides of a bridge. *)
Definition between (cur target : Z) (nLink : NetworkLink.t) (b : t) : Prop :=
  enSerDes b = true /\ cur_width nLink b = cur /\ target_width nLink b = target.

Lemma between_sent cur target nLink b cs b' : has_sent b cs b' -> between cur target nLink b -> between cur target nLink b'.
Proof. intros [_ (E1 & E2 & E3) _]. unfold between, cur_width, target_width. by rewrite E1, E2, E3. Qed.

Lemma flitisize_serialize clk now nLink f cur target b : target < cur -> between cur target nLink b ->
  flitisizeAndSend clk now nLink f b = serialize clk now cur target f b.
Proof.
  intros Hlt (E1 & E2 & E3). unfold flitisizeAndSend. rewrite E1, E2, E3.
  rewrite (proj2 (Z.eqb_neq _ _)), (proj2 (Z.ltb_ge _ _)) by lia. done.
Qed.

Lemma flitisize_deserialize clk now nLink f cur target b : cur < target -> between cur target nLink b ->
  flitisizeAndSend clk now nLink f b = deserialize clk now cur target f b.
Proof.
  intros Hlt (E1 & E2 & E3). unfold flitisizeAndSend. rewrite E1, E2, E3.
  rewrite (proj2 (Z.eqb_neq _ _)), (proj2 (Z.ltb_lt _ _)) by lia. done.
Qed.

(** Flits [i], [i + 1], ... of the packet up to the last. *)
Fixpoint packet_from (i : Z) (fs : list flit.t) : Prop :=
  match fs with
  | [] => i = n
  | f :: fs => is_flit W i f /\ packet_from (i + 1) fs
  end.

Fixpoint narrow_packet (i : Z) (fs : list flit.t) : list flit.t :=
  match fs with
  | [] => []
  | f :: fs => narrow i f ++ narrow_packet (i + 1) fs
  end.

Lemma packet_from_le i fs : packet_from i fs -> i + zlength fs = n.
Proof.
  revert i. induction fs as [|f fs IH]; intros i; unfold zlength; cbn; [lia|]. intros [_ Hp%IH]. unfold zlength in Hp. lia.
Qed.

Definition shares (i : Z) : list (Z * Z) := (fun i => (vc, share i)) <$> seqZ i (n - i).

Lemma shares_cons i : i < n -> shares i = (vc, share i) :: shares (i + 1).
Proof.
  intros Hi. unfold shares. rewrite seqZ_cons by lia. cbn. f_equal. f_equal. f_equal; lia.
Qed.

Lemma split_packet clk nLink l : forall i x b, 0 <= i -> l <> [] -> packet_from i l.*2 -> between W w nLink b ->
  tracks (i * W) x b ->
  safe (feed clk nLink l b) (fun '(b', calls) => has_sent b (narrow_packet i l.*2) b' /\ calls = shares i /\ tracks 0 0 b').
Proof.
  induction l as [|[now f] l IH]; intros i x b Hi Hl Hp Hb Htr; [done|]. cbn [feed narrow_packet fmap list_fmap snd] in *.
  destruct Hp as [Hf Hp]. pose proof (packet_from_le _ _ Hp) as Hn. pose proof (zlength_nonneg (l.*2)).
  rewrite (flitisize_serialize _ _ _ _ W w) by (done || apply widths). apply safe_bind. eapply safe_mono; [eapply serialize_spec; (done || lia)|].
  intros [[b1 ticks] calls] (Hs & -> & x' & Htr' & Hx'). cbn [safe]. apply safe_bind. rewrite shares_cons by lia.
  destruct l as [|p l].
  - cbn [feed safe packet_from fmap list_fmap narrow_packet] in *. assert (i = n - 1) by lia. rewrite decide_True in Htr' by done. rewrite Hx' in Htr' by done.
    split; [by rewrite app_nil_r|]. split; [|done]. unfold shares. by rewrite Hp, Z.sub_diag.
  - rewrite decide_False in Htr' by (unfold zlength in Hn; cbn [length fmap list_fmap] in Hn; lia).
    eapply safe_mono; [eapply (IH (i + 1) x'); [lia|done|done|by eapply between_sent|done]|].
    intros [b2 calls] (Hs' & -> & Htr''). cbn [safe]. split; [|done]. by eapply has_sent_app.
Qed.

(** Where the narrow flits of flit [i] stand among all. *)
Lemma narrow_place i k : 0 <= i < n -> 0 <= k < share i -> let j := i * ratio + k in
  0 <= j < m /\ j / ratio = i /\ (completes j <-> k = share i - 1) /\ (j = m - 1 <-> i = n - 1 /\ k = share i - 1).
Proof.
  intros Hi Hk j. pose proof (share_bounds i Hi) as (S1 & S2 & S3). pose proof narrow_count as [Hm Hn].
  assert (Hj : 0 <= j < m) by (unfold j; pose proof (Z.mul_nonneg_nonneg i ratio); lia).
  assert (Hlast : j = m - 1 <-> i = n - 1 /\ k = share i - 1).
  { unfold j. split.
    - intros E. assert (i = n - 1); [|unfold share in *; lia].
      destruct (decide (i < n - 1)) as [Hlt|]; [|lia]. pose proof (Z.mul_le_mono_nonneg_r (i + 1) (n - 1) ratio). lia.
    - intros [-> ->]. unfold share in *. lia. }
  split; [done|]. split; [unfold j; rewrite Z.div_add_l, Z.div_small by lia; lia|]. split; [|done].
  assert (Hmod : (j + 1) mod ratio = 0 <-> k + 1 = ratio).
  { unfold j. replace (i * ratio + k + 1) with (k + 1 + i * ratio) by lia. rewrite Z.mod_add by lia.
    destruct (decide (k + 1 = ratio)) as [->|]; [by rewrite Z.mod_same by lia|]. rewrite Z.mod_small by lia. lia. }
  unfold completes. rewrite Hmod, Hlast. unfold share in *. unfold j in *.
  destruct (decide (i < n - 1)) as [Hlt|Hge]; [rewrite S2 in * by done; lia|]. assert (i = n - 1) by lia. subst i. lia.
Qed.

Lemma merge_flit clk nLink i f l : forall k b, is_flit W i f -> 0 <= i < n -> 0 <= k < share i ->
  content <$> l.*2 = (fun k => content (remade w (i * ratio + k) f)) <$> seqZ k (share i - k) ->
  between w W nLink b -> merging (i * ratio + k) b ->
  safe (feed clk nLink l b) (fun '(b', calls) => has_sent b [content f] b' /\ calls = [(vc, share i)] /\
    merging (if decide (i = n - 1) then 0 else (i + 1) * ratio) b').
Proof.
  induction l as [|[now g] l IH]; intros k b Hf Hi Hk Hc Hb Hm; rewrite seqZ_cons in Hc by lia; [done|].
  cbn [fmap list_fmap snd] in Hc. pose proof (f_equal (hd g) Hc) as Hg. apply (f_equal tail) in Hc.
  cbn [hd tail feed] in Hg, Hc |- *. destruct (narrow_place i k Hi Hk) as (Hj & Hdiv & Hcomp & Hlast).
  assert (Hg' : is_flit w (i * ratio + k) g).
  { apply (is_flit_content w _ (remade w (i * ratio + k) f)); [by symmetry|]. by eapply remade_is_flit. }
  rewrite (flitisize_deserialize _ _ _ _ w W) by (done || apply widths). apply safe_bind. eapply safe_mono; [by eapply deserialize_spec|].
  intros [[b1 ticks] calls] (Hs & -> & Hm'). cbn [safe]. apply safe_bind. rewrite Hdiv in *.
  destruct (decide (k = share i - 1)) as [Hend|Hend].
  - replace (Z.pred (share i - k)) with 0 in Hc by lia. destruct l; [|done]. cbn [feed safe].
    assert (Hco : completes (i * ratio + k)) by tauto.
    rewrite decide_True in Hs by done. rewrite decide_True by done. split; [|split].
    + by rewrite (remade_content _ _ _ _ Hg), (content_remade _ _ _ _ f) in Hs.
    + rewrite app_nil_r. do 2 f_equal. lia.
    + destruct (decide (i = n - 1)); [by rewrite decide_True in Hm' by tauto|].
      rewrite decide_False in Hm' by tauto. replace ((i + 1) * ratio) with (i * ratio + k + 1); [done|].
      pose proof (share_bounds i Hi) as (_ & S2 & _). rewrite S2 in Hend by lia. lia.
  - rewrite decide_False in Hm' by tauto. assert (Hco : ~ completes (i * ratio + k)) by tauto.
    rewrite decide_False in Hs by done. rewrite (decide_False (P := completes _)) by done.
    rewrite <- Z.add_assoc in Hm'.
    eapply safe_mono; [eapply (IH (k + 1)); try done; [lia| |by eapply between_sent]|].
    + rewrite Hc. do 2 f_equal; lia.
    + intros [b2 calls] (Hs' & -> & Hm''). cbn [safe]. split; [|done]. by apply (has_sent_app _ [] b1).
Qed.

Lemma merge_packet clk nLink fs : forall i l b, 0 <= i -> fs <> [] -> packet_from i fs ->
  content <$> l.*2 = narrow_packet i fs -> between w W nLink b -> merging (i * ratio) b ->
  safe (feed clk nLink l b) (fun '(b', calls) => has_sent b (content <$> fs) b' /\ calls = shares i /\ merging 0 b').
Proof.
  induction fs as [|f fs IH]; intros i l b Hi Hfs Hp Hc Hb Hm; [done|]. cbn [narrow_packet] in Hc.
  destruct Hp as [Hf Hp]. pose proof (packet_from_le _ _ Hp) as Hn. pose proof (zlength_nonneg fs).
  apply fmap_app_inv in Hc as (l1' & l2' & Hc1 & Hc2 & Hl). apply fmap_app_inv in Hl as (l1 & l2 & -> & -> & ->).
  pose proof (share_bounds i ltac:(lia)) as (S1 & _). apply feed_app.
  eapply safe_mono; [apply (merge_flit clk nLink i f l1 0); try done; [lia|lia| |by rewrite Z.add_0_r]|].
  { rewrite <- Hc1, Z.sub_0_r. done. }
  intros [b1 c1] (Hs & -> & Hm1). cbn [safe]. rewrite shares_cons by lia. destruct fs as [|f' fs].
  - cbn [packet_from narrow_packet] in *. destruct l2; [|done]. rewrite decide_True in Hm1 by lia.
    cbn [feed safe]. split; [done|]. split; [|done]. unfold shares. by rewrite Hp, Z.sub_diag.
  - rewrite decide_False in Hm1 by (unfold zlength in Hn; cbn [length] in Hn; lia).
    eapply safe_mono; [apply (IH (i + 1)); try done; [lia|by eapply between_sent]|].
    intros [b2 c2] (Hs' & -> & Hm2). cbn [safe]. split; [|done]. by apply (has_sent_app _ [content f] b1).
Qed.

(** The narrow packet is a packet: its flits are numbered and typed. *)
Lemma narrow_ids i f : 0 <= i < n -> is_flit W i f ->
  flit.m_id <$> narrow i f = seqZ (i * ratio) (share i) /\
  Forall (fun g => is_flit w (flit.m_id g) g) (narrow i f).
Proof.
  intros Hi Hf. unfold narrow. split.
  - rewrite <- list_fmap_compose, <- (Z.add_0_r (i * ratio)), <- fmap_add_seqZ.
    apply list_fmap_ext. intros k x _. cbn. by rewrite Z.add_0_r.
  - apply list.Forall_fmap, list.Forall_forall. intros k _. cbn.
    apply (is_flit_content w _ (remade w (i * ratio + k) f)); [done|]. by eapply remade_is_flit.
Qed.

Lemma narrow_packet_ids fs : forall i, 0 <= i -> fs <> [] -> packet_from i fs ->
  flit.m_id <$> narrow_packet i fs = seqZ (i * ratio) (m - i * ratio) /\
  Forall (fun g => is_flit w (flit.m_id g) g) (narrow_packet i fs).
Proof.
  induction fs as [|f fs IH]; intros i Hi Hfs Hp; [done|]. destruct Hp as [Hf Hp]. cbn [narrow_packet].
  pose proof (packet_from_le _ _ Hp) as Hn. pose proof (zlength_nonneg fs).
  destruct (narrow_ids i f ltac:(lia) Hf) as [Hids Hall]. pose proof (share_bounds i ltac:(lia)) as (S1 & S2 & S3).
  rewrite fmap_app, Hids, list.Forall_app. destruct fs as [|f' fs].
  - cbn [packet_from narrow_packet fmap list_fmap] in *. rewrite app_nil_r. split; [|done].
    f_equal. unfold share. pose proof narrow_count. assert (i = n - 1) as -> by lia. lia.
  - destruct (IH (i + 1)) as [-> ?]; [lia|done|done|]. split; [|done].
    rewrite S2 in * by (unfold zlength in Hn; cbn [length] in Hn; lia).
    replace (m - i * ratio) with (ratio + (m - (i + 1) * ratio)) by lia.
    rewrite seqZ_app by lia. do 2 f_equal. lia.
Qed.

End serdes.

(** C22: A packet split by a bridge for a narrower link and merged by the
    bridge at the other end comes out as it went in, when the wide side is an
    exact multiple, [ratio] times, of the narrow one (with other widths an
    assertion can fail, Example uneven_widths_fail) and packets and widths have
    fewer than 2^24 bits.  Whatever the times at which the flits arrive, the
    splitting bridge takes the whole packet without failing and sends a packet
    of [divCeil size w] narrow flits, numbered and typed in order; whatever the
    links in between do to the times of those flits, the merging bridge sends
    the flits of the original packet: the same widths, sizes, numbers, virtual
    networks and channels, types, routes, messages, times of creation and
    delays at the source.  The current time and stage, the output port and the
    copy of the number in [m_packet_id] are not compared.  Both bridges tell
    their co-bridges the same numbers of flits, both are ready for the next
    packet, and other channels are untouched. *)
Theorem serdes_roundtrip ratio w size vc clk clk' nLink nLink' l b b' :
  2 <= ratio -> 0 < w -> 0 < size -> 0 <= vc -> size + ratio * w < 2 ^ 24 -> ratio * w + w < 2 ^ 24 ->
  packet_from ratio w size vc 0 l.*2 ->
  between (ratio * w) w nLink b -> tracks vc 0 0 b -> between w (ratio * w) nLink' b' -> tracks vc 0 0 b' ->
  exists b1 gs calls, feed clk nLink l b = Ok (b1, calls) /\ buffered b1 = buffered b ++ gs /\
    has_sent vc b (content <$> gs) b1 /\ tracks vc 0 0 b1 /\
    flit.m_id <$> gs = seqZ 0 (divCeil size w) /\ Forall (fun g => is_flit size vc w (flit.m_id g) g) gs /\
    forall l', content <$> l'.*2 = content <$> gs ->
      exists b1' fs, feed clk' nLink' l' b' = Ok (b1', calls) /\ buffered b1' = buffered b' ++ fs /\
        has_sent vc b' (content <$> fs) b1' /\ tracks vc 0 0 b1' /\ content <$> fs = content <$> l.*2.
Proof.
  intros Hr Hw Hs Hvc H1 H2 Hp Hb Ht Hb' Ht'.
  assert (Hne : l.*2 <> []).
  { intros E. rewrite E in Hp. pose proof (narrow_count ratio w size). cbn [packet_from] in Hp. lia. }
  assert (Hsplit : safe (feed clk nLink l b) (fun '(b1, calls) => has_sent vc b (narrow_packet ratio w size 0 l.*2) b1 /\
    calls = shares ratio w size vc 0 /\ tracks vc 0 0 b1)).
  { apply (split_packet ratio w size vc Hr Hw Hs Hvc H1 H2 clk nLink l 0 0 b); try done. by intros ->. }
  apply safe_inv in Hsplit as ([b1 calls] & Hf & Hsent & -> & Ht1).
  destruct (hs_out _ _ _ _ Hsent) as (gs & Hout & Hgs). exists b1, gs, (shares ratio w size vc 0).
  destruct (narrow_packet_ids ratio w size vc Hr Hw Hs l.*2 0) as [Hids Hall]; [done..|].
  rewrite <- Hgs in Hids, Hall, Hsent. rewrite Z.mul_0_l, Z.sub_0_r, <- list_fmap_compose in Hids.
  do 4 (split; [done|]). split; [done|]. split.
  { rewrite list.Forall_fmap in Hall. eapply list.Forall_impl; [exact Hall|]. intros g Hg.
    by apply (is_flit_content size vc w _ (content g)). }
  intros l' Hl'. rewrite Hgs in Hl'.
  assert (Hmerge : safe (feed clk' nLink' l' b') (fun '(b1', calls) => has_sent vc b' (content <$> l.*2) b1' /\
    calls = shares ratio w size vc 0 /\ merging ratio w vc 0 b1')).
  { apply (merge_packet ratio w size vc Hr Hw Hs Hvc H1 H2 clk' nLink' l.*2 0 l' b'); done. }
  apply safe_inv in Hmerge as ([b1' calls'] & Hf' & Hsent' & -> & Ht1').
  destruct (hs_out _ _ _ _ Hsent') as (fs & Hout' & Hfs). exists b1', fs. rewrite Hfs. do 3 (split; [done|]). split; [|done].
  unfold merging in Ht1'. rewrite Z.div_0_l, !Z.mul_0_l in Ht1' by lia. done.
Qed.

(** A packet of 72 bits in five flits of 16 bits through a link of 8 bits. *)
Definition demo_link (width : Z) : NetworkLink.t := NetworkLink.new 0 1 1 width 500 [].

Definition demo_bridge (vtype : CDCType) (nLink : NetworkLink.t) : t :=
  (setVcsPerVnet 2 nLink (new (demo_link 16) vtype 1 1)).1.

Definition demo_packet : list (Z * flit.t) :=
  (fun f => (500 * flit.m_id f, flit.set_src_delay 0 f)) <$> flit.packet 0 1 0 RouteInfo_new 5 7 72 16 0.

Lemma serdes_roundtrip_witness :
  exists b1 gs calls b1' fs,
    feed (Clocked.new 250) (demo_link 8) demo_packet (demo_bridge OBJECT_LINK (demo_link 8)) = Ok (b1, calls) /\
    buffered b1 = gs /\ length gs = 9%nat /\ calls = [(1, 2); (1, 2); (1, 2); (1, 2); (1, 1)] /\
    feed (Clocked.new 500) (demo_link 8) ((fun g => (flit.m_time g, g)) <$> gs)
      (demo_bridge LINK_OBJECT (demo_link 8)) = Ok (b1', calls) /\
    content <$> fs = content <$> demo_packet.*2.
Proof.
  destruct (serdes_roundtrip 2 8 72 1 (Clocked.new 250) (Clocked.new 500) (demo_link 8) (demo_link 8) demo_packet
    (demo_bridge OBJECT_LINK (demo_link 8)) (demo_bridge LINK_OBJECT (demo_link 8)))
    as (b1 & gs & calls & H1 & H2 & _ & _ & H3 & _ & H4); [lia..| | | | | |].
  - repeat (split; [split; reflexivity|]). reflexivity.
  - repeat split; reflexivity.
  - split; reflexivity.
  - repeat split; reflexivity.
  - split; reflexivity.
  - destruct (H4 ((fun g => (flit.m_time g, g)) <$> gs)) as (b1' & fs & H5 & _ & _ & _ & H6).
    { f_equal. rewrite <- list_fmap_compose. apply list_fmap_id. }
    exists b1, gs, calls, b1', fs. split; [exact H1|]. split; [exact H2|]. split; [|split; [|split; [exact H5|exact H6]]].
    + rewrite <- (length_fmap flit.m_id), H3. reflexivity.
    + clear - H1. vm_compute in H1. injection H1 as _ <-. reflexivity.
Defined.

(** When the wide side is not a multiple of the narrow one, the numbers
    [flit::serialize] gives to the narrow flits do not fit the parts the
    bridge sends, and its assertion fails: 48 bits from flits of 24 bits to
    flits of 16 bits. *)
Example uneven_widths_fail :
  feed (Clocked.new 250) (demo_link 16)
    ((fun f => (500 * flit.m_id f, f)) <$> flit.packet 0 1 0 RouteInfo_new 2 7 48 24 0)
    (setVcsPerVnet 2 (demo_link 16) (new (demo_link 24) OBJECT_LINK 1 1)).1 = Err AssertFail.
Proof. reflexivity. Qed.
