(* ===== verification/BridgeCredits.v ===== *)
(** * BridgeCredits: credits across a pair of bridges

    For every wide flit that was split into [k] narrow ones the co-bridges
    were told [k].  A credit for the wide flit becomes [k] credits on the
    narrow side, and [k] credits of the narrow side become one again; the
    signal that frees the channel travels with the last one. *)

From S2P Require Import Prelude CFloat FloatExact NetDest CommonTypes Flit Clock Link NetworkBridge BridgeProofs.
Import NetworkBridge.

Section credits.
Context (vc : Z) (Hvc : 0 <= vc).

(** A credit for the channel. *)
Record credit (free : bool) (f : flit.t) : Prop := {
  cr_type : flit.m_type f = CREDIT_;
  cr_vc : flit.m_vc f = vc;
  cr_free : flit.m_is_free f = Some free;
}.

Lemma credit_content free f : credit free (content f) <-> credit free f.
Proof. split; intros []; by split. Qed.

Lemma credits_content flags fs : Forall2 credit flags (content <$> fs) <-> Forall2 credit flags fs.
Proof.
  rewrite Forall2_fmap_r. split; apply Forall2_impl; intros b f; apply credit_content.
Qed.

(** The signals of the [k] narrow credits of one wide credit. *)
Definition split_flags (k : Z) (free : bool) : list bool := (fun i => (i + 1 =? k) && free) <$> seqZ 0 k.

(** The numbers told to the bridge that are still to be used, and the
    narrow credits collected so far. *)
Definition owes (ks : list Z) (b : t) : Prop := extraCredit b !! Z.to_nat vc = Some ks.
Definition collected (j : Z) (b : t) : Prop := lenBuffer b !! Z.to_nat vc = Some j.

Lemma owes_range ks b : owes ks b -> 0 <= vc < zlength (extraCredit b).
Proof. intros H%lookup_lt_Some. unfold zlength. lia. Qed.

Lemma collected_range j b : collected j b -> 0 <= vc < zlength (lenBuffer b).
Proof. intros H%lookup_lt_Some. unfold zlength. lia. Qed.

(** The bridge has sent credits with the given signals. *)
Definition credits_sent (b : t) (flags : list bool) (b' : t) : Prop :=
  exists cs, has_sent vc b cs b' /\ Forall2 credit flags cs.

Lemma credits_sent_app b fl b' fl' b'' :
  credits_sent b fl b' -> credits_sent b' fl' b'' -> credits_sent b (fl ++ fl') b''.
Proof.
  intros (cs & H1 & H2) (cs' & H3 & H4). exists (cs ++ cs').
  split; [by eapply has_sent_app|by apply Forall2_app].
Qed.

(** ** Telling the numbers *)

Lemma neutralize_owes k ks b : owes ks b ->
  safe (neutralize vc k b) (fun b' => owes (ks ++ [k]) b' /\ has_sent vc b [] b' /\ lenBuffer b' = lenBuffer b).
Proof.
  intros Ho. pose proof (owes_range _ _ Ho). unfold neutralize. apply safe_bind, safe_valter; [done|].
  intros q Hq. unfold owes in Ho. rewrite Ho in Hq. injection Hq as <-. cbn [safe]. split_and!.
  - apply list_lookup_insert_eq. by eapply lookup_lt_Some.
  - split; [exists []; by rewrite app_nil_r|done|]. intros v Hv. cbn. by rewrite list_lookup_insert_ne.
  - done.
Qed.

Lemma neutralize_all ks : forall ks0 b, owes ks0 b ->
  safe (for_each ks (neutralize vc) b) (fun b' => owes (ks0 ++ ks) b' /\ has_sent vc b [] b' /\ lenBuffer b' = lenBuffer b).
Proof.
  induction ks as [|k ks IH]; intros ks0 b Ho; cbn [for_each].
  - cbn [safe]. rewrite app_nil_r. split_and!; [done|apply has_sent_nil|done].
  - apply safe_bind. eapply safe_mono; [by apply neutralize_owes|]. intros b1 (Ho1 & Hs1 & Hl1).
    eapply safe_mono; [by apply IH|]. intros b2 (Ho2 & Hs2 & Hl2). rewrite <- app_assoc in Ho2.
    split_and!; [done|by apply (has_sent_app _ _ [] b1)|congruence].
Qed.

(** ** Splitting *)

Lemma parts_credit cur target k ks free f b : credit free f -> owes (k :: ks) b -> 0 < k ->
  safe (parts cur target f b) (fun '(k', b') => k' = k /\ has_sent vc b [] b' /\ owes ks b').
Proof.
  intros [Hty Hv Hfree] Ho Hk. pose proof (owes_range _ _ Ho). unfold parts. rewrite Hty, Hv.
  rewrite bool_decide_eq_true_2 by done. unfold owes in Ho.
  apply safe_bind, safe_vget; [done|]. intros q Hq. rewrite Ho in Hq. injection Hq as <-.
  cbn [queue_front mbind res_bind tail]. rewrite (proj2 (Z.eqb_neq _ _)) by lia. cbn [negb assert mbind res_bind].
  apply safe_bind, safe_vset; [done|]. cbn [safe]. split; [done|]. split.
  - split; [exists []; by rewrite app_nil_r|done|]. intros v Hne. cbn. by rewrite list_lookup_insert_ne.
  - apply list_lookup_insert_eq. by eapply lookup_lt_Some.
Qed.

Lemma split_credit clk now cur target k ks free f b :
  credit free f -> owes (k :: ks) b -> 0 < k ->
  safe (serialize clk now cur target f b) (fun '(b', _, calls) =>
    credits_sent b (split_flags k free) b' /\ owes ks b' /\ calls = []).
Proof.
  intros Hf Ho Hk. unfold serialize. apply safe_bind. eapply safe_mono; [by eapply parts_credit|].
  intros [k' b1] (-> & Hs1 & Ho1). destruct Hf as [Hty Hv Hfree].
  rewrite (proj2 (Z.ltb_lt _ _)) by done. cbn [mbind res_bind assert].
  apply safe_bind. eapply safe_mono; [apply (send_loop _ _ _ (fun i => Credit.serialize i k target f free)); [lia|]|].
  { intros i _. unfold flit_serialize. by rewrite Hfree. }
  intros [b2 ticks] (gs & He & Hgs). cbn [safe]. rewrite Hty. split_and!; [|by destruct He as [? ->]|done].
  exists (content <$> gs). split; [by apply (has_sent_app _ _ [] b1), emitted_sent|].
  rewrite Hgs. unfold split_flags. rewrite Forall2_fmap. apply Forall_Forall2_diag, list.Forall_forall.
  intros i _. rewrite credit_content. by split.
Qed.

(** ** Merging *)

Lemma collect_credit cur target k ks j free f b :
  credit free f -> owes (k :: ks) b -> collected j b -> 0 <= j < k ->
  safe (collect cur target f b) (fun '(possible, num, b') => has_sent vc b [] b' /\
    if decide (j + 1 = k) then possible = 1 /\ owes ks b' /\ collected 0 b'
    else possible = 0 /\ owes (k :: ks) b' /\ collected (j + 1) b').
Proof.
  intros [Hty Hv Hfree] Ho Hj Hjk. pose proof (owes_range _ _ Ho). pose proof (collected_range _ _ Hj).
  unfold owes, collected in Ho, Hj. unfold collect. rewrite Hty, Hv. rewrite bool_decide_eq_true_2 by done.
  apply safe_bind, safe_valter; [done|]. intros x Hx. rewrite Hj in Hx. injection Hx as <-.
  apply safe_bind, safe_vget; [done|]. intros q Hq. rewrite Ho in Hq. injection Hq as <-.
  cbn [queue_front mbind res_bind tail]. rewrite (proj2 (Z.eqb_neq _ _)) by lia. cbn [negb assert mbind res_bind].
  pose proof (lookup_lt_Some _ _ _ Hj) as Hlt. pose proof (lookup_lt_Some _ _ _ Ho) as Hlt'.
  apply safe_bind, safe_vget; [by rewrite zlength_insert|]. intros y Hy.
  rewrite list_lookup_insert_eq in Hy by done. injection Hy as <-. unfold Z.succ.
  destruct (Z.eqb_spec (j + 1) k) as [E|E].
  - apply safe_bind, safe_vset; [done|].
    apply safe_bind, safe_vset; [by rewrite zlength_insert|]. cbn [safe]. rewrite decide_True by done. split; [|split; [done|]].
    + split; [exists []; by rewrite app_nil_r|done|]. intros v Hne. cbn. by rewrite !list_lookup_insert_ne.
    + split; apply list_lookup_insert_eq; by rewrite ?length_insert.
  - cbn [safe]. rewrite decide_False by done. split; [|split; [done|]].
    + split; [exists []; by rewrite app_nil_r|done|]. intros v Hne. cbn. by rewrite !list_lookup_insert_ne.
    + split; [done|]. by apply list_lookup_insert_eq.
Qed.

Lemma merge_credit clk now cur target k ks j free f b :
  credit free f -> owes (k :: ks) b -> collected j b -> 0 <= j < k ->
  safe (deserialize clk now cur target f b) (fun '(b', _, calls) => calls = [] /\
    if decide (j + 1 = k) then credits_sent b [free] b' /\ owes ks b' /\ collected 0 b'
    else has_sent vc b [] b' /\ owes (k :: ks) b' /\ collected (j + 1) b').
Proof.
  intros Hf Ho Hj Hjk. unfold deserialize. apply safe_bind. eapply safe_mono; [by eapply collect_credit|].
  intros [[possible num] b1] [Hs1 Hres]. destruct Hf as [Hty Hv Hfree].
  destruct (decide (j + 1 = k)); destruct Hres as (-> & Ho1 & Hj1); [|done]. cbn [Z.eqb]. rewrite Hv.
  pose proof (collected_range _ _ Hj1). apply safe_bind, safe_vget; [done|]. intros len _.
  unfold flit_deserialize. rewrite Hfree. cbn [mbind res_bind]. apply safe_bind, safe_vset; [done|].
  edestruct scheduleFlit_emitted as (b2 & tick & -> & He). cbn [safe]. rewrite Hty. split; [done|].
  split_and!; [|by destruct He as [? ->]|].
  - eexists. split.
    + apply (has_sent_app _ _ [] b1); [done|]. apply (has_sent_app _ _ [] (b1 <| lenBuffer ::= <[Z.to_nat vc := 0]> |>));
        [|by apply emitted_sent].
      split; [exists []; by rewrite app_nil_r|done|]. intros v Hne. cbn. by rewrite list_lookup_insert_ne.
    + constructor; [|constructor]. unfold Credit.deserialize. destruct free; by split.
  - destruct He as [? ->]. unfold collected in *. apply list_lookup_insert_eq. by eapply lookup_lt_Some.
Qed.

(** ** Sequences of credits *)

Lemma split_credits clk nLink cur target rest ks : forall flags l b, target < cur -> between cur target nLink b ->
  Forall (fun k => 0 < k) ks -> length flags = length ks -> Forall2 credit flags l.*2 -> owes (ks ++ rest) b ->
  safe (feed clk nLink l b) (fun '(b', calls) =>
    credits_sent b (concat (zip_with split_flags ks flags)) b' /\ owes rest b' /\ calls = []).
Proof.
  induction ks as [|k ks IH]; intros flags l b Hlt Hb Hks Hlen Hl Ho.
  - destruct flags; [|done]. apply Forall2_nil_inv_l, fmap_nil_inv in Hl as ->. cbn [feed safe].
    split; [exists []; split; [apply has_sent_nil|done]|done].
  - destruct flags as [|free flags]; [done|]. apply list.Forall_cons in Hks as [Hk Hks].
    apply Forall2_cons_inv_l in Hl as (f & fs & Hf & Hfs & Hl). destruct l as [|[now f'] l]; [done|].
    cbn in Hl. injection Hl as -> <-. cbn [feed zip_with concat].
    rewrite (flitisize_serialize _ _ _ _ cur target) by done.
    apply safe_bind. eapply safe_mono; [by eapply split_credit|]. intros [[b1 ticks] calls] (Hs & Ho1 & ->).
    cbn [safe]. apply safe_bind. destruct Hs as (cs & Hs & Hcs).
    eapply safe_mono; [eapply IH; [done|by eapply between_sent|done|by injection Hlen|done|done]|].
    intros [b2 calls] (Hs2 & Ho2 & ->). cbn [safe]. split; [|done].
    eapply credits_sent_app; [by exists cs|done].
Qed.

Lemma merge_group clk nLink cur target k ks free l : forall j b, cur < target -> between cur target nLink b ->
  0 <= j < k -> Forall2 credit ((fun i => (i + 1 =? k) && free) <$> seqZ j (k - j)) l.*2 ->
  owes (k :: ks) b -> collected j b ->
  safe (feed clk nLink l b) (fun '(b', calls) =>
    credits_sent b [free] b' /\ owes ks b' /\ collected 0 b' /\ calls = []).
Proof.
  induction l as [|[now f] l IH]; intros j b Hlt Hb Hj Hl Ho Hc; rewrite seqZ_cons in Hl by lia; cbn [fmap list_fmap snd] in Hl.
  { by apply Forall2_nil_inv_r in Hl. }
  apply Forall2_cons_1 in Hl as [Hf Hl]. cbn [feed]. rewrite (flitisize_deserialize _ _ _ _ cur target) by done.
  apply safe_bind. eapply safe_mono; [by eapply merge_credit|]. intros [[b1 ticks] calls] [-> Hres].
  cbn [safe]. apply safe_bind. destruct (decide (j + 1 = k)) as [E|E].
  - rewrite E, Z.eqb_refl in Hres. destruct Hres as (Hs & Ho1 & Hc1).
    replace (Z.pred (k - j)) with 0 in Hl by lia. apply Forall2_nil_inv_l, fmap_nil_inv in Hl as ->.
    cbn [feed safe]. done.
  - destruct Hres as (Hs & Ho1 & Hc1). replace (Z.pred (k - j)) with (k - (j + 1)) in Hl by lia.
    eapply safe_mono; [eapply (IH (j + 1)); [done|by eapply between_sent|lia|done|done|done]|].
    intros [b2 calls] ((cs & Hs2 & Hcs) & Ho2 & Hc2 & ->). cbn [safe]. split; [|done].
    exists cs. split; [|done]. by apply (has_sent_app _ _ [] b1).
Qed.

Lemma merge_credits clk nLink cur target rest ks : forall flags l b, cur < target -> between cur target nLink b ->
  Forall (fun k => 0 < k) ks -> length flags = length ks ->
  Forall2 credit (concat (zip_with split_flags ks flags)) l.*2 -> owes (ks ++ rest) b -> collected 0 b ->
  safe (feed clk nLink l b) (fun '(b', calls) =>
    credits_sent b flags b' /\ owes rest b' /\ collected 0 b' /\ calls = []).
Proof.
  induction ks as [|k ks IH]; intros flags l b Hlt Hb Hks Hlen Hl Ho Hc.
  - destruct flags; [|done]. apply Forall2_nil_inv_l, fmap_nil_inv in Hl as ->. cbn [feed safe].
    split; [exists []; split; [apply has_sent_nil|done]|done].
  - destruct flags as [|free flags]; [done|]. apply list.Forall_cons in Hks as [Hk Hks]. cbn [zip_with concat] in Hl.
    apply Forall2_app_inv_l in Hl as (l1' & l2' & H1 & H2 & Hl). apply fmap_app_inv in Hl as (l1 & l2 & -> & -> & ->).
    apply feed_app. eapply safe_mono; [eapply (merge_group _ _ cur target k (ks ++ rest) free l1 0); try done; rewrite ?Z.sub_0_r; done|].
    intros [b1 calls] (Hs & Ho1 & Hc1 & ->). destruct Hs as (cs & Hs & Hcs).
    eapply safe_mono; [eapply IH; [done|by eapply between_sent|done|by injection Hlen|done|done|done]|].
    intros [b2 calls] (Hs2 & Ho2 & Hc2 & ->). split; [|done].
    apply (credits_sent_app _ [free] b1); [by exists cs|done].
Qed.

End credits.

Lemma length_split_flags ks : forall flags, Forall (fun k => 0 < k) ks -> length flags = length ks ->
  zlength (concat (zip_with split_flags ks flags)) = foldr Z.add 0 ks.
Proof.
  unfold zlength. induction ks as [|k ks IH]; intros [|f flags] Hks Hlen; try done.
  apply list.Forall_cons in Hks as [Hk Hks]. cbn [zip_with concat foldr]. rewrite length_app, Nat2Z.inj_add, IH;
    [|done|by injection Hlen]. unfold split_flags. rewrite length_fmap, length_seqZ. lia.
Qed.

(** C23: Credits cross a pair of bridges without loss.  The co-bridges at
    the two ends are told the same positive numbers [ks], one for every wide
    flit.  Then as many wide credits as there are numbers, arriving at any
    times at the splitting end, become exactly [sum ks] narrow credits; and
    these, arriving at any times at the merging end, become the original
    number of wide credits with the original signals that free the channel.
    Neither end fails, and both have used up the numbers. *)
Theorem credits_roundtrip vc ks flags wide narrow clk clk' nLink nLink' l b b' :
  0 <= vc -> narrow < wide -> Forall (fun k => 0 < k) ks -> length flags = length ks ->
  between wide narrow nLink b -> owes vc [] b ->
  between narrow wide nLink' b' -> owes vc [] b' -> collected vc 0 b' ->
  Forall2 (credit vc) flags l.*2 ->
  exists b1 b1' b2 gs,
    for_each ks (neutralize vc) b = Ok b1 /\ for_each ks (neutralize vc) b' = Ok b1' /\
    feed clk nLink l b1 = Ok (b2, []) /\ buffered b2 = buffered b ++ gs /\ owes vc [] b2 /\
    zlength gs = foldr Z.add 0 ks /\
    forall l', content <$> l'.*2 = content <$> gs ->
      exists b2' fs, feed clk' nLink' l' b1' = Ok (b2', []) /\ buffered b2' = buffered b' ++ fs /\
        owes vc [] b2' /\ collected vc 0 b2' /\ Forall2 (credit vc) flags fs.
Proof.
  intros Hvc Hlt Hks Hlen Hb Ho Hb' Ho' Hc' Hl.
  destruct (safe_inv _ _ (neutralize_all vc Hvc ks [] b Ho)) as (b1 & E1 & Ho1 & Hs1 & _).
  destruct (safe_inv _ _ (neutralize_all vc Hvc ks [] b' Ho')) as (b1' & E1' & Ho1' & Hs1' & Hl1').
  assert (Hb1 : between wide narrow nLink b1) by by eapply between_sent.
  assert (Hb1' : between narrow wide nLink' b1') by by eapply between_sent.
  rewrite app_nil_l in Ho1, Ho1'. rewrite <- (app_nil_r ks) in Ho1, Ho1'.
  destruct (safe_inv _ _ (split_credits vc Hvc clk nLink wide narrow [] ks flags l b1 Hlt Hb1 Hks Hlen Hl Ho1))
    as ([b2 calls] & E2 & (cs & Hs2 & Hcs) & Ho2 & ->).
  destruct (hs_out _ _ _ _ (has_sent_app _ _ _ _ _ _ Hs1 Hs2)) as (gs & Hgs & Hcont). rewrite app_nil_l in Hcont. exists b1, b1', b2, gs.
  do 5 (split; [done|]). split.
  { rewrite <- (length_split_flags ks flags) by done. unfold zlength. f_equal.
    rewrite (Forall2_length Hcs), <- Hcont. by rewrite length_fmap. }
  intros l' Hl'. rewrite Hcont in Hl'. rewrite <- Hl' in Hcs. apply (proj1 (credits_content _ _ _)) in Hcs.
  assert (Hc1' : collected vc 0 b1') by (unfold collected; by rewrite Hl1').
  destruct (safe_inv _ _ (merge_credits vc Hvc clk' nLink' narrow wide [] ks flags l' b1' Hlt Hb1' Hks Hlen Hcs Ho1' Hc1'))
    as ([b2' calls] & E2' & (cs' & Hs2' & Hcs') & Ho2' & Hc2' & ->).
  destruct (hs_out _ _ _ _ (has_sent_app _ _ _ _ _ _ Hs1' Hs2')) as (fs & Hfs & Hcont'). rewrite app_nil_l in Hcont'. exists b2', fs.
  do 4 (split; [done|]). apply credits_content. by rewrite Hcont'.
Qed.

(** Credits for the packet of five flits split two, two, two, two and one. *)
Definition demo_shares : list Z := [2; 2; 2; 2; 1].

Definition demo_credits : list (Z * flit.t) :=
  (fun i => (500 * i, Credit.new 1 (i =? 4) (500 * i))) <$> seqZ 0 5.

Lemma credits_roundtrip_witness :
  exists b1 b2 gs, for_each demo_shares (neutralize 1) (demo_bridge OBJECT_LINK (demo_link 8)) = Ok b1 /\
    feed (Clocked.new 250) (demo_link 8) demo_credits b1 = Ok (b2, []) /\ buffered b2 = gs /\ zlength gs = 9.
Proof.
  destruct (credits_roundtrip 1 demo_shares [false; false; false; false; true] 16 8 (Clocked.new 250) (Clocked.new 500)
    (demo_link 8) (demo_link 8) demo_credits (demo_bridge OBJECT_LINK (demo_link 8)) (demo_bridge LINK_OBJECT (demo_link 8)))
    as (b1 & b1' & b2 & gs & H1 & _ & H2 & H3 & _ & H4 & _).
  - lia.
  - lia.
  - repeat constructor.
  - reflexivity.
  - repeat split; reflexivity.
  - reflexivity.
  - repeat split; reflexivity.
  - reflexivity.
  - reflexivity.
  - repeat constructor.
  - exists b1, b2, gs. split; [exact H1|]. split; [exact H2|]. split; [exact H3|exact H4].
Defined.
