(* ===== verification/NetworkInterface.v ===== *)
(** * NetworkInterface: between the message buffers and the routers

    garnet/NetworkInterface.hh/.cc.  An interface takes messages from the
    buffers of its controller, splits them into packets of flits, one per
    destination, and puts the flits on virtual channels of its output ports;
    in the other direction it hands the message of every tail flit to the
    controller and returns credits.

    As in Router.v, an interface holds the links it reads from and keeps a
    list of the wakeups of the links it writes to.  It also holds the message
    buffers of its controller.  Messages that are on their way are objects
    that the flits of a packet share: they are kept in a store, and the
    pointer of a flit is a key of the store.  A message that waits in a buffer
    is a value; its destination changes while the packets for some of the
    destinations are sent, which is an update of the first element of the
    buffer. *)

From stdpp Require Import gmap.
From S2P Require Import Prelude CFloat NetDest CommonTypes Flit Channels Clock Heap MessageBuffer Network Link.

(** ** The network, as an interface sees it *)

(** What an interface reads from the network. *)
Record NetView := mkNetView {
  nv_system : RubySystem;
  nv_router_id : Z -> Z -> res Z;
  nv_message_size : MessageSizeType -> res Z;
  nv_ordered : Z -> res bool;
  nv_vnet_type : Z -> res VNET_type;
  nv_buffers_per_data_vc : Z;
  nv_buffers_per_ctrl_vc : Z;
}.

(** What it changes: the counters and the messages on their way. *)
Record NetState := mkNetState {
  stats : GarnetStats.t;
  messages : gmap Z Message.t;
  next_message : Z;
  ns_rng : Rng;
}.
#[global] Instance NetState_eta : Etaed NetState := fun s => mkNetState (stats s) (messages s) (next_message s) (ns_rng s).

(** [std::make_shared]: a message gets its own place in the store. *)
Definition new_message (m : Message.t) (s : NetState) : Z * NetState :=
  let p := next_message s in
  (p, s <| messages ::= <[p := m <| Message.m_id := p |>]> |> <| next_message ::= Z.succ |>).

Definition get_message (p : Z) (s : NetState) : res Message.t :=
  match messages s !! p with Some m => Ok m | None => Err Undefined end.

Definition on_stats (f : GarnetStats.t -> res GarnetStats.t) (s : NetState) : res NetState :=
  st ← f (stats s); Ok (s <| stats := st |>).

(** ** Ports *)

Module OutputPort.
Record t := mk {
  vnets : list Z;
  outFlitQueue : flitBuffer.t;
  inCreditLink : NetworkLink.t;
  vcRoundRobin : Z;
  routerID : Z;
  bitWidth : Z;
}.
#[global] Instance t_eta : Etaed t := fun p =>
  mk (vnets p) (outFlitQueue p) (inCreditLink p) (vcRoundRobin p) (routerID p) (bitWidth p).

Definition new (outLink creditLink : NetworkLink.t) (routerID : Z) : t :=
  mk (NetworkLink.mVnets outLink) flitBuffer.new creditLink 0 routerID (NetworkLink.bitWidth outLink).
End OutputPort.

Module InputPort.
(** The constructor leaves [messageEnqueuedThisCycle] unset; a wakeup sets it
    before it reads it. *)
Record t := mk {
  vnets : list Z;
  outCreditQueue : flitBuffer.t;
  inNetLink : NetworkLink.t;
  bitWidth : Z;
  m_stall_queue : list flit.t;
  messageEnqueuedThisCycle : bool;
}.
#[global] Instance t_eta : Etaed t := fun p =>
  mk (vnets p) (outCreditQueue p) (inNetLink p) (bitWidth p) (m_stall_queue p) (messageEnqueuedThisCycle p).

Definition new (inLink : NetworkLink.t) : t :=
  mk (NetworkLink.mVnets inLink) flitBuffer.new inLink (NetworkLink.bitWidth inLink) [] false.

Definition sendCredit (cFlit : flit.t) (p : t) : t := p <| outCreditQueue ::= flitBuffer.insert cFlit |>.
End InputPort.

Definition isVnetSupported (vnets : list Z) (pVnet : Z) : bool :=
  if zlength vnets =? 0 then true else existsb (fun it => it =? pVnet) vnets.

(** A link told to wake up, with the tick passed to [scheduleEventAbsolute]. *)
Inductive NIEvent : Set :=
| CreditOut (inport tick : Z)
| FlitOut (outport tick : Z).

Module NetworkInterface.

Record t := mk {
  m_id : Z;
  m_virtual_networks : Z;
  m_vc_per_vnet : Z;
  m_vc_allocator : list Z;
  outPorts : list OutputPort.t;
  inPorts : list InputPort.t;
  m_deadlock_threshold : Z;
  outVcState : list OutVcState.t;
  m_stall_count : list Z;
  niOutVcs : list flitBuffer.t;
  m_ni_out_vcs_enqueue_time : list Z;
  inNode_ptr : list (option MessageBuffer.t);
  outNode_ptr : list (option MessageBuffer.t);
  vc_busy_counter : list Z;
  em : Clocked.t;
  consumer : Consumer.t;
  events : list NIEvent;
}.
#[global] Instance t_eta : Etaed t := fun n =>
  mk (m_id n) (m_virtual_networks n) (m_vc_per_vnet n) (m_vc_allocator n) (outPorts n) (inPorts n)
     (m_deadlock_threshold n) (outVcState n) (m_stall_count n) (niOutVcs n) (m_ni_out_vcs_enqueue_time n)
     (inNode_ptr n) (outNode_ptr n) (vc_busy_counter n) (em n) (consumer n) (events n).

Definition new (id virt_nets deadlock_threshold clk_period : Z) : t :=
  let v := replicate (Z.to_nat virt_nets) 0 in
  mk id virt_nets 0 v [] [] deadlock_threshold [] v [] [] [] [] v (Clocked.new clk_period) Consumer.new [].

Definition clockEdge (curTick cycles : Z) (n : t) : Z := Clocked.clockEdge curTick cycles (em n).

(** [cyclesToTicks(Cycles(1))]. *)
Definition one_cycle (n : t) : Z := Clocked.clockPeriod (em n).

Definition scheduleEvent (curTick cycles : Z) (n : t) : res t :=
  c ← Consumer.scheduleEvent (em n) curTick cycles (consumer n); Ok (n <| consumer := c |>).

Definition scheduleEventAbsolute (curTick tick : Z) (n : t) : res t :=
  c ← Consumer.scheduleEventAbsolute (em n) curTick tick (consumer n); Ok (n <| consumer := c |>).

Definition wake_link (e : NIEvent) (n : t) : t := n <| events ::= (fun l => l ++ [e]) |>.

Definition on_inport (f : InputPort.t -> InputPort.t) (i : Z) (n : t) : res t :=
  l ← valter f (inPorts n) i; Ok (n <| inPorts := l |>).
Definition on_outport (f : OutputPort.t -> OutputPort.t) (i : Z) (n : t) : res t :=
  l ← valter f (outPorts n) i; Ok (n <| outPorts := l |>).

(** *** Construction *)

Definition addInPort (in_link : NetworkLink.t) (n : t) : t :=
  let in_link := if m_vc_per_vnet n =? 0 then in_link else NetworkLink.setVcsPerVnet (m_vc_per_vnet n) in_link in
  n <| inPorts ::= (fun l => l ++ [InputPort.new in_link]) |>.

Definition addOutPort (v : NetView) (out_link credit_link : NetworkLink.t) (router_id consumerVcs : Z) (n : t) : res t :=
  _ ← assert (0 <? consumerVcs);
  n ← (if zlength (niOutVcs n) =? 0 then
         let num := Z.to_nat (consumerVcs * m_virtual_networks n) in
         vcs ← for_ num 0 (fun i l =>
           o ← OutVcState.new i (nv_vnet_type v) (nv_buffers_per_data_vc v) (nv_buffers_per_ctrl_vc v) consumerVcs;
           Ok (l ++ [o])) (outVcState n);
         Ok (n <| m_vc_per_vnet := consumerVcs |> <| niOutVcs := replicate num flitBuffer.new |>
               <| outVcState := vcs |> <| m_ni_out_vcs_enqueue_time := replicate num INFINITE_ |>
               <| inPorts ::= fmap (fun p => p <| InputPort.inNetLink ::= NetworkLink.setVcsPerVnet consumerVcs |>) |>)
       else if consumerVcs =? m_vc_per_vnet n then Ok n else Err FatalCalled);
  Ok (n <| outPorts ::= (fun l => l ++ [OutputPort.new out_link (NetworkLink.setVcsPerVnet (m_vc_per_vnet n) credit_link) router_id]) |>).

Definition connect (b : option MessageBuffer.t) : res (option MessageBuffer.t) :=
  match b with None => Ok None | Some b => b ← MessageBuffer.setConsumer b; Ok (Some b) end.

Definition addNode (inb outb : list (option MessageBuffer.t)) (n : t) : res t :=
  inb ← for_each inb (fun b l => b ← connect b; Ok (l ++ [b])) [];
  Ok (n <| inNode_ptr := inb |> <| outNode_ptr := outb |>).

Definition dequeueCallback (curTick : Z) (n : t) : res t := scheduleEventAbsolute curTick (clockEdge curTick 1 n) n.

(** The first port that carries a virtual network. *)
Definition getOutportForVnet (vnet : Z) (n : t) : option (Z * OutputPort.t) :=
  match list_find (fun p => isVnetSupported (OutputPort.vnets p) vnet = true) (outPorts n) with
  | Some (i, p) => Some (Z.of_nat i, p)
  | None => None
  end.
Definition getInportForVnet (vnet : Z) (n : t) : option (Z * InputPort.t) :=
  match list_find (fun p => isVnetSupported (InputPort.vnets p) vnet = true) (inPorts n) with
  | Some (i, p) => Some (Z.of_nat i, p)
  | None => None
  end.

Definition get_router_id (vnet : Z) (n : t) : res Z :=
  match getOutportForVnet vnet n with Some (_, p) => Ok (OutputPort.routerID p) | None => Err AssertFail end.

Definition get_vnet (vc : Z) (n : t) : res Z :=
  r ← for_break (Z.to_nat (m_virtual_networks n)) 0 (fun i (_ : option Z) =>
    if (i * m_vc_per_vnet n <=? vc) && (vc <? (i + 1) * m_vc_per_vnet n) then Ok (true, Some i) else Ok (false, None)) None;
  match r with Some i => Ok i | None => Err FatalCalled end.

(** *** Statistics *)

Definition incrementStats (curTick : Z) (t_flit : flit.t) (n : t) (s : NetState) : res NetState :=
  let vnet := flit.m_vnet t_flit in
  s ← on_stats (GarnetStats.increment_received_flits vnet) s;
  let network_delay := u64 (flit.m_dequeue_time t_flit - flit.m_enqueue_time t_flit - one_cycle n) in
  src_queueing_delay ← flit.get_src_delay t_flit;
  let dest_queueing_delay := u64 (curTick - flit.m_dequeue_time t_flit) in
  let queueing_delay := u64 (src_queueing_delay + dest_queueing_delay) in
  s ← on_stats (GarnetStats.increment_flit_network_latency network_delay vnet) s;
  s ← on_stats (GarnetStats.increment_flit_queueing_latency queueing_delay vnet) s;
  s ← (if flit.is_tail t_flit then
         s ← on_stats (GarnetStats.increment_received_packets vnet) s;
         s ← on_stats (GarnetStats.increment_packet_network_latency network_delay vnet) s;
         on_stats (GarnetStats.increment_packet_queueing_latency queueing_delay vnet) s
       else Ok s);
  Ok (s <| stats ::= GarnetStats.increment_total_hops (hops_traversed (flit.m_route t_flit)) |>).

(** *** From messages to flits *)

(** The next idle channel of a virtual network, round robin; -1 when all
    are busy.  A network that stays busy for too long is taken for
    deadlocked. *)
Definition calculateVC (curTick vnet : Z) (n : t) : res (Z * t) :=
  '(vc, n) ← for_break (Z.to_nat (m_vc_per_vnet n)) 0 (fun _ '(_, n) =>
    delta ← vget (m_vc_allocator n) vnet;
    let next := delta + 1 in
    alloc ← vset (m_vc_allocator n) vnet (if next =? m_vc_per_vnet n then 0 else next);
    let n := n <| m_vc_allocator := alloc |> in
    o ← vget (outVcState n) (vnet * m_vc_per_vnet n + delta);
    if OutVcState.isInState IDLE_ curTick o then
      busy ← vset (vc_busy_counter n) vnet 0;
      Ok (true, (vnet * m_vc_per_vnet n + delta, n <| vc_busy_counter := busy |>))
    else Ok (false, (-1, n))) (-1, n);
  if vc =? -1 then
    busy ← valter Z.succ (vc_busy_counter n) vnet;
    b ← vget busy vnet;
    if m_deadlock_threshold n <? b then Err PanicCalled else Ok (-1, n <| vc_busy_counter := busy |>)
  else Ok (vc, n).

Section network.
Context `{MachineTypes}.
Context (v : NetView) (curTick : Z).

(** The destination that consists of one node; the flag says whether a
    machine type has that node. *)
Definition personal_dest (destID : Z) : res (bool * NetDest.t) :=
  personal_dest ← NetDest.new;
  for_break (Z.to_nat MachineType_NUM) 0 (fun m '(_, d) =>
    if (MachineType_base_number m <=? destID) && (destID <? MachineType_base_number (m + 1)) then
      d ← NetDest.add (mkMachineID m (destID - MachineType_base_number m)) (NetDest.clear d);
      Ok (true, (true, d))
    else Ok (false, (false, d))) (false, personal_dest).

Definition make_route (vnet destID : Z) (net_dest : NetDest.t) (oPort : OutputPort.t) (n : t) : res RouteInfo :=
  dest_router ← nv_router_id v destID vnet;
  Ok (RouteInfo_new <| CommonTypes.vnet := vnet |> <| CommonTypes.net_dest := net_dest |> <| src_ni := m_id n |>
        <| src_router := OutputPort.routerID oPort |> <| dest_ni := destID |> <| CommonTypes.dest_router := dest_router |>
        <| hops_traversed := -1 |>).

(** The flits of a packet on their way to channel [vc]. *)
Definition insert_flits (vc vnet packet_id num_flits msg_ptr msg_size width src_delay : Z) (route : RouteInfo)
    (n : t) (s : NetState) : res (t * NetState) :=
  for_ (Z.to_nat num_flits) 0 (fun i '(n, s) =>
    s ← on_stats (GarnetStats.increment_injected_flits vnet) s;
    let fl := flit.new packet_id i vc vnet route num_flits msg_ptr msg_size width curTick in
    vcs ← valter (flitBuffer.insert (flit.set_src_delay src_delay fl)) (niOutVcs n) vc;
    Ok (n <| niOutVcs := vcs |>, s)) (n, s).

(** The packet for one destination, on a channel that is free. *)
Definition send_packet (vnet vc destID num_flits : Z) (oPort : OutputPort.t) (new_msg : Message.t)
    (n : t) (s : NetState) : res (t * NetState) :=
  route ← make_route vnet destID (Message.m_Destination new_msg) oPort n;
  s ← on_stats (GarnetStats.increment_injected_packets vnet) s;
  type ← nv_vnet_type v vnet;
  s ← on_stats (GarnetStats.update_traffic_distribution type route) s;
  '(packet_id, st) ← GarnetStats.getNextPacketID (stats s);
  let '(new_msg_ptr, s) := new_message new_msg (s <| stats := st |>) in
  size ← nv_message_size v (Message.m_MessageSize new_msg);
  '(n, s) ← insert_flits vc vnet packet_id num_flits new_msg_ptr size (OutputPort.bitWidth oPort)
              (u64 (curTick - Message.m_time new_msg)) route n s;
  times ← vset (m_ni_out_vcs_enqueue_time n) vc curTick;
  states ← valter (OutVcState.setState ACTIVE_ curTick) (outVcState n) vc;
  Ok (n <| m_ni_out_vcs_enqueue_time := times |> <| outVcState := states |>, s).

(** One message per destination.  With several destinations, the clone goes
    to one of them, which is removed from the message; [net_msg_dest] is the
    local copy of its destination.  Returns false, with the message for the
    rest of the destinations, when no channel is free. *)
Fixpoint send_packets (vnet num_flits : Z) (oPort : OutputPort.t) (multicast : bool) (dest_nodes : list Z)
    (net_msg_dest : NetDest.t) (msg : Message.t) (n : t) (s : NetState) : res (bool * Message.t * t * NetState) :=
  match dest_nodes with
  | [] => Ok (true, msg, n, s)
  | destID :: dest_nodes =>
      '(vc, n) ← calculateVC curTick vnet n;
      if vc =? -1 then Ok (false, msg, n, s)
      else
        '(new_msg, net_msg_dest, msg) ←
          (if multicast then
             '(found, personal) ← personal_dest destID;
             let new_msg := if (found : bool) then msg <| Message.m_Destination := personal |> else msg in
             net_msg_dest ← NetDest.removeNetDest personal net_msg_dest;
             rest ← NetDest.removeNetDest personal (Message.m_Destination msg);
             Ok (new_msg, net_msg_dest, msg <| Message.m_Destination := rest |>)
           else Ok (msg, net_msg_dest, msg));
        '(n, s) ← send_packet vnet vc destID num_flits oPort new_msg n s;
        send_packets vnet num_flits oPort multicast dest_nodes net_msg_dest msg n s
  end.

Definition flitisizeMessage (msg : Message.t) (vnet : Z) (n : t) (s : NetState) : res (bool * Message.t * t * NetState) :=
  dest_nodes ← NetDest.getAllDest (Message.m_Destination msg);
  match getOutportForVnet vnet n with
  | None => Err AssertFail
  | Some (_, oPort) =>
      size ← nv_message_size v (Message.m_MessageSize msg);
      num_flits ← to_int (divCeil_float size (OutputPort.bitWidth oPort));
      send_packets vnet num_flits oPort (1 <? zlength dest_nodes) dest_nodes (Message.m_Destination msg) msg n s
  end.

(** *** Output links *)

Definition scheduleFlit (t_flit : flit.t) (n : t) : res t :=
  match getOutportForVnet (flit.m_vnet t_flit) n with
  | Some (i, _) =>
      n ← on_outport (fun p => p <| OutputPort.outFlitQueue ::= flitBuffer.insert t_flit |>) i n;
      Ok (wake_link (FlitOut i (clockEdge curTick 1 n)) n)
  | None => Err PanicCalled
  end.

(** On an ordered virtual network, a channel waits for the channels whose
    packet is older. *)
Definition is_candidate_vc (t_vnet vc : Z) (n : t) : res bool :=
  ordered ← nv_ordered v t_vnet;
  if (ordered : bool) then
    for_break (Z.to_nat (m_vc_per_vnet n)) 0 (fun vc_offset (_ : bool) =>
      let t_vc := t_vnet * m_vc_per_vnet n + vc_offset in
      b ← vget (niOutVcs n) t_vc;
      if flitBuffer.isReady curTick b then
        t1 ← vget (m_ni_out_vcs_enqueue_time n) t_vc;
        t2 ← vget (m_ni_out_vcs_enqueue_time n) vc;
        Ok ((t1 <? t2), negb (t1 <? t2))
      else Ok (false, true)) true
  else Ok true.

(** The first flit of channel [vc] leaves for the output link of port [i]. *)
Definition send_from (i vc : Z) (n : t) : res t :=
  n ← on_outport (fun p => p <| OutputPort.vcRoundRobin := vc |>) i n;
  states ← valterM OutVcState.decrement_credit (outVcState n) vc;
  b ← vget (niOutVcs n) vc;
  '(t_flit, b) ← flitBuffer.getTopFlit b;
  vcs ← vset (niOutVcs n) vc b;
  let t_flit := flit.set_time (clockEdge curTick 1 n) t_flit in
  n ← scheduleFlit t_flit (n <| outVcState := states |> <| niOutVcs := vcs |>);
  if flit.is_tail t_flit then
    times ← vset (m_ni_out_vcs_enqueue_time n) vc INFINITE_; Ok (n <| m_ni_out_vcs_enqueue_time := times |>)
  else Ok n.

(** One turn of the loop: sends from [vc], or goes on to the next channel. *)
Definition try_vc (i vc : Z) (n : t) : res (bool * t) :=
  t_vnet ← get_vnet vc n;
  p ← vget (outPorts n) i;
  b ← vget (niOutVcs n) vc;
  o ← vget (outVcState n) vc;
  if isVnetSupported (OutputPort.vnets p) t_vnet && flitBuffer.isReady curTick b && OutVcState.has_credit o then
    ok ← is_candidate_vc t_vnet vc n;
    if (ok : bool) then n ← send_from i vc n; Ok (true, n) else Ok (false, n)
  else Ok (false, n).

Definition scheduleOutputPort (i : Z) (n : t) : res t :=
  p ← vget (outPorts n) i;
  '(_, n) ← for_break (length (niOutVcs n)) 0 (fun _ '(vc, n) =>
    let vc := if vc + 1 =? zlength (niOutVcs n) then 0 else vc + 1 in
    '(sent, n) ← try_vc i vc n;
    Ok (sent : bool, (vc, n))) (OutputPort.vcRoundRobin p, n);
  Ok n.

Definition scheduleOutputLink (n : t) : res t := for_ (length (outPorts n)) 0 scheduleOutputPort n.

(** *** From flits to messages *)

Context `{!StdHeap Message.t Message.gt}.

Definition out_buffer (vnet : Z) (n : t) : res MessageBuffer.t :=
  b ← vget (outNode_ptr n) vnet; match b with Some b => Ok b | None => Err Undefined end.

Definition set_out_buffer (vnet : Z) (b : MessageBuffer.t) (n : t) : res t :=
  l ← vset (outNode_ptr n) vnet (Some b); Ok (n <| outNode_ptr := l |>).

(** [outNode_ptr[vnet]->areNSlotsAvailable(1, curTime)]. *)
Definition has_slot (vnet : Z) (n : t) : res (bool * t) :=
  b ← out_buffer vnet n;
  let '(ok, b) := MessageBuffer.areNSlotsAvailable 1 (clockEdge curTick 0 n) b in
  n ← set_out_buffer vnet b n;
  Ok (ok, n).

(** The message of a tail flit goes to the controller, a credit back to the
    router; the object leaves the store. *)
Definition eject (i : Z) (t_flit : flit.t) (n : t) (s : NetState) : res (t * NetState) :=
  let vnet := flit.m_vnet t_flit in
  b ← out_buffer vnet n;
  m ← get_message (flit.m_msg_ptr t_flit) s;
  '(b, g) ← MessageBuffer.enqueue (nv_system v) m (clockEdge curTick 0 n) (one_cycle n) b (ns_rng s);
  n ← set_out_buffer vnet b n;
  n ← on_inport (InputPort.sendCredit (Credit.new (flit.m_vc t_flit) true curTick)) i n;
  s ← incrementStats curTick t_flit n (s <| ns_rng := g |> <| messages ::= delete (flit.m_msg_ptr t_flit) |>);
  Ok (n, s).

(** The first stalled flit whose buffer has room again. *)
Fixpoint unstall (i : Z) (skipped stalled : list flit.t) (n : t) (s : NetState) : res (t * NetState) :=
  match stalled with
  | [] => Ok (n, s)
  | stallFlit :: stalled =>
      let vnet := flit.m_vnet stallFlit in
      '(ok, n) ← has_slot vnet n;
      if (ok : bool) then
        '(n, s) ← eject i stallFlit n s;
        n ← on_inport (fun p => p <| InputPort.m_stall_queue := skipped ++ stalled |>) i n;
        counts ← valter Z.pred (m_stall_count n) vnet;
        let n := n <| m_stall_count := counts |> in
        c ← vget counts vnet;
        n ← (if c =? 0 then b ← out_buffer vnet n; set_out_buffer vnet (MessageBuffer.unregisterDequeueCallback b) n
             else Ok n);
        n ← on_inport (fun p => p <| InputPort.messageEnqueuedThisCycle := true |>) i n;
        Ok (n, s)
      else unstall i (skipped ++ [stallFlit]) stalled n s
  end.

Definition checkStallQueue (n : t) (s : NetState) : res (t * NetState) :=
  for_ (length (inPorts n)) 0 (fun i '(n, s) =>
    n ← on_inport (fun p => p <| InputPort.messageEnqueuedThisCycle := false |>) i n;
    p ← vget (inPorts n) i;
    unstall i [] (InputPort.m_stall_queue p) n s) (n, s).

(** A flit at the end of the link of port [i]. *)
Definition receive_flit (i : Z) (n : t) (s : NetState) : res (t * NetState) :=
  p ← vget (inPorts n) i;
  if NetworkLink.isReady curTick (InputPort.inNetLink p) then
    '(t_flit, link) ← NetworkLink.consumeLink (InputPort.inNetLink p);
    n ← on_inport (fun p => p <| InputPort.inNetLink := link |>) i n;
    _ ← assert (flit.m_width t_flit =? InputPort.bitWidth p);
    let vnet := flit.m_vnet t_flit in
    let t_flit := flit.set_dequeue_time curTick t_flit in
    if flit.is_tail t_flit then
      '(ok, n) ← (if InputPort.messageEnqueuedThisCycle p then Ok (false, n) else has_slot vnet n);
      if (ok : bool) then eject i t_flit n s
      else
        n ← on_inport (fun p => p <| InputPort.m_stall_queue ::= (fun q => q ++ [t_flit]) |>) i n;
        counts ← valter Z.succ (m_stall_count n) vnet;
        b ← out_buffer vnet n;
        n ← set_out_buffer vnet (MessageBuffer.registerDequeueCallback b) (n <| m_stall_count := counts |>);
        Ok (n, s)
    else
      n ← on_inport (InputPort.sendCredit (Credit.new (flit.m_vc t_flit) false curTick)) i n;
      s ← incrementStats curTick t_flit n s;
      Ok (n, s)
  else Ok (n, s).

(** A credit from the router of port [i]. *)
Definition receive_credit (i : Z) (n : t) : res t :=
  p ← vget (outPorts n) i;
  if NetworkLink.isReady curTick (OutputPort.inCreditLink p) then
    '(t_credit, link) ← NetworkLink.consumeLink (OutputPort.inCreditLink p);
    n ← on_outport (fun p => p <| OutputPort.inCreditLink := link |>) i n;
    let vc := flit.m_vc t_credit in
    states ← valterM OutVcState.increment_credit (outVcState n) vc;
    free ← Credit.is_free_signal t_credit;
    states ← (if (free : bool) then valter (OutVcState.setState IDLE_ curTick) states vc else Ok states);
    Ok (n <| outVcState := states |>)
  else Ok n.

(** *** The wakeup *)

(** A call of the controller's buffer to its consumer, which is this interface. *)
Definition hear (c : BufferCall) (n : t) : res t :=
  match c with
  | scheduleEvent_ cycles => scheduleEvent curTick cycles n
  | scheduleEventAbsolute_ tick => scheduleEventAbsolute curTick tick n
  | storeEventInfo_ _ | dequeue_callback_ => Ok n
  end.

(** An operation on such a buffer, with the calls it makes. *)
Definition in_call {A} (f : MessageBuffer.t -> res (A * MessageBuffer.t)) (vnet : Z) (b : MessageBuffer.t) (n : t) : res (A * MessageBuffer.t * t) :=
  '(a, b') ← f (b <| MessageBuffer.calls := [] |>);
  n ← for_each (MessageBuffer.calls b') hear n;
  let b' := b' <| MessageBuffer.calls := MessageBuffer.calls b ++ MessageBuffer.calls b' |> in
  l ← vset (inNode_ptr n) vnet (Some b');
  Ok (a, b', n <| inNode_ptr := l |>).

(** The message that [peekMsgPtr] points to is changed in place. *)
Definition set_front (m : Message.t) (b : MessageBuffer.t) : MessageBuffer.t :=
  b <| MessageBuffer.m_prio_heap ::= (fun h => match h with [] => [] | _ :: l => m :: l end) |>.

Definition take_message (vnet : Z) (n : t) (s : NetState) : res (t * NetState) :=
  b ← vget (inNode_ptr n) vnet;
  match b with
  | None => Ok (n, s)
  | Some b =>
      let curTime := clockEdge curTick 0 n in
      '(ready, b, n) ← in_call (MessageBuffer.isReady curTime) vnet b n;
      if (ready : bool) then
        msg ← MessageBuffer.peekMsgPtr b;
        '(sent, msg, n, s) ← flitisizeMessage msg vnet n s;
        let b := set_front msg b in
        l ← vset (inNode_ptr n) vnet (Some b);
        let n := n <| inNode_ptr := l |> in
        if (sent : bool) then
          '(_, _, n) ← in_call (MessageBuffer.dequeue curTick curTime true) vnet b n; Ok (n, s)
        else Ok (n, s)
      else Ok (n, s)
  end.

Definition send_credits (i : Z) (n : t) : res t :=
  p ← vget (inPorts n) i;
  if 0 <? flitBuffer.getSize (InputPort.outCreditQueue p) then Ok (wake_link (CreditOut i (clockEdge curTick 1 n)) n) else Ok n.

(** Whether one of the buffers has a message. *)
Definition message_waits (n : t) : res (bool * t) :=
  for_break (length (inNode_ptr n)) 0 (fun vnet '(_, n) =>
    b ← vget (inNode_ptr n) vnet;
    match b with
    | None => Ok (false, (false, n))
    | Some b => '(ready, _, n) ← in_call (MessageBuffer.isReady (clockEdge curTick 0 n)) vnet b n; Ok (ready, (ready, n))
    end) (false, n).

Definition checkReschedule (n : t) : res t :=
  '(waits, n) ← message_waits n;
  if (waits : bool) || existsb (flitBuffer.isReady (clockEdge curTick 1 n)) (niOutVcs n)
     || existsb (fun p => NetworkLink.isReady curTick (InputPort.inNetLink p)) (inPorts n)
     || existsb (fun p => NetworkLink.isReady curTick (OutputPort.inCreditLink p)) (outPorts n)
  then scheduleEvent curTick 1 n else Ok n.

Definition wakeup (n : t) (s : NetState) : res (t * NetState) :=
  _ ← assert (curTick =? clockEdge curTick 0 n);
  '(n, s) ← for_ (length (inNode_ptr n)) 0 (fun vnet '(n, s) => take_message vnet n s) (n, s);
  n ← scheduleOutputLink n;
  '(n, s) ← checkStallQueue n s;
  '(n, s) ← for_ (length (inPorts n)) 0 (fun i '(n, s) => receive_flit i n s) (n, s);
  n ← for_ (length (outPorts n)) 0 receive_credit n;
  n ← for_ (length (inPorts n)) 0 send_credits n;
  n ← checkReschedule n;
  Ok (n, s).

End network.

(** *** Functional accesses *)

Definition functionalRead (rd : flit.t -> bool) (n : t) : bool :=
  foldl (fun read p => if flitBuffer.functionalRead rd (OutputPort.outFlitQueue p) then true else read)
    (foldl (fun read b => if flitBuffer.functionalRead rd b then true else read) false (niOutVcs n)) (outPorts n).

Definition functionalWrite (wr : flit.t -> bool) (n : t) : Z :=
  foldl (fun k p => u32 (k + flitBuffer.functionalWrite wr (OutputPort.outFlitQueue p)))
    (foldl (fun k b => u32 (k + flitBuffer.functionalWrite wr b)) 0 (niOutVcs n)) (outPorts n).

End NetworkInterface.
