(* ===== verification/DestProofs.v ===== *)
(** * DestProofs: the nodes of a destination

    [getAllDest] lists the nodes of a destination in the order of their
    numbers; the destination of one node, and what remains of a destination
    when one node is taken out. *)

From S2P Require Import Prelude NetDest.

Section dests.
Context `{MachineTypes, !MachineTypesOk}.

(** Node [x] is machine [i] of type [m] for some destination of [d]. *)
Definition has_node (d : NetDest.t) (x : Z) : bool :=
  existsb (fun m => (MachineType_base_number m <=? x) && (x <? MachineType_base_number (m + 1)) &&
    match d !! Z.to_nat m with Some s => Z.testbit (RSet.bits s) (x - MachineType_base_number m) | None => false end)
  (seqZ 0 MachineType_NUM).

(** The nodes of a destination, in increasing order. *)
Definition nodes (d : NetDest.t) : list Z :=
  filter (fun x => has_node d x = true) (seqZ 0 (MachineType_base_number MachineType_NUM)).

(** A node belongs to one machine type. *)
Lemma node_machine m x : 0 <= m < MachineType_NUM -> MachineType_base_number m <= x < MachineType_base_number (m + 1) ->
  forall d, has_node d x = true <-> NetDest.mem d m (x - MachineType_base_number m).
Proof.
  intros Hm Hx d. unfold has_node, NetDest.mem, RSet.mem. rewrite existsb_exists. split.
  - intros (m' & Hin & Hc). apply list_elem_of_In, elem_of_seqZ in Hin.
    apply andb_prop in Hc as [[H1%Z.leb_le H2%Z.ltb_lt]%andb_prop H3].
    assert (m' = m) as ->.
    { destruct (Z.lt_trichotomy m m') as [Hlt|[Heq|Hgt]]; [|done|].
      - pose proof (base_number_mono (m + 1) m'). lia.
      - pose proof (base_number_mono (m' + 1) m). lia. }
    destruct (d !! Z.to_nat m) as [s|]; [|done]. split; [lia|]. exists s. split; [done|]. split; [lia|done].
  - intros (_ & s & Hs & _ & Hb). exists m. split; [apply list_elem_of_In, elem_of_seqZ; lia|].
    rewrite Hs, Hb, (proj2 (Z.leb_le _ _)), (proj2 (Z.ltb_lt _ _)) by lia. done.
Qed.

Lemma node_exists x : 0 <= x < MachineType_base_number MachineType_NUM ->
  exists m, 0 <= m < MachineType_NUM /\ MachineType_base_number m <= x < MachineType_base_number (m + 1).
Proof.
  intros Hx. pose proof machine_num_nonneg as Hn.
  assert (Hk : forall k : nat, Z.of_nat k <= MachineType_NUM -> x < MachineType_base_number (Z.of_nat k) ->
    exists m, 0 <= m < Z.of_nat k /\ MachineType_base_number m <= x < MachineType_base_number (m + 1)).
  { induction k as [|k IH]; intros Hk Hlt; [change (Z.of_nat 0) with 0 in Hlt; rewrite machine_number_0 in Hlt; lia|].
    destruct (decide (x < MachineType_base_number (Z.of_nat k))) as [Hb|Hb].
    - destruct IH as (m & ? & ?); [lia|done|]. exists m. split; [lia|done].
    - exists (Z.of_nat k). split; [lia|]. split; [lia|]. by replace (Z.of_nat k + 1) with (Z.of_nat (S k)) by lia. }
  destruct (Hk (Z.to_nat MachineType_NUM)) as (m & ? & ?); [lia|rewrite Z2Nat.id by lia; lia|]. exists m. split; [lia|done].
Qed.

Lemma has_node_machine d x : has_node d x = true -> exists m i, 0 <= m < MachineType_NUM /\ 0 <= i < MachineType_base_count m /\
  x = MachineType_base_number m + i /\ NetDest.mem d m i.
Proof.
  intros Hh. assert (Hh' := Hh). unfold has_node in Hh'. apply existsb_exists in Hh' as (m & Hm & Hc).
  apply list_elem_of_In, elem_of_seqZ in Hm. apply andb_prop in Hc as [[H1%Z.leb_le H2%Z.ltb_lt]%andb_prop _].
  exists m, (x - MachineType_base_number m). assert (H2' := H2). rewrite machine_number_succ in H2' by lia.
  split; [lia|]. split; [lia|]. split; [lia|]. apply (node_machine m x); [lia|lia|done].
Qed.

Lemma elem_of_nodes d x : x ∈ nodes d <-> has_node d x = true.
Proof.
  unfold nodes. rewrite list_elem_of_filter, elem_of_seqZ. split; [by intros [? _]|]. intros Hh. split; [done|].
  destruct (has_node_machine d x Hh) as (m & i & Hm & Hi & -> & _).
  pose proof (base_number_mono 0 m). pose proof (base_number_mono (m + 1) MachineType_NUM).
  rewrite machine_number_0 in *. rewrite machine_number_succ in * by lia. lia.
Qed.

Lemma nodes_NoDup d : NoDup (nodes d).
Proof. apply list.NoDup_filter, NoDup_seqZ. Qed.

Lemma has_node_mem d m i : 0 <= m < MachineType_NUM -> 0 <= i < MachineType_base_count m ->
  has_node d (MachineType_base_number m + i) = true <-> NetDest.mem d m i.
Proof.
  intros Hm Hi. rewrite (node_machine m); [|done|rewrite machine_number_succ by done; lia].
  by replace (MachineType_base_number m + i - MachineType_base_number m) with i by lia.
Qed.

(** The nodes are determined by the members. *)
Lemma nodes_filter d d' P `{!forall x, Decision (P x)} :
  (forall m i, 0 <= m < MachineType_NUM -> 0 <= i < MachineType_base_count m ->
    NetDest.mem d' m i <-> P (MachineType_base_number m + i) /\ NetDest.mem d m i) ->
  nodes d' = filter P (nodes d).
Proof.
  intros Hd. unfold nodes. rewrite list_filter_filter. apply list_filter_iff. intros x. split.
  - intros Hh. destruct (has_node_machine d' x Hh) as (m & i & Hm & Hi & -> & Hmem).
    apply Hd in Hmem as [? ?]; [|done..]. split; [done|]. by apply has_node_mem.
  - intros [Hp Hh]. destruct (has_node_machine d x Hh) as (m & i & Hm & Hi & -> & Hmem).
    apply has_node_mem; [done..|]. by apply Hd.
Qed.

(** ** The operations *)

(** The nodes below [n]. *)
Definition nodes_below (d : NetDest.t) (n : Z) : list Z := filter (fun x => has_node d x = true) (seqZ 0 n).

Lemma nodes_below_succ d n : 0 <= n ->
  nodes_below d (n + 1) = if has_node d n then nodes_below d n ++ [n] else nodes_below d n.
Proof.
  intros Hn. unfold nodes_below. replace (n + 1) with (Z.of_nat (S (Z.to_nat n))) by lia.
  rewrite seqZ_S, list.filter_app, Z2Nat.id by lia. rewrite filter_cons, Z.add_0_l. cbn.
  case_decide as Hd; [by rewrite Hd|]. destruct (has_node d n); [done|]. by rewrite app_nil_r.
Qed.

Lemma getAllDest_nodes d : NetDest.sized d -> NetDest.getAllDest d = Ok (nodes d).
Proof.
  intros [Hl Hs]. pose proof machine_num_nonneg as Hn.
  assert (H1 : safe (NetDest.getAllDest d) (fun l => l = nodes_below d (MachineType_base_number (0 + Z.of_nat (length d))))).
  { apply (safe_for (fun i l => l = nodes_below d (MachineType_base_number i))).
    - by rewrite machine_number_0.
    - intros i l Hi ->. unfold zlength in Hl. apply safe_bind, safe_vget; [unfold zlength; lia|]. intros s Hd.
      pose proof (Hs _ _ Hd) as Hsz. rewrite Z2Nat.id in Hsz by lia. rewrite machine_number_succ, <- Hsz by lia.
      pose proof (machine_count_nonneg i). pose proof (machine_count_fits i). pose proof (base_number_mono 0 i).
      rewrite machine_number_0 in *.
      pose proof (safe_for (fun j l => l = nodes_below d (MachineType_base_number i + j)) (Z.to_nat (RSet.m_nSize s)) 0) as Hf.
      rewrite Z2Nat.id in Hf by lia. apply Hf; [by rewrite Z.add_0_r|]. intros j l Hj ->.
      unfold RSet.isElement, RSet.check. rewrite decide_True by lia. cbn.
      rewrite Z.add_assoc, nodes_below_succ by lia.
      destruct (has_node d (MachineType_base_number i + j)) eqn:Hh.
      + apply has_node_mem in Hh as (_ & s' & Hd' & _ & Hb); [|lia..]. rewrite Hd in Hd'. injection Hd' as <-. by rewrite Hb.
      + destruct (Z.testbit (RSet.bits s) j) eqn:Hb; [|done]. exfalso.
        assert (NetDest.mem d i j) as Hm by (split; [lia|]; exists s; split; [done|]; split; [lia|done]).
        apply has_node_mem in Hm; [|lia..]. congruence. }
  apply safe_inv in H1 as (l & -> & ->). unfold zlength in Hl. rewrite Z.add_0_l, Hl. done.
Qed.

Lemma clear_sized d : NetDest.sized d -> NetDest.sized (NetDest.clear d).
Proof.
  intros [Hl Hs]. split; [unfold zlength, NetDest.clear; by rewrite length_fmap|].
  intros m s Hm. unfold NetDest.clear in Hm. rewrite list_lookup_fmap in Hm.
  destruct (d !! m) as [s'|] eqn:E; [|done]. injection Hm as <-. exact (Hs _ _ E).
Qed.

Lemma clear_empty d m i : ~ NetDest.mem (NetDest.clear d) m i.
Proof.
  intros (_ & s & Hm & _ & Hb). unfold NetDest.clear in Hm. rewrite list_lookup_fmap in Hm.
  destruct (d !! Z.to_nat m); [|done]. injection Hm as <-. cbn in Hb. by rewrite Z.bits_0 in Hb.
Qed.

(** Taking a destination out of another one. *)
Lemma removeNetDest_spec d d2 : NetDest.sized d -> NetDest.sized d2 ->
  safe (NetDest.removeNetDest d2 d) (fun d' => NetDest.sized d' /\
    forall m i, NetDest.mem d' m i <-> NetDest.mem d m i /\ ~ NetDest.mem d2 m i).
Proof.
  intros [Hl Hs] [Hl2 Hs2]. unfold NetDest.removeNetDest, NetDest.zipM, NetDest.getSize.
  rewrite bool_decide_eq_true_2 by lia. cbn [mbind res_bind assert].
  eapply safe_mono; [apply (safe_for (fun j d' => length d' = length d /\
    (forall m s', d' !! m = Some s' -> exists s, d !! m = Some s /\ RSet.m_nSize s' = RSet.m_nSize s /\
      (Z.of_nat m < j -> forall s2, d2 !! m = Some s2 -> forall i, RSet.mem s' i <-> RSet.mem s i /\ ~ RSet.mem s2 i) /\
      (j <= Z.of_nat m -> s' = s))))|].
  - split; [done|]. intros m s' Hm. exists s'. split; [done|]. split; [done|]. split; [lia|done].
  - intros j d' Hj (Hl' & Hd'). unfold zlength in *. apply safe_bind, safe_vget; [unfold zlength; lia|]. intros s2 Hs2j.
    apply safe_valterM; [unfold zlength; lia|]. intros s' Hs'.
    destruct (Hd' _ _ Hs') as (s & Hsj & Hsize & _ & Heq). rewrite <- Heq in * by lia.
    unfold RSet.removeSet. rewrite bool_decide_eq_true_2; cycle 1.
    { rewrite (Hs _ _ Hsj), (Hs2 _ _ Hs2j). done. }
    cbn [mbind res_bind assert safe]. split; [by rewrite length_insert|].
    intros m s'' [(<- & <- & _)|[Hne Hm]]%list_lookup_insert_Some.
    + exists s'. split; [done|]. split; [done|]. split; [|lia]. intros _ s3 Hs3. rewrite Hs2j in Hs3. injection Hs3 as <-.
      intros i. apply (RSet.removeSet_mem s2 s'). unfold RSet.removeSet.
      rewrite bool_decide_eq_true_2; [done|]. rewrite (Hs _ _ Hsj), (Hs2 _ _ Hs2j). done.
    + destruct (Hd' _ _ Hm) as (s3 & H1 & H2 & H3 & H4). exists s3. split; [done|]. split; [done|].
      split; [|intros; apply H4; lia]. intros Hlt. apply H3. lia.
  - intros d' (Hl' & Hd'). unfold zlength in *. split; [split; [unfold zlength; lia|]|].
    + intros m s' Hm. destruct (Hd' _ _ Hm) as (s & H1 & -> & _). by apply Hs.
    + intros m i. unfold NetDest.mem. split.
      * intros (Hm0 & s' & Hm & Hi). destruct (Hd' _ _ Hm) as (s & H1 & _ & H3 & _).
        apply lookup_lt_Some in Hm as Hlt. destruct (lookup_lt_is_Some_2 d2 (Z.to_nat m)) as [s2 Hs2m]; [lia|].
        pose proof (proj1 (H3 ltac:(lia) s2 Hs2m i) Hi) as [Hi1 Hn]. split; [eauto|]. intros (_ & s3 & Hs3 & Hi3). naive_solver.
      * intros [(Hm0 & s & Hm & Hi) Hn]. apply lookup_lt_Some in Hm as Hlt.
        destruct (lookup_lt_is_Some_2 d' (Z.to_nat m)) as [s' Hs'm]; [lia|].
        destruct (lookup_lt_is_Some_2 d2 (Z.to_nat m)) as [s2 Hs2m]; [lia|].
        destruct (Hd' _ _ Hs'm) as (s3 & H1 & _ & H3 & _). split; [done|]. exists s'. split; [done|].
        apply (H3 ltac:(lia) s2 Hs2m). split; [congruence|]. intros Hi2. apply Hn. split; [done|]. eauto.
Qed.

Lemma nodes_remove d d2 d' x : (forall m i, NetDest.mem d' m i <-> NetDest.mem d m i /\ ~ NetDest.mem d2 m i) ->
  nodes d2 = [x] -> nodes d' = filter (fun y => y <> x) (nodes d).
Proof.
  intros Hd' Hx. apply nodes_filter. intros m i Hm Hi. rewrite Hd'.
  assert (Hiff : MachineType_base_number m + i = x <-> NetDest.mem d2 m i).
  { rewrite <- has_node_mem, <- elem_of_nodes, Hx by done. by rewrite list_elem_of_singleton. }
  rewrite <- Hiff. tauto.
Qed.
End dests.
