(* ===== verification/NIPackets.v ===== *)
(** * NIPackets: from messages to packets

    What the network interface makes of a message: one packet per
    destination, each on a virtual channel of its own that was idle, and
    nothing on the other channels; when the channels run out, the message
    keeps exactly the destinations that are still to be served. *)

From stdpp Require Import gmap.
From S2P Require Import Prelude CFloat FloatExact NetDest CommonTypes Flit Channels Clock Heap MessageBuffer Network Link.
From S2P Require Import NetworkInterface DestProofs.
Import NetworkInterface.

Section packets.
Context `{MachineTypes, !MachineTypesOk}.
Context (v : NetView) (curTick : Z).

(** A node number of the protocol. *)
Definition is_node (x : Z) : Prop := 0 <= x < MachineType_base_number MachineType_NUM.

Lemma singleton_list (l : list Z) x : NoDup l -> (forall y, y ∈ l <-> y = x) -> l = [x].
Proof.
  intros Hnd Hl. destruct l as [|a [|b l]].
  - exfalso. apply (not_elem_of_nil x), Hl. done.
  - f_equal. apply Hl. by left.
  - exfalso. apply list.NoDup_cons in Hnd as [Hab _]. apply Hab.
    rewrite (proj1 (Hl a)), (proj1 (Hl b)); [by left|by right; left|by left].
Qed.

(** The destination of one node. *)
Lemma personal_dest_spec x : is_node x ->
  safe (personal_dest x) (fun '(found, d) => found = true /\ NetDest.sized d /\ nodes d = [x]).
Proof.
  intros Hx. destruct (node_exists x Hx) as (m & Hm & Hr). unfold personal_dest.
  apply safe_bind. eapply safe_mono; [apply NetDest.new_spec|]. intros d0 [Hd0 _].
  apply (safe_for_break (fun j '(_, d) => j <= m /\ NetDest.sized d)).
  - split; [lia|done].
  - intros j [f d] Hj [Hjm Hd].
    destruct (decide (MachineType_base_number j <= x < MachineType_base_number (j + 1))) as [Hin|Hout].
    + rewrite (proj2 (Z.leb_le _ _)), (proj2 (Z.ltb_lt _ _)) by lia. cbn [andb].
      rewrite machine_number_succ in Hin by lia.
      apply safe_bind. eapply safe_mono; [apply NetDest.add_spec; [by apply clear_sized|lia|lia]|].
      intros d' [Hd' Hmem]. cbn. split; [done|]. split; [done|].
      apply singleton_list; [apply nodes_NoDup|]. intros y. rewrite elem_of_nodes. split.
      * intros (m' & i & Hm' & Hi & -> & Hy)%has_node_machine. apply Hmem in Hy as [Hy|[-> ->]]; [by apply clear_empty in Hy|lia].
      * intros ->. replace x with (MachineType_base_number j + (x - MachineType_base_number j)) by lia.
        apply has_node_mem; [lia|lia|]. apply Hmem. by right.
    + replace ((MachineType_base_number j <=? x) && (x <? MachineType_base_number (j + 1))) with false
        by (symmetry; apply andb_false_iff; destruct (Z.leb_spec (MachineType_base_number j) x); [right|left]; lia).
      cbn. split; [|done]. destruct (decide (j = m)) as [->|]; lia.
  - intros [f d] [Hge _]. lia.
Qed.

(** ** Choosing a channel *)

(** The vectors of the interface have the sizes [addOutPort] gives them. *)
Record ni_ok (n : t) : Prop := {
  nk_vcs : 0 < m_vc_per_vnet n;
  nk_alloc : zlength (m_vc_allocator n) = m_virtual_networks n;
  nk_range : Forall (fun a => 0 <= a < m_vc_per_vnet n) (m_vc_allocator n);
  nk_busy : zlength (vc_busy_counter n) = m_virtual_networks n;
  nk_states : zlength (outVcState n) = m_virtual_networks n * m_vc_per_vnet n;
  nk_queues : zlength (niOutVcs n) = m_virtual_networks n * m_vc_per_vnet n;
  nk_times : zlength (m_ni_out_vcs_enqueue_time n) = m_virtual_networks n * m_vc_per_vnet n;
}.

Definition vc_of (vnet vc : Z) (n : t) : Prop := vnet * m_vc_per_vnet n <= vc < (vnet + 1) * m_vc_per_vnet n.

Definition idle (vc : Z) (n : t) : Prop :=
  exists o, outVcState n !! Z.to_nat vc = Some o /\ OutVcState.isInState IDLE_ curTick o = true.

(** The search has not reached the limit at which it reports a deadlock. *)
Definition patient (vnet : Z) (n : t) : Prop :=
  exists c, vc_busy_counter n !! Z.to_nat vnet = Some c /\ c < m_deadlock_threshold n.

Lemma vc_of_bound vnet vc n : ni_ok n -> 0 <= vnet < m_virtual_networks n -> vc_of vnet vc n ->
  0 <= vc < m_virtual_networks n * m_vc_per_vnet n.
Proof. intros [] Hv Hvc. unfold vc_of in Hvc. nia. Qed.

(** The search changes the round robin pointer and the count of failures. *)
Record searched (n n' : t) : Prop := {
  se_ok : ni_ok n';
  se_same : exists a c, n' = n <| m_vc_allocator := a |> <| vc_busy_counter := c |>;
}.

Definition next_offset (vcs a : Z) : Z := if a + 1 =? vcs then 0 else a + 1.

Lemma next_offset_mod vcs a j : 0 <= a < vcs -> next_offset vcs ((a + j) mod vcs) = (a + (j + 1)) mod vcs.
Proof.
  intros Ha. unfold next_offset. pose proof (Z.mod_pos_bound (a + j) vcs).
  replace (a + (j + 1)) with (a + j + 1) by lia. rewrite <- (Zplus_mod_idemp_l (a + j)).
  destruct (Z.eqb_spec ((a + j) mod vcs + 1) vcs) as [->|]; [by rewrite Z.mod_same by lia|].
  rewrite (Z.mod_small (_ + 1)); lia.
Qed.

Lemma calculateVC_spec vnet n :
  ni_ok n -> 0 <= vnet < m_virtual_networks n -> patient vnet n -> 0 < m_deadlock_threshold n ->
  safe (calculateVC curTick vnet n) (fun '(vc, n') => searched n n' /\
    ((vc = -1 /\ forall vc, vc_of vnet vc n -> ~ idle vc n) \/ (vc_of vnet vc n /\ idle vc n /\ patient vnet n'))).
Proof.
  intros Hn Hv (c & Hc & Hlt) Ht. pose proof Hn as [HV Hal Hra Hbu Hst Hq Hti]. unfold calculateVC.
  destruct (lookup_lt_is_Some_2 (m_vc_allocator n) (Z.to_nat vnet)) as [a Ha]; [unfold zlength in Hal; lia|].
  pose proof (proj1 (list.Forall_lookup _ _) Hra _ _ Ha) as Har. simpl in Har.
  apply safe_bind.
  apply (safe_for_break (fun j '(vc, n') => vc = -1 /\ exists l, n' = n <| m_vc_allocator := l |> /\
      zlength l = m_virtual_networks n /\ Forall (fun a => 0 <= a < m_vc_per_vnet n) l /\
      l !! Z.to_nat vnet = Some ((a + j) mod m_vc_per_vnet n) /\
      forall i, 0 <= i < j -> ~ idle (vnet * m_vc_per_vnet n + (a + i) mod m_vc_per_vnet n) n)).
  - split; [done|]. exists (m_vc_allocator n). split; [by destruct n|]. split; [done|]. split; [done|].
    split; [by rewrite Z.add_0_r, Z.mod_small|lia].
  - intros j [vc n'] Hj (-> & l & -> & Hl & Hlr & Hla & Hbusy). rewrite Z2Nat.id in Hj by lia.
    pose proof (Z.mod_pos_bound (a + j) (m_vc_per_vnet n)) as Hmod.
    apply safe_bind, safe_vget; [cbn; lia|]. intros d Hd. cbn in Hd. rewrite Hla in Hd. injection Hd as <-.
    apply safe_bind, safe_vset; [cbn; lia|]. cbn.
    change (if _ =? m_vc_per_vnet n then 0 else _) with (next_offset (m_vc_per_vnet n) ((a + j) mod m_vc_per_vnet n)).
    rewrite next_offset_mod by done. set (l' := <[Z.to_nat vnet := _]> l).
    assert (Hl' : zlength l' = m_virtual_networks n) by (unfold l'; by rewrite zlength_insert).
    assert (Hlr' : Forall (fun a => 0 <= a < m_vc_per_vnet n) l').
    { apply list.Forall_insert; [done|]. apply Z.mod_pos_bound. lia. }
    assert (Hl'a : l' !! Z.to_nat vnet = Some ((a + (j + 1)) mod m_vc_per_vnet n)).
    { apply list_lookup_insert_eq. unfold zlength in Hl. lia. }
    apply safe_bind, safe_vget; [nia|]. intros o Ho.
    destruct (OutVcState.isInState IDLE_ curTick o) eqn:Hidle.
    + apply safe_bind, safe_vset; [lia|]. cbn.
      destruct (Z.eqb_spec (vnet * m_vc_per_vnet n + (a + j) mod m_vc_per_vnet n) (-1)) as [|_]; [nia|].
      cbn. split; [split|right; split; [unfold vc_of; nia|split; [by exists o|]]].
      * split; cbn; rewrite ?zlength_insert; done.
      * by eexists _, _.
      * exists 0. split; [apply list_lookup_insert_eq; unfold zlength in Hbu; lia|done].
    + cbn. split; [done|]. exists l'. split; [done|]. do 3 (split; [done|]). intros i Hi.
      destruct (decide (i = j)) as [->|]; [|apply Hbusy; lia]. intros (o' & Ho' & Hi'). congruence.
  - intros [vc n'] (-> & l & -> & Hl & Hlr & Hla & Hbusy). cbn. rewrite Z2Nat.id in Hbusy by lia.
    apply safe_bind, safe_valter; [lia|]. intros c' Hc'. rewrite Hc in Hc'. injection Hc' as <-.
    apply safe_bind, safe_vget; [rewrite zlength_insert; lia|]. intros c' Hc'.
    rewrite list_lookup_insert_eq in Hc' by (unfold zlength in Hbu; lia). injection Hc' as <-.
    destruct (Z.ltb_spec (m_deadlock_threshold n) (Z.succ c)) as [|_]; [lia|].
    split; [split|left; split; [done|]].
    + split; cbn; rewrite ?zlength_insert; done.
    + by eexists _, _.
    + intros vc Hvc. pose proof (Hbusy ((vc - vnet * m_vc_per_vnet n - a) mod m_vc_per_vnet n)) as Hb.
      rewrite Zplus_mod_idemp_r in Hb. replace (a + (vc - vnet * m_vc_per_vnet n - a)) with (vc - vnet * m_vc_per_vnet n) in Hb by lia.
      unfold vc_of in Hvc. rewrite (Z.mod_small (vc - _)) in Hb by nia.
      replace (vnet * m_vc_per_vnet n + (vc - vnet * m_vc_per_vnet n)) with vc in Hb by lia.
      apply Hb, Z.mod_pos_bound. lia.
Qed.

(** ** Counters *)

(** The vectors of the counters have the sizes [regStats] gives them; packet
    numbers stay in range for [k] more packets. *)
Record stats_ok (vnets routers k : Z) (st : GarnetStats.t) : Prop := {
  so_packets : zlength (GarnetStats.m_packets_injected st) = vnets;
  so_flits : zlength (GarnetStats.m_flits_injected st) = vnets;
  so_data : zlength (GarnetStats.m_data_traffic_distribution st) = routers /\
    Forall (fun row => zlength row = routers) (GarnetStats.m_data_traffic_distribution st);
  so_ctrl : zlength (GarnetStats.m_ctrl_traffic_distribution st) = routers /\
    Forall (fun row => zlength row = routers) (GarnetStats.m_ctrl_traffic_distribution st);
  so_number : 0 <= GarnetStats.m_next_packet_id st /\ GarnetStats.m_next_packet_id st + k < 2 ^ 31;
}.

Definition stats_only (s s' : NetState) : Prop := exists st, s' = s <| stats := st |>.

Lemma injected_flit_safe vnets routers k vnet s :
  stats_ok vnets routers k (stats s) -> 0 <= vnet < vnets ->
  safe (on_stats (GarnetStats.increment_injected_flits vnet) s)
    (fun s' => stats_only s s' /\ stats_ok vnets routers k (stats s')).
Proof.
  intros [] Hv. unfold on_stats, GarnetStats.increment_injected_flits.
  apply safe_bind, safe_bind, safe_valter; [lia|]. intros x _. cbn. split; [by eexists|]. split; cbn; try done.
  by rewrite zlength_insert.
Qed.

Lemma injected_packet_safe vnets routers k vnet s :
  stats_ok vnets routers k (stats s) -> 0 <= vnet < vnets ->
  safe (on_stats (GarnetStats.increment_injected_packets vnet) s)
    (fun s' => stats_only s s' /\ stats_ok vnets routers k (stats s')).
Proof.
  intros [] Hv. unfold on_stats, GarnetStats.increment_injected_packets.
  apply safe_bind, safe_bind, safe_valter; [lia|]. intros x _. cbn. split; [by eexists|]. split; cbn; try done.
  by rewrite zlength_insert.
Qed.

Lemma count_in_matrix routers i j (m : list (list Z)) (Q : list (list Z) -> Prop) :
  zlength m = routers /\ Forall (fun row => zlength row = routers) m -> 0 <= i < routers -> 0 <= j < routers ->
  (forall m', zlength m' = routers /\ Forall (fun row => zlength row = routers) m' -> Q m') ->
  safe (valterM (fun row => valter Z.succ row j) m i) Q.
Proof.
  intros [Hl Hf] Hi Hj HQ. apply safe_valterM; [lia|]. intros row Hrow.
  pose proof (proj1 (list.Forall_lookup _ _) Hf _ _ Hrow) as Hr. simpl in Hr.
  apply safe_valter; [lia|]. intros x _. apply HQ. rewrite zlength_insert. split; [done|].
  apply list.Forall_insert; [done|]. by rewrite zlength_insert.
Qed.

Lemma traffic_safe vnets routers k type route s :
  stats_ok vnets routers k (stats s) -> 0 <= src_router route < routers -> 0 <= dest_router route < routers ->
  safe (on_stats (GarnetStats.update_traffic_distribution type route) s)
    (fun s' => stats_only s s' /\ stats_ok vnets routers k (stats s')).
Proof.
  intros [] Hs Hd. unfold on_stats, GarnetStats.update_traffic_distribution.
  apply safe_bind. case_bool_decide; apply safe_bind; (eapply count_in_matrix; [done..|]); intros m' Hm'; cbn;
    (split; [by eexists|]); split; done.
Qed.

(** ** The flits of a packet *)

Definition packet_flits (packet_id vc vnet : Z) (route : RouteInfo) (num_flits msg_ptr msg_size width src_delay : Z) : list flit.t :=
  flit.set_src_delay src_delay <$> flit.packet packet_id vc vnet route num_flits msg_ptr msg_size width curTick.

Definition append (fs : list flit.t) (b : flitBuffer.t) : flitBuffer.t := b <| flitBuffer.m_buffer ::= (fun l => l ++ fs) |>.

Lemma append_nil b : append [] b = b.
Proof. destruct b as [l m]. unfold append, update. cbn. by rewrite app_nil_r. Qed.

Lemma insert_append f fs b : flitBuffer.insert f (append fs b) = append (fs ++ [f]) b.
Proof. destruct b as [l m]. unfold append, flitBuffer.insert, update. cbn. by rewrite app_assoc. Qed.

Lemma same_queue n i b : niOutVcs n !! i = Some b -> n = n <| niOutVcs ::= <[i := b]> |>.
Proof. destruct n. unfold update. cbn. intros Hb. by rewrite list_insert_id. Qed.

Lemma insert_flits_spec vnets routers k vc vnet packet_id num msg_ptr size width sd route n s b :
  stats_ok vnets routers k (stats s) -> 0 <= vnet < vnets ->
  0 <= vc -> niOutVcs n !! Z.to_nat vc = Some b -> 0 <= num ->
  safe (insert_flits curTick vc vnet packet_id num msg_ptr size width sd route n s) (fun '(n', s') =>
    n' = n <| niOutVcs ::= <[Z.to_nat vc := append (packet_flits packet_id vc vnet route num msg_ptr size width sd) b]> |> /\
    stats_only s s' /\ stats_ok vnets routers k (stats s')).
Proof.
  intros Hs Hv Hvc Hb Hnum. pose proof (lookup_lt_Some _ _ _ Hb) as Hlt. unfold insert_flits.
  eapply safe_mono; [apply (safe_for (fun j '(n', s') =>
    n' = n <| niOutVcs ::= <[Z.to_nat vc := append (take (Z.to_nat j) (packet_flits packet_id vc vnet route num msg_ptr size width sd)) b]> |> /\
    stats_only s s' /\ stats_ok vnets routers k (stats s')))|].
  - split; [|split; [exists (stats s); by destruct s|done]]. rewrite append_nil. by apply same_queue.
  - intros j [n' s'] Hj (-> & [st ->] & Hs'). rewrite Z2Nat.id in Hj by lia.
    apply safe_bind. eapply safe_mono; [by eapply injected_flit_safe|]. intros s'' [[st' ->] Hs''].
    cbn [safe]. apply safe_bind, safe_valter; [cbn; rewrite zlength_insert; unfold zlength; lia|].
    intros b' Hb'. cbn in Hb'. rewrite list_lookup_insert_eq in Hb' by done. injection Hb' as <-.
    cbn. split; [|split; [by eexists|done]]. rewrite list_insert_insert_eq.
    replace (Z.to_nat (j + 1)) with (S (Z.to_nat j)) by lia.
    rewrite (take_S_r _ _ (flit.set_src_delay sd (flit.new packet_id j vc vnet route num msg_ptr size width curTick))).
    + by rewrite insert_append.
    + unfold packet_flits, flit.packet. rewrite !list_lookup_fmap, lookup_seq_lt by lia. cbn. by rewrite Z2Nat.id by lia.
  - intros [n' s'] (-> & Hst). split; [|done]. rewrite take_ge; [done|].
    unfold packet_flits, flit.packet. rewrite !length_fmap, length_seq. lia.
Qed.

(** ** One packet *)

Section message.
(** A message on virtual network [vnet], of which [num] flits fit the output
    port; the network knows the routers of the nodes. *)
Context (vnet vnets routers num size : Z) (oPort : OutputPort.t) (msize : MessageSizeType).
Context (Hvnet : 0 <= vnet < vnets) (Hnum : 0 <= num) (Hport : 0 <= OutputPort.routerID oPort < routers).
Context (Hsize : nv_message_size v msize = Ok size).
Context (type : VNET_type) (Htype : nv_vnet_type v vnet = Ok type).

(** A node whose router the network knows. *)
Definition located (x : Z) : Prop := exists r, nv_router_id v x vnet = Ok r /\ 0 <= r < routers.

Definition route_to (n : t) (x : Z) (route : RouteInfo) : Prop :=
  CommonTypes.vnet route = vnet /\ dest_ni route = x /\ nodes (net_dest route) = [x] /\
  src_ni route = m_id n /\ src_router route = OutputPort.routerID oPort /\
  nv_router_id v x vnet = Ok (dest_router route) /\ hops_traversed route = -1.

(** The packet of message [m] for node [x] went to channel [vc]. *)
Record packet_sent (m : Message.t) (x vc : Z) (n : t) (s : NetState) (n' : t) (s' : NetState) : Prop := {
  ps_packet : exists packet_id route b o,
    route_to n x route /\ niOutVcs n !! Z.to_nat vc = Some b /\ outVcState n !! Z.to_nat vc = Some o /\
    n' = n <| niOutVcs ::= <[Z.to_nat vc := append (packet_flits packet_id vc vnet route num (next_message s) size
             (OutputPort.bitWidth oPort) (u64 (curTick - Message.m_time m))) b]> |>
           <| m_ni_out_vcs_enqueue_time ::= <[Z.to_nat vc := curTick]> |>
           <| outVcState ::= <[Z.to_nat vc := OutVcState.setState ACTIVE_ curTick o]> |>;
  ps_message : messages s' = <[next_message s := m <| Message.m_id := next_message s |>]> (messages s);
  ps_next : next_message s' = next_message s + 1;
}.

Lemma send_packet_spec k x vc m n s :
  ni_ok n -> m_virtual_networks n = vnets -> vc_of vnet vc n -> stats_ok vnets routers (k + 1) (stats s) -> 0 <= k ->
  located x -> nodes (Message.m_Destination m) = [x] -> Message.m_MessageSize m = msize ->
  safe (send_packet v curTick vnet vc x num oPort m n s) (fun '(n', s') =>
    packet_sent m x vc n s n' s' /\ stats_ok vnets routers k (stats s')).
Proof.
  intros Hn Hvn Hvc Hs Hk (r & Hr & Hrr) Hnodes Hms. subst vnets. pose proof (vc_of_bound vnet vc n Hn Hvnet Hvc) as Hvcb.
  destruct Hn as [HV Hal Hra Hbu Hst Hq Hti]. unfold zlength in *.
  destruct (lookup_lt_is_Some_2 (niOutVcs n) (Z.to_nat vc)) as [b Hb]; [lia|].
  unfold send_packet, make_route. rewrite Hr. cbn [mbind res_bind]. set (route := RouteInfo_new <| _ := _ |> <| _ := _ |> <| _ := _ |> <| _ := _ |> <| _ := _ |> <| _ := _ |> <| _ := _ |>).
  assert (Hroute : route_to n x route) by (by repeat split).
  apply safe_bind. eapply safe_mono; [by apply (injected_packet_safe (m_virtual_networks n) routers (k + 1))|]. intros s1 [[st1 ->] Hs1].
  rewrite Htype. cbn [mbind res_bind]. apply safe_bind. eapply safe_mono; [by apply (traffic_safe (m_virtual_networks n) routers (k + 1))|]. intros s2 [[st2 ->] Hs2].
  unfold GarnetStats.getNextPacketID. pose proof (so_number _ _ _ _ Hs2) as Hno. rewrite iadd_Ok by lia. cbn [mbind res_bind].
  unfold new_message. rewrite Hms, Hsize. cbn [mbind res_bind].
  apply safe_bind. eapply safe_mono; [eapply (insert_flits_spec (m_virtual_networks n) routers k); [|done|lia|done|done]|].
  { destruct Hs2. split; cbn; try done. cbn in *. lia. }
  intros [n3 s3] (-> & [st3 ->] & Hs3). apply safe_bind, safe_vset; [cbn; unfold zlength; lia|].
  apply safe_bind, safe_valter; [cbn; unfold zlength; lia|]. intros o Ho. cbn [safe]. split; [|done].
  split; [|done|done]. exists (GarnetStats.m_next_packet_id st2), route, b, o. split; [done|]. split; [done|]. split; [done|]. reflexivity.
Qed.

(** ** All packets of a message *)

(** The packet for node [x] is on channel [vc], behind what was there, and
    carries a clone of [msg] for [x] alone, stored at [ptr]. *)
Definition placed (msg : Message.t) (ptr x vc : Z) (n n' : t) (s' : NetState) : Prop :=
  exists packet_id route b d,
    route_to n x route /\ niOutVcs n !! Z.to_nat vc = Some b /\
    niOutVcs n' !! Z.to_nat vc = Some (append (packet_flits packet_id vc vnet route num ptr size
      (OutputPort.bitWidth oPort) (u64 (curTick - Message.m_time msg))) b) /\
    nodes d = [x] /\ messages s' !! ptr = Some (msg <| Message.m_Destination := d |> <| Message.m_id := ptr |>).

(** The packets for the nodes [sent] are on the channels [vcs], one on each,
    which were idle and are no more; nothing else changed but the search for
    channels. *)
Record outcome (msg : Message.t) (sent vcs : list Z) (n : t) (s : NetState) (n' : t) (s' : NetState) : Prop := {
  oc_length : length vcs = length sent;
  oc_distinct : NoDup vcs;
  oc_idle : Forall (fun vc => vc_of vnet vc n /\ idle vc n) vcs;
  oc_active : Forall (fun vc => ~ idle vc n') vcs;
  oc_placed : forall j x vc, sent !! j = Some x -> vcs !! j = Some vc -> placed msg (next_message s + Z.of_nat j) x vc n n' s';
  oc_others : forall vc, 0 <= vc -> vc ∉ vcs ->
    niOutVcs n' !! Z.to_nat vc = niOutVcs n !! Z.to_nat vc /\ outVcState n' !! Z.to_nat vc = outVcState n !! Z.to_nat vc;
  oc_store : next_message s' = next_message s + zlength sent /\
    forall p, p < next_message s -> messages s' !! p = messages s !! p;
  oc_frame : exists a c q times o, n' = n <| m_vc_allocator := a |> <| vc_busy_counter := c |> <| niOutVcs := q |>
    <| m_ni_out_vcs_enqueue_time := times |> <| outVcState := o |>;
}.

Lemma active_not_idle vc n n' o :
  outVcState n' = <[Z.to_nat vc := OutVcState.setState ACTIVE_ curTick o]> (outVcState n) ->
  (Z.to_nat vc < length (outVcState n))%nat -> ~ idle vc n'.
Proof.
  intros Ho Hlt (o' & Ho' & Hi). rewrite Ho, list_lookup_insert_eq in Ho' by done. injection Ho' as <-. done.
Qed.

Lemma outcome_nil msg n s n' : searched n n' -> outcome msg [] [] n s n' s.
Proof.
  intros [Hok (a & c & ->)]. split; try done.
  - by apply list.NoDup_nil.
  - split; [unfold zlength; simpl; lia|done].
  - by exists a, c, (niOutVcs n), (m_ni_out_vcs_enqueue_time n), (outVcState n).
Qed.

Lemma packet_sent_ok m x vc n s n' s' : packet_sent m x vc n s n' s' -> ni_ok n -> ni_ok n'.
Proof.
  intros [(pid & route & b & o & _ & _ & _ & ->) _ _] []. split; cbn; rewrite ?zlength_insert; done.
Qed.

Lemma vc_of_searched vc n n' : searched n n' -> vc_of vnet vc n' <-> vc_of vnet vc n.
Proof. intros [_ (a & c & ->)]. done. Qed.

Lemma outcome_cons msg d rest x vc sent vcs n s n0 n1 s1 n' s' :
  ni_ok n -> m_virtual_networks n = vnets -> searched n n0 -> vc_of vnet vc n -> idle vc n -> nodes d = [x] ->
  packet_sent (msg <| Message.m_Destination := d |>) x vc n0 s n1 s1 ->
  outcome (msg <| Message.m_Destination := rest |>) sent vcs n1 s1 n' s' ->
  outcome msg (x :: sent) (vc :: vcs) n s n' s'.
Proof.
  intros Hn Hvn [Hok (a & c & ->)] Hvc Hidle Hd Hsent [H1 H2 H3 H4 H5 H6 [H7a H7b] H8]. subst vnets.
  pose proof (vc_of_bound vnet vc n Hn Hvnet Hvc) as Hb. destruct Hsent as [(pid & route & b & o & Hr & Hbv & Ho & ->) Hm Hnext].
  assert (Hlt : (Z.to_nat vc < length (outVcState n))%nat) by (apply lookup_lt_Some in Ho; done).
  assert (Hnot : ~ idle vc (n <| outVcState ::= <[Z.to_nat vc := OutVcState.setState ACTIVE_ curTick o]> |>)) by (by eapply active_not_idle).
  assert (Hpos : Forall (fun vc => 0 <= vc) vcs).
  { eapply list.Forall_impl; [exact H3|]. intros y [Hy _]. eapply (vc_of_bound vnet y n Hn Hvnet), Hy. }
  assert (Hnin : vc ∉ vcs).
  { intros Hin. eapply list.Forall_forall in H3 as [_ Hi]; [|exact Hin]. by apply Hnot. }
  destruct (H6 vc ltac:(lia) Hnin) as [Hq Hst]. cbn in Hq, Hst.
  split.
  - simpl. by rewrite H1.
  - by apply list.NoDup_cons.
  - constructor; [done|]. eapply list.Forall_impl; [exact (proj2 (list.Forall_and _ _) (conj H3 Hpos))|].
    intros y [[Hy Hi] Hp]. split; [done|].
    destruct (decide (y = vc)) as [->|Hne]; [done|].
    destruct Hi as (oy & Hoy & Hi). cbn in Hoy. rewrite list_lookup_insert_ne in Hoy by lia. by exists oy.
  - constructor; [|done]. unfold idle. by rewrite Hst.
  - intros [|j] y w; simpl.
    + intros [= <-] [= <-]. rewrite Z.add_0_r. exists pid, route, b, d. split; [done|]. split; [done|].
      split; [rewrite Hq; apply list_lookup_insert_eq; exact (lookup_lt_Some _ _ _ Hbv)|]. split; [done|].
      rewrite H7b, Hm by lia. by rewrite lookup_insert_eq.
    + intros Hy Hw. destruct (H5 j y w Hy Hw) as (pid' & route' & b' & d' & P1 & P2 & P3 & P4 & P5).
      exists pid', route', b', d'. rewrite Hnext in *. split; [exact P1|].
      assert (Hwv : w ∈ vcs) by (by eapply list_elem_of_lookup_2).
      assert (w <> vc) by (intros ->; done). pose proof (proj1 (list.Forall_forall _ _) Hpos _ Hwv) as Hw0. simpl in Hw0.
      cbn in P2. rewrite list_lookup_insert_ne in P2 by lia. split; [done|].
      replace (next_message s + Z.of_nat (S j)) with (next_message s + 1 + Z.of_nat j) by lia. done.
  - intros y Hy Hny. apply not_elem_of_cons in Hny as [Hne Hny]. destruct (H6 y Hy Hny) as [-> ->]. cbn.
    by rewrite !list_lookup_insert_ne by lia.
  - rewrite H7a, Hnext. unfold zlength. simpl. split; [lia|]. intros p Hp.
    rewrite H7b, Hm, lookup_insert_ne by lia. done.
  - destruct H8 as (a' & c' & q & times & o' & ->). by exists a', c', q, times, o'.
Qed.

(** The nodes that the loop still has to serve. *)
Definition to_serve (multicast : bool) (dest_nodes : list Z) (msg : Message.t) : Prop :=
  if multicast then nodes (Message.m_Destination msg) = dest_nodes
  else dest_nodes = [] \/ (nodes (Message.m_Destination msg) = dest_nodes /\ length dest_nodes = 1%nat).

Record can_serve (dest_nodes : list Z) (msg : Message.t) (n : t) (s : NetState) : Prop := {
  cs_ok : ni_ok n;
  cs_vnets : m_virtual_networks n = vnets;
  cs_patient : patient vnet n;
  cs_threshold : 0 < m_deadlock_threshold n;
  cs_stats : stats_ok vnets routers (zlength dest_nodes) (stats s);
  cs_nodes : Forall (fun x => is_node x /\ located x) dest_nodes;
  cs_sized : NetDest.sized (Message.m_Destination msg);
  cs_size : Message.m_MessageSize msg = msize;
}.

(** What is left of the message when the channels run out. *)
Definition left_over (msg : Message.t) (rest : list Z) (msg' : Message.t) (n' : t) : Prop :=
  nodes (Message.m_Destination msg') = rest /\ NetDest.sized (Message.m_Destination msg') /\
  (exists d, msg' = msg <| Message.m_Destination := d |>) /\ forall vc, vc_of vnet vc n' -> ~ idle vc n'.

Lemma filter_all (P : Z -> Prop) `{!forall x, Decision (P x)} (l : list Z) : (forall x, x ∈ l -> P x) -> filter P l = l.
Proof.
  induction l as [|x l IH]; intros HP; [done|]. rewrite filter_cons_True by (apply HP; by left).
  f_equal. apply IH. intros y Hy. apply HP. by right.
Qed.

(** The clone for node [x], and the message without [x]. *)
Lemma split_message (multicast : bool) x dest_nodes nmd msg :
  NetDest.sized nmd -> NetDest.sized (Message.m_Destination msg) -> is_node x ->
  to_serve multicast (x :: dest_nodes) msg ->
  safe (if multicast then
          '(found, personal) ← personal_dest x;
          let new_msg := if (found : bool) then msg <| Message.m_Destination := personal |> else msg in
          nmd ← NetDest.removeNetDest personal nmd;
          rest ← NetDest.removeNetDest personal (Message.m_Destination msg);
          Ok (new_msg, nmd, msg <| Message.m_Destination := rest |>)
        else Ok (msg, nmd, msg))
    (fun '(new_msg, nmd', msg') => NetDest.sized nmd' /\ to_serve multicast dest_nodes msg' /\
      (exists d, new_msg = msg <| Message.m_Destination := d |> /\ nodes d = [x]) /\
      exists rest, msg' = msg <| Message.m_Destination := rest |> /\ NetDest.sized rest).
Proof.
  intros Hnmd Hsz Hx Hto. destruct multicast; simpl in Hto.
  - apply safe_bind. eapply safe_mono; [by apply personal_dest_spec|]. intros [found d] (-> & Hd & Hdx).
    apply safe_bind. eapply safe_mono; [by apply removeNetDest_spec|]. intros nmd' [Hnmd' _].
    apply safe_bind. eapply safe_mono; [by apply removeNetDest_spec|]. intros rest [Hrest Hmem]. cbn.
    split; [done|]. split; [|split; eauto].
    rewrite (nodes_remove _ _ _ x Hmem Hdx), Hto, filter_cons_False by naive_solver.
    pose proof (nodes_NoDup (Message.m_Destination msg)) as Hnd. rewrite Hto in Hnd.
    apply list.NoDup_cons in Hnd as [Hnx _]. apply filter_all. intros y Hy ->. done.
  - destruct Hto as [|[Hto Hl]]; [done|]. destruct dest_nodes; [|done]. cbn. split; [done|]. split; [by left|].
    split; exists (Message.m_Destination msg); by destruct msg.
Qed.

Lemma send_packets_spec multicast dest_nodes nmd msg n s :
  can_serve dest_nodes msg n s -> to_serve multicast dest_nodes msg -> NetDest.sized nmd ->
  safe (send_packets v curTick vnet num oPort multicast dest_nodes nmd msg n s) (fun '(ok, msg', n', s') =>
    exists sent rest vcs, dest_nodes = sent ++ rest /\ outcome msg sent vcs n s n' s' /\ ni_ok n' /\
      ok = bool_decide (rest = []) /\ (rest <> [] -> left_over msg rest msg' n')).
Proof.
  revert nmd msg n s. induction dest_nodes as [|x dest_nodes IH]; intros nmd msg n s Hc Hto Hnmd; simpl.
  { exists [], [], []. split; [done|]. pose proof (cs_ok _ _ _ _ Hc) as Hok.
    split; [apply outcome_nil; split; [done|]; exists (m_vc_allocator n), (vc_busy_counter n); by destruct n|]. done. }
  destruct Hc. apply list.Forall_cons in cs_nodes0 as [[Hx Hlx] Hnodes].
  apply safe_bind. eapply safe_mono; [apply calculateVC_spec; [done|lia|done|done]|].
  intros [vc n0] [Hse [[-> Hbusy]|(Hvc & Hidle & Hpat)]].
  - cbn. exists [], (x :: dest_nodes), []. split; [done|]. split; [by apply outcome_nil|]. split; [apply Hse|]. split; [done|].
    intros _. split; [destruct multicast; [done|by destruct Hto as [|[? _]]]|]. split; [done|].
    split; [exists (Message.m_Destination msg); by destruct msg|].
    destruct Hse as [_ (a & c & ->)]. exact Hbusy.
  - pose proof (vc_of_bound vnet vc n cs_ok0 ltac:(lia) Hvc) as Hb.
    destruct (Z.eqb_spec vc (-1)) as [|_]; [lia|]. apply safe_bind.
    eapply safe_mono; [by apply (split_message multicast x dest_nodes)|].
    intros [[new_msg nmd'] msg'] (Hnmd' & Hto' & (d & -> & Hd) & rest & -> & Hrest).
    assert (Hvn0 : m_virtual_networks n0 = vnets) by (destruct Hse as [_ (a & c & ->)]; done).
    assert (Hth0 : m_deadlock_threshold n0 = m_deadlock_threshold n) by (destruct Hse as [_ (a & c & ->)]; done).
    apply safe_bind. eapply safe_mono.
    + eapply (send_packet_spec (zlength dest_nodes)); [apply Hse|done| |..|done|done|done].
      * by apply (vc_of_searched _ _ _ Hse).
      * unfold zlength in *. simpl in cs_stats0. by replace (Z.of_nat (length dest_nodes) + 1) with (Z.of_nat (S (length dest_nodes))) by lia.
      * apply zlength_nonneg.
    + intros [n1 s1] [Hsent Hst1]. eapply safe_mono; [apply (IH nmd')|].
      * assert (Hn1 := Hsent). apply packet_sent_ok in Hn1; [|apply Hse].
        destruct Hsent as [(pid & route & b & o & _ & _ & _ & ->) _ _].
        split; try done. cbn. by rewrite Hth0.
      * done.
      * done.
      * intros [[[ok msg''] n'] s'] (sent & rst & vcs & -> & Hout & Hok' & -> & Hleft).
        exists (x :: sent), rst, (vc :: vcs). split; [done|]. split; [by eapply outcome_cons|]. split; [done|]. split; [done|].
        intros Hne. destruct (Hleft Hne) as (? & ? & (d' & ->) & ?). split; [done|]. split; [done|]. split; [by exists d'|done].
Qed.

End message.
(** A packet: numbered flits on one channel, of which exactly the first is a
    head and exactly the last is a tail. *)
Definition is_packet (num vc vnet : Z) (fs : list flit.t) : Prop :=
  zlength fs = num /\ forall j f, fs !! j = Some f ->
    flit.m_id f = Z.of_nat j /\ flit.m_vc f = vc /\ flit.m_vnet f = vnet /\ flit.m_size f = num /\
    (flit.is_head f = true <-> j = 0%nat) /\ (flit.is_tail f = true <-> Z.of_nat j = num - 1).

Lemma packet_flits_shape packet_id vc vnet route num ptr size width sd :
  1 <= num -> is_packet num vc vnet (packet_flits packet_id vc vnet route num ptr size width sd).
Proof.
  intros Hnum. unfold is_packet, packet_flits, flit.packet, zlength. rewrite !length_fmap, length_seq. split; [lia|].
  intros j f. rewrite !list_lookup_fmap. destruct (seq 0 (Z.to_nat num) !! j) as [j'|] eqn:E; [|done].
  apply lookup_seq in E as [-> Hj]. cbn. intros [= <-]. do 4 (split; [done|]).
  unfold flit.is_head, flit.is_tail. rewrite !bool_decide_eq_true. cbn.
  rewrite (flit.type_of_head (Z.of_nat j) num), (flit.type_of_tail (Z.of_nat j) num) by lia. lia.
Qed.

(** C19: what the network interface makes of a message.  On an interface
    whose vectors have their sizes, with a port for the virtual network and
    routers for all destinations, and before the deadlock limit is reached:
    [flitisizeMessage] runs to its end.  It serves a first part of the
    destinations, in their order; every served destination gets exactly one
    packet, of [divCeil size width] flits, with a head and a tail in
    the right places, on a virtual channel that was idle and is taken now, no
    two on the same channel; the packet carries a clone of the message for
    that destination alone and its route leads there; all other channels are
    as before.  When it returns true, all destinations are served; when it
    returns false, no channel of the virtual network is idle and the message
    in the buffer has kept exactly the other destinations. *)
Theorem message_becomes_packets vnet routers size type port oPort msg n s :
  ni_ok n -> 0 <= vnet < m_virtual_networks n -> getOutportForVnet vnet n = Some (port, oPort) ->
  0 <= OutputPort.routerID oPort < routers ->
  nv_message_size v (Message.m_MessageSize msg) = Ok size ->
  0 < size -> 0 < OutputPort.bitWidth oPort -> size + OutputPort.bitWidth oPort < 2 ^ 24 ->
  nv_vnet_type v vnet = Ok type ->
  patient vnet n -> 0 < m_deadlock_threshold n ->
  NetDest.sized (Message.m_Destination msg) -> Forall (located vnet routers) (nodes (Message.m_Destination msg)) ->
  stats_ok (m_virtual_networks n) routers (zlength (nodes (Message.m_Destination msg))) (stats s) ->
  let num := divCeil size (OutputPort.bitWidth oPort) in
  exists ok msg' n' s' sent rest vcs,
    flitisizeMessage v curTick msg vnet n s = Ok (ok, msg', n', s') /\
    nodes (Message.m_Destination msg) = sent ++ rest /\ ok = bool_decide (rest = []) /\
    outcome vnet num size oPort msg sent vcs n s n' s' /\
    (forall packet_id vc route ptr width sd, is_packet num vc vnet (packet_flits packet_id vc vnet route num ptr size width sd)) /\
    (rest <> [] -> left_over vnet msg rest msg' n').
Proof.
  intros Hn Hv Hp Hport Hsize Hpos Hwidth Hsum Htype Hpat Hth Hsz Hloc Hst num.
  pose proof (to_int_divCeil size (OutputPort.bitWidth oPort) ltac:(lia) Hwidth Hsum) as Hnum. fold num in Hnum.
  assert (Hnum1 : 1 <= num) by (pose proof (divCeil_spec size (OutputPort.bitWidth oPort) Hwidth Hpos); nia).
  assert (Hflit : safe (flitisizeMessage v curTick msg vnet n s) (fun '(ok, msg', n', s') =>
    exists sent rest vcs, nodes (Message.m_Destination msg) = sent ++ rest /\ outcome vnet num size oPort msg sent vcs n s n' s' /\
      ni_ok n' /\ ok = bool_decide (rest = []) /\ (rest <> [] -> left_over vnet msg rest msg' n'))).
  { unfold flitisizeMessage. rewrite getAllDest_nodes, Hp, Hsize by done. cbn [mbind res_bind]. rewrite Hnum. cbn [mbind res_bind].
    eapply (send_packets_spec vnet (m_virtual_networks n) routers num size oPort (Message.m_MessageSize msg)); try done; try lia.
    - split; try done. apply list.Forall_forall. intros x Hx. split; [|by eapply list.Forall_forall in Hloc].
      unfold nodes in Hx. apply list_elem_of_filter in Hx as [_ Hx%elem_of_seqZ]. unfold is_node. lia.
    - unfold to_serve, zlength. destruct (Z.ltb_spec 1 (Z.of_nat (length (nodes (Message.m_Destination msg))))); [done|].
      destruct (nodes _) as [|x [|y l]]; simpl in *; [by left|by right|lia]. }
  apply safe_inv in Hflit as ([[[ok msg'] n'] s'] & Hok & sent & rest & vcs & H1 & H2 & _ & H3 & H4).
  exists ok, msg', n', s', sent, rest, vcs. do 4 (split; [done|]). split; [|done].
  intros. by apply packet_flits_shape.
Qed.

End packets.

(** ** An example: three destinations and two channels *)

#[local] Existing Instance two_machines.
#[local] Existing Instance two_machines_ok.

Definition demo_view : NetView :=
  mkNetView (mkRubySystem false false 6) (fun ni _ => Ok (ni mod 16)) (fun _ => Ok 72) (fun _ => Ok false)
    (fun _ => Ok DATA_VNET_) 4 1.

Definition demo_port : OutputPort.t :=
  OutputPort.new (NetworkLink.new 0 1 1 16 500 []) (NetworkLink.setVcsPerVnet 2 (NetworkLink.new 1 1 1 16 500 [])) 5.

Definition demo_ni : t :=
  match addOutPort demo_view (NetworkLink.new 0 1 1 16 500 []) (NetworkLink.new 1 1 1 16 500 []) 5 2 (new 5 1 50000 500) with
  | Ok n => n | Err _ => new 0 0 0 0 end.

Definition demo_dest : NetDest.t :=
  match (d ← NetDest.new; d ← NetDest.add (mkMachineID 0 1) d; d ← NetDest.add (mkMachineID 0 7) d;
         NetDest.add (mkMachineID 1 3) d) with
  | Ok d => d | Err _ => [] end.

Definition demo_net : NetState := mkNetState (GarnetStats.new 1 16) ∅ 100 (mkRng (fun _ => 0) 0).

Definition demo_packet_message : Message.t := Message.new 1 MessageSizeType_Data demo_dest 0.

Lemma message_becomes_packets_witness :
  exists ok msg' n' s' sent rest vcs,
    flitisizeMessage demo_view 1000 demo_packet_message 0 demo_ni demo_net = Ok (ok, msg', n', s') /\
    nodes demo_dest = sent ++ rest /\ ok = bool_decide (rest = []) /\
    outcome demo_view 1000 0 5 72 demo_port demo_packet_message sent vcs demo_ni demo_net n' s' /\
    map (fun b => map flit.m_type (flitBuffer.m_buffer b)) (niOutVcs n') =
      [[HEAD_; BODY_; BODY_; BODY_; TAIL_]; [HEAD_; BODY_; BODY_; BODY_; TAIL_]] /\
    nodes (Message.m_Destination msg') = [19] /\ ok = false.
Proof.
  destruct (message_becomes_packets demo_view 1000 0 16 72 DATA_VNET_ 0 demo_port demo_packet_message demo_ni demo_net)
    as (ok & msg' & n' & s' & sent & rest & vcs & H1 & H2 & H3 & H4 & _ & _).
  - split; try reflexivity. by repeat constructor.
  - done.
  - reflexivity.
  - done.
  - reflexivity.
  - lia.
  - done.
  - done.
  - reflexivity.
  - by exists 0.
  - done.
  - split; [reflexivity|]. intros [|[|m]] r; [intros [= <-]; reflexivity|intros [= <-]; reflexivity|done].
  - assert (nodes (Message.m_Destination demo_packet_message) = [1; 7; 19]) as -> by reflexivity.
    repeat constructor; by eexists.
  - split; try reflexivity; try (split; [reflexivity|]); [by repeat constructor|by repeat constructor|by vm_compute].
  - exists ok, msg', n', s', sent, rest, vcs. do 4 (split; [done|]).
    vm_compute in H1. injection H1 as <- <- <- <-. done.
Defined.
