(* ===== verification/Units.v ===== *)
(** * Units: input units, output units and the state of a router

    The data of InputUnit, OutputUnit, SwitchAllocator, CrossbarSwitch
    and Router, and the operations of the units that do not involve the
    rest of the router.  A unit holds the link it reads from; a link it
    writes to is only told to wake up, which is a [LinkEvent]. *)

From S2P Require Import Prelude NetDest CommonTypes Flit Channels Detector RoutingUnit Clock Link.

(** ** InputUnit *)

Module InputUnit.

Record t := mk {
  m_id : Z;
  m_direction : PortDirection;
  m_vc_per_vnet : Z;
  m_in_link : NetworkLink.t;
  creditQueue : flitBuffer.t;
  virtualChannels : list VirtualChannel.t;
  m_num_buffer_writes : list Z;
  m_num_buffer_reads : list Z;
  HR : HistoryRecord.t;
  round_flit : Z;
}.
#[global] Instance t_eta : Etaed t := fun u =>
  mk (m_id u) (m_direction u) (m_vc_per_vnet u) (m_in_link u) (creditQueue u) (virtualChannels u)
     (m_num_buffer_writes u) (m_num_buffer_reads u) (HR u) (round_flit u).

Definition new (id : Z) (direction : PortDirection) (vc_per_vnet num_vcs : Z)
    (in_link : NetworkLink.t) : res t :=
  n ← cdiv num_vcs vc_per_vnet;
  Ok (mk id direction vc_per_vnet in_link flitBuffer.new
        (replicate (Z.to_nat num_vcs) VirtualChannel.new)
        (replicate (Z.to_nat n) 0) (replicate (Z.to_nat n) 0) (HistoryRecord.new 8) 0).

(** Accesses to one virtual channel. *)
Definition with_vc {A} (f : VirtualChannel.t -> A) (vc : Z) (u : t) : res A :=
  v ← vget (virtualChannels u) vc; Ok (f v).
Definition on_vc (f : VirtualChannel.t -> VirtualChannel.t) (vc : Z) (u : t) : res t :=
  vcs ← valter f (virtualChannels u) vc; Ok (u <| virtualChannels := vcs |>).

Definition set_vc_idle (vc curTime : Z) : t -> res t := on_vc (VirtualChannel.set_idle curTime) vc.
Definition set_vc_active (vc curTime : Z) : t -> res t := on_vc (VirtualChannel.set_active curTime) vc.
Definition grant_outport (vc outport : Z) : t -> res t := on_vc (VirtualChannel.set_outport outport) vc.
Definition grant_outvc (vc outvc : Z) : t -> res t := on_vc (VirtualChannel.set_outvc outvc) vc.
Definition get_outport (invc : Z) : t -> res Z := with_vc VirtualChannel.get_outport invc.
Definition get_outvc (invc : Z) : t -> res Z := with_vc VirtualChannel.get_outvc invc.
Definition get_enqueue_time (invc : Z) : t -> res Z := with_vc VirtualChannel.get_enqueue_time invc.
Definition isReady (invc curTime : Z) : t -> res bool := with_vc (VirtualChannel.isReady curTime) invc.

Definition need_stage (vc : Z) (stage : flit_stage) (time : Z) (u : t) : res bool :=
  v ← vget (virtualChannels u) vc; VirtualChannel.need_stage stage time v.

Definition peekTopFlit (vc : Z) (u : t) : res flit.t :=
  v ← vget (virtualChannels u) vc; VirtualChannel.peekTopFlit v.

Definition getTopFlit (vc : Z) (u : t) : res (flit.t * t) :=
  v ← vget (virtualChannels u) vc;
  r ← VirtualChannel.getTopFlit v;
  vcs ← vset (virtualChannels u) vc r.2;
  Ok (r.1, u <| virtualChannels := vcs |>).

(** Queues a credit; the credit link wakes up at the next edge. *)
Definition increment_credit (in_vc : Z) (free_signal : bool) (curTime : Z) (u : t) : t :=
  u <| creditQueue ::= flitBuffer.insert (Credit.new in_vc free_signal curTime) |>.

Definition resetStats (u : t) : t :=
  u <| m_num_buffer_reads := replicate (length (m_num_buffer_reads u)) 0 |>
    <| m_num_buffer_writes := replicate (length (m_num_buffer_reads u)) 0 |>.

Definition functionalRead (rd : flit.t -> bool) (u : t) : bool :=
  foldl (fun read v => if VirtualChannel.functionalRead rd v then true else read)
        false (virtualChannels u).
Definition functionalWrite (wr : flit.t -> bool) (u : t) : Z :=
  foldl (fun n v => n + VirtualChannel.functionalWrite wr v) 0 (virtualChannels u).

End InputUnit.

(** ** OutputUnit *)

Module OutputUnit.

Record t := mk {
  m_id : Z;
  m_direction : PortDirection;
  m_vc_per_vnet : Z;
  m_credit_link : NetworkLink.t;
  outBuffer : flitBuffer.t;
  outVcState : list OutVcState.t;
  consumer : Consumer.t;
}.
#[global] Instance t_eta : Etaed t := fun u =>
  mk (m_id u) (m_direction u) (m_vc_per_vnet u) (m_credit_link u) (outBuffer u) (outVcState u)
     (consumer u).

(** The constructor builds one state per virtual channel of the consumer. *)
Definition new (id : Z) (direction : PortDirection) (consumerVcs num_vnets : Z)
    (credit_link : NetworkLink.t) (get_vnet_type : Z -> res VNET_type)
    (buffersPerDataVC buffersPerCtrlVC : Z) : res t :=
  vcs ← for_ (Z.to_nat (consumerVcs * num_vnets)) 0 (fun i l =>
    o ← OutVcState.new i get_vnet_type buffersPerDataVC buffersPerCtrlVC consumerVcs;
    Ok (l ++ [o])) [];
  Ok (mk id direction consumerVcs credit_link flitBuffer.new vcs Consumer.new).

Definition decrement_credit (out_vc : Z) (u : t) : res t :=
  l ← valterM OutVcState.decrement_credit (outVcState u) out_vc; Ok (u <| outVcState := l |>).

Definition increment_credit (out_vc : Z) (u : t) : res t :=
  l ← valterM OutVcState.increment_credit (outVcState u) out_vc; Ok (u <| outVcState := l |>).

Definition has_credit (curTick out_vc : Z) (u : t) : res bool :=
  o ← vget (outVcState u) out_vc;
  _ ← assert (OutVcState.isInState ACTIVE_ curTick o);
  Ok (OutVcState.has_credit o).

Definition get_credit_count (vc : Z) (u : t) : res Z :=
  o ← vget (outVcState u) vc; Ok (OutVcState.get_credit_count o).

Definition set_vc_state (state : VC_state_type) (vc curTime : Z) (u : t) : res t :=
  l ← valter (OutVcState.setState state curTime) (outVcState u) vc; Ok (u <| outVcState := l |>).

Definition is_vc_idle (vc curTime : Z) (u : t) : res bool :=
  o ← vget (outVcState u) vc; Ok (OutVcState.isInState IDLE_ curTime o).

Definition has_free_vc (curTick vnet : Z) (u : t) : res bool :=
  for_break (Z.to_nat (m_vc_per_vnet u)) (vnet * m_vc_per_vnet u) (fun vc (_ : bool) =>
    idle ← is_vc_idle vc curTick u; Ok (idle, idle)) false.

(** The first idle channel of the virtual network becomes active; -1 when
    there is none. *)
Definition select_free_vc (curTick vnet : Z) (u : t) : res (Z * t) :=
  for_break (Z.to_nat (m_vc_per_vnet u)) (vnet * m_vc_per_vnet u) (fun vc '(_, u) =>
    idle ← is_vc_idle vc curTick u;
    if (idle : bool) then u' ← set_vc_state ACTIVE_ vc curTick u; Ok (true, (vc, u'))
    else Ok (false, (-1, u))) (-1, u).

(** Reads one credit from downstream. *)
Definition wakeup (em : Clocked.t) (curTick : Z) (u : t) : res t :=
  if NetworkLink.isReady curTick (m_credit_link u) then
    '(t_credit, link) ← NetworkLink.consumeLink (m_credit_link u);
    let u := u <| m_credit_link := link |> in
    let vc := flit.m_vc t_credit in
    u ← increment_credit vc u;
    free ← Credit.is_free_signal t_credit;
    u ← (if (free : bool) then set_vc_state IDLE_ vc curTick u else Ok u);
    if NetworkLink.isReady curTick (m_credit_link u) then
      c ← Consumer.scheduleEvent em curTick 1 (consumer u); Ok (u <| consumer := c |>)
    else Ok u
  else Ok u.

(** The output link wakes up at the next edge. *)
Definition insert_flit (t_flit : flit.t) (u : t) : t := u <| outBuffer ::= flitBuffer.insert t_flit |>.

Definition functionalRead (rd : flit.t -> bool) (u : t) : bool :=
  flitBuffer.functionalRead rd (outBuffer u).
Definition functionalWrite (wr : flit.t -> bool) (u : t) : Z :=
  flitBuffer.functionalWrite wr (outBuffer u).

End OutputUnit.
