(* ===== verification/Router.v ===== *)
(** * Router: the state of a router and its pipeline

    SwitchAllocator.hh/.cc, CrossbarSwitch.hh/.cc and Router.hh/.cc.  The
    parts of a router refer to each other through pointers to the router;
    here they are fields of one record, and an operation of a part is a
    function on the whole router. *)

From S2P Require Import Prelude NetDest CommonTypes Flit Channels Detector RoutingUnit Clock Link Units.

(** ** State *)

Module SwitchAllocator.

Record t := mk {
  m_num_inports : Z;
  m_num_outports : Z;
  m_num_vcs : Z;
  m_vc_per_vnet : Z;
  m_input_arbiter_activity : Z;
  m_output_arbiter_activity : Z;
  m_round_robin_invc : list Z;
  m_round_robin_inport : list Z;
  m_port_requests : list Z;
  m_vc_winners : list Z;
}.
#[global] Instance t_eta : Etaed t := fun s =>
  mk (m_num_inports s) (m_num_outports s) (m_num_vcs s) (m_vc_per_vnet s)
     (m_input_arbiter_activity s) (m_output_arbiter_activity s) (m_round_robin_invc s)
     (m_round_robin_inport s) (m_port_requests s) (m_vc_winners s).

Definition new (num_vcs vc_per_vnet : Z) : t := mk 0 0 num_vcs vc_per_vnet 0 0 [] [] [] [].

Definition init (num_inports num_outports : Z) (s : t) : t :=
  s <| m_num_inports := num_inports |> <| m_num_outports := num_outports |>
    <| m_round_robin_invc := replicate (Z.to_nat num_inports) 0 |>
    <| m_round_robin_inport := replicate (Z.to_nat num_outports) 0 |>
    <| m_port_requests := replicate (Z.to_nat num_inports) (-1) |>
    <| m_vc_winners := replicate (Z.to_nat num_inports) (-1) |>.

Definition clear_request_vector (s : t) : t :=
  s <| m_port_requests := replicate (length (m_port_requests s)) (-1) |>.

Definition resetStats (s : t) : t :=
  s <| m_input_arbiter_activity := 0 |> <| m_output_arbiter_activity := 0 |>.

End SwitchAllocator.

Module CrossbarSwitch.

Record t := mk { m_num_vcs : Z; m_crossbar_activity : Z; switchBuffers : list flitBuffer.t }.
#[global] Instance t_eta : Etaed t := fun c =>
  mk (m_num_vcs c) (m_crossbar_activity c) (switchBuffers c).

Definition new (num_vcs : Z) : t := mk num_vcs 0 [].

Definition init (num_inports : Z) (c : t) : t :=
  c <| switchBuffers := replicate (Z.to_nat num_inports) flitBuffer.new |>.

Definition update_sw_winner (inport : Z) (t_flit : flit.t) (c : t) : res t :=
  l ← valter (flitBuffer.insert t_flit) (switchBuffers c) inport;
  Ok (c <| switchBuffers := l |>).

Definition functionalRead (rd : flit.t -> bool) (c : t) : bool :=
  foldl (fun read b => if flitBuffer.functionalRead rd b then true else read)
        false (switchBuffers c).
Definition functionalWrite (wr : flit.t -> bool) (c : t) : Z :=
  foldl (fun n b => n + flitBuffer.functionalWrite wr b) 0 (switchBuffers c).
Definition resetStats (c : t) : t := c <| m_crossbar_activity := 0 |>.

End CrossbarSwitch.

(** A link told to wake up: the credit link of an input unit or the output
    link of an output unit, with the tick passed to [scheduleEventAbsolute]. *)
Inductive LinkEvent : Set :=
| CreditLinkEvent (inport tick : Z)
| OutLinkEvent (outport tick : Z).

Module Router.

Record t := mk {
  m_id : Z;
  m_latency : Z;
  m_virtual_networks : Z;
  m_vc_per_vnet : Z;
  m_num_vcs : Z;
  m_bit_width : Z;
  routingUnit : RoutingUnit;
  switchAllocator : SwitchAllocator.t;
  crossbarSwitch : CrossbarSwitch.t;
  m_input_unit : list InputUnit.t;
  m_output_unit : list OutputUnit.t;
  outBuf : outportRecord.t;
  inS0 : InputUnitStats;
  em : Clocked.t;
  consumer : Consumer.t;
  events : list LinkEvent;
}.
#[global] Instance t_eta : Etaed t := fun r =>
  mk (m_id r) (m_latency r) (m_virtual_networks r) (m_vc_per_vnet r) (m_num_vcs r)
     (m_bit_width r) (routingUnit r) (switchAllocator r) (crossbarSwitch r) (m_input_unit r)
     (m_output_unit r) (outBuf r) (inS0 r) (em r) (consumer r) (events r).

Definition new (id latency virt_nets vcs_per_vnet width clk_period : Z) : t :=
  let num_vcs := virt_nets * vcs_per_vnet in
  mk id latency virt_nets vcs_per_vnet num_vcs width RoutingUnit_new
     (SwitchAllocator.new num_vcs vcs_per_vnet) (CrossbarSwitch.new num_vcs) [] []
     outportRecord.new0 InputUnitStats_new (Clocked.new clk_period) Consumer.new [].

Definition get_num_inports (r : t) : Z := zlength (m_input_unit r).
Definition get_num_outports (r : t) : Z := zlength (m_output_unit r).

(** The port number is [unsigned]: a negative one is past the end. *)
Definition getInputUnit (port : Z) (r : t) : res InputUnit.t :=
  _ ← assert (bool_decide (0 <= port < zlength (m_input_unit r))); vget (m_input_unit r) port.
Definition getOutputUnit (port : Z) (r : t) : res OutputUnit.t :=
  _ ← assert (bool_decide (0 <= port < zlength (m_output_unit r))); vget (m_output_unit r) port.

(** Updates through such a pointer. *)
Definition setInputUnit (port : Z) (u : InputUnit.t) (r : t) : res t :=
  l ← vset (m_input_unit r) port u; Ok (r <| m_input_unit := l |>).
Definition setOutputUnit (port : Z) (u : OutputUnit.t) (r : t) : res t :=
  l ← vset (m_output_unit r) port u; Ok (r <| m_output_unit := l |>).

Definition getOutportDirection (outport : Z) (r : t) : res PortDirection :=
  u ← vget (m_output_unit r) outport; Ok (OutputUnit.m_direction u).
Definition getInportDirection (inport : Z) (r : t) : res PortDirection :=
  u ← vget (m_input_unit r) inport; Ok (InputUnit.m_direction u).

Definition clockEdge (curTick cycles : Z) (r : t) : Z := Clocked.clockEdge curTick cycles (em r).

Definition schedule_wakeup (curTick time : Z) (r : t) : res t :=
  c ← Consumer.scheduleEvent (em r) curTick time (consumer r); Ok (r <| consumer := c |>).

(** [scheduleEventAbsolute] on a link. *)
Definition wake_link (e : LinkEvent) (r : t) : t := r <| events := events r ++ [e] |>.

Definition grant_switch (inport : Z) (t_flit : flit.t) (r : t) : res t :=
  c ← CrossbarSwitch.update_sw_winner inport t_flit (crossbarSwitch r);
  Ok (r <| crossbarSwitch := c |>).

(** *** Construction *)

Definition addInPort (inport_dirn : PortDirection) (in_link : NetworkLink.t) (r : t) : res t :=
  if negb (NetworkLink.bitWidth in_link =? m_bit_width r) then Err FatalCalled
  else
    let port_num := zlength (m_input_unit r) in
    input_unit ← InputUnit.new port_num inport_dirn (m_vc_per_vnet r) (m_num_vcs r)
                   (NetworkLink.setVcsPerVnet (m_vc_per_vnet r) in_link);
    Ok (r <| m_input_unit := m_input_unit r ++ [input_unit] |>
          <| routingUnit := addInDirection inport_dirn port_num (routingUnit r) |>).

Definition addOutPort (outport_dirn : PortDirection) (out_link_width : Z)
    (routing_table_entry : list NetDest.t) (link_weight : Z) (credit_link : NetworkLink.t)
    (consumerVcs : Z) (get_vnet_type : Z -> res VNET_type)
    (buffersPerDataVC buffersPerCtrlVC : Z) (r : t) : res t :=
  if negb (out_link_width =? m_bit_width r) then Err FatalCalled
  else
    let port_num := zlength (m_output_unit r) in
    output_unit ← OutputUnit.new port_num outport_dirn consumerVcs (m_virtual_networks r)
                    (NetworkLink.setVcsPerVnet consumerVcs credit_link) get_vnet_type
                    buffersPerDataVC buffersPerCtrlVC;
    ru ← addRoute routing_table_entry (routingUnit r);
    Ok (r <| m_output_unit := m_output_unit r ++ [output_unit] |>
          <| routingUnit := addOutDirection outport_dirn port_num (addWeight link_weight ru) |>).

(** [init], without the statement the TDMA configuration adds to it. *)
Definition init (r : t) : res t :=
  ob ← outportRecord.new (get_num_outports r);
  Ok (r <| switchAllocator ::= SwitchAllocator.init (get_num_inports r) (get_num_outports r) |>
        <| crossbarSwitch ::= CrossbarSwitch.init (get_num_inports r) |>
        <| outBuf := ob |>).

End Router.
