(* ===== verification/SwitchAlloc.v ===== *)
(** * SwitchAlloc: switch allocation and switch traversal

    The operations of SwitchAllocator.cc and CrossbarSwitch.cc. *)

From S2P Require Import Prelude NetDest CommonTypes Flit Channels RoutingUnit Clock Link Units Router.
Import Router.

Section alloc.
(** The configuration read through [get_net_ptr()], and the current tick. *)
Context (net : NetParams) (curTick : Z).

Abbreviation sa := switchAllocator.

(** [assert] compares an [int] with an unsigned number of networks. *)
Definition get_vnet (invc : Z) (r : Router.t) : res Z :=
  vnet ← cdiv invc (SwitchAllocator.m_vc_per_vnet (sa r));
  _ ← assert (u32 vnet <? m_virtual_networks r);
  Ok vnet.

(** Is an older flit of the same ordered network waiting for the same port? *)
Definition older_waiting (inport vnet outport : Z) (t_enqueue_time : Z) (r : Router.t) : res bool :=
  input_unit ← getInputUnit inport r;
  let n := SwitchAllocator.m_vc_per_vnet (sa r) in
  for_break (Z.to_nat n) 0 (fun vc_offset (_ : bool) =>
    let temp_vc := vnet * n + vc_offset in
    ready ← InputUnit.need_stage temp_vc SA_ curTick input_unit;
    if (ready : bool) then
      o ← InputUnit.get_outport temp_vc input_unit;
      if o =? outport then
        e ← InputUnit.get_enqueue_time temp_vc input_unit;
        let older := e <? t_enqueue_time in Ok (older, older)
      else Ok (false, false)
    else Ok (false, false)) false.

Definition send_allowed (inport invc outport outvc : Z) (r : Router.t) : res bool :=
  vnet ← get_vnet invc r;
  output_unit ← getOutputUnit outport r;
  allowed ← (if outvc =? -1 then OutputUnit.has_free_vc curTick vnet output_unit
             else OutputUnit.has_credit curTick outvc output_unit);
  if negb allowed then Ok false
  else
    ordered ← isVNetOrdered net vnet;
    if (ordered : bool) then
      input_unit ← getInputUnit inport r;
      t_enqueue_time ← InputUnit.get_enqueue_time invc input_unit;
      older ← older_waiting inport vnet outport t_enqueue_time r;
      Ok (negb older)
    else Ok true.

(** One virtual channel of stage one: whether it places a request. *)
Definition request_vc (inport invc : Z) (r : Router.t) : res (option Z) :=
  input_unit ← getInputUnit inport r;
  ready ← InputUnit.need_stage invc SA_ curTick input_unit;
  if (ready : bool) then
    outport ← InputUnit.get_outport invc input_unit;
    outvc ← InputUnit.get_outvc invc input_unit;
    make_request ← send_allowed inport invc outport outvc r;
    Ok (if (make_request : bool) then Some outport else None)
  else Ok None.

(** Round robin over the channels of one input port. *)
Definition arbitrate_inport (inport : Z) (r : Router.t) : res Router.t :=
  invc0 ← vget (SwitchAllocator.m_round_robin_invc (sa r)) inport;
  r ← for_break (Z.to_nat (SwitchAllocator.m_num_vcs (sa r))) 0 (fun _ '(invc, r) =>
    req ← request_vc inport invc r;
    match req : option Z with
    | Some outport =>
        reqs ← vset (SwitchAllocator.m_port_requests (sa r)) inport outport;
        wins ← vset (SwitchAllocator.m_vc_winners (sa r)) inport invc;
        Ok (true, (invc, r <| sa := (sa r)
          <| SwitchAllocator.m_input_arbiter_activity ::= Z.succ |>
          <| SwitchAllocator.m_port_requests := reqs |>
          <| SwitchAllocator.m_vc_winners := wins |> |>))
    | None =>
        let invc := invc + 1 in
        Ok (false, (if SwitchAllocator.m_num_vcs (sa r) <=? invc then 0 else invc, r))
    end) (invc0, r);
  Ok (snd r).

Definition arbitrate_inports (r : Router.t) : res Router.t :=
  for_ (Z.to_nat (SwitchAllocator.m_num_inports (sa r))) 0 arbitrate_inport r.

Definition vc_allocate (outport inport invc : Z) (r : Router.t) : res (Z * Router.t) :=
  vnet ← get_vnet invc r;
  output_unit ← getOutputUnit outport r;
  '(outvc, output_unit) ← OutputUnit.select_free_vc curTick vnet output_unit;
  r ← setOutputUnit outport output_unit r;
  _ ← assert (negb (outvc =? -1));
  input_unit ← getInputUnit inport r;
  input_unit ← InputUnit.grant_outvc invc outvc input_unit;
  r ← setInputUnit inport input_unit r;
  Ok (outvc, r).

(** The winning flit leaves its channel and goes to the crossbar; a
    credit goes upstream, and frees the channel behind a tail flit. *)
Definition send_winner (outport inport invc outvc : Z) (r : Router.t) : res Router.t :=
  input_unit ← getInputUnit inport r;
  '(t_flit, input_unit) ← InputUnit.getTopFlit invc input_unit;
  let t_flit := flit.set_vc outvc (flit.set_outport outport t_flit) in
  output_unit ← getOutputUnit outport r;
  output_unit ← OutputUnit.decrement_credit outvc output_unit;
  r ← setOutputUnit outport output_unit r;
  let t_flit := flit.advance_stage ST_ curTick t_flit in
  r ← grant_switch inport t_flit r;
  input_unit ←
    (if flit.is_tail t_flit then
       still ← InputUnit.isReady invc curTick input_unit;
       _ ← assert (negb still);
       input_unit ← InputUnit.set_vc_idle invc curTick input_unit;
       Ok (InputUnit.increment_credit invc true curTick input_unit)
     else Ok (InputUnit.increment_credit invc false curTick input_unit));
  r ← setInputUnit inport input_unit r;
  Ok (wake_link (CreditLinkEvent inport (clockEdge curTick 1 r)) r).

(** [(x + 1) wrapped to 0 at n]. *)
Definition next_index (x n : Z) : Z := if n <=? x + 1 then 0 else x + 1.

(** The grant of [outport] to [inport]. *)
Definition grant (outport inport : Z) (r : Router.t) : res Router.t :=
  invc ← vget (SwitchAllocator.m_vc_winners (sa r)) inport;
  input_unit ← getInputUnit inport r;
  outvc ← InputUnit.get_outvc invc input_unit;
  '(outvc, r) ← (if outvc =? -1 then vc_allocate outport inport invc r else Ok (outvc, r));
  r ← send_winner outport inport invc outvc r;
  reqs ← vset (SwitchAllocator.m_port_requests (sa r)) inport (-1);
  rr_in ← vset (SwitchAllocator.m_round_robin_inport (sa r)) outport
            (next_index inport (SwitchAllocator.m_num_inports (sa r)));
  rr_vc ← vset (SwitchAllocator.m_round_robin_invc (sa r)) inport
            (next_index invc (SwitchAllocator.m_num_vcs (sa r)));
  Ok (r <| sa := (sa r)
    <| SwitchAllocator.m_output_arbiter_activity ::= Z.succ |>
    <| SwitchAllocator.m_port_requests := reqs |>
    <| SwitchAllocator.m_round_robin_inport := rr_in |>
    <| SwitchAllocator.m_round_robin_invc := rr_vc |> |>).

(** Round robin over the input ports for one output port. *)
Definition arbitrate_outport (outport : Z) (r : Router.t) : res Router.t :=
  inport0 ← vget (SwitchAllocator.m_round_robin_inport (sa r)) outport;
  r ← for_break (Z.to_nat (SwitchAllocator.m_num_inports (sa r))) 0 (fun _ '(inport, r) =>
    req ← vget (SwitchAllocator.m_port_requests (sa r)) inport;
    if req =? outport then r' ← grant outport inport r; Ok (true, (inport, r'))
    else Ok (false, (next_index inport (SwitchAllocator.m_num_inports (sa r)), r))) (inport0, r);
  Ok (snd r).

Definition arbitrate_outports (r : Router.t) : res Router.t :=
  for_ (Z.to_nat (SwitchAllocator.m_num_outports (sa r))) 0 arbitrate_outport r.

(** Is any flit ready for switch allocation at time [nextCycle]? *)
Definition any_ready (nextCycle : Z) (r : Router.t) : res bool :=
  for_break (Z.to_nat (SwitchAllocator.m_num_inports (sa r))) 0 (fun i (_ : bool) =>
    found ← for_break (Z.to_nat (SwitchAllocator.m_num_vcs (sa r))) 0 (fun j (_ : bool) =>
      input_unit ← getInputUnit i r;
      ready ← InputUnit.need_stage j SA_ nextCycle input_unit;
      Ok (ready, ready)) false;
    Ok (found, found)) false.

Definition check_for_wakeup (r : Router.t) : res Router.t :=
  let nextCycle := clockEdge curTick 1 r in
  if Consumer.alreadyScheduled nextCycle (consumer r) then Ok r
  else
    ready ← any_ready nextCycle r;
    if (ready : bool) then schedule_wakeup curTick 1 r else Ok r.

Definition sa_wakeup (r : Router.t) : res Router.t :=
  r ← arbitrate_inports r;
  r ← arbitrate_outports r;
  check_for_wakeup (r <| sa ::= SwitchAllocator.clear_request_vector |>).

(** ** Switch traversal *)

(** One switch buffer: its flit goes to the output unit it won. *)
Definition traverse (i : Z) (r : Router.t) : res Router.t :=
  b ← vget (CrossbarSwitch.switchBuffers (crossbarSwitch r)) i;
  if flitBuffer.isReady curTick b then
    t_flit ← flitBuffer.peekTopFlit b;
    if flit.is_stage ST_ curTick t_flit then
      outport ← flit.get_outport t_flit;
      let next := clockEdge curTick 1 r in
      let t_flit := flit.set_time next (flit.advance_stage LT_ next t_flit) in
      output_unit ← getOutputUnit outport r;
      r ← setOutputUnit outport (OutputUnit.insert_flit t_flit output_unit) r;
      let r := wake_link (OutLinkEvent outport next) r in
      '(_, b) ← flitBuffer.getTopFlit b;
      bs ← vset (CrossbarSwitch.switchBuffers (crossbarSwitch r)) i b;
      Ok (r <| crossbarSwitch := (crossbarSwitch r)
        <| CrossbarSwitch.switchBuffers := bs |>
        <| CrossbarSwitch.m_crossbar_activity ::= Z.succ |> |>)
    else Ok r
  else Ok r.

Definition xbar_wakeup (r : Router.t) : res Router.t :=
  for_ (length (CrossbarSwitch.switchBuffers (crossbarSwitch r))) 0 traverse r.

End alloc.
