(* ===== verification/InputWakeup.v ===== *)
(** * InputWakeup: what an input unit does with an arriving flit

    [InputUnit::wakeup] of InputUnit.cc, in the variants selected by the
    macro [InputStruct]: 0 the unmodified router, 2 the Resister defence
    and 5 its measurement build, 3 the original Valiant algorithm, 4
    time-division multiplexing of the injections. *)

From S2P Require Import Prelude CFloat NetDest CommonTypes Flit Channels Detector RoutingUnit.
From S2P Require Import Clock Link Units Router SwitchAlloc.
Import Router.

(** State shared by all routers. *)
Record Globals := mkGlobals { g_cnt : Counters; g_rng : Rng }.
#[global] Instance Globals_eta : Etaed Globals := fun g => mkGlobals (g_cnt g) (g_rng g).

Section wakeup.
Context (net : NetParams) (curTick : Z).

Definition route_compute (route : RouteInfo) (inport : Z) (inport_dirn : PortDirection)
    (r : Router.t) (g : Globals) : res (Z * RouteInfo * (Router.t * Globals)) :=
  '(o, route, s) ← outportCompute net (m_id r) curTick route inport inport_dirn
                     (mkRState (routingUnit r) (g_cnt g) (g_rng g));
  Ok (o, route, (r <| routingUnit := ru s |>, mkGlobals (cnt s) (rng s))).

(** *** The part common to all variants *)

(** Route computation for a head flit and the state of its channel.
    [record]: the defence notes the packets injected at port 0. *)
Definition open_channel (record : bool) (i vc : Z) (f : flit.t) (r : Router.t) (g : Globals)
    : res (flit.t * (Router.t * Globals)) :=
  u ← vget (m_input_unit r) i;
  st ← InputUnit.with_vc VirtualChannel.get_state vc u;
  if flit.is_head f then
    _ ← assert (bool_decide (st = IDLE_));
    u ← InputUnit.set_vc_active vc curTick u;
    '(outport, route, (r, g)) ←
      route_compute (flit.m_route f) (InputUnit.m_id u) (InputUnit.m_direction u) r g;
    let f := flit.set_route route f in
    u ← InputUnit.grant_outport vc outport u;
    r ← setInputUnit i u r;
    ob ← (if record && (InputUnit.m_id u =? 0)
          then outportRecord.update outport (src_router route) (dest_router route) (outBuf r)
          else Ok (outBuf r));
    Ok (f, (r <| outBuf := ob |>, g))
  else
    _ ← assert (bool_decide (st = ACTIVE_)); Ok (f, (r, g)).

(** The stage a buffered flit is given, and the wait before it. *)
Definition stage_time (r : Router.t) : res (Z * Z) :=
  if m_latency r =? 1 then Ok (0, curTick)
  else
    _ ← assert (1 <? m_latency r);
    let wait_time := m_latency r - 1 in
    Ok (wait_time, clockEdge curTick wait_time r).

(** Buffering; the flit is owned by the channel when its stage is set. *)
Definition buffer_flit (i vc : Z) (f : flit.t) (r : Router.t) : res Router.t :=
  '(wait_time, time) ← stage_time r;
  u ← vget (m_input_unit r) i;
  u ← InputUnit.on_vc (VirtualChannel.insertFlit (flit.advance_stage SA_ time f)) vc u;
  vnet ← cdiv vc (InputUnit.m_vc_per_vnet u);
  wr ← valter Z.succ (InputUnit.m_num_buffer_writes u) vnet;
  rd ← valter Z.succ (InputUnit.m_num_buffer_reads u) vnet;
  r ← setInputUnit i (u <| InputUnit.m_num_buffer_writes := wr |>
                        <| InputUnit.m_num_buffer_reads := rd |>) r;
  if 0 <? wait_time then schedule_wakeup curTick wait_time r else Ok r.

Definition receive (record : bool) (i : Z) (f : flit.t) (r : Router.t) (g : Globals)
    : res (Router.t * Globals) :=
  let vc := flit.m_vc f in
  '(f, (r, g)) ← open_channel record i vc (flit.increment_hops f) r g;
  r ← buffer_flit i vc f r;
  Ok (r, g).

(** [m_in_link->consumeLink()] and the width assertion. *)
Definition consume (i : Z) (r : Router.t) : res (flit.t * Router.t) :=
  u ← vget (m_input_unit r) i;
  '(f, link) ← NetworkLink.consumeLink (InputUnit.m_in_link u);
  _ ← assert (flit.m_width f =? m_bit_width r);
  r ← setInputUnit i (u <| InputUnit.m_in_link := link |>) r;
  Ok (f, r).

Definition link_ready (i : Z) (r : Router.t) : res bool :=
  u ← vget (m_input_unit r) i; Ok (NetworkLink.isReady curTick (InputUnit.m_in_link u)).

(** Another flit is ready: come back in the next cycle. *)
Definition reschedule (i : Z) (r : Router.t) : res Router.t :=
  again ← link_ready i r;
  if (again : bool) then schedule_wakeup curTick 1 r else Ok r.

(** *** InputStruct 0 *)

Definition wakeup_ori (i : Z) (r : Router.t) (g : Globals) : res (Router.t * Globals) :=
  ready ← link_ready i r;
  if negb ready then Ok (r, g)
  else
    '(f, r) ← consume i r;
    '(r, g) ← receive false i f r g;
    r ← reschedule i r;
    Ok (r, g).

(** *** InputStruct 3 *)

Definition wakeup_valiant (i : Z) (r : Router.t) (g : Globals) : res (Router.t * Globals) :=
  ready ← link_ready i r;
  if negb ready then Ok (r, g)
  else
    '(f, r) ← consume i r;
    u ← vget (m_input_unit r) i;
    let '(f, r) :=
      if (InputUnit.m_id u =? 0) && flit.is_head f && negb (dest_router (flit.m_route f) =? m_id r)
      then (flit.set_route (setTag 1 (flit.m_route f)) f,
            r <| inS0 ::= (fun s => s <| detour_counts ::= incr64 |>) |>)
      else (f, r) in
    '(r, g) ← receive false i f r g;
    r ← reschedule i r;
    Ok (r, g).

(** *** InputStruct 2 and 5: the Resister defence *)

Definition CALI : spec_float := F32.of_Z 1.

(** [trySending < injRange * calibrate]. *)
Definition detours (trySending : Z) : bool :=
  fltb (F32.of_Z trySending) (F32.mul (F32.of_Z 10000) CALI).

(** The value an uninitialised [avg] converts to, and the measurement build. *)
Context (junk : Z) (latency : bool).

Definition current_entry (u : InputUnit.t) (f : flit.t) : patternEntry :=
  let rt := flit.m_route f in
  mkPattern (src_router rt) (dest_router rt) (InputUnit.m_id u) (dest_router rt)
    (getCycle curTick) 0.

(** Every untagged packet injected here enters the short-term history. *)
Definition record_injection (i : Z) (f : flit.t) (r : Router.t) : res Router.t :=
  if flit.is_head f && (getTag (flit.m_route f) =? 0) then
    u ← vget (m_input_unit r) i;
    h ← HistoryRecord.updateHistory (current_entry u f) (InputUnit.HR u);
    r ← setInputUnit i (u <| InputUnit.HR := h |>) r;
    Ok (r <| inS0 ::= (fun s => s <| all_counts ::= incr64 |>) |>)
  else Ok r.

(** The detection; a packet found risky is tagged for a detour. *)
Definition detect (i : Z) (f : flit.t) (r : Router.t) (g : Globals)
    : res (flit.t * (Router.t * Globals)) :=
  if flit.is_head f && negb (dest_router (flit.m_route f) =? m_id r) then
    u ← vget (m_input_unit r) i;
    '(outport_preGet, route, (r, g)) ←
      route_compute (flit.m_route f) (InputUnit.m_id u) (InputUnit.m_direction u) r g;
    let f := flit.set_route route f in
    '(hasRisk, _, h, st) ←
      HistoryRecord.riskFind junk (current_entry u f) 0 true (outBuf r) (src_router route)
        (dest_router route) ALL (inS0 r) outport_preGet (InputUnit.HR u);
    r ← setInputUnit i (u <| InputUnit.HR := h |>) (r <| inS0 := st |>);
    '(trySending, rg) ← getMyRandom 0 10000 (g_rng g);
    let g := g <| g_rng := rg |> in
    if (hasRisk : bool) then
      if latency then Err ExitCalled
      else
        let r := r <| inS0 ::= (fun s => s <| risk_counts ::= incr64 |>) |> in
        if detours trySending then
          Ok (flit.set_route (setTag 1 route) f,
              (r <| inS0 ::= (fun s => s <| detour_counts ::= incr64 |>) |>, g))
        else Ok (f, (r, g))
    else Ok (f, (r, g))
  else Ok (f, (r, g)).

Definition wakeup_resister (i : Z) (r : Router.t) (g : Globals) : res (Router.t * Globals) :=
  ready ← link_ready i r;
  if negb ready then Ok (r, g)
  else
    '(f, r) ← consume i r;
    u ← vget (m_input_unit r) i;
    '(f, (r, g)) ←
      (if InputUnit.m_id u =? 0 then
         r ← record_injection i f r;
         detect i f r g
       else Ok (f, (r, g)));
    '(r, g) ← receive true i f r g;
    r ← reschedule i r;
    Ok (r, g).

End wakeup.
