(* ===== verification/RouterWakeup.v ===== *)
(** * RouterWakeup: one cycle of a router

    [Router::wakeup], its statistics and functional accesses, and the
    time-division variant of [InputUnit::wakeup] with its global schedule. *)

From S2P Require Import Prelude CFloat NetDest CommonTypes Flit Channels Detector RoutingUnit.
From S2P Require Import Clock Link Units Router SwitchAlloc InputWakeup.
Import Router.

(** ** Time-division multiplexing (InputStruct 4) *)

Module TDMA.

Definition CORE_NUM : Z := 16.
Definition THRES_SLOT : Z := 100.
Definition THRES_FLIT : Z := 80.

(** The globals of InputUnit.cc; [{-1}] initialises the first element. *)
Record t := mk { inited : bool; counter : list Z; round_cnt : Z; round_list : list Z }.
#[global] Instance t_eta : Etaed t := fun s =>
  mk (inited s) (counter s) (round_cnt s) (round_list s).
Definition start : t := mk false (-1 :: replicate 15 0) 0 (-1 :: replicate 15 0).

(** The first unit to wake up gets the first slot. *)
Definition initialise (routerID : Z) (s : t) : t :=
  if inited s then s
  else mk true ((fun i => if Z.of_nat i =? routerID then 0 else -1) <$> seq 0 16) routerID
          (Z.of_nat <$> seq 0 16).

(** [std::shuffle]: every element is swapped with one at a random
    position up to its own. *)
Definition swap (l : list Z) (i j : Z) : res (list Z) :=
  a ← vget l i; b ← vget l j; l ← vset l i b; vset l j a.

Definition shuffle (l : list Z) (g : Rng) : res (list Z * Rng) :=
  for_ (length l - 1) 1 (fun i '(l, g) =>
    '(j, g) ← uniform 0 i g; l ← swap l i j; Ok (l, g)) (l, g).

(** The end of the slot of [routerID]. *)
Definition change_round (routerID : Z) (s : t) (g : Rng) : res (t * Rng) :=
  c ← vset (counter s) routerID (-1);
  '(cnt, rl, g) ←
    (if round_cnt s <? CORE_NUM - 1 then Ok (round_cnt s + 1, round_list s, g)
     else '(l, g) ← shuffle (Z.of_nat <$> seq 0 16) g; Ok (0, l, g));
  nextID ← vget rl cnt;
  c ← vset c nextID 0;
  Ok (mk (inited s) c cnt rl, g).

End TDMA.

Section wakeup.
Context (net : NetParams) (curTick : Z).

(** The flit of an enabled injection port, if its share is not used up. *)
Definition tdma_inject (i : Z) (ts : TDMA.t) (r : Router.t) (g : Globals)
    : res (TDMA.t * (Router.t * Globals)) :=
  u ← vget (m_input_unit r) i;
  if InputUnit.round_flit u <? TDMA.THRES_FLIT then
    '(f, r) ← consume i r;
    u ← vget (m_input_unit r) i;
    r ← setInputUnit i (u <| InputUnit.round_flit ::= Z.succ |>) r;
    let r := if negb (dest_router (flit.m_route f) =? m_id r) && flit.is_tail f
             then r <| inS0 ::= (fun s => s <| detour_counts ::= incr64 |>) |> else r in
    '(r, g) ← receive net curTick false i f r g;
    c ← (if m_latency r =? 1 then Ok (TDMA.counter ts)
         else valter (fun x => x + (m_latency r - 1)) (TDMA.counter ts) (m_id r));
    Ok (ts <| TDMA.counter := c |>, (r, g))
  else Ok (ts, (r, g)).

Definition wakeup_tdma_port0 (i : Z) (ts : TDMA.t) (r : Router.t) (g : Globals)
    : res (TDMA.t * (Router.t * Globals)) :=
  let routerID := m_id r in
  let ts := TDMA.initialise routerID ts in
  let formerID := if 0 <? routerID then routerID - 1 else TDMA.CORE_NUM - 1 in
  _ ← vget (TDMA.counter ts) formerID;
  c ← vget (TDMA.counter ts) routerID;
  if 0 <=? c then
    let roundChange := TDMA.THRES_SLOT <=? c in
    ready ← link_ready curTick i r;
    '(ts, (r, g)) ←
      (if ready && negb roundChange then tdma_inject i ts r g else Ok (ts, (r, g)));
    if (roundChange : bool) then
      u ← vget (m_input_unit r) i;
      r ← setInputUnit i (u <| InputUnit.round_flit := 0 |>) r;
      '(ts, rg) ← TDMA.change_round routerID ts (g_rng g);
      r ← schedule_wakeup curTick TDMA.THRES_SLOT r;
      Ok (ts, (r, g <| g_rng := rg |>))
    else
      c ← valter Z.succ (TDMA.counter ts) routerID;
      r ← schedule_wakeup curTick 1 r;
      Ok (ts <| TDMA.counter := c |>, (r, g))
  else
    r ← schedule_wakeup curTick TDMA.THRES_SLOT r;
    Ok (ts, (r, g)).

Definition wakeup_tdma (i : Z) (ts : TDMA.t) (r : Router.t) (g : Globals)
    : res (TDMA.t * (Router.t * Globals)) :=
  u ← vget (m_input_unit r) i;
  if InputUnit.m_id u =? 0 then wakeup_tdma_port0 i ts r g
  else '(r, g) ← wakeup_ori net curTick i r g; Ok (ts, (r, g)).

(** ** One cycle *)

(** The credit side of an output unit. *)
Definition wakeup_output (o : Z) (r : Router.t) : res Router.t :=
  u ← vget (m_output_unit r) o;
  u ← OutputUnit.wakeup (em r) curTick u;
  setOutputUnit o u r.

(** [inputWakeup] is the variant of [InputUnit::wakeup] compiled in. *)
Definition router_wakeup {S} (inputWakeup : Z -> Router.t -> S -> res (Router.t * S))
    (r : Router.t) (g : S) : res (Router.t * S) :=
  _ ← assert (clockEdge curTick 0 r =? curTick);
  '(r, g) ← for_ (length (m_input_unit r)) 0 (fun i '(r, g) => inputWakeup i r g) (r, g);
  r ← for_ (length (m_output_unit r)) 0 wakeup_output r;
  r ← sa_wakeup net curTick r;
  r ← xbar_wakeup curTick r;
  Ok (r, g).

End wakeup.

(** ** Statistics and functional accesses *)

Record RouterStats := mkRouterStats {
  st_buffer_reads : Z;
  st_buffer_writes : Z;
  st_sw_input_arbiter_activity : Z;
  st_sw_output_arbiter_activity : Z;
  st_crossbar_activity : Z;
  st_inS : InputUnitStats;
}.

(** The buffer statistics accumulate onto their previous value. *)
Definition collateStats (reads writes : Z) (r : Router.t) : res RouterStats :=
  '(rd, wr) ← for_ (Z.to_nat (m_virtual_networks r)) 0 (fun j acc =>
    for_ (length (m_input_unit r)) 0 (fun i '(rd, wr) =>
      u ← vget (m_input_unit r) i;
      a ← vget (InputUnit.m_num_buffer_reads u) j;
      b ← vget (InputUnit.m_num_buffer_writes u) j;
      Ok (rd + a, wr + b)) acc) (reads, writes);
  Ok (mkRouterStats rd wr
        (SwitchAllocator.m_input_arbiter_activity (switchAllocator r))
        (SwitchAllocator.m_output_arbiter_activity (switchAllocator r))
        (CrossbarSwitch.m_crossbar_activity (crossbarSwitch r)) (inS0 r)).

Definition router_resetStats (r : Router.t) : Router.t :=
  r <| m_input_unit ::= fmap InputUnit.resetStats |>
    <| crossbarSwitch ::= CrossbarSwitch.resetStats |>
    <| switchAllocator ::= SwitchAllocator.resetStats |>
    <| inS0 ::= (fun s => s <| detour_counts := 0 |> <| risk_counts := 0 |>) |>.

Definition router_functionalRead (rd : flit.t -> bool) (r : Router.t) : bool :=
  let read := CrossbarSwitch.functionalRead rd (crossbarSwitch r) in
  let read := foldl (fun b u => if InputUnit.functionalRead rd u then true else b)
                    read (m_input_unit r) in
  foldl (fun b u => if OutputUnit.functionalRead rd u then true else b) read (m_output_unit r).

Definition router_functionalWrite (wr : flit.t -> bool) (r : Router.t) : Z :=
  let n := CrossbarSwitch.functionalWrite wr (crossbarSwitch r) in
  let n := foldl (fun n u => n + InputUnit.functionalWrite wr u) n (m_input_unit r) in
  foldl (fun n u => n + OutputUnit.functionalWrite wr u) n (m_output_unit r).
