(* ===== verification/GarnetNetwork.v ===== *)
(** * GarnetNetwork: the network of routers, interfaces and links

    garnet/GarnetNetwork.hh/.cc.  The network owns the routers and the
    interfaces and connects them as the topology asks for.  A link object
    lives in the unit or port that reads from it; what the network keeps of
    it is a [Wire]: the ports it joins, and the bridges and links that stand
    between them.  The state of the object that the receiver reads from is the
    one at the receiver; a copy of it in a line is never read.  [m_networklinks], [m_creditlinks] and [m_networkbridges]
    are the flit lines, the credit lines and the bridges of the wires, in the
    order in which the links were made.  The link objects that a [BasicLink*]
    can point to are parameters. *)

From stdpp Require Import gmap strings.
From S2P Require Import Prelude CFloat FaultModel NetDest CommonTypes Flit Channels RoutingUnit Topology Clock Heap MessageBuffer.
From S2P Require Import Network Link NetworkBridge GarnetLink NetworkInterface Units Router RouterWakeup.

(** The output port or unit that feeds a wire, and the one it leads to. *)
Inductive Sender := RouterOut (router port : Z) | NIOut (ni port : Z).
Inductive Receiver := RouterIn (router port : Z) | NIIn (ni port : Z).
#[global] Instance Sender_eq_dec : EqDecision Sender.
Proof. solve_decision. Defined.
#[global] Instance Receiver_eq_dec : EqDecision Receiver.
Proof. solve_decision. Defined.

Record Wire := mkWire {
  w_type : link_type;
  w_from : Sender;
  w_to : Receiver;
  w_flits : Line;
  w_credits : Line;
}.
#[global] Instance Wire_eta : Etaed Wire := fun w => mkWire (w_type w) (w_from w) (w_to w) (w_flits w) (w_credits w).

Module GarnetNetwork.

Record t := mk {
  base : Network.t;
  m_num_rows : Z;
  m_num_cols : option Z;
  m_ni_flit_size : Z;
  m_max_vcs_per_vnet : Z;
  m_buffers_per_ctrl_vc : Z;
  m_buffers_per_data_vc : Z;
  m_routing_algorithm : Z;
  fault_model : option FaultModel.t;
  m_vnet_type : list VNET_type;
  m_routers : list Router.t;
  m_nis : list NetworkInterface.t;
  m_wires : list Wire;
}.
#[global] Instance t_eta : Etaed t := fun n =>
  mk (base n) (m_num_rows n) (m_num_cols n) (m_ni_flit_size n) (m_max_vcs_per_vnet n) (m_buffers_per_ctrl_vc n)
     (m_buffers_per_data_vc n) (m_routing_algorithm n) (fault_model n) (m_vnet_type n) (m_routers n) (m_nis n) (m_wires n).

(** The kind of a virtual network, by the name the controllers gave it. *)
Definition vnet_type_of (name : string) : VNET_type :=
  if bool_decide (name = "response"%string) then DATA_VNET_ else CTRL_VNET_.

Definition new (b : Network.t) (num_rows ni_flit_size buffers_per_data_vc buffers_per_ctrl_vc routing_algorithm : Z)
    (fault : option FaultModel.t) (routers : list Router.t) (netifs : list NetworkInterface.t) : res t :=
  types ← for_ (Z.to_nat (Network.m_virtual_networks b)) 0 (fun i l =>
    name ← vget (Network.m_vnet_type_names b) i; Ok (l ++ [vnet_type_of name])) [];
  Ok (mk b num_rows None ni_flit_size 0 buffers_per_ctrl_vc buffers_per_data_vc routing_algorithm fault types routers netifs []).

(** ** What the parts of the network read *)

Definition get_vnet_type (vnet : Z) (n : t) : res VNET_type := vget (m_vnet_type n) vnet.
Definition isVNetOrdered (vnet : Z) (n : t) : res bool := vget (Network.m_ordered (base n)) vnet.
Definition getNumRouters (n : t) : Z := zlength (m_routers n).

Definition get_router_id (global_ni vnet : Z) (n : t) : res Z :=
  local_ni ← Network.getLocalNodeID global_ni (base n);
  ni ← vget (m_nis n) local_ni;
  NetworkInterface.get_router_id vnet ni.

Definition view (sys : RubySystem) (n : t) : NetView :=
  mkNetView sys (fun ni vnet => get_router_id ni vnet n) (Network.MessageSizeType_to_int (base n))
    (fun vnet => isVNetOrdered vnet n) (fun vnet => get_vnet_type vnet n) (m_buffers_per_data_vc n) (m_buffers_per_ctrl_vc n).

Definition params (n : t) : NetParams :=
  mkNet (m_num_rows n) (default 0 (m_num_cols n)) (m_routing_algorithm n) (Network.m_ordered (base n)).

(** ** Making links *)

Definition on_router (f : Router.t -> res Router.t) (i : Z) (n : t) : res t :=
  l ← valterM f (m_routers n) i; Ok (n <| m_routers := l |>).
Definition on_ni (f : NetworkInterface.t -> res NetworkInterface.t) (i : Z) (n : t) : res t :=
  l ← valterM f (m_nis n) i; Ok (n <| m_nis := l |>).

(** The state of the link that a port reads from. *)
Definition in_link (p : Receiver) (n : t) : res NetworkLink.t :=
  match p with
  | RouterIn r i => x ← vget (m_routers n) r; u ← vget (Router.m_input_unit x) i; Ok (InputUnit.m_in_link u)
  | NIIn r i => x ← vget (m_nis n) r; u ← vget (NetworkInterface.inPorts x) i; Ok (InputPort.inNetLink u)
  end.
Definition credit_link (p : Sender) (n : t) : res NetworkLink.t :=
  match p with
  | RouterOut r i => x ← vget (m_routers n) r; u ← vget (Router.m_output_unit x) i; Ok (OutputUnit.m_credit_link u)
  | NIOut r i => x ← vget (m_nis n) r; u ← vget (NetworkInterface.outPorts x) i; Ok (OutputPort.inCreditLink u)
  end.

Definition put_in_link (p : Receiver) (l : NetworkLink.t) (n : t) : res t :=
  match p with
  | RouterIn r i => on_router (fun x =>
      us ← valter (fun u => u <| InputUnit.m_in_link := l |>) (Router.m_input_unit x) i;
      Ok (x <| Router.m_input_unit := us |>)) r n
  | NIIn r i => on_ni (fun x => NetworkInterface.on_inport (fun u => u <| InputPort.inNetLink := l |>) i x) r n
  end.
Definition put_credit_link (p : Sender) (l : NetworkLink.t) (n : t) : res t :=
  match p with
  | RouterOut r i => on_router (fun x =>
      us ← valter (fun u => u <| OutputUnit.m_credit_link := l |>) (Router.m_output_unit x) i;
      Ok (x <| Router.m_output_unit := us |>)) r n
  | NIOut r i => on_ni (fun x => NetworkInterface.on_outport (fun u => u <| OutputPort.inCreditLink := l |>) i x) r n
  end.

(** The first output port of an interface resizes the links of its input
    ports; where such a link is a bridge, the rest of the bridge too. *)
Definition resize_inports (ni vcs : Z) (w : Wire) : Wire :=
  match w_to w with
  | NIIn r _ => if r =? ni then w <| w_flits ::= resize_receiver vcs |> else w
  | RouterIn _ _ => w
  end.

Definition grow_max (vcs : Z) (n : t) : t := n <| m_max_vcs_per_vnet ::= Z.max vcs |>.

Section links.
Context `{MachineTypes}.
(** The objects [safe_cast] finds behind a pointer, and the Ruby system. *)
Context (ext_link : Z -> option GarnetExtLink.t) (int_link : Z -> option GarnetIntLink.t) (sys : RubySystem).

Definition cast {A} (p : option A) : res A := match p with Some x => Ok x | None => Err AssertFail end.

Definition router_out_port (dirn : PortDirection) (flits credits : Line) (table : list NetDest.t) (weight consumerVcs : Z)
    (src : Z) (n : t) : res t :=
  on_router (Router.addOutPort dirn (NetworkLink.bitWidth (sender_end flits)) table weight (receiver_end credits) consumerVcs
    (fun vnet => get_vnet_type vnet n) (m_buffers_per_data_vc n) (m_buffers_per_ctrl_vc n)) src n.

Definition makeExtInLink (global_src dest : Z) (link : BasicLink) (routing_table_entry : list NetDest.t) (n : t) : res t :=
  local_src ← Network.getLocalNodeID global_src (base n);
  _ ← assert (local_src <? Network.m_nodes (base n));
  garnet_link ← cast (ext_link (bl_ptr link));
  flits ← GarnetExtLink.flit_line LinkDirection_In garnet_link;
  credits ← GarnetExtLink.credit_line LinkDirection_In garnet_link;
  let flits := flits <| ln_link ::= NetworkLink.setType EXT_IN_ |> in
  router ← vget (m_routers n) dest;
  let vcs := Router.m_vc_per_vnet router in
  let n := grow_max vcs n in
  ni ← vget (m_nis n) local_src;
  let first := zlength (NetworkInterface.niOutVcs ni) =? 0 in
  n ← on_ni (NetworkInterface.addOutPort (view sys n) (sender_end flits) (receiver_end credits) dest vcs) local_src n;
  let n := n <| m_wires ::= (fun ws => if (first : bool) then resize_inports local_src vcs <$> ws else ws) |> in
  let flits := resize_sender vcs flits in
  let credits := resize_receiver vcs credits in
  n ← on_router (Router.addInPort "Local" (receiver_end flits)) dest n;
  let flits := resize_receiver vcs flits in
  let credits := resize_sender vcs credits in
  let from := NIOut local_src (zlength (NetworkInterface.outPorts ni)) in
  n ← put_credit_link from (receiver_end credits) n;
  let to := RouterIn dest (Router.get_num_inports router) in
  Ok (n <| m_wires ::= (fun ws => ws ++ [mkWire EXT_IN_ from to flits credits]) |>).

Definition makeExtOutLink (src global_dest : Z) (link : BasicLink) (routing_table_entry : list NetDest.t) (n : t) : res t :=
  local_dest ← Network.getLocalNodeID global_dest (base n);
  _ ← assert (local_dest <? Network.m_nodes (base n));
  _ ← assert (src <? zlength (m_routers n));
  garnet_link ← cast (ext_link (bl_ptr link));
  flits ← GarnetExtLink.flit_line LinkDirection_Out garnet_link;
  credits ← GarnetExtLink.credit_line LinkDirection_Out garnet_link;
  let flits := flits <| ln_link ::= NetworkLink.setType EXT_OUT_ |> in
  router ← vget (m_routers n) src;
  let vcs := Router.m_vc_per_vnet router in
  let n := grow_max vcs n in
  ni ← vget (m_nis n) local_dest;
  n ← on_ni (fun x => Ok (NetworkInterface.addInPort (receiver_end flits) x)) local_dest n;
  let ni_vcs := NetworkInterface.m_vc_per_vnet ni in
  let flits := if ni_vcs =? 0 then flits else resize_receiver ni_vcs flits in
  let credits := if ni_vcs =? 0 then credits else resize_sender ni_vcs credits in
  n ← router_out_port "Local" flits credits routing_table_entry (bl_weight link) vcs src n;
  let credits := resize_receiver vcs credits in
  let flits := resize_sender vcs flits in
  let to := NIIn local_dest (zlength (NetworkInterface.inPorts ni)) in
  n ← put_in_link to (receiver_end flits) n;
  let from := RouterOut src (Router.get_num_outports router) in
  Ok (n <| m_wires ::= (fun ws => ws ++ [mkWire EXT_OUT_ from to flits credits]) |>).

Definition makeInternalLink (src dest : Z) (link : BasicLink) (routing_table_entry : list NetDest.t)
    (src_outport_dirn dst_inport_dirn : PortDirection) (n : t) : res t :=
  garnet_link ← cast (int_link (bl_ptr link));
  flits ← GarnetIntLink.flit_line garnet_link;
  credits ← GarnetIntLink.credit_line garnet_link;
  let flits := flits <| ln_link ::= NetworkLink.setType INT_ |> in
  router_src ← vget (m_routers n) src;
  router_dest ← vget (m_routers n) dest;
  let vcs := Router.m_vc_per_vnet router_dest in
  let n := grow_max (Z.max vcs (Router.m_vc_per_vnet router_src)) n in
  n ← on_router (Router.addInPort dst_inport_dirn (receiver_end flits)) dest n;
  let flits := resize_receiver vcs flits in
  let credits := resize_sender vcs credits in
  n ← router_out_port src_outport_dirn flits credits routing_table_entry (bl_weight link) vcs src n;
  let credits := resize_receiver vcs credits in
  let flits := resize_sender vcs flits in
  let to := RouterIn dest (Router.get_num_inports router_dest) in
  n ← put_in_link to (receiver_end flits) n;
  let from := RouterOut src (Router.get_num_outports router_src) in
  Ok (n <| m_wires ::= (fun ws => ws ++ [mkWire INT_ from to flits credits]) |>).

(** The calls of the topology. *)
Definition make_link (l : Topology.MadeLink) (n : t) : res t :=
  match l with
  | Topology.MakeExtInLink src dest link table => makeExtInLink src dest link table n
  | Topology.MakeExtOutLink src dest link table => makeExtOutLink src dest link table n
  | Topology.MakeInternalLink src dest link table o d => makeInternalLink src dest link table o d n
  end.

(** ** Initialisation *)

Definition add_node (i : Z) (n : t) : res t :=
  inb ← vget (Network.m_toNetQueues (base n)) i;
  outb ← vget (Network.m_fromNetQueues (base n)) i;
  on_ni (NetworkInterface.addNode inb outb) i n.

(** Rows and columns of a mesh; the sizes are [size_t]. *)
Definition set_mesh (n : t) : res t :=
  if 0 <? m_num_rows n then
    let cols := zlength (m_routers n) / m_num_rows n in
    _ ← assert (m_num_rows n * cols =? zlength (m_routers n));
    Ok (n <| m_num_cols := Some cols |>)
  else Ok (n <| m_num_rows := -1 |> <| m_num_cols := Some (-1) |>).

(** A router is declared to the fault model, and its probabilities are printed. *)
Definition declare_fault (n : t) (r : Router.t) (st : FaultModel.t * FaultModel.Statics) : res (FaultModel.t * FaultModel.Statics) :=
  '(id, f, s) ← FaultModel.declare_router (Router.get_num_inports r) (Router.get_num_outports r) (Router.m_vc_per_vnet r)
                  (m_buffers_per_data_vc n) (m_buffers_per_ctrl_vc n) st.1 st.2;
  _ ← assert (id =? Router.m_id r);
  _ ← FaultModel.fault_prob (Router.m_id r) FaultModel.BASELINE_TEMPERATURE_CELCIUS f;
  _ ← FaultModel.fault_vector (Router.m_id r) FaultModel.BASELINE_TEMPERATURE_CELCIUS f;
  Ok (f, s).

Definition declare_faults (s : FaultModel.Statics) (n : t) : res (t * FaultModel.Statics) :=
  match fault_model n with
  | None => Ok (n, s)
  | Some f => '(f, s) ← for_each (m_routers n) (declare_fault n) (f, s); Ok (n <| fault_model := Some f |>, s)
  end.

Definition init (fuel : nat) (m_topology : Topology.t) (s : FaultModel.Statics) (n : t) : res (t * FaultModel.Statics) :=
  n ← for_ (Z.to_nat (Network.m_nodes (base n))) 0 add_node n;
  made ← Topology.createLinks fuel m_topology;
  n ← for_each made make_link n;
  n ← set_mesh n;
  declare_faults s n.

End links.

(** ** Statistics *)

Record LinkStats := mkLinkStats {
  m_total_ext_in_link_utilization : Z;
  m_total_ext_out_link_utilization : Z;
  m_total_int_link_utilization : Z;
  m_average_link_utilization : spec_float;
  m_average_vc_load : list spec_float;
}.
#[global] Instance LinkStats_eta : Etaed LinkStats := fun s =>
  mkLinkStats (m_total_ext_in_link_utilization s) (m_total_ext_out_link_utilization s) (m_total_int_link_utilization s)
    (m_average_link_utilization s) (m_average_vc_load s).

(** The part of [regStats] that sizes the vector of loads. *)
Definition LinkStats_new (n : t) : LinkStats :=
  mkLinkStats 0 0 0 (F64.of_Z 0)
    (replicate (Z.to_nat (Network.m_virtual_networks (base n) * m_max_vcs_per_vnet n)) (F64.of_Z 0)).

(** The formulas of [regStats]: quotients of the counters, evaluated in [double]. *)
Definition avg (total count : Z) : spec_float := F64.div (F64.of_Z total) (F64.of_Z count).
Definition sum (v : list Z) : Z := foldr Z.add 0 v.

Record Averages := mkAverages {
  m_avg_packet_vnet_latency : list spec_float;
  m_avg_packet_vqueue_latency : list spec_float;
  m_avg_packet_network_latency : spec_float;
  m_avg_packet_queueing_latency : spec_float;
  m_avg_packet_latency : spec_float;
  m_avg_flit_vnet_latency : list spec_float;
  m_avg_flit_vqueue_latency : list spec_float;
  m_avg_flit_network_latency : spec_float;
  m_avg_flit_queueing_latency : spec_float;
  m_avg_flit_latency : spec_float;
  m_avg_hops : spec_float;
}.

Definition averages (s : GarnetStats.t) : Averages :=
  let packets := GarnetStats.m_packets_received s in
  let flits := GarnetStats.m_flits_received s in
  let packet_network := avg (sum (GarnetStats.m_packet_network_latency s)) (sum packets) in
  let packet_queueing := avg (sum (GarnetStats.m_packet_queueing_latency s)) (sum packets) in
  let flit_network := avg (sum (GarnetStats.m_flit_network_latency s)) (sum flits) in
  let flit_queueing := avg (sum (GarnetStats.m_flit_queueing_latency s)) (sum flits) in
  mkAverages (zip_with avg (GarnetStats.m_packet_network_latency s) packets)
    (zip_with avg (GarnetStats.m_packet_queueing_latency s) packets)
    packet_network packet_queueing (F64.add packet_network packet_queueing)
    (zip_with avg (GarnetStats.m_flit_network_latency s) flits)
    (zip_with avg (GarnetStats.m_flit_queueing_latency s) flits)
    flit_network flit_queueing (F64.add flit_network flit_queueing)
    (avg (GarnetStats.m_total_hops s) (sum flits)).

(** The flit and credit links of a wire: at the port that reads them, or
    before the bridge that stands there. *)
Definition flit_link (w : Wire) (n : t) : res NetworkLink.t :=
  match ln_far (w_flits w) with Some _ => Ok (ln_link (w_flits w)) | None => in_link (w_to w) n end.

Definition collate_link (time_delta : spec_float) (l : NetworkLink.t) (s : LinkStats) : res LinkStats :=
  let activity := i32 (NetworkLink.m_link_utilized l) in
  let s := s <| m_total_ext_in_link_utilization ::= (fun x => if bool_decide (NetworkLink.m_type l = EXT_IN_) then x + activity else x) |>
             <| m_total_ext_out_link_utilization ::= (fun x => if bool_decide (NetworkLink.m_type l = EXT_OUT_) then x + activity else x) |>
             <| m_total_int_link_utilization ::= (fun x => if bool_decide (NetworkLink.m_type l = INT_) then x + activity else x) |>
             <| m_average_link_utilization ::= (fun x => F64.add x (F64.div (F64.of_Z activity) time_delta)) |> in
  load ← for_ (length (NetworkLink.m_vc_load l)) 0 (fun j a =>
    k ← vget (NetworkLink.m_vc_load l) j;
    valter (fun x => F64.add x (F64.div (F64.of_Z k) time_delta)) a j) (m_average_vc_load s);
  Ok (s <| m_average_vc_load := load |>).

(** [cycles] is [curCycle() - rs->getStartCycle()]; [router_stats] holds the
    statistics of the routers so far. *)
Definition collateStats (cycles : Z) (s : LinkStats) (router_stats : list RouterStats) (n : t)
    : res (LinkStats * list RouterStats) :=
  let time_delta := F64.of_Z cycles in
  s ← for_each (m_wires n) (fun w s => l ← flit_link w n; collate_link time_delta l s) s;
  rs ← for_ (length (m_routers n)) 0 (fun i rs =>
    r ← vget (m_routers n) i;
    old ← vget router_stats i;
    st ← RouterWakeup.collateStats (st_buffer_reads old) (st_buffer_writes old) r;
    Ok (rs ++ [st])) [];
  Ok (s, rs).

(** The links reset their counts where they are. *)
Definition reset_wire (w : Wire) (n : t) : res t :=
  n ← (match ln_far (w_flits w) with
       | Some _ => Ok n
       | None => l ← in_link (w_to w) n; put_in_link (w_to w) (NetworkLink.resetStats l) n
       end);
  match ln_far (w_credits w) with
  | Some _ => Ok n
  | None => l ← credit_link (w_from w) n; put_credit_link (w_from w) (NetworkLink.resetStats l) n
  end.

Definition reset_line (l : Line) : Line :=
  match ln_far l with Some _ => l <| ln_link ::= NetworkLink.resetStats |> | None => l end.

Definition resetStats (n : t) : res t :=
  let n := n <| m_routers ::= fmap router_resetStats |> in
  n ← for_each (m_wires n) reset_wire n;
  Ok (n <| m_wires ::= fmap (fun w => w <| w_flits ::= reset_line |> <| w_credits ::= reset_line |>) |>).

(** ** Functional accesses *)

(** The buffers of the bridges of a flit line; the one at the receiver is
    the link that the receiver reads from. *)
Definition bridge_links (w : Wire) (n : t) : res (list NetworkLink.t) :=
  far ← (match ln_far (w_flits w) with Some _ => l ← in_link (w_to w) n; Ok [l] | None => Ok [] end);
  Ok (match ln_near (w_flits w) with Some b => [NetworkBridge.link b] | None => [] end ++ far).

Definition functionalRead (rd : flit.t -> bool) (n : t) : res bool :=
  let read := foldl (fun read r => if router_functionalRead rd r then true else read) false (m_routers n) in
  let read := foldl (fun read x => if NetworkInterface.functionalRead rd x then true else read) read (m_nis n) in
  read ← for_each (m_wires n) (fun w read =>
    l ← flit_link w n; Ok (if NetworkLink.functionalRead rd l then true else read)) read;
  for_each (m_wires n) (fun w read =>
    bs ← bridge_links w n; Ok (foldl (fun read l => if NetworkLink.functionalRead rd l then true else read) read bs)) read.

Definition functionalWrite (wr : flit.t -> bool) (n : t) : res Z :=
  let k := foldl (fun k r => u32 (k + router_functionalWrite wr r)) 0 (m_routers n) in
  let k := foldl (fun k x => u32 (k + NetworkInterface.functionalWrite wr x)) k (m_nis n) in
  for_each (m_wires n) (fun w k => l ← flit_link w n; Ok (u32 (k + NetworkLink.functionalWrite wr l))) k.

End GarnetNetwork.
