(* ===== verification/UnitLemmas.v ===== *)
(** * UnitLemmas: the operations of the units on well-formed states *)

From S2P Require Import Prelude NetDest CommonTypes Flit Channels Clock Link Units.

(** ** Virtual channels *)

Import VirtualChannel.

(** The flit at the head of a channel waits for the switch. *)
Definition head_ready (now : Z) (v : VirtualChannel.t) (f : flit.t) (l : list flit.t) : Prop :=
  flits v = f :: l /\ flit.m_time f <= now /\ flit.is_stage SA_ now f = true.

(** A channel with flits is active; a tail flit is the last one. *)
Definition vc_active (now : Z) (v : VirtualChannel.t) : Prop :=
  flits v <> [] -> (VirtualChannel.m_vc_state v).1 = ACTIVE_ /\ (VirtualChannel.m_vc_state v).2 <= now.
Definition tail_last (v : VirtualChannel.t) : Prop :=
  forall f l1 l2, flits v = l1 ++ f :: l2 -> flit.is_tail f = true -> l2 = [].

Lemma vc_active_later now now' v : now <= now' -> vc_active now v -> vc_active now' v.
Proof. intros Hle Ha Hne. destruct (Ha Hne). split; [done|lia]. Qed.

Lemma need_stage_spec now v : vc_active now v ->
  exists b, VirtualChannel.need_stage SA_ now v = Ok b /\ (b = true <-> exists f l, head_ready now v f l).
Proof.
  intros Ha. unfold VirtualChannel.need_stage, flitBuffer.isReady, flitBuffer.peekTopFlit, head_ready.
  unfold vc_active, flits in *. destruct (flitBuffer.m_buffer _) as [|f l].
  { exists false. split; [done|]. split; [done|]. by intros (f & l & ? & _). }
  destruct (Z.leb_spec (flit.m_time f) now) as [Hle|Hgt].
  - destruct (Ha ltac:(done)) as [Hs Ht]. rewrite (bool_decide_eq_true_2 _ Hs), (proj2 (Z.leb_le _ _) Ht).
    simpl. eexists. split; [done|]. split; [intros Hst; exists f, l; by split_and!|].
    intros (f' & l' & [= <- <-] & _ & Hst). done.
  - exists false. split; [done|]. split; [done|]. intros (f' & l' & [= <- <-] & ? & _). lia.
Qed.

(** ** Output units *)

Import OutputUnit.

(** Numbers of a virtual network's channels. *)
Definition vnet_vcs (n vnet vc : Z) : Prop := vnet * n <= vc < vnet * n + n.

Definition out_vc (ou : OutputUnit.t) (vc : Z) (o : OutVcState.t) : Prop :=
  0 <= vc /\ outVcState ou !! Z.to_nat vc = Some o.

(** One state per channel, credits in range, and an idle channel has one. *)
Definition out_ok (vnets : Z) (ou : OutputUnit.t) : Prop :=
  0 < OutputUnit.m_vc_per_vnet ou /\
  zlength (outVcState ou) = vnets * OutputUnit.m_vc_per_vnet ou /\
  forall vc o, out_vc ou vc o -> OutVcState.wf o /\
    (OutVcState.m_vc_state o = IDLE_ -> 0 < OutVcState.m_credit_count o).

(** Some channel of the network is idle. *)
Definition free_vc (now vnet : Z) (ou : OutputUnit.t) (vc : Z) : Prop :=
  vnet_vcs (OutputUnit.m_vc_per_vnet ou) vnet vc /\
  exists o, out_vc ou vc o /\ OutVcState.isInState IDLE_ now o = true.

Lemma out_vc_fun ou vc o o' : out_vc ou vc o -> out_vc ou vc o' -> o = o'.
Proof. intros [_ H1] [_ H2]. congruence. Qed.

Lemma out_vc_vget ou vc o : out_vc ou vc o <-> vget (outVcState ou) vc = Ok o.
Proof. symmetry. apply vget_Ok. Qed.

Section output.
Context (vnets now vnet : Z) (ou : OutputUnit.t) (Hok : out_ok vnets ou) (Hvnet : 0 <= vnet < vnets).

Lemma vnet_vcs_range vc : vnet_vcs (OutputUnit.m_vc_per_vnet ou) vnet vc ->
  0 <= vc < zlength (outVcState ou).
Proof. destruct Hok as (Hn & -> & _). unfold vnet_vcs. nia. Qed.

Lemma is_vc_idle_spec vc : 0 <= vc < zlength (outVcState ou) ->
  exists o, out_vc ou vc o /\ is_vc_idle vc now ou = Ok (OutVcState.isInState IDLE_ now o).
Proof.
  intros Hr. destruct (vget_range _ _ Hr) as [o Ho]. exists o.
  split; [by apply out_vc_vget|]. unfold is_vc_idle. by rewrite Ho.
Qed.

Lemma has_free_vc_spec :
  safe (has_free_vc now vnet ou) (fun b => b = true <-> exists vc, free_vc now vnet ou vc).
Proof.
  unfold has_free_vc. set (n := OutputUnit.m_vc_per_vnet ou).
  apply (safe_for_break (fun j b => b = false /\
    forall vc, vnet * n <= vc < j -> ~ free_vc now vnet ou vc)).
  - split; [done|]. intros; lia.
  - intros j b Hj [-> Hno]. assert (Hr : vnet_vcs n vnet j) by (unfold vnet_vcs; lia).
    destruct (is_vc_idle_spec j (vnet_vcs_range j Hr)) as (o & Ho & ->). simpl.
    destruct (OutVcState.isInState IDLE_ now o) eqn:E.
    + split; [|done]. intros _. exists j. split; [done|]. eauto.
    + split; [done|]. intros vc Hvc. destruct (decide (vc = j)) as [->|]; [|apply Hno; lia].
      intros (_ & o' & Ho' & E'). rewrite (out_vc_fun _ _ _ _ Ho Ho') in E. congruence.
  - intros b [-> Hno]. split; [done|]. intros (vc & Hvc). exfalso. eapply (Hno vc); [|done].
    destruct Hvc as [Hvc _]. unfold vnet_vcs in Hvc. fold n in Hvc. destruct Hok as (Hn & _).
    fold n in Hn. lia.
Qed.

(** The first idle channel is taken. *)
Lemma select_free_vc_spec :
  (exists vc, free_vc now vnet ou vc) ->
  safe (select_free_vc now vnet ou) (fun '(vc, ou') =>
    free_vc now vnet ou vc /\ (forall vc', vc' < vc -> ~ free_vc now vnet ou vc') /\
    exists o, out_vc ou vc o /\ ou' = ou <| outVcState :=
      <[Z.to_nat vc := OutVcState.setState ACTIVE_ now o]> (outVcState ou) |>).
Proof.
  intros Hex. unfold select_free_vc. set (n := OutputUnit.m_vc_per_vnet ou).
  apply (safe_for_break (fun j '(_, u) => u = ou /\
    forall vc, vc < j -> ~ free_vc now vnet ou vc)).
  - split; [done|]. intros vc Hvc [[Hr _] _]. unfold n in Hvc. lia.
  - intros j [? u] Hj [-> Hno]. assert (Hr : vnet_vcs n vnet j) by (unfold vnet_vcs; lia).
    pose proof (vnet_vcs_range j Hr) as Hrange.
    destruct (is_vc_idle_spec j Hrange) as (o & Ho & ->). cbn [mbind res_bind].
    destruct (OutVcState.isInState IDLE_ now o) eqn:E.
    + unfold set_vc_state. apply safe_bind, safe_bind, safe_valter; [done|]. intros o' Ho'. simpl.
      split; [|split; [done|]]; [by split; eauto|]. exists o'. split; [by split; [lia|]|done].
    + simpl. split; [done|]. intros vc Hvc. destruct (decide (vc = j)) as [->|]; [|apply Hno; lia].
      intros (_ & o' & Ho' & E'). rewrite (out_vc_fun _ _ _ _ Ho Ho') in E. congruence.
  - intros [vc' u] [-> Hno]. exfalso. destruct Hex as [vc Hvc]. apply (Hno vc); [|done].
    destruct Hvc as [Hvc _]. unfold vnet_vcs in Hvc. destruct Hok as (Hn & _). unfold n. lia.
Qed.

End output.
