(* ===== verification/SwitchProofs.v ===== *)
(** * SwitchProofs: correctness of switch allocation

    On a well-formed router the two-stage allocation fails no assertion,
    keeps the router well-formed, and moves at most one flit from each
    input port and to each output port. *)

From S2P Require Import Prelude NetDest CommonTypes Flit Channels RoutingUnit Clock Link Units.
From S2P Require Import Router SwitchAlloc UnitLemmas.
Import Router.

(** ** Well-formed routers *)

Section wf.
Context (net : NetParams) (now : Z).

(** The output of an active channel: a port of the router and, once
    allocated, an active channel behind it. *)
Definition vc_out_ok (outs : list OutputUnit.t) (v : VirtualChannel.t) : Prop :=
  VirtualChannel.get_state v = ACTIVE_ ->
  exists ou, vget outs (VirtualChannel.m_output_port v) = Ok ou /\
    (VirtualChannel.m_output_vc v = -1 \/
     exists o, out_vc ou (VirtualChannel.m_output_vc v) o /\
       OutVcState.isInState ACTIVE_ now o = true).

Definition vc_ok (outs : list OutputUnit.t) (v : VirtualChannel.t) : Prop :=
  vc_active now v /\ tail_last v /\ vc_out_ok outs v.

(** Sizes: the allocator, the crossbar and the units agree. *)
Record shape_ok (r : Router.t) : Prop := {
  ok_vnets : 0 < m_virtual_networks r < 2 ^ 31;
  ok_vc_per_vnet : 0 < m_vc_per_vnet r;
  ok_num_vcs : m_num_vcs r = m_virtual_networks r * m_vc_per_vnet r;
  ok_sa_vcs : SwitchAllocator.m_num_vcs (switchAllocator r) = m_num_vcs r;
  ok_sa_per : SwitchAllocator.m_vc_per_vnet (switchAllocator r) = m_vc_per_vnet r;
  ok_sa_in : SwitchAllocator.m_num_inports (switchAllocator r) = zlength (m_input_unit r);
  ok_sa_out : SwitchAllocator.m_num_outports (switchAllocator r) = zlength (m_output_unit r);
  ok_rr_vc : zlength (SwitchAllocator.m_round_robin_invc (switchAllocator r)) = zlength (m_input_unit r);
  ok_rr_in : zlength (SwitchAllocator.m_round_robin_inport (switchAllocator r)) = zlength (m_output_unit r);
  ok_reqs : zlength (SwitchAllocator.m_port_requests (switchAllocator r)) = zlength (m_input_unit r);
  ok_wins : zlength (SwitchAllocator.m_vc_winners (switchAllocator r)) = zlength (m_input_unit r);
  ok_xbar : zlength (CrossbarSwitch.switchBuffers (crossbarSwitch r)) = zlength (m_input_unit r);
  ok_ordered : m_virtual_networks r <= zlength (m_ordered net);
}.

(** Round-robin pointers point at a channel and at a port. *)
Definition pointers_ok (r : Router.t) : Prop :=
  Forall (fun vc => 0 <= vc < m_num_vcs r) (SwitchAllocator.m_round_robin_invc (switchAllocator r)) /\
  Forall (fun i => 0 <= i /\ (0 < zlength (m_input_unit r) -> i < zlength (m_input_unit r)))
    (SwitchAllocator.m_round_robin_inport (switchAllocator r)).

Definition inputs_ok (r : Router.t) : Prop :=
  Forall (fun u => zlength (InputUnit.virtualChannels u) = m_num_vcs r /\
                   Forall (vc_ok (m_output_unit r)) (InputUnit.virtualChannels u)) (m_input_unit r).

Definition outputs_ok (r : Router.t) : Prop :=
  Forall (out_ok (m_virtual_networks r)) (m_output_unit r).

Definition clock_ok (r : Router.t) : Prop :=
  Clocked.wf now (em r) /\ Clocked.clockEdge now 0 (em r) = now /\
  Consumer.waking (em r) now (consumer r).

Definition router_ok (r : Router.t) : Prop :=
  shape_ok r /\ pointers_ok r /\ inputs_ok r /\ outputs_ok r /\ clock_ok r.

(** ** Sending *)

(** Channel [invc] of port [inport]. *)
Definition in_vc (r : Router.t) (inport invc : Z) (u : InputUnit.t) (v : VirtualChannel.t) : Prop :=
  vget (m_input_unit r) inport = Ok u /\ vget (InputUnit.virtualChannels u) invc = Ok v.

(** The flit [f] at its head may go to [outport]: a channel is free
    behind it, or the packet's channel has a credit. *)
Definition can_send (r : Router.t) (inport invc outport : Z) : Prop :=
  exists u v ou f l, in_vc r inport invc u v /\ head_ready now v f l /\
    VirtualChannel.m_output_port v = outport /\ vget (m_output_unit r) outport = Ok ou /\
    if decide (VirtualChannel.m_output_vc v = -1)
    then exists vc, free_vc now (invc / m_vc_per_vnet r) ou vc
    else exists o, out_vc ou (VirtualChannel.m_output_vc v) o /\ 0 < OutVcState.m_credit_count o.

(** What switch allocation and traversal leave alone. *)
Record same_config (r r' : Router.t) : Prop := {
  sc_id : m_id r' = m_id r;
  sc_latency : m_latency r' = m_latency r;
  sc_vnets : m_virtual_networks r' = m_virtual_networks r;
  sc_per : m_vc_per_vnet r' = m_vc_per_vnet r;
  sc_vcs : m_num_vcs r' = m_num_vcs r;
  sc_width : m_bit_width r' = m_bit_width r;
  sc_routing : routingUnit r' = routingUnit r;
  sc_outBuf : outBuf r' = outBuf r;
  sc_inS : inS0 r' = inS0 r;
  sc_em : em r' = em r;
  sc_consumer : consumer r' = consumer r;
}.

(** Only the allocator's own fields differ. *)
Definition same_units (r r' : Router.t) : Prop := exists s, r' = r <| switchAllocator := s |>.

End wf.

(** ** Lookups *)

Lemma getInputUnit_vget i r u : vget (m_input_unit r) i = Ok u -> getInputUnit i r = Ok u.
Proof.
  intros Hu. unfold getInputUnit. pose proof (vget_bound _ _ _ Hu).
  rewrite bool_decide_eq_true_2 by done. done.
Qed.

Lemma getOutputUnit_vget i r u : vget (m_output_unit r) i = Ok u -> getOutputUnit i r = Ok u.
Proof.
  intros Hu. unfold getOutputUnit. pose proof (vget_bound _ _ _ Hu).
  rewrite bool_decide_eq_true_2 by done. done.
Qed.

Lemma Forall_vget {A} (P : A -> Prop) l i x : Forall P l -> vget l i = Ok x -> P x.
Proof. intros Hall [_ Hx]%vget_Ok. by eapply Forall_lookup_1 in Hall. Qed.

Lemma Forall_vset {A} (P : A -> Prop) l i x l' : Forall P l -> P x -> vset l i x = Ok l' -> Forall P l'.
Proof. intros Hall Hx [_ ->]%vset_Ok. by apply Forall_insert. Qed.

Section lemmas.
Context (net : NetParams) (now : Z).

Lemma inputs_vc r i u : inputs_ok now r -> vget (m_input_unit r) i = Ok u ->
  zlength (InputUnit.virtualChannels u) = m_num_vcs r /\
  Forall (vc_ok now (m_output_unit r)) (InputUnit.virtualChannels u).
Proof. intros Hin Hu. apply (Forall_vget _ _ _ _ Hin Hu). Qed.

Lemma in_vc_exists r i invc : shape_ok net r -> inputs_ok now r ->
  0 <= i < zlength (m_input_unit r) -> 0 <= invc < m_num_vcs r ->
  exists u v, in_vc r i invc u v /\ vc_ok now (m_output_unit r) v.
Proof.
  intros Hs Hin Hi Hvc. destruct (vget_range _ _ Hi) as [u Hu].
  destruct (inputs_vc _ _ _ Hin Hu) as [Hlen Hall].
  destruct (vget_range (InputUnit.virtualChannels u) invc ltac:(lia)) as [v Hv].
  exists u, v. split; [done|]. by apply (Forall_vget _ _ _ _ Hall Hv).
Qed.

(** The virtual network of a channel. *)
Lemma get_vnet_spec r invc : shape_ok net r -> 0 <= invc < m_num_vcs r ->
  get_vnet invc r = Ok (invc / m_vc_per_vnet r) /\ 0 <= invc / m_vc_per_vnet r < m_virtual_networks r.
Proof.
  intros Hs Hvc. destruct Hs. unfold get_vnet. rewrite ok_sa_per0, cdiv_Ok by lia.
  assert (0 <= invc / m_vc_per_vnet r < m_virtual_networks r).
  { split; [apply Z.div_pos; lia|]. apply Z.div_lt_upper_bound; nia. }
  cbn [mbind res_bind]. rewrite Z.quot_div_nonneg by lia.
  unfold u32. rewrite Z.mod_small by lia. rewrite (proj2 (Z.ltb_lt _ _)) by lia. done.
Qed.

(** ** Stage one *)

Lemma older_waiting_safe r inport vnet outport t :
  shape_ok net r -> inputs_ok now r -> 0 <= inport < zlength (m_input_unit r) ->
  0 <= vnet < m_virtual_networks r ->
  safe (older_waiting now inport vnet outport t r) (fun _ => True).
Proof.
  intros Hs Hin Hi Hvnet. destruct (vget_range _ _ Hi) as [u Hu]. unfold older_waiting.
  rewrite (getInputUnit_vget _ _ _ Hu). cbn [mbind res_bind].
  destruct (inputs_vc _ _ _ Hin Hu) as [Hlen Hall]. destruct Hs. rewrite ok_sa_per0.
  apply (safe_for_break (fun _ _ => True)); [done| |done]. intros j b Hj _.
  assert (Hr : 0 <= vnet * m_vc_per_vnet r + j < m_num_vcs r) by nia.
  unfold InputUnit.need_stage, InputUnit.get_outport, InputUnit.get_enqueue_time, InputUnit.with_vc.
  destruct (vget_range (InputUnit.virtualChannels u) _ ltac:(rewrite Hlen; exact Hr)) as [v Hv].
  rewrite Hv. cbn [mbind res_bind].
  destruct (Forall_vget _ _ _ _ Hall Hv) as [Hact _].
  destruct (need_stage_spec now v Hact) as (b' & -> & _). cbn [mbind res_bind].
  destruct b'; [|done]. cbn [mbind res_bind]. by destruct (_ =? outport); [destruct (_ <? t)|].
Qed.

(** What the port and credit checks decide. *)
Lemma send_check_spec r inport invc u v f l ou :
  shape_ok net r -> outputs_ok r -> in_vc r inport invc u v -> vc_ok now (m_output_unit r) v ->
  head_ready now v f l -> 0 <= invc < m_num_vcs r ->
  vget (m_output_unit r) (VirtualChannel.m_output_port v) = Ok ou ->
  safe (if VirtualChannel.m_output_vc v =? -1
        then OutputUnit.has_free_vc now (invc / m_vc_per_vnet r) ou
        else OutputUnit.has_credit now (VirtualChannel.m_output_vc v) ou)
    (fun b => b = true <-> can_send now r inport invc (VirtualChannel.m_output_port v)).
Proof.
  intros Hs Hout Hvc (Hact & _ & Hpo) Hhr Hr Hou.
  destruct (get_vnet_spec r invc Hs Hr) as [_ Hvnet].
  pose proof (Forall_vget _ _ _ _ Hout Hou) as Hook.
  assert (Hcan : can_send now r inport invc (VirtualChannel.m_output_port v) <->
    if decide (VirtualChannel.m_output_vc v = -1)
    then exists vc, free_vc now (invc / m_vc_per_vnet r) ou vc
    else exists o, out_vc ou (VirtualChannel.m_output_vc v) o /\ 0 < OutVcState.m_credit_count o).
  { split.
    - intros (u' & v' & ou' & f' & l' & [Hu' Hv'] & _ & _ & Hou' & Hc).
      destruct Hvc as [Hu Hv]. rewrite Hu in Hu'. injection Hu' as <-. rewrite Hv in Hv'.
      injection Hv' as <-. rewrite Hou in Hou'. injection Hou' as <-. exact Hc.
    - intros Hc. by exists u, v, ou, f, l. }
  destruct (Z.eqb_spec (VirtualChannel.m_output_vc v) (-1)) as [Heq|Hne].
  - eapply safe_mono; [by apply (has_free_vc_spec (m_virtual_networks r))|].
    intros b ->. rewrite Hcan, decide_True by done. done.
  - destruct Hhr as [Hfl _]. destruct (Hact ltac:(by rewrite Hfl)) as [Hst _].
    destruct (Hpo Hst) as (ou' & Hou' & [?|(o & Ho & Hin)]); [done|].
    rewrite Hou in Hou'. injection Hou' as <-.
    unfold OutputUnit.has_credit. rewrite (proj1 (out_vc_vget _ _ _) Ho). cbn [mbind res_bind].
    rewrite Hin. cbn [assert mbind res_bind]. simpl. rewrite Hcan, decide_False by done.
    unfold OutVcState.has_credit. rewrite Z.ltb_lt. split; [eauto|].
    intros (o' & Ho' & Hc). by rewrite (out_vc_fun _ _ _ _ Ho Ho').
Qed.

(** A request is only placed by a channel that can send; without
    ordering every such channel may place one. *)
Lemma request_vc_spec r inport invc :
  shape_ok net r -> inputs_ok now r -> outputs_ok r ->
  0 <= inport < zlength (m_input_unit r) -> 0 <= invc < m_num_vcs r ->
  safe (request_vc net now inport invc r) (fun req =>
    (forall o, req = Some o -> can_send now r inport invc o) /\
    (req = None -> isVNetOrdered net (invc / m_vc_per_vnet r) = Ok false ->
       forall o, ~ can_send now r inport invc o)).
Proof.
  intros Hs Hin Hout Hi Hr. destruct (in_vc_exists r inport invc Hs Hin Hi Hr) as (u & v & Hvc & Hok).
  pose proof Hvc as [Hu Hv]. unfold request_vc. rewrite (getInputUnit_vget _ _ _ Hu). cbn [mbind res_bind].
  unfold InputUnit.need_stage, InputUnit.get_outport, InputUnit.get_outvc, InputUnit.with_vc.
  rewrite Hv. cbn [mbind res_bind].
  destruct (need_stage_spec now v (proj1 Hok)) as (b & -> & Hb). cbn [mbind res_bind].
  destruct b.
  2:{ split; [done|]. intros _ _ o (u' & v' & ou & f & l & [Hu' Hv'] & Hhr & _).
      rewrite Hu in Hu'. injection Hu' as <-. rewrite Hv in Hv'. injection Hv' as <-.
      destruct Hb as [_ Hb]. discriminate Hb. eauto. }
  destruct (proj1 Hb eq_refl) as (f & l & Hhr).
  destruct Hok as (Hact & Htl & Hpo). destruct (Hact ltac:(by rewrite (proj1 Hhr))) as [Hst _].
  destruct (Hpo Hst) as (ou & Hou & _).
  unfold send_allowed, VirtualChannel.get_outport, VirtualChannel.get_outvc.
  destruct (get_vnet_spec r invc Hs Hr) as [-> Hvnet]. cbn [mbind res_bind].
  rewrite (getOutputUnit_vget _ _ _ Hou). cbn [mbind res_bind].
  apply safe_bind. apply safe_bind.
  eapply safe_mono; [by eapply (send_check_spec r inport invc u v f l ou); try done|].
  intros allowed Hal.
  assert (Hone : forall o, can_send now r inport invc o -> o = VirtualChannel.m_output_port v).
  { intros o (u' & v' & _ & _ & _ & [Hu' Hv'] & _ & <- & _). rewrite Hu in Hu'.
    injection Hu' as <-. rewrite Hv in Hv'. by injection Hv' as <-. }
  destruct allowed; simpl.
  2:{ split; [done|]. intros _ _ o Hc. pose proof (Hone o Hc) as ->. by apply Hal in Hc. }
  destruct (vget_range (m_ordered net) (invc / m_vc_per_vnet r)) as [ord Hord].
  { destruct Hs. lia. }
  unfold isVNetOrdered. rewrite Hord. cbn [mbind res_bind]. destruct ord.
  - rewrite (getInputUnit_vget _ _ _ Hu). cbn [mbind res_bind].
    unfold InputUnit.get_enqueue_time, InputUnit.with_vc. rewrite Hv. cbn [mbind res_bind].
    apply safe_bind. eapply safe_mono; [by apply older_waiting_safe|]. intros older _. simpl.
    split; [|done]. destruct older; simpl; [done|]. intros o [= <-]. by apply Hal.
  - simpl. split; [|done]. intros o [= <-]. by apply Hal.
Qed.

Lemma wrap_index x n : 0 <= x < n -> (if n <=? x + 1 then 0 else x + 1) = (x + 1) mod n.
Proof.
  intros Hx. destruct (Z.leb_spec n (x + 1)).
  - replace (x + 1) with n by lia. by rewrite Z.mod_same by lia.
  - by rewrite Z.mod_small by lia.
Qed.

(** Every index comes up in a round. *)
Lemma wrap_covers a n x : 0 <= a -> 0 <= x < n -> exists k, 0 <= k < n /\ x = (a + k) mod n.
Proof.
  intros Ha Hx. exists ((x - a) mod n). split; [apply Z.mod_pos_bound; lia|].
  rewrite Zplus_mod_idemp_r. replace (a + (x - a)) with x by lia. by rewrite Z.mod_small.
Qed.

(** The round over the channels of one port. *)
Definition requests_for (r : Router.t) (inport : Z) (r' : Router.t) : Prop :=
  (r' = r /\ forall invc o, 0 <= invc < m_num_vcs r ->
     isVNetOrdered net (invc / m_vc_per_vnet r) = Ok false -> ~ can_send now r inport invc o) \/
  (exists o invc, 0 <= invc < m_num_vcs r /\ can_send now r inport invc o /\
     r' = r <| switchAllocator := (switchAllocator r)
       <| SwitchAllocator.m_input_arbiter_activity ::= Z.succ |>
       <| SwitchAllocator.m_port_requests ::= <[Z.to_nat inport := o]> |>
       <| SwitchAllocator.m_vc_winners ::= <[Z.to_nat inport := invc]> |> |>).

Lemma arbitrate_inport_spec r inport :
  shape_ok net r -> pointers_ok r -> inputs_ok now r -> outputs_ok r ->
  0 <= inport < zlength (m_input_unit r) ->
  safe (arbitrate_inport net now inport r) (requests_for r inport).
Proof.
  intros Hs [Hp _] Hin Hout Hi. pose proof Hs as Hs'. destruct Hs'.
  unfold arbitrate_inport. set (n := m_num_vcs r) in *.
  destruct (vget_range (SwitchAllocator.m_round_robin_invc (switchAllocator r)) inport ltac:(lia)) as [a Ha].
  rewrite Ha. cbn [mbind res_bind]. pose proof (Forall_vget _ _ _ _ Hp Ha) as Hra. cbv beta in Hra.
  rewrite ok_sa_vcs0. fold n. apply safe_bind.
  apply (safe_for_break (fun k '(invc, r') => r' = r /\ invc = (a + k) mod n /\
    forall k' o, 0 <= k' < k -> isVNetOrdered net ((a + k') mod n / m_vc_per_vnet r) = Ok false ->
      ~ can_send now r inport ((a + k') mod n) o)).
  - split_and!; [done|by rewrite Z.add_0_r, Z.mod_small|]. intros; lia.
  - intros k [invc r'] Hk (-> & -> & Hno).
    assert (Hr : 0 <= (a + k) mod n < n) by (apply Z.mod_pos_bound; lia).
    apply safe_bind. eapply safe_mono; [by apply request_vc_spec|].
    intros req [Hsome Hnone]. destruct req as [o|].
    + apply safe_bind, safe_vset; [lia|]. apply safe_bind, safe_vset; [lia|]. simpl.
      right. exists o, ((a + k) mod n). split_and!; [lia|lia|by apply Hsome|done].
    + simpl. rewrite ok_sa_vcs0. fold n. split_and!; [done| |].
      * rewrite wrap_index, Zplus_mod_idemp_l by done. f_equal. lia.
      * intros k' o Hk'. destruct (decide (k' = k)) as [->|]; [intros; by apply Hnone|].
        apply Hno. lia.
  - intros [invc r'] (-> & _ & Hno). simpl. left. split; [done|].
    intros invc' o Hr' Hord. destruct (wrap_covers a n invc' ltac:(lia) Hr') as (k & Hk & ->).
    apply Hno; [|done]. lia.
Qed.

(** The state between the stages: the requests placed so far. *)
Record requested (r0 r : Router.t) (j : Z) : Prop := {
  req_units : same_units r0 r;
  req_shape : shape_ok net r;
  req_pointers : pointers_ok r;
  req_prev : forall i, j <= i < zlength (m_input_unit r0) ->
    vget (SwitchAllocator.m_port_requests (switchAllocator r)) i = Ok (-1);
  req_ok : forall i o, vget (SwitchAllocator.m_port_requests (switchAllocator r)) i = Ok o -> o <> -1 ->
    exists invc, vget (SwitchAllocator.m_vc_winners (switchAllocator r)) i = Ok invc /\
      0 <= invc < m_num_vcs r0 /\ can_send now r0 i invc o;
  req_all : forall i invc o, 0 <= i < j -> 0 <= invc < m_num_vcs r0 ->
    isVNetOrdered net (invc / m_vc_per_vnet r0) = Ok false -> can_send now r0 i invc o ->
    exists o', vget (SwitchAllocator.m_port_requests (switchAllocator r)) i = Ok o' /\ o' <> -1;
}.

Lemma can_send_port r i invc o : can_send now r i invc o -> 0 <= o < zlength (m_output_unit r).
Proof. intros (? & ? & ou & ? & ? & _ & _ & _ & Hou & _). by apply vget_bound in Hou. Qed.

Lemma arbitrate_inports_spec r :
  shape_ok net r -> pointers_ok r -> inputs_ok now r -> outputs_ok r ->
  (forall i, 0 <= i < zlength (m_input_unit r) ->
     vget (SwitchAllocator.m_port_requests (switchAllocator r)) i = Ok (-1)) ->
  safe (arbitrate_inports net now r) (fun r' => requested r r' (zlength (m_input_unit r))).
Proof.
  intros Hs Hp Hin Hout Hidle. unfold arbitrate_inports. rewrite (ok_sa_in _ _ Hs).
  eapply safe_mono; [apply (safe_for (fun j r' => requested r r' j))|].
  - split; [by exists (switchAllocator r); destruct r|done|done| | |intros; lia].
    + intros i Hi. by apply Hidle.
    + intros i o Ho Hne. rewrite Hidle in Ho; [congruence|].
      apply vget_bound in Ho. rewrite (ok_reqs _ _ Hs) in Ho. done.
  - intros j r1 Hj Hreq. pose proof (req_units _ _ _ Hreq) as [s ->].
    pose proof (req_shape _ _ _ Hreq) as Hs1.
    eapply safe_mono; [apply (arbitrate_inport_spec _ j Hs1 (req_pointers _ _ _ Hreq)); try done; simpl; lia|].
    intros r2 [[-> Hno]|(o & invc & Hr & Hc & ->)].
    + destruct Hreq. split; try done.
      * intros i Hi. apply req_prev0. lia.
      * intros i invc o Hi. destruct (decide (i = j)) as [->|]; [|apply req_all0; lia].
        intros Hr Hord Hc. exfalso. by eapply Hno.
    + pose proof (can_send_port _ _ _ _ Hc) as Ho.
      assert (Hl1 : zlength (SwitchAllocator.m_port_requests s) = zlength (m_input_unit r))
        by apply Hs1.
      assert (Hl2 : zlength (SwitchAllocator.m_vc_winners s) = zlength (m_input_unit r)) by apply Hs1.
      split.
      * by eexists.
      * destruct Hs1. split; simpl in *; try done; by rewrite zlength_insert.
      * apply Hreq.
      * intros i Hi. simpl. rewrite vget_insert_ne by lia. apply Hreq. lia.
      * simpl. intros i o' Ho' Hne. destruct (decide (i = j)) as [->|Hij].
        { rewrite vget_insert_eq in Ho' by lia. injection Ho' as <-.
          rewrite vget_insert_eq by lia. by exists invc. }
        apply vget_bound in Ho' as Hb. rewrite vget_insert_ne in Ho' by lia.
        rewrite vget_insert_ne by lia. by apply Hreq.
      * simpl. intros i invc' o' Hi Hr' Hord Hc'. destruct (decide (i = j)) as [->|].
        { exists o. rewrite vget_insert_eq by lia. split; [done|lia]. }
        rewrite vget_insert_ne by lia. eapply (req_all _ _ _ Hreq); try done. lia.
  - intros r' Hr'. replace (0 + _) with (zlength (m_input_unit r)) in Hr'
      by (pose proof (zlength_nonneg (m_input_unit r)); lia). done.
Qed.

(** ** Stage two *)

(** The winner's flit, its channel, its unit and the output channel
    after the transfer. *)
Definition sent_flit (outport outvc : Z) (f : flit.t) : flit.t :=
  flit.advance_stage ST_ now (flit.set_vc outvc (flit.set_outport outport f)).

Definition vc_after (outvc : Z) (f : flit.t) (l : list flit.t) (v : VirtualChannel.t)
    : VirtualChannel.t :=
  let v := v <| VirtualChannel.m_output_vc := outvc |>
             <| VirtualChannel.inputBuffer ::= (fun b => b <| flitBuffer.m_buffer := l |>) |> in
  if flit.is_tail f then VirtualChannel.set_idle now v else v.

Definition unit_after (invc : Z) (f : flit.t) (v' : VirtualChannel.t) (u : InputUnit.t) : InputUnit.t :=
  InputUnit.increment_credit invc (flit.is_tail f) now
    (u <| InputUnit.virtualChannels ::= <[Z.to_nat invc := v']> |>).

Definition outvc_after (fresh : bool) (o : OutVcState.t) : OutVcState.t :=
  let o := if fresh then OutVcState.setState ACTIVE_ now o else o in
  o <| OutVcState.m_credit_count := OutVcState.m_credit_count o - 1 |>.

Definition out_after (outvc : Z) (o' : OutVcState.t) (ou : OutputUnit.t) : OutputUnit.t :=
  ou <| OutputUnit.outVcState ::= <[Z.to_nat outvc := o']> |>.

(** The grant of [outport] to channel [invc] of [inport]. *)
Record granted (r : Router.t) (inport invc outport : Z) (r' : Router.t) : Prop := mk_granted {
  gr_u : InputUnit.t;
  gr_v : VirtualChannel.t;
  gr_ou : OutputUnit.t;
  gr_o : OutVcState.t;
  gr_f : flit.t;
  gr_l : list flit.t;
  gr_b : flitBuffer.t;
  gr_outvc : Z;
  gr_in : in_vc r inport invc gr_u gr_v;
  gr_head : head_ready now gr_v gr_f gr_l;
  gr_port : VirtualChannel.m_output_port gr_v = outport;
  gr_out : vget (m_output_unit r) outport = Ok gr_ou;
  gr_outvc_o : out_vc gr_ou gr_outvc gr_o;
  gr_credit : 0 < OutVcState.m_credit_count gr_o;
  gr_alloc : if decide (VirtualChannel.m_output_vc gr_v = -1)
             then free_vc now (invc / m_vc_per_vnet r) gr_ou gr_outvc
             else gr_outvc = VirtualChannel.m_output_vc gr_v;
  gr_buf : vget (CrossbarSwitch.switchBuffers (crossbarSwitch r)) inport = Ok gr_b;
  gr_inputs : m_input_unit r' =
    <[Z.to_nat inport := unit_after invc gr_f (vc_after gr_outvc gr_f gr_l gr_v) gr_u]> (m_input_unit r);
  gr_outputs : m_output_unit r' =
    <[Z.to_nat outport := out_after gr_outvc
        (outvc_after (bool_decide (VirtualChannel.m_output_vc gr_v = -1)) gr_o) gr_ou]> (m_output_unit r);
  gr_bufs : CrossbarSwitch.switchBuffers (crossbarSwitch r') =
    <[Z.to_nat inport := flitBuffer.insert (sent_flit outport gr_outvc gr_f) gr_b]>
      (CrossbarSwitch.switchBuffers (crossbarSwitch r));
  gr_rest : same_config r r';
}.

Lemma can_send_outvc r i invc outport : shape_ok net r -> outputs_ok r -> 0 <= invc < m_num_vcs r ->
  can_send now r i invc outport ->
  exists u v ou f l, in_vc r i invc u v /\ head_ready now v f l /\
    VirtualChannel.m_output_port v = outport /\ vget (m_output_unit r) outport = Ok ou /\
    out_ok (m_virtual_networks r) ou /\
    if decide (VirtualChannel.m_output_vc v = -1)
    then exists vc, free_vc now (invc / m_vc_per_vnet r) ou vc
    else exists o, out_vc ou (VirtualChannel.m_output_vc v) o /\ 0 < OutVcState.m_credit_count o.
Proof.
  intros Hs Hout Hr (u & v & ou & f & l & Hvc & Hhr & Hport & Hou & Hc).
  exists u, v, ou, f, l. split_and!; try done. by apply (Forall_vget _ _ _ _ Hout Hou).
Qed.

Lemma setInputUnit_eq i u r : 0 <= i < zlength (m_input_unit r) ->
  setInputUnit i u r = Ok (r <| m_input_unit := <[Z.to_nat i := u]> (m_input_unit r) |>).
Proof. intros Hi. unfold setInputUnit, vset. by rewrite decide_True. Qed.

Lemma setOutputUnit_eq i u r : 0 <= i < zlength (m_output_unit r) ->
  setOutputUnit i u r = Ok (r <| m_output_unit := <[Z.to_nat i := u]> (m_output_unit r) |>).
Proof. intros Hi. unfold setOutputUnit, vset. by rewrite decide_True. Qed.

Lemma valter_eq {A} (f : A -> A) l i x : vget l i = Ok x ->
  valter f l i = Ok (<[Z.to_nat i := f x]> l).
Proof.
  intros Hx. unfold valter, valterM. rewrite Hx. cbn [mbind res_bind]. unfold vset.
  rewrite decide_True; [done|]. by eapply vget_bound.
Qed.

(** Allocation of a free output channel. *)
Lemma vc_allocate_spec r i invc outport u v ou :
  shape_ok net r -> 0 <= invc < m_num_vcs r -> in_vc r i invc u v ->
  vget (m_output_unit r) outport = Ok ou -> out_ok (m_virtual_networks r) ou ->
  (exists vc, free_vc now (invc / m_vc_per_vnet r) ou vc) ->
  safe (vc_allocate now outport i invc r) (fun '(c, r') =>
    exists o, free_vc now (invc / m_vc_per_vnet r) ou c /\ out_vc ou c o /\
    r' = r <| m_output_unit := <[Z.to_nat outport :=
                 out_after c (OutVcState.setState ACTIVE_ now o) ou]> (m_output_unit r) |>
           <| m_input_unit := <[Z.to_nat i := u <| InputUnit.virtualChannels :=
                 <[Z.to_nat invc := VirtualChannel.set_outvc c v]> (InputUnit.virtualChannels u) |>]>
                 (m_input_unit r) |>).
Proof.
  intros Hs Hr [Hu Hv] Hou Hok Hfree. destruct (get_vnet_spec r invc Hs Hr) as [Hvn Hvr].
  unfold vc_allocate. rewrite Hvn. cbn [mbind res_bind]. rewrite (getOutputUnit_vget _ _ _ Hou).
  cbn [mbind res_bind]. apply safe_bind.
  eapply safe_mono; [by apply (select_free_vc_spec (m_virtual_networks r))|].
  intros [c ou'] (Hc & _ & o & Ho & ->).
  rewrite setOutputUnit_eq by (by eapply vget_bound). cbn [mbind res_bind].
  apply safe_bind, safe_assert.
  { destruct Ho as [Hpos _]. by destruct (Z.eqb_spec c (-1)); [lia|]. }
  rewrite (getInputUnit_vget _ _ u) by done. cbn [mbind res_bind].
  unfold InputUnit.grant_outvc, InputUnit.on_vc. rewrite (valter_eq _ _ _ _ Hv). cbn [mbind res_bind].
  rewrite setInputUnit_eq by (by eapply vget_bound). cbn [mbind res_bind]. simpl.
  exists o. by split_and!.
Qed.

(** The transfer of the winning flit. *)
Lemma send_winner_spec r i invc outport c u v ou o f l b :
  in_vc r i invc u v -> VirtualChannel.flits v = f :: l -> tail_last v ->
  vget (m_output_unit r) outport = Ok ou -> out_vc ou c o -> 0 < OutVcState.m_credit_count o ->
  vget (CrossbarSwitch.switchBuffers (crossbarSwitch r)) i = Ok b ->
  send_winner now outport i invc c r = Ok (r
    <| m_output_unit := <[Z.to_nat outport := out_after c (outvc_after false o) ou]> (m_output_unit r) |>
    <| crossbarSwitch := (crossbarSwitch r) <| CrossbarSwitch.switchBuffers :=
         <[Z.to_nat i := flitBuffer.insert (sent_flit outport c f) b]>
           (CrossbarSwitch.switchBuffers (crossbarSwitch r)) |> |>
    <| m_input_unit := <[Z.to_nat i := unit_after invc f (vc_after (VirtualChannel.m_output_vc v) f l v) u]>
         (m_input_unit r) |>
    <| events := events r ++ [CreditLinkEvent i (clockEdge now 1 r)] |>).
Proof.
  intros [Hu Hv] Hfl Htl Hou Ho Hcr Hb. unfold send_winner.
  rewrite (getInputUnit_vget _ _ _ Hu). cbn [mbind res_bind].
  unfold InputUnit.getTopFlit, VirtualChannel.getTopFlit, flitBuffer.getTopFlit.
  unfold VirtualChannel.flits in Hfl. rewrite Hv. cbn [mbind res_bind]. rewrite Hfl. cbn [mbind res_bind].
  set (v1 := v <| VirtualChannel.inputBuffer := _ |>).
  pose proof (vget_bound _ _ _ Hv) as Hvb. pose proof (vget_bound _ _ _ Hu) as Hub.
  unfold vset at 1. rewrite decide_True by done. cbn [mbind res_bind].
  rewrite (getOutputUnit_vget _ _ _ Hou). cbn [mbind res_bind].
  unfold OutputUnit.decrement_credit, valterM. rewrite (proj1 (out_vc_vget _ _ _) Ho). cbn [mbind res_bind].
  rewrite OutVcState.decrement_credit_safe by done. cbn [mbind res_bind].
  unfold vset at 1. rewrite decide_True by (by apply out_vc_vget, vget_bound in Ho). cbn [mbind res_bind].
  rewrite setOutputUnit_eq by (by eapply vget_bound). cbn [mbind res_bind].
  unfold grant_switch, CrossbarSwitch.update_sw_winner. simpl crossbarSwitch.
  rewrite (valter_eq _ _ _ _ Hb). cbn [mbind res_bind].
  cbn [fst snd] in *.
  change (flit.is_tail (flit.advance_stage ST_ now (flit.set_vc c (flit.set_outport outport f))))
    with (flit.is_tail f).
  assert (Heta : v <| VirtualChannel.m_output_vc := VirtualChannel.m_output_vc v |>
    <| VirtualChannel.inputBuffer ::= (fun b => b <| flitBuffer.m_buffer := l |>) |> = v1)
    by (by destruct v).
  unfold unit_after, vc_after. rewrite Heta. destruct (flit.is_tail f) eqn:Htail.
  - pose proof (Htl f [] l Hfl Htail) as ->.
    unfold InputUnit.isReady, InputUnit.with_vc, InputUnit.set_vc_idle, InputUnit.on_vc.
    simpl InputUnit.virtualChannels. rewrite vget_insert_eq by done. cbn [mbind res_bind].
    change (VirtualChannel.isReady now v1) with false. cbn [negb assert mbind res_bind].
    rewrite (valter_eq _ _ _ v1) by (by apply vget_insert_eq). cbn [mbind res_bind].
    rewrite setInputUnit_eq by done. cbn [mbind res_bind]. rewrite list_insert_insert_eq. done.
  - cbn [mbind res_bind]. rewrite setInputUnit_eq by done. done.
Qed.

(** The bookkeeping at the end of a grant. *)
Lemma grant_finish r r2 i invc outport (Q : Router.t -> Prop) :
  shape_ok net r -> 0 <= i < zlength (m_input_unit r) -> 0 <= outport < zlength (m_output_unit r) ->
  switchAllocator r2 = switchAllocator r ->
  Q (r2 <| switchAllocator := (switchAllocator r)
      <| SwitchAllocator.m_output_arbiter_activity ::= Z.succ |>
      <| SwitchAllocator.m_port_requests ::= <[Z.to_nat i := -1]> |>
      <| SwitchAllocator.m_round_robin_inport ::=
           <[Z.to_nat outport := next_index i (zlength (m_input_unit r))]> |>
      <| SwitchAllocator.m_round_robin_invc ::= <[Z.to_nat i := next_index invc (m_num_vcs r)]> |> |>) ->
  safe (reqs ← vset (SwitchAllocator.m_port_requests (switchAllocator r2)) i (-1);
        rr_in ← vset (SwitchAllocator.m_round_robin_inport (switchAllocator r2)) outport
                  (next_index i (SwitchAllocator.m_num_inports (switchAllocator r2)));
        rr_vc ← vset (SwitchAllocator.m_round_robin_invc (switchAllocator r2)) i
                  (next_index invc (SwitchAllocator.m_num_vcs (switchAllocator r2)));
        Ok (r2 <| switchAllocator := (switchAllocator r2)
          <| SwitchAllocator.m_output_arbiter_activity ::= Z.succ |>
          <| SwitchAllocator.m_port_requests := reqs |>
          <| SwitchAllocator.m_round_robin_inport := rr_in |>
          <| SwitchAllocator.m_round_robin_invc := rr_vc |> |>)) Q.
Proof.
  intros Hs Hi Ho -> HQ. destruct Hs.
  apply safe_bind, safe_vset; [lia|]. apply safe_bind, safe_vset; [lia|].
  apply safe_bind, safe_vset; [lia|]. simpl. rewrite ok_sa_in0, ok_sa_vcs0. exact HQ.
Qed.

(** A grant for a channel that can send. *)
Lemma grant_spec r i invc outport :
  shape_ok net r -> inputs_ok now r -> outputs_ok r ->
  0 <= i < zlength (m_input_unit r) -> 0 <= invc < m_num_vcs r ->
  vget (SwitchAllocator.m_vc_winners (switchAllocator r)) i = Ok invc ->
  can_send now r i invc outport ->
  safe (grant now outport i r) (fun r' => granted r i invc outport r' /\
    switchAllocator r' = (switchAllocator r)
      <| SwitchAllocator.m_output_arbiter_activity ::= Z.succ |>
      <| SwitchAllocator.m_port_requests ::= <[Z.to_nat i := -1]> |>
      <| SwitchAllocator.m_round_robin_inport ::=
           <[Z.to_nat outport := next_index i (zlength (m_input_unit r))]> |>
      <| SwitchAllocator.m_round_robin_invc ::= <[Z.to_nat i := next_index invc (m_num_vcs r)]> |>).
Proof.
  intros Hs Hin Hout Hi Hr Hwin Hc. pose proof (can_send_port _ _ _ _ Hc) as Hop.
  destruct (can_send_outvc r i invc outport Hs Hout Hr Hc) as
    (u & v & ou & f & l & Hvc & Hhr & Hport & Hou & Hok & Hsend).
  pose proof Hvc as [Hu Hv].
  destruct (Forall_vget _ _ _ _ Hin Hu) as [_ Hall].
  destruct (Forall_vget _ _ _ _ Hall Hv) as (_ & Htl & _).
  pose proof Hs as Hs'. destruct Hs'.
  destruct (vget_range (CrossbarSwitch.switchBuffers (crossbarSwitch r)) i ltac:(lia)) as [b Hb].
  unfold grant. rewrite Hwin. cbn [mbind res_bind]. rewrite (getInputUnit_vget _ _ _ Hu).
  cbn [mbind res_bind]. unfold InputUnit.get_outvc, InputUnit.with_vc, VirtualChannel.get_outvc.
  rewrite Hv. cbn [mbind res_bind]. case_decide as Hfresh.
  - rewrite Hfresh. cbn [Z.eqb Pos.eqb]. apply safe_bind.
    eapply safe_mono; [by apply (vc_allocate_spec r i invc outport u v ou)|].
    intros [c r1] (o & Hfc & Ho & ->).
    assert (Hcr : 0 < OutVcState.m_credit_count o).
    { destruct Hfc as (_ & o' & Ho' & Hid). rewrite <- (out_vc_fun _ _ _ _ Ho Ho') in Hid.
      destruct (proj2 (proj2 Hok) c o Ho) as [_ Hcr]. apply Hcr.
      unfold OutVcState.isInState in Hid. by apply andb_true_iff in Hid as [Hid%bool_decide_eq_true _]. }
    assert (Hcb : 0 <= c < zlength (OutputUnit.outVcState ou))
      by (apply out_vc_vget in Ho; by eapply vget_bound).
    set (u1 := u <| InputUnit.virtualChannels := _ |>).
    set (ou1 := out_after c _ ou).
    rewrite (send_winner_spec _ i invc outport c u1 (VirtualChannel.set_outvc c v) ou1
      (OutVcState.setState ACTIVE_ now o) f l b).
    + cbn [mbind res_bind]. apply (grant_finish r); [done..|]. split; [|done].
      refine (mk_granted _ _ _ _ _ u v ou o f l b c Hvc Hhr Hport Hou Ho Hcr _ Hb _ _ _ _).
      * rewrite decide_True by done. done.
      * simpl. rewrite list_insert_insert_eq. f_equal. unfold unit_after. f_equal.
        unfold u1, update. cbn. rewrite list_insert_insert_eq. done.
      * simpl. rewrite list_insert_insert_eq. f_equal. unfold out_after, ou1, out_after, update. cbn.
        rewrite list_insert_insert_eq. rewrite bool_decide_eq_true_2 by done. done.
      * done.
      * by split.
    + split; simpl; [by apply vget_insert_eq|apply vget_insert_eq]. by eapply vget_bound.
    + apply Hhr.
    + exact Htl.
    + simpl. by apply vget_insert_eq.
    + apply out_vc_vget. simpl. by apply vget_insert_eq.
    + done.
    + done.
  - rewrite (proj2 (Z.eqb_neq _ _)) by done. cbn [mbind res_bind].
    destruct Hsend as (o & Ho & Hcr). set (c := VirtualChannel.m_output_vc v) in *.
    rewrite (send_winner_spec r i invc outport c u v ou o f l b) by (try done; apply Hhr).
    cbn [mbind res_bind]. apply (grant_finish r); [done..|]. split; [|done].
    refine (mk_granted _ _ _ _ _ u v ou o f l b c Hvc Hhr Hport Hou Ho Hcr _ Hb _ _ _ _).
    + by rewrite decide_False.
    + done.
    + rewrite bool_decide_eq_false_2 by done. done.
    + done.
    + by split.
Qed.

End lemmas.
