(* ===== verification/SwitchSafe.v ===== *)
(** * SwitchSafe: the switch allocator as a whole

    Grants preserve well-formedness; stage two grants every requested
    output port once; the theorems on [SwitchAllocator::wakeup]. *)

From S2P Require Import Prelude NetDest CommonTypes Flit Channels RoutingUnit Clock Link Units.
From S2P Require Import Router SwitchAlloc UnitLemmas SwitchProofs.
Import Router.

Section safe.
Context (net : NetParams) (now : Z).

(** ** A grant keeps the router well-formed *)

Lemma vget_insert {A} (l : list A) i j x y : 0 <= i < zlength l ->
  vget (<[Z.to_nat i := x]> l) j = Ok y -> (j = i /\ y = x) \/ (j <> i /\ vget l j = Ok y).
Proof.
  intros Hi Hy. destruct (decide (j = i)) as [->|Hne].
  - rewrite vget_insert_eq in Hy by done. left. by injection Hy as <-.
  - right. split; [done|]. pose proof (vget_bound _ _ _ Hy) as [Hj _].
    by rewrite vget_insert_ne in Hy by lia.
Qed.

Lemma isInState_ACTIVE o : OutVcState.isInState ACTIVE_ now o = true ->
  OutVcState.m_vc_state o = ACTIVE_ /\ OutVcState.m_time o <= now.
Proof.
  unfold OutVcState.isInState. intros [Hs%bool_decide_eq_true Ht]%andb_true_iff. split; [done|lia].
Qed.

Lemma ACTIVE_isInState o : OutVcState.m_vc_state o = ACTIVE_ -> OutVcState.m_time o <= now ->
  OutVcState.isInState ACTIVE_ now o = true.
Proof.
  intros Hs Ht. unfold OutVcState.isInState. rewrite (bool_decide_eq_true_2 _ Hs).
  by rewrite (proj2 (Z.leb_le _ _)).
Qed.

Section one_grant.
Context (r r' : Router.t) (i invc outport : Z) (Hin : inputs_ok now r) (Hout : outputs_ok r).
Context (Hg : granted now r i invc outport r').

(** The output channel of a winner is active afterwards, and other
    channels keep their state. *)
Lemma outvc_after_active u v ou o f l c :
  in_vc r i invc u v -> head_ready now v f l -> vget (m_output_unit r) (VirtualChannel.m_output_port v) = Ok ou ->
  out_vc ou c o ->
  (if decide (VirtualChannel.m_output_vc v = -1) then True else c = VirtualChannel.m_output_vc v) ->
  OutVcState.isInState ACTIVE_ now
    (outvc_after now (bool_decide (VirtualChannel.m_output_vc v = -1)) o) = true.
Proof.
  intros [Hu Hv] [Hfl _] Hou Ho Hc. destruct (Forall_vget _ _ _ _ Hin Hu) as [_ Hall].
  destruct (Forall_vget _ _ _ _ Hall Hv) as (Hact & _ & Hpo).
  destruct (Hact ltac:(by rewrite Hfl)) as [Hst _].
  unfold outvc_after. case_decide as Hd.
  - rewrite bool_decide_eq_true_2 by done. apply ACTIVE_isInState; simpl; [done|lia].
  - rewrite bool_decide_eq_false_2 by done. destruct (Hpo Hst) as (ou' & Hou' & [?|(o' & Ho' & Ha)]); [done|].
    rewrite Hou in Hou'. injection Hou' as <-. subst c. rewrite (out_vc_fun _ _ _ _ Ho Ho').
    apply isInState_ACTIVE in Ha as [? ?]. by apply ACTIVE_isInState.
Qed.

Lemma granted_out_vc p ou vc o : vget (m_output_unit r) p = Ok ou -> out_vc ou vc o ->
  OutVcState.isInState ACTIVE_ now o = true ->
  exists ou' o', vget (m_output_unit r') p = Ok ou' /\ out_vc ou' vc o' /\
    OutVcState.isInState ACTIVE_ now o' = true.
Proof.
  destruct Hg as [u v gou go f l b c Hvc Hh Hp Ho Hgo Hcr Hal Hb Hins Houts Hbufs Hrest].
  intros Hou Hvo Ha. rewrite Houts. pose proof (vget_bound _ _ _ Ho) as Hob.
  destruct (decide (p = outport)) as [->|Hne].
  2:{ exists ou, o. rewrite vget_insert_ne by (apply vget_bound in Hou; lia). done. }
  rewrite Hou in Ho. injection Ho as <-. rewrite vget_insert_eq by done.
  pose proof (proj1 (out_vc_vget _ _ _) Hgo) as Hgv. pose proof (vget_bound _ _ _ Hgv) as Hcb.
  eexists (out_after c _ ou). setoid_rewrite out_vc_vget. simpl OutputUnit.outVcState.
  destruct (decide (vc = c)) as [->|Hvc'].
  - eexists. split; [done|]. rewrite vget_insert_eq by done. split; [done|].
    eapply outvc_after_active; try done; [by rewrite Hp|]. by case_decide.
  - exists o. split; [done|]. destruct Hvo as [? Hvo].
    rewrite vget_insert_ne by lia. split; [by apply vget_Ok|done].
Qed.

Lemma granted_outputs_ok : outputs_ok r'.
Proof.
  destruct Hg as [u v ou o f l b c Hvc Hh Hp Ho Hgo Hcr Hal Hb Hins Houts Hbufs Hrest].
  unfold outputs_ok. rewrite Houts, (sc_vnets _ _ Hrest).
  apply Forall_insert; [done|]. destruct (Forall_vget _ _ _ _ Hout Ho) as (Hn & Hlen & Hwf).
  split; [done|]. split; [simpl; by rewrite zlength_insert|].
  intros vc o' Hvo. pose proof (proj1 (out_vc_vget _ _ _) Hgo) as Hgv.
  pose proof (vget_bound _ _ _ Hgv) as Hcb.
  apply out_vc_vget in Hvo. simpl in Hvo. apply vget_insert in Hvo as [[-> ->]|[Hne Hvo]]; [|by apply (Hwf vc), out_vc_vget|done].
  destruct (Hwf c o Hgo) as [[Hw1 Hw2] _].
  assert (Ha : OutVcState.isInState ACTIVE_ now
    (outvc_after now (bool_decide (VirtualChannel.m_output_vc v = -1)) o) = true).
  { eapply outvc_after_active; try done; [by rewrite Hp|]. by case_decide. }
  apply isInState_ACTIVE in Ha as [Ha _]. split; [|congruence].
  unfold outvc_after, OutVcState.wf. destruct (bool_decide _); simpl; lia.
Qed.

(** The winner's channel: one flit less, idle behind a tail. *)
Lemma vc_after_ok outs v f l c :
  vc_ok now (m_output_unit r) v -> head_ready now v f l ->
  (exists ou o, vget outs (VirtualChannel.m_output_port v) = Ok ou /\ out_vc ou c o /\
     OutVcState.isInState ACTIVE_ now o = true) ->
  vc_ok now outs (vc_after now c f l v).
Proof.
  intros (Hact & Htl & _) [Hfl _] (ou & o & Hou & Ho & Ha).
  destruct (Hact ltac:(by rewrite Hfl)) as [Hst Ht].
  unfold vc_after. destruct (flit.is_tail f) eqn:Htail.
  - pose proof (Htl f [] l Hfl Htail) as ->. split_and!.
    + by intros Hne.
    + intros g l1 l2 Heq. by destruct l1.
    + by intros Hs.
  - split_and!.
    + by intros _.
    + intros g l1 l2 Heq Hg'. apply (Htl g (f :: l1) l2); [|done]. rewrite Hfl. simpl. f_equal. exact Heq.
    + intros _. exists ou. split; [done|]. right. exists o. done.
Qed.

Lemma vc_ok_outs v : vc_ok now (m_output_unit r) v -> vc_ok now (m_output_unit r') v.
Proof.
  intros (Hact & Htl & Hpo). split_and!; [done..|]. intros Hst.
  destruct (Hpo Hst) as (ou & Hou & Hvo). destruct Hvo as [Hvo|(o & Ho & Ha)].
  - destruct Hg as [u gv gou go f l b c Hvc Hh Hp Hgou Hgo Hcr Hal Hb Hins Houts Hbufs Hrest].
    rewrite Houts. destruct (vget_range (<[Z.to_nat outport:=out_after c
      (outvc_after now (bool_decide (VirtualChannel.m_output_vc gv = -1)) go) gou]> (m_output_unit r))
      (VirtualChannel.m_output_port v)) as [ou' Hou'].
    { rewrite zlength_insert. by eapply vget_bound. }
    exists ou'. auto.
  - destruct (granted_out_vc _ _ _ _ Hou Ho Ha) as (ou' & o' & ? & ? & ?). exists ou'. eauto.
Qed.

Lemma granted_inputs_ok : inputs_ok now r'.
Proof.
  pose proof granted_out_vc as Hkeep. pose proof vc_ok_outs as Hother.
  destruct Hg as [u v ou o f l b c Hvc Hh Hp Ho Hgo Hcr Hal Hb Hins Houts Hbufs Hrest].
  unfold inputs_ok. rewrite Hins, (sc_vcs _ _ Hrest).
  assert (Hall : Forall (fun u => zlength (InputUnit.virtualChannels u) = m_num_vcs r /\
    Forall (vc_ok now (m_output_unit r')) (InputUnit.virtualChannels u)) (m_input_unit r)).
  { eapply list.Forall_impl; [exact Hin|]. intros x [Hlen Hx]. split; [done|].
    eapply list.Forall_impl; [exact Hx|]. apply Hother. }
  apply Forall_insert; [done|]. destruct Hvc as [Hu Hv].
  destruct (Forall_vget _ _ _ _ Hall Hu) as [Hlen Hvcs]. split; [simpl; by rewrite zlength_insert|].
  simpl. apply Forall_insert; [done|]. destruct (Forall_vget _ _ _ _ Hin Hu) as [_ Hall0].
  apply (vc_after_ok _ v); [apply (Forall_vget _ _ _ _ Hall0 Hv)|done|].
  rewrite Hp, Houts. pose proof (vget_bound _ _ _ Ho). rewrite vget_insert_eq by done.
  eexists (out_after c _ ou). setoid_rewrite out_vc_vget. simpl OutputUnit.outVcState.
  pose proof (proj1 (out_vc_vget _ _ _) Hgo) as Hgv. pose proof (vget_bound _ _ _ Hgv).
  eexists. split; [done|]. rewrite vget_insert_eq by done. split; [done|].
  eapply outvc_after_active; try done; [by rewrite Hp|]. by case_decide.
Qed.

End one_grant.
(** The allocator's part of a grant. *)
Definition granted_sa (i invc outport : Z) (r : Router.t) : SwitchAllocator.t :=
  (switchAllocator r)
    <| SwitchAllocator.m_output_arbiter_activity ::= Z.succ |>
    <| SwitchAllocator.m_port_requests ::= <[Z.to_nat i := -1]> |>
    <| SwitchAllocator.m_round_robin_inport ::=
         <[Z.to_nat outport := next_index i (zlength (m_input_unit r))]> |>
    <| SwitchAllocator.m_round_robin_invc ::= <[Z.to_nat i := next_index invc (m_num_vcs r)]> |>.

Lemma next_index_range x n : 0 <= x < n -> 0 <= next_index x n < n.
Proof. intros Hx. unfold next_index. destruct (Z.leb_spec n (x + 1)); lia. Qed.

Lemma granted_shape_ok r i invc outport r' :
  shape_ok net r -> granted now r i invc outport r' ->
  switchAllocator r' = granted_sa i invc outport r -> shape_ok net r'.
Proof.
  intros Hs [u v ou o f l b c Hvc Hh Hp Ho Hgo Hcr Hal Hb Hins Houts Hbufs Hrest] Hsa.
  pose proof (sc_vnets _ _ Hrest) as E1. pose proof (sc_per _ _ Hrest) as E2.
  pose proof (sc_vcs _ _ Hrest) as E3. unfold granted_sa in Hsa. destruct Hs.
  split; rewrite ?E1, ?E2, ?E3, ?Hsa, ?Hins, ?Houts, ?Hbufs; simpl; by rewrite ?zlength_insert.
Qed.

Lemma granted_pointers_ok r i invc outport r' :
  pointers_ok r -> 0 <= i < zlength (m_input_unit r) -> 0 <= invc < m_num_vcs r ->
  granted now r i invc outport r' ->
  switchAllocator r' = granted_sa i invc outport r -> pointers_ok r'.
Proof.
  intros [Hp1 Hp2] Hi Hr [u v ou o f l b c Hvc Hh Hp Ho Hgo Hcr Hal Hb Hins Houts Hbufs Hrest] Hsa.
  unfold pointers_ok. rewrite Hsa, (sc_vcs _ _ Hrest), Hins, zlength_insert. simpl.
  split; (apply Forall_insert; [done|]).
  - by apply next_index_range.
  - pose proof (next_index_range i _ Hi). lia.
Qed.

(** The round over the input ports for one output port. *)
Definition serves (r : Router.t) (outport : Z) (r' : Router.t) : Prop :=
  (r' = r /\ forall i, vget (SwitchAllocator.m_port_requests (switchAllocator r)) i <> Ok outport) \/
  (exists i invc, vget (SwitchAllocator.m_port_requests (switchAllocator r)) i = Ok outport /\
     vget (SwitchAllocator.m_vc_winners (switchAllocator r)) i = Ok invc /\
     0 <= invc < m_num_vcs r /\ can_send now r i invc outport /\
     granted now r i invc outport r' /\ switchAllocator r' = granted_sa i invc outport r).

Lemma arbitrate_outport_spec r outport :
  shape_ok net r -> pointers_ok r -> inputs_ok now r -> outputs_ok r ->
  0 <= outport < zlength (m_output_unit r) ->
  (forall i, vget (SwitchAllocator.m_port_requests (switchAllocator r)) i = Ok outport ->
     exists invc, vget (SwitchAllocator.m_vc_winners (switchAllocator r)) i = Ok invc /\
       0 <= invc < m_num_vcs r /\ can_send now r i invc outport) ->
  safe (arbitrate_outport now outport r) (serves r outport).
Proof.
  intros Hs [_ Hp] Hin Hout Hop Hreq. pose proof Hs as Hs'. destruct Hs'.
  unfold arbitrate_outport. set (n := zlength (m_input_unit r)) in *.
  destruct (vget_range (SwitchAllocator.m_round_robin_inport (switchAllocator r)) outport ltac:(lia)) as [a Ha].
  rewrite Ha. cbn [mbind res_bind]. pose proof (Forall_vget _ _ _ _ Hp Ha) as Hra. cbv beta in Hra.
  rewrite ok_sa_in. fold n. apply safe_bind.
  apply (safe_for_break (fun k '(i, r') => r' = r /\ (0 < n -> i = (a + k) mod n) /\
    forall k', 0 <= k' < k ->
      vget (SwitchAllocator.m_port_requests (switchAllocator r)) ((a + k') mod n) <> Ok outport)).
  - split_and!; [done| |intros; lia]. intros Hn. rewrite Z.add_0_r, Z.mod_small; lia.
  - intros k [i r'] Hk (-> & Hi & Hno). specialize (Hi ltac:(lia)).
    assert (Hr : 0 <= i < n) by (subst i; apply Z.mod_pos_bound; lia).
    apply safe_bind. destruct (vget_range (SwitchAllocator.m_port_requests (switchAllocator r)) i
      ltac:(lia)) as [req Hq]. rewrite Hq. simpl safe.
    destruct (Z.eqb_spec req outport) as [->|Hne].
    + destruct (Hreq i Hq) as (invc & Hw & Hrv & Hc). apply safe_bind.
      eapply safe_mono; [by apply (grant_spec net now r i invc outport)|].
      intros r2 [Hg Hsa]. simpl. right. exists i, invc. split_and!; [done|done|lia|lia|done|done|exact Hsa].
    + simpl. rewrite ok_sa_in. fold n. split_and!; [done| |].
      * intros _. unfold next_index. rewrite wrap_index by done. subst i.
        rewrite Zplus_mod_idemp_l. f_equal. lia.
      * intros k' Hk'. destruct (decide (k' = k)) as [->|]; [|apply Hno; lia].
        subst i. congruence.
  - intros [i r'] (-> & _ & Hno). simpl. left. split; [done|]. intros i' Hi'.
    pose proof (vget_bound _ _ _ Hi') as Hb. rewrite ok_reqs in Hb. fold n in Hb.
    destruct (wrap_covers a n i' ltac:(lia) Hb) as (k & Hk & ->). eapply (Hno k); [lia|done].
Qed.

(** ** Stage two as a whole *)

(** The head flit of channel [invc] of port [i] went to the crossbar,
    bound for a channel of [outport], and the channel gave it up. *)
Definition moved (r r' : Router.t) (i invc outport : Z) : Prop :=
  exists u v f l b outvc, in_vc r i invc u v /\ head_ready now v f l /\
    VirtualChannel.m_output_port v = outport /\
    vget (CrossbarSwitch.switchBuffers (crossbarSwitch r)) i = Ok b /\
    vget (CrossbarSwitch.switchBuffers (crossbarSwitch r')) i =
      Ok (flitBuffer.insert (sent_flit now outport outvc f) b) /\
    vget (m_input_unit r') i = Ok (unit_after now invc f (vc_after now outvc f l v) u).

Definition same_inport (r r' : Router.t) (i : Z) : Prop :=
  vget (m_input_unit r') i = vget (m_input_unit r) i /\
  vget (CrossbarSwitch.switchBuffers (crossbarSwitch r')) i =
    vget (CrossbarSwitch.switchBuffers (crossbarSwitch r)) i.

Definition inports (gs : list (Z * Z * Z)) : list Z := (fun g => g.1.1) <$> gs.
Definition outports (gs : list (Z * Z * Z)) : list Z := snd <$> gs.

Lemma can_send_same r r' i invc o :
  vget (m_input_unit r') i = vget (m_input_unit r) i ->
  vget (m_output_unit r') o = vget (m_output_unit r) o -> m_vc_per_vnet r' = m_vc_per_vnet r ->
  can_send now r i invc o -> can_send now r' i invc o.
Proof.
  intros Hi Ho Hp (u & v & ou & f & l & [Hu Hv] & Hh & Hport & Hou & Hc).
  exists u, v, ou, f, l. rewrite Hp. split_and!; try done; [|congruence]. split; congruence.
Qed.

(** One grant on a well-formed router. *)
Definition grant_step (r r' : Router.t) : Prop :=
  shape_ok net r /\ inputs_ok now r /\ outputs_ok r /\ exists i invc o, granted now r i invc o r'.

(** After the output ports below [j]: the grants [gs] and their effect. *)
Record served (r0 r : Router.t) (j : Z) (gs : list (Z * Z * Z)) : Prop := {
  sv_shape : shape_ok net r;
  sv_pointers : pointers_ok r;
  sv_inputs : inputs_ok now r;
  sv_outputs : outputs_ok r;
  sv_trace : rtc grant_step r0 r;
  sv_config : same_config r0 r;
  sv_winners : SwitchAllocator.m_vc_winners (switchAllocator r) =
               SwitchAllocator.m_vc_winners (switchAllocator r0);
  sv_below : forall o, o ∈ outports gs -> o < j;
  sv_in_once : NoDup (inports gs);
  sv_out_once : NoDup (outports gs);
  sv_asked : forall i invc o, (i, invc, o) ∈ gs ->
    vget (SwitchAllocator.m_port_requests (switchAllocator r0)) i = Ok o;
  sv_moved : forall i invc o, (i, invc, o) ∈ gs -> can_send now r0 i invc o /\ moved r0 r i invc o;
  sv_done : forall i, i ∈ inports gs ->
    vget (SwitchAllocator.m_port_requests (switchAllocator r)) i = Ok (-1);
  sv_others : forall i, i ∉ inports gs -> same_inport r0 r i /\
    vget (SwitchAllocator.m_port_requests (switchAllocator r)) i =
    vget (SwitchAllocator.m_port_requests (switchAllocator r0)) i;
  sv_outs : forall o, o ∉ outports gs -> vget (m_output_unit r) o = vget (m_output_unit r0) o;
  sv_all : forall i o, 0 <= o < j ->
    vget (SwitchAllocator.m_port_requests (switchAllocator r0)) i = Ok o -> o ∈ outports gs;
}.

Lemma same_config_refl r : same_config r r.
Proof. by split. Qed.
Lemma same_config_trans r1 r2 r3 : same_config r1 r2 -> same_config r2 r3 -> same_config r1 r3.
Proof. intros [] []. split; congruence. Qed.

Lemma served_start r : shape_ok net r -> pointers_ok r -> inputs_ok now r -> outputs_ok r ->
  served r r 0 [].
Proof.
  intros. split; try done; try (intros; set_solver); try constructor; try apply same_config_refl.
  intros i o Ho. lia.
Qed.

Lemma inports_snoc gs g : inports (gs ++ [g]) = inports gs ++ [g.1.1].
Proof. unfold inports, outports. by rewrite fmap_app. Qed.
Lemma outports_snoc gs g : outports (gs ++ [g]) = outports gs ++ [g.2].
Proof. unfold inports, outports. by rewrite fmap_app. Qed.

Lemma NoDup_snoc {A} (l : list A) x : NoDup l -> x ∉ l -> NoDup (l ++ [x]).
Proof.
  intros Hl Hx. apply list.NoDup_app. split_and!; [done| |apply NoDup_singleton].
  intros y Hy ->%list_elem_of_singleton. done.
Qed.

(** The new grant. *)
Lemma served_grant r0 r j gs i invc r' :
  served r0 r j gs -> 0 <= j -> j ∉ outports gs ->
  (forall i, vget (SwitchAllocator.m_port_requests (switchAllocator r)) i = Ok j -> i ∉ inports gs) ->
  vget (SwitchAllocator.m_port_requests (switchAllocator r)) i = Ok j -> 0 <= invc < m_num_vcs r ->
  can_send now r i invc j -> granted now r i invc j r' ->
  switchAllocator r' = granted_sa i invc j r -> served r0 r' (j + 1) (gs ++ [(i, invc, j)]).
Proof.
  intros Hsv Hj Hjn Hfree Hq Hr Hc Hg Hsa. pose proof Hg as Hg'.
  specialize (Hfree i Hq). destruct (sv_others _ _ _ _ Hsv i Hfree) as [[Hui Hbi] Hqi].
  destruct Hg' as [u v ou o f l b c Hvc Hh Hp Ho Hgo Hcr Hal Hb Hins Houts Hbufs Hrest].
  assert (Hi : 0 <= i < zlength (m_input_unit r)) by (destruct Hvc as [Hu _]; by eapply vget_bound).
  pose proof (sv_shape _ _ _ _ Hsv) as Hs.
  assert (Hother : forall i', i' <> i -> same_inport r r' i' /\
    vget (SwitchAllocator.m_port_requests (switchAllocator r')) i' =
    vget (SwitchAllocator.m_port_requests (switchAllocator r)) i').
  { intros i' Hne. unfold same_inport. rewrite Hins, Hbufs, Hsa. simpl. by rewrite !vget_insert_ne by lia. }
  destruct Hsv. split.
  - by eapply granted_shape_ok.
  - by eapply granted_pointers_ok.
  - by eapply granted_inputs_ok.
  - by eapply granted_outputs_ok.
  - eapply rtc_r; [exact sv_trace0|]. split_and!; [done..|by exists i, invc, j].
  - by eapply same_config_trans.
  - rewrite Hsa. done.
  - intros o'. rewrite outports_snoc, elem_of_app, list_elem_of_singleton. intros [Ho'%sv_below0| ->]; simpl; lia.
  - rewrite inports_snoc. by apply NoDup_snoc.
  - rewrite outports_snoc. by apply NoDup_snoc.
  - intros i' invc' o'. rewrite elem_of_app, list_elem_of_singleton. intros [Hin|[= -> -> ->]]; [eauto|].
    congruence.
  - intros i' invc' o'. rewrite elem_of_app, list_elem_of_singleton. intros [Hin|[= -> -> ->]].
    + destruct (sv_moved0 _ _ _ Hin) as [Hc' (u' & v' & f' & l' & b' & c' & ? & ? & ? & ? & Hb' & Hu')].
      split; [done|]. exists u', v', f', l', b', c'. split_and!; try done.
      all: destruct (Hother i') as [[E1 E2] _]; [|congruence].
      all: intros Heq; apply Hfree; rewrite <- Heq; apply list_elem_of_fmap;
        by exists (i', invc', o').
    + split.
      * apply (can_send_same r); [by rewrite Hui|by rewrite sv_outs0|by rewrite (sc_per _ _ sv_config0)|done].
      * exists u, v, f, l, b, c. destruct Hvc as [Hu Hv]. split_and!; try done; try congruence.
        -- split; congruence.
        -- rewrite Hbufs. apply vget_insert_eq. rewrite (ok_xbar _ _ Hs). done.
        -- rewrite Hins. by apply vget_insert_eq.
  - intros i'. rewrite inports_snoc, elem_of_app, list_elem_of_singleton. simpl. intros Hin.
    destruct (decide (i' = i)) as [->|Hne].
    + rewrite Hsa. simpl. apply vget_insert_eq. by rewrite (ok_reqs _ _ Hs).
    + destruct (Hother i' Hne) as [_ ->]. apply sv_done0. tauto.
  - intros i'. rewrite inports_snoc, elem_of_app, list_elem_of_singleton. simpl. intros Hin.
    destruct (Hother i') as [[E1 E2] E3]; [tauto|]. destruct (sv_others0 i') as [[E4 E5] E6]; [tauto|].
    unfold same_inport. rewrite E1, E2, E3. done.
  - intros o'. rewrite outports_snoc, elem_of_app, list_elem_of_singleton. simpl. intros Hno.
    rewrite Houts, vget_insert_ne by (try lia; tauto). apply sv_outs0. tauto.
  - intros i' o' Ho' Hq'. rewrite outports_snoc, elem_of_app, list_elem_of_singleton. simpl.
    destruct (decide (o' = j)); [by right|left]. apply (sv_all0 i'); [lia|done].
Qed.

(** One more output port. *)
Lemma served_step r0 r j gs :
  0 <= j < zlength (m_output_unit r0) ->
  (forall i o, vget (SwitchAllocator.m_port_requests (switchAllocator r0)) i = Ok o -> o <> -1 ->
    exists invc, vget (SwitchAllocator.m_vc_winners (switchAllocator r0)) i = Ok invc /\
      0 <= invc < m_num_vcs r0 /\ can_send now r0 i invc o) ->
  served r0 r j gs ->
  safe (arbitrate_outport now j r) (fun r' => exists gs', served r0 r' (j + 1) gs').
Proof.
  intros Hj Hreq Hsv.
  assert (Hjn : j ∉ outports gs) by (intros Hin%(sv_below _ _ _ _ Hsv); lia).
  assert (Hjr : 0 <= j < zlength (m_output_unit r)).
  { destruct (vget_range _ _ Hj) as [ou Hou].
    rewrite <- (sv_outs _ _ _ _ Hsv j Hjn) in Hou. by eapply vget_bound. }
  assert (Hfree : forall i, vget (SwitchAllocator.m_port_requests (switchAllocator r)) i = Ok j ->
    i ∉ inports gs).
  { intros i Hi Hin. rewrite (sv_done _ _ _ _ Hsv i Hin) in Hi. injection Hi. lia. }
  eapply safe_mono; [apply (arbitrate_outport_spec r j); try apply Hsv; [done|]|].
  { intros i Hi. specialize (Hfree i Hi). destruct (sv_others _ _ _ _ Hsv i Hfree) as [[Hu _] Hq].
    rewrite Hq in Hi. destruct (Hreq i j Hi) as (invc & Hw & Hr & Hc); [lia|].
    exists invc. rewrite (sv_winners _ _ _ _ Hsv), (sc_vcs _ _ (sv_config _ _ _ _ Hsv)).
    split_and!; [done|lia|lia|]. apply (can_send_same r0); try done; [by apply Hsv|apply (sv_config _ _ _ _ Hsv)]. }
  intros r' [[-> Hnone]|(i & invc & Hq & Hw & Hr & Hc & Hg & Hsa)].
  - exists gs. destruct Hsv. split; try done.
    + intros o Ho. specialize (sv_below0 o Ho). lia.
    + intros i o Ho Hq. destruct (decide (o = j)) as [->|]; [|apply (sv_all0 i); [lia|done]].
      exfalso. destruct (decide (i ∈ inports gs)) as [Hin|Hout].
      * unfold inports in Hin. apply list_elem_of_fmap in Hin as ([[i' invc] o'] & -> & Hin). simpl in *.
        rewrite (sv_asked0 _ _ _ Hin) in Hq. injection Hq as ->. apply Hjn.
        apply list_elem_of_fmap. by exists (i', invc, j).
      * destruct (sv_others0 i Hout) as [_ Hq']. rewrite <- Hq' in Hq. by eapply Hnone.
  - exists (gs ++ [(i, invc, j)]). apply (served_grant r0 r j gs i invc r'); try done; lia.
Qed.

Lemma arbitrate_outports_spec r0 :
  shape_ok net r0 -> pointers_ok r0 -> inputs_ok now r0 -> outputs_ok r0 ->
  (forall i o, vget (SwitchAllocator.m_port_requests (switchAllocator r0)) i = Ok o -> o <> -1 ->
    exists invc, vget (SwitchAllocator.m_vc_winners (switchAllocator r0)) i = Ok invc /\
      0 <= invc < m_num_vcs r0 /\ can_send now r0 i invc o) ->
  safe (arbitrate_outports now r0) (fun r => exists gs, served r0 r (zlength (m_output_unit r0)) gs).
Proof.
  intros Hs Hp Hin Hout Hreq. unfold arbitrate_outports. rewrite (ok_sa_out _ _ Hs).
  pose proof (zlength_nonneg (m_output_unit r0)).
  eapply safe_mono; [apply (safe_for (fun j r => exists gs, served r0 r j gs))|].
  - exists []. by apply served_start.
  - intros j r Hj [gs Hsv]. apply (served_step r0 r j gs); [lia|done..].
  - intros r. by rewrite Z.add_0_l, Z2Nat.id.
Qed.

(** ** Rescheduling *)

Lemma any_ready_safe nextCycle r : now <= nextCycle -> shape_ok net r -> inputs_ok now r ->
  safe (any_ready nextCycle r) (fun _ => True).
Proof.
  intros Hle Hs Hin. unfold any_ready. rewrite (ok_sa_in _ _ Hs), (ok_sa_vcs _ _ Hs).
  apply (safe_for_break (fun _ _ => True) (fun _ => True)); [done| |done]. intros i b Hi _.
  destruct (vget_range (m_input_unit r) i) as [u Hu]; [lia|]. apply safe_bind.
  apply (safe_mono _ (fun _ => True)); [|by intros b' _; destruct b'].
  apply (safe_for_break (fun _ _ => True) (fun _ => True)); [done| |done]. intros k b' Hk _.
  rewrite (getInputUnit_vget _ _ _ Hu). cbn [mbind res_bind]. unfold InputUnit.need_stage.
  destruct (Forall_vget _ _ _ _ Hin Hu) as [Hlen Hall].
  destruct (vget_range (InputUnit.virtualChannels u) k) as [v Hv]; [lia|]. rewrite Hv.
  cbn [mbind res_bind]. destruct (Forall_vget _ _ _ _ Hall Hv) as [Hact _].
  destruct (need_stage_spec nextCycle v) as (b2 & -> & _); [by eapply vc_active_later|].
  by destruct b2.
Qed.

(** Scheduling the router keeps its consumer consistent. *)
Lemma schedule_wakeup_safe r n : clock_ok now r -> 0 <= n ->
  safe (schedule_wakeup now n r) (fun r' => exists c, r' = r <| consumer := c |> /\ clock_ok now r').
Proof.
  intros (Hclk & Hedge & Hwk) Hn. unfold schedule_wakeup. apply safe_bind.
  eapply safe_mono; [by apply (Consumer.scheduleEvent_safe (em r) now (consumer r) n)|].
  intros c Hc%Consumer.wf_waking. simpl. by exists c.
Qed.

Lemma check_for_wakeup_safe r : router_ok net now r ->
  safe (check_for_wakeup now r) (fun r' => exists c, r' = r <| consumer := c |> /\ clock_ok now r').
Proof.
  intros (Hs & Hp & Hin & Hout & Hclk). unfold check_for_wakeup.
  assert (Hsame : exists c, r = r <| consumer := c |> /\ clock_ok now r)
    by (exists (consumer r); by destruct r).
  case_match; [done|]. apply safe_bind. eapply safe_mono.
  { apply any_ready_safe; [|done..]. destruct Hclk as ((Hper & _) & Hedge & _).
    unfold clockEdge. rewrite Clocked.clockEdge_plus, Hedge. lia. }
  intros b _. destruct b; [|done]. apply schedule_wakeup_safe; [done|lia].
Qed.

(** ** The allocator *)

Definition idle_requests (r : Router.t) : Prop :=
  forall i, 0 <= i < zlength (m_input_unit r) ->
    vget (SwitchAllocator.m_port_requests (switchAllocator r)) i = Ok (-1).

(** The transfers [gs] (input port, channel, output port) of one cycle. *)
Record transfers (r r' : Router.t) (gs : list (Z * Z * Z)) : Prop := {
  tr_in_once : NoDup (inports gs);
  tr_out_once : NoDup (outports gs);
  tr_moved : forall i invc o, (i, invc, o) ∈ gs -> can_send now r i invc o /\ moved r r' i invc o;
  tr_others : forall i, i ∉ inports gs -> same_inport r r' i;
  tr_outs : forall o, o ∉ outports gs -> vget (m_output_unit r') o = vget (m_output_unit r) o;
}.

Definition work_conserving (r : Router.t) (gs : list (Z * Z * Z)) : Prop :=
  forall i invc o, 0 <= i < zlength (m_input_unit r) -> 0 <= invc < m_num_vcs r ->
    isVNetOrdered net (invc / m_vc_per_vnet r) = Ok false -> can_send now r i invc o ->
    exists invc' o', can_send now r i invc' o' /\ o' ∈ outports gs.

Lemma vget_replicate {A} n (x : A) i : 0 <= i < Z.of_nat n -> vget (replicate n x) i = Ok x.
Proof. intros Hi. apply vget_Ok. split; [lia|]. apply lookup_replicate_2. lia. Qed.

(** Only grants change the units and the crossbar. *)
Definition sa_trace (r r' : Router.t) : Prop := exists s1 s2 c r2,
  rtc grant_step (r <| switchAllocator := s1 |>) r2 /\
  r' = r2 <| switchAllocator := s2 |> <| consumer := c |>.

Lemma sa_wakeup_spec r : router_ok net now r -> idle_requests r ->
  safe (sa_wakeup net now r) (fun r' => router_ok net now r' /\ idle_requests r' /\ sa_trace r r' /\
    exists gs, transfers r r' gs /\ work_conserving r gs).
Proof.
  intros (Hs & Hp & Hin & Hout & Hclk) Hidle. unfold sa_wakeup. apply safe_bind.
  eapply safe_mono; [by apply (arbitrate_inports_spec net now)|].
  intros r1 Hreq. pose proof (req_units _ _ _ _ _ Hreq) as [s1 ->].
  set (r1 := r <| switchAllocator := s1 |>) in *. apply safe_bind.
  eapply safe_mono; [apply (arbitrate_outports_spec r1); try apply Hreq; done|].
  intros r2 [gs Hsv]. destruct Hsv.
  assert (Hok2 : router_ok net now (r2 <| switchAllocator ::= SwitchAllocator.clear_request_vector |>)).
  { split_and!; try done.
    - destruct sv_shape0. split; try done. simpl. unfold zlength in *. by rewrite length_replicate.
    - unfold clock_ok. simpl. by rewrite (sc_em _ _ sv_config0), (sc_consumer _ _ sv_config0). }
  eapply safe_mono; [by apply check_for_wakeup_safe|]. intros r3 (c & -> & Hclk3).
  destruct Hok2 as (Hs2 & Hp2 & Hin2 & Hout2 & _). split_and!; try done.
  { destruct Hs2. by split. }
  - intros i Hi. simpl. apply vget_replicate. simpl in Hi.
    rewrite <- (ok_reqs _ _ sv_shape0) in Hi. exact Hi.
  - by exists s1, (SwitchAllocator.clear_request_vector (switchAllocator r2)), c, r2.
  - exists gs. split; [split; try done|].
    + intros i Hi. apply (sv_others0 i Hi).
    + intros i invc o Hi Hr Hord Hc.
      destruct (req_all _ _ _ _ _ Hreq i invc o Hi Hr Hord Hc) as (o' & Hq & Hne).
      destruct (req_ok _ _ _ _ _ Hreq i o' Hq Hne) as (invc' & _ & _ & Hc'). exists invc', o'.
      split; [done|]. apply (sv_all0 i o'); [|done]. by apply (can_send_port now r) in Hc'.
Qed.

End safe.
