(* ===== verification/FlitBag.v ===== *)
(** * FlitBag: the flits inside a router

    The bag of flits a router holds, in its input channels, its crossbar
    and its output queues.  A flit is known by its message and its number
    in the packet, which no router changes. *)

From stdpp Require Import gmultiset.
From S2P Require Import Prelude NetDest CommonTypes Flit Channels RoutingUnit Clock Link Units.
From S2P Require Import Router SwitchAlloc UnitLemmas SwitchProofs SwitchSafe.
Import Router.

Definition ident (f : flit.t) : Z * Z := (flit.m_msg_ptr f, flit.m_id f).
Definition bag_of (l : list flit.t) : gmultiset (Z * Z) := list_to_set_disj (ident <$> l).

Lemma bag_nil X : X ⊎ bag_of [] = X.
Proof. unfold bag_of. simpl. by rewrite right_id_L by apply _. Qed.

Definition unit_flits (u : InputUnit.t) : list flit.t :=
  InputUnit.virtualChannels u ≫= VirtualChannel.flits.
Definition queue_flits (ou : OutputUnit.t) : list flit.t :=
  flitBuffer.m_buffer (OutputUnit.outBuffer ou).

Definition router_bag (r : Router.t) : gmultiset (Z * Z) :=
  bag_of (m_input_unit r ≫= unit_flits) ⊎
  bag_of (CrossbarSwitch.switchBuffers (crossbarSwitch r) ≫= flitBuffer.m_buffer) ⊎
  bag_of (m_output_unit r ≫= queue_flits).

Lemma bag_of_app l1 l2 : bag_of (l1 ++ l2) = bag_of l1 ⊎ bag_of l2.
Proof. unfold bag_of. by rewrite fmap_app, list_to_set_disj_app. Qed.
Lemma bag_of_cons f l : bag_of (f :: l) = {[+ ident f +]} ⊎ bag_of l.
Proof. done. Qed.

(** Replacing one part of a collection. *)
Lemma bag_of_insert {A} (g : A -> list flit.t) l (i : nat) x y : l !! i = Some x ->
  bag_of (<[i := y]> l ≫= g) ⊎ bag_of (g x) = bag_of (l ≫= g) ⊎ bag_of (g y).
Proof.
  revert i. induction l as [|z l IH]; intros i Hi; [done|]. destruct i as [|i]; simpl in *.
  - injection Hi as ->. rewrite !bag_of_app. multiset_solver.
  - rewrite !bag_of_app. specialize (IH i Hi).
    change (list_bind A flit.t g) with (mbind (M := list) g). rewrite <- !(assoc_L (⊎)), IH. done.
Qed.

Lemma bag_of_insert_same {A} (g : A -> list flit.t) l (i : nat) x y : l !! i = Some x ->
  bag_of (g y) = bag_of (g x) -> bag_of (<[i := y]> l ≫= g) = bag_of (l ≫= g).
Proof. intros Hi He. pose proof (bag_of_insert g l i x y Hi). multiset_solver. Qed.

Lemma bag_move (I I' U U' L S S' B O X : gmultiset (Z * Z)) :
  I' ⊎ U = I ⊎ U' -> S' ⊎ B = S ⊎ (B ⊎ X) -> U' ⊎ (X ⊎ L) = U ⊎ L -> I' ⊎ S' ⊎ O = I ⊎ S ⊎ O.
Proof. multiset_solver. Qed.

(** A grant moves one flit from its channel to the crossbar. *)
Lemma grant_step_bag net now r r' : grant_step net now r r' -> router_bag r' = router_bag r.
Proof.
  intros (Hs & Hin & Hout & i & invc & outport & Hg).
  destruct Hg as [u v ou o f l b c [Hu Hv] [Hfl _] Hp Ho Hgo Hcr Hal Hb Hins Houts Hbufs _].
  apply vget_Ok in Hu as [_ Hu], Hv as [_ Hv], Ho as [_ Ho], Hb as [_ Hb].
  unfold router_bag. rewrite Hins, Houts, Hbufs.
  rewrite (bag_of_insert_same queue_flits _ _ ou) by done.
  pose proof (bag_of_insert unit_flits _ _ _ (unit_after now invc f (vc_after now c f l v) u) Hu) as H1.
  pose proof (bag_of_insert flitBuffer.m_buffer _ _ _ (flitBuffer.insert (sent_flit now outport c f) b) Hb) as H2.
  pose proof (bag_of_insert VirtualChannel.flits _ _ _ (vc_after now c f l v) Hv) as H3.
  change (flitBuffer.m_buffer (flitBuffer.insert (sent_flit now outport c f) b)) with
    (flitBuffer.m_buffer b ++ [sent_flit now outport c f]) in H2. rewrite bag_of_app in H2.
  change (unit_flits (unit_after now invc f (vc_after now c f l v) u)) with
    (<[Z.to_nat invc := vc_after now c f l v]> (InputUnit.virtualChannels u) ≫= VirtualChannel.flits) in H1.
  assert (Hva : VirtualChannel.flits (vc_after now c f l v) = l)
    by (unfold vc_after; destruct (flit.is_tail f); done).
  rewrite Hva, Hfl in H3. change (f :: l) with ([f] ++ l) in H3. rewrite bag_of_app in H3.
  exact (bag_move _ _ _ _ _ _ _ _ _ _ H1 H2 H3).
Qed.

Lemma sa_trace_bag net now r r' : sa_trace net now r r' -> router_bag r' = router_bag r.
Proof.
  intros (s1 & s2 & c & r2 & Hrtc & ->). change (router_bag r2 = router_bag (r <| switchAllocator := s1 |>)).
  induction Hrtc as [|x y z Hxy _ IH]; [done|]. rewrite IH. by eapply grant_step_bag.
Qed.
