(* ===== verification/Crossbar.v ===== *)
(** * Crossbar: switch traversal

    After allocation every switch buffer holds at most one flit, which
    traverses the crossbar in the same cycle; the crossbar is empty again
    and each flit is in the queue of its output port. *)

From stdpp Require Import gmultiset.
From S2P Require Import Prelude NetDest CommonTypes Flit Channels RoutingUnit Clock Link Units.
From S2P Require Import Router SwitchAlloc UnitLemmas SwitchProofs SwitchSafe FlitBag.
Import Router.

Section crossbar.
Context (net : NetParams) (now : Z).

(** ** Output units that differ in their queue only *)

Record same_vcs (ou ou' : OutputUnit.t) : Prop := {
  sq_id : OutputUnit.m_id ou' = OutputUnit.m_id ou;
  sq_dir : OutputUnit.m_direction ou' = OutputUnit.m_direction ou;
  sq_per : OutputUnit.m_vc_per_vnet ou' = OutputUnit.m_vc_per_vnet ou;
  sq_link : OutputUnit.m_credit_link ou' = OutputUnit.m_credit_link ou;
  sq_vcs : OutputUnit.outVcState ou' = OutputUnit.outVcState ou;
  sq_cons : OutputUnit.consumer ou' = OutputUnit.consumer ou;
}.

(** All that allocation reads of an output unit. *)
Definition same_state (ou ou' : OutputUnit.t) : Prop :=
  OutputUnit.m_vc_per_vnet ou' = OutputUnit.m_vc_per_vnet ou /\ OutputUnit.outVcState ou' = OutputUnit.outVcState ou.

Lemma same_vcs_state ou ou' : same_vcs ou ou' -> same_state ou ou'.
Proof. by intros []. Qed.

Lemma same_state_out_vc ou ou' vc o : same_state ou ou' -> out_vc ou' vc o <-> out_vc ou vc o.
Proof. intros [_ H]. unfold out_vc. by rewrite H. Qed.

Lemma same_state_out_ok n ou ou' : same_state ou ou' -> out_ok n ou -> out_ok n ou'.
Proof.
  intros Hs (Hp & Hl & Hv). pose proof Hs as [Hper Hvcs]. unfold out_ok. rewrite Hper, Hvcs.
  split_and!; [done..|]. intros vc o Ho. apply (Hv vc). by rewrite (same_state_out_vc ou ou') in Ho.
Qed.

Lemma same_vcs_refl l : Forall2 same_vcs l l.
Proof. by apply Forall2_same_length_lookup_2; [|intros i x y Hx Hy; simplify_eq]. Qed.

Lemma same_state_vc_ok outs outs' v : Forall2 same_state outs outs' -> vc_ok now outs v -> vc_ok now outs' v.
Proof.
  intros Hall (Ha & Ht & Hp). split_and!; [done..|]. intros Hst.
  destruct (Hp Hst) as (ou & Hou & Hc). apply vget_Ok in Hou as [Hpos Hou].
  destruct (Forall2_lookup_l _ _ _ _ _ Hall Hou) as (ou' & Hou' & Hs).
  exists ou'. split; [by apply vget_Ok|]. destruct Hc as [?|(o & Ho & Hact)]; [by left|right].
  exists o. by rewrite (same_state_out_vc ou ou').
Qed.

(** ** One buffer *)

(** The flit of a buffer is ready to traverse. *)
Definition ready_buffer (n : Z) (b : flitBuffer.t) : Prop :=
  match flitBuffer.m_buffer b with
  | [] => True
  | [f] => flit.m_time f <= now /\ flit.is_stage ST_ now f = true /\
      exists o, flit.m_outport f = Some o /\ 0 <= o < n
  | _ => False
  end.

Definition arrived (f : flit.t) (r : Router.t) : flit.t :=
  flit.set_time (clockEdge now 1 r) (flit.advance_stage LT_ (clockEdge now 1 r) f).

Lemma traverse_empty i r b : vget (CrossbarSwitch.switchBuffers (crossbarSwitch r)) i = Ok b ->
  flitBuffer.m_buffer b = [] -> traverse now i r = Ok r.
Proof.
  intros Hb He. unfold traverse. rewrite Hb. cbn [mbind res_bind]. unfold flitBuffer.isReady. by rewrite He.
Qed.

Lemma traverse_flit i r b f o ou :
  vget (CrossbarSwitch.switchBuffers (crossbarSwitch r)) i = Ok b -> flitBuffer.m_buffer b = [f] ->
  flit.m_time f <= now -> flit.is_stage ST_ now f = true -> flit.m_outport f = Some o ->
  vget (m_output_unit r) o = Ok ou ->
  exists c', traverse now i r = Ok (r
      <| m_output_unit := <[Z.to_nat o := OutputUnit.insert_flit (arrived f r) ou]> (m_output_unit r) |>
      <| events := events r ++ [OutLinkEvent o (clockEdge now 1 r)] |>
      <| crossbarSwitch := c' |>) /\
    CrossbarSwitch.switchBuffers c' = <[Z.to_nat i := b <| flitBuffer.m_buffer := [] |>]>
      (CrossbarSwitch.switchBuffers (crossbarSwitch r)).
Proof.
  intros Hb Hf Ht Hst Ho Hou. unfold traverse. rewrite Hb. cbn [mbind res_bind].
  unfold flitBuffer.isReady, flitBuffer.peekTopFlit, flitBuffer.getTopFlit. rewrite Hf.
  rewrite (proj2 (Z.leb_le _ _) Ht). cbn [mbind res_bind]. rewrite Hst.
  unfold flit.get_outport. rewrite Ho. cbn [mbind res_bind].
  rewrite (getOutputUnit_vget _ _ _ Hou). cbn [mbind res_bind].
  rewrite setOutputUnit_eq by (by eapply vget_bound). cbn [mbind res_bind].
  unfold vset. simpl crossbarSwitch. rewrite decide_True by (by eapply vget_bound).
  cbn [mbind res_bind]. eexists. split; [done|]. done.
Qed.

(** ** All buffers *)

Abbreviation bufs r := (CrossbarSwitch.switchBuffers (crossbarSwitch r)).

(** The flit is the newest of its output queue, for the next cycle. *)
Definition delivered (r0 r : Router.t) (f : flit.t) (o : Z) : Prop :=
  exists ou, vget (m_output_unit r) o = Ok ou /\ arrived f r0 ∈ queue_flits ou.

Record crossing (r0 r : Router.t) (j : Z) : Prop := {
  cr_in : m_input_unit r = m_input_unit r0;
  cr_sa : switchAllocator r = switchAllocator r0;
  cr_config : same_config r0 r;
  cr_outs : Forall2 same_vcs (m_output_unit r0) (m_output_unit r);
  cr_len : length (bufs r) = length (bufs r0);
  cr_below : forall i b, 0 <= i < j -> vget (bufs r) i = Ok b -> flitBuffer.m_buffer b = [];
  cr_above : forall i, j <= i -> vget (bufs r) i = vget (bufs r0) i;
  cr_bag : router_bag r = router_bag r0;
  cr_deliv : forall i b f o, 0 <= i < j -> vget (bufs r0) i = Ok b -> flitBuffer.m_buffer b = [f] ->
    flit.m_outport f = Some o -> delivered r0 r f o;
}.

Lemma crossing_start r : crossing r r 0.
Proof. split; try done; try apply same_vcs_refl; intros; lia. Qed.

Lemma same_vcs_insert outs outs' o ou f : Forall2 same_vcs outs outs' -> vget outs' o = Ok ou ->
  Forall2 same_vcs outs (<[Z.to_nat o := OutputUnit.insert_flit f ou]> outs').
Proof.
  intros Hall [_ Hou]%vget_Ok.
  destruct (Forall2_lookup_r _ _ _ _ _ Hall Hou) as (ou0 & Hou0 & Hs).
  rewrite <- (list_insert_id outs (Z.to_nat o) ou0) by done.
  apply Forall2_insert; [done|]. destruct Hs. by split.
Qed.

(** A queue that grew keeps what was delivered to it. *)
Lemma delivered_insert r0 r f o f' o' ou : vget (m_output_unit r) o' = Ok ou -> delivered r0 r f o ->
  delivered r0 (r <| m_output_unit := <[Z.to_nat o' := OutputUnit.insert_flit f' ou]> (m_output_unit r) |>) f o.
Proof.
  intros Ho' (ou1 & Ho & Hin). unfold delivered. simpl.
  destruct (decide (o = o')) as [->|Hne].
  - rewrite Ho in Ho'. injection Ho' as ->. eexists.
    split; [apply vget_insert_eq; by eapply vget_bound|]. unfold queue_flits in *. simpl.
    apply elem_of_app. by left.
  - exists ou1. split; [|done]. pose proof (vget_bound _ _ _ Ho). pose proof (vget_bound _ _ _ Ho').
    by rewrite vget_insert_ne by lia.
Qed.

Lemma clockEdge_config r0 r n : same_config r0 r -> clockEdge now n r = clockEdge now n r0.
Proof. intros []. unfold clockEdge. by rewrite sc_em. Qed.

Lemma bag_cross (I S S' B O O' Q X : gmultiset (Z * Z)) :
  S' ⊎ X = S ⊎ B -> B = ∅ -> O' ⊎ Q = O ⊎ (Q ⊎ X) -> I ⊎ S' ⊎ O' = I ⊎ S ⊎ O.
Proof. intros H1 -> H2. multiset_solver. Qed.

Lemma crossing_flit r0 r j b f o ou c' r' :
  crossing r0 r j -> 0 <= j -> vget (bufs r) j = Ok b -> flitBuffer.m_buffer b = [f] ->
  flit.m_outport f = Some o -> vget (m_output_unit r) o = Ok ou ->
  r' = r <| m_output_unit := <[Z.to_nat o := OutputUnit.insert_flit (arrived f r) ou]> (m_output_unit r) |>
      <| events := events r ++ [OutLinkEvent o (clockEdge now 1 r)] |> <| crossbarSwitch := c' |> ->
  CrossbarSwitch.switchBuffers c' = <[Z.to_nat j := b <| flitBuffer.m_buffer := [] |>]> (bufs r) ->
  crossing r0 r' (j + 1).
Proof.
  intros Hc Hj Hb Hf Ho Hou -> Hbufs. pose proof Hc as Hc'. destruct Hc'.
  pose proof (vget_bound _ _ _ Hb) as Hjr. pose proof (vget_bound _ _ _ Hou) as Hor.
  split; try done; simpl; rewrite ?Hbufs.
  - by destruct cr_config0.
  - by apply same_vcs_insert.
  - by rewrite length_insert.
  - intros i b' Hi Hb'. apply vget_insert in Hb' as [[-> ->]|[Hne Hb']]; [done| |done].
    apply (cr_below0 i b'); [lia|done].
  - intros i Hi. rewrite vget_insert_ne by lia. apply cr_above0. lia.
  - rewrite <- cr_bag0. unfold router_bag. simpl. rewrite Hbufs.
    apply vget_Ok in Hb as [_ Hb]. apply vget_Ok in Hou as [_ Hou].
    pose proof (bag_of_insert flitBuffer.m_buffer _ _ _ (b <| flitBuffer.m_buffer := [] |>) Hb) as H1.
    pose proof (bag_of_insert queue_flits _ _ _ (OutputUnit.insert_flit (arrived f r) ou) Hou) as H2.
    rewrite Hf in H1.
    change (queue_flits (OutputUnit.insert_flit (arrived f r) ou)) with (queue_flits ou ++ [arrived f r]) in H2.
    rewrite bag_of_app in H2. exact (bag_cross _ _ _ _ _ _ _ _ H1 eq_refl H2).
  - intros i b' f' o' Hi Hb' Hf' Ho'. destruct (decide (i = j)) as [->|Hne].
    + rewrite cr_above0 in Hb by lia. rewrite Hb in Hb'. injection Hb' as <-.
      rewrite Hf in Hf'. injection Hf' as <-. rewrite Ho in Ho'. injection Ho' as <-.
      eexists. simpl. split; [by apply vget_insert_eq|]. unfold queue_flits. simpl.
      apply elem_of_app. right. apply list_elem_of_singleton. unfold arrived. by rewrite (clockEdge_config r0 r).
    + apply (delivered_insert r0 r f' o' (arrived f r) o ou Hou). eapply cr_deliv0; try done. lia.
Qed.

Lemma xbar_wakeup_spec r0 : Forall (ready_buffer (zlength (m_output_unit r0))) (bufs r0) ->
  safe (xbar_wakeup now r0) (fun r => crossing r0 r (zlength (bufs r0))).
Proof.
  intros Hall. unfold xbar_wakeup.
  eapply safe_mono; [apply (safe_for (fun j r => crossing r0 r j) (length (bufs r0)) 0)|].
  - apply crossing_start.
  - intros j r Hj Hc. destruct (vget_range (bufs r0) j) as [b Hb]; [unfold zlength; lia|].
    assert (Hb' : vget (bufs r) j = Ok b) by (rewrite (cr_above _ _ _ Hc); [done|lia]).
    pose proof (Forall_vget _ _ _ _ Hall Hb) as Hrd. unfold ready_buffer in Hrd.
    destruct (flitBuffer.m_buffer b) as [|f [|]] eqn:Hf; [| |done].
    + rewrite (traverse_empty j r b) by done. simpl. destruct Hc. split; try done.
      * intros i b' Hi Hi'. destruct (decide (i = j)) as [->|]; [congruence|]. apply (cr_below0 i); [lia|done].
      * intros i Hi. apply cr_above0. lia.
      * intros i b' f o Hi Hi' Hf' Ho. destruct (decide (i = j)) as [->|]; [congruence|].
        apply (cr_deliv0 i b'); [lia|done..].
    + destruct Hrd as (Ht & Hst & o & Ho & Hor).
      destruct (vget_range (m_output_unit r) o) as [ou Hou].
      { unfold zlength in *. rewrite <- (list.Forall2_length _ _ _ (cr_outs _ _ _ Hc)). done. }
      destruct (traverse_flit j r b f o ou) as (c' & -> & Hbufs); try done. simpl.
      eapply crossing_flit; try done. lia.
  - intros r. by rewrite Z.add_0_l.
Qed.

End crossbar.
