(* ===== verification/InputProofs.v ===== *)
(** * InputProofs: arriving flits

    An arriving flit that respects the state of its channel is buffered there;
    the router stays well-formed and no flit is lost. *)

From Stdlib Require Import Sorted.
From stdpp Require Import gmultiset.
From S2P Require Import Prelude NetDest CommonTypes Flit Channels Detector DetectorProofs RoutingUnit Clock Link Units.
From S2P Require Import Router SwitchAlloc InputWakeup UnitLemmas SwitchProofs SwitchSafe FlitBag.
Import Router.

(** The flit a unit takes from its link in this cycle. *)
Definition waiting (now : Z) (u : InputUnit.t) : list flit.t :=
  match flitBuffer.m_buffer (NetworkLink.linkBuffer (InputUnit.m_in_link u)) with
  | f :: _ => if flit.m_time f <=? now then [f] else []
  | [] => []
  end.

(** The flits on its link. *)
Definition link_flits (u : InputUnit.t) : list flit.t :=
  flitBuffer.m_buffer (NetworkLink.linkBuffer (InputUnit.m_in_link u)).

(** Sizes of an input unit, and released channels have no output channel. *)
Record unit_ok (r : Router.t) (u : InputUnit.t) : Prop := {
  un_per : InputUnit.m_vc_per_vnet u = m_vc_per_vnet r;
  un_wr : zlength (InputUnit.m_num_buffer_writes u) = m_virtual_networks r;
  un_rd : zlength (InputUnit.m_num_buffer_reads u) = m_virtual_networks r;
  un_idle : Forall (fun v => VirtualChannel.get_state v = IDLE_ ->
              VirtualChannel.m_output_vc v = -1) (InputUnit.virtualChannels u);
}.

Definition units_ok (r : Router.t) : Prop := 1 <= m_latency r /\ Forall (unit_ok r) (m_input_unit r).

(** The fields an arriving flit leaves alone. *)
Record same_frame (r r' : Router.t) : Prop := {
  sf_id : m_id r' = m_id r;
  sf_latency : m_latency r' = m_latency r;
  sf_vnets : m_virtual_networks r' = m_virtual_networks r;
  sf_per : m_vc_per_vnet r' = m_vc_per_vnet r;
  sf_vcs : m_num_vcs r' = m_num_vcs r;
  sf_width : m_bit_width r' = m_bit_width r;
  sf_sa : switchAllocator r' = switchAllocator r;
  sf_xbar : crossbarSwitch r' = crossbarSwitch r;
  sf_out : m_output_unit r' = m_output_unit r;
  sf_em : em r' = em r;
}.

Lemma same_frame_refl r : same_frame r r.
Proof. by split. Qed.
Lemma same_frame_trans r1 r2 r3 : same_frame r1 r2 -> same_frame r2 r3 -> same_frame r1 r3.
Proof. intros [] []. split; congruence. Qed.

(** What the router needs of the configured routing algorithm: for the
    packets [Rt] it can be asked about, in the states [J], it returns one
    of the [n] output ports, stays in [J], and can be asked again.  A packet
    has a source router (-1 marks unused entries of the windows).  Tagging it, counting its hops and drawing other random numbers make no
    difference to that. *)
Class Routes (net : NetParams) (now id n : Z) (Rt : RouteInfo -> Z -> PortDirection -> Prop)
    (J : RState -> Prop) : Prop := {
  routes : forall rt i d s, Rt rt i d -> J s ->
    safe (outportCompute net id now rt i d s) (fun '(o, rt', s') => 0 <= o < n /\ J s' /\ Rt rt' i d /\
      src_router rt' = src_router rt /\ dest_router rt' = dest_router rt);
  routes_tagged : forall rt i d, Rt rt i d -> Rt (setTag 1 rt) i d;
  routes_hop : forall rt i d, Rt rt i d -> Rt (rt <| hops_traversed := hops_traversed rt + 1 |>) i d;
  routes_draw : forall s g, J s -> J (s <| rng := g |>);
  routes_src : forall rt i d, Rt rt i d -> src_router rt <> -1;
}.

(** The windows of injected packets, one per output port. *)
Definition buf_ok (n : Z) (r : Router.t) : Prop :=
  outportRecord.wf (outBuf r) /\ zlength (outportRecord.record (outBuf r)) = n.

(** A history of packets received until now. *)
Definition hist_inv (now : Z) (h : HistoryRecord.t) : Prop :=
  hist_ok h /\ StronglySorted Z.le (cycleRecieve <$> HistoryRecord.patternTable h) /\
  Forall (fun e => 0 <= cycleRecieve e <= getCycle now) (HistoryRecord.patternTable h).

Section arrival.
Context (net : NetParams) (now : Z) (id n : Z).
Context (Rt : RouteInfo -> Z -> PortDirection -> Prop) (J : RState -> Prop) (Hroute : Routes net now id n Rt J).

Definition rstate (r : Router.t) (g : Globals) : RState := mkRState (routingUnit r) (g_cnt g) (g_rng g).

(** The protocol of a link: a head flit comes to an idle channel and can be
    routed, others follow their head, and nothing follows a tail. *)
Definition acceptable (u : InputUnit.t) (f : flit.t) : Prop :=
  exists v, vget (InputUnit.virtualChannels u) (flit.m_vc f) = Ok v /\
    if flit.is_head f
    then VirtualChannel.get_state v = IDLE_ /\
      Rt (flit.m_route f) (InputUnit.m_id u) (InputUnit.m_direction u)
    else VirtualChannel.get_state v = ACTIVE_ /\ (VirtualChannel.m_vc_state v).2 <= now /\
      Forall (fun f' => flit.is_tail f' = false) (VirtualChannel.flits v).

Definition arrival_ok (r : Router.t) (u : InputUnit.t) : Prop :=
  forall f, waiting now u = [f] -> flit.m_width f = m_bit_width r /\ acceptable u f.

(** The packet in channel [invc] of input port [i] has channel [c] of output
    port [o]. *)
Definition claims (r : Router.t) (i invc o c : Z) : Prop := exists u v,
  in_vc r i invc u v /\ VirtualChannel.get_state v = ACTIVE_ /\
  VirtualChannel.m_output_port v = o /\ VirtualChannel.m_output_vc v = c.

(** No output channel has two packets. *)
Definition exclusive (r : Router.t) : Prop := forall i1 vc1 i2 vc2 o c, c <> -1 ->
  claims r i1 vc1 o c -> claims r i2 vc2 o c -> i1 = i2 /\ vc1 = vc2.

(** No packet has an output channel it did not have in [r]. *)
Definition no_new_claims (r r' : Router.t) : Prop := forall i invc o c, c <> -1 ->
  claims r' i invc o c -> claims r i invc o c.

Lemma no_new_claims_trans r1 r2 r3 : no_new_claims r1 r2 -> no_new_claims r2 r3 -> no_new_claims r1 r3.
Proof. intros H12 H23 i invc o c Hc H. by apply H12, H23. Qed.
Lemma no_new_claims_exclusive r r' : no_new_claims r r' -> exclusive r -> exclusive r'.
Proof. intros Hn Hx i1 vc1 i2 vc2 o c Hc H1 H2. eapply Hx; [done|by apply Hn..]. Qed.

(** A channel that has no output channel, or the one it had. *)
Definition same_claim (v v' : VirtualChannel.t) : Prop := VirtualChannel.m_output_vc v' = -1 \/
  (VirtualChannel.get_state v = ACTIVE_ /\ VirtualChannel.m_output_port v' = VirtualChannel.m_output_port v /\
   VirtualChannel.m_output_vc v' = VirtualChannel.m_output_vc v).

(** ** Opening the channel *)

(** The channel a flit is appended to. *)
Definition can_take (outs : list OutputUnit.t) (v : VirtualChannel.t) : Prop :=
  VirtualChannel.get_state v = ACTIVE_ /\ (VirtualChannel.m_vc_state v).2 <= now /\
  Forall (fun f' => flit.is_tail f' = false) (VirtualChannel.flits v) /\ vc_out_ok now outs v.

Lemma can_take_vc_ok outs v f : can_take outs v -> vc_ok now outs (VirtualChannel.insertFlit f v).
Proof.
  intros (Hst & Ht & Hno & Ho). split_and!; [done| |done].
  intros f' l1 l2 Hf Htail. change (VirtualChannel.flits v ++ [f] = l1 ++ f' :: l2) in Hf.
  destruct l2 as [|y l2 _] using rev_ind; [done|]. exfalso.
  rewrite app_comm_cons, app_assoc in Hf. apply app_inj_tail in Hf as [Hf _]. rewrite Hf in Hno.
  apply Forall_app in Hno as [_ [Hno _]%list.Forall_cons]. congruence.
Qed.

(** Units and channels by index. *)
Definition unit_at (r : Router.t) (i : Z) (u : InputUnit.t) : Prop := vget (m_input_unit r) i = Ok u.

(** The route computation as the unit calls it. *)
Lemma route_compute_spec rt i d r g : m_id r = id -> Rt rt i d -> J (rstate r g) ->
  safe (route_compute net now rt i d r g) (fun '(o, rt', (r', g')) => 0 <= o < n /\ Rt rt' i d /\
    src_router rt' = src_router rt /\ dest_router rt' = dest_router rt /\
    exists ru, r' = r <| routingUnit := ru |> /\ J (rstate r' g')).
Proof.
  intros Hid HRt HJ. unfold route_compute. rewrite Hid. apply safe_bind.
  eapply safe_mono; [by apply routes|]. intros [[o rt'] s'] (Ho & HJ' & HRt' & Hs & Hd).
  split_and!; [lia..|done|done|done|]. exists (ru s'). split; [done|]. by destruct s'.
Qed.

(** Noting an injected packet. *)
Lemma record_spec (rec : bool) o s d r : buf_ok n r -> 0 <= o < n ->
  safe (if rec then outportRecord.update o s d (outBuf r) else Ok (outBuf r)) (fun ob =>
    outportRecord.wf ob /\ zlength (outportRecord.record ob) = n).
Proof.
  intros [Hwf Hl] Ho. destruct rec; [|done].
  pose proof (outportRecord.update_safe o s d (outBuf r) Hwf ltac:(lia)) as Hs.
  destruct (outportRecord.update o s d (outBuf r)) as [ob|] eqn:E; [|done].
  destruct (outportRecord.update_wf _ _ _ _ _ Hwf E) as [? Hl']. simpl. by rewrite Hl'.
Qed.

Lemma open_channel_spec rec i vc f r g u v : unit_at r i u -> m_id r = id -> zlength (m_output_unit r) = n ->
  buf_ok n r ->
  vget (InputUnit.virtualChannels u) vc = Ok v -> VirtualChannel.m_output_vc v = -1 \/ flit.is_head f = false ->
  vc_ok now (m_output_unit r) v -> J (rstate r g) ->
  (if flit.is_head f
   then VirtualChannel.get_state v = IDLE_ /\ Rt (flit.m_route f) (InputUnit.m_id u) (InputUnit.m_direction u)
   else VirtualChannel.get_state v = ACTIVE_ /\ (VirtualChannel.m_vc_state v).2 <= now /\
     Forall (fun f' => flit.is_tail f' = false) (VirtualChannel.flits v)) ->
  safe (open_channel net now rec i vc f r g) (fun '(f', (r', g')) => exists v',
    same_frame r r' /\ consumer r' = consumer r /\ buf_ok n r' /\ J (rstate r' g') /\ ident f' = ident f /\
    m_input_unit r' = <[Z.to_nat i := u <| InputUnit.virtualChannels ::= <[Z.to_nat vc := v']> |>]>
      (m_input_unit r) /\
    can_take (m_output_unit r) v' /\ VirtualChannel.flits v' = VirtualChannel.flits v /\ same_claim v v').
Proof.
  intros Hu Hid Hn Hbuf Hv Hfree (Hact & _ & Hvo) HJ Harr. unfold open_channel. unfold unit_at in Hu.
  rewrite Hu. cbn [mbind res_bind]. unfold InputUnit.with_vc. rewrite Hv. cbn [mbind res_bind].
  pose proof (vget_bound _ _ _ Hu) as Hib. pose proof (vget_bound _ _ _ Hv) as Hvb.
  destruct (flit.is_head f) eqn:Hhead.
  - destruct Harr as [Hst HRt]. rewrite (bool_decide_eq_true_2 _ Hst). cbn [assert mbind res_bind].
    assert (Hemp : VirtualChannel.flits v = []).
    { destruct (VirtualChannel.flits v) eqn:E; [done|]. destruct (Hact ltac:(by rewrite E)) as [Ha _].
      unfold VirtualChannel.get_state in Hst. congruence. }
    unfold InputUnit.set_vc_active, InputUnit.on_vc. rewrite (valter_eq _ _ _ _ Hv). cbn [mbind res_bind].
    simpl InputUnit.m_id. simpl InputUnit.m_direction. apply safe_bind.
    eapply safe_mono; [by apply route_compute_spec|].
    intros [[o rt] [r1 g1]] (Ho & _ & _ & _ & ru1 & -> & HJ'). unfold InputUnit.grant_outport, InputUnit.on_vc. simpl.
    rewrite (valter_eq _ _ _ (VirtualChannel.set_active now v)) by (by apply vget_insert_eq).
    cbn [mbind res_bind]. rewrite setInputUnit_eq by done. cbn [mbind res_bind]. apply safe_bind.
    eapply safe_mono; [by apply record_spec|]. intros ob Hob. simpl.
    eexists (VirtualChannel.set_outport o (VirtualChannel.set_active now v)).
    split_and!; try done; [by rewrite list_insert_insert_eq| |by left; destruct Hfree].
    split_and!; [done|simpl; lia| |].
    { change (Forall (fun f' => flit.is_tail f' = false) (VirtualChannel.flits v)). by rewrite Hemp. }
    intros _. simpl.
    destruct (vget_range (m_output_unit r) o) as [ou Hou]; [lia|]. exists ou. split; [done|].
    left. by destruct Hfree.
  - destruct Harr as (Hst & Ht & Hno). rewrite (bool_decide_eq_true_2 _ Hst). cbn [assert mbind res_bind].
    simpl. exists v. split_and!; try done; [|by right].
    rewrite list_insert_id; [done|]. apply vget_Ok in Hu as [_ ->], Hv as [_ Hv]. f_equal.
    destruct u. simpl in *. unfold update. cbn. by rewrite list_insert_id.
Qed.

(** ** Buffering *)

Lemma buffer_flit_spec i vc f r u v : unit_at r i u -> vget (InputUnit.virtualChannels u) vc = Ok v ->
  shape_ok net r -> units_ok r -> unit_ok r u -> zlength (InputUnit.virtualChannels u) = m_num_vcs r ->
  clock_ok now r ->
  safe (buffer_flit now i vc f r) (fun r' => exists f' wr rd c,
    r' = r <| m_input_unit := <[Z.to_nat i :=
           u <| InputUnit.virtualChannels ::= <[Z.to_nat vc := VirtualChannel.insertFlit f' v]> |>
             <| InputUnit.m_num_buffer_writes := wr |> <| InputUnit.m_num_buffer_reads := rd |>]>
           (m_input_unit r) |> <| consumer := c |> /\
    ident f' = ident f /\ zlength wr = zlength (InputUnit.m_num_buffer_writes u) /\
    zlength rd = zlength (InputUnit.m_num_buffer_reads u) /\ clock_ok now r').
Proof.
  intros Hu Hv Hs [Hlat _] [] Hlen Hclk. unfold buffer_flit, stage_time. unfold unit_at in Hu.
  assert (Hst : exists w t, 0 <= w /\ (if m_latency r =? 1 then Ok (0, now)
    else _ ← assert (1 <? m_latency r); Ok (m_latency r - 1, clockEdge now (m_latency r - 1) r)) = Ok (w, t)).
  { destruct (Z.eqb_spec (m_latency r) 1); [eexists _, _; split; [|done]; lia|].
    rewrite (proj2 (Z.ltb_lt _ _)) by lia. eexists _, _. split; [|done]. lia. }
  destruct Hst as (w & t & Hw & ->). cbn [mbind res_bind]. rewrite Hu. cbn [mbind res_bind].
  pose proof (vget_bound _ _ _ Hv) as Hvb. pose proof (vget_bound _ _ _ Hu) as Hub.
  unfold InputUnit.on_vc. rewrite (valter_eq _ _ _ _ Hv). cbn [mbind res_bind]. simpl InputUnit.m_vc_per_vnet.
  destruct Hs. unfold cdiv. rewrite un_per0, decide_False by lia. cbn [mbind res_bind].
  simpl InputUnit.m_num_buffer_writes. simpl InputUnit.m_num_buffer_reads.
  assert (Hq : 0 <= Z.quot vc (m_vc_per_vnet r) < m_virtual_networks r).
  { rewrite Z.quot_div_nonneg by lia. split; [apply Z.div_pos; lia|]. apply Z.div_lt_upper_bound; lia. }
  apply safe_bind, safe_valter; [lia|]. intros x1 _. apply safe_bind, safe_valter; [lia|]. intros x2 _.
  rewrite setInputUnit_eq by done. cbn [mbind res_bind].
  destruct (Z.ltb_spec 0 w).
  - eapply safe_mono; [apply schedule_wakeup_safe; [done|lia]|]. intros r' (c & -> & Hc).
    eexists (flit.advance_stage SA_ t f), _, _, c. split_and!; [done|done|by rewrite zlength_insert..|done].
  - eexists (flit.advance_stage SA_ t f), _, _, (consumer r).
    split_and!; [by destruct r|done|by rewrite zlength_insert..|done].
Qed.

(** What the arrival of [f] does to the unit. *)
Record received (r : Router.t) (i : Z) (u : InputUnit.t) (f : flit.t) (r' : Router.t) (g' : Globals) : Prop := {
  rc_frame : same_frame r r';
  rc_clock : clock_ok now r';
  rc_J : J (rstate r' g');
  rc_buf : buf_ok n r';
  rc_unit : exists u' v v', m_input_unit r' = <[Z.to_nat i := u']> (m_input_unit r) /\
    vget (InputUnit.virtualChannels u) (flit.m_vc f) = Ok v /\
    InputUnit.virtualChannels u' = <[Z.to_nat (flit.m_vc f) := v']> (InputUnit.virtualChannels u) /\
    ident <$> VirtualChannel.flits v' = (ident <$> VirtualChannel.flits v) ++ [ident f] /\
    vc_ok now (m_output_unit r) v' /\ VirtualChannel.get_state v' = ACTIVE_ /\ unit_ok r u' /\
    same_claim v v' /\ link_flits u' = link_flits u /\ InputUnit.HR u' = InputUnit.HR u /\
    InputUnit.round_flit u' = InputUnit.round_flit u;
}.

(** ** Frames *)

Lemma shape_ok_frame r r' : same_frame r r' -> length (m_input_unit r') = length (m_input_unit r) ->
  shape_ok net r -> shape_ok net r'.
Proof.
  intros [] Hl []. split; rewrite ?sf_sa0, ?sf_xbar0, ?sf_vnets0, ?sf_per0, ?sf_vcs0, ?sf_out0;
    unfold zlength in *; rewrite ?Hl; done.
Qed.

Lemma unit_ok_frame r r' u : same_frame r r' -> unit_ok r u -> unit_ok r' u.
Proof. intros [] []. split; congruence. Qed.

(** Replacing one unit. *)
Lemma units_ok_insert r r' i u : same_frame r r' -> m_input_unit r' = <[i := u]> (m_input_unit r) ->
  units_ok r -> unit_ok r u -> units_ok r'.
Proof.
  intros Hfr Hins [Hlat Hall] Hu. split; [by rewrite (sf_latency _ _ Hfr)|]. rewrite Hins.
  eapply list.Forall_impl; [by apply Forall_insert|]. intros w. by apply unit_ok_frame.
Qed.

Lemma unit_ok_insert r u vc v : unit_ok r u -> VirtualChannel.get_state v = ACTIVE_ ->
  unit_ok r (u <| InputUnit.virtualChannels ::= <[Z.to_nat vc := v]> |>).
Proof. intros [] Hst. split; try done. simpl. apply Forall_insert; [done|]. congruence. Qed.

Lemma clock_ok_frame r r' : same_frame r r' -> consumer r' = consumer r -> clock_ok now r -> clock_ok now r'.
Proof. intros [] Hc. unfold clock_ok. by rewrite Hc, sf_em0. Qed.

(** A router between two cycles, as far as arriving flits see it. *)
Record in_inv (r : Router.t) : Prop := {
  iv_shape : shape_ok net r;
  iv_units : units_ok r;
  iv_inputs : inputs_ok now r;
  iv_clock : clock_ok now r;
  iv_id : m_id r = id;
  iv_n : zlength (m_output_unit r) = n;
  iv_buf : buf_ok n r;
  iv_hist : Forall (fun u => hist_inv now (InputUnit.HR u)) (m_input_unit r);
}.

Lemma receive_spec rec r g i u f : in_inv r -> unit_at r i u -> acceptable u f -> J (rstate r g) ->
  safe (receive net now rec i f r g) (fun '(r', g') => received r i u f r' g').
Proof.
  intros [] Hu (v & Hv & Harr) HJ. unfold receive. change (flit.m_vc f) with (flit.m_vc (flit.increment_hops f)).
  destruct (Forall_vget _ _ _ _ iv_inputs0 Hu) as [Hlen Hall].
  pose proof (Forall_vget _ _ _ _ Hall Hv) as Hvok.
  pose proof (Forall_vget _ _ _ _ (proj2 iv_units0) Hu) as Huok.
  pose proof (vget_bound _ _ _ Hu) as Hub. pose proof (vget_bound _ _ _ Hv) as Hvb.
  apply safe_bind. eapply safe_mono; [apply (open_channel_spec rec i _ _ r g u v); try done|].
  2:{ change (flit.is_head (flit.increment_hops f)) with (flit.is_head f). destruct (flit.is_head f); [|done].
      destruct Harr. split; [done|]. by apply routes_hop. }
  { destruct (flit.is_head f) eqn:Hh; [left|by right]. apply (Forall_vget _ _ _ _ (un_idle _ _ Huok) Hv), Harr. }
  intros [f1 [r1 g1]] (v1 & Hfr & Hcons & Hbuf1 & HJ1 & Hid1 & Hins & Htake & Hfl & Hcl).
  assert (Hst1 : VirtualChannel.get_state v1 = ACTIVE_) by apply Htake.
  set (u1 := u <| InputUnit.virtualChannels ::= <[Z.to_nat (flit.m_vc (flit.increment_hops f)) := v1]> |>) in *.
  assert (Huok1 : unit_ok r1 u1) by (by apply (unit_ok_frame r), unit_ok_insert).
  apply safe_bind. eapply safe_mono; [apply (buffer_flit_spec i _ f1 r1 u1 v1); try done|].
  - unfold unit_at. rewrite Hins. by apply vget_insert_eq.
  - simpl. by apply vget_insert_eq.
  - eapply shape_ok_frame; [done| |done]. by rewrite Hins, length_insert.
  - by eapply units_ok_insert, unit_ok_insert.
  - simpl. rewrite zlength_insert, (sf_vcs _ _ Hfr). done.
  - by eapply clock_ok_frame.
  - intros r2 (f2 & wr & rd & c & -> & Hid2 & Hwr & Hrd & Hclk2). simpl. split.
    + eapply same_frame_trans; [exact Hfr|]. by split.
    + done.
    + by destruct r1.
    + done.
    + eexists _, v, (VirtualChannel.insertFlit f2 v1). rewrite Hins. split_and!.
      * simpl. by rewrite list_insert_insert_eq.
      * done.
      * simpl. by rewrite list_insert_insert_eq.
      * change (VirtualChannel.flits (VirtualChannel.insertFlit f2 v1)) with (VirtualChannel.flits v1 ++ [f2]).
        rewrite fmap_app, Hfl. simpl. by rewrite Hid2, Hid1.
      * by apply can_take_vc_ok.
      * done.
      * destruct Huok. split; simpl; try done; [by rewrite Hwr|by rewrite Hrd|].
        apply Forall_insert; [apply Forall_insert; [done|congruence]|].
        intros Hi. change (VirtualChannel.get_state v1 = IDLE_) in Hi. congruence.
      * exact Hcl.
      * done.
      * done.
      * done.
Qed.

(** ** The unit *)

Lemma waiting_spec u : (waiting now u = [] /\ NetworkLink.isReady now (InputUnit.m_in_link u) = false) \/
  exists f l, waiting now u = [f] /\ NetworkLink.isReady now (InputUnit.m_in_link u) = true /\
    flitBuffer.m_buffer (NetworkLink.linkBuffer (InputUnit.m_in_link u)) = f :: l.
Proof.
  unfold waiting, NetworkLink.isReady, flitBuffer.isReady.
  destruct (flitBuffer.m_buffer _) as [|f l]; [by left|].
  destruct (flit.m_time f <=? now); [right; eauto|by left].
Qed.

(** The units other than [i] are not touched. *)
Record took (r : Router.t) (i : Z) (u : InputUnit.t) (r' : Router.t) (g' : Globals) : Prop := {
  tk_inv : in_inv r';
  tk_J : J (rstate r' g');
  tk_frame : same_frame r r';
  tk_len : length (m_input_unit r') = length (m_input_unit r);
  tk_others : forall j, j <> i -> 0 <= j -> vget (m_input_unit r') j = vget (m_input_unit r) j;
  tk_bag : router_bag r' = router_bag r ⊎ bag_of (waiting now u);
  tk_claims : no_new_claims r r';
  tk_link : exists u', unit_at r' i u' /\ link_flits u = waiting now u ++ link_flits u';
}.

Lemma bag_received (I I' U U' V V' S O X : gmultiset (Z * Z)) :
  I' ⊎ U = I ⊎ U' -> U' ⊎ V = U ⊎ V' -> V' = V ⊎ X -> I' ⊎ S ⊎ O = I ⊎ S ⊎ O ⊎ X.
Proof. intros H1 H2 ->. multiset_solver. Qed.

Lemma received_took r i u u0 f0 f r' g' : in_inv r -> unit_at r i u -> waiting now u0 = [f0] ->
  link_flits u0 = f0 :: link_flits u -> ident f = ident f0 ->
  received r i u f r' g' -> took r i u0 r' g'.
Proof.
  intros Hinv Hu Hw Hlk Hf0 [Hfr Hclk HJ Hbuf (u' & v & v' & Hins & Hv & Hvcs & Hfl & Hok & Hst & Huok & Hcl & Hlu & Hhr & _)].
  pose proof (vget_bound _ _ _ Hu) as Hub. destruct Hinv.
  destruct (Forall_vget _ _ _ _ iv_inputs0 Hu) as [Hlen Hall].
  split; [split|..]; try done.
  - eapply shape_ok_frame; [done| |done]. by rewrite Hins, length_insert.
  - by eapply units_ok_insert.
  - unfold inputs_ok. rewrite Hins, (sf_out _ _ Hfr), (sf_vcs _ _ Hfr). apply Forall_insert; [done|].
    rewrite Hvcs, zlength_insert. split; [done|]. by apply Forall_insert.
  - by rewrite (sf_id _ _ Hfr).
  - by rewrite (sf_out _ _ Hfr).
  - rewrite Hins. apply Forall_insert; [done|]. rewrite Hhr. by apply (Forall_vget _ _ _ _ iv_hist0 Hu).
  - by rewrite Hins, length_insert.
  - intros j Hne Hj. rewrite Hins. by apply vget_insert_ne; lia.
  - unfold router_bag. rewrite (sf_xbar _ _ Hfr), (sf_out _ _ Hfr), Hins, Hw.
    apply vget_Ok in Hu as [_ Hu]. apply vget_Ok in Hv as [_ Hv].
    pose proof (bag_of_insert unit_flits _ _ _ u' Hu) as H1.
    pose proof (bag_of_insert VirtualChannel.flits _ _ _ v' Hv) as H2.
    change (unit_flits u') with (InputUnit.virtualChannels u' ≫= VirtualChannel.flits) in H1. rewrite Hvcs in H1.
    assert (H3 : bag_of (VirtualChannel.flits v') = bag_of (VirtualChannel.flits v) ⊎ bag_of [f0]).
    { unfold bag_of. rewrite Hfl, list_to_set_disj_app. simpl. by rewrite Hf0. }
    exact (bag_received _ _ _ _ _ _ _ _ _ H1 H2 H3).
  - intros j invc o c Hc (w & x & [Hw' Hx] & Hxs & Hxo & Hxc). rewrite Hins in Hw'.
    apply vget_insert in Hw' as [[-> ->]|[Hne Hw']]; [|by exists w, x|done].
    rewrite Hvcs in Hx. apply vget_insert in Hx as [[-> ->]|[Hne Hx]]; [| |by eapply vget_bound].
    + destruct Hcl as [?|(? & ? & ?)]; [congruence|]. exists u, v.
      split_and!; [by split|congruence..].
    + by exists u, x.
  - exists u'. split; [unfold unit_at; rewrite Hins; by apply vget_insert_eq|]. by rewrite Hw, Hlu.
Qed.

(** A unit whose channels are those of another. *)
Record same_channels (u u' : InputUnit.t) : Prop := {
  sh_per : InputUnit.m_vc_per_vnet u' = InputUnit.m_vc_per_vnet u;
  sh_wr : InputUnit.m_num_buffer_writes u' = InputUnit.m_num_buffer_writes u;
  sh_rd : InputUnit.m_num_buffer_reads u' = InputUnit.m_num_buffer_reads u;
  sh_vcs : InputUnit.virtualChannels u' = InputUnit.virtualChannels u;
}.

(** Replacing a unit by such a one. *)
Lemma swap_unit r r' i u u' : in_inv r -> unit_at r i u -> same_channels u u' -> hist_inv now (InputUnit.HR u') ->
  same_frame r r' -> consumer r' = consumer r -> outBuf r' = outBuf r ->
  m_input_unit r' = <[Z.to_nat i := u']> (m_input_unit r) ->
  in_inv r' /\ router_bag r' = router_bag r /\ no_new_claims r r'.
Proof.
  intros [] Hu [] Hh Hfr Hc Hob Hins. pose proof (vget_bound _ _ _ Hu) as Hub. split_and!.
  - split.
    + apply (shape_ok_frame r); [done| |done]. by rewrite Hins, length_insert.
    + apply (units_ok_insert r _ (Z.to_nat i) u'); [done..|].
      pose proof (Forall_vget _ _ _ _ (proj2 iv_units0) Hu) as []. split; congruence.
    + unfold inputs_ok. rewrite Hins, (sf_vcs _ _ Hfr), (sf_out _ _ Hfr). apply Forall_insert; [done|].
      rewrite sh_vcs0. by apply (Forall_vget _ _ _ _ iv_inputs0 Hu).
    + by apply (clock_ok_frame r).
    + by rewrite (sf_id _ _ Hfr).
    + by rewrite (sf_out _ _ Hfr).
    + unfold buf_ok. by rewrite Hob.
    + rewrite Hins. by apply Forall_insert.
  - unfold router_bag. rewrite Hins, (sf_xbar _ _ Hfr), (sf_out _ _ Hfr). apply vget_Ok in Hu as [_ Hu].
    rewrite (bag_of_insert_same unit_flits _ _ u); [done..|]. unfold unit_flits. by rewrite sh_vcs0.
  - intros j invc o c _ (w & x & [Hw' Hx] & Hxs). rewrite Hins in Hw'.
    apply vget_insert in Hw' as [[-> ->]|[Hne Hw']]; [|by exists w, x|done].
    rewrite sh_vcs0 in Hx. by exists u, x.
Qed.

(** Taking the flit off the link. *)
Lemma consume_spec r i u f l : in_inv r -> unit_at r i u -> link_flits u = f :: l ->
  flit.m_width f = m_bit_width r ->
  exists link r', consume i r = Ok (f, r') /\
    r' = r <| m_input_unit := <[Z.to_nat i := u <| InputUnit.m_in_link := link |>]> (m_input_unit r) |> /\
    link_flits (u <| InputUnit.m_in_link := link |>) = l /\
    in_inv r' /\ router_bag r' = router_bag r /\ no_new_claims r r'.
Proof.
  intros Hinv Hu Hl Hw. unfold consume. pose proof Hu as Hu'. unfold unit_at in Hu'. rewrite Hu'.
  cbn [mbind res_bind]. unfold link_flits in Hl.
  unfold NetworkLink.consumeLink, flitBuffer.getTopFlit. rewrite Hl. cbn [mbind res_bind fst snd].
  rewrite Hw, Z.eqb_refl. cbn [assert mbind res_bind]. pose proof (vget_bound _ _ _ Hu) as Hub.
  rewrite setInputUnit_eq by done. cbn [mbind res_bind]. eexists _, _.
  split; [reflexivity|]. split; [reflexivity|]. split; [reflexivity|].
  eapply (swap_unit r _ i u); [done|done| | | | | |reflexivity]; try done.
  apply (Forall_vget _ _ _ _ (iv_hist _ Hinv) Hu).
Qed.

Lemma in_inv_consumer r c : in_inv r -> clock_ok now (r <| consumer := c |>) ->
  in_inv (r <| consumer := c |>).
Proof.
  intros [] Hc. assert (Hf : same_frame r (r <| consumer := c |>)) by (by split).
  split; try done; [by apply (shape_ok_frame r)|].
  destruct iv_units0 as [Hl Hu]. split; [done|]. eapply list.Forall_impl; [exact Hu|].
  intros w. by apply unit_ok_frame.
Qed.

Lemma took_consumer r i u r' g' c : took r i u r' g' -> clock_ok now (r' <| consumer := c |>) ->
  took r i u (r' <| consumer := c |>) g'.
Proof.
  intros [Hinv HJ Hfr ? ? ? ? ?] Hc. split; try done; [by apply in_inv_consumer|].
  eapply same_frame_trans; [exact Hfr|by split].
Qed.

End arrival.
