(* ===== verification/InputVariants.v ===== *)
(** * InputVariants: the input units of the defences

    [InputUnit::wakeup] has one body per value of [InputStruct]: the
    original unit (0), the Resister defence (2) and its latency measurement (5),
    and Valiant routing of all packets (3).  They share the buffering of
    the flit and differ in what they do to it before. *)

From Stdlib Require Import Sorted.
From stdpp Require Import gmultiset.
From S2P Require Import Prelude CFloat NetDest CommonTypes Flit Channels Detector DetectorProofs RoutingUnit.
From S2P Require Import MeshRouting Clock Link Units Router SwitchAlloc InputWakeup UnitLemmas.
From S2P Require Import SwitchProofs SwitchSafe FlitBag InputProofs.
Import Router.

(** ** The draw *)

(** The comparison of the draw with [injRange * calibrate]. *)
Lemma detours_spec d : 0 <= d <= 10000 -> detours d = bool_decide (d <> 10000).
Proof.
  intros Hd. assert (Hall : forallb (fun k => eqb (detours (Z.of_nat k)) (negb (Z.of_nat k =? 10000)))
    (seq 0 (Z.to_nat 10001)) = true) by (vm_compute; reflexivity).
  rewrite forallb_forall in Hall. specialize (Hall (Z.to_nat d)).
  rewrite Z2Nat.id in Hall by lia. apply eqb_prop in Hall; [|apply in_seq; lia].
  rewrite Hall. by destruct (Z.eqb_spec d 10000), (bool_decide_reflect (d <> 10000)).
Qed.

Lemma draw_spec g : exists d g', getMyRandom 0 10000 g = Ok (d, g') /\ 0 <= d <= 10000.
Proof.
  assert (Hs : safe (getMyRandom 0 10000 g) (fun r => 0 <= r.1 <= 10000)).
  { unfold getMyRandom. rewrite !u64_small by lia. by apply safe_uniform. }
  destruct (safe_inv _ _ Hs) as ([d g'] & -> & ?). eauto.
Qed.

(** ** Before the flit is buffered *)

Section variants.
Context (net : NetParams) (now id n junk : Z).
Context (Rt : RouteInfo -> Z -> PortDirection -> Prop) (J : RState -> Prop) (Hroute : Routes net now id n Rt J).

Definition wakeup_with (prep : Z -> flit.t -> Router.t -> Globals -> res (flit.t * (Router.t * Globals)))
    (rec : bool) (i : Z) (r : Router.t) (g : Globals) : res (Router.t * Globals) :=
  ready ← link_ready now i r;
  if negb ready then Ok (r, g)
  else
    '(f, r) ← consume i r;
    '(f, (r, g)) ← prep i f r g;
    '(r, g) ← receive net now rec i f r g;
    r ← reschedule now i r;
    Ok (r, g).

(** A unit with the channels, the link and the name of another. *)
Record same_port (u u' : InputUnit.t) : Prop := {
  sp_channels : same_channels u u';
  sp_id : InputUnit.m_id u' = InputUnit.m_id u;
  sp_dirn : InputUnit.m_direction u' = InputUnit.m_direction u;
  sp_link : InputUnit.m_in_link u' = InputUnit.m_in_link u;
}.

(** What is done to a flit [f] of unit [u], and to the unit, before the flit
    is buffered. *)
Record prepared (r : Router.t) (i : Z) (u u' : InputUnit.t) (f f' : flit.t) (r' : Router.t) (g' : Globals) : Prop := {
  pp_port : same_port u u';
  pp_hist : hist_inv now (InputUnit.HR u');
  pp_unit : m_input_unit r' = <[Z.to_nat i := u']> (m_input_unit r);
  pp_frame : same_frame r r';
  pp_cons : consumer r' = consumer r;
  pp_buf : outBuf r' = outBuf r;
  pp_J : J (rstate r' g');
  pp_ident : ident f' = ident f;
  pp_acc : acceptable now Rt u f';
}.

Lemma prepared_same r i u f g : unit_at r i u -> hist_inv now (InputUnit.HR u) -> J (rstate r g) ->
  acceptable now Rt u f -> prepared r i u u f f r g.
Proof. intros [_ Hu]%vget_Ok Hh HJ Ha. split; try done. by rewrite list_insert_id. Qed.

(** [bump] is what the preparation does to the flit count of the unit. *)
Definition prepares (bump : Z -> Z)
    (prep : Z -> flit.t -> Router.t -> Globals -> res (flit.t * (Router.t * Globals))) : Prop :=
  forall r g i u f, in_inv net now id n r -> unit_at r i u -> acceptable now Rt u f -> J (rstate r g) ->
    safe (prep i f r g) (fun '(f', (r', g')) => exists u', prepared r i u u' f f' r' g' /\
      InputUnit.round_flit u' = bump (InputUnit.round_flit u)).

Lemma acceptable_port u u' f : same_port u u' -> acceptable now Rt u f -> acceptable now Rt u' f.
Proof. intros [[_ _ _ Hv] Hi Hd _] Ha. unfold acceptable. by rewrite Hv, Hi, Hd. Qed.

(** The arrival of the flit that is due, up to the scheduling after it. *)
Lemma take_spec {A} (k : Router.t * Globals -> res A) (Q : A -> Prop) bump prep rec r g i u f :
  prepares bump prep -> in_inv net now id n r -> unit_at r i u -> arrival_ok now Rt r u -> J (rstate r g) ->
  waiting now u = [f] ->
  (forall r' g' u', took net now id n J r i u r' g' -> unit_at r' i u' ->
     link_flits u = f :: link_flits u' ->
     InputUnit.round_flit u' = bump (InputUnit.round_flit u) -> safe (k (r', g')) Q) ->
  safe ('(f, r) ← consume i r; '(f, (r, g)) ← prep i f r g; x ← receive net now rec i f r g; k x) Q.
Proof.
  intros Hprep Hinv Hu Harr HJ Hw Hk. destruct (waiting_spec now u) as [[? _]|(f0 & l & Hw' & _ & Hl)]; [congruence|].
  assert (f0 = f) as -> by congruence. destruct (Harr f Hw) as [Hwd Hacc].
  destruct (consume_spec net now id n r i u f l Hinv Hu Hl Hwd) as (link & r1 & -> & Hr1 & Hlk1 & Hinv1 & Hbag1 & Hown1).
  cbn [mbind res_bind]. set (u1 := u <| InputUnit.m_in_link := link |>) in *.
  pose proof (vget_bound _ _ _ Hu) as Hub.
  assert (Hu1 : unit_at r1 i u1) by (unfold unit_at; rewrite Hr1; by apply vget_insert_eq).
  apply safe_bind. eapply safe_mono; [apply (Hprep r1 g i u1 f); [done..|by rewrite Hr1]|].
  intros [f2 [r2 g2]] (u2 & Hpp & Hbump). pose proof Hpp as [Hport Hh Hins2 Hfr2 Hc2 Hob2 HJ2 Hid2 Hacc2].
  destruct (swap_unit net now id n r1 r2 i u1 u2) as (Hinv2 & Hbag2 & Hown2); try done; [apply Hport|].
  assert (Hu2 : unit_at r2 i u2).
  { unfold unit_at. rewrite Hins2. apply vget_insert_eq. by eapply vget_bound. }
  apply safe_bind. pose proof (acceptable_port _ _ _ Hport Hacc2) as Hacc3.
  eapply safe_mono; [by apply (receive_spec net now id n Rt J Hroute rec r2 g2 i u2 f2)|].
  intros [r3 g3] Hrc.
  assert (Hlu : link_flits u = f :: link_flits u2).
  { unfold link_flits at 2. rewrite (sp_link _ _ Hport). by rewrite <- Hlk1 in Hl. }
  assert (Htk : took net now id n J r i u r3 g3).
  { destruct (received_took net now id n Rt J Hroute r2 i u2 u f f2 r3 g3 Hinv2 Hu2 Hw Hlu Hid2 Hrc)
      as [? ? Hfr Hln Hoth Hb Hown ?].
    assert (Hlen : length (m_input_unit r2) = length (m_input_unit r))
      by (rewrite Hins2, Hr1; simpl; by rewrite !length_insert).
    split; try done.
    - eapply same_frame_trans; [|exact Hfr]. eapply same_frame_trans; [|exact Hfr2]. rewrite Hr1. by split.
    - by rewrite Hln.
    - intros j Hne Hj. rewrite Hoth by done. rewrite Hins2, Hr1. simpl. by rewrite !vget_insert_ne by lia.
    - by rewrite Hb, Hbag2, Hbag1.
    - eapply no_new_claims_trans; [exact Hown1|]. by eapply no_new_claims_trans. }
  destruct Hrc as [_ _ _ _ (u3 & v & v' & Hins3 & _ & _ & _ & _ & _ & _ & _ & Hl3 & _ & Hrf)].
  apply (Hk r3 g3 u3); [done| |by rewrite Hl3|by rewrite Hrf].
  unfold unit_at. rewrite Hins3. apply vget_insert_eq. by eapply vget_bound.
Qed.

Lemma not_waiting r g i u : in_inv net now id n r -> unit_at r i u -> J (rstate r g) -> waiting now u = [] ->
  took net now id n J r i u r g.
Proof.
  intros Hinv Hu HJ Hw. split; try done; [|by intros ? ? ? ?|exists u; by rewrite Hw].
  by rewrite Hw, bag_nil.
Qed.

Lemma wakeup_with_spec bump prep rec r g i u : prepares bump prep -> in_inv net now id n r -> unit_at r i u ->
  arrival_ok now Rt r u -> J (rstate r g) ->
  safe (wakeup_with prep rec i r g) (fun '(r', g') => took net now id n J r i u r' g').
Proof.
  intros Hprep Hinv Hu Harr HJ. unfold wakeup_with, link_ready. pose proof Hu as Hu0. unfold unit_at in Hu0.
  rewrite Hu0. cbn [mbind res_bind].
  destruct (waiting_spec now u) as [[Hw ->]|(f & l & Hw & -> & Hl)]; cbn [negb]; [by apply not_waiting|].
  eapply (take_spec _ _ bump prep rec r g i u f); try done.
  intros r3 g3 u3 Htk Hu3 _ _.
  unfold reschedule, link_ready. unfold unit_at in Hu3. rewrite Hu3. cbn [mbind res_bind].
  destruct (NetworkLink.isReady now _); [|done].
  apply safe_bind. eapply safe_mono; [apply schedule_wakeup_safe; [apply (tk_inv _ _ _ _ _ _ _ _ _ _ Htk)|lia]|].
  intros r4 (c & -> & Hc). by apply took_consumer.
Qed.

(** *** InputStruct 0 *)

Definition prep_ori (i : Z) (f : flit.t) (r : Router.t) (g : Globals) : res (flit.t * (Router.t * Globals)) :=
  Ok (f, (r, g)).

Lemma prep_ori_spec : prepares (fun k => k) prep_ori.
Proof.
  intros r g i u f Hinv Hu Hacc HJ. exists u. split; [|done]. apply prepared_same; try done.
  apply (Forall_vget _ _ _ _ (iv_hist _ _ _ _ _ Hinv) Hu).
Qed.

(** *** InputStruct 3 *)

Definition prep_valiant (i : Z) (f : flit.t) (r : Router.t) (g : Globals) : res (flit.t * (Router.t * Globals)) :=
  u ← vget (m_input_unit r) i;
  let '(f, r) :=
    if (InputUnit.m_id u =? 0) && flit.is_head f && negb (dest_router (flit.m_route f) =? m_id r)
    then (flit.set_route (setTag 1 (flit.m_route f)) f,
          r <| inS0 ::= (fun s => s <| detour_counts ::= incr64 |>) |>)
    else (f, r) in
  Ok (f, (r, g)).

Lemma prep_valiant_spec : prepares (fun k => k) prep_valiant.
Proof.
  intros r g i u f Hinv Hu Hacc HJ. unfold prep_valiant. pose proof Hu as Hu'. unfold unit_at in Hu'.
  rewrite Hu'. cbn [mbind res_bind].
  assert (Hh : hist_inv now (InputUnit.HR u)) by (apply (Forall_vget _ _ _ _ (iv_hist _ _ _ _ _ Hinv) Hu)).
  destruct (_ && _) eqn:E; exists u; (split; [|done]); [|by apply prepared_same].
  destruct (prepared_same r i u f g Hu Hh HJ Hacc) as [Hport _ Hunit _ _ _ _ _ _].
  split; try done. apply andb_prop in E as [[_ Hhd]%andb_prop _].
  destruct Hacc as (v & Hv & Ha). exists v. split; [done|].
  change (flit.is_head (flit.set_route (setTag 1 (flit.m_route f)) f)) with (flit.is_head f).
  rewrite Hhd in *. destruct Ha. split; [done|]. by apply (routes_tagged (Routes := Hroute)).
Qed.

(** *** InputStruct 2 and 5 *)

Context (Hnow : 0 <= now) (Hshort : getCycle now < 2 ^ 31).

Lemma getCycle_pos : 0 <= getCycle now.
Proof. unfold getCycle. by apply Z.quot_pos. Qed.

(** The history after a packet was noted. *)
Definition noted (u : InputUnit.t) (f : flit.t) : HistoryRecord.t :=
  if flit.is_head f && (getTag (flit.m_route f) =? 0)
  then (InputUnit.HR u) <| HistoryRecord.patternTable :=
         drop 1 (HistoryRecord.patternTable (InputUnit.HR u)) ++ [current_entry now u f] |>
  else InputUnit.HR u.

Lemma sorted_snoc l x : StronglySorted Z.le l -> Forall (fun y => y <= x) l -> StronglySorted Z.le (l ++ [x]).
Proof.
  induction 1 as [|y l Hs IH Hy]; intros Hall; simpl; [repeat constructor|].
  apply list.Forall_cons in Hall as [? ?]. constructor; [by apply IH|]. apply Forall_app. by repeat constructor.
Qed.

Lemma noted_inv u f : hist_inv now (InputUnit.HR u) -> hist_inv now (noted u f).
Proof.
  intros Hh. unfold noted. destruct (_ && _); [|done].
  destruct Hh as ((Hl & Hlen & Hn & Hln) & Hs & Hall). pose proof getCycle_pos.
  destruct (HistoryRecord.patternTable (InputUnit.HR u)) as [|e tbl]; [done|].
  apply StronglySorted_inv in Hs as [Hs _]. apply list.Forall_cons in Hall as [_ Hall].
  change (drop 1 (e :: tbl)) with tbl. split_and!.
  - split_and!; try done. simpl. rewrite length_app. simpl in *. lia.
  - change (StronglySorted Z.le (cycleRecieve <$> (tbl ++ [current_entry now u f]))). rewrite fmap_app. apply sorted_snoc; [done|]. apply Forall_fmap.
    eapply list.Forall_impl; [exact Hall|]. intros x []. simpl. lia.
  - apply Forall_app. split; [done|]. repeat constructor; simpl; lia.
Qed.

Lemma record_injection_spec r i u f : unit_at r i u -> hist_inv now (InputUnit.HR u) -> exists st,
  record_injection now i f r = Ok (r <| inS0 := st |>
    <| m_input_unit := <[Z.to_nat i := u <| InputUnit.HR := noted u f |>]> (m_input_unit r) |>).
Proof.
  intros Hu ((_ & Hlen & _) & _). unfold record_injection, noted. pose proof (vget_bound _ _ _ Hu) as Hub.
  destruct (_ && _).
  - unfold unit_at in Hu. rewrite Hu. cbn [mbind res_bind]. unfold HistoryRecord.updateHistory.
    destruct (HistoryRecord.patternTable (InputUnit.HR u)) as [|e tbl] eqn:E; [done|]. simpl.
    rewrite setInputUnit_eq by done. simpl. eexists. reflexivity.
  - exists (inS0 r). apply vget_Ok in Hu as [_ Hu]. rewrite list_insert_id; [by destruct r|].
    rewrite Hu. by destruct u.
Qed.

Lemma hist_inv_order h : hist_inv now h -> in_order h.
Proof.
  intros (_ & Hs & Hall). split; [done|]. rewrite list.Forall_forall in Hall. intros a b Ha Hb.
  pose proof (Hall a Ha). pose proof (Hall b Hb). lia.
Qed.

(** The detection for a head flit [f] of unit [u] that does not leave here:
    the verdict [risk], the route [rt] of the flit and the draw. *)
Record detection (r : Router.t) (g : Globals) (i : Z) (u : InputUnit.t) (f : flit.t)
    (risk : bool) (rt : RouteInfo) (draw : Z) (r' : Router.t) (g' : Globals) : Prop := {
  dt_route : Rt rt (InputUnit.m_id u) (InputUnit.m_direction u);
  dt_dest : dest_router rt = dest_router (flit.m_route f);
  dt_draw : 0 <= draw <= 10000;
  dt_risk : exists o s' l rg,
    outportCompute net id now (flit.m_route f) (InputUnit.m_id u) (InputUnit.m_direction u) (rstate r g) =
      Ok (o, rt, s') /\
    vget (outportRecord.record (outBuf r)) o = Ok l /\
    risk = bool_decide (risky (current_entry now u f) (src_router (flit.m_route f))
             (dest_router (flit.m_route f)) l (InputUnit.HR u)) /\
    getMyRandom 0 10000 (rng s') = Ok (draw, rg) /\ g' = mkGlobals (cnt s') rg /\ routingUnit r' = ru s';
  dt_unit : exists h, hist_inv now h /\
    HistoryRecord.patternTable h = HistoryRecord.patternTable (InputUnit.HR u) /\
    m_input_unit r' = <[Z.to_nat i := u <| InputUnit.HR := h |>]> (m_input_unit r);
  dt_frame : same_frame r r';
  dt_cons : consumer r' = consumer r;
  dt_buf : outBuf r' = outBuf r;
  dt_J : J (rstate r' g');
}.

Definition detect_result (latency risk : bool) (rt : RouteInfo) (draw : Z) (f : flit.t) (r : Router.t) (g : Globals)
    : res (flit.t * (Router.t * Globals)) :=
  if risk && latency then Err ExitCalled
  else Ok (flit.set_route (if risk && negb (draw =? 10000) then setTag 1 rt else rt) f, (r, g)).

Lemma detect_spec latency r g i u f : in_inv net now id n r -> unit_at r i u -> J (rstate r g) ->
  flit.is_head f = true -> dest_router (flit.m_route f) <> id -> src_router (flit.m_route f) <> -1 ->
  Rt (flit.m_route f) (InputUnit.m_id u) (InputUnit.m_direction u) ->
  exists risk rt draw r' g', detection r g i u f risk rt draw r' g' /\
    detect net now junk latency i f r g = detect_result latency risk rt draw f r' g'.
Proof.
  intros Hinv Hu HJ Hhd Hd Hs HRt. pose proof Hinv as [_ _ _ _ Hid _ [Hwf Hbl] Hhs].
  pose proof (Forall_vget _ _ _ _ Hhs Hu) as Hh. pose proof (vget_bound _ _ _ Hu) as Hub.
  unfold detect. rewrite Hhd, Hid, (proj2 (Z.eqb_neq _ _) Hd). cbn [andb negb].
  unfold unit_at in Hu. rewrite Hu. cbn [mbind res_bind]. unfold route_compute. rewrite Hid.
  destruct (safe_inv _ _ (routes (Routes := Hroute) _ _ _ (rstate r g) HRt HJ))
    as ([[o rt] s1] & Hcomp & Ho & HJ1 & HRt1 & Hsrc & Hdst).
  unfold rstate in Hcomp. rewrite Hcomp. cbn [mbind res_bind].
  destruct (vget_range (outportRecord.record (outBuf r)) o) as [l Hl]; [lia|].
  pose proof Hl as [_ Hl']%vget_Ok.
  destruct (safe_inv _ _ (riskFind_spec junk (current_entry now u (flit.set_route rt f)) 0 true (outBuf r)
    (src_router rt) (dest_router rt) (inS0 r) o (InputUnit.HR u) l (proj1 Hh) (fun _ => hist_inv_order _ Hh)
    Hwf ltac:(congruence) ltac:(lia) Hl')) as ([[[risk a] h] st] & Hrisk & Hr & Hh1 & Ht1).
  simpl in Hr, Hh1, Ht1.
  change (outBuf (r <| routingUnit := ru s1 |>)) with (outBuf r).
  change (inS0 (r <| routingUnit := ru s1 |>)) with (inS0 r).
  rewrite Hrisk. cbn [mbind res_bind]. rewrite setInputUnit_eq by done. cbn [mbind res_bind].
  assert (Hdet : forall draw rg st', 0 <= draw <= 10000 -> getMyRandom 0 10000 (rng s1) = Ok (draw, rg) -> detection r g i u f risk rt draw
    (r <| routingUnit := ru s1 |> <| inS0 := st' |> <| m_input_unit :=
      <[Z.to_nat i := u <| InputUnit.HR := h |>]> (m_input_unit r) |>) (mkGlobals (cnt s1) rg)).
  { intros draw rg st' Hrange Hdraw. split; try done.
    - exists o, s1, l, rg. split_and!; try done. rewrite Hr. unfold current_entry. simpl. by rewrite Hsrc, Hdst.
    - exists h. split_and!; [|done..]. destruct Hh as (_ & ? & ?). unfold hist_inv. by rewrite Ht1.
    - exact (routes_draw (Routes := Hroute) s1 rg HJ1). }
  destruct (draw_spec (rng s1)) as (draw & rg & Hdraw & Hrange). simpl g_rng. rewrite Hdraw. cbn [mbind res_bind].
  unfold detect_result. exists risk, rt, draw. destruct risk; cbn [andb].
  - rewrite detours_spec by done. destruct latency.
    { eexists _, _. split; [exact (Hdet draw rg st Hrange Hdraw)|done]. }
    destruct (Z.eqb_spec draw 10000) as [->|Hne]; cbn [negb].
    + rewrite bool_decide_eq_false_2 by tauto. eexists _, _. split; [exact (Hdet 10000 rg (st <| risk_counts ::= incr64 |>) Hrange Hdraw)|done].
    + rewrite bool_decide_eq_true_2 by done. eexists _, _. split; [exact (Hdet draw rg (st <| risk_counts ::= incr64 |> <| detour_counts ::= incr64 |>) Hrange Hdraw)|done].
  - eexists _, _. split; [exact (Hdet draw rg st Hrange Hdraw)|done].
Qed.

(** Noting the packet and judging it. *)
Lemma injection_spec latency r g i u f : in_inv net now id n r -> unit_at r i u -> J (rstate r g) ->
  flit.is_head f = true -> dest_router (flit.m_route f) <> id ->
  Rt (flit.m_route f) (InputUnit.m_id u) (InputUnit.m_direction u) ->
  exists r1 risk rt draw r' g', in_inv net now id n r1 /\ same_frame r r1 /\ consumer r1 = consumer r /\
    outBuf r1 = outBuf r /\ rstate r1 g = rstate r g /\
    m_input_unit r1 = <[Z.to_nat i := u <| InputUnit.HR := noted u f |>]> (m_input_unit r) /\
    detection r1 g i (u <| InputUnit.HR := noted u f |>) f risk rt draw r' g' /\
    (r ← record_injection now i f r; detect net now junk latency i f r g) =
      detect_result latency risk rt draw f r' g'.
Proof.
  intros Hinv Hu HJ Hhd Hd HRt. pose proof (vget_bound _ _ _ Hu) as Hub.
  pose proof (Forall_vget _ _ _ _ (iv_hist _ _ _ _ _ Hinv) Hu) as Hh.
  destruct (record_injection_spec r i u f Hu Hh) as [st ->]. cbn [mbind res_bind].
  set (u1 := u <| InputUnit.HR := noted u f |>). set (r1 := r <| inS0 := st |> <| m_input_unit := _ |>).
  assert (Hfr : same_frame r r1) by (by split).
  assert (Hinv1 : in_inv net now id n r1) by (eapply (swap_unit net now id n r r1 i u u1); try done; by apply noted_inv).
  assert (Hu1 : unit_at r1 i u1) by (unfold unit_at; simpl; by apply vget_insert_eq).
  destruct (detect_spec latency r1 g i u1 f Hinv1 Hu1 HJ Hhd Hd
    (routes_src (Routes := Hroute) _ _ _ HRt) HRt) as (risk & rt & draw & r' & g' & Hdet & ->).
  by exists r1, risk, rt, draw, r', g'.
Qed.

Definition prep_resister (i : Z) (f : flit.t) (r : Router.t) (g : Globals) : res (flit.t * (Router.t * Globals)) :=
  u ← vget (m_input_unit r) i;
  if InputUnit.m_id u =? 0 then
    r ← record_injection now i f r;
    detect net now junk false i f r g
  else Ok (f, (r, g)).

(** A flit that is not judged. *)
Lemma unjudged latency r g i f : flit.is_head f && negb (dest_router (flit.m_route f) =? m_id r) = false ->
  detect net now junk latency i f r g = Ok (f, (r, g)).
Proof. intros E. unfold detect. by rewrite E. Qed.

Lemma prep_resister_spec : prepares (fun k => k) prep_resister.
Proof.
  intros r g i u f Hinv Hu Hacc HJ. unfold prep_resister. pose proof Hu as Hu'. unfold unit_at in Hu'.
  rewrite Hu'. cbn [mbind res_bind].
  pose proof (Forall_vget _ _ _ _ (iv_hist _ _ _ _ _ Hinv) Hu) as Hh.
  destruct (InputUnit.m_id u =? 0); [|exists u; split; [by apply prepared_same|done]].
  destruct (flit.is_head f && negb (dest_router (flit.m_route f) =? m_id r)) eqn:E.
  - apply andb_prop in E as [Hhd Hd]. rewrite (iv_id _ _ _ _ _ Hinv) in Hd.
    destruct Hacc as (v & Hv & Ha). rewrite Hhd in Ha. destruct Ha as [Hst HRt].
    destruct (injection_spec false r g i u f) as (r1 & risk & rt & draw & r' & g' & _ & Hfr & Hc & Hob & _ & Hins &
      [HRt' _ _ _ (h & Hh' & _ & Hins') Hfr' Hc' Hob' HJ'] & ->); try done.
    { by destruct (Z.eqb_spec (dest_router (flit.m_route f)) id). }
    unfold detect_result. rewrite andb_false_r. exists (u <| InputUnit.HR := h |>). split; [|done]. split; try done.
    + rewrite Hins', Hins. simpl. by rewrite list_insert_insert_eq.
    + by eapply same_frame_trans.
    + congruence.
    + congruence.
    + exists v. split; [done|]. change (flit.is_head (flit.set_route _ f)) with (flit.is_head f). rewrite Hhd.
      split; [done|]. simpl. destruct (risk && _); [by apply (routes_tagged (Routes := Hroute))|done].
  - destruct (record_injection_spec r i u f Hu Hh) as [st ->]. cbn [mbind res_bind].
    rewrite unjudged by done. exists (u <| InputUnit.HR := noted u f |>). split; [|done]. split; try done. by apply noted_inv.
Qed.

End variants.

(** ** The units *)

(** The bodies [InputStruct] selects, but for TDMA. *)
Inductive InputStruct := Original | Resister | OriValiant.

Definition input_wakeup (net : NetParams) (now junk : Z) (v : InputStruct)
    : Z -> Router.t -> Globals -> res (Router.t * Globals) :=
  match v with
  | Original => wakeup_ori net now
  | Resister => wakeup_resister net now junk false
  | OriValiant => wakeup_valiant net now
  end.

Lemma wakeup_resister_with net now junk i r g : wakeup_resister net now junk false i r g =
  wakeup_with net now (prep_resister net now junk) true i r g.
Proof.
  unfold wakeup_resister, wakeup_with, prep_resister. destruct (link_ready now i r) as [[]|]; [|done..].
  cbn [mbind res_bind negb]. destruct (consume i r) as [[f r1]|]; [|done]. cbn [mbind res_bind].
  by destruct (vget (m_input_unit r1) i).
Qed.

Lemma wakeup_valiant_with net now i r g : wakeup_valiant net now i r g =
  wakeup_with net now prep_valiant false i r g.
Proof.
  unfold wakeup_valiant, wakeup_with, prep_valiant. destruct (link_ready now i r) as [[]|]; [|done..].
  cbn [mbind res_bind negb]. destruct (consume i r) as [[f r1]|]; [|done]. cbn [mbind res_bind].
  destruct (vget (m_input_unit r1) i); [|done]. cbn [mbind res_bind]. by destruct (_ && _).
Qed.

Lemma input_wakeup_spec net now id n junk Rt J v r g i u : Routes net now id n Rt J ->
  0 <= now -> getCycle now < 2 ^ 31 ->
  in_inv net now id n r -> unit_at r i u -> arrival_ok now Rt r u -> J (rstate r g) ->
  safe (input_wakeup net now junk v i r g) (fun '(r', g') => took net now id n J r i u r' g').
Proof.
  intros HR Hnow Hshort Hinv Hu Harr HJ. destruct v; simpl.
  - apply (wakeup_with_spec net now id n Rt J HR (fun k => k) prep_ori false r g i u); try done.
    apply (prep_ori_spec net now id n Rt J).
  - rewrite wakeup_resister_with. apply (wakeup_with_spec net now id n Rt J HR (fun k => k) (prep_resister net now junk) true r g i u); try done.
    by apply (prep_resister_spec net now id n junk Rt J HR).
  - rewrite wakeup_valiant_with. apply (wakeup_with_spec net now id n Rt J HR (fun k => k) prep_valiant false r g i u); try done.
    apply (prep_valiant_spec net now id n Rt J HR).
Qed.
