(* ===== verification/RouterCycle.v ===== *)
(** * RouterCycle: one cycle of a router as a whole

    [Router::wakeup] with the unmodified input units: when the links keep
    the protocol, the cycle fails no assertion, keeps the router
    well-formed, loses and duplicates no flit, and leaves its crossbar empty. *)

From stdpp Require Import gmultiset.
From S2P Require Import Prelude NetDest CommonTypes Flit Channels Detector DetectorProofs RoutingUnit Clock Link Units.
From S2P Require Import Router SwitchAlloc InputWakeup RouterWakeup UnitLemmas SwitchProofs SwitchSafe.
From S2P Require Import FlitBag Crossbar InputProofs InputVariants.
Import Router.

Section cycle.
Context (net : NetParams) (now : Z).

(** ** Credits *)

(** The credit an output unit takes in this cycle. *)
Definition credit_waiting (ou : OutputUnit.t) : list flit.t :=
  match flitBuffer.m_buffer (NetworkLink.linkBuffer (OutputUnit.m_credit_link ou)) with
  | f :: _ => if flit.m_time f <=? now then [f] else []
  | [] => []
  end.

(** A credit is for a channel with a slot in use, and frees a channel only
    after the packet that owned it has left. *)
Definition credit_ok (r : Router.t) (o : Z) (ou : OutputUnit.t) : Prop :=
  forall f, credit_waiting ou = [f] -> exists free ovc, flit.m_is_free f = Some free /\
    out_vc ou (flit.m_vc f) ovc /\
    OutVcState.m_credit_count ovc < OutVcState.m_max_credit_count ovc /\
    (free = true -> forall i invc, ~ claims r i invc o (flit.m_vc f)).

Definition out_wakes (r : Router.t) : Prop :=
  Forall (fun ou => Consumer.wf (em r) now (OutputUnit.consumer ou)) (m_output_unit r).

(** The unit after the credit. *)
Record credited (r : Router.t) (o : Z) (ou ou' : OutputUnit.t) : Prop := {
  cd_ok : out_ok (m_virtual_networks r) ou';
  cd_wake : Consumer.waking (em r) now (OutputUnit.consumer ou');
  cd_wf : Consumer.wf (em r) now (OutputUnit.consumer ou) -> Consumer.wf (em r) now (OutputUnit.consumer ou');
  cd_queue : queue_flits ou' = queue_flits ou;
  cd_owned : forall c ovc, out_vc ou c ovc -> OutVcState.isInState ACTIVE_ now ovc = true ->
    (exists i invc, claims r i invc o c) -> exists ovc', out_vc ou' c ovc' /\ OutVcState.isInState ACTIVE_ now ovc' = true;
}.

(** The new state of the channel. *)
Definition freed (free : bool) (ovc : OutVcState.t) : OutVcState.t :=
  let ovc := ovc <| OutVcState.m_credit_count := OutVcState.m_credit_count ovc + 1 |> in
  if free then OutVcState.setState IDLE_ now ovc else ovc.

Lemma credited_insert r o ou vc ovc free link c : out_ok (m_virtual_networks r) ou -> out_vc ou vc ovc ->
  OutVcState.m_credit_count ovc < OutVcState.m_max_credit_count ovc -> (free = true -> forall i invc, ~ claims r i invc o vc) ->
  Consumer.waking (em r) now c ->
  (Consumer.wf (em r) now (OutputUnit.consumer ou) -> Consumer.wf (em r) now c) ->
  credited r o ou (ou <| OutputUnit.m_credit_link := link |>
    <| OutputUnit.outVcState := <[Z.to_nat vc := freed free ovc]> (OutputUnit.outVcState ou) |>
    <| OutputUnit.consumer := c |>).
Proof.
  intros (Hp & Hl & Hv) Hovc Hcr Hfree Hwk Hwf. pose proof (Hv _ _ Hovc) as [[Hc0 Hc1] _].
  pose proof Hovc as [Hvc0 Hlk]. pose proof (lookup_lt_Some _ _ _ Hlk) as Hlt.
  split; try done.
  - split_and!; [done|simpl; by rewrite zlength_insert|].
    intros k o' [Hk Ho']. simpl in Ho'. destruct (decide (k = vc)) as [->|Hne].
    + rewrite list_lookup_insert_eq in Ho' by done. injection Ho' as <-.
      unfold OutVcState.wf, freed. destruct free; simpl; lia.
    + rewrite list_lookup_insert_ne in Ho' by lia. by apply (Hv k).
  - intros k o' [Hk Ho'] Hact Hown. unfold out_vc. simpl. destruct (decide (k = vc)) as [->|Hne].
    + rewrite list_lookup_insert_eq by done. eexists. split; [done|].
      rewrite Hlk in Ho'. injection Ho' as <-. destruct free; [|done].
      destruct Hown as (i & invc & Hown). by destruct (Hfree eq_refl i invc).
    + rewrite list_lookup_insert_ne by lia. eauto.
Qed.

Lemma credit_waiting_spec ou :
  (credit_waiting ou = [] /\ NetworkLink.isReady now (OutputUnit.m_credit_link ou) = false) \/
  exists f l, credit_waiting ou = [f] /\ NetworkLink.isReady now (OutputUnit.m_credit_link ou) = true /\
    flitBuffer.m_buffer (NetworkLink.linkBuffer (OutputUnit.m_credit_link ou)) = f :: l.
Proof.
  unfold credit_waiting, NetworkLink.isReady, flitBuffer.isReady.
  destruct (flitBuffer.m_buffer _) as [|f l]; [by left|].
  destruct (flit.m_time f <=? now); [right; eauto|by left].
Qed.

Lemma credit_state_safe (free : bool) vc ovc ou : out_vc ou vc ovc ->
  OutVcState.m_credit_count ovc < OutVcState.m_max_credit_count ovc ->
  (u ← OutputUnit.increment_credit vc ou;
   if free then OutputUnit.set_vc_state IDLE_ vc now u else Ok u) =
  Ok (ou <| OutputUnit.outVcState := <[Z.to_nat vc := freed free ovc]> (OutputUnit.outVcState ou) |>).
Proof.
  intros Ho Hcr. pose proof (proj1 (out_vc_vget _ _ _) Ho) as Hv. pose proof (vget_bound _ _ _ Hv) as Hb.
  unfold OutputUnit.increment_credit, valterM. rewrite Hv. cbn [mbind res_bind].
  rewrite OutVcState.increment_credit_safe by done. cbn [mbind res_bind].
  unfold vset. rewrite decide_True by done. cbn [mbind res_bind]. destruct free; [|done].
  unfold OutputUnit.set_vc_state. rewrite (valter_eq _ _ _
    (ovc <| OutVcState.m_credit_count := OutVcState.m_credit_count ovc + 1 |>)) by (by apply vget_insert_eq).
  cbn [mbind res_bind]. simpl. by rewrite list_insert_insert_eq.
Qed.

Lemma wakeup_credit_spec r o ou : out_ok (m_virtual_networks r) ou -> credit_ok r o ou ->
  clock_ok now r -> Consumer.waking (em r) now (OutputUnit.consumer ou) ->
  safe (OutputUnit.wakeup (em r) now ou) (credited r o ou).
Proof.
  intros Hok Hcr (Hclk & Hedge & _) Hwk. unfold OutputUnit.wakeup.
  destruct (credit_waiting_spec ou) as [[Hw ->]|(f & l & Hw & -> & Hl)].
  { split; try done. eauto. }
  destruct (Hcr f Hw) as (free & ovc & Hf & Hovc & Hlt & Hfree).
  unfold NetworkLink.consumeLink, flitBuffer.getTopFlit. rewrite Hl. cbn [mbind res_bind fst snd].
  set (ou1 := ou <| OutputUnit.m_credit_link := _ |>).
  pose proof (credit_state_safe free (flit.m_vc f) ovc ou1 Hovc Hlt) as Hst.
  destruct (OutputUnit.increment_credit (flit.m_vc f) ou1) as [u2|]; [|done]. cbn [mbind res_bind] in *.
  unfold Credit.is_free_signal. rewrite Hf. cbn [mbind res_bind]. rewrite Hst. cbn [mbind res_bind].
  destruct (NetworkLink.isReady now _).
  - apply safe_bind. eapply safe_mono; [by apply Consumer.scheduleEvent_safe; [..|lia]|].
    intros c Hc. simpl. apply credited_insert; try done. by apply Consumer.wf_waking.
  - simpl. pose proof (credited_insert r o ou (flit.m_vc f) ovc free (OutputUnit.m_credit_link ou1)
      (OutputUnit.consumer ou) Hok Hovc Hlt Hfree Hwk (fun H => H)) as Hc. by destruct ou.
Qed.

(** ** All output units *)

(** Every channel of the router is well-formed with respect to [outs]. *)
Definition channels_ok (r : Router.t) (outs : list OutputUnit.t) : Prop :=
  Forall (fun u => Forall (vc_ok now outs) (InputUnit.virtualChannels u)) (m_input_unit r).

Record credits_taken (r : Router.t) (j : Z) (outs : list OutputUnit.t) : Prop := {
  ct_len : length outs = length (m_output_unit r);
  ct_above : forall k, j <= k -> vget outs k = vget (m_output_unit r) k;
  ct_ok : Forall (out_ok (m_virtual_networks r)) outs;
  ct_wake : Forall (fun ou => Consumer.wf (em r) now (OutputUnit.consumer ou)) outs;
  ct_queue : bag_of (outs ≫= queue_flits) = bag_of (m_output_unit r ≫= queue_flits);
  ct_vcs : channels_ok r outs;
}.

Lemma credited_channels r outs o ou ou' : channels_ok r outs -> vget outs o = Ok ou ->
  credited r o ou ou' -> channels_ok r (<[Z.to_nat o := ou']> outs).
Proof.
  intros Hall Ho Hcd. unfold channels_ok in *. apply list.Forall_forall. intros u Hu.
  apply list_elem_of_lookup in Hu as [i Hi]. pose proof (Forall_lookup_1 _ _ _ _ Hall Hi) as Hvs.
  apply list.Forall_forall. intros v Hv. apply list_elem_of_lookup in Hv as [k Hk].
  destruct (Forall_lookup_1 _ _ _ _ Hvs Hk) as (Ha & Ht & Hvo). split_and!; [done..|].
  intros Hst. destruct (Hvo Hst) as (ou0 & Hou0 & Hc). pose proof (vget_bound _ _ _ Ho) as Hob.
  destruct (decide (VirtualChannel.m_output_port v = o)) as [Hp|Hne].
  - rewrite Hp in *. rewrite Ho in Hou0. injection Hou0 as <-. exists ou'.
    split; [by apply vget_insert_eq|]. destruct Hc as [?|(ovc & Hovc & Hact)]; [by left|right].
    eapply (cd_owned _ _ _ _ Hcd); try done. exists (Z.of_nat i), (Z.of_nat k), u, v.
    split_and!; try done. split; apply vget_Ok; rewrite Nat2Z.id; (split; [lia|done]).
  - exists ou0. split; [|done]. pose proof (vget_bound _ _ _ Hou0). by rewrite vget_insert_ne by lia.
Qed.

Lemma wakeup_outputs_spec r : clock_ok now r -> outputs_ok r -> out_wakes r ->
  channels_ok r (m_output_unit r) ->
  (forall o ou, vget (m_output_unit r) o = Ok ou -> credit_ok r o ou) ->
  safe (for_ (length (m_output_unit r)) 0 (wakeup_output now) r) (fun r' => exists outs,
    r' = r <| m_output_unit := outs |> /\ credits_taken r (zlength (m_output_unit r)) outs).
Proof.
  intros Hclk Hout Hwk Hch Hcr.
  eapply safe_mono; [apply (safe_for (fun j r' => exists outs,
    r' = r <| m_output_unit := outs |> /\ credits_taken r j outs))|].
  - exists (m_output_unit r). split; [by destruct r|]. by split.
  - intros j r' Hj (outs & -> & [Hlen Hab Hok Hw Hq Hvs]).
    destruct (vget_range (m_output_unit r) j) as [ou Hou]; [unfold zlength; lia|].
    pose proof Hou as Hou'. rewrite <- Hab in Hou' by lia. unfold wakeup_output. simpl.
    rewrite Hou'. cbn [mbind res_bind]. apply safe_bind.
    eapply safe_mono; [apply (wakeup_credit_spec r j ou);
      [by apply (Forall_vget _ _ _ _ Hok Hou')|by apply Hcr|done|by apply Consumer.wf_waking, (Forall_vget _ _ _ _ Hw Hou')]|].
    intros ou' Hcd. rewrite setOutputUnit_eq by (by eapply vget_bound). simpl.
    eexists. split; [done|]. destruct (vget_Ok outs j ou) as [[_ Hlk] _]; [done|]. split.
    + by rewrite length_insert.
    + intros k Hk. rewrite vget_insert_ne by lia. apply Hab. lia.
    + apply Forall_insert; [done|apply Hcd].
    + apply Forall_insert; [done|]. apply (cd_wf _ _ _ _ Hcd). by apply (Forall_vget _ _ _ _ Hw Hou').
    + rewrite <- Hq. apply (bag_of_insert_same _ _ _ ou); [done|]. by rewrite (cd_queue _ _ _ _ Hcd).
    + by eapply credited_channels.
  - intros r' H. by rewrite Z.add_0_l in H.
Qed.

End cycle.

(** ** All input units *)

Section inputs.
Context (net : NetParams) (now id n junk : Z) (struct : InputStruct).
Context (Rt : RouteInfo -> Z -> PortDirection -> Prop) (J : RState -> Prop) (Hroute : Routes net now id n Rt J).
Context (Hnow : 0 <= now) (Hshort : getCycle now < 2 ^ 31).

Record arrivals_taken (r : Router.t) (j : Z) (r' : Router.t) (g' : Globals) : Prop := {
  at_inv : in_inv net now id n r';
  at_J : J (rstate r' g');
  at_frame : same_frame r r';
  at_len : length (m_input_unit r') = length (m_input_unit r);
  at_above : forall k, 0 <= j <= k -> vget (m_input_unit r') k = vget (m_input_unit r) k;
  at_bag : router_bag r' = router_bag r ⊎ bag_of (take (Z.to_nat j) (m_input_unit r) ≫= waiting now);
  at_claims : no_new_claims r r';
  at_links : forall k u, 0 <= k < j -> vget (m_input_unit r) k = Ok u -> exists u',
    vget (m_input_unit r') k = Ok u' /\ link_flits u = waiting now u ++ link_flits u';
}.

Lemma arrivals_step r j r1 g1 u r2 g2 : 0 <= j -> vget (m_input_unit r) j = Ok u ->
  arrivals_taken r j r1 g1 -> took net now id n J r1 j u r2 g2 -> arrivals_taken r (j + 1) r2 g2.
Proof.
  intros Hj Hu [Hinv HJ Hfr Hlen Hab Hbag Hown Hlk] [Hinv' HJ' Hfr' Hlen' Hoth Hbag' Hown' Hlk'].
  split; try done.
  - by eapply same_frame_trans.
  - congruence.
  - intros k Hk. rewrite Hoth by lia. apply Hab. lia.
  - apply vget_Ok in Hu as [_ Hu]. rewrite Hbag', Hbag.
    replace (Z.to_nat (j + 1)) with (S (Z.to_nat j)) by lia. erewrite take_S_r by done.
    rewrite bind_app, bag_of_app. change ([u] ≫= waiting now) with (waiting now u ++ []).
    rewrite app_nil_r. by rewrite (assoc_L (⊎)).
  - by eapply no_new_claims_trans.
  - intros k w Hk Hw. destruct (decide (k = j)) as [->|Hne]; [by rewrite Hu in Hw; injection Hw as <-|].
    destruct (Hlk k w) as (w' & Hw' & He); [lia|done|]. exists w'. by rewrite Hoth by lia.
Qed.

Lemma wakeup_inputs_spec r g : in_inv net now id n r -> J (rstate r g) ->
  (forall i u, vget (m_input_unit r) i = Ok u -> arrival_ok now Rt r u) ->
  safe (for_ (length (m_input_unit r)) 0 (fun i '(r, g) => input_wakeup net now junk struct i r g) (r, g))
    (fun '(r', g') => arrivals_taken r (zlength (m_input_unit r)) r' g').
Proof.
  intros Hinv HJ Harr.
  eapply safe_mono; [apply (safe_for (fun j '(r', g') => arrivals_taken r j r' g'))|].
  - split; try done; [|by intros ? ? ? ?|intros; lia]. by rewrite bag_nil.
  - intros j [r1 g1] Hj Hat. destruct (vget_range (m_input_unit r) j) as [u Hu]; [unfold zlength; lia|].
    eapply safe_mono; [apply (input_wakeup_spec net now id n junk Rt J struct r1 g1 j u Hroute Hnow Hshort)|].
    + apply Hat.
    + unfold unit_at. rewrite (at_above _ _ _ _ Hat) by lia. done.
    + intros f Hf. rewrite (sf_width _ _ (at_frame _ _ _ _ Hat)). by apply (Harr j).
    + apply Hat.
    + intros [r2 g2] Htk. apply (arrivals_step r j r1 g1 u r2 g2); [lia|done..].
  - intros [r' g'] H. by rewrite Z.add_0_l in H.
Qed.

End inputs.

(** ** What allocation leaves alone *)

Section alloc.
Context (net : NetParams) (now : Z).

Lemma grant_step_units r r' : grant_step net now r r' -> units_ok r -> out_wakes now r ->
  units_ok r' /\ out_wakes now r'.
Proof.
  intros (Hs & Hin & Hout & i & invc & outport & Hg) [Hlat Hun] Hwk.
  destruct Hg as [u v ou o f l b c [Hu Hv] [Hfl _] Hp Ho Hgo Hcr Hal Hb Hins Houts Hbufs []].
  assert (Hkeep : forall w, unit_ok r w -> unit_ok r' w) by (intros w []; split; congruence).
  split; [split; [by rewrite sc_latency|]|].
  - rewrite Hins. eapply list.Forall_impl; [|exact Hkeep]. apply Forall_insert; [done|].
    pose proof (Forall_vget _ _ _ _ Hun Hu) as []. split; try done. simpl.
    apply Forall_insert; [done|]. unfold vc_after. destruct (flit.is_tail f); [done|].
    intros Hid. exfalso. destruct (Forall_vget _ _ _ _ Hin Hu) as [_ Hall].
    destruct (Forall_vget _ _ _ _ Hall Hv) as [Hact _]. destruct (Hact ltac:(by rewrite Hfl)) as [Ha _].
    change ((VirtualChannel.m_vc_state v).1 = IDLE_) in Hid. congruence.
  - unfold out_wakes. rewrite Houts, sc_em. apply Forall_insert; [done|].
    by apply (Forall_vget _ _ _ _ Hwk Ho).
Qed.

Lemma sa_trace_units r r' : sa_trace net now r r' -> units_ok r -> out_wakes now r ->
  units_ok r' /\ out_wakes now r'.
Proof.
  intros (s1 & s2 & c & r2 & Hrtc & ->) Hun Hwk.
  assert (H2 : units_ok r2 /\ out_wakes now r2).
  { assert (Hun1 : units_ok (r <| switchAllocator := s1 |>)).
    { destruct Hun as [Hl Hu]. split; [done|]. eapply list.Forall_impl; [exact Hu|]. intros w []. by split. }
    assert (Hwk1 : out_wakes now (r <| switchAllocator := s1 |>)) by done.
    clear Hun Hwk. induction Hrtc as [|x y z Hxy _ IH]; [done|].
    destruct (grant_step_units x y Hxy Hun1 Hwk1). by apply IH. }
  destruct H2 as [[Hl Hu] Hw]. split; [|done]. split; [done|].
  eapply list.Forall_impl; [exact Hu|]. intros w []. by split.
Qed.

(** A channel that is free belongs to no packet. *)
Lemma free_unclaimed r ou vnet outport outvc : inputs_ok now r -> vget (m_output_unit r) outport = Ok ou ->
  free_vc now vnet ou outvc -> outvc <> -1 -> forall j jvc, ~ claims r j jvc outport outvc.
Proof.
  intros Hin Ho (_ & o & Hoc & Hidle) Hne j jvc (w & x & [Hw Hx] & Hst & Hpo & Hvc).
  destruct (Forall_vget _ _ _ _ Hin Hw) as [_ Hall]. destruct (Forall_vget _ _ _ _ Hall Hx) as (_ & _ & Hout).
  destruct (Hout Hst) as (ou' & Hou' & Hcase). rewrite Hpo, Ho in Hou'. injection Hou' as <-.
  rewrite Hvc in Hcase. destruct Hcase as [?|(o' & Hoc' & Hact)]; [done|].
  rewrite (out_vc_fun _ _ _ _ Hoc' Hoc) in Hact. unfold OutVcState.isInState in *.
  apply andb_prop in Hact as [Ha%bool_decide_eq_true _]. apply andb_prop in Hidle as [Hi%bool_decide_eq_true _].
  congruence.
Qed.

Lemma grant_exclusive r r' : grant_step net now r r' -> exclusive r -> exclusive r'.
Proof.
  intros (Hs & Hin & Hout & i & invc & outport & Hg) Hx.
  destruct Hg as [u v ou o f l b outvc [Hu Hv] [Hfl _] Hp Ho Hgo Hcr Hal Hb Hins Houts Hbufs _].
  pose proof (vget_bound _ _ _ Hu) as Hub. pose proof (vget_bound _ _ _ Hv) as Hvb.
  assert (Hact : VirtualChannel.get_state v = ACTIVE_).
  { destruct (Forall_vget _ _ _ _ Hin Hu) as [_ Hall]. destruct (Forall_vget _ _ _ _ Hall Hv) as [Ha _].
    by destruct (Ha ltac:(by rewrite Hfl)). }
  assert (Hold : forall j jvc p c, claims r' j jvc p c -> claims r j jvc p c \/
    (j = i /\ jvc = invc /\ p = outport /\ c = outvc /\ VirtualChannel.m_output_vc v = -1)).
  { intros j jvc p c (w & x & [Hw Hx'] & Hst & Hpo & Hvc). rewrite Hins in Hw.
    apply vget_insert in Hw as [[-> ->]|[Hne Hw]]; [|left; by exists w, x|done].
    apply (vget_insert (InputUnit.virtualChannels u)) in Hx' as [[-> ->]|[Hne Hx']]; [|left; by exists u, x|done].
    revert Hst Hpo Hvc. unfold vc_after. destruct (flit.is_tail f); [done|]. simpl. intros _ Hpo Hvc.
    destruct (decide (VirtualChannel.m_output_vc v = -1)); [right; split_and!; congruence|].
    left. exists u, v. split_and!; [by split|done|congruence..]. }
  assert (Hnew : VirtualChannel.m_output_vc v = -1 -> outvc <> -1 -> forall j jvc, ~ claims r j jvc outport outvc).
  { intros Hv1. rewrite decide_True in Hal by done. by eapply free_unclaimed. }
  intros i1 vc1 i2 vc2 p c Hc [H1|(-> & -> & -> & -> & E1)]%Hold [H2|(-> & -> & ? & ? & E2)]%Hold.
  - by eapply Hx.
  - subst. by destruct (Hnew E2 Hc i1 vc1).
  - by destruct (Hnew E1 Hc i2 vc2).
  - done.
Qed.

Lemma sa_trace_exclusive r r' : sa_trace net now r r' -> exclusive r -> exclusive r'.
Proof.
  intros (s1 & s2 & c & r2 & Hrtc & ->) Hx.
  assert (Hx1 : exclusive (r <| switchAllocator := s1 |>)) by exact Hx.
  enough (exclusive r2) by done. clear Hx.
  induction Hrtc as [|x y z Hxy _ IH]; [done|]. by eapply IH, grant_exclusive.
Qed.

(** The crossbar is empty between two cycles. *)
Definition xbar_empty (r : Router.t) : Prop :=
  Forall (fun b => flitBuffer.m_buffer b = []) (CrossbarSwitch.switchBuffers (crossbarSwitch r)).

Lemma transfers_ready r r' gs : shape_ok net r -> xbar_empty r -> transfers now r r' gs ->
  zlength (m_output_unit r') = zlength (m_output_unit r) ->
  Forall (ready_buffer now (zlength (m_output_unit r'))) (CrossbarSwitch.switchBuffers (crossbarSwitch r')).
Proof.
  intros Hs Hemp Htr Hlen. apply list.Forall_forall. intros b Hb.
  apply list_elem_of_lookup in Hb as [k Hk].
  assert (Hbk : vget (CrossbarSwitch.switchBuffers (crossbarSwitch r')) (Z.of_nat k) = Ok b)
    by (apply vget_Ok; rewrite Nat2Z.id; split; [lia|done]).
  unfold ready_buffer. rewrite Hlen.
  destruct (decide (Z.of_nat k ∈ inports gs)) as [Hin|Hno].
  - apply list_elem_of_fmap in Hin as ([[i invc] o] & Hi & Hin). simpl in Hi.
    destruct (tr_moved _ _ _ _ Htr i invc o Hin) as [Hc (u & v & f & l & b0 & c & Hvc & Hh & Hp & Hb0 & Hb1 & _)].
    rewrite <- Hi, Hbk in Hb1. injection Hb1 as ->.
    pose proof (Forall_vget _ _ _ _ Hemp Hb0) as He. simpl in He. simpl. rewrite He. simpl.
    destruct Hh as (_ & Ht & _). split_and!; [done| |].
    + unfold flit.is_stage. simpl. by rewrite Z.leb_refl.
    + exists o. split; [done|]. by apply (can_send_port now r i invc).
  - destruct (tr_others _ _ _ _ Htr _ Hno) as [_ Hsame]. rewrite Hbk in Hsame.
    symmetry in Hsame. by rewrite (Forall_vget _ _ _ _ Hemp Hsame).
Qed.

End alloc.

(** ** The cycle *)

Record cycle_ok (net : NetParams) (now id n : Z) (r : Router.t) : Prop := {
  cy_router : router_ok net now r;
  cy_idle : idle_requests r;
  cy_units : units_ok r;
  cy_wakes : out_wakes now r;
  cy_xbar : xbar_empty r;
  cy_id : m_id r = id;
  cy_n : zlength (m_output_unit r) = n;
  cy_buf : buf_ok n r;
  cy_hist : Forall (fun u => hist_inv now (InputUnit.HR u)) (m_input_unit r);
}.

Lemma cycle_in_inv net now id n r : cycle_ok net now id n r -> in_inv net now id n r.
Proof. intros [(? & ? & ? & ? & ?) ? ? ? ? ? ? ? ?]. by split. Qed.

Lemma sa_trace_config net now r r' : sa_trace net now r r' ->
  zlength (m_output_unit r') = zlength (m_output_unit r) /\ m_id r' = m_id r /\
  routingUnit r' = routingUnit r /\ outBuf r' = outBuf r.
Proof.
  intros (s1 & s2 & c & r2 & Hrtc & ->). simpl.
  enough (zlength (m_output_unit r2) = zlength (m_output_unit (r <| switchAllocator := s1 |>)) /\
          m_id r2 = m_id (r <| switchAllocator := s1 |>) /\
          routingUnit r2 = routingUnit (r <| switchAllocator := s1 |>) /\
          outBuf r2 = outBuf (r <| switchAllocator := s1 |>)) by done.
  induction Hrtc as [|x y z (_ & _ & _ & i & invc & o & Hg) _ (IH1 & IH2 & IH3 & IH4)]; [done|].
  rewrite IH1, IH2, IH3, IH4. destruct Hg as [? ? ? ? ? ? ? ? ? ? ? ? ? ? ? ? ? Houts ? []].
  by rewrite Houts, zlength_insert.
Qed.

(** What a grant leaves alone in every input unit. *)
Lemma sa_trace_map {A} (k : InputUnit.t -> A) net now r r' :
  (forall invc f v u, k (unit_after now invc f v u) = k u) -> sa_trace net now r r' ->
  k <$> m_input_unit r' = k <$> m_input_unit r.
Proof.
  intros Hk (s1 & s2 & c & r2 & Hrtc & ->).
  change (k <$> m_input_unit r2 = k <$> m_input_unit (r <| switchAllocator := s1 |>)).
  induction Hrtc as [|x y z (_ & _ & _ & i & invc & o & Hg) _ IH]; [done|].
  rewrite IH. destruct Hg as [u ? ? ? f ? ? ? [Hu _] ? ? ? ? ? ? ? Hins ? ? ?].
  rewrite Hins, list_fmap_insert, Hk. apply list_insert_id. rewrite list_lookup_fmap.
  by apply vget_Ok in Hu as [_ ->].
Qed.

Lemma sa_trace_hist net now r r' : sa_trace net now r r' ->
  Forall (fun u => hist_inv now (InputUnit.HR u)) (m_input_unit r) ->
  Forall (fun u => hist_inv now (InputUnit.HR u)) (m_input_unit r').
Proof.
  intros Htr Hh. apply (Forall_fmap InputUnit.HR (hist_inv now)).
  rewrite (sa_trace_map InputUnit.HR net now r r') by done. by apply Forall_fmap.
Qed.

Lemma crossing_ok net now id n r r' : router_ok net now r -> idle_requests r -> units_ok r ->
  out_wakes now r -> m_id r = id -> zlength (m_output_unit r) = n -> buf_ok n r ->
  Forall (fun u => hist_inv now (InputUnit.HR u)) (m_input_unit r) ->
  crossing now r r' (zlength (CrossbarSwitch.switchBuffers (crossbarSwitch r))) -> cycle_ok net now id n r'.
Proof.
  intros (Hs & Hp & Hin & Hout & Hclk) Hidle [Hlat Hun] Hwk Hid Hn Hbuf Hh Hc. destruct Hc.
  pose proof cr_config as [].
  assert (Hlo : zlength (m_output_unit r') = zlength (m_output_unit r))
    by (unfold zlength; by rewrite (list.Forall2_length _ _ _ cr_outs)).
  split; [split_and!|..].
  - destruct Hs. split; rewrite ?cr_sa, ?cr_in, ?Hlo, ?sc_vnets, ?sc_per, ?sc_vcs; try done.
    unfold zlength in *. by rewrite cr_len.
  - unfold pointers_ok. rewrite cr_sa, cr_in, sc_vcs. done.
  - unfold inputs_ok. rewrite cr_in, sc_vcs. eapply list.Forall_impl; [exact Hin|].
    intros u [Hl Hall]. split; [done|]. eapply list.Forall_impl; [exact Hall|].
    intros v. apply same_state_vc_ok. eapply list.Forall2_impl; [exact cr_outs|]. apply same_vcs_state.
  - unfold outputs_ok. rewrite sc_vnets. apply list.Forall_forall. intros ou' Hou'.
    apply list_elem_of_lookup in Hou' as [k Hk].
    destruct (Forall2_lookup_r _ _ _ _ _ cr_outs Hk) as (ou & Hou & Hsq).
    eapply same_state_out_ok; [by apply same_vcs_state|]. by apply (Forall_lookup_1 _ _ _ _ Hout Hou).
  - unfold clock_ok. by rewrite sc_em, sc_consumer.
  - intros i Hi. rewrite cr_sa. apply Hidle. by rewrite <- cr_in.
  - split; [by rewrite sc_latency|]. rewrite cr_in. eapply list.Forall_impl; [exact Hun|].
    intros w []. split; congruence.
  - unfold out_wakes. apply list.Forall_forall. intros ou' Hou'.
    apply list_elem_of_lookup in Hou' as [k Hk].
    destruct (Forall2_lookup_r _ _ _ _ _ cr_outs Hk) as (ou & Hou & Hsq).
    rewrite (sq_cons _ _ Hsq), sc_em. by apply (Forall_lookup_1 _ _ _ _ Hwk Hou).
  - apply list.Forall_forall. intros b Hb. apply list_elem_of_lookup in Hb as [k Hk].
    apply (cr_below (Z.of_nat k) b); [|apply vget_Ok; rewrite Nat2Z.id; split; [lia|done]].
    pose proof (lookup_lt_Some _ _ _ Hk). unfold zlength. lia.
  - congruence.
  - congruence.
  - unfold buf_ok. by rewrite sc_outBuf.
  - by rewrite cr_in.
Qed.

(** The router after arrivals and credits. *)
Lemma taken_router_ok net now id n J r r1 g1 outs : cycle_ok net now id n r ->
  arrivals_taken net now id n J r (zlength (m_input_unit r)) r1 g1 ->
  credits_taken now r1 (zlength (m_output_unit r1)) outs ->
  cycle_ok net now id n (r1 <| m_output_unit := outs |>).
Proof.
  intros [(Hs & Hp & Hin & Hout & Hclk) Hidle Hun Hwk Hx Hid Hn Hbuf Hh]
    [[Hs1 Hun1 Hin1 Hclk1 Hid1 Hn1 Hbuf1 Hh1] HJ Hfr Hlen Hab Hbag Hown _] [Hol Hoab Hok Hw Hq Hvs].
  assert (Hlo : zlength outs = zlength (m_output_unit r1)) by (unfold zlength; by rewrite Hol).
  split; [split_and!|..]; try done.
  - destruct Hs1. split; try done; simpl; by rewrite Hlo.
  - unfold pointers_ok in *. simpl. rewrite (sf_sa _ _ Hfr), (sf_vcs _ _ Hfr).
    unfold zlength in *. by rewrite Hlen.
  - unfold inputs_ok. simpl. apply list.Forall_forall. intros u Hu.
    pose proof (proj1 (list.Forall_forall _ _) Hin1 _ Hu) as [Hl _]. split; [done|].
    by apply (proj1 (list.Forall_forall _ _) Hvs).
  - intros i Hi. simpl in *. rewrite (sf_sa _ _ Hfr). apply Hidle.
    unfold zlength in *. by rewrite <- Hlen.
  - destruct Hun1 as [Hl Hu]. split; [done|]. eapply list.Forall_impl; [exact Hu|]. intros w []. by split.
  - unfold xbar_empty. simpl. by rewrite (sf_xbar _ _ Hfr).
  - simpl. lia.
Qed.

(** The links of [us] have lost what was waiting on them. *)
Definition drained (now : Z) (us us' : list InputUnit.t) : Prop :=
  Forall2 (fun u u' => link_flits u = waiting now u ++ link_flits u') us us'.

Lemma arrivals_drained net now id n J r r1 g1 :
  arrivals_taken net now id n J r (zlength (m_input_unit r)) r1 g1 -> drained now (m_input_unit r) (m_input_unit r1).
Proof.
  intros Hat. apply Forall2_same_length_lookup_2; [symmetry; apply Hat|]. intros k u u' Hu Hu'.
  pose proof (lookup_lt_Some _ _ _ Hu) as Hk.
  destruct (at_links _ _ _ _ _ _ _ _ _ Hat (Z.of_nat k) u) as (w & Hw & He).
  - unfold zlength. lia.
  - apply vget_Ok. rewrite Nat2Z.id. split; [lia|done].
  - apply vget_Ok in Hw as [_ Hw]. rewrite Nat2Z.id in Hw. congruence.
Qed.

Lemma drained_links now us us1 us2 : drained now us us1 -> link_flits <$> us2 = link_flits <$> us1 ->
  drained now us us2.
Proof.
  intros Hd. revert us2. induction Hd as [|u u' us us1 Hu Hd IH]; intros [|w us2] He; try done.
  - constructor.
  - injection He as Hw He. constructor; [by rewrite Hw|by apply IH].
Qed.

Section whole.
Context (net : NetParams) (now id n junk : Z) (struct : InputStruct).
Context (Rt : RouteInfo -> Z -> PortDirection -> Prop) (J : RState -> Prop).

(** The links keep the protocol: the flits that arrive can be taken, and
    the credits that arrive are for slots in use. *)
Definition protocol (r : Router.t) : Prop :=
  (forall i u, vget (m_input_unit r) i = Ok u -> arrival_ok now Rt r u) /\
  (forall o ou, vget (m_output_unit r) o = Ok ou -> credit_ok now r o ou).

Record cycled (r r' : Router.t) (g' : Globals) : Prop := {
  cl_ok : cycle_ok net now id n r';
  cl_J : J (rstate r' g');
  cl_bag : router_bag r' = router_bag r ⊎ bag_of (m_input_unit r ≫= waiting now);
  cl_links : drained now (m_input_unit r) (m_input_unit r');
  cl_exclusive : exclusive r -> exclusive r';
}.

Context (Hroute : Routes net now id n Rt J) (Hnow : 0 <= now) (Hshort : getCycle now < 2 ^ 31).

Lemma credit_ok_later r r1 o ou : no_new_claims r r1 ->
  credit_ok now r o ou -> credit_ok now r1 o ou.
Proof.
  intros Hown Hcr f Hf. destruct (Hcr f Hf) as (free & ovc & ? & Hovc & ? & Hfree).
  exists free, ovc. split_and!; [done..|]. intros Ht i invc Ho. apply (Hfree Ht i invc), Hown; [|done].
  destruct Hovc. lia.
Qed.

(** Allocation and traversal, once arrivals and credits are in. *)
Lemma switch_spec r g : cycle_ok net now id n r -> J (rstate r g) ->
  safe (r ← sa_wakeup net now r; r ← xbar_wakeup now r; Ok (r, g)) (fun '(r', g') =>
    cycle_ok net now id n r' /\ J (rstate r' g') /\ router_bag r' = router_bag r /\
    link_flits <$> m_input_unit r' = link_flits <$> m_input_unit r /\ (exclusive r -> exclusive r')).
Proof.
  intros [Hok Hidle Hun Hwk Hx Hid Hn Hbuf Hh] HJ. apply safe_bind.
  eapply safe_mono; [by apply sa_wakeup_spec|]. intros r3 (Hok3 & Hid3 & Htr & gs & Htrs & _).
  destruct (sa_trace_units net now r r3 Htr Hun Hwk) as [Hun3 Hwk3].
  destruct (sa_trace_config net now r r3 Htr) as (Hn3 & Hi3 & Hru3 & Hob3).
  pose proof (sa_trace_hist net now r r3 Htr Hh) as Hh3.
  apply safe_bind. eapply safe_mono; [apply (xbar_wakeup_spec now r3)|].
  { eapply (transfers_ready net now r r3 gs); [apply Hok|done..]. }
  intros r4 Hcx. pose proof (cr_config _ _ _ _ Hcx) as Hcf. simpl. split_and!.
  - eapply (crossing_ok net now id n r3); try done; [congruence..|]. unfold buf_ok. by rewrite Hob3.
  - unfold rstate. by rewrite (sc_routing _ _ Hcf), Hru3.
  - by rewrite (cr_bag _ _ _ _ Hcx), (sa_trace_bag net now r r3 Htr).
  - rewrite (cr_in _ _ _ _ Hcx). by eapply sa_trace_map.
  - intros Hx0. pose proof (sa_trace_exclusive net now r r3 Htr Hx0) as Hx3. unfold exclusive, claims, in_vc in *.
    by rewrite (cr_in _ _ _ _ Hcx).
Qed.

Lemma router_wakeup_spec r g : cycle_ok net now id n r -> protocol r -> J (rstate r g) ->
  safe (router_wakeup net now (input_wakeup net now junk struct) r g) (fun '(r', g') => cycled r r' g').
Proof.
  intros Hcy [Harr Hcr] HJ. pose proof Hcy as [(Hs & Hp & Hin & Hout & Hclk) Hidle Hun Hwk Hx Hid Hn Hbuf Hh].
  unfold router_wakeup, clockEdge. pose proof Hclk as (Hcw & Hedge & Hcons).
  rewrite Hedge, Z.eqb_refl. cbn [assert mbind res_bind]. apply safe_bind.
  eapply safe_mono; [by apply (wakeup_inputs_spec net now id n junk struct Rt J Hroute Hnow Hshort r g)|].
  intros [r1 g1] Hat. pose proof Hat as [Hinv1 HJ1 Hfr Hlen _ Hbag1 Hown _]. pose proof Hinv1 as [].
  apply safe_bind. eapply safe_mono; [apply (wakeup_outputs_spec now r1)|].
  - done.
  - unfold outputs_ok. by rewrite (sf_out _ _ Hfr), (sf_vnets _ _ Hfr).
  - unfold out_wakes. by rewrite (sf_out _ _ Hfr), (sf_em _ _ Hfr).
  - eapply list.Forall_impl; [exact iv_inputs|]. by intros u [_ Hu].
  - intros o ou Ho. rewrite (sf_out _ _ Hfr) in Ho. eapply credit_ok_later; [done|by apply Hcr].
  - intros r2 (outs & -> & Hct).
    eapply safe_mono; [apply (switch_spec (r1 <| m_output_unit := outs |>) g1); [by apply (taken_router_ok net now id n J r r1 g1 outs)|done]|].
    intros [r4 g4] (Hcy4 & HJ4 & Hbag4 & Hlk4 & Hx4). split; try done.
    + rewrite Hbag4. change (router_bag (r1 <| m_output_unit := outs |>)) with
        (bag_of (m_input_unit r1 ≫= unit_flits) ⊎
         bag_of (CrossbarSwitch.switchBuffers (crossbarSwitch r1) ≫= flitBuffer.m_buffer) ⊎
         bag_of (outs ≫= queue_flits)).
      rewrite (ct_queue _ _ _ _ Hct). etrans; [exact Hbag1|]. by rewrite take_ge by (unfold zlength; lia).
    + eapply drained_links; [by eapply arrivals_drained|exact Hlk4].
    + intros Hx0. apply Hx4. by apply (no_new_claims_exclusive r r1).
Qed.

End whole.
