(* ===== verification/SwitchTheorems.v ===== *)
(** * SwitchTheorems: what switch allocation guarantees

    A router that was assembled and initialised is well-formed; on a
    well-formed router one cycle of allocation fails no assertion, uses
    every input and output port at most once, and leaves no output port
    unused that some input port could use. *)

From Stdlib Require Import Sorted.
From stdpp Require Import gmultiset.
From S2P Require Import Prelude NetDest CommonTypes Flit Channels Detector DetectorProofs RoutingUnit Clock Link Units.
From S2P Require Import Router SwitchAlloc InputWakeup UnitLemmas SwitchProofs SwitchSafe.
From S2P Require Import FlitBag Crossbar InputProofs InputVariants RouterCycle.
Import Router.

(** ** Construction *)

(** The calls with which the network builds a router. *)
Inductive assembled (vnets vcs : Z) (ty : Z -> res VNET_type) (bd bc : Z) : Router.t -> Prop :=
| assembled_new id latency width period : 1 <= latency -> 0 < period ->
    assembled vnets vcs ty bd bc (new id latency vnets vcs width period)
| assembled_in dirn link r r' : assembled vnets vcs ty bd bc r ->
    addInPort dirn link r = Ok r' -> assembled vnets vcs ty bd bc r'
| assembled_out dirn w table weight link consumerVcs r r' : assembled vnets vcs ty bd bc r ->
    0 < consumerVcs ->
    addOutPort dirn w table weight link consumerVcs ty bd bc r = Ok r' ->
    assembled vnets vcs ty bd bc r'.

(** The output channels of a new unit: idle, with all their credits. *)
Definition fresh_out (o : OutVcState.t) : Prop := OutVcState.wf o /\
  OutVcState.m_vc_state o = IDLE_ /\ OutVcState.m_credit_count o = OutVcState.m_max_credit_count o.

Lemma fresh_out_new id ty bd bc vcs o : OutVcState.new id ty bd bc vcs = Ok o -> fresh_out o.
Proof.
  intros H. destruct (OutVcState.OutVcState_new_wf _ _ _ _ _ _ H) as [Hwf Hid].
  split_and!; try done. unfold OutVcState.new in H. by res_inv.
Qed.

Lemma OutputUnit_new_ok id dirn vcs vnets link ty bd bc u : 0 < vcs -> 0 < vnets ->
  OutputUnit.new id dirn vcs vnets link ty bd bc = Ok u ->
  out_ok vnets u /\ OutputUnit.consumer u = Consumer.new /\ queue_flits u = [].
Proof.
  intros Hv Hn H. unfold OutputUnit.new in H. apply bind_Ok in H as (l & Hl & H). res_inv. split; [|done].
  apply (for_Ok (fun i l => zlength l = i /\ Forall fresh_out l)) in Hl as [Hlen Hall]; [|by split|].
  - unfold out_ok. simpl. split_and!; [done|unfold zlength in *; nia|].
    intros vc o [_ Ho]. simpl in Ho. apply (Forall_lookup_1 _ _ _ _ Hall) in Ho as ([Hc ?] & ? & ?).
    split; [done|lia].
  - intros j s s' _ [Hlen Hs] Hf. apply bind_Ok in Hf as (o & Ho & Hf). injection Hf as <-.
    split; [unfold zlength in *; rewrite length_app; simpl; lia|].
    apply Forall_app. split; [done|]. constructor; [by eapply fresh_out_new|done].
Qed.

(** A channel no flit has entered. *)
Lemma new_vc_ok now outs : vc_ok now outs VirtualChannel.new.
Proof. split_and!; [done|by intros f [|] l2|done]. Qed.

(** An input unit no flit has entered. *)
Record fresh_in (vnets vcs : Z) (u : InputUnit.t) : Prop := {
  fi_per : InputUnit.m_vc_per_vnet u = vcs;
  fi_vcs : InputUnit.virtualChannels u = replicate (Z.to_nat (vnets * vcs)) VirtualChannel.new;
  fi_wr : zlength (InputUnit.m_num_buffer_writes u) = vnets;
  fi_rd : zlength (InputUnit.m_num_buffer_reads u) = vnets;
  fi_hr : InputUnit.HR u = HistoryRecord.new 8;
}.

Lemma InputUnit_new_ok id dirn vnets vcs link u : 0 < vnets -> 0 < vcs ->
  InputUnit.new id dirn vcs (vnets * vcs) link = Ok u -> fresh_in vnets vcs u.
Proof.
  intros Hn Hv H. unfold InputUnit.new, cdiv in H. rewrite decide_False in H by lia.
  cbn [mbind res_bind] in H. rewrite Z.quot_mul in H by lia. injection H as <-.
  split; try done; simpl; unfold zlength; rewrite length_replicate; lia.
Qed.

(** What assembling keeps: empty channels, fresh output units, and one
    period for the clock. *)
Record parts_ok (vnets vcs : Z) (r : Router.t) : Prop := {
  po_latency : 1 <= m_latency r;
  po_vnets : m_virtual_networks r = vnets;
  po_vcs : m_vc_per_vnet r = vcs;
  po_num : m_num_vcs r = vnets * vcs;
  po_sa : SwitchAllocator.m_num_vcs (switchAllocator r) = vnets * vcs;
  po_sa_per : SwitchAllocator.m_vc_per_vnet (switchAllocator r) = vcs;
  po_in : Forall (fresh_in vnets vcs) (m_input_unit r);
  po_out : Forall (fun ou => out_ok vnets ou /\ OutputUnit.consumer ou = Consumer.new /\ queue_flits ou = [])
             (m_output_unit r);
  po_em : exists period, 0 < period /\ em r = Clocked.new period;
  po_consumer : consumer r = Consumer.new;
}.

Lemma assembled_parts vnets vcs ty bd bc r : 0 < vnets -> 0 < vcs -> assembled vnets vcs ty bd bc r ->
  parts_ok vnets vcs r.
Proof.
  intros Hn Hvc. induction 1 as [id lat w p Hl Hp|d l r r' _ [] H|d w tb wt l cv r r' _ [] Hcv H].
  - split; try done. by exists p.
  - unfold addInPort in H. case_match; [done|]. apply bind_Ok in H as (u & Hu & H). injection H as <-.
    split; try done. simpl. apply Forall_app. split; [done|]. apply Forall_singleton.
    rewrite po_vcs0, po_num0 in Hu. by eapply InputUnit_new_ok.
  - unfold addOutPort in H. case_match; [done|]. apply bind_Ok in H as (u & Hu & H).
    apply bind_Ok in H as (ru & _ & H). injection H as <-.
    split; try done. simpl. apply Forall_app. split; [done|]. apply Forall_singleton.
    rewrite po_vnets0 in Hu. by eapply OutputUnit_new_ok.
Qed.

Lemma Consumer_new_wf em now : Consumer.wf em now Consumer.new.
Proof. split; [|done]. split; constructor. Qed.

Lemma init_router net vnets vcs now k r : 0 < vnets < 2 ^ 31 -> 0 < vcs -> vnets <= zlength (m_ordered net) ->
  parts_ok vnets vcs r -> 0 < get_num_outports r -> 0 <= now -> now = k * Clocked.clockPeriod (em r) ->
  safe (init r) (fun r' => router_ok net now r' /\ idle_requests r').
Proof.
  intros Hn Hv Hord Ha Hout Hnow Hk. destruct Ha.
  unfold init, outportRecord.new. rewrite bool_decide_eq_true_2 by done. cbn [assert mbind res_bind]. unfold safe.
  destruct po_em0 as (p & Hp & Hem).
  assert (Hclk : Clocked.wf now (em r)) by (rewrite Hem; unfold Clocked.wf; simpl; lia).
  pose proof (Clocked.clockEdge_aligned now k (em r) Hclk Hk) as Hedge.
  unfold get_num_inports, get_num_outports in *.
  split; [split_and!|intros i Hi; simpl in *; apply vget_replicate; lia].
  - split; simpl; try done; try (unfold zlength in *; rewrite length_replicate); subst; try lia.
  - split; simpl; apply Forall_replicate; nia.
  - unfold inputs_ok. simpl. eapply list.Forall_impl; [done|]. intros u [_ -> _ _ _].
    split; [unfold zlength; rewrite length_replicate; nia|]. apply Forall_replicate, new_vc_ok.
  - unfold outputs_ok. simpl. rewrite po_vnets0. eapply list.Forall_impl; [done|]. by intros ou [? _].
  - split_and!; [done..|]. simpl. rewrite po_consumer0. apply Consumer.wf_waking, Consumer_new_wf.
Qed.

(** A new history. *)
Lemma hist_inv_new now : 0 <= now -> hist_inv now (HistoryRecord.new 8).
Proof.
  intros Hnow. pose proof (getCycle_pos now Hnow). split; [done|]. split.
  - repeat constructor; done.
  - change (Forall (fun e => 0 <= cycleRecieve e <= getCycle now) (replicate 8 patternEntry_new)).
    apply Forall_replicate. simpl. lia.
Qed.

Lemma bind_nil {A} (g : A -> list flit.t) l : Forall (fun x => g x = []) l -> l ≫= g = [].
Proof. induction 1 as [|x l Hx _ IH]; [done|]. cbn [mbind list_bind]. by rewrite Hx, IH. Qed.

(** No packet of a new router has an output channel. *)
Lemma fresh_unclaimed vnets vcs r : Forall (fresh_in vnets vcs) (m_input_unit r) ->
  forall i invc o c, ~ claims r i invc o c.
Proof.
  intros Hall i invc o c (u & v & [Hu Hv] & Hst & _). destruct (Forall_vget _ _ _ _ Hall Hu).
  rewrite fi_vcs0 in Hv. apply vget_Ok in Hv as [_ [-> _]%lookup_replicate]. done.
Qed.

Lemma init_ok (net : NetParams) vnets vcs ty bd bc now k r :
  0 < vnets < 2 ^ 31 -> 0 < vcs -> vnets <= zlength (m_ordered net) ->
  assembled vnets vcs ty bd bc r -> 0 < get_num_outports r ->
  0 <= now -> now = k * Clocked.clockPeriod (em r) ->
  safe (init r) (fun r' => cycle_ok net now (m_id r) (get_num_outports r) r' /\ router_bag r' = ∅ /\ exclusive r').
Proof.
  intros Hn Hv Hord Ha Hout Hnow Hk. apply assembled_parts in Ha; [|lia..].
  pose proof (init_router net vnets vcs now k r Hn Hv Hord Ha Hout Hnow Hk) as Hr. destruct Ha.
  unfold init, outportRecord.new in *. rewrite bool_decide_eq_true_2 in * by done. cbn [assert mbind res_bind] in *.
  destruct Hr as [Hok Hidle].
  assert (Hbufs : Forall (fun b => flitBuffer.m_buffer b = [])
    (replicate (Z.to_nat (get_num_inports r)) flitBuffer.new)) by (by apply Forall_replicate).
  split; [split; try done|].
  - split; [done|]. simpl. eapply list.Forall_impl; [done|]. intros u []. split; simpl; try congruence.
    rewrite fi_vcs0. by apply Forall_replicate.
  - unfold out_wakes. simpl. eapply list.Forall_impl; [done|]. intros ou (_ & -> & _). apply Consumer_new_wf.
  - split; [split; [done|by apply Forall_replicate]|]. simpl. unfold zlength. rewrite length_replicate. lia.
  - simpl. eapply list.Forall_impl; [done|]. intros u []. rewrite fi_hr0. by apply hist_inv_new.
  - split; [|intros i1 vc1 i2 vc2 o c _ Hcl; exfalso; by apply (fresh_unclaimed vnets vcs _ po_in0 i1 vc1 o c)].
    unfold router_bag. simpl. rewrite (bind_nil unit_flits), (bind_nil flitBuffer.m_buffer), (bind_nil queue_flits);
      [multiset_solver| |done|].
    + eapply list.Forall_impl; [done|]. by intros ou (_ & _ & ?).
    + eapply list.Forall_impl; [done|]. intros u []. unfold unit_flits. rewrite fi_vcs0.
      by apply bind_nil, Forall_replicate.
Qed.

(** A router that the network assembled from its ports, with at least
    one output port, initialises without a failure; the result holds no
    flit, has its output channels to give, and is ready for a cycle at every
    clock edge until its first packet arrives. *)
Theorem init_router_ok (net : NetParams) vnets vcs ty bd bc now k r :
  0 < vnets < 2 ^ 31 -> 0 < vcs -> vnets <= zlength (m_ordered net) ->
  assembled vnets vcs ty bd bc r -> 0 < get_num_outports r ->
  0 <= now -> now = k * Clocked.clockPeriod (em r) ->
  exists r', init r = Ok r' /\ cycle_ok net now (m_id r) (get_num_outports r) r' /\ router_bag r' = ∅ /\
    exclusive r'.
Proof. intros. by apply safe_inv, (init_ok net vnets vcs ty bd bc now k r). Qed.

(** ** The allocation theorems *)

(** On a well-formed router with no pending requests, one cycle of
    switch allocation returns (no assertion fails and no access is out of
    range), and leaves a well-formed router with no pending requests. *)
Theorem sa_wakeup_safe net now r : router_ok net now r -> idle_requests r ->
  exists r', sa_wakeup net now r = Ok r' /\ router_ok net now r' /\ idle_requests r'.
Proof.
  intros Hok Hidle. destruct (safe_inv _ _ (sa_wakeup_spec net now r Hok Hidle)) as (r' & -> & ? & ? & _).
  eauto.
Qed.

(** C17: in that cycle the flits that move form a matching: no input port
    and no output port appears twice.  Each one was ready, and a free
    channel or a credit was behind its output port; it leaves the head of
    its channel for the switch buffer of its port.  Ports outside the
    matching keep their channels, buffers and output state. *)
Theorem sa_wakeup_matching net now r : router_ok net now r -> idle_requests r ->
  exists r' gs, sa_wakeup net now r = Ok r' /\ transfers now r r' gs.
Proof.
  intros Hok Hidle.
  destruct (safe_inv _ _ (sa_wakeup_spec net now r Hok Hidle)) as (r' & -> & _ & _ & _ & gs & ? & _). eauto.
Qed.

(** C18: allocation wastes no cycle.  When a flit of an unordered virtual
    network can be sent from an input port, then for some output port that
    this input port has a sendable flit for, a flit goes there in this
    cycle (from this or from a competing input port). *)
Theorem sa_wakeup_work_conserving net now r i invc o : router_ok net now r -> idle_requests r ->
  0 <= i < zlength (m_input_unit r) -> 0 <= invc < m_num_vcs r ->
  isVNetOrdered net (invc / m_vc_per_vnet r) = Ok false -> can_send now r i invc o ->
  exists r' invc' o' i' invc2, sa_wakeup net now r = Ok r' /\
    can_send now r i invc' o' /\ moved now r r' i' invc2 o'.
Proof.
  intros Hok Hidle Hi Hr Hord Hc.
  destruct (safe_inv _ _ (sa_wakeup_spec net now r Hok Hidle)) as (r' & -> & _ & _ & _ & gs & Htr & Hwc).
  destruct (Hwc i invc o Hi Hr Hord Hc) as (invc' & o' & Hc' & Ho').
  apply list_elem_of_fmap in Ho' as ([[i' invc2] o2] & -> & Hin).
  exists r', invc', o2, i', invc2. split_and!; [done..|]. by apply (tr_moved _ _ _ _ Htr).
Qed.

(** ** A router with two competing packets *)

Definition demo_link : NetworkLink.t := NetworkLink.new 0 1 1 32 500 [].
Definition the {A} (d : A) (m : res A) : A := match m with Ok a => a | Err _ => d end.
Definition demo_new : Router.t := new 0 1 1 2 32 500.
Definition demo_in1 : Router.t := the demo_new (addInPort "Local" demo_link demo_new).
Definition demo_in2 : Router.t := the demo_new (addInPort "West" demo_link demo_in1).
Definition demo_assembled : Router.t := the demo_new
  (addOutPort "East" 32 [] 1 demo_link 2 (fun _ => Ok DATA_VNET_) 4 1 demo_in2).
Definition demo_ordered : NetParams := mkNet 1 2 1 [false].

Definition demo_flit : flit.t :=
  flit.advance_stage SA_ 500 (flit.new 7 0 0 0 (RouteInfo_new <| dest_router := 1 |>) 1 0 8 32 500).
Definition demo_vc : VirtualChannel.t := VirtualChannel.insertFlit demo_flit
  (VirtualChannel.set_outport 0 (VirtualChannel.set_active 500 VirtualChannel.new)).
(** A waiting packet in channel 0 of both ports, for the same output. *)
Definition demo_router : Router.t :=
  let r := the demo_assembled (init demo_assembled) in
  r <| m_input_unit := (fun u =>
    u <| InputUnit.virtualChannels := [demo_vc; VirtualChannel.new] |>) <$> m_input_unit r |>.

Lemma demo_assembled_ok : assembled 1 2 (fun _ => Ok DATA_VNET_) 4 1 demo_assembled.
Proof.
  apply (assembled_out _ _ _ _ _ "East" 32 [] 1 demo_link 2 demo_in2); [|lia|by vm_compute].
  apply (assembled_in _ _ _ _ _ "West" demo_link demo_in1); [|by vm_compute].
  apply (assembled_in _ _ _ _ _ "Local" demo_link demo_new); [|by vm_compute].
  apply (assembled_new 1 2 _ _ _ 0 1 32 500); lia.
Qed.

Lemma init_router_ok_witness : exists r', init demo_assembled = Ok r' /\
  cycle_ok demo_ordered 1000 0 1 r' /\ router_bag r' = ∅ /\ exclusive r'.
Proof.
  apply (init_router_ok demo_ordered 1 2 (fun _ => Ok DATA_VNET_) 4 1 1000 2);
    [lia|lia|done|apply demo_assembled_ok|done|lia|done].
Defined.

Lemma demo_router_ok : router_ok demo_ordered 500 demo_router /\ idle_requests demo_router.
Proof.
  pose proof (init_ok demo_ordered 1 2 _ 4 1 500 1 demo_assembled ltac:(lia) ltac:(lia) ltac:(done)
    demo_assembled_ok ltac:(done) ltac:(lia) ltac:(done)) as H.
  unfold demo_router. destruct (init demo_assembled) as [r|] eqn:E; [|by exfalso].
  assert (m_output_unit r = m_output_unit demo_assembled /\ m_num_vcs r = 2) as [Ho Hn]
    by (vm_compute in E; by injection E as <-).
  destruct H as [[(Hs & Hp & Hin & Hout & Hclk) Hidle _ _ _ _ _ _ _] _]. cbn [the].
  split; [split_and!|]; try done.
  - destruct Hs. split; try done; simpl; unfold zlength in *; by rewrite length_fmap.
  - destruct Hp. split; [done|]. simpl. unfold zlength in *. by rewrite length_fmap.
  - unfold inputs_ok. simpl. apply Forall_fmap, Forall_true. intros u. simpl. split; [by rewrite Hn|].
    apply list.Forall_cons. split; [|apply Forall_singleton, new_vc_ok].
    split_and!; [done|intros f l1 l2 Hf _; change ([demo_flit] = l1 ++ f :: l2) in Hf;
      destruct l1 as [|? []]; by simplify_eq/=|].
    intros _. rewrite Ho. eexists. split; [by vm_compute|by left].
  - intros i Hi. apply Hidle. simpl in Hi. unfold zlength in *. by rewrite length_fmap in Hi.
Qed.

Lemma sa_wakeup_safe_witness : exists r', sa_wakeup demo_ordered 500 demo_router = Ok r' /\
  router_ok demo_ordered 500 r' /\ idle_requests r'.
Proof. apply (sa_wakeup_safe demo_ordered 500 demo_router); apply demo_router_ok. Defined.

Lemma sa_wakeup_matching_witness : exists r' gs,
  sa_wakeup demo_ordered 500 demo_router = Ok r' /\ transfers 500 demo_router r' gs.
Proof. apply (sa_wakeup_matching demo_ordered 500 demo_router); apply demo_router_ok. Defined.

(** Port 1 can send; the output port it asks for is used in this cycle. *)
Lemma sa_wakeup_work_conserving_witness : exists r' invc' o' i' invc2,
  sa_wakeup demo_ordered 500 demo_router = Ok r' /\ can_send 500 demo_router 1 invc' o' /\
  moved 500 demo_router r' i' invc2 o'.
Proof.
  apply (sa_wakeup_work_conserving demo_ordered 500 demo_router 1 0 0);
    [apply demo_router_ok|apply demo_router_ok|by vm_compute..|].
  eexists _, demo_vc, _, demo_flit, [].
  split; [split; by vm_compute|]. split; [split_and!; by vm_compute|].
  split; [done|]. split; [by vm_compute|].
  simpl. exists 0. split; [by vm_compute|]. eexists.
  split; [split; [done|by vm_compute]|by vm_compute].
Defined.
