(* ===== verification/RouterRouting.v ===== *)
(** * RouterRouting: routing algorithms a router can run

    Table routing, dimension-order routing and the Valiant detours meet
    the interface [Routes] between the routing unit and the router. *)

From S2P Require Import Prelude NetDest CommonTypes RoutingUnit Mesh MeshRouting RoutingTable InputProofs.

(** ** Table routing *)

Section table.
Context (net : NetParams) (now id n : Z) (table : list (list NetDest.t)) (weights : list Z).

(** The unit's tables, one column per output port. *)
Definition has_table (s : RState) : Prop :=
  m_routing_table (ru s) = table /\ m_weight_table (ru s) = weights.

(** The table has a link of finite weight for the packet. *)
Definition in_table (rt : RouteInfo) : Prop := exists links, vget table (vnet rt) = Ok links /\
  Forall (fun l => length (net_dest rt) = length l) links /\ length weights = length links /\
  zlength links <= n /\ 0 <= vnet rt < zlength (m_ordered net) /\
  exists k w, link_to links weights (net_dest rt) k w /\ w <= INFINITE_.

Lemma lookup_routes rt s : in_table rt -> has_table s ->
  safe (lookupRoutingTable net (vnet rt) (net_dest rt) s) (fun '(o, s') =>
    0 <= o < n /\ ru s' = ru s /\ cnt s' = cnt s).
Proof.
  intros (links & Hl & Hsh & Hlen & Hn & Hv & Hex) [Ht Hw].
  eapply safe_mono; [apply (lookup_spec net (vnet rt) (net_dest rt) links s)|].
  - unfold table_ok. by rewrite Ht, Hw.
  - by rewrite Hw.
  - intros [o s'] (Hru & Hc & Ho & w & (l & Hlk & _) & _). split_and!; [done| |done|done].
    apply lookup_lt_Some in Hlk. unfold zlength in Hn. lia.
Qed.

Definition table_unit (s : RState) : Prop := has_table s /\ zlength (routerr_ (cnt s)) = MAXN.

End table.

(** Packets of finite weight from some router. *)
Definition table_packet (net : NetParams) (n : Z) (table : list (list NetDest.t)) (weights : list Z)
    (rt : RouteInfo) (i : Z) (d : PortDirection) : Prop :=
  src_router rt <> -1 /\ in_table net n table weights rt.

Lemma keepRoute_safe rt m (Q : Z * RouteInfo * RState -> Prop) :
  safe m (fun '(o, s) => Q (o, rt, s)) -> safe (keepRoute rt m) Q.
Proof. intros H. unfold keepRoute. apply safe_bind. eapply safe_mono; [exact H|]. by intros [o s]. Qed.

(** A computed route is counted, unless the packet leaves here. *)
Lemma outportCompute_safe net id now n rt i d s (Q : RState -> Prop) (P : RouteInfo -> Prop) : 0 <= id < MAXN ->
  (dest_router rt = id -> P rt /\ safe (lookupRoutingTable net (vnet rt) (net_dest rt) s)
    (fun '(o, s') => 0 <= o < n /\ Q s')) ->
  (dest_router rt <> id -> safe (dispatch net id now rt i d s) (fun '(o, rt', s') =>
    0 <= o < n /\ zlength (routerr_ (cnt s')) = MAXN /\ P rt' /\
    forall s2, ru s2 = ru s' -> zlength (routerr_ (cnt s2)) = MAXN -> Q s2)) ->
  safe (outportCompute net id now rt i d s) (fun '(o, rt', s') => 0 <= o < n /\ Q s' /\ P rt').
Proof.
  intros Hid Hhere Hthere. unfold outportCompute. destruct (Z.eqb_spec (dest_router rt) id) as [He|He].
  - destruct (Hhere He) as [HP Hs]. apply keepRoute_safe. eapply safe_mono; [exact Hs|]. by intros [o s'] [? ?].
  - apply safe_bind. eapply safe_mono; [by apply Hthere|]. intros [[o rt'] s'] (Ho & Hc & HP & HQ).
    apply safe_bind. eapply safe_mono; [by apply countRoute_safe|]. intros s2 (Hru2 & _ & Hc2).
    apply safe_bind, safe_assert; [by destruct (Z.eqb_spec o (-1)); [lia|]|]. split; [done|].
    split; [by apply HQ|done].
Qed.

#[global] Instance table_routes net now id n table weights :
  getRoutingAlgorithm net = 0 -> 0 <= id < MAXN ->
  Routes net now id n (table_packet net n table weights) (table_unit table weights).
Proof.
  intros Halg Hid. split; try done; [|by intros ? ? ? []].
  intros rt i d s [Hsrc Hrt] [Ht Hc]. apply outportCompute_safe; [done|intros _..].
  - split; [done|]. eapply safe_mono; [by eapply lookup_routes|]. intros [o s'] (Ho & Hru & Hcn).
    split; [done|]. unfold table_unit, has_table. by rewrite Hru, Hcn.
  - unfold dispatch. rewrite Halg. apply keepRoute_safe.
    eapply safe_mono; [by eapply lookup_routes|]. intros [o s'] (Ho & Hru & Hcn).
    rewrite Hcn. do 3 (split; [done|]).
    intros s2 Hru2 Hc2. split; [|done]. unfold has_table. by rewrite Hru2, Hru.
Qed.

(** ** Dimension-order routing *)

Section xy.
Context (net : NetParams) (now : Z) (R C : Z) (p : coord) (n : Z).
Context (table : list (list NetDest.t)) (weights : list Z).

(** The unit has a port for every side of the router that has a link. *)
Definition xy_unit (s : RState) : Prop := table_unit table weights s /\
  forall d, d ∈ mesh_dirs -> in_mesh R C (move d p) ->
    exists o, m_outports_dirn2idx (ru s) !! d = Some o /\ 0 <= o < n.

(** A packet for this router is in the table; one for another router comes
    from a side dimension-order routing uses. *)
Definition xy_packet (rt : RouteInfo) (i : Z) (dn : PortDirection) : Prop := src_router rt <> -1 /\
  (dest_router rt = id_of C p -> in_table net n table weights rt) /\
  (dest_router rt <> id_of C p -> exists t, in_mesh R C t /\ dest_router rt = id_of C t /\
    XY_inport_ok dn (xy_dir p t) = true).

#[global] Instance xy_routes : getNumRows net = R -> getNumCols net = C -> R * C <= MAXN ->
  getRoutingAlgorithm net = 1 -> in_mesh R C p -> Routes net now (id_of C p) n xy_packet xy_unit.
Proof.
  intros Hr Hcl Hmax Halg Hp. pose proof (id_of_range R C p Hp).
  split; try done; [|by intros ? ? ? (? & _)].
  intros rt i d s (Hsrc & Hhere & Hthere) [[Ht Hc] Hports]. apply outportCompute_safe; [lia|..].
  - intros He. split; [done|]. eapply safe_mono; [by eapply lookup_routes; [apply Hhere|]|].
    intros [o s'] (Ho & Hru & Hcn). split; [done|]. unfold xy_unit, table_unit, has_table. by rewrite Hru, Hcn.
  - intros He. destruct (Hthere He) as (t & Ht0 & Hd & Hside).
    assert (Hne : p <> t) by congruence.
    unfold dispatch, outportComputeXY. rewrite Halg. apply keepRoute_safe.
    rewrite Hd, (XY_dirn_spec R C) by done. cbn [mbind res_bind]. rewrite Hside. cbn [assert mbind res_bind].
    destruct (Hports (xy_dir p t)) as (o & Ho & Hon); [by apply xy_dir_in|by apply xy_in|].
    rewrite (outport_of_port _ _ o) by done. do 3 (split; [done|]).
    intros s2 Hru Hc2. unfold xy_unit, table_unit, has_table. by rewrite Hru.
Qed.

(** ** The Valiant detours *)

Section valiant.
Context (pickInter : NetParams -> Z -> Z -> RouteInfo -> Rng -> res (RouteInfo * Rng)).
Context (Hdisp : forall my rt i d s, dispatch net my now rt i d s = valiant pickInter net my rt i d s).
Context (Hrows : getNumRows net = R) (Hcols : getNumCols net = C) (Hmax : R * C <= MAXN) (Hp : in_mesh R C p).
Context (Hpick : forall t rt g, in_mesh R C t -> p <> t ->
  safe (pickInter net (id_of C p) (id_of C t) rt g) (fun '(rt', _) =>
    exists mid, in_mesh R C mid /\ mid <> p /\ rt' = setInter (id_of C mid) rt)).

(** A packet for another router has a tag of 0 or 1, and its intermediate
    router, if it has one, is in the mesh. *)
Definition valiant_packet (rt : RouteInfo) (i : Z) (dn : PortDirection) : Prop := src_router rt <> -1 /\
  (dest_router rt = id_of C p -> in_table net n table weights rt) /\
  (dest_router rt <> id_of C p -> (exists t, in_mesh R C t /\ dest_router rt = id_of C t) /\
    (sTag rt = 0 \/ sTag rt = 1) /\
    (inter_route rt = -1 \/ exists mid, in_mesh R C mid /\ inter_route rt = id_of C mid)).

Lemma XY_mid_safe rt i d (mid : bool) t s (Q : Z * RState -> Prop) : xy_unit s -> in_mesh R C t -> t <> p ->
  (if mid then getInter rt else dest_router rt) = id_of C t -> (forall o, 0 <= o < n -> Q (o, s)) ->
  safe (outportComputeXY_mid net (id_of C p) rt i d mid s) Q.
Proof.
  intros [_ Hports] Ht Hne Htgt HQ. unfold outportComputeXY_mid.
  rewrite Htgt, (XY_dirn_spec R C) by done. cbn [mbind res_bind].
  destruct (Hports (xy_dir p t)) as (o & Ho & Hon); [by apply xy_dir_in|by apply xy_in|].
  rewrite (outport_of_port _ _ o) by done. by apply HQ.
Qed.

(** One step of a packet that does not leave here. *)
Lemma valiant_safe rt i d s : xy_unit s -> valiant_packet rt i d -> dest_router rt <> id_of C p ->
  safe (valiant pickInter net (id_of C p) rt i d s) (fun '(o, rt', s') => 0 <= o < n /\
    ru s' = ru s /\ cnt s' = cnt s /\ valiant_packet rt' i d /\
    src_router rt' = src_router rt /\ dest_router rt' = dest_router rt).
Proof.
  intros Hs Hpk He. pose proof Hpk as (Hsrc & _ & Hfar).
  destruct (Hfar He) as ((t & Ht & Hd) & Htag & Hint). assert (Hne : t <> p) by congruence.
  unfold valiant, getTag, getInter, getPassed. destruct Htag as [->|Htag]; simpl Z.eqb; cbv iota.
  { apply keepRoute_safe. apply (XY_mid_safe rt i d false t s); [done..|]. intros o Ho. by repeat (split; [done|]). }
  rewrite Htag. simpl Z.eqb. cbv iota. destruct Hint as [Hint|(mid & Hmid & Hint)]; rewrite ?Hint.
  - simpl. rewrite Hint. simpl Z.eqb. cbv iota. rewrite Hd. apply safe_bind.
    eapply safe_mono; [by apply Hpick|]. intros [rt' g] (mid & Hmid & Hmp & ->).
    apply keepRoute_safe. apply (XY_mid_safe _ i d true mid); [done..|]. intros o Ho.
    do 3 (split; [done|]). split; [|done]. split; [done|]. split; [done|]. intros _.
    split; [eauto|]. split; [by right|]. right. eauto.
  - pose proof (id_of_range R C mid Hmid) as Hr. rewrite (proj2 (Z.eqb_neq (id_of C mid) (-1))) by lia.
    cbn [negb andb].
    set (rt1 := if negb (passedMid rt) then if id_of C mid =? id_of C p then setPassed rt else rt else rt).
    assert (H1 : valiant_packet rt1 i d /\ src_router rt1 = src_router rt /\ dest_router rt1 = dest_router rt /\
      inter_route rt1 = id_of C mid /\ (passedMid rt1 = false -> mid <> p)).
    { unfold rt1. destruct (passedMid rt) eqn:Epass; cbn [negb]; [by rewrite Epass|].
      destruct (Z.eqb_spec (id_of C mid) (id_of C p)); [by split_and!|].
      split_and!; [done..|]. intros _ ->. done. }
    destruct H1 as (Hpk1 & Hs1 & Hd1 & Hi1 & Hm1). rewrite Hi1.
    rewrite (proj2 (Z.eqb_neq (id_of C mid) (-1))) by lia. apply keepRoute_safe.
    destruct (passedMid rt1) eqn:Epass; cbn [negb].
    + apply (XY_mid_safe rt1 i d false t s); [done..|congruence|]. intros o Ho. by repeat (split; [done|]).
    + apply (XY_mid_safe rt1 i d true mid s); [done|done|by apply Hm1|done|]. intros o Ho. by repeat (split; [done|]).
Qed.

Lemma valiant_routes : Routes net now (id_of C p) n valiant_packet xy_unit.
Proof.
  pose proof (id_of_range R C p Hp). split.
  - intros rt i d s Hpk [[Ht Hc] Hports]. apply (outportCompute_safe net (id_of C p) now n rt i d s xy_unit
      (fun rt' => valiant_packet rt' i d /\ src_router rt' = src_router rt /\ dest_router rt' = dest_router rt)); [lia|..].
    + intros He. split; [done|]. destruct Hpk as (_ & Hhere & _).
      eapply safe_mono; [by eapply lookup_routes; [apply Hhere|]|].
      intros [o s'] (Ho & Hru & Hcn). split; [done|]. unfold xy_unit, table_unit, has_table. by rewrite Hru, Hcn.
    + intros He. rewrite Hdisp. eapply safe_mono; [by apply valiant_safe|].
      intros [[o rt'] s'] (Ho & Hru & Hcn & Hpk'). rewrite Hcn. do 3 (split; [done|]).
      intros s2 Hru2 Hc2. unfold xy_unit, table_unit, has_table. by rewrite Hru2, Hru.
  - intros rt i d (Hs & Hh & Hf). split; [done|]. split; [done|]. intros He. destruct (Hf He) as (? & _ & ?).
    split_and!; try done. by right.
  - done.
  - done.
  - by intros rt i d (? & _).
Qed.

End valiant.

#[global] Instance secure_valiant_routes : getNumRows net = R -> getNumCols net = C -> R * C <= MAXN ->
  getRoutingAlgorithm net = 6 -> 2 <= C <= R -> in_mesh R C p -> Routes net now (id_of C p) n valiant_packet xy_unit.
Proof.
  intros Hr Hc Hmax Halg Hsh Hp. apply (valiant_routes pickInterSecure); try done.
  - intros. unfold dispatch. by rewrite Halg.
  - intros t rt g Ht Hne. eapply safe_mono; [by apply (pickInterSecure_safe R C)|].
    intros [rt' g'] (mid & Hmid & Hsec & ->). exists mid. split; [done|]. split; [|done].
    by apply (secure_mid_facts p t mid Hne Hsec).
Qed.

#[global] Instance ori_valiant_routes : getNumRows net = R -> getNumCols net = C -> R * C <= MAXN ->
  getRoutingAlgorithm net = 7 -> 3 <= R * C -> in_mesh R C p -> Routes net now (id_of C p) n valiant_packet xy_unit.
Proof.
  intros Hr Hc Hmax Halg Hsh Hp. apply (valiant_routes pickInterOri); try done.
  - intros. unfold dispatch. by rewrite Halg.
  - intros t rt g Ht Hne. eapply safe_mono; [by apply (pickInterOri_safe R C)|].
    intros [rt' g'] (mid & Hmid & Hmp & _ & ->). eauto.
Qed.

End xy.
