(* ===== verification/RouterTheorems.v ===== *)
(** * RouterTheorems: what a cycle of a router guarantees

    With any of the input units and a routing algorithm that meets the
    interface of the router, a cycle returns, keeps the router well-formed and
    conserves its flits; the Resister defence tags exactly the packets
    its detector finds risky. *)

From Stdlib Require Import Sorted.
From stdpp Require Import gmultiset.
From S2P Require Import Prelude NetDest CommonTypes Flit Channels Detector DetectorProofs RoutingUnit Mesh.
From S2P Require Import MeshRouting RoutingTable Clock Link Units Router SwitchAlloc InputWakeup RouterWakeup.
From S2P Require Import UnitLemmas SwitchProofs SwitchSafe FlitBag Crossbar InputProofs InputVariants RouterCycle.
From S2P Require Import SwitchTheorems RouterRouting.
Import Router.

(** ** The cycle *)

(** C2: a router that is ready for a cycle, whose links keep the protocol
    and whose routing algorithm serves the packets on them, runs the cycle
    to its end (no assertion fails, no access is out of range, no
    conversion overflows) and is ready for another one: its channels,
    output channels, pointers, wakeups and histories are well-formed, no
    request is pending and the crossbar is empty.  This holds for the
    original input unit, the Resister defence and Valiant routing of all packets,
    in the first 2^31 cycles. *)
Theorem router_wakeup_safe net now id n junk struct Rt J r g : Routes net now id n Rt J ->
  0 <= now -> getCycle now < 2 ^ 31 ->
  cycle_ok net now id n r -> protocol now Rt r -> J (rstate r g) ->
  exists r' g', router_wakeup net now (input_wakeup net now junk struct) r g = Ok (r', g') /\
    cycle_ok net now id n r' /\ J (rstate r' g').
Proof.
  intros HR Hnow Hshort Hcy Hpr HJ.
  destruct (safe_inv _ _ (router_wakeup_spec net now id n junk struct Rt J HR Hnow Hshort r g Hcy Hpr HJ))
    as ([r' g'] & -> & []). eauto.
Qed.

(** C3: in such a cycle no flit is lost, duplicated or invented: each
    link gives up the flit that was due on it, and the channels, crossbar
    and output queues of the router together hold those flits on top of
    what they held before. *)
Theorem router_wakeup_conserves net now id n junk struct Rt J r g : Routes net now id n Rt J ->
  0 <= now -> getCycle now < 2 ^ 31 ->
  cycle_ok net now id n r -> protocol now Rt r -> J (rstate r g) ->
  exists r' g', router_wakeup net now (input_wakeup net now junk struct) r g = Ok (r', g') /\
    router_bag r' = router_bag r ⊎ bag_of (m_input_unit r ≫= waiting now) /\
    drained now (m_input_unit r) (m_input_unit r').
Proof.
  intros HR Hnow Hshort Hcy Hpr HJ.
  destruct (safe_inv _ _ (router_wakeup_spec net now id n junk struct Rt J HR Hnow Hshort r g Hcy Hpr HJ))
    as ([r' g'] & -> & []). eauto.
Qed.

(** C13: in such a cycle output channels stay exclusive: if no channel
    behind an output port is held by two of the router's packets, none is
    afterwards, so the flits of two packets never mix on a link's channel. *)
Theorem router_wakeup_exclusive net now id n junk struct Rt J r g : Routes net now id n Rt J ->
  0 <= now -> getCycle now < 2 ^ 31 ->
  cycle_ok net now id n r -> protocol now Rt r -> J (rstate r g) -> exclusive r ->
  exists r' g', router_wakeup net now (input_wakeup net now junk struct) r g = Ok (r', g') /\ exclusive r'.
Proof.
  intros HR Hnow Hshort Hcy Hpr HJ Hx.
  destruct (safe_inv _ _ (router_wakeup_spec net now id n junk struct Rt J HR Hnow Hshort r g Hcy Hpr HJ))
    as ([r' g'] & -> & []). eauto.
Qed.

(** ** The defence *)

Lemma tag_choice (A : Prop) `{Decision A} d (x y : RouteInfo) :
  (if bool_decide A && negb (d =? 10000) then x else y) = if decide (A /\ d <> 10000) then x else y.
Proof. case_bool_decide; destruct (Z.eqb_spec d 10000); simpl; case_decide; tauto. Qed.

(** C5: what the defence does to a packet injected for another router.
    It is noted in the history unless it is tagged already; then its output
    port is computed, and it is tagged for a detour exactly when the
    detector finds it risky (its flow fills more than half of the full history, or
    at least half of the window of that port) and the number that [getMyRandom]
    draws from 0 to 10000, after any numbers that routing drew, is not
    10000.  The routing unit, the counters and the random source are left as
    routing and this draw leave them, the input unit keeps the history with
    the packet in it, and only statistics change besides. *)
Theorem injected_packet_tagged net now id n junk Rt J r g i u f : Routes net now id n Rt J ->
  0 <= now -> getCycle now < 2 ^ 31 -> cycle_ok net now id n r -> J (rstate r g) ->
  vget (m_input_unit r) i = Ok u -> flit.is_head f = true -> dest_router (flit.m_route f) <> id ->
  Rt (flit.m_route f) (InputUnit.m_id u) (InputUnit.m_direction u) ->
  exists o rt s' l draw rg r' h,
    outportCompute net id now (flit.m_route f) (InputUnit.m_id u) (InputUnit.m_direction u) (rstate r g) =
      Ok (o, rt, s') /\
    vget (outportRecord.record (outBuf r)) o = Ok l /\ getMyRandom 0 10000 (rng s') = Ok (draw, rg) /\
    (r ← record_injection now i f r; detect net now junk false i f r g) =
      Ok (flit.set_route
            (if decide (risky (current_entry now u f) (src_router (flit.m_route f))
                          (dest_router (flit.m_route f)) l (noted now u f) /\ draw <> 10000)
             then setTag 1 rt else rt) f, (r', mkGlobals (cnt s') rg)) /\
    routingUnit r' = ru s' /\ outBuf r' = outBuf r /\ consumer r' = consumer r /\ same_frame r r' /\
    m_input_unit r' = <[Z.to_nat i := u <| InputUnit.HR := h |>]> (m_input_unit r) /\
    HistoryRecord.patternTable h = HistoryRecord.patternTable (noted now u f).
Proof.
  intros HR Hnow Hshort Hcy HJ Hu Hhd Hd HRt.
  destruct (injection_spec net now id n junk Rt J HR Hnow Hshort false r g i u f (cycle_in_inv _ _ _ _ _ Hcy)
    Hu HJ Hhd Hd HRt) as (r1 & risk & rt & draw & r' & g' & _ & Hfr & Hcons & Hob & Hrs & Hins &
    [_ _ _ (o & s' & l & rg & Hcomp & Hl & Hrisk & Hdraw & -> & Hru) (h & _ & Hh & Hins') Hfr' Hcons' Hob' _] & ->).
  rewrite Hob in Hl. rewrite Hrs in Hcomp. exists o, rt, s', l, draw, rg, r', h. split_and!; try done.
  - unfold detect_result. rewrite andb_false_r, Hrisk. by rewrite tag_choice.
  - congruence.
  - congruence.
  - by eapply same_frame_trans.
  - rewrite Hins', Hins. by rewrite list_insert_insert_eq.
Qed.

(** The measurement build ([InputStruct] 5) does the same with the
    packets that are not risky, and ends the simulation at the first risky
    one. *)
Theorem detection_latency_exits net now id n junk Rt J r g i u f : Routes net now id n Rt J ->
  0 <= now -> getCycle now < 2 ^ 31 -> cycle_ok net now id n r -> J (rstate r g) ->
  vget (m_input_unit r) i = Ok u -> flit.is_head f = true -> dest_router (flit.m_route f) <> id ->
  Rt (flit.m_route f) (InputUnit.m_id u) (InputUnit.m_direction u) ->
  exists o rt s' l r' g',
    outportCompute net id now (flit.m_route f) (InputUnit.m_id u) (InputUnit.m_direction u) (rstate r g) =
      Ok (o, rt, s') /\
    vget (outportRecord.record (outBuf r)) o = Ok l /\
    (r ← record_injection now i f r; detect net now junk true i f r g) =
      if decide (risky (current_entry now u f) (src_router (flit.m_route f))
                   (dest_router (flit.m_route f)) l (noted now u f))
      then Err ExitCalled else Ok (flit.set_route rt f, (r', g')).
Proof.
  intros HR Hnow Hshort Hcy HJ Hu Hhd Hd HRt.
  destruct (injection_spec net now id n junk Rt J HR Hnow Hshort true r g i u f (cycle_in_inv _ _ _ _ _ Hcy)
    Hu HJ Hhd Hd HRt) as (r1 & risk & rt & draw & r' & g' & _ & _ & _ & Hob & Hrs & _ &
    [_ _ _ (o & s' & l & rg & Hcomp & Hl & Hrisk & _) _ _ _ _ _] & ->).
  rewrite Hob in Hl. rewrite Hrs in Hcomp. exists o, rt, s', l, r', g'. split_and!; [done|done|].
  change (risk = bool_decide (risky (current_entry now u f) (src_router (flit.m_route f))
    (dest_router (flit.m_route f)) l (noted now u f))) in Hrisk.
  unfold detect_result. subst risk. by case_bool_decide; case_decide.
Qed.

(** ** A router of a 2 x 2 mesh with a packet due on both links *)

Definition corner_net : NetParams := mkNet 2 2 6 [false].
Definition corner_in : Router.t := the demo_new (addInPort "East" demo_link demo_in1).
Definition corner_out : Router.t := the demo_new
  (addOutPort "East" 32 [] 1 demo_link 2 (fun _ => Ok DATA_VNET_) 4 1 corner_in).
Definition corner_assembled : Router.t := the demo_new
  (addOutPort "North" 32 [] 1 demo_link 2 (fun _ => Ok DATA_VNET_) 4 1 corner_out).

Lemma corner_assembled_ok : assembled 1 2 (fun _ => Ok DATA_VNET_) 4 1 corner_assembled.
Proof.
  apply (assembled_out _ _ _ _ _ "North" 32 [] 1 demo_link 2 corner_out); [|lia|by vm_compute].
  apply (assembled_out _ _ _ _ _ "East" 32 [] 1 demo_link 2 corner_in); [|lia|by vm_compute].
  apply (assembled_in _ _ _ _ _ "East" demo_link demo_in1); [|by vm_compute].
  apply (assembled_in _ _ _ _ _ "Local" demo_link demo_new); [|by vm_compute].
  apply (assembled_new 1 2 _ _ _ 0 1 32 500); lia.
Qed.

(** Port 0 injects a packet for router 1; port 1 brings a tagged one whose
    detour ends here and that goes on to router 2. *)
Definition due_flit (u : InputUnit.t) : flit.t :=
  if InputUnit.m_id u =? 0
  then flit.new 7 0 0 0 (RouteInfo_new <| dest_router := 1 |>) 1 0 8 32 500
  else flit.new 7 0 0 0 (RouteInfo_new <| dest_router := 2 |> <| src_router := 1 |> <| sTag := 1 |>
                           <| inter_route := 0 |>) 1 1 8 32 500.

(** The history of port 0 is full of the flow of its packet. *)
Definition flow_history : HistoryRecord.t :=
  (HistoryRecord.new 8) <| HistoryRecord.patternTable := replicate 8 (mkPattern 0 1 0 1 1 0) |>.
Definition due (u : InputUnit.t) : InputUnit.t :=
  u <| InputUnit.m_in_link := (InputUnit.m_in_link u) <| NetworkLink.linkBuffer :=
         flitBuffer.insert (due_flit u) flitBuffer.new |> |>
    <| InputUnit.HR := flow_history |>.
Definition busy (r : Router.t) : Router.t := r <| m_input_unit := due <$> m_input_unit r |>.
Definition corner_busy : Router.t := busy (the corner_assembled (init corner_assembled)).
Definition demo_globals : Globals := mkGlobals Counters_new demo_rng.

Lemma flow_history_ok : hist_inv 500 flow_history.
Proof.
  split; [done|]. split; [repeat constructor; done|].
  change (Forall (fun e => 0 <= cycleRecieve e <= 1) (replicate 8 (mkPattern 0 1 0 1 1 0))).
  apply Forall_replicate. simpl. lia.
Qed.

Lemma busy_ok net id n r : cycle_ok net 500 id n r -> cycle_ok net 500 id n (busy r).
Proof.
  intros [(Hs & [Hp1 Hp2] & Hin & Hout & Hclk) Hidle [Hlat Hun] Hwk Hx Hid Hn Hb Hh].
  assert (Hl : zlength (m_input_unit (busy r)) = zlength (m_input_unit r))
    by (simpl; unfold zlength; by rewrite length_fmap).
  split; [split_and!|..]; try done.
  - destruct Hs. split; rewrite ?Hl; done.
  - split; rewrite ?Hl; done.
  - unfold inputs_ok. simpl. by apply Forall_fmap.
  - intros i Hi. apply Hidle. lia.
  - split; [done|]. simpl. apply Forall_fmap. eapply list.Forall_impl; [exact Hun|]. intros u []. by split.
  - simpl. apply Forall_fmap, Forall_true. intros u. apply flow_history_ok.
Qed.

Lemma corner_busy_ok : cycle_ok corner_net 500 0 2 corner_busy.
Proof.
  apply busy_ok.
  pose proof (init_ok corner_net 1 2 _ 4 1 500 1 corner_assembled ltac:(lia) ltac:(lia) ltac:(done)
    corner_assembled_ok ltac:(done) ltac:(lia) ltac:(done)) as H.
  destruct (init corner_assembled) as [r|] eqn:E; [|by exfalso]. apply H.
Qed.

Definition corner_packet : RouteInfo -> Z -> PortDirection -> Prop :=
  valiant_packet corner_net 2 2 (0, 0) 2 [] [1; 1].
Definition corner_unit : RState -> Prop := xy_unit 2 2 (0, 0) 2 [] [1; 1].

Lemma corner_routes t : Routes corner_net t 0 2 corner_packet corner_unit.
Proof.
  apply (secure_valiant_routes corner_net t 2 2 (0, 0) 2); [done..|lia|unfold in_mesh; simpl; lia].
Qed.

Lemma corner_protocol : protocol 500 corner_packet corner_busy.
Proof.
  assert (Hmesh : in_mesh 2 2 (1, 0) /\ in_mesh 2 2 (0, 1) /\ in_mesh 2 2 (0, 0)) by (unfold in_mesh; simpl; lia).
  split.
  - intros i u [Hi Hu]%vget_Ok f Hf.
    destruct (Z.to_nat i) as [|[|k]]; vm_compute in Hu; [..|discriminate Hu]; injection Hu as <-;
      vm_compute in Hf; injection Hf as <-; (split; [by vm_compute|]);
      eexists; (split; [by vm_compute|]); (split; [by vm_compute|]);
      (split; [done|]); (split; [done|]); intros _.
    + split; [exists (1, 0); by split|]. split; [by left|by left].
    + split; [exists (0, 1); by split|]. split; [by right|]. right. by exists (0, 0).
  - intros o ou [Ho Hou]%vget_Ok f Hf.
    destruct (Z.to_nat o) as [|[|k]]; vm_compute in Hou; [..|discriminate Hou]; injection Hou as <-;
      by vm_compute in Hf.
Qed.

Lemma corner_state : corner_unit (rstate corner_busy demo_globals).
Proof.
  split; [by split_and!|].
  intros d Hd Hm. unfold mesh_dirs in Hd. repeat (apply elem_of_cons in Hd as [->|Hd]);
    [..|by apply not_elem_of_nil in Hd]; unfold in_mesh in Hm; simpl in Hm; try lia.
  - exists 0. split; [by vm_compute|lia].
  - exists 1. split; [by vm_compute|lia].
Qed.

Lemma router_wakeup_safe_witness : exists r' g',
  router_wakeup corner_net 500 (input_wakeup corner_net 500 0 Resister) corner_busy demo_globals = Ok (r', g') /\
  cycle_ok corner_net 500 0 2 r' /\ corner_unit (rstate r' g').
Proof.
  apply (router_wakeup_safe corner_net 500 0 2 0 Resister corner_packet corner_unit corner_busy demo_globals);
    [apply corner_routes|lia|done|apply corner_busy_ok|apply corner_protocol|apply corner_state].
Defined.

Lemma router_wakeup_conserves_witness : exists r' g',
  router_wakeup corner_net 500 (input_wakeup corner_net 500 0 Resister) corner_busy demo_globals = Ok (r', g') /\
  router_bag r' = router_bag corner_busy ⊎ bag_of (m_input_unit corner_busy ≫= waiting 500) /\
  drained 500 (m_input_unit corner_busy) (m_input_unit r').
Proof.
  apply (router_wakeup_conserves corner_net 500 0 2 0 Resister corner_packet corner_unit corner_busy demo_globals);
    [apply corner_routes|lia|done|apply corner_busy_ok|apply corner_protocol|apply corner_state].
Defined.

(** No channel of the example is active. *)
Lemma corner_exclusive : exclusive corner_busy.
Proof.
  intros i1 vc1 i2 vc2 o c _ (u & v & [[_ Hu]%vget_Ok [_ Hv]%vget_Ok] & Hst & _).
  destruct (Z.to_nat i1) as [|[|k]]; vm_compute in Hu; [..|discriminate Hu]; injection Hu as <-;
    destruct (Z.to_nat vc1) as [|[|k]]; vm_compute in Hv; try discriminate Hv; by injection Hv as <-.
Qed.

Lemma router_wakeup_exclusive_witness : exists r' g',
  router_wakeup corner_net 500 (input_wakeup corner_net 500 0 Resister) corner_busy demo_globals = Ok (r', g') /\
  exclusive r'.
Proof.
  apply (router_wakeup_exclusive corner_net 500 0 2 0 Resister corner_packet corner_unit corner_busy demo_globals);
    [apply corner_routes|lia|done|apply corner_busy_ok|apply corner_protocol|apply corner_state|].
  apply corner_exclusive.
Defined.

(** The packet due on port 0. *)
Definition corner_flit : flit.t := flit.new 7 0 0 0 (RouteInfo_new <| dest_router := 1 |>) 1 0 8 32 500.

Lemma corner_flit_packet i d : corner_packet (flit.m_route corner_flit) i d.
Proof.
  split; [done|]. split; [done|]. intros _. split; [exists (1, 0); split; [unfold in_mesh; simpl; lia|done]|].
  split; [by left|by left].
Qed.

Lemma injected_packet_tagged_witness : exists u, vget (m_input_unit corner_busy) 0 = Ok u /\
  exists o rt s' l draw rg r',
    outportCompute corner_net 0 500 (flit.m_route corner_flit) (InputUnit.m_id u) (InputUnit.m_direction u)
      (rstate corner_busy demo_globals) = Ok (o, rt, s') /\
    getMyRandom 0 10000 (rng s') = Ok (draw, rg) /\
    (r ← record_injection 500 0 corner_flit corner_busy;
     detect corner_net 500 0 false 0 corner_flit r demo_globals) =
      Ok (flit.set_route (if decide (risky (current_entry 500 u corner_flit) 0 1 l (noted 500 u corner_flit) /\
             draw <> 10000) then setTag 1 rt else rt) corner_flit, (r', mkGlobals (cnt s') rg)).
Proof.
  eexists. split; [vm_compute; reflexivity|].
  match goal with |- context [current_entry 500 ?u corner_flit] =>
    destruct (injected_packet_tagged corner_net 500 0 2 0 corner_packet corner_unit corner_busy demo_globals 0 u corner_flit)
      as (o & rt & s' & l & draw & rg & r' & h & Ho & _ & Hd & Hres & _) end;
    [apply corner_routes|lia|done|apply corner_busy_ok|apply corner_state|vm_compute; reflexivity|done|done|apply corner_flit_packet|].
  exists o, rt, s', l, draw, rg, r'. done.
Defined.

Lemma detection_latency_exits_witness : exists u, vget (m_input_unit corner_busy) 0 = Ok u /\
  exists o rt s' l r' g',
    outportCompute corner_net 0 500 (flit.m_route corner_flit) (InputUnit.m_id u) (InputUnit.m_direction u)
      (rstate corner_busy demo_globals) = Ok (o, rt, s') /\
    vget (outportRecord.record (outBuf corner_busy)) o = Ok l /\
    (r ← record_injection 500 0 corner_flit corner_busy;
     detect corner_net 500 0 true 0 corner_flit r demo_globals) =
      if decide (risky (current_entry 500 u corner_flit) 0 1 l (noted 500 u corner_flit))
      then Err ExitCalled else Ok (flit.set_route rt corner_flit, (r', g')).
Proof.
  eexists. split; [vm_compute; reflexivity|].
  apply (detection_latency_exits corner_net 500 0 2 0 corner_packet corner_unit corner_busy demo_globals 0);
    [apply corner_routes|lia|done|apply corner_busy_ok|apply corner_state|vm_compute; reflexivity|done|done|].
  apply corner_flit_packet.
Defined.
