(* ===== verification/TdmaProofs.v ===== *)
(** * TdmaProofs: the time-division defence

    [InputStruct] 4 lets one router at a time inject.  The schedule is a set
    of global variables that the input units of all routers share: a list of
    the sixteen routers, a position in it, and a counter for each router
    that is at least zero for the router whose slot it is.  The proofs show
    that exactly one router has the slot, that only this router takes flits
    from its injection link, at most [THRES_FLIT] of them in a slot, and that
    the slots of a round go to all routers. *)

From stdpp Require Import gmultiset.
From S2P Require Import Prelude NetDest CommonTypes Flit Channels Detector RoutingUnit Clock Link Units Router.
From S2P Require Import SwitchAlloc InputWakeup RouterWakeup UnitLemmas SwitchProofs SwitchSafe FlitBag.
From S2P Require Import InputProofs InputVariants RouterCycle RouterTheorems.
Import Router.

(** ** The schedule *)

Definition cores : list Z := Z.of_nat <$> seq 0 16.

(** It is the slot of router [h]. *)
Record schedule_ok (ts : TDMA.t) (h : Z) : Prop := {
  sc_inited : TDMA.inited ts = true;
  sc_len : length (TDMA.counter ts) = 16%nat;
  sc_perm : TDMA.round_list ts ≡ₚ cores;
  sc_holder : vget (TDMA.round_list ts) (TDMA.round_cnt ts) = Ok h;
  sc_counter : forall k c, vget (TDMA.counter ts) k = Ok c -> if k =? h then 0 <= c else c = -1;
}.

Lemma cores_elem k : k ∈ cores <-> 0 <= k < 16.
Proof.
  unfold cores. rewrite list_elem_of_fmap. setoid_rewrite elem_of_seq. split; [intros (? & -> & ?); lia|].
  intros Hk. exists (Z.to_nat k). lia.
Qed.

Lemma cores_get k : 0 <= k < 16 -> vget cores k = Ok k.
Proof.
  intros Hk. apply vget_Ok. split; [lia|]. unfold cores.
  rewrite list_lookup_fmap, lookup_seq_lt by lia. simpl. f_equal. lia.
Qed.

Lemma holder_core ts h : schedule_ok ts h -> 0 <= h < 16.
Proof.
  intros [_ _ Hp Hh _]. apply cores_elem. rewrite <- Hp. apply vget_Ok in Hh as [_ Hh].
  by eapply list_elem_of_lookup_2.
Qed.

(** Two routers never have the slot at once. *)
Lemma counter_enabled ts h k c : schedule_ok ts h -> vget (TDMA.counter ts) k = Ok c -> 0 <= c <-> k = h.
Proof.
  intros Hs Hc. pose proof (sc_counter _ _ Hs k c Hc) as H. destruct (Z.eqb_spec k h); lia.
Qed.

Lemma counter_get ts h k : schedule_ok ts h -> 0 <= k < 16 -> exists c, vget (TDMA.counter ts) k = Ok c.
Proof. intros [] Hk. apply vget_range. unfold zlength. rewrite sc_len0. lia. Qed.

Lemma initialise_first id : 0 <= id < 16 -> schedule_ok (TDMA.initialise id TDMA.start) id.
Proof.
  intros Hid. split; simpl; [done|done|done|by apply cores_get|].
  intros k c [Hk Hc]%vget_Ok. change (list_lookup (Z.to_nat k) ?l) with (l !! Z.to_nat k) in Hc.
  assert (Hb : (Z.to_nat k < 16)%nat) by (by apply lookup_lt_Some in Hc).
  pose proof (list_lookup_fmap (fun i => if Z.of_nat i =? id then 0 else -1) (seq 0 16) (Z.to_nat k)) as E.
  rewrite lookup_seq_lt in E by lia. simpl in E.
  assert (Some c = Some (if Z.of_nat (Z.to_nat k) =? id then 0 else -1)) as [= ->] by (by rewrite <- E).
  rewrite Z2Nat.id by lia. by destruct (k =? id).
Qed.

Lemma initialise_later id ts h : schedule_ok ts h -> TDMA.initialise id ts = ts.
Proof. intros [Hi _ _ _ _]. unfold TDMA.initialise. by rewrite Hi. Qed.

(** ** The order of a round *)

Lemma swap_perm l i j : 0 <= i < zlength l -> 0 <= j < zlength l ->
  safe (TDMA.swap l i j) (fun l' => l' ≡ₚ l).
Proof.
  intros Hi Hj. destruct (vget_range l i Hi) as [a Ha], (vget_range l j Hj) as [b Hb].
  unfold TDMA.swap. rewrite Ha, Hb. cbn [mbind res_bind]. apply safe_bind, safe_vset; [done|].
  apply safe_vset; [by rewrite zlength_insert|].
  apply vget_Ok in Ha as [_ Ha], Hb as [_ Hb].
  apply Permutation_inj. split; [by rewrite !length_insert|].
  exists (fun k => if decide (k = Z.to_nat i) then Z.to_nat j else if decide (k = Z.to_nat j) then Z.to_nat i else k).
  split.
  - intros x y. repeat case_decide; lia.
  - intros k. rewrite !list_lookup_insert. repeat (case_decide; subst; try congruence).
    all: destruct_and?; subst; try done; unfold zlength in *; try (rewrite length_insert in *); try lia; congruence.
Qed.

Lemma shuffle_perm l g : safe (TDMA.shuffle l g) (fun '(l', _) => l' ≡ₚ l).
Proof.
  unfold TDMA.shuffle. destruct l as [|x l]; [simpl; reflexivity|].
  eapply safe_mono; [apply (safe_for (fun _ '(l', _) => l' ≡ₚ x :: l))|by intros []]; [simpl; reflexivity|].
  intros i [l' g'] Hi Hp. apply safe_bind, safe_uniform; [lia|]. intros j g'' Hj. apply safe_bind.
  assert (Hlen : zlength l' = zlength (x :: l)) by (unfold zlength; by rewrite Hp).
  unfold zlength in Hlen. simpl in Hlen, Hi.
  eapply safe_mono; [apply swap_perm; unfold zlength; lia|]. intros l'' Hp'. simpl. by rewrite Hp'.
Qed.

(** The next slot of the round goes to the next router of the list; after
    the last one a new order is drawn. *)
Definition next_slot (ts ts' : TDMA.t) : Prop :=
  if TDMA.round_cnt ts =? 15 then TDMA.round_cnt ts' = 0
  else TDMA.round_cnt ts' = TDMA.round_cnt ts + 1 /\ TDMA.round_list ts' = TDMA.round_list ts.

(** The slot goes on. *)
Definition same_slot (ts ts' : TDMA.t) : Prop :=
  TDMA.round_cnt ts' = TDMA.round_cnt ts /\ TDMA.round_list ts' = TDMA.round_list ts.

Lemma round_bound ts h : schedule_ok ts h -> 0 <= TDMA.round_cnt ts < 16.
Proof.
  intros [_ _ Hp Hh _]. apply vget_bound in Hh. unfold zlength in Hh. rewrite Hp in Hh. simpl in Hh. lia.
Qed.

Lemma change_round_spec h ts g : schedule_ok ts h ->
  safe (TDMA.change_round h ts g) (fun '(ts', _) => next_slot ts ts' /\ exists h', schedule_ok ts' h').
Proof.
  intros Hs. pose proof (holder_core _ _ Hs) as Hh. pose proof (round_bound _ _ Hs) as Hb.
  unfold TDMA.change_round. apply safe_bind, safe_vset; [unfold zlength; rewrite (sc_len _ _ Hs); lia|].
  apply safe_bind. destruct Hs as [Hi Hl Hp _ Hc].
  assert (Hstep : safe (if TDMA.round_cnt ts <? TDMA.CORE_NUM - 1
      then Ok (TDMA.round_cnt ts + 1, TDMA.round_list ts, g)
      else '(l, g) ← TDMA.shuffle cores g; Ok (0, l, g)) (fun '(cnt, rl, _) =>
      0 <= cnt < 16 /\ rl ≡ₚ cores /\ next_slot ts (TDMA.mk true [] cnt rl))).
  { unfold next_slot. simpl. unfold TDMA.CORE_NUM. destruct (Z.ltb_spec (TDMA.round_cnt ts) (16 - 1)).
    - simpl. rewrite (proj2 (Z.eqb_neq _ _)) by lia. split; [lia|done].
    - apply safe_bind. eapply safe_mono; [apply shuffle_perm|]. intros [l g'] Hl'. simpl.
      rewrite (proj2 (Z.eqb_eq _ _)) by lia. split; [lia|done]. }
  eapply safe_mono; [exact Hstep|]. intros [[cnt rl] g'] (Hcnt & Hrl & Hnext).
  assert (Hrb : 0 <= cnt < zlength rl) by (unfold zlength; rewrite Hrl; simpl; lia).
  destruct (vget_range rl cnt Hrb) as [h' Hh']. rewrite Hh'. cbn [mbind res_bind].
  assert (Hcore : 0 <= h' < 16).
  { apply cores_elem. rewrite <- Hrl. apply vget_Ok in Hh' as [_ Hh']. by eapply list_elem_of_lookup_2. }
  apply safe_bind, safe_vset; [unfold zlength; rewrite length_insert, Hl; lia|]. simpl.
  split; [by unfold next_slot in *|]. exists h'. split; simpl; try done; [by rewrite !length_insert|].
  intros k c Hk. destruct (Z.eqb_spec k h') as [->|Hne].
  - rewrite vget_insert_eq in Hk by (unfold zlength; rewrite length_insert, Hl; lia). by injection Hk as <-.
  - rewrite vget_insert_ne in Hk by lia. destruct (Z.eqb_spec k h) as [->|Hne'].
    + rewrite vget_insert_eq in Hk by (unfold zlength; rewrite Hl; lia). by injection Hk as <-.
    + rewrite vget_insert_ne in Hk by lia. apply Hc in Hk. by rewrite (proj2 (Z.eqb_neq _ _)) in Hk.
Qed.

(** Time passes in the slot. *)
Lemma count_spec h ts d c : schedule_ok ts h -> vget (TDMA.counter ts) h = Ok c -> 0 <= d ->
  safe (valter (fun x => x + d) (TDMA.counter ts) h) (fun l =>
    schedule_ok (ts <| TDMA.counter := l |>) h /\ vget l h = Ok (c + d)).
Proof.
  intros [Hi Hl Hp Hh Hc] Hget Hd. pose proof (vget_bound _ _ _ Hget) as Hb.
  apply safe_valter; [done|]. intros x Hx. apply vget_Ok in Hget as Hget'. destruct Hget' as [_ Hget'].
  assert (x = c) as -> by congruence. split; [|by apply vget_insert_eq].
  split; simpl; try done; [by rewrite length_insert|]. intros k y Hk. destruct (Z.eqb_spec k h) as [->|Hne].
  - rewrite vget_insert_eq in Hk by done. injection Hk as <-. apply Hc in Hget. rewrite Z.eqb_refl in Hget. lia.
  - rewrite vget_insert_ne in Hk by lia. apply Hc in Hk. by rewrite (proj2 (Z.eqb_neq _ _)) in Hk.
Qed.

(** ** One wakeup of an injection port *)

(** What a wakeup of router [id] does to the schedule and to the number of
    flits its unit has taken in the slot, given the flits that wait. *)
Inductive slot_step (id : Z) (ts : TDMA.t) (k : Z) (due : list flit.t)
    : TDMA.t -> Z -> list flit.t -> Prop :=
| slot_other h : schedule_ok ts h -> id <> h -> slot_step id ts k due ts k []
| slot_ends ts' h' c : schedule_ok ts id -> vget (TDMA.counter ts) id = Ok c -> TDMA.THRES_SLOT <= c ->
    next_slot ts ts' -> schedule_ok ts' h' -> slot_step id ts k due ts' 0 []
| slot_runs ts' c c' : schedule_ok ts id -> vget (TDMA.counter ts) id = Ok c -> c < TDMA.THRES_SLOT ->
    schedule_ok ts' id -> same_slot ts ts' -> vget (TDMA.counter ts') id = Ok c' -> c < c' ->
    slot_step id ts k due ts' (if k <? TDMA.THRES_FLIT then k + zlength due else k)
      (if k <? TDMA.THRES_FLIT then due else []).

Section tdma.
Context (net : NetParams) (now id n : Z).
Context (Rt : RouteInfo -> Z -> PortDirection -> Prop) (J : RState -> Prop) (Hroute : Routes net now id n Rt J).

Record slotted (r : Router.t) (i : Z) (u : InputUnit.t) (ts : TDMA.t) (ts' : TDMA.t) (r' : Router.t)
    (g' : Globals) : Prop := {
  sl_inv : in_inv net now id n r';
  sl_J : J (rstate r' g');
  sl_frame : same_frame r r';
  sl_step : exists u' taken, unit_at r' i u' /\ link_flits u = taken ++ link_flits u' /\
    router_bag r' = router_bag r ⊎ bag_of taken /\
    slot_step (m_id r) ts (InputUnit.round_flit u) (waiting now u) ts' (InputUnit.round_flit u') taken;
}.

(** Scheduling the router's next wakeup changes nothing else. *)
Lemma slotted_schedule r i u ts ts' r' g' d : slotted r i u ts ts' r' g' -> 0 <= d ->
  safe (schedule_wakeup now d r') (fun r'' => slotted r i u ts ts' r'' g').
Proof.
  intros Hs Hd. pose proof Hs as [Hinv HJ Hfr (u' & taken & Hu' & Hl & Hb & Hst)].
  eapply safe_mono; [apply schedule_wakeup_safe; [apply Hinv|done]|].
  intros r'' (c & -> & Hc).
  split; [by apply in_inv_consumer|done|eapply same_frame_trans; [exact Hfr|by split]|by exists u', taken].
Qed.

Definition prep_tdma (i : Z) (f : flit.t) (r : Router.t) (g : Globals) : res (flit.t * (Router.t * Globals)) :=
  u ← vget (m_input_unit r) i;
  r ← setInputUnit i (u <| InputUnit.round_flit ::= Z.succ |>) r;
  let r := if negb (dest_router (flit.m_route f) =? m_id r) && flit.is_tail f
           then r <| inS0 ::= (fun s => s <| detour_counts ::= incr64 |>) |> else r in
  Ok (f, (r, g)).

Lemma prep_tdma_spec : prepares net now id n Rt J Z.succ prep_tdma.
Proof.
  intros r g i u f Hinv Hu Hacc HJ. unfold prep_tdma. pose proof Hu as Hu'. unfold unit_at in Hu'.
  rewrite Hu'. cbn [mbind res_bind]. rewrite setInputUnit_eq by (by eapply vget_bound). cbn [mbind res_bind].
  exists (u <| InputUnit.round_flit ::= Z.succ |>). split; [|done].
  assert (Hh : hist_inv now (InputUnit.HR u)) by (apply (Forall_vget _ _ _ _ (iv_hist _ _ _ _ _ Hinv) Hu)).
  by case_match; split; try done.
Qed.

Lemma tdma_inject_with i ts r g u : unit_at r i u -> tdma_inject net now i ts r g =
  if InputUnit.round_flit u <? TDMA.THRES_FLIT then
    '(f, r) ← consume i r; '(f, (r, g)) ← prep_tdma i f r g; x ← receive net now false i f r g;
    c ← (if m_latency x.1 =? 1 then Ok (TDMA.counter ts)
         else valter (fun y => y + (m_latency x.1 - 1)) (TDMA.counter ts) (m_id x.1));
    Ok (ts <| TDMA.counter := c |>, x)
  else Ok (ts, (r, g)).
Proof.
  intros Hu. unfold tdma_inject, prep_tdma. unfold unit_at in Hu. rewrite Hu. cbn [mbind res_bind].
  destruct (_ <? _); [|done]. destruct (consume i r) as [[f r1]|]; [|done]. cbn [mbind res_bind].
  destruct (vget (m_input_unit r1) i) as [u1|]; [|done]. cbn [mbind res_bind].
  destruct (setInputUnit i _ r1) as [r2|]; [|done]. cbn [mbind res_bind].
  by destruct (receive _ _ _ _ _ _ _) as [[r3 g3]|].
Qed.

(** A wakeup in the slot, up to the tick of the slot's counter. *)
Record injected (r : Router.t) (i : Z) (u : InputUnit.t) (c : Z) (ts ts' : TDMA.t) (r' : Router.t)
    (g' : Globals) : Prop := {
  ij_inv : in_inv net now id n r';
  ij_J : J (rstate r' g');
  ij_frame : same_frame r r';
  ij_sched : schedule_ok ts' (m_id r);
  ij_slot : same_slot ts ts';
  ij_count : exists c', vget (TDMA.counter ts') (m_id r) = Ok c' /\ c <= c';
  ij_unit : exists u', let more := InputUnit.round_flit u <? TDMA.THRES_FLIT in
    let taken := if more then waiting now u else [] in
    unit_at r' i u' /\ link_flits u = taken ++ link_flits u' /\ router_bag r' = router_bag r ⊎ bag_of taken /\
    InputUnit.round_flit u' = InputUnit.round_flit u + zlength taken;
}.

Lemma injected_nothing r i u c ts g : in_inv net now id n r -> J (rstate r g) -> schedule_ok ts (m_id r) ->
  unit_at r i u -> vget (TDMA.counter ts) (m_id r) = Ok c ->
  (if InputUnit.round_flit u <? TDMA.THRES_FLIT then waiting now u else []) = [] ->
  injected r i u c ts ts r g.
Proof.
  intros Hinv HJ Hs Hu Hc Hno. split; try done; [by exists c|]. exists u. cbv zeta. rewrite Hno.
  unfold zlength. simpl. rewrite bag_nil. do 3 (split; [done|]). lia.
Qed.

Lemma tdma_inject_spec r g i u c ts f : in_inv net now id n r -> unit_at r i u -> arrival_ok now Rt r u ->
  J (rstate r g) -> schedule_ok ts (m_id r) -> vget (TDMA.counter ts) (m_id r) = Ok c ->
  waiting now u = [f] -> 1 <= m_latency r ->
  safe (tdma_inject net now i ts r g) (fun '(ts', (r', g')) => injected r i u c ts ts' r' g').
Proof.
  intros Hinv Hu Harr HJ Hs Hc Hw Hlat. rewrite (tdma_inject_with i ts r g u Hu).
  destruct (_ <? _) eqn:Hk; [|apply injected_nothing; rewrite ?Hk; done].
  eapply (take_spec net now id n Rt J Hroute _ _ Z.succ prep_tdma false r g i u f); try done; [apply prep_tdma_spec|].
  intros r' g' u' [Hinv' HJ' Hfr _ _ Hbag _ _] Hu' Hl Hrf. cbn [fst].
  rewrite (sf_latency _ _ Hfr), (sf_id _ _ Hfr).
  assert (Hend : forall ts', schedule_ok ts' (m_id r) -> same_slot ts ts' ->
    (exists c', vget (TDMA.counter ts') (m_id r) = Ok c' /\ c <= c') -> injected r i u c ts ts' r' g').
  { intros ts' Hs' Hsame Hc'. split; try done. exists u'. cbv zeta. rewrite Hk, Hw. rewrite Hw in Hbag.
    unfold zlength. simpl. do 3 (split; [done|]). lia. }
  destruct (_ =? 1) eqn:E; cbn [mbind res_bind].
  - apply Hend; [by destruct ts|done|by exists c].
  - apply safe_bind. eapply safe_mono; [apply (count_spec (m_id r) ts (m_latency r - 1) c); [done..|lia]|].
    intros l [Hs' Hc']. simpl. apply Hend; [done|done|]. exists (c + (m_latency r - 1)). split; [done|lia].
Qed.

Lemma injected_ticks r i u c ts ts1 r1 g1 : injected r i u c ts ts1 r1 g1 -> schedule_ok ts (m_id r) ->
  vget (TDMA.counter ts) (m_id r) = Ok c -> c < TDMA.THRES_SLOT ->
  safe (l ← valter Z.succ (TDMA.counter ts1) (m_id r); r1 ← schedule_wakeup now 1 r1;
        Ok (ts1 <| TDMA.counter := l |>, (r1, g1)))
    (fun '(ts', (r', g')) => slotted r i u ts ts' r' g').
Proof.
  intros [Hinv HJ Hfr Hs1 Hsame (c1 & Hc1 & Hle) (u' & Hu' & Hl & Hb & Hrf)] Hs Hc Hlt.
  apply safe_bind. eapply safe_mono; [apply (count_spec (m_id r) ts1 1 c1); [done..|lia]|].
  intros l [Hs' Hc']. apply safe_bind.
  eapply safe_mono; [apply (slotted_schedule r i u ts (ts1 <| TDMA.counter := l |>) r1 g1); [|lia]|by intros].
  split; try done. exists u', (if InputUnit.round_flit u <? TDMA.THRES_FLIT then waiting now u else []).
  do 3 (split; [done|]). rewrite Hrf.
  replace (InputUnit.round_flit u + _) with
    (if InputUnit.round_flit u <? TDMA.THRES_FLIT then InputUnit.round_flit u + zlength (waiting now u)
     else InputUnit.round_flit u) by (destruct (_ <? _); unfold zlength; simpl; lia).
  eapply slot_runs; try done. lia.
Qed.

(** The end of a slot. *)
Lemma slot_end_spec r g i u c ts : in_inv net now id n r -> unit_at r i u -> J (rstate r g) ->
  schedule_ok ts (m_id r) -> vget (TDMA.counter ts) (m_id r) = Ok c -> TDMA.THRES_SLOT <= c ->
  safe (u ← vget (m_input_unit r) i;
        r1 ← setInputUnit i (u <| InputUnit.round_flit := 0 |>) r;
        '(ts, rg) ← TDMA.change_round (m_id r) ts (g_rng g);
        r1 ← schedule_wakeup now TDMA.THRES_SLOT r1;
        Ok (ts, (r1, g <| g_rng := rg |>)))
    (fun '(ts', (r', g')) => slotted r i u ts ts' r' g').
Proof.
  intros Hinv Hu HJ Hs Hc Hge. pose proof Hu as Hu0. unfold unit_at in Hu0. rewrite Hu0. cbn [mbind res_bind].
  pose proof (vget_bound _ _ _ Hu) as Hub. rewrite setInputUnit_eq by done. cbn [mbind res_bind].
  set (u1 := u <| InputUnit.round_flit := 0 |>).
  set (r1 := r <| m_input_unit := <[Z.to_nat i := u1]> (m_input_unit r) |>).
  apply safe_bind. eapply safe_mono; [by apply change_round_spec|]. intros [ts' rg] (Hnext & h' & Hs').
  destruct (swap_unit net now id n r r1 i u u1) as (Hinv1 & Hbag1 & _); try done.
  { apply (Forall_vget _ _ _ _ (iv_hist _ _ _ _ _ Hinv) Hu). }
  apply safe_bind. eapply safe_mono; [apply (slotted_schedule r i u ts ts' r1 (g <| g_rng := rg |>)); [|done]|by intros].
  split; [done| |by split|].
  - apply (routes_draw (Routes := Hroute)) with (g := rg) in HJ. exact HJ.
  - exists u1, []. split; [unfold unit_at; by apply vget_insert_eq|]. split; [done|].
    split; [by rewrite bag_nil|]. by eapply slot_ends.
Qed.

Lemma wakeup_tdma_spec r g i u ts h : in_inv net now id n r -> unit_at r i u -> InputUnit.m_id u = 0 ->
  arrival_ok now Rt r u -> J (rstate r g) -> schedule_ok ts h -> 0 <= m_id r < 16 -> 1 <= m_latency r ->
  safe (wakeup_tdma net now i ts r g) (fun '(ts', (r', g')) => slotted r i u ts ts' r' g').
Proof.
  intros Hinv Hu Hport Harr HJ Hs Hcore Hlat. unfold wakeup_tdma. pose proof Hu as Hu0. unfold unit_at in Hu0.
  rewrite Hu0. cbn [mbind res_bind]. rewrite Hport. cbn [Z.eqb]. unfold wakeup_tdma_port0.
  rewrite (initialise_later _ _ _ Hs). cbv zeta.
  destruct (counter_get ts h (if 0 <? m_id r then m_id r - 1 else TDMA.CORE_NUM - 1) Hs) as [c0 ->].
  { unfold TDMA.CORE_NUM. destruct (Z.ltb_spec 0 (m_id r)); lia. }
  cbn [mbind res_bind]. destruct (counter_get ts h (m_id r) Hs Hcore) as [c Hc]. rewrite Hc. cbn [mbind res_bind].
  pose proof (counter_enabled ts h _ _ Hs Hc) as Hen. destruct (Z.leb_spec 0 c) as [Hpos|Hneg].
  - assert (m_id r = h) as <- by tauto. unfold link_ready. rewrite Hu0. cbn [mbind res_bind].
    destruct (Z.leb_spec TDMA.THRES_SLOT c) as [Hge|Hlt].
    + rewrite andb_false_r. cbn [mbind res_bind]. by eapply slot_end_spec.
    + rewrite andb_true_r. apply safe_bind. eapply safe_mono.
      * instantiate (1 := fun '(ts1, (r1, g1)) => injected r i u c ts ts1 r1 g1).
        destruct (waiting_spec now u) as [[Hw ->]|(f & l & Hw & -> & _)]; [|by eapply tdma_inject_spec].
        apply injected_nothing; try done. rewrite Hw. by destruct (_ <? _).
      * intros [ts1 [r1 g1]] Hij. by apply injected_ticks with (c := c).
  - apply safe_bind. eapply safe_mono; [apply (slotted_schedule r i u ts ts r g); [|done]|by intros].
    split; try done. exists u, []. rewrite bag_nil. do 3 (split; [done|]).
    apply slot_other with h; [done|]. intros Heq. apply Hen in Heq. lia.
Qed.

End tdma.

(** The first wakeup of all makes the schedule. *)
Lemma wakeup_tdma_start net now i r g u : unit_at r i u -> InputUnit.m_id u = 0 ->
  wakeup_tdma net now i TDMA.start r g = wakeup_tdma net now i (TDMA.initialise (m_id r) TDMA.start) r g.
Proof.
  intros Hu Hport. unfold wakeup_tdma. unfold unit_at in Hu. rewrite Hu. cbn [mbind res_bind].
  by rewrite Hport.
Qed.

(** ** Runs of the sixteen routers *)

(** The wakeups of the injection ports of all routers, in the order in
    which they happen.  Between two wakeups a router does its other work,
    which changes neither the schedule nor the number [k] of flits its
    injection port took in the slot.  An event records the slot in which it
    falls, the router and the flits taken. *)
Record event := Event { ev_slot : nat; ev_router : Z; ev_taken : list flit.t }.

Record tdma_state := TdmaState { ts_sched : TDMA.t; ts_taken : Z -> Z; ts_slot : nat }.

Definition tdma_init : tdma_state := TdmaState TDMA.start (fun _ => 0) 0.

Inductive tdma_step (net : NetParams) : tdma_state -> event -> tdma_state -> Prop :=
| TdmaStep now n Rt J r g i u ts k slot ts' r' g' u' taken :
    Routes net now (m_id r) n Rt J -> in_inv net now (m_id r) n r -> J (rstate r g) ->
    unit_at r i u -> InputUnit.m_id u = 0 -> arrival_ok now Rt r u ->
    0 <= m_id r < TDMA.CORE_NUM -> 1 <= m_latency r -> InputUnit.round_flit u = k (m_id r) ->
    wakeup_tdma net now i ts r g = Ok (ts', (r', g')) ->
    unit_at r' i u' -> link_flits u = taken ++ link_flits u' ->
    tdma_step net (TdmaState ts k slot) (Event slot (m_id r) taken)
      (TdmaState ts' (fun id => if id =? m_id r then InputUnit.round_flit u' else k id)
        (if TDMA.round_cnt ts' =? TDMA.round_cnt (TDMA.initialise (m_id r) ts) then slot else S slot)).

Inductive tdma_run (net : NetParams) : list event -> tdma_state -> Prop :=
| run_start : tdma_run net [] tdma_init
| run_step es s e s' : tdma_run net es s -> tdma_step net s e s' -> tdma_run net (es ++ [e]) s'.

(** The flits taken in a slot, by anybody. *)
Definition slot_flits (slot : nat) (es : list event) : list flit.t :=
  es ≫= (fun e => if decide (ev_slot e = slot) then ev_taken e else []).

(** Only [h] takes flits in the slot. *)
Definition slot_of (slot : nat) (h : Z) (es : list event) : Prop :=
  Forall (fun e => ev_slot e = slot -> ev_taken e <> [] -> ev_router e = h) es.

Lemma slot_flits_app slot es e : slot_flits slot (es ++ [e]) =
  slot_flits slot es ++ (if decide (ev_slot e = slot) then ev_taken e else []).
Proof. unfold slot_flits. rewrite bind_app. simpl. by rewrite app_nil_r. Qed.

Lemma slot_flits_new slot es : Forall (fun e => (ev_slot e < slot)%nat) es -> slot_flits slot es = [].
Proof.
  induction 1 as [|e es He _ IH]; [done|]. unfold slot_flits. simpl. rewrite decide_False by lia. exact IH.
Qed.

(** The state of the schedule and what happened in each slot so far. *)
Record run_ok (es : list event) (s : tdma_state) (h : Z) : Prop := {
  rk_sched : schedule_ok (ts_sched s) h;
  rk_others : forall id, id <> h -> ts_taken s id = 0;
  rk_taken : zlength (slot_flits (ts_slot s) es) = ts_taken s h;
  rk_share : forall slot, zlength (slot_flits slot es) <= TDMA.THRES_FLIT;
  rk_past : Forall (fun e => (ev_slot e <= ts_slot s)%nat) es;
  rk_alone : forall slot, exists h', slot_of slot h' es;
  rk_mine : slot_of (ts_slot s) h es;
}.

Lemma slot_of_app slot h es e : slot_of slot h es -> (ev_slot e = slot -> ev_taken e <> [] -> ev_router e = h) ->
  slot_of slot h (es ++ [e]).
Proof. intros Hes He. apply Forall_app. split; [done|]. by apply Forall_singleton. Qed.

Lemma waiting_length now u : zlength (waiting now u) <= 1.
Proof. unfold waiting, zlength. repeat case_match; simpl; lia. Qed.

Lemma holder_unique ts h h' : schedule_ok ts h -> schedule_ok ts h' -> h = h'.
Proof. intros [_ _ _ H _] [_ _ _ H' _]. congruence. Qed.

Lemma next_slot_moves ts ts' h : schedule_ok ts h -> next_slot ts ts' -> TDMA.round_cnt ts' <> TDMA.round_cnt ts.
Proof.
  intros Hs. pose proof (round_bound _ _ Hs). unfold next_slot. destruct (Z.eqb_spec (TDMA.round_cnt ts) 15); lia.
Qed.

(** A wakeup that took nothing in a slot that goes on. *)
Lemma run_ok_idle es s h id k' : run_ok es s h -> (forall j, k' j = ts_taken s j) ->
  run_ok (es ++ [Event (ts_slot s) id []]) (TdmaState (ts_sched s) k' (ts_slot s)) h.
Proof.
  intros [Hs Ho Ht Hsh Hp Ha Hm] Hk.
  assert (Hnil : forall slot, slot_flits slot (es ++ [Event (ts_slot s) id []]) = slot_flits slot es).
  { intros slot. rewrite slot_flits_app. simpl. case_decide; by rewrite app_nil_r. }
  split; simpl; intros; rewrite ?Hk, ?Hnil; try done.
  - by apply Ho.
  - apply Forall_app. split; [done|]. by apply Forall_singleton.
  - destruct (Ha slot) as [h' Hh']. exists h'. by apply slot_of_app.
  - by apply slot_of_app.
Qed.

(** The slot of [h] ends. *)
Lemma run_ok_ends es s h ts' h' k' : run_ok es s h -> schedule_ok ts' h' ->
  (forall j, k' j = if j =? h then 0 else ts_taken s j) ->
  run_ok (es ++ [Event (ts_slot s) h []]) (TdmaState ts' k' (S (ts_slot s))) h'.
Proof.
  intros Hok Hs' Hk. pose proof (run_ok_idle es s h h (ts_taken s) Hok (fun _ => eq_refl)) as [_ _ _ Hsh Hp Ha _].
  assert (Hz : forall j, k' j = 0).
  { intros j. rewrite Hk. destruct (Z.eqb_spec j h); [done|]. by apply (rk_others _ _ _ Hok). }
  simpl in Hp. split; simpl; try done.
  - rewrite slot_flits_new, Hz; [done|]. eapply list.Forall_impl; [exact Hp|]. simpl. intros. lia.
  - eapply list.Forall_impl; [exact Hp|]. simpl. intros. lia.
  - eapply list.Forall_impl; [exact Hp|]. simpl. intros e He Heq. lia.
Qed.

(** [h] takes flits in its slot. *)
Lemma run_ok_takes es s h ts' k' taken : run_ok es s h -> schedule_ok ts' h ->
  ts_taken s h + zlength taken <= TDMA.THRES_FLIT ->
  (forall j, k' j = if j =? h then ts_taken s h + zlength taken else ts_taken s j) ->
  run_ok (es ++ [Event (ts_slot s) h taken]) (TdmaState ts' k' (ts_slot s)) h.
Proof.
  intros [Hs Ho Ht Hsh Hp Ha Hm] Hs' Hb Hk.
  assert (Hnow : zlength (slot_flits (ts_slot s) (es ++ [Event (ts_slot s) h taken])) = ts_taken s h + zlength taken).
  { rewrite slot_flits_app. simpl. rewrite decide_True by done. unfold zlength in *. rewrite length_app. lia. }
  split; simpl; try done.
  - intros id Hid. rewrite Hk, (proj2 (Z.eqb_neq _ _)) by done. by apply Ho.
  - rewrite Hk, Z.eqb_refl. exact Hnow.
  - intros slot. destruct (decide (slot = ts_slot s)) as [->|Hne]; [lia|].
    rewrite slot_flits_app. simpl. rewrite decide_False, app_nil_r by congruence. apply Hsh.
  - apply Forall_app. split; [done|]. by apply Forall_singleton.
  - intros slot. destruct (decide (slot = ts_slot s)) as [->|Hne].
    + exists h. by apply slot_of_app.
    + destruct (Ha slot) as [h' Hh']. exists h'. apply slot_of_app; [done|]. simpl. congruence.
  - by apply slot_of_app.
Qed.

(** One event, from what a wakeup does to the schedule. *)
Lemma run_ok_step es s h id due ts' k' taken : run_ok es s h ->
  slot_step id (ts_sched s) (ts_taken s id) due ts' k' taken -> zlength due <= 1 ->
  exists h', run_ok (es ++ [Event (ts_slot s) id taken])
    (TdmaState ts' (fun j => if j =? id then k' else ts_taken s j)
      (if TDMA.round_cnt ts' =? TDMA.round_cnt (ts_sched s) then ts_slot s else S (ts_slot s))) h'.
Proof.
  intros Hok Hst Hdue. pose proof (rk_sched _ _ _ Hok) as Hs. inversion Hst; subst.
  - rewrite Z.eqb_refl. exists h. apply run_ok_idle; [done|]. intros j. by destruct (Z.eqb_spec j id) as [->|].
  - assert (id = h) as -> by (by apply (holder_unique (ts_sched s))).
    rewrite (proj2 (Z.eqb_neq _ _)) by (by eapply next_slot_moves). exists h'. by apply run_ok_ends.
  - assert (id = h) as -> by (by apply (holder_unique (ts_sched s))). exists h.
    match goal with H : same_slot _ _ |- _ => destruct H as [Hcnt _] end.
    rewrite Hcnt, Z.eqb_refl. simpl.
    pose proof (rk_share _ _ _ Hok (ts_slot s)) as Hb. rewrite (rk_taken _ _ _ Hok) in Hb.
    destruct (Z.ltb_spec (ts_taken s h) TDMA.THRES_FLIT).
    + by apply run_ok_takes; [..|lia|].
    + apply run_ok_takes; [done..|unfold zlength; simpl; lia|]. intros j. destruct (j =? h); [|done].
      unfold zlength. simpl. lia.
Qed.

(** ** The theorems *)

Lemma start_run_ok id : 0 <= id < 16 ->
  run_ok [] (TdmaState (TDMA.initialise id TDMA.start) (fun _ => 0) 0) id.
Proof.
  intros Hid. pose proof (initialise_first id Hid). split; simpl; try done; try apply Forall_nil.
  intros slot. exists 0. apply Forall_nil.
Qed.

(** The event of one wakeup on a schedule that is set up. *)
Lemma tdma_step_ok net es ts k slot h now n Rt J r g i u ts' r' g' u' taken :
  run_ok es (TdmaState ts k slot) h ->
  Routes net now (m_id r) n Rt J -> in_inv net now (m_id r) n r -> J (rstate r g) ->
  unit_at r i u -> InputUnit.m_id u = 0 -> arrival_ok now Rt r u ->
  0 <= m_id r < TDMA.CORE_NUM -> 1 <= m_latency r -> InputUnit.round_flit u = k (m_id r) ->
  wakeup_tdma net now i ts r g = Ok (ts', (r', g')) ->
  unit_at r' i u' -> link_flits u = taken ++ link_flits u' ->
  exists h', run_ok (es ++ [Event slot (m_id r) taken])
    (TdmaState ts' (fun id => if id =? m_id r then InputUnit.round_flit u' else k id)
      (if TDMA.round_cnt ts' =? TDMA.round_cnt ts then slot else S slot)) h'.
Proof.
  intros Hok HR Hinv HJ Hu Hport Harr Hcore Hlat Hk Hw Hu' Hl.
  pose proof (wakeup_tdma_spec net now (m_id r) n Rt J HR r g i u ts h Hinv Hu Hport Harr HJ
    (rk_sched _ _ _ Hok) Hcore Hlat) as Hs. rewrite Hw in Hs.
  destruct Hs as [_ _ _ (u2 & taken2 & Hu2 & Hl2 & _ & Hst)]. unfold unit_at in Hu', Hu2.
  assert (u2 = u') as -> by congruence. assert (taken2 = taken) as -> by (rewrite Hl in Hl2; by apply app_inv_tail in Hl2).
  rewrite Hk in Hst. eapply (run_ok_step _ _ h (m_id r) (waiting now u) _ _ _ Hok); [exact Hst|apply waiting_length].
Qed.

Lemma tdma_run_ok net es s : tdma_run net es s -> (es = [] /\ s = tdma_init) \/ exists h, run_ok es s h.
Proof.
  induction 1 as [|es s e s' _ IH Hstep]; [by left|right]. destruct Hstep.
  destruct IH as [[-> [= -> -> ->]]|[h Hok]].
  - rewrite (wakeup_tdma_start _ _ _ _ _ u) in * by done. by eapply tdma_step_ok; [apply start_run_ok|..].
  - rewrite (initialise_later _ _ h) by apply Hok. by eapply tdma_step_ok.
Qed.

(** C25: a wakeup of an injection port under time division runs to its end and
    implements the slots.  If it is not the router's slot, nothing is taken
    from the link and the schedule stays; if the slot is over, the next router
    of the round gets it; otherwise the flit that is due is taken, unless
    the router already took eighty in this slot, and the counter of the slot
    increases.  Flits are neither lost nor made. *)
Theorem wakeup_tdma_refines net now id n Rt J r g i u ts h :
  Routes net now id n Rt J -> cycle_ok net now id n r -> J (rstate r g) ->
  unit_at r i u -> InputUnit.m_id u = 0 -> arrival_ok now Rt r u ->
  schedule_ok ts h -> 0 <= id < TDMA.CORE_NUM ->
  exists ts' r' g', wakeup_tdma net now i ts r g = Ok (ts', (r', g')) /\
    slotted net now id n J r i u ts ts' r' g'.
Proof.
  intros HR Hcy HJ Hu Hport Harr Hs Hid. rewrite <- (cy_id _ _ _ _ _ Hcy) in Hid.
  destruct (safe_inv _ _ (wakeup_tdma_spec net now id n Rt J HR r g i u ts h (cycle_in_inv _ _ _ _ _ Hcy)
    Hu Hport Harr HJ Hs Hid (proj1 (cy_units _ _ _ _ _ Hcy)))) as ([ts' [r' g']] & -> & Hsl).
  by exists ts', r', g'.
Qed.

(** C24: in every slot one router at most takes flits from its injection
    link, and at most eighty of them, in any run of the injection ports of
    the sixteen routers. *)
Theorem tdma_slot_share net es s slot : tdma_run net es s ->
  zlength (slot_flits slot es) <= TDMA.THRES_FLIT /\ exists h, slot_of slot h es.
Proof.
  intros [[-> ->]|[h Hok]]%tdma_run_ok; [|split; apply Hok].
  split; [done|]. exists 0. apply Forall_nil.
Qed.

(** The injection port of the example router, which initialises the
    schedule and takes the flit that is due. *)
Lemma corner_port : exists u, unit_at corner_busy 0 u /\ InputUnit.m_id u = 0 /\
  InputUnit.round_flit u = 0 /\ arrival_ok 500 corner_packet corner_busy u /\ link_flits u = [corner_flit].
Proof.
  destruct (vget_range (m_input_unit corner_busy) 0) as [u Hu]; [by vm_compute|].
  exists u. split; [done|]. pose proof (proj1 corner_protocol 0 u Hu) as Harr.
  vm_compute in Hu. injection Hu as <-. by split_and!.
Qed.

Lemma wakeup_tdma_refines_witness : exists u ts' r' g', unit_at corner_busy 0 u /\
  wakeup_tdma corner_net 500 0 (TDMA.initialise 0 TDMA.start) corner_busy demo_globals = Ok (ts', (r', g')) /\
  slotted corner_net 500 0 2 corner_unit corner_busy 0 u (TDMA.initialise 0 TDMA.start) ts' r' g'.
Proof.
  destruct corner_port as (u & Hu & Hid & _ & Harr & _).
  destruct (wakeup_tdma_refines corner_net 500 0 2 corner_packet corner_unit corner_busy demo_globals 0 u
    (TDMA.initialise 0 TDMA.start) 0) as (ts' & r' & g' & Hw & Hs);
    [apply corner_routes|apply corner_busy_ok|apply corner_state|done|done|done|by apply initialise_first|done|].
  exists u, ts', r', g'. split; [done|]. split; [exact Hw|exact Hs].
Defined.

Lemma corner_tdma_run : exists s, tdma_run corner_net [Event 0 (m_id corner_busy) [corner_flit]] s.
Proof.
  destruct corner_port as (u & Hu & Hid & Hk & Harr & Hl).
  destruct (wakeup_tdma corner_net 500 0 TDMA.start corner_busy demo_globals) as [[ts' [r' g']]|] eqn:E;
    [|by vm_compute in E].
  destruct (vget_range (m_input_unit r') 0) as [u' Hu'].
  { assert (Hb : safe (wakeup_tdma corner_net 500 0 TDMA.start corner_busy demo_globals)
      (fun '(_, (r, _)) => (zlength (m_input_unit r) =? 2) = true)) by (by vm_compute).
    rewrite E in Hb. simpl in Hb. apply Z.eqb_eq in Hb. lia. }
  assert (Hl' : link_flits u' = []).
  { assert (Hb : safe (wakeup_tdma corner_net 500 0 TDMA.start corner_busy demo_globals)
      (fun '(_, (r, _)) => safe (vget (m_input_unit r) 0) (fun u => link_flits u = []))) by (by vm_compute).
    rewrite E in Hb. simpl in Hb. by rewrite Hu' in Hb. }
  eexists. apply (run_step corner_net [] tdma_init); [apply run_start|].
  apply (TdmaStep corner_net 500 2 corner_packet corner_unit corner_busy demo_globals 0 u TDMA.start
    (fun _ => 0) 0 ts' r' g' u' [corner_flit]);
    [apply corner_routes|apply (cycle_in_inv _ _ _ _ _ corner_busy_ok)|apply corner_state|exact Hu|exact Hid|exact Harr|
     by vm_compute|by vm_compute|exact Hk|exact E|exact Hu'|by rewrite Hl, Hl'].
Qed.

Lemma tdma_slot_share_witness : zlength (slot_flits 0 [Event 0 (m_id corner_busy) [corner_flit]]) <= TDMA.THRES_FLIT /\
  exists h, slot_of 0 h [Event 0 (m_id corner_busy) [corner_flit]].
Proof.
  destruct corner_tdma_run as [s Hs].
  exact (tdma_slot_share corner_net [Event 0 (m_id corner_busy) [corner_flit]] s 0 Hs).
Defined.
