(* ===== verification/RouterRun.v ===== *)
(** * RouterRun: a router and its links over time

    The events of a router as a step relation: its own wakeup, the wakeups
    of its output units and of the links that feed it, and what the links
    it feeds take from it.  In every state a run reaches, the router is
    well-formed and its output channels are exclusive, so the next wakeup
    cannot fail. *)

From Stdlib Require Import Sorted.
From stdpp Require Import gmultiset.
From S2P Require Import Prelude NetDest CommonTypes Flit Channels Detector DetectorProofs RoutingUnit Clock Link.
From S2P Require Import Units Router SwitchAlloc InputWakeup RouterWakeup UnitLemmas SwitchProofs SwitchSafe.
From S2P Require Import FlitBag Crossbar InputProofs InputVariants RouterCycle SwitchTheorems RouterRouting.
From S2P Require Import Mesh MeshRouting RouterTheorems.
Import Router.

(** ** Events *)

(** [Consumer::processCurrentEvent] of a router, whose [wakeup] changes
    more than the consumer. *)
Definition router_event (net : NetParams) (now : Z)
    (inputWakeup : Z -> Router.t -> Globals -> res (Router.t * Globals))
    (r : Router.t) (g : Globals) : res (Router.t * Globals) :=
  match Consumer.m_wakeup_ticks (consumer r) with
  | [] => Err Undefined
  | curr :: rest =>
      _ ← assert (clockEdge now 0 r =? curr);
      '(r, g) ← router_wakeup net now inputWakeup (r <| consumer := Consumer.mk rest None |>) g;
      c ← Consumer.scheduleNextWakeup (em r) now (consumer r);
      Ok (r <| consumer := c |>, g)
  end.

(** The same for an output unit, which wakes up on its own when more than one
    credit is due. *)
Definition output_event (em : Clocked.t) (now : Z) (ou : OutputUnit.t) : res OutputUnit.t :=
  match Consumer.m_wakeup_ticks (OutputUnit.consumer ou) with
  | [] => Err Undefined
  | curr :: rest =>
      _ ← assert (Clocked.clockEdge now 0 em =? curr);
      ou ← OutputUnit.wakeup em now (ou <| OutputUnit.consumer := Consumer.mk rest None |>);
      c ← Consumer.scheduleNextWakeup em now (OutputUnit.consumer ou);
      Ok (ou <| OutputUnit.consumer := c |>)
  end.

(** The tick a link asks its consumer to wake up at. *)
Definition link_schedules (em : Clocked.t) (now : Z) (ev : option Z) (c : Consumer.t) : res Consumer.t :=
  match ev with None => Ok c | Some t => Consumer.scheduleEventAbsolute em now t c end.

(** ** Between two wakeups *)

(** What does not depend on the clock. *)
Record steady (net : NetParams) (now id n : Z) (r : Router.t) : Prop := {
  sd_shape : shape_ok net r;
  sd_pointers : pointers_ok r;
  sd_inputs : inputs_ok now r;
  sd_outputs : outputs_ok r;
  sd_idle : idle_requests r;
  sd_units : units_ok r;
  sd_xbar : xbar_empty r;
  sd_id : m_id r = id;
  sd_n : zlength (m_output_unit r) = n;
  sd_buf : buf_ok n r;
  sd_hist : Forall (fun u => hist_inv now (InputUnit.HR u)) (m_input_unit r);
}.

Lemma cycle_steady net now id n r : cycle_ok net now id n r -> steady net now id n r.
Proof. intros [(? & ? & ? & ? & _) ? ? _ ? ? ? ? ?]. by split. Qed.

Lemma steady_cycle net now id n r : steady net now id n r -> clock_ok now r -> out_wakes now r ->
  cycle_ok net now id n r.
Proof. intros [] Hc Hw. by split. Qed.

(** Time passes. *)
Lemma isInState_later s now now' o : now <= now' -> OutVcState.isInState s now o = true ->
  OutVcState.isInState s now' o = true.
Proof.
  intros Hle [Hs Ht]%andb_prop. unfold OutVcState.isInState. rewrite Hs. simpl.
  apply Z.leb_le in Ht. apply Z.leb_le. lia.
Qed.

Lemma vc_ok_later now now' outs v : now <= now' -> vc_ok now outs v -> vc_ok now' outs v.
Proof.
  intros Hle (Ha & Ht & Ho). split_and!; [by eapply vc_active_later|done|]. intros Hst.
  destruct (Ho Hst) as (ou & Hou & Hc). exists ou. split; [done|].
  destruct Hc as [?|(o & Hoc & Hact)]; [by left|right]. exists o. split; [done|]. by eapply isInState_later.
Qed.

Lemma getCycle_le now now' : 0 <= now <= now' -> getCycle now <= getCycle now'.
Proof. intros H. unfold getCycle. apply Z.quot_le_mono; lia. Qed.

Lemma steady_later net now now' id n r : 0 <= now <= now' -> steady net now id n r -> steady net now' id n r.
Proof.
  intros Hle []. split; try done.
  - unfold inputs_ok in *. eapply list.Forall_impl; [exact sd_inputs0|]. intros u [Hl Hall]. split; [done|].
    eapply list.Forall_impl; [exact Hall|]. intros v. apply vc_ok_later. lia.
  - eapply list.Forall_impl; [exact sd_hist0|]. intros u (Hh & Hs & Hall). split_and!; [done..|].
    eapply list.Forall_impl; [exact Hall|]. intros e [? ?]. pose proof (getCycle_le now now' Hle). lia.
Qed.

(** ** What the links change *)

(** An input unit as the router sees it, whatever its links hold. *)
Definition same_unit (u u' : InputUnit.t) : Prop :=
  same_channels u u' /\ InputUnit.HR u' = InputUnit.HR u.

Lemma steady_input net now id n r i u u' : steady net now id n r -> vget (m_input_unit r) i = Ok u ->
  same_unit u u' -> steady net now id n (r <| m_input_unit := <[Z.to_nat i := u']> (m_input_unit r) |>).
Proof.
  intros [] Hu [[] Hh]. split; try done.
  - destruct sd_shape0. split; simpl; unfold zlength in *; rewrite ?length_insert; done.
  - destruct sd_pointers0. split; [done|]. simpl. unfold zlength in *. by rewrite length_insert.
  - unfold inputs_ok. simpl. apply Forall_insert; [done|]. rewrite sh_vcs. by apply (Forall_vget _ _ _ _ sd_inputs0 Hu).
  - intros j Hj. apply sd_idle0. simpl in Hj. by rewrite zlength_insert in Hj.
  - apply (units_ok_insert r _ (Z.to_nat i) u'); [by split|done..|].
    pose proof (Forall_vget _ _ _ _ (proj2 sd_units0) Hu) as []. split; congruence.
  - simpl. apply Forall_insert; [done|]. rewrite Hh. by apply (Forall_vget _ _ _ _ sd_hist0 Hu).
Qed.

Lemma exclusive_input r i u u' : vget (m_input_unit r) i = Ok u -> same_unit u u' -> exclusive r ->
  exclusive (r <| m_input_unit := <[Z.to_nat i := u']> (m_input_unit r) |>).
Proof.
  intros Hu [[] _] Hx. apply (no_new_claims_exclusive r); [|done].
  intros j invc o c _ (w & x & [Hw Hxv] & Hxs). simpl in Hw.
  apply vget_insert in Hw as [[-> ->]|[Hne Hw]]; [|by exists w, x|by eapply vget_bound].
  rewrite sh_vcs in Hxv. by exists u, x.
Qed.

Lemma same_state_insert outs o ou ou' : vget outs o = Ok ou -> same_state ou ou' ->
  Forall2 same_state outs (<[Z.to_nat o := ou']> outs).
Proof.
  intros [_ Ho]%vget_Ok Hs. rewrite <- (list_insert_id outs (Z.to_nat o) ou) at 1 by done.
  apply Forall2_insert; [|done]. apply Forall2_same_length_lookup_2; [done|]. intros k x y Hx Hy.
  by simplify_eq.
Qed.

Lemma steady_output net now id n r o ou ou' : steady net now id n r -> vget (m_output_unit r) o = Ok ou ->
  same_state ou ou' -> steady net now id n (r <| m_output_unit := <[Z.to_nat o := ou']> (m_output_unit r) |>).
Proof.
  intros [] Hu Hs. pose proof (same_state_insert _ _ _ _ Hu Hs) as Hall. split; try done.
  - destruct sd_shape0. split; simpl; rewrite ?zlength_insert; done.
  - unfold inputs_ok. simpl. eapply list.Forall_impl; [exact sd_inputs0|]. intros u [Hl Hv]. split; [done|].
    eapply list.Forall_impl; [exact Hv|]. intros v. by apply same_state_vc_ok.
  - unfold outputs_ok. simpl. apply Forall_insert; [done|]. eapply same_state_out_ok; [done|].
    by apply (Forall_vget _ _ _ _ sd_outputs0 Hu).
  - destruct sd_units0 as [Hl Hun]. split; [done|]. eapply list.Forall_impl; [exact Hun|]. intros w []. by split.
  - simpl. by rewrite zlength_insert.
Qed.

(** Its consumer is not part of what stays. *)
Lemma steady_consumer net now id n r c : steady net now id n r -> steady net now id n (r <| consumer := c |>).
Proof.
  intros []. split; try done; [by destruct sd_shape0; split|].
  destruct sd_units0 as [Hl Hu]. split; [done|]. eapply list.Forall_impl; [exact Hu|]. intros w []. by split.
Qed.

(** ** Consumers *)

Lemma edge_le now em k m : Clocked.wf now em -> now <= k -> k = m * Clocked.clockPeriod em ->
  Clocked.clockEdge now 0 em <= k.
Proof.
  intros Hclk Hle Hk. destruct (Clocked.update_spec now em Hclk) as ((Hp & _ & Ht & Hlt) & Hper & _).
  unfold Clocked.clockEdge. rewrite Hper in *. rewrite Z.mul_0_r, Z.add_0_r, Ht, Hk.
  destruct (Z.le_gt_cases (Clocked.cycle (Clocked.update now em)) m); nia.
Qed.

(** The event of [c], if it has one, is not before [t]. *)
Definition not_before (t : Z) (c : Consumer.t) : Prop :=
  forall k, Consumer.m_wakeup_event c = Some k -> t <= k.

Lemma consumer_later em now now' c : Clocked.wf now em -> now <= now' -> not_before now' c ->
  Consumer.wf em (Clocked.clockEdge now 0 em) c -> Consumer.wf em (Clocked.clockEdge now' 0 em) c.
Proof.
  intros Hclk Hle Hnb [Hp Hev]. split; [|done]. eapply Consumer.pending_later; [exact Hp|]. intros k Hk.
  destruct Hp as [Hs Hall]. pose proof (proj1 (list.Forall_forall _ _) Hall k Hk) as [_ [m Hm]].
  destruct (Consumer.m_wakeup_ticks c) as [|k0 l] eqn:E; [by apply not_elem_of_nil in Hk|].
  pose proof (Consumer.sorted_head_le _ _ Hs k Hk). pose proof (Hnb k0 Hev).
  apply (edge_le now' em k m); [by eapply Clocked.wf_later|lia|done].
Qed.

(** The consumer whose event fires: its first tick is now. *)
Lemma event_due em now c : Clocked.wf now em -> Consumer.wf em (Clocked.clockEdge now 0 em) c ->
  Consumer.m_wakeup_event c = Some now ->
  Clocked.clockEdge now 0 em = now /\ exists rest, Consumer.m_wakeup_ticks c = now :: rest /\
    Consumer.waking em now (Consumer.mk rest None).
Proof.
  intros Hclk [[Hs Hall] Hev] Hdue. rewrite Hev in Hdue.
  destruct (Consumer.m_wakeup_ticks c) as [|k rest]; [done|]. injection Hdue as ->.
  apply list.Forall_cons in Hall as [[_ [m Hm]] Hall]. apply StronglySorted_inv in Hs as [Hs _].
  rewrite (Clocked.clockEdge_aligned now m em Hclk Hm) in *. split; [done|]. exists rest. split; [done|].
  split; [|done]. by split.
Qed.

Lemma link_schedules_wf em now ev c : Clocked.wf now em -> 0 <= now -> (forall t, ev = Some t -> now <= t) ->
  Consumer.wf em (Clocked.clockEdge now 0 em) c ->
  safe (link_schedules em now ev c) (Consumer.wf em (Clocked.clockEdge now 0 em)).
Proof.
  intros Hclk Hnow Hev Hwf. destruct ev as [t|]; [|done]. specialize (Hev t eq_refl).
  eapply safe_mono; [apply Consumer.schedule_wf; [by apply Consumer.wf_waking|apply Consumer.request_edge; [done|lia]|eauto]|].
  by intros c' [? _].
Qed.

(** ** The step relation *)

Section run.
Context (net : NetParams) (id n junk : Z) (struct : InputStruct).
Context (Rt : RouteInfo -> Z -> PortDirection -> Prop) (J : RState -> Prop).

Definition state : Type := Z * Router.t * Globals.

Inductive step : state -> state -> Prop :=
(** The event queue moves on to a tick at or before the next event. *)
| step_time now now' r g : now <= now' -> not_before now' (consumer r) ->
    Forall (fun ou => not_before now' (OutputUnit.consumer ou)) (m_output_unit r) ->
    step (now, r, g) (now', r, g)
(** The router's event, while its links keep the protocol. *)
| step_router now r g r' g' : Consumer.m_wakeup_event (consumer r) = Some now -> protocol now Rt r ->
    router_event net now (input_wakeup net now junk struct) r g = Ok (r', g') ->
    step (now, r, g) (now, r', g')
(** The event of an output unit. *)
| step_output now r g o ou ou' : vget (m_output_unit r) o = Ok ou ->
    Consumer.m_wakeup_event (OutputUnit.consumer ou) = Some now -> credit_ok now r o ou ->
    output_event (em r) now ou = Ok ou' ->
    step (now, r, g) (now, r <| m_output_unit := <[Z.to_nat o := ou']> (m_output_unit r) |>, g)
(** The link of an input unit wakes up and takes from its source queue. *)
| step_in_link now r g i u q l q' ev c : vget (m_input_unit r) i = Ok u ->
    NetworkLink.wakeup now (InputUnit.m_in_link u) q = Ok (l, q', ev) ->
    (forall t, ev = Some t -> now <= t) -> link_schedules (em r) now ev (consumer r) = Ok c ->
    step (now, r, g) (now, r <| m_input_unit := <[Z.to_nat i := u <| InputUnit.m_in_link := l |>]>
      (m_input_unit r) |> <| consumer := c |>, g)
(** The credit link of an output unit does. *)
| step_credit_link now r g o ou q l q' ev c : vget (m_output_unit r) o = Ok ou ->
    NetworkLink.wakeup now (OutputUnit.m_credit_link ou) q = Ok (l, q', ev) ->
    (forall t, ev = Some t -> now <= t) -> link_schedules (em r) now ev (consumer r) = Ok c ->
    step (now, r, g) (now, r <| m_output_unit := <[Z.to_nat o := ou <| OutputUnit.m_credit_link := l |>]>
      (m_output_unit r) |> <| consumer := c |>, g)
(** The link behind an output unit takes a flit from its queue. *)
| step_out_link now r g o ou f b : vget (m_output_unit r) o = Ok ou ->
    flitBuffer.getTopFlit (OutputUnit.outBuffer ou) = Ok (f, b) ->
    step (now, r, g) (now, r <| m_output_unit := <[Z.to_nat o := ou <| OutputUnit.outBuffer := b |>]>
      (m_output_unit r) |>, g)
(** The credit link behind an input unit takes a credit. *)
| step_credit_out now r g i u f b : vget (m_input_unit r) i = Ok u ->
    flitBuffer.getTopFlit (InputUnit.creditQueue u) = Ok (f, b) ->
    step (now, r, g) (now, r <| m_input_unit := <[Z.to_nat i := u <| InputUnit.creditQueue := b |>]>
      (m_input_unit r) |>, g).

(** The invariant. *)
Record run_inv (s : state) : Prop := {
  ri_now : 0 <= s.1.1;
  ri_steady : steady net s.1.1 id n s.1.2;
  ri_clock : Clocked.wf s.1.1 (em s.1.2);
  ri_router : Consumer.wf (em s.1.2) (Clocked.clockEdge s.1.1 0 (em s.1.2)) (consumer s.1.2);
  ri_outputs : Forall (fun ou => Consumer.wf (em s.1.2) (Clocked.clockEdge s.1.1 0 (em s.1.2))
                 (OutputUnit.consumer ou)) (m_output_unit s.1.2);
  ri_J : J (rstate s.1.2 s.2);
  ri_exclusive : exclusive s.1.2;
}.

Context (Hroute : forall now, Routes net now id n Rt J).

Lemma router_event_safe now r g : getCycle now < 2 ^ 31 -> run_inv (now, r, g) ->
  Consumer.m_wakeup_event (consumer r) = Some now -> protocol now Rt r ->
  safe (router_event net now (input_wakeup net now junk struct) r g) (fun '(r', g') => run_inv (now, r', g')).
Proof.
  intros Hshort [] Hdue Hpr. simpl in *.
  destruct (event_due (em r) now (consumer r)) as (Hedge & rest & Hticks & Hwk); [done..|].
  unfold router_event, clockEdge. rewrite Hticks, Hedge, Z.eqb_refl. cbn [assert mbind res_bind].
  rewrite Hedge in *. set (r0 := r <| consumer := Consumer.mk rest None |>).
  assert (Hcy : cycle_ok net now id n r0).
  { apply steady_cycle; [by apply steady_consumer|by split_and!|done]. }
  apply safe_bind. eapply safe_mono; [by apply (router_wakeup_spec net now id n junk struct Rt J (Hroute now) ri_now0 Hshort r0 g)|].
  intros [r1 g1] [Hcy1 HJ1 _ _ Hx1]. pose proof Hcy1 as [(_ & _ & _ & _ & Hclk1 & Hedge1 & Hwk1) _ _ Hout1 _ _ _ _ _].
  apply safe_bind. eapply safe_mono; [apply (Consumer.scheduleNextWakeup_wf (em r1) now); by rewrite Hedge1|].
  intros c [Hc _]. split; simpl; try done.
  - by apply steady_consumer, cycle_steady.
  - by rewrite Hedge1.
  - by apply Hx1.
Qed.

(** A credit is processed outside the router's cycle. *)
Lemma steady_credited now r o ou ou' : steady net now id n r -> vget (m_output_unit r) o = Ok ou ->
  credited now r o ou ou' -> steady net now id n (r <| m_output_unit := <[Z.to_nat o := ou']> (m_output_unit r) |>).
Proof.
  intros [] Ho Hcd.
  assert (Hch : channels_ok now r (<[Z.to_nat o := ou']> (m_output_unit r))).
  { eapply credited_channels; [|exact Ho|exact Hcd]. eapply list.Forall_impl; [exact sd_inputs0|]. by intros u [_ ?]. }
  split; try done.
  - destruct sd_shape0. split; simpl; rewrite ?zlength_insert; done.
  - unfold inputs_ok. simpl. apply list.Forall_forall. intros u Hu. split.
    + by apply (proj1 (list.Forall_forall _ _) sd_inputs0 u).
    + by apply (proj1 (list.Forall_forall _ _) Hch).
  - unfold outputs_ok. simpl. apply Forall_insert; [done|apply Hcd].
  - destruct sd_units0 as [Hl Hun]. split; [done|]. eapply list.Forall_impl; [exact Hun|]. intros w []. by split.
  - simpl. by rewrite zlength_insert.
Qed.

Lemma output_event_safe now r g o ou : run_inv (now, r, g) -> vget (m_output_unit r) o = Ok ou ->
  Consumer.m_wakeup_event (OutputUnit.consumer ou) = Some now -> credit_ok now r o ou ->
  safe (output_event (em r) now ou) (fun ou' =>
    run_inv (now, r <| m_output_unit := <[Z.to_nat o := ou']> (m_output_unit r) |>, g)).
Proof.
  intros [] Ho Hdue Hcr. simpl in *. pose proof (Forall_vget _ _ _ _ ri_outputs0 Ho) as Hwf.
  destruct (event_due (em r) now (OutputUnit.consumer ou)) as (Hedge & rest & Hticks & Hwk); [done..|].
  unfold output_event. rewrite Hticks, Hedge, Z.eqb_refl. cbn [assert mbind res_bind]. rewrite Hedge in *.
  set (ou0 := ou <| OutputUnit.consumer := Consumer.mk rest None |>).
  pose proof (vget_bound _ _ _ Ho) as Hob.
  assert (Hok0 : out_ok (m_virtual_networks r) ou0).
  { eapply (same_state_out_ok _ ou); [done|]. by apply (Forall_vget _ _ _ _ (sd_outputs _ _ _ _ _ ri_steady0) Ho). }
  apply safe_bind. eapply safe_mono; [apply (wakeup_credit_spec now r o ou0); try done|].
  { split_and!; [done..|]. by apply Consumer.wf_waking. }
  intros ou1 [Hok1 Hwk1 Hwf1 Hq1 Hown1]. apply safe_bind.
  eapply safe_mono; [apply (Consumer.scheduleNextWakeup_wf (em r) now); by rewrite Hedge|].
  intros c [Hc _]. rewrite Hedge in Hc. simpl.
  assert (Hcd : credited now r o ou (ou1 <| OutputUnit.consumer := c |>)).
  { split; try done. by apply Consumer.wf_waking. }
  split; simpl; try done.
  - by eapply steady_credited.
  - by rewrite Hedge.
  - rewrite Hedge. by apply Forall_insert.
Qed.

(** Any step keeps the invariant. *)
Lemma step_inv s s' : step s s' -> getCycle s'.1.1 < 2 ^ 31 -> run_inv s -> run_inv s'.
Proof.
  intros Hstep Hshort Hinv. destruct Hstep as
    [now now' r g Hle Hnb Hnbo|now r g r' g' Hdue Hpr Hev|now r g o ou ou' Ho Hdue Hcr Hev
    |now r g i u q l q' ev c Hu Hl Ht Hc|now r g o ou q l q' ev c Ho Hl Ht Hc
    |now r g o ou f b Ho Hb|now r g i u f b Hu Hb]; simpl in Hshort.
  - destruct Hinv. simpl in *. split; simpl; try done; [lia|by eapply steady_later; [|done]; lia| | |].
    + by eapply Clocked.wf_later.
    + by eapply consumer_later.
    + apply list.Forall_forall. intros ou Hou. rewrite list.Forall_forall in ri_outputs0, Hnbo.
      eapply consumer_later; eauto.
  - pose proof (router_event_safe now r g Hshort Hinv Hdue Hpr) as Hs. by rewrite Hev in Hs.
  - pose proof (output_event_safe now r g o ou Hinv Ho Hdue Hcr) as Hs. by rewrite Hev in Hs.
  - destruct Hinv. simpl in *. pose proof (link_schedules_wf (em r) now ev (consumer r)) as Hs. rewrite Hc in Hs.
    split; simpl; try done; [|by apply Hs|].
    + apply (steady_consumer net now id n). by apply (steady_input net now id n r i u).
    + by apply (exclusive_input r i u (u <| InputUnit.m_in_link := l |>)).
  - destruct Hinv. simpl in *. pose proof (link_schedules_wf (em r) now ev (consumer r)) as Hs. rewrite Hc in Hs.
    split; simpl; try done; [|by apply Hs|].
    + apply (steady_consumer net now id n). by apply (steady_output net now id n r o ou).
    + apply Forall_insert; [done|]. by apply (Forall_vget _ _ _ _ ri_outputs0 Ho).
  - destruct Hinv. simpl in *. split; simpl; try done.
    + by apply (steady_output net now id n r o ou).
    + apply Forall_insert; [done|]. by apply (Forall_vget _ _ _ _ ri_outputs0 Ho).
  - destruct Hinv. simpl in *. split; simpl; try done.
    + by apply (steady_input net now id n r i u).
    + by apply (exclusive_input r i u (u <| InputUnit.creditQueue := b |>)).
Qed.

Lemma step_time_le s s' : step s s' -> s.1.1 <= s'.1.1.
Proof. intros []; simpl; lia. Qed.

Lemma run_time_le s s' : rtc step s s' -> s.1.1 <= s'.1.1.
Proof. induction 1 as [|x y z Hxy _ IH]; [lia|]. pose proof (step_time_le x y Hxy). lia. Qed.

Lemma run_inv_rtc s s' : rtc step s s' -> getCycle s'.1.1 < 2 ^ 31 -> run_inv s -> run_inv s'.
Proof.
  induction 1 as [|x y z Hxy Hyz IH]; intros Hshort Hinv; [done|]. apply IH; [done|].
  eapply step_inv; [done| |done]. pose proof (run_time_le y z Hyz). pose proof (step_time_le x y Hxy).
  pose proof (ri_now x Hinv). pose proof (getCycle_le y.1.1 z.1.1). lia.
Qed.

End run.

(** C1: no run of a router fails.  Take a router assembled and
    initialised by the network, a routing algorithm that serves the packets
    of its links, and any sequence of link wakeups, router wakeups, wakeups of output units
    and time steps in which the links keep the protocol.  In the first 2^31
    cycles every output channel has at most one packet, and whenever the
    router's or an output unit's event is due, it runs to its end. *)
Theorem router_run_safe (net : NetParams) vnets vcs ty bd bc junk struct Rt J r0 r1 g0 now r g :
  0 < vnets < 2 ^ 31 -> 0 < vcs -> vnets <= zlength (m_ordered net) ->
  assembled vnets vcs ty bd bc r0 -> 0 < get_num_outports r0 ->
  (forall t, Routes net t (m_id r0) (get_num_outports r0) Rt J) ->
  init r0 = Ok r1 -> J (rstate r1 g0) ->
  rtc (step net junk struct Rt) (0, r1, g0) (now, r, g) -> getCycle now < 2 ^ 31 ->
  exclusive r /\
  (Consumer.m_wakeup_event (consumer r) = Some now -> protocol now Rt r ->
   exists r' g', router_event net now (input_wakeup net now junk struct) r g = Ok (r', g')) /\
  (forall o ou, vget (m_output_unit r) o = Ok ou ->
   Consumer.m_wakeup_event (OutputUnit.consumer ou) = Some now -> credit_ok now r o ou ->
   exists ou', output_event (em r) now ou = Ok ou').
Proof.
  intros Hn Hv Hord Ha Hout HR Hinit HJ Hrun Hshort.
  pose proof (init_ok net vnets vcs ty bd bc 0 0 r0 Hn Hv Hord Ha Hout ltac:(lia) ltac:(lia)) as Hs.
  rewrite Hinit in Hs. destruct Hs as (Hcy & _ & Hx).
  pose proof Hcy as [(_ & _ & _ & _ & Hclk & Hedge & _) _ _ Hwk _ _ _ _ _].
  assert (Hc1 : consumer r1 = Consumer.new).
  { apply assembled_parts in Ha; [|lia..]. unfold init in Hinit. apply bind_Ok in Hinit as (ob & _ & Hi).
    injection Hi as <-. apply Ha. }
  assert (Hinv : run_inv net (m_id r0) (get_num_outports r0) J (now, r, g)).
  { eapply run_inv_rtc; [exact HR|exact Hrun|done|]. split; simpl; try done.
    - by apply cycle_steady.
    - rewrite Hc1. apply Consumer_new_wf.
    - by rewrite Hedge. }
  split; [apply Hinv|]. split.
  - intros Hdue Hpr. destruct (safe_inv _ _ (router_event_safe net _ _ junk struct Rt J HR now r g Hshort Hinv Hdue Hpr))
      as ([r' g'] & -> & _). eauto.
  - intros o ou Ho Hdue Hcr. destruct (safe_inv _ _ (output_event_safe net _ _ J now r g o ou Hinv Ho Hdue Hcr))
      as (ou' & -> & _). eauto.
Qed.

(** ** A run *)

(** The wakeup of the link of port [i], with the source queue [q]. *)
Definition feed (now i : Z) (q : flitBuffer.t) (r : Router.t) : res Router.t :=
  u ← vget (m_input_unit r) i;
  '(l, _, ev) ← NetworkLink.wakeup now (InputUnit.m_in_link u) q;
  _ ← assert (match ev with Some t => now <=? t | None => true end);
  c ← link_schedules (em r) now ev (consumer r);
  Ok (r <| m_input_unit := <[Z.to_nat i := u <| InputUnit.m_in_link := l |>]> (m_input_unit r) |> <| consumer := c |>).

Lemma feed_step net junk struct Rt now i q r r' g : feed now i q r = Ok r' ->
  step net junk struct Rt (now, r, g) (now, r', g).
Proof.
  intros H. unfold feed in H. apply bind_Ok in H as (u & Hu & H). apply bind_Ok in H as ([[l q'] ev] & Hl & H).
  apply bind_Ok in H as ([] & Ht & H). apply bind_Ok in H as (c & Hc & H). injection H as <-.
  apply (step_in_link net junk struct Rt now r g i u q l q' ev c); try done.
  intros t ->. unfold assert in Ht. by destruct (Z.leb_spec now t).
Qed.

(** At tick 0 the local link takes a packet; at tick 500 it is due. *)
Definition corner_start : Router.t := the corner_assembled (init corner_assembled).
Definition corner_queue : flitBuffer.t := flitBuffer.insert
  (flit.new 7 0 0 0 (RouteInfo_new <| dest_router := 1 |>) 1 0 8 32 0) flitBuffer.new.
Definition corner_fed : Router.t := the corner_start (feed 0 0 corner_queue corner_start).

Lemma corner_run : rtc (step corner_net 0 Resister corner_packet) (0, corner_start, demo_globals)
  (500, corner_fed, demo_globals).
Proof.
  eapply rtc_l; [apply (feed_step _ _ _ _ 0 0 corner_queue _ corner_fed); by vm_compute|].
  apply rtc_once, step_time; [lia|intros k Hk; vm_compute in Hk; by injection Hk as <-|].
  apply list.Forall_forall. intros ou Hou k Hk. apply list_elem_of_lookup in Hou as [j Hj].
  destruct j as [|[|j]]; vm_compute in Hj; try discriminate Hj; injection Hj as <-; discriminate Hk.
Qed.

Lemma corner_start_state : corner_unit (rstate corner_start demo_globals).
Proof.
  split; [by split_and!|].
  intros d Hd Hm. unfold mesh_dirs in Hd. repeat (apply elem_of_cons in Hd as [->|Hd]);
    [..|by apply not_elem_of_nil in Hd]; unfold in_mesh in Hm; simpl in Hm; try lia.
  - exists 0. split; [by vm_compute|lia].
  - exists 1. split; [by vm_compute|lia].
Qed.

Lemma corner_due : protocol 500 corner_packet corner_fed.
Proof.
  split.
  - intros i u [Hi Hu]%vget_Ok f Hf.
    destruct (Z.to_nat i) as [|[|k]]; vm_compute in Hu; try discriminate Hu; injection Hu as <-;
      vm_compute in Hf; try discriminate Hf; injection Hf as <-. split; [by vm_compute|].
    eexists. split; [by vm_compute|]. split; [by vm_compute|]. apply corner_flit_packet.
  - intros o ou [Ho Hou]%vget_Ok f Hf.
    destruct (Z.to_nat o) as [|[|k]]; vm_compute in Hou; try discriminate Hou; injection Hou as <-;
      by vm_compute in Hf.
Qed.

(** The run reaches the router's event, which runs. *)
Lemma router_run_safe_witness : exclusive corner_fed /\ exists r' g',
  router_event corner_net 500 (input_wakeup corner_net 500 0 Resister) corner_fed demo_globals = Ok (r', g').
Proof.
  destruct (router_run_safe corner_net 1 2 (fun _ => Ok DATA_VNET_) 4 1 0 Resister corner_packet corner_unit
    corner_assembled corner_start demo_globals 500 corner_fed demo_globals) as (Hx & Hrun & _);
    [lia|lia|done|apply corner_assembled_ok|done|apply corner_routes|by vm_compute|apply corner_start_state
    |apply corner_run|done|].
  split; [exact Hx|]. apply Hrun; [by vm_compute|apply corner_due].
Defined.
