(* ===== verification/NetworkProofs.v ===== *)
(** * NetworkProofs: what making the links does to a network

    The calls of the topology plug links into routers and interfaces.  The
    lemmas follow the links that enter and leave every node: a router has one
    input unit for every link that enters it and one output unit, one table
    entry and one weight for every link that leaves it, in the order of the
    calls, and every link leaves a wire between the two ports it took. *)

From stdpp Require Import functions.
From S2P Require Import Prelude CFloat NetDest CommonTypes Flit Channels RoutingUnit Topology Clock Heap MessageBuffer.
From S2P Require Import Network Link NetworkBridge GarnetLink NetworkInterface Units Router RouterWakeup GarnetNetwork.
From S2P Require Import SwitchTheorems.
Import GarnetNetwork.

(** ** Nodes and the links between them *)

Inductive Node := AtRouter (r : Z) | AtNI (l : Z).
#[global] Instance Node_eq_dec : EqDecision Node.
Proof. solve_decision. Defined.

Definition sender_node (p : Sender) : Node :=
  match p with RouterOut r _ => AtRouter r | NIOut l _ => AtNI l end.
Definition receiver_node (p : Receiver) : Node :=
  match p with RouterIn r _ => AtRouter r | NIIn l _ => AtNI l end.

Definition out_port (a : Node) (i : Z) : Sender :=
  match a with AtRouter r => RouterOut r i | AtNI l => NIOut l i end.
Definition in_port (a : Node) (i : Z) : Receiver :=
  match a with AtRouter r => RouterIn r i | AtNI l => NIIn l i end.

Definition link_of (c : Topology.MadeLink) : BasicLink :=
  match c with
  | Topology.MakeExtInLink _ _ l _ | Topology.MakeExtOutLink _ _ l _ | Topology.MakeInternalLink _ _ l _ _ _ => l
  end.
Definition table_of (c : Topology.MadeLink) : list NetDest.t :=
  match c with
  | Topology.MakeExtInLink _ _ _ t | Topology.MakeExtOutLink _ _ _ t | Topology.MakeInternalLink _ _ _ t _ _ => t
  end.
Definition type_of (c : Topology.MadeLink) : link_type :=
  match c with
  | Topology.MakeExtInLink _ _ _ _ => EXT_IN_
  | Topology.MakeExtOutLink _ _ _ _ => EXT_OUT_
  | Topology.MakeInternalLink _ _ _ _ _ _ => INT_
  end.

Section ends.
Context (loc : Z -> Z).

Definition leaves (c : Topology.MadeLink) : Node :=
  match c with
  | Topology.MakeExtInLink g _ _ _ => AtNI (loc g)
  | Topology.MakeExtOutLink s _ _ _ | Topology.MakeInternalLink s _ _ _ _ _ => AtRouter s
  end.
Definition enters (c : Topology.MadeLink) : Node :=
  match c with
  | Topology.MakeExtOutLink _ g _ _ => AtNI (loc g)
  | Topology.MakeExtInLink _ d _ _ | Topology.MakeInternalLink _ d _ _ _ _ => AtRouter d
  end.

Definition outs (cs : list Topology.MadeLink) (a : Node) : list Topology.MadeLink := filter (fun c => leaves c = a) cs.
Definition ins (cs : list Topology.MadeLink) (a : Node) : list Topology.MadeLink := filter (fun c => enters c = a) cs.

Lemma outs_snoc cs c a : outs (cs ++ [c]) a = (<[leaves c := outs cs (leaves c) ++ [c]]> (outs cs)) a.
Proof.
  unfold outs at 1. rewrite list.filter_app, filter_cons, filter_nil. case_decide as Hd.
  - subst. by rewrite fn_lookup_insert.
  - rewrite fn_lookup_insert_ne by done. by rewrite app_nil_r.
Qed.
Lemma ins_snoc cs c a : ins (cs ++ [c]) a = (<[enters c := ins cs (enters c) ++ [c]]> (ins cs)) a.
Proof.
  unfold ins at 1. rewrite list.filter_app, filter_cons, filter_nil. case_decide as Hd.
  - subst. by rewrite fn_lookup_insert.
  - rewrite fn_lookup_insert_ne by done. by rewrite app_nil_r.
Qed.

(** The ports that a link takes after the links [before] it. *)
Definition ends (before : list Topology.MadeLink) (c : Topology.MadeLink) : link_type * Sender * Receiver :=
  (type_of c, out_port (leaves c) (zlength (outs before (leaves c))), in_port (enters c) (zlength (ins before (enters c)))).

Fixpoint ends_from (before cs : list Topology.MadeLink) : list (link_type * Sender * Receiver) :=
  match cs with [] => [] | c :: cs => ends before c :: ends_from (before ++ [c]) cs end.

Lemma ends_from_snoc before cs c : ends_from before (cs ++ [c]) = ends_from before cs ++ [ends (before ++ cs) c].
Proof.
  revert before. induction cs as [|c' cs IH]; intros before; simpl; [by rewrite app_nil_r|].
  rewrite IH. by rewrite <- app_assoc.
Qed.

Lemma ends_split before cs x : x ∈ ends_from before cs <->
  exists pre c post, cs = pre ++ c :: post /\ x = ends (before ++ pre) c.
Proof.
  revert before. induction cs as [|c cs IH]; intros before; simpl.
  { split; [by intros ?%not_elem_of_nil|]. intros ([] & ? & ? & ? & _); done. }
  rewrite elem_of_cons, IH. split.
  - intros [->|(pre & c' & post & -> & ->)]; [exists [], c, cs; by rewrite app_nil_r|].
    exists (c :: pre), c', post. by rewrite <- app_assoc.
  - intros ([|c0 pre] & c' & post & Heq & ->); injection Heq as -> ->; [left; by rewrite app_nil_r|].
    right. exists pre, c', post. by rewrite <- app_assoc.
Qed.

End ends.

Definition wire_ends (w : Wire) : link_type * Sender * Receiver := (w_type w, w_from w, w_to w).

(** A place in a filtered list is a place in the list. *)
Lemma filter_lookup_split {A} (P : A -> Prop) `{!forall x, Decision (P x)} l k x :
  filter P l !! k = Some x <-> exists pre post, l = pre ++ x :: post /\ P x /\ length (filter P pre) = k.
Proof.
  revert k. induction l as [|y l IH]; intros k.
  { rewrite filter_nil. split; [done|]. intros ([] & ? & ? & _); done. }
  rewrite filter_cons. split.
  - case_decide as Hy.
    + destruct k as [|k]; simpl; intros Hk; [injection Hk as <-; by exists [], l|].
      apply IH in Hk as (pre & post & -> & Hx & <-). exists (y :: pre), post.
      rewrite filter_cons_True by done. done.
    + intros (pre & post & -> & Hx & <-)%IH. exists (y :: pre), post. by rewrite filter_cons_False.
  - intros ([|z pre] & post & Heq & Hx & <-); injection Heq as -> ->; [by rewrite decide_True|].
    rewrite filter_cons. case_decide; simpl; apply IH; eauto.
Qed.

Section wiring.
Context (loc : Z -> Z).
Abbreviation senders cs := ((fun x => x.1.2) <$> ends_from loc [] cs).
Abbreviation receivers cs := (snd <$> ends_from loc [] cs).

Lemma out_port_inj a i b j : out_port a i = out_port b j -> a = b /\ i = j.
Proof. destruct a, b; simpl; by intros [= -> ->]. Qed.
Lemma in_port_inj a i b j : in_port a i = in_port b j -> a = b /\ i = j.
Proof. destruct a, b; simpl; by intros [= -> ->]. Qed.

(** An output port is a sender exactly when that many links leave its node;
    its wire then is that of the link. *)
Lemma wire_out cs a i ty to : 0 <= i ->
  (ty, out_port a i, to) ∈ ends_from loc [] cs <->
  exists c pre post, cs = pre ++ c :: post /\ outs loc cs a !! Z.to_nat i = Some c /\ leaves loc c = a /\
    ty = type_of c /\ to = in_port (enters loc c) (zlength (ins loc pre (enters loc c))) /\ zlength (outs loc pre a) = i.
Proof.
  intros Hi. rewrite ends_split. split.
  - intros (pre & c & post & -> & [= -> Hp ->]). apply out_port_inj in Hp as [-> ->].
    exists c, pre, post. split_and!; try done. apply filter_lookup_split. exists pre, post.
    split_and!; [done..|]. unfold zlength, outs. lia.
  - intros (c & pre & post & -> & _ & <- & -> & -> & <-). by exists pre, c, post.
Qed.

Lemma outs_wire cs a k c : outs loc cs a !! k = Some c ->
  exists j, (type_of c, out_port a (Z.of_nat k), in_port (enters loc c) j) ∈ ends_from loc [] cs.
Proof.
  intros (pre & post & -> & Ha & Hk)%filter_lookup_split. eexists. apply ends_split. exists pre, c, post.
  split; [done|]. rewrite <- Hk, <- Ha. done.
Qed.

Lemma ins_wire cs a k c : ins loc cs a !! k = Some c ->
  exists j, (type_of c, out_port (leaves loc c) j, in_port a (Z.of_nat k)) ∈ ends_from loc [] cs.
Proof.
  intros (pre & post & -> & Ha & Hk)%filter_lookup_split. eexists. apply ends_split. exists pre, c, post.
  split; [done|]. rewrite <- Hk, <- Ha. done.
Qed.

(** No port is used twice. *)
Lemma filter_before {A} (P : A -> Prop) `{!forall x, Decision (P x)} pre x post : P x ->
  (length (filter P pre) < length (filter P (pre ++ x :: post)))%nat.
Proof. intros Hx. rewrite list.filter_app, filter_cons_True, length_app by done. simpl. lia. Qed.

Lemma senders_nodup cs : NoDup (senders cs).
Proof.
  induction cs as [|c cs IH] using rev_ind; [constructor|].
  rewrite ends_from_snoc, fmap_app. apply list.NoDup_app. split_and!; [done| |by apply list.NoDup_singleton].
  intros p (x & -> & (pre & c' & post & Heq & ->)%ends_split)%list_elem_of_fmap [Hx Hi]%list_elem_of_singleton%out_port_inj.
  simpl in *. rewrite Hx, Heq in Hi. unfold zlength, outs in Hi. pose proof (filter_before (fun c' => leaves loc c' = leaves loc c) pre c' post Hx). lia.
Qed.

Lemma receivers_nodup cs : NoDup (receivers cs).
Proof.
  induction cs as [|c cs IH] using rev_ind; [constructor|].
  rewrite ends_from_snoc, fmap_app. apply list.NoDup_app. split_and!; [done| |by apply list.NoDup_singleton].
  intros p (x & -> & (pre & c' & post & Heq & ->)%ends_split)%list_elem_of_fmap [Hx Hi]%list_elem_of_singleton%in_port_inj.
  simpl in *. rewrite Hx, Heq in Hi. unfold zlength, ins in Hi. pose proof (filter_before (fun c' => enters loc c' = enters loc c) pre c' post Hx). lia.
Qed.

End wiring.
