(* ===== verification/NetworkBuild.v ===== *)
(** * NetworkBuild: the network that the links make

    From routers and interfaces without ports, the calls of the topology
    succeed when the link objects exist and fit, and leave the network that
    [made_network] describes. *)

From stdpp Require Import functions.
From S2P Require Import Prelude CFloat NetDest CommonTypes Flit Channels RoutingUnit Topology Clock Heap MessageBuffer.
From S2P Require Import Network Link NetworkBridge GarnetLink NetworkInterface Units Router RouterWakeup GarnetNetwork.
From S2P Require Import SwitchTheorems NetworkProofs.
Import GarnetNetwork.

(** ** Resizing links *)

Lemma setVcsPerVnet_idemp v l : NetworkLink.setVcsPerVnet v (NetworkLink.setVcsPerVnet v l) = NetworkLink.setVcsPerVnet v l.
Proof.
  destruct l. unfold NetworkLink.setVcsPerVnet, update. cbn. f_equal. apply resize_idemp.
Qed.

Lemma width_resize v l : NetworkLink.bitWidth (NetworkLink.setVcsPerVnet v l) = NetworkLink.bitWidth l.
Proof. done. Qed.

Lemma sender_width_resize v l : NetworkLink.bitWidth (sender_end (resize_receiver v l)) = NetworkLink.bitWidth (sender_end l).
Proof. destruct l as [[] ? []]; done. Qed.

Lemma receiver_resize v l : receiver_end (resize_receiver v l) = NetworkLink.setVcsPerVnet v (receiver_end l).
Proof. by destruct l as [? ? []]. Qed.

(** Resizing at the other end changes nothing that the receiver did not change. *)
Lemma receiver_resize_both v l :
  receiver_end (resize_sender v (resize_receiver v l)) = NetworkLink.setVcsPerVnet v (receiver_end l).
Proof. destruct l as [[] ? []]; first [done|apply setVcsPerVnet_idemp]. Qed.

Lemma setType_widths ty l :
  NetworkLink.bitWidth (receiver_end (l <| ln_link ::= NetworkLink.setType ty |>)) = NetworkLink.bitWidth (receiver_end l) /\
  NetworkLink.bitWidth (sender_end (l <| ln_link ::= NetworkLink.setType ty |>)) = NetworkLink.bitWidth (sender_end l).
Proof. by destruct l as [[] ? []]. Qed.

(** ** Units and tables *)

Lemma out_states_ok ty bd bc cv vnets l0 : 0 < cv -> 1 <= bd -> 1 <= bc ->
  (forall v, 0 <= v < vnets -> exists k, ty v = Ok k) ->
  safe (for_ (Z.to_nat (cv * vnets)) 0 (fun i l => o ← OutVcState.new i ty bd bc cv; Ok (l ++ [o])) l0)
    (fun l => zlength l = zlength l0 + Z.max 0 (cv * vnets)).
Proof.
  intros Hcv Hbd Hbc Hty. eapply safe_mono; [apply (safe_for (fun i l => zlength l = zlength l0 + i))|].
  - lia.
  - intros i l Hi Hl. unfold OutVcState.new, cdiv. rewrite decide_False by lia. cbn [mbind res_bind].
    destruct (Hty (Z.quot i cv)) as [k Hk].
    { split; [apply Z.quot_pos; lia|]. apply Z.quot_lt_upper_bound; lia. }
    rewrite Hk. cbn [mbind res_bind]. apply safe_bind. apply safe_bind, safe_assert; [case_bool_decide; lia|]. simpl.
    unfold zlength in *. rewrite length_app. simpl. lia.
  - intros l Hl. cbv beta in Hl. lia.
Qed.

Definition rows (nv : nat) (cs : list Topology.MadeLink) : list (list NetDest.t) :=
  (fun v => (fun c => table_of c !!! v) <$> cs) <$> seq 0 nv.

Lemma rows_snoc_at nv cs c v : (v < nv)%nat ->
  rows nv (cs ++ [c]) !! v = Some (((fun c => table_of c !!! v) <$> cs) ++ [table_of c !!! v]).
Proof. intros Hv. unfold rows. rewrite list_lookup_fmap, lookup_seq_lt by done. simpl. by rewrite fmap_app. Qed.

Lemma addRoute_rows nv cs c ru : length (table_of c) = nv ->
  m_routing_table ru = rows nv cs \/ (cs = [] /\ m_routing_table ru = []) ->
  safe (addRoute (table_of c) ru) (fun ru' => ru' = ru <| m_routing_table := rows nv (cs ++ [c]) |>).
Proof.
  intros Hlen Htab. unfold addRoute.
  assert (Hext : m_routing_table ru ++ replicate (Nat.max (length (m_routing_table ru)) (length (table_of c)) -
    length (m_routing_table ru)) [] = rows nv cs).
  { destruct Htab as [->|[-> ->]].
    - unfold rows. rewrite length_fmap, length_seq, Hlen, Nat.max_id, Nat.sub_diag. by rewrite app_nil_r.
    - simpl. rewrite Nat.sub_0_r, Hlen. apply list_eq_same_length with nv; [|by rewrite length_replicate|].
      { unfold rows. by rewrite length_fmap, length_seq. }
      intros i x y Hi Hx Hy. apply lookup_replicate in Hx as [-> _]. unfold rows in Hy.
      rewrite list_lookup_fmap, lookup_seq_lt in Hy by done. by injection Hy as <-. }
  rewrite Hext. apply safe_bind. eapply safe_mono.
  - apply (safe_for (fun i t => length t = nv /\ forall v, (v < nv)%nat ->
      t !! v = if Z.of_nat v <? i then rows nv (cs ++ [c]) !! v else rows nv cs !! v)).
    { split; [unfold rows; by rewrite length_fmap, length_seq|]. intros v Hv. by destruct (Z.ltb_spec (Z.of_nat v) 0); [lia|]. }
    intros i t Hi [Ht Hv]. rewrite Hlen in Hi.
    apply safe_bind, safe_vget; [unfold zlength; lia|]. intros e He.
    apply safe_valter; [unfold zlength; lia|]. intros x Hx. split; [by rewrite length_insert|].
    intros v Hvn. destruct (decide (v = Z.to_nat i)) as [->|Hne].
    + rewrite list_lookup_insert_eq by lia. rewrite Hv in Hx by lia.
      destruct (Z.ltb_spec (Z.of_nat (Z.to_nat i)) i) in Hx; [lia|].
      destruct (Z.ltb_spec (Z.of_nat (Z.to_nat i)) (i + 1)); [|lia].
      rewrite rows_snoc_at by done. rewrite (list_lookup_total_correct _ _ _ He).
      unfold rows in Hx. rewrite list_lookup_fmap, lookup_seq_lt in Hx by lia. by injection Hx as <-.
    + rewrite list_lookup_insert_ne by done. rewrite Hv by done.
      destruct (Z.ltb_spec (Z.of_nat v) i), (Z.ltb_spec (Z.of_nat v) (i + 1)); try lia; done.
  - intros t [Ht Hv]. assert (t = rows nv (cs ++ [c])) as ->; [|done]. apply list_eq_same_length with nv; [|done|].
    { unfold rows. by rewrite length_fmap, length_seq. }
    intros i x y Hi Hx Hy. rewrite Hv, (proj2 (Z.ltb_lt _ _)) in Hx by lia. congruence.
Qed.

(** ** The nodes of a network that is being built *)

Section build.
Context (n0 : GarnetNetwork.t) (ni_vcs : Z -> Z).
Abbreviation vnets := (Network.m_virtual_networks (base n0)).
Abbreviation types := (fun v => get_vnet_type v n0).

Definition loc (g : Z) : Z := match Network.getLocalNodeID g (base n0) with Ok l => l | Err _ => -1 end.
Definition vcs_at (r : Z) : Z := match vget (m_routers n0) r with Ok x => Router.m_vc_per_vnet x | Err _ => 0 end.

(** The channels behind a link that leaves a router. *)
Definition channels_after (c : Topology.MadeLink) : Z :=
  match c with
  | Topology.MakeExtInLink _ d _ _ | Topology.MakeInternalLink _ d _ _ _ _ => vcs_at d
  | Topology.MakeExtOutLink s _ _ _ => vcs_at s
  end.
Definition router_after (c : Topology.MadeLink) : Z :=
  match c with
  | Topology.MakeExtInLink _ d _ _ | Topology.MakeInternalLink _ d _ _ _ _ => d
  | Topology.MakeExtOutLink _ g _ _ => -1
  end.

(** A router with the links [I] into it and [O] out of it. *)
Record router_made (r : Z) (x0 x : Router.t) (I O : list Topology.MadeLink) : Prop := {
  rm_assembled : assembled vnets (Router.m_vc_per_vnet x0) types (m_buffers_per_data_vc n0) (m_buffers_per_ctrl_vc n0) x;
  rm_keeps : Router.m_id x = Router.m_id x0 /\ Router.m_bit_width x = Router.m_bit_width x0 /\
    Router.m_vc_per_vnet x = Router.m_vc_per_vnet x0 /\ Router.em x = Router.em x0 /\
    Router.m_virtual_networks x = vnets /\ Router.m_num_vcs x = vnets * Router.m_vc_per_vnet x0;
  rm_ins : zlength (Router.m_input_unit x) = zlength I;
  rm_outs : Forall2 (fun ou c => zlength (OutputUnit.outVcState ou) = vnets * channels_after c) (Router.m_output_unit x) O;
  rm_table : m_routing_table (Router.routingUnit x) = rows (Z.to_nat vnets) O \/
    (O = [] /\ m_routing_table (Router.routingUnit x) = []);
  rm_weights : m_weight_table (Router.routingUnit x) = (fun c => bl_weight (link_of c)) <$> O;
}.

(** An interface with such links. *)
Record ni_made (l : Z) (y : NetworkInterface.t) (I O : list Topology.MadeLink) : Prop := {
  nm_vnets : NetworkInterface.m_virtual_networks y = vnets;
  nm_ins : zlength (NetworkInterface.inPorts y) = zlength I;
  nm_outs : OutputPort.routerID <$> NetworkInterface.outPorts y = router_after <$> O;
  nm_vcs : (O = [] /\ NetworkInterface.m_vc_per_vnet y = 0 /\ NetworkInterface.niOutVcs y = [] /\ NetworkInterface.outVcState y = []) \/
    (O <> [] /\ NetworkInterface.m_vc_per_vnet y = ni_vcs l /\
     zlength (NetworkInterface.niOutVcs y) = vnets * ni_vcs l /\ zlength (NetworkInterface.outVcState y) = vnets * ni_vcs l);
}.

(** What making links never changes. *)
Definition frame (n : GarnetNetwork.t) : Prop :=
  base n = base n0 /\ m_vnet_type n = m_vnet_type n0 /\ m_buffers_per_data_vc n = m_buffers_per_data_vc n0 /\
  m_buffers_per_ctrl_vc n = m_buffers_per_ctrl_vc n0 /\ m_num_rows n = m_num_rows n0 /\
  m_routing_algorithm n = m_routing_algorithm n0 /\ fault_model n = fault_model n0.

Record nodes_made (I O : Node -> list Topology.MadeLink) (n : GarnetNetwork.t) : Prop := {
  nd_frame : frame n;
  nd_nrouters : zlength (m_routers n) = zlength (m_routers n0);
  nd_routers : forall r x0 x, vget (m_routers n0) r = Ok x0 -> vget (m_routers n) r = Ok x ->
    router_made r x0 x (I (AtRouter r)) (O (AtRouter r));
  nd_nnis : zlength (m_nis n) = zlength (m_nis n0);
  nd_nis : forall l y, vget (m_nis n) l = Ok y -> ni_made l y (I (AtNI l)) (O (AtNI l));
}.

(** Before the first link. *)
Record fresh_network : Prop := {
  fn_vnets : 0 < vnets;
  fn_types : zlength (m_vnet_type n0) = vnets;
  fn_buffers : 1 <= m_buffers_per_data_vc n0 /\ 1 <= m_buffers_per_ctrl_vc n0;
  fn_routers : Forall (fun x => exists id latency vcs width period, x = Router.new id latency vnets vcs width period /\
    1 <= latency /\ 0 < period /\ 0 < vcs) (m_routers n0);
  fn_nis : Forall (fun y => NetworkInterface.m_virtual_networks y = vnets /\ NetworkInterface.inPorts y = [] /\
    NetworkInterface.outPorts y = [] /\ NetworkInterface.m_vc_per_vnet y = 0 /\ NetworkInterface.niOutVcs y = [] /\
    NetworkInterface.outVcState y = []) (m_nis n0);
  fn_wires : m_wires n0 = [];
}.
Context (Hfresh : fresh_network).

Lemma fresh_nodes : nodes_made (fun _ => []) (fun _ => []) n0.
Proof.
  destruct Hfresh as [Hv _ _ Hr Hn _]. split; [by unfold frame|done| |done|].
  - intros r x0 x Hx0 Hx. assert (x = x0) as -> by congruence. apply vget_Ok in Hx as [_ Hx].
    apply (Forall_lookup_1 _ _ _ _ Hr) in Hx as (id & lat & vcs & w & p & -> & Hlat & Hp & Hvcs).
    split; simpl; try done; first [by apply assembled_new|by constructor|by right].
  - intros l y [_ Hy]%vget_Ok. apply (Forall_lookup_1 _ _ _ _ Hn) in Hy as (? & Hi & Ho & ? & ? & ?).
    split; [done|by rewrite Hi|by rewrite Ho|by left].
Qed.

(** ** Plugging a link into one node *)

Lemma router_there I O n r x0 : nodes_made I O n -> vget (m_routers n0) r = Ok x0 ->
  exists x, vget (m_routers n) r = Ok x /\ router_made r x0 x (I (AtRouter r)) (O (AtRouter r)).
Proof.
  intros Hn H0. destruct (vget_range (m_routers n) r) as [x Hx].
  { rewrite (nd_nrouters _ _ _ Hn). by apply vget_bound in H0. }
  exists x. split; [done|]. by apply (nd_routers _ _ _ Hn).
Qed.

Lemma ni_there I O n l : nodes_made I O n -> 0 <= l < zlength (m_nis n0) ->
  exists y, vget (m_nis n) l = Ok y /\ ni_made l y (I (AtNI l)) (O (AtNI l)).
Proof.
  intros Hn H0. destruct (vget_range (m_nis n) l) as [y Hy]; [by rewrite (nd_nnis _ _ _ Hn)|].
  exists y. split; [done|]. by apply (nd_nis _ _ _ Hn).
Qed.

Lemma router_vcs r x0 : vget (m_routers n0) r = Ok x0 -> 0 < Router.m_vc_per_vnet x0 /\ vcs_at r = Router.m_vc_per_vnet x0.
Proof.
  intros Hx. unfold vcs_at. rewrite Hx. split; [|done]. apply vget_Ok in Hx as [_ Hx].
  apply (Forall_lookup_1 _ _ _ _ (fn_routers Hfresh)) in Hx as (id & lat & vcs & w & p & -> & _ & _ & ?). done.
Qed.

Lemma types_ok v : 0 <= v < vnets -> exists k, types v = Ok k.
Proof. intros Hv. apply vget_range. rewrite (fn_types Hfresh). lia. Qed.

(** Replacing one router. *)
Lemma on_router_safe f r n x0 I O I' O' (Q : GarnetNetwork.t -> Prop) : nodes_made I O n -> vget (m_routers n0) r = Ok x0 ->
  (forall a, a <> AtRouter r -> I' a = I a /\ O' a = O a) ->
  (forall x, vget (m_routers n) r = Ok x -> router_made r x0 x (I (AtRouter r)) (O (AtRouter r)) ->
     safe (f x) (fun x' => router_made r x0 x' (I' (AtRouter r)) (O' (AtRouter r)) /\
       (nodes_made I' O' (n <| m_routers := <[Z.to_nat r := x']> (m_routers n) |>) ->
        Q (n <| m_routers := <[Z.to_nat r := x']> (m_routers n) |>)))) ->
  safe (on_router f r n) Q.
Proof.
  intros Hn H0 Hsame Hf. destruct (router_there _ _ _ _ _ Hn H0) as (x & Hx & Hm).
  unfold on_router, valterM. rewrite Hx. cbn [mbind res_bind].
  destruct (safe_inv _ _ (Hf x Hx Hm)) as (x' & -> & Hm' & HQ). cbn [mbind res_bind].
  pose proof (vget_bound _ _ _ Hx) as Hb. rewrite (proj2 (vset_Ok _ _ _ _) (conj Hb eq_refl)). cbn [mbind res_bind]. apply HQ.
  destruct Hn as [Hfr Hnr Hrs Hnn Hns]. split; simpl; [done|unfold zlength in *; by rewrite length_insert| |done|].
  - intros r1 y0 y Hy0 Hy. destruct (decide (r1 = r)) as [->|Hne].
    + assert (y0 = x0) as -> by congruence. rewrite vget_insert_eq in Hy by done. by injection Hy as <-.
    + pose proof (vget_bound _ _ _ Hy0). rewrite vget_insert_ne in Hy by lia.
      destruct (Hsame (AtRouter r1)) as [-> ->]; [congruence|]. by apply Hrs.
  - intros l y Hy. destruct (Hsame (AtNI l)) as [-> ->]; [done|]. by apply Hns.
Qed.

(** Replacing one interface. *)
Lemma on_ni_safe f l n I O I' O' (Q : GarnetNetwork.t -> Prop) : nodes_made I O n -> 0 <= l < zlength (m_nis n0) ->
  (forall a, a <> AtNI l -> I' a = I a /\ O' a = O a) ->
  (forall y, vget (m_nis n) l = Ok y -> ni_made l y (I (AtNI l)) (O (AtNI l)) ->
     safe (f y) (fun y' => ni_made l y' (I' (AtNI l)) (O' (AtNI l)) /\
       (nodes_made I' O' (n <| m_nis := <[Z.to_nat l := y']> (m_nis n) |>) ->
        Q (n <| m_nis := <[Z.to_nat l := y']> (m_nis n) |>)))) ->
  safe (on_ni f l n) Q.
Proof.
  intros Hn H0 Hsame Hf. destruct (ni_there _ _ _ _ Hn H0) as (y & Hy & Hm).
  unfold on_ni, valterM. rewrite Hy. cbn [mbind res_bind].
  destruct (safe_inv _ _ (Hf y Hy Hm)) as (y' & -> & Hm' & HQ). cbn [mbind res_bind].
  pose proof (vget_bound _ _ _ Hy) as Hb. rewrite (proj2 (vset_Ok _ _ _ _) (conj Hb eq_refl)). cbn [mbind res_bind]. apply HQ.
  destruct Hn as [Hfr Hnr Hrs Hnn Hns]. split; simpl; [done|done| |unfold zlength in *; by rewrite length_insert|].
  - intros r x0 x Hx0 Hx. destruct (Hsame (AtRouter r)) as [-> ->]; [done|]. by apply Hrs.
  - intros l1 z Hz. destruct (decide (l1 = l)) as [->|Hne].
    + rewrite vget_insert_eq in Hz by done. by injection Hz as <-.
    + assert (0 <= l1) by (apply vget_bound in Hz; lia). rewrite vget_insert_ne in Hz by lia.
      destruct (Hsame (AtNI l1)) as [-> ->]; [congruence|]. by apply Hns.
Qed.

Abbreviation plugged a c M := (<[a := M a ++ [c]]> M).

Lemma plugged_other (M : Node -> list Topology.MadeLink) a c b : b <> a -> plugged a c M b = M b.
Proof. intros Hne. by rewrite fn_lookup_insert_ne. Qed.

Lemma zlength_snoc {A} (l : list A) x : zlength (l ++ [x]) = zlength l + 1.
Proof. unfold zlength. rewrite length_app. simpl. lia. Qed.

Lemma router_in_ok c r dirn l n x0 I O : nodes_made I O n -> vget (m_routers n0) r = Ok x0 ->
  NetworkLink.bitWidth l = Router.m_bit_width x0 ->
  safe (on_router (Router.addInPort dirn l) r n) (fun n' => nodes_made (plugged (AtRouter r) c I) O n' /\
    m_wires n' = m_wires n /\ m_nis n' = m_nis n /\
    in_link (RouterIn r (zlength (I (AtRouter r)))) n' = Ok (NetworkLink.setVcsPerVnet (Router.m_vc_per_vnet x0) l)).
Proof.
  intros Hn H0 Hw. pose proof (vget_bound _ _ _ H0) as Hb0. rewrite <- (nd_nrouters _ _ _ Hn) in Hb0.
  eapply (on_router_safe _ r n x0 I O (plugged (AtRouter r) c I) O); [done..| |].
  { intros a Ha. by rewrite plugged_other. }
  intros x Hx [Ha (Hid & Hbw & Hvc & Hem & Hvn & Hnum) Hi Ho Ht Hwt].
  destruct (router_vcs r x0 H0) as [Hpos _].
  destruct (InputUnit.new (zlength (Router.m_input_unit x)) dirn (Router.m_vc_per_vnet x) (Router.m_num_vcs x)
    (NetworkLink.setVcsPerVnet (Router.m_vc_per_vnet x) l)) as [u|] eqn:Hu.
  2:{ unfold InputUnit.new, cdiv in Hu. rewrite decide_False in Hu by lia. discriminate Hu. }
  assert (Hadd : Router.addInPort dirn l x = Ok (x <| Router.m_input_unit := Router.m_input_unit x ++ [u] |>
    <| Router.routingUnit := addInDirection dirn (zlength (Router.m_input_unit x)) (Router.routingUnit x) |>)).
  { unfold Router.addInPort. rewrite Hbw, Hw, Z.eqb_refl. cbn [negb]. rewrite Hu. done. }
  rewrite Hadd. split.
  - split; simpl; try done; [by eapply assembled_in|]. by rewrite fn_lookup_insert, !zlength_snoc, Hi.
  - intros Hn'. split_and!; [done..|]. unfold in_link. simpl. rewrite vget_insert_eq by done. cbn [mbind res_bind]. simpl.
    rewrite <- Hi, (proj2 (vget_Ok _ _ u)). 
    + unfold InputUnit.new, cdiv in Hu. rewrite decide_False in Hu by lia. injection Hu as <-. simpl. by rewrite Hvc.
    + split; [unfold zlength; lia|]. unfold zlength. rewrite Nat2Z.id. by apply list_lookup_middle.
Qed.

Lemma router_out_ok c r dirn F C n x0 I O : nodes_made I O n -> vget (m_routers n0) r = Ok x0 ->
  NetworkLink.bitWidth (sender_end F) = Router.m_bit_width x0 -> 0 < channels_after c -> zlength (table_of c) = vnets ->
  safe (router_out_port dirn F C (table_of c) (bl_weight (link_of c)) (channels_after c) r n) (fun n' =>
    nodes_made I (plugged (AtRouter r) c O) n' /\ m_wires n' = m_wires n /\ m_nis n' = m_nis n /\
    forall p, in_link p n' = in_link p n).
Proof.
  intros Hn H0 Hw Hcv Htl. pose proof (nd_frame _ _ _ Hn) as (_ & Hty & Hbd & Hbc & _).
  pose proof (vget_bound _ _ _ H0) as Hb0. rewrite <- (nd_nrouters _ _ _ Hn) in Hb0.
  destruct (fn_buffers Hfresh). unfold router_out_port. rewrite Hbd, Hbc.
  change (fun vnet => get_vnet_type vnet n) with (fun vnet => vget (m_vnet_type n) vnet). rewrite Hty.
  eapply (on_router_safe _ r n x0 I O I (plugged (AtRouter r) c O)); [done..| |].
  { intros a Ha. by rewrite plugged_other. }
  intros x Hx [Ha (Hid & Hbw & Hvc & Hem & Hvn & Hnum) Hi Ho Ht Hwt].
  destruct (safe_inv _ _ (out_states_ok types (m_buffers_per_data_vc n0) (m_buffers_per_ctrl_vc n0) (channels_after c)
    vnets [] Hcv ltac:(done) ltac:(done) types_ok)) as (l & Hl & Hlen).
  destruct (safe_inv _ _ (addRoute_rows (Z.to_nat vnets) (O (AtRouter r)) c (Router.routingUnit x)
    ltac:(unfold zlength in Htl; lia) Ht)) as (ru & Hru & ->).
  assert (Hadd : exists ou, zlength (OutputUnit.outVcState ou) = vnets * channels_after c /\
    Router.addOutPort dirn (NetworkLink.bitWidth (sender_end F)) (table_of c) (bl_weight (link_of c)) (receiver_end C)
      (channels_after c) types (m_buffers_per_data_vc n0) (m_buffers_per_ctrl_vc n0) x =
    Ok (x <| Router.m_output_unit := Router.m_output_unit x ++ [ou] |>
          <| Router.routingUnit := addOutDirection dirn (zlength (Router.m_output_unit x)) (addWeight (bl_weight (link_of c))
               ((Router.routingUnit x) <| m_routing_table := rows (Z.to_nat vnets) (O (AtRouter r) ++ [c]) |>)) |>)).
  { eexists. unfold Router.addOutPort. rewrite Hbw, Hw, Z.eqb_refl. cbn [negb]. unfold OutputUnit.new. rewrite Hvn, Hl.
    cbn [mbind res_bind]. rewrite Hru. cbn [mbind res_bind]. split; [|done]. simpl. rewrite Hlen. unfold zlength. simpl.
    pose proof (fn_vnets Hfresh). nia. }
  destruct Hadd as (ou & Hou & Hadd). change (fun vnet => vget (m_vnet_type n0) vnet) with types. rewrite Hadd. split.
  - rewrite fn_lookup_insert. split; simpl; try done.
    + by eapply assembled_out.
    + apply Forall2_app; [done|]. by repeat constructor.
    + by left.
    + by rewrite fmap_app, Hwt.
  - intros Hn'. split_and!; [done..|]. intros [r1 i|l1 i]; [|done]. unfold in_link. simpl.
    destruct (decide (r1 = r)) as [->|Hne]; [by rewrite vget_insert_eq, Hx|by rewrite vget_insert_ne by lia].
Qed.

(** Writing back what is already there. *)
Lemma put_in_link_same r i l n : in_link (RouterIn r i) n = Ok l -> put_in_link (RouterIn r i) l n = Ok n.
Proof.
  unfold in_link, put_in_link, on_router, valter, valterM.
  intros (x & Hx & (u & Hu & Hl)%bind_Ok)%bind_Ok. injection Hl as <-. rewrite Hx. cbn [mbind res_bind]. rewrite Hu. cbn [mbind res_bind].
  pose proof (vget_bound _ _ _ Hu) as Hbu. pose proof (vget_bound _ _ _ Hx) as Hbx.
  apply vget_Ok in Hu as [_ Hu]. apply vget_Ok in Hx as [_ Hx].
  rewrite (proj2 (vset_Ok _ _ _ _) (conj Hbu eq_refl)). cbn [mbind res_bind].
  rewrite (proj2 (vset_Ok _ _ _ _) (conj Hbx eq_refl)). cbn [mbind res_bind].
  replace (u <| InputUnit.m_in_link := InputUnit.m_in_link u |>) with u by (by destruct u).
  rewrite (list_insert_id _ _ _ Hu). replace (x <| Router.m_input_unit := Router.m_input_unit x |>) with x by (by destruct x).
  rewrite (list_insert_id _ _ _ Hx). by destruct n.
Qed.

Lemma ni_in_ok c l k n I O : nodes_made I O n -> 0 <= l < zlength (m_nis n0) ->
  safe (on_ni (fun y => Ok (NetworkInterface.addInPort k y)) l n) (fun n' => nodes_made (plugged (AtNI l) c I) O n' /\
    m_wires n' = m_wires n /\ m_routers n' = m_routers n).
Proof.
  intros Hn Hl. eapply (on_ni_safe _ l n I O (plugged (AtNI l) c I) O); [done..| |].
  { intros a Ha. by rewrite plugged_other. }
  intros y Hy [Hv Hi Ho Hvc]. split; [|done]. unfold NetworkInterface.addInPort.
  split; simpl; try done. by rewrite fn_lookup_insert, !zlength_snoc, Hi.
Qed.

Lemma ni_out_ok c l sys k1 k2 n I O : nodes_made I O n -> 0 <= l < zlength (m_nis n0) ->
  0 < ni_vcs l -> safe (on_ni (NetworkInterface.addOutPort (view sys n) k1 k2 (router_after c) (ni_vcs l)) l n)
    (fun n' => nodes_made I (plugged (AtNI l) c O) n' /\ m_wires n' = m_wires n /\ m_routers n' = m_routers n).
Proof.
  intros Hn Hl Hcv. pose proof (nd_frame _ _ _ Hn) as (_ & Hty & Hbd & Hbc & _). destruct (fn_buffers Hfresh).
  eapply (on_ni_safe _ l n I O I (plugged (AtNI l) c O)); [done..| |].
  { intros a Ha. by rewrite plugged_other. }
  intros y Hy [Hv Hi Ho Hvc]. rewrite fn_lookup_insert. unfold NetworkInterface.addOutPort. apply safe_bind, safe_assert; [lia|].
  apply safe_bind. eapply safe_mono.
  - apply (fun H => H : safe _ (fun z => NetworkInterface.m_virtual_networks z = vnets /\
      zlength (NetworkInterface.inPorts z) = zlength (I (AtNI l)) /\
      OutputPort.routerID <$> NetworkInterface.outPorts z = router_after <$> O (AtNI l) /\
      NetworkInterface.m_vc_per_vnet z = ni_vcs l /\
      zlength (NetworkInterface.niOutVcs z) = vnets * ni_vcs l /\ zlength (NetworkInterface.outVcState z) = vnets * ni_vcs l)).
    destruct Hvc as [(HO & Hvc & Hvs & Hst)|(HO & Hvc & Hvs & Hst)].
    + rewrite Hvs. change (zlength [] =? 0) with true. cbv iota. rewrite Hst, Hv. apply safe_bind.
      simpl. change (fun vnet => get_vnet_type vnet n) with (fun vnet => vget (m_vnet_type n) vnet). rewrite Hty, Hbd, Hbc.
      eapply safe_mono; [apply (out_states_ok types _ _ (ni_vcs l) vnets []); [done..|apply types_ok]|].
      intros st Hl2. simpl. pose proof (fn_vnets Hfresh). unfold zlength in *. rewrite length_fmap, length_replicate, Hl2.
      split_and!; try done; simpl; nia.
    + pose proof (fn_vnets Hfresh). rewrite (proj2 (Z.eqb_neq _ _)) by nia. rewrite Hvc, Z.eqb_refl. by split_and!.
  - intros z (Hzv & Hzi & Hzo & Hzc & Hzn & Hzs). simpl. split; [|done]. split; simpl; try done.
    + rewrite !fmap_app, Hzo. done.
    + right. split_and!; try done. by destruct (O (AtNI l)).
Qed.

Lemma ni_put_in_ok k i l n I O : nodes_made I O n -> 0 <= l < zlength (m_nis n0) -> 0 <= i < zlength (I (AtNI l)) ->
  safe (put_in_link (NIIn l i) k n) (fun n' => nodes_made I O n' /\ m_wires n' = m_wires n).
Proof.
  intros Hn Hl Hi. unfold put_in_link. eapply (on_ni_safe _ l n I O I O); [done..|].
  intros y Hy [Hv Hin Ho Hvc]. unfold NetworkInterface.on_inport. apply safe_bind, safe_valter; [lia|]. intros p Hp.
  split; [|done]. split; simpl; try done. unfold zlength in *. by rewrite length_insert.
Qed.

Lemma ni_put_out_ok k i l n I O : nodes_made I O n -> 0 <= l < zlength (m_nis n0) -> 0 <= i < zlength (O (AtNI l)) ->
  safe (put_credit_link (NIOut l i) k n) (fun n' => nodes_made I O n' /\ m_wires n' = m_wires n).
Proof.
  intros Hn Hl Hi. unfold put_credit_link. eapply (on_ni_safe _ l n I O I O); [done..|].
  intros y Hy [Hv Hin Ho Hvc]. unfold NetworkInterface.on_outport.
  assert (Hlen : length (NetworkInterface.outPorts y) = length (O (AtNI l))).
  { rewrite <- (length_fmap OutputPort.routerID), Ho. apply length_fmap. }
  apply safe_bind, safe_valter; [unfold zlength in *; lia|]. intros p Hp.
  split; [|done]. split; simpl; try done. rewrite list_fmap_insert, Ho. simpl. apply list_insert_id.
  rewrite <- Ho, list_lookup_fmap, Hp. done.
Qed.

(** ** Making one link *)

Context `{MachineTypes}.
Context (ext_link : Z -> option GarnetExtLink.t) (int_link : Z -> option GarnetIntLink.t) (sys : RubySystem).

(** The link object exists and fits the nodes it is to join: the widths of its
    ends are those of the routers, and an interface is joined to routers
    with the same number of channels. *)
Definition object_fits (c : Topology.MadeLink) : Prop :=
  match c with
  | Topology.MakeExtInLink g d link _ => exists garnet F C x,
      ext_link (bl_ptr link) = Some garnet /\ GarnetExtLink.flit_line LinkDirection_In garnet = Ok F /\
      GarnetExtLink.credit_line LinkDirection_In garnet = Ok C /\
      Network.getLocalNodeID g (base n0) = Ok (loc g) /\ loc g < Network.m_nodes (base n0) /\ 0 <= loc g < zlength (m_nis n0) /\
      vget (m_routers n0) d = Ok x /\ NetworkLink.bitWidth (receiver_end F) = Router.m_bit_width x /\
      ni_vcs (loc g) = Router.m_vc_per_vnet x
  | Topology.MakeExtOutLink s g link _ => exists garnet F C x,
      ext_link (bl_ptr link) = Some garnet /\ GarnetExtLink.flit_line LinkDirection_Out garnet = Ok F /\
      GarnetExtLink.credit_line LinkDirection_Out garnet = Ok C /\
      Network.getLocalNodeID g (base n0) = Ok (loc g) /\ loc g < Network.m_nodes (base n0) /\ 0 <= loc g < zlength (m_nis n0) /\
      vget (m_routers n0) s = Ok x /\ NetworkLink.bitWidth (sender_end F) = Router.m_bit_width x
  | Topology.MakeInternalLink s d link _ _ _ => exists garnet F C xs xd,
      int_link (bl_ptr link) = Some garnet /\ GarnetIntLink.flit_line garnet = Ok F /\ GarnetIntLink.credit_line garnet = Ok C /\
      vget (m_routers n0) s = Ok xs /\ vget (m_routers n0) d = Ok xd /\
      NetworkLink.bitWidth (sender_end F) = Router.m_bit_width xs /\ NetworkLink.bitWidth (receiver_end F) = Router.m_bit_width xd
  end.

(** Its table has an entry for every virtual network. *)
Definition link_fits (c : Topology.MadeLink) : Prop := zlength (table_of c) = vnets /\ object_fits c.

(** The network after the links [cs]. *)
Record made_network (cs : list Topology.MadeLink) (n : GarnetNetwork.t) : Prop := {
  mn_nodes : nodes_made (ins loc cs) (outs loc cs) n;
  mn_wires : wire_ends <$> m_wires n = ends_from loc [] cs;
}.

Lemma nodes_made_ext I O I' O' n : (forall a, I' a = I a) -> (forall a, O' a = O a) -> nodes_made I O n -> nodes_made I' O' n.
Proof.
  intros HI HO [Hf Hnr Hr Hnn Hns]. split; try done.
  - intros r x0 x Hx0 Hx. rewrite HI, HO. by apply Hr.
  - intros l y Hy. rewrite HI, HO. by apply Hns.
Qed.

Lemma made_snoc cs c n w : nodes_made (plugged (enters loc c) c (ins loc cs)) (plugged (leaves loc c) c (outs loc cs)) n ->
  wire_ends <$> m_wires n = ends_from loc [] cs -> wire_ends w = ends loc cs c ->
  made_network (cs ++ [c]) (n <| m_wires ::= (fun ws => ws ++ [w]) |>).
Proof.
  intros Hn Hw Hc. split; simpl.
  - apply (nodes_made_ext (plugged (enters loc c) c (ins loc cs)) (plugged (leaves loc c) c (outs loc cs)));
      [apply ins_snoc|apply outs_snoc|]. by destruct Hn.
  - rewrite fmap_app, ends_from_snoc, Hw. simpl. by rewrite Hc.
Qed.

Lemma grow_max_nodes I O v n : nodes_made I O n -> nodes_made I O (grow_max v n).
Proof. by intros []. Qed.

Lemma make_internal_ok cs s d link table o i n : let c := Topology.MakeInternalLink s d link table o i in
  made_network cs n -> link_fits c -> safe (makeInternalLink int_link s d link table o i n) (made_network (cs ++ [c])).
Proof.
  intros c [Hn Hw] (Ht & garnet & F & C & xs & xd & Hg & HF & HC & Hs & Hd & Hws & Hwd). unfold makeInternalLink.
  rewrite Hg. cbn [cast mbind res_bind]. rewrite HF. cbn [mbind res_bind]. rewrite HC. cbn [mbind res_bind].
  destruct (router_there _ _ _ _ _ Hn Hs) as (ys & Hys & Hms). destruct (router_there _ _ _ _ _ Hn Hd) as (yd & Hyd & Hmd).
  rewrite Hys. cbn [mbind res_bind]. rewrite Hyd. cbn [mbind res_bind]. destruct (rm_keeps _ _ _ _ _ Hmd) as (_ & _ & -> & _).
  set (F1 := F <| ln_link ::= NetworkLink.setType INT_ |>). destruct (setType_widths INT_ F) as [HF1 HF2]. fold F1 in HF1, HF2.
  destruct (router_vcs d xd Hd) as [Hpos Hvd].
  apply safe_bind. eapply safe_mono; [eapply (router_in_ok c d i _ _ xd); [by apply grow_max_nodes|done|congruence]|].
  intros n1 (Hn1 & Hw1 & _ & Hin). apply safe_bind. rewrite <- Hvd.
  eapply safe_mono; [eapply (router_out_ok c s o _ _ _ xs); [done..|by rewrite sender_width_resize, HF2|simpl; lia|done]|].
  intros n2 (Hn2 & Hw2 & _ & Hsame). rewrite <- Hsame, <- (rm_ins _ _ _ _ _ Hmd) in Hin.
  rewrite receiver_resize_both, Hvd. unfold Router.get_num_inports. rewrite (put_in_link_same _ _ _ _ Hin). cbn [mbind res_bind].
  apply made_snoc; [done|by rewrite Hw2, Hw1|]. unfold wire_ends, ends. simpl. repeat f_equal.
  - unfold Router.get_num_outports. pose proof (Forall2_length (rm_outs _ _ _ _ _ Hms)). unfold zlength. congruence.
  - apply (rm_ins _ _ _ _ _ Hmd).
Qed.

Lemma local_ni cs n l : made_network cs n -> 0 <= l < zlength (m_nis n0) ->
  exists y, vget (m_nis n) l = Ok y /\ zlength (NetworkInterface.inPorts y) = zlength (ins loc cs (AtNI l)) /\
    zlength (NetworkInterface.outPorts y) = zlength (outs loc cs (AtNI l)).
Proof.
  intros [Hn _] Hl. destruct (ni_there _ _ _ _ Hn Hl) as (y & Hy & [_ Hi Ho _]). exists y. split_and!; [done..|].
  unfold zlength. by rewrite <- (length_fmap OutputPort.routerID), Ho, length_fmap.
Qed.

(** Resizing the bridges at the input ports of an interface moves no wire. *)
Lemma resize_wires l v (b : bool) (ws : list Wire) :
  wire_ends <$> (if b then resize_inports l v <$> ws else ws) = wire_ends <$> ws.
Proof.
  destruct b; [|done]. rewrite <- list_fmap_compose. apply list_fmap_ext. intros i w _. unfold wire_ends, resize_inports. simpl.
  destruct (w_to w) eqn:E; [by rewrite E|]. case_match; simpl; by rewrite E.
Qed.

Lemma make_ext_in_ok cs g d link table n : let c := Topology.MakeExtInLink g d link table in
  made_network cs n -> link_fits c -> safe (makeExtInLink ext_link sys g d link table n) (made_network (cs ++ [c])).
Proof.
  intros c Hmade (Ht & garnet & F & C & x & Hg & HF & HC & Hloc & Hlt & Hl & Hx & Hwx & Hvc).
  destruct (local_ni _ _ _ Hmade Hl) as (y & Hy & Hyi & Hyo). destruct Hmade as [Hn Hw].
  unfold makeExtInLink. destruct (nd_frame _ _ _ Hn) as (Hbase & _). rewrite Hbase, Hloc. cbn [mbind res_bind].
  apply safe_bind, safe_assert; [lia|].
  rewrite Hg. cbn [cast mbind res_bind]. rewrite HF. cbn [mbind res_bind]. rewrite HC. cbn [mbind res_bind].
  destruct (router_there _ _ _ _ _ Hn Hx) as (y0 & Hy0 & Hmx). rewrite Hy0. cbn [mbind res_bind].
  destruct (rm_keeps _ _ _ _ _ Hmx) as (_ & _ & -> & _).
  set (F1 := F <| ln_link ::= NetworkLink.setType EXT_IN_ |>). destruct (setType_widths EXT_IN_ F) as [HF1 _]. fold F1 in HF1.
  simpl m_nis. rewrite Hy. cbn [mbind res_bind]. rewrite <- Hvc.
  pose proof (proj1 (router_vcs d x Hx)) as Hpos.
  apply safe_bind. eapply safe_mono; [eapply (ni_out_ok c (loc g)); [by apply grow_max_nodes|done|lia]|].
  intros n1 (Hn1 & Hw1 & Hr1). apply safe_bind.
  eapply safe_mono; [eapply (router_in_ok c d "Local" _ _ x)|].
  { destruct Hn1 as [H1 H2 H3 H4 H5]. split; [exact H1|exact H2|exact H3|exact H4|exact H5]. }
  { done. }
  { by destruct F as [[] ? []]. }
  intros n2 (Hn2 & Hw2 & _). apply safe_bind. eapply safe_mono.
  { eapply (ni_put_out_ok _ _ (loc g)); [exact Hn2|done|]. rewrite fn_lookup_insert, zlength_snoc, Hyo. unfold zlength. lia. }
  intros n3 [Hn3 Hw3]. apply made_snoc; [done| |].
  - rewrite Hw3, Hw2. simpl. rewrite resize_wires, Hw1. done.
  - unfold wire_ends, ends. simpl. rewrite Hyo. unfold Router.get_num_inports. by rewrite (rm_ins _ _ _ _ _ Hmx).
Qed.

Lemma make_ext_out_ok cs s g link table n : let c := Topology.MakeExtOutLink s g link table in
  made_network cs n -> link_fits c -> safe (makeExtOutLink ext_link s g link table n) (made_network (cs ++ [c])).
Proof.
  intros c Hmade (Ht & garnet & F & C & x & Hg & HF & HC & Hloc & Hlt & Hl & Hx & Hwx).
  destruct (local_ni _ _ _ Hmade Hl) as (y & Hy & Hyi & Hyo). destruct Hmade as [Hn Hw].
  unfold makeExtOutLink. destruct (nd_frame _ _ _ Hn) as (Hbase & _). rewrite Hbase, Hloc. cbn [mbind res_bind].
  apply safe_bind, safe_assert; [lia|].
  apply safe_bind, safe_assert; [rewrite (nd_nrouters _ _ _ Hn); apply vget_bound in Hx; lia|].
  rewrite Hg. cbn [cast mbind res_bind]. rewrite HF. cbn [mbind res_bind]. rewrite HC. cbn [mbind res_bind].
  destruct (router_there _ _ _ _ _ Hn Hx) as (y0 & Hy0 & Hmx). rewrite Hy0. cbn [mbind res_bind].
  destruct (rm_keeps _ _ _ _ _ Hmx) as (_ & _ & -> & _).
  set (F1 := F <| ln_link ::= NetworkLink.setType EXT_OUT_ |>). destruct (setType_widths EXT_OUT_ F) as [_ HF1]. fold F1 in HF1.
  simpl m_nis. rewrite Hy. cbn [mbind res_bind]. destruct (router_vcs s x Hx) as [Hpos Hvs]. rewrite <- Hvs.
  apply safe_bind. eapply safe_mono; [eapply (ni_in_ok c (loc g)); [by apply grow_max_nodes|done]|].
  intros n1 (Hn1 & Hw1 & _). apply safe_bind.
  eapply safe_mono; [eapply (router_out_ok c s "Local" _ _ _ x); [exact Hn1|done| |simpl; lia|done]|].
  { case_match; [congruence|]. by rewrite sender_width_resize, HF1. }
  intros n2 (Hn2 & Hw2 & _). apply safe_bind. eapply safe_mono.
  { eapply (ni_put_in_ok _ _ (loc g)); [exact Hn2|done|]. rewrite fn_lookup_insert, zlength_snoc, Hyi. unfold zlength. lia. }
  intros n3 [Hn3 Hw3]. apply made_snoc; [done|by rewrite Hw3, Hw2, Hw1|].
  unfold wire_ends, ends. simpl. rewrite Hyi. unfold Router.get_num_outports.
  pose proof (Forall2_length (rm_outs _ _ _ _ _ Hmx)) as Hlen. unfold zlength at 1. rewrite Hlen. done.
Qed.

(** All calls of the topology. *)
Lemma make_links_ok cs : Forall link_fits cs ->
  safe (for_each cs (make_link ext_link int_link sys) n0) (made_network cs).
Proof.
  intros Hall. apply (safe_for_each made_network).
  - split; [apply fresh_nodes|]. by rewrite (fn_wires Hfresh).
  - intros pre c post n -> Hn. apply list.Forall_app in Hall as [_ [Hc _]%list.Forall_cons].
    destruct c; [by apply make_ext_in_ok|by apply make_ext_out_ok|by apply make_internal_ok].
Qed.

End build.
