(* ===== verification/NetworkTheorems.v ===== *)
(** * NetworkTheorems: the network of a configuration, built and in use

    The topology, the links, the routers and the interfaces together:
    [GarnetNetwork.init] turns a configuration into a network in which every
    port has its wire and the channels at both ends of a wire agree, and in
    which table routing takes a packet from every router to the interface of
    its destination. *)

From stdpp Require Import functions.
From S2P Require Import Prelude CFloat FaultModel NetDest CommonTypes Flit Channels RoutingUnit RoutingTable Topology TopologyProofs TopologyLinks TopologyTheorems.
From S2P Require Import Clock Heap MessageBuffer Network Link NetworkBridge GarnetLink NetworkInterface Units Router.
From S2P Require Import InputWakeup RouterWakeup GarnetNetwork UnitLemmas RouterCycle SwitchTheorems NetworkProofs NetworkBuild.
Import GarnetNetwork.

(** ** From a configuration to a network *)

Section network.
Context `{Hmt : MachineTypes} `{!MachineTypesOk}.
Context (ext_link : Z -> option GarnetExtLink.t) (int_link : Z -> option GarnetIntLink.t) (sys : RubySystem).
Context (ni_vcs : Z -> Z).

(** The message buffers of the controllers wait for a consumer. *)
Definition unconnected (b : option MessageBuffer.t) : Prop :=
  match b with Some b => MessageBuffer.m_consumer b = false | None => True end.

Record queues_ready (n : GarnetNetwork.t) : Prop := {
  qr_nis : Network.m_nodes (base n) <= zlength (m_nis n);
  qr_to : Network.m_nodes (base n) <= zlength (Network.m_toNetQueues (base n));
  qr_from : Network.m_nodes (base n) <= zlength (Network.m_fromNetQueues (base n));
  qr_free : Forall (Forall unconnected) (Network.m_toNetQueues (base n));
}.

(** The rows of a mesh divide its routers. *)
Definition rows_fit (n : GarnetNetwork.t) : Prop :=
  0 < m_num_rows n -> exists cols, zlength (m_routers n) = m_num_rows n * cols.

(** Every configured link has its object. *)
Record links_fit (n : GarnetNetwork.t) (ext : list BasicExtLink) (int : list BasicIntLink) : Prop := {
  lf_ext : Forall (fun l =>
    let g := in_switch (mach_type (xl_ext_node l)) (mach_num (xl_ext_node l)) in
    object_fits n ni_vcs ext_link int_link (Topology.MakeExtInLink g (xl_int_node l) (xl_link l) []) /\
    object_fits n ni_vcs ext_link int_link (Topology.MakeExtOutLink (xl_int_node l) g (xl_link l) [])) ext;
  lf_int : Forall (fun l => object_fits n ni_vcs ext_link int_link
    (Topology.MakeInternalLink (il_src_node l) (il_dst_node l) (il_link l) [] (il_src_outport l) (il_dst_inport l))) int;
}.

(** Connecting the interfaces to the controllers changes nothing else. *)
Record same_parts (n n' : GarnetNetwork.t) : Prop := {
  sp_base : base n' = base n;
  sp_routers : m_routers n' = m_routers n;
  sp_nis : zlength (m_nis n') = zlength (m_nis n);
  sp_rows : m_num_rows n' = m_num_rows n;
  sp_algorithm : m_routing_algorithm n' = m_routing_algorithm n;
  sp_fault : fault_model n' = fault_model n;
}.

Lemma connect_all_ok inb : Forall unconnected inb ->
  safe (for_each inb (fun b l => b ← NetworkInterface.connect b; Ok (l ++ [b])) []) (fun _ => True).
Proof.
  intros Hall. apply (safe_for_each (fun _ _ => True)); [done|]. intros pre b post l -> _.
  apply list.Forall_app in Hall as [_ [Hb _]%list.Forall_cons].
  unfold NetworkInterface.connect, MessageBuffer.setConsumer. destruct b as [b|]; [|done]. simpl in Hb. by rewrite Hb.
Qed.

Lemma add_nodes_ok n : fresh_network n -> queues_ready n ->
  safe (for_ (Z.to_nat (Network.m_nodes (base n))) 0 add_node n) (fun n' => same_parts n n' /\ fresh_network n').
Proof.
  intros Hf [Hq1 Hq2 Hq3 Hq4]. apply (safe_for (fun _ n' => same_parts n n' /\ fresh_network n')); [done|].
  intros i n' Hi [[Hb Hr Hn Hrow Halg Hfm] [Hv Ht Hbuf Hrs Hns Hw]]. unfold add_node. rewrite Hb in *.
  apply safe_bind, safe_vget; [lia|]. intros inb Hin. apply safe_bind, safe_vget; [lia|]. intros outb _.
  unfold on_ni. apply safe_bind, safe_valterM; [lia|]. intros y Hy. unfold NetworkInterface.addNode.
  apply safe_bind. eapply safe_mono; [apply connect_all_ok; by eapply Forall_lookup_1|]. intros inb' _. simpl.
  split; split; simpl; try done; rewrite ?Hb; try done.
  - unfold zlength in *. by rewrite length_insert.
  - apply list.Forall_insert; [done|]. simpl. by apply (Forall_lookup_1 _ _ _ _ Hns) in Hy.
Qed.

Lemma object_fits_same n n' c c' : same_parts n n' ->
  object_fits n ni_vcs ext_link int_link c ->
  (match c, c' with
   | Topology.MakeExtInLink g d l _, Topology.MakeExtInLink g' d' l' _ => g' = g /\ d' = d /\ l' = l
   | Topology.MakeExtOutLink s g l _, Topology.MakeExtOutLink s' g' l' _ => s' = s /\ g' = g /\ l' = l
   | Topology.MakeInternalLink s d l _ _ _, Topology.MakeInternalLink s' d' l' _ _ _ => s' = s /\ d' = d /\ l' = l
   | _, _ => False
   end) -> object_fits n' ni_vcs ext_link int_link c'.
Proof.
  intros [Hb Hr Hn _ _ _]. unfold object_fits, loc.
  destruct c, c'; try done; intros Hc (-> & -> & ->); rewrite ?Hb, ?Hr, ?Hn; exact Hc.
Qed.

Lemma created_fit nr nv ext int s made w n n' : config_ok nr nv ext int -> links_fit n ext int -> same_parts n n' ->
  Z.of_nat nv = Network.m_virtual_networks (base n) -> built nr nv (all_links ext int) s ->
  making nv s w (fun _ _ => True) made -> Forall (link_fits n' ni_vcs ext_link int_link) made.
Proof.
  intros Hc [Hext Hint] Hsp Hnv Hb [Hfrom _]. apply list.Forall_forall. intros c Hcm.
  destruct (Hfrom c Hcm) as (i & j & e & He & table & -> & Hlen & _).
  rewrite (bt_find _ _ _ _ Hb), between_elem in He. pose proof (bt_nodes _ _ _ _ Hb) as Hnodes.
  pose proof (all_links_placed _ _ _ _ _ Hc He) as Hp. unfold placed in Hp. simpl in Hp.
  assert (Htab : forall c0, table_of c0 = table -> zlength (table_of c0) = Network.m_virtual_networks (base n')).
  { intros c0 ->. rewrite (sp_base _ _ Hsp), <- Hnv. unfold zlength. by rewrite Hlen. }
  unfold made_link. rewrite Hnodes. apply elem_of_app in He as [He|He].
  - apply list_elem_of_bind in He as (l & Hl & Hin). rewrite list.Forall_forall in Hext.
    destruct (Hext _ Hin) as [H1 H2]. pose proof (cf_ext _ _ _ _ Hc) as Hm. rewrite list.Forall_forall in Hm.
    destruct (Hm _ Hin) as [Hmach Hr]. pose proof (machine_switch _ _ Hmach) as Hg.
    apply elem_of_cons in Hl as [[= -> -> ->]|Hl]; [|apply list_elem_of_singleton in Hl as [= -> -> ->]]; unfold router_switch in *.
    + rewrite (proj2 (Z.ltb_lt _ _)) by lia. split; [by apply Htab|].
      eapply object_fits_same; [done|exact H1|]. split_and!; [done|lia|done].
    + rewrite (proj2 (Z.ltb_ge _ _)), (proj2 (Z.ltb_lt _ _)) by lia. split; [by apply Htab|].
      eapply object_fits_same; [done|exact H2|]. split_and!; [lia|lia|done].
  - apply list_elem_of_fmap in He as (l & [= -> -> ->] & Hin). rewrite list.Forall_forall in Hint.
    pose proof (cf_int _ _ _ _ Hc) as Hm. rewrite list.Forall_forall in Hm. destruct (Hm _ Hin) as (? & ? & _).
    unfold router_switch in *. rewrite !(proj2 (Z.ltb_ge _ _)) by lia. split; [by apply Htab|].
    eapply object_fits_same; [done|by apply (Hint _ Hin)|]. split_and!; [lia|lia|done].
Qed.

Lemma set_mesh_ok n : rows_fit n -> safe (set_mesh n) (fun n' => exists rows cols,
  n' = n <| m_num_rows := rows |> <| m_num_cols := Some cols |>).
Proof.
  intros Hrows. unfold set_mesh. destruct (Z.ltb_spec 0 (m_num_rows n)) as [Hpos|_]; [|by simpl; eauto].
  destruct (Hrows Hpos) as [cols Hcols]. rewrite Hcols, Z.mul_comm, Z.div_mul by lia.
  apply safe_bind, safe_assert; [lia|]. simpl. exists (m_num_rows n), cols. by destruct n.
Qed.

(** The whole of [init]: the links of the topology are made, one after the
    other, on a network whose interfaces know their controllers. *)
Lemma init_made nr nv ext int fuel n0 st : config_ok nr nv ext int -> (config_fuel nr <= fuel)%nat ->
  Z.of_nat nv = Network.m_virtual_networks (base n0) -> fresh_network n0 -> queues_ready n0 -> rows_fit n0 ->
  links_fit n0 ext int ->
  exists s made w D n1 n, Topology.new nr (Z.of_nat nv) ext int = Ok s /\ Topology.createLinks fuel s = Ok made /\
    built nr nv (all_links ext int) s /\ topo_ok nv s /\ link_weights nv s w /\
    (forall v, in_range (Z.of_nat nv) v -> dist_plane (Z.to_nat (Topology.num_switches (Topology.m_link_map s))) w D v) /\
    making nv s w (fun _ _ => True) made /\
    init ext_link int_link sys fuel s st n0 = declare_faults st n /\ fault_model n = fault_model n0 /\
    base n1 = base n0 /\ m_routers n1 = m_routers n0 /\ m_routing_algorithm n1 = m_routing_algorithm n0 /\
    fresh_network n1 /\ Forall (link_fits n1 ni_vcs ext_link int_link) made /\ made_network n1 ni_vcs made n.
Proof.
  intros Hc Hf Hnv Hfresh Hq Hrows Hfit.
  destruct (create_spec nr nv ext int fuel Hc Hf) as (s & made & w & D & Hnew & Hmade & Hb & Hok & Hw & HD & Hmk).
  destruct (safe_inv _ _ (add_nodes_ok n0 Hfresh Hq)) as (n1 & Hn1 & Hsp & Hf1).
  pose proof (created_fit _ _ _ _ _ _ _ _ _ Hc Hfit Hsp Hnv Hb Hmk) as Hall.
  destruct (safe_inv _ _ (make_links_ok n1 ni_vcs Hf1 ext_link int_link sys made Hall)) as (n2 & Hn2 & Hmn).
  destruct Hsp as [Hsb Hsr Hsn Hsrow Hsa Hsf]. destruct (nd_frame _ _ _ _ _ (mn_nodes _ _ _ _ Hmn)) as (Hfb & Hf2 & Hf3 & Hf4 & Hf5 & Hf6 & Hf7).
  assert (Hrows2 : rows_fit n2).
  { intros Hpos. rewrite Hf5, Hsrow in *. destruct (Hrows Hpos) as [cols Hcols]. exists cols.
    by rewrite (nd_nrouters _ _ _ _ _ (mn_nodes _ _ _ _ Hmn)), Hsr. }
  destruct (safe_inv _ _ (set_mesh_ok n2 Hrows2)) as (n3 & Hn3 & rows & cols & ->).
  exists s, made, w, D, (n1 <| m_num_rows := rows |>), (n2 <| m_num_rows := rows |> <| m_num_cols := Some cols |>).
  do 7 (split; [done|]). split.
  { unfold init. rewrite Hn1. cbn [mbind res_bind]. rewrite Hmade. cbn [mbind res_bind]. rewrite Hn2. cbn [mbind res_bind].
    rewrite Hn3. done. }
  split; [simpl; by rewrite Hf7, Hsf|].
  do 3 (split; [done|]). split; [by destruct Hf1|]. split; [exact Hall|].
  destruct Hmn as [[Hfr Hnr Hrs Hnn Hns] Hws]. split; [|exact Hws]. split; [|exact Hnr| |exact Hnn|].
  - unfold frame. by split_and!.
  - intros r x0 x Hx0 Hx. destruct (Hrs r x0 x Hx0 Hx). by split.
  - intros l y Hy. destruct (Hns l y Hy). by split.
Qed.

(** ** Faults *)

(** What the fault model is told of a router. *)
Definition fault_request (n : GarnetNetwork.t) (x : Router.t) : FaultModel.Request :=
  FaultModel.mkRequest (Router.get_num_inports x) (Router.get_num_outports x) (Router.m_vc_per_vnet x) (m_buffers_per_data_vc n) (m_buffers_per_ctrl_vc n).

(** A database with a record for every router, and routers numbered in order. *)
Record faults_known (n : GarnetNetwork.t) (f : FaultModel.t) (st : FaultModel.Statics) : Prop := {
  fk_database : FaultModel.database_ok f;
  fk_first : FaultModel.routers f = [] /\ FaultModel.router_index st = 0;
  fk_ids r x : vget (m_routers n) r = Ok x -> Router.m_id x = r;
  fk_supported : Forall (fun x => FaultModel.supported f (fault_request n x)) (m_routers n);
}.

Lemma declare_fault_ok n f s x c0 : FaultModel.database_ok f -> FaultModel.supported f (fault_request n x) ->
  FaultModel.router_index s = zlength (FaultModel.routers f) -> Router.m_id x = zlength (FaultModel.routers f) ->
  c0 = FaultModel.configurations f ->
  safe (declare_fault n x (f, s)) (fun '(f', s') => FaultModel.database_ok f' /\ FaultModel.configurations f' = c0 /\
    zlength (FaultModel.routers f') = zlength (FaultModel.routers f) + 1 /\ FaultModel.router_index s' = FaultModel.router_index s + 1).
Proof.
  intros Hdb Hsup Hi Hid ->. destruct (FaultModel.declare_spec _ [] f s Hsup) as (c & Hc & Hd). unfold FaultModel.declare in Hd. simpl in Hd.
  apply bind_Ok in Hd as ([[id f1] s1] & Hdecl & [= -> -> ->]). unfold declare_fault. simpl. rewrite Hdecl. cbn [mbind res_bind].
  rewrite Hi, Hid, Z.eqb_refl. cbn [assert mbind res_bind]. set (f' := f <| FaultModel.routers ::= _ |>).
  assert (FaultModel.database_ok f') as Hdb' by (destruct Hdb; by split).
  assert (FaultModel.routers f' !! Z.to_nat (zlength (FaultModel.routers f)) = Some c) as Hlast.
  { unfold f', zlength. simpl. rewrite Nat2Z.id. by apply list_lookup_middle. }
  assert (zlength (FaultModel.conf_fault_type c) = FaultModel.number_of_fault_types) as Hty.
  { pose proof (FaultModel.db_types f Hdb) as Ht. rewrite list.Forall_forall in Ht. apply Ht, Hc. }
  pose proof (zlength_nonneg (FaultModel.routers f)) as Hpos.
  destruct (safe_inv _ _ (FaultModel.fault_prob_ok _ FaultModel.BASELINE_TEMPERATURE_CELCIUS f' c Hdb' Hlast Hpos Hty)) as (? & -> & _).
  destruct (FaultModel.fault_vector_spec _ FaultModel.BASELINE_TEMPERATURE_CELCIUS f' c Hdb' Hlast Hpos Hty) as (w & _ & ->).
  cbn [mbind res_bind]. split; [done|]. split; [done|]. split; [unfold f', zlength; simpl; rewrite length_app; simpl; lia|simpl; lia].
Qed.

Lemma declare_faults_ok n f st : fault_model n = Some f -> faults_known n f st ->
  exists f' st', declare_faults st n = Ok (n <| fault_model := Some f' |>, st') /\ zlength (FaultModel.routers f') = zlength (m_routers n).
Proof.
  intros Hf [Hdb [Hr Hi] Hids Hsup]. unfold declare_faults. rewrite Hf.
  destruct (safe_inv (for_each (m_routers n) (declare_fault n) (f, st)) (fun '(f', s') => zlength (FaultModel.routers f') = zlength (m_routers n)))
    as ([f' st'] & -> & Hl); [|by exists f', st'].
  eapply safe_mono; [apply (safe_for_each (fun pre '(f', s') => FaultModel.database_ok f' /\ FaultModel.configurations f' = FaultModel.configurations f /\
    zlength (FaultModel.routers f') = zlength pre /\ FaultModel.router_index s' = zlength pre))|].
  - rewrite Hr, Hi. done.
  - intros pre x post [f1 s1] Heq (Hdb1 & Hcf & Hl1 & Hi1). eapply safe_mono; [apply (declare_fault_ok n f1 s1 x (FaultModel.configurations f))|].
    + done.
    + rewrite Heq in Hsup. apply list.Forall_app in Hsup as [_ [Hx _]%list.Forall_cons]. unfold FaultModel.supported in *. by rewrite Hcf.
    + congruence.
    + rewrite Hl1. apply Hids. rewrite Heq. unfold zlength. apply (vget_nat (pre ++ x :: post) (length pre)). by apply list_lookup_middle.
    + done.
    + intros [f2 s2] (? & ? & Hl2 & Hi2). unfold zlength in *. rewrite length_app. simpl. split_and!; [done..|lia|lia].
  - intros [f2 s2] (_ & _ & ? & _). done.
Qed.

(** ** Ports and wires *)

(** The ports of a network. *)
Definition has_out (p : Sender) (n : GarnetNetwork.t) : Prop :=
  match p with
  | RouterOut r i => exists x, vget (m_routers n) r = Ok x /\ 0 <= i < zlength (Router.m_output_unit x)
  | NIOut l i => exists y, vget (m_nis n) l = Ok y /\ 0 <= i < zlength (NetworkInterface.outPorts y)
  end.
Definition has_in (p : Receiver) (n : GarnetNetwork.t) : Prop :=
  match p with
  | RouterIn r i => exists x, vget (m_routers n) r = Ok x /\ 0 <= i < zlength (Router.m_input_unit x)
  | NIIn l i => exists y, vget (m_nis n) l = Ok y /\ 0 <= i < zlength (NetworkInterface.inPorts y)
  end.

(** The virtual channels of an input unit, and the channels that a sender
    keeps the state of.  An interface has no channels on its input side. *)
Definition channels_in (p : Receiver) (n : GarnetNetwork.t) (k : Z) : Prop :=
  match p with
  | RouterIn r i => exists x u, vget (m_routers n) r = Ok x /\ vget (Router.m_input_unit x) i = Ok u /\
      zlength (InputUnit.virtualChannels u) = k
  | NIIn _ _ => False
  end.
Definition states_out (p : Sender) (n : GarnetNetwork.t) (k : Z) : Prop :=
  match p with
  | RouterOut r i => exists x u, vget (m_routers n) r = Ok x /\ vget (Router.m_output_unit x) i = Ok u /\
      zlength (OutputUnit.outVcState u) = k
  | NIOut l i => exists y, vget (m_nis n) l = Ok y /\ zlength (NetworkInterface.outVcState y) = k
  end.

(** The wires join the ports one to one, and their ends agree. *)
Record wired (n : GarnetNetwork.t) : Prop := {
  wi_from : NoDup (w_from <$> m_wires n);
  wi_to : NoDup (w_to <$> m_wires n);
  wi_outs : forall p, has_out p n <-> p ∈ (w_from <$> m_wires n);
  wi_ins : forall p, has_in p n <-> p ∈ (w_to <$> m_wires n);
  wi_channels : forall w k, w ∈ m_wires n -> channels_in (w_to w) n k -> states_out (w_from w) n k;
}.

Section wires.
Context (n0 : GarnetNetwork.t) (Hfresh : fresh_network n0) (made : list Topology.MadeLink) (n : GarnetNetwork.t).
Context (Hmade : made_network n0 ni_vcs made n) (Hfits : Forall (link_fits n0 ni_vcs ext_link int_link) made).

Lemma wire_senders : w_from <$> m_wires n = (fun x => x.1.2) <$> ends_from (loc n0) [] made.
Proof. rewrite <- (mn_wires _ _ _ _ Hmade). by rewrite <- list_fmap_compose. Qed.
Lemma wire_receivers : w_to <$> m_wires n = snd <$> ends_from (loc n0) [] made.
Proof. rewrite <- (mn_wires _ _ _ _ Hmade). by rewrite <- list_fmap_compose. Qed.

Definition node_exists (a : Node) : Prop :=
  match a with AtRouter r => exists x, vget (m_routers n0) r = Ok x | AtNI l => 0 <= l < zlength (m_nis n0) end.

Lemma ends_exist c : link_fits n0 ni_vcs ext_link int_link c -> node_exists (leaves (loc n0) c) /\ node_exists (enters (loc n0) c).
Proof. intros [_ Hc]. destruct c; simpl in *; naive_solver. Qed.

(** A node has as many ports as links. *)
Lemma ports_of a : node_exists a ->
  (forall i, has_out (out_port a i) n <-> 0 <= i < zlength (outs (loc n0) made a)) /\
  (forall i, has_in (in_port a i) n <-> 0 <= i < zlength (ins (loc n0) made a)).
Proof.
  intros Ha. pose proof (mn_nodes _ _ _ _ Hmade) as Hn. destruct a as [r|l]; simpl in Ha.
  - destruct Ha as [x0 Hx0]. destruct (router_there _ _ _ _ _ _ _ Hn Hx0) as (x & Hx & [_ _ Hi Ho _ _]).
    apply Forall2_length in Ho. unfold zlength in *. simpl.
    split; (intros i; split; [intros (x' & Hx' & Hr); rewrite Hx in Hx'; injection Hx' as <-|intros Hr; exists x; split; [done|]]); unfold zlength in *; lia.
  - destruct (ni_there _ _ _ _ _ _ Hn Ha) as (y & Hy & [_ Hi Ho _]). apply (f_equal length) in Ho. rewrite !length_fmap in Ho.
    unfold zlength in *. simpl.
    split; (intros i; split; [intros (x' & Hx' & Hr); rewrite Hy in Hx'; injection Hx' as <-|intros Hr; exists y; split; [done|]]); unfold zlength in *; lia.
Qed.

Lemma port_node_out p : has_out p n -> exists a i, p = out_port a i /\ node_exists a.
Proof.
  pose proof (mn_nodes _ _ _ _ Hmade) as Hn. destruct p as [r i|l i]; simpl; intros (x & Hx%vget_bound & _);
    [exists (AtRouter r), i|exists (AtNI l), i]; (split; [done|]); simpl.
  - apply vget_range. by rewrite <- (nd_nrouters _ _ _ _ _ Hn).
  - by rewrite <- (nd_nnis _ _ _ _ _ Hn).
Qed.
Lemma port_node_in p : has_in p n -> exists a i, p = in_port a i /\ node_exists a.
Proof.
  pose proof (mn_nodes _ _ _ _ Hmade) as Hn. destruct p as [r i|l i]; simpl; intros (x & Hx%vget_bound & _);
    [exists (AtRouter r), i|exists (AtNI l), i]; (split; [done|]); simpl.
  - apply vget_range. by rewrite <- (nd_nrouters _ _ _ _ _ Hn).
  - by rewrite <- (nd_nnis _ _ _ _ _ Hn).
Qed.

Lemma outs_ports p : has_out p n <-> p ∈ (w_from <$> m_wires n).
Proof.
  rewrite wire_senders, list_elem_of_fmap. split.
  - intros Hp. destruct (port_node_out p Hp) as (a & i & -> & Ha). apply (proj1 (ports_of a Ha)) in Hp.
    destruct (lookup_lt_is_Some_2 (outs (loc n0) made a) (Z.to_nat i)) as [c Hc]; [unfold zlength in Hp; lia|].
    apply outs_wire in Hc as [j Hj]. rewrite Z2Nat.id in Hj by lia. eexists. split; [|exact Hj]. done.
  - intros (x & -> & (pre & c & post & Heq & ->)%ends_split). simpl. rewrite list.Forall_forall in Hfits.
    assert (Hc : c ∈ made) by (rewrite Heq; apply elem_of_app; right; by left).
    apply ports_of; [by apply ends_exist, Hfits|]. pose proof (filter_before (fun c' => leaves (loc n0) c' = leaves (loc n0) c) pre c post eq_refl) as Hlt.
    unfold zlength, outs. rewrite Heq. lia.
Qed.

Lemma ins_ports p : has_in p n <-> p ∈ (w_to <$> m_wires n).
Proof.
  rewrite wire_receivers, list_elem_of_fmap. split.
  - intros Hp. destruct (port_node_in p Hp) as (a & i & -> & Ha). apply (proj2 (ports_of a Ha)) in Hp.
    destruct (lookup_lt_is_Some_2 (ins (loc n0) made a) (Z.to_nat i)) as [c Hc]; [unfold zlength in Hp; lia|].
    apply ins_wire in Hc as [j Hj]. rewrite Z2Nat.id in Hj by lia. eexists. split; [|exact Hj]. done.
  - intros (x & -> & (pre & c & post & Heq & ->)%ends_split). simpl. rewrite list.Forall_forall in Hfits.
    assert (Hc : c ∈ made) by (rewrite Heq; apply elem_of_app; right; by left).
    apply ports_of; [by apply ends_exist, Hfits|]. pose proof (filter_before (fun c' => enters (loc n0) c' = enters (loc n0) c) pre c post eq_refl) as Hlt.
    unfold zlength, ins. rewrite Heq. lia.
Qed.

(** The channels of the input units of a router. *)
Lemma channels_router r x0 i k : vget (m_routers n0) r = Ok x0 -> channels_in (RouterIn r i) n k ->
  k = Network.m_virtual_networks (base n0) * Router.m_vc_per_vnet x0.
Proof.
  intros Hx0 (x & u & Hx & Hu & <-). pose proof (fn_vnets _ Hfresh) as Hv. destruct (router_vcs _ Hfresh _ _ Hx0) as [Hpos _].
  pose proof (nd_routers _ _ _ _ _ (mn_nodes _ _ _ _ Hmade) r x0 x Hx0 Hx) as [Ha _ _ _ _ _].
  apply assembled_parts in Ha as [_ _ _ _ _ _ Hin _ _ _]; [|done..]. apply vget_Ok in Hu as [_ Hu].
  apply (Forall_lookup_1 _ _ _ _ Hin) in Hu as [_ -> _ _ _]. unfold zlength. rewrite length_replicate. nia.
Qed.

(** The states that a sender keeps for a link that enters a router. *)
Lemma states_sender pre c post d : made = pre ++ c :: post -> enters (loc n0) c = AtRouter d ->
  states_out (out_port (leaves (loc n0) c) (zlength (outs (loc n0) pre (leaves (loc n0) c)))) n
    (Network.m_virtual_networks (base n0) * vcs_at n0 d).
Proof.
  intros Heq Hd. pose proof (mn_nodes _ _ _ _ Hmade) as Hn. rewrite list.Forall_forall in Hfits.
  assert (Hc : c ∈ made) by (rewrite Heq; apply elem_of_app; right; by left).
  destruct (Hfits c Hc) as [_ Hfit].
  assert (Hlook : outs (loc n0) made (leaves (loc n0) c) !! length (outs (loc n0) pre (leaves (loc n0) c)) = Some c).
  { apply filter_lookup_split. by exists pre, post. }
  destruct c as [g d' link table|s g link table|s d' link table o i']; simpl in *; [|done|].
  - injection Hd as ->. destruct Hfit as (_ & _ & _ & x & _ & _ & _ & _ & _ & Hl & Hx & _ & Hvc).
    destruct (ni_there _ _ _ _ _ _ Hn Hl) as (y & Hy & [_ _ _ [[HO _]|(_ & _ & _ & Hst)]]).
    { rewrite HO in Hlook. done. }
    exists y. split; [done|]. rewrite Hst, Hvc. unfold vcs_at. by rewrite Hx.
  - injection Hd as ->. destruct Hfit as (_ & _ & _ & xs & xd & _ & _ & _ & Hs & Hxd & _).
    destruct (router_there _ _ _ _ _ _ _ Hn Hs) as (x & Hx & [_ _ _ Ho _ _]).
    destruct (Forall2_lookup_r _ _ _ _ _ Ho Hlook) as (ou & Hou & Hlen). exists x, ou. split; [done|]. split; [|done].
    apply vget_Ok. split; [unfold zlength; lia|]. unfold zlength. by rewrite Nat2Z.id.
Qed.

Lemma made_wired : wired n.
Proof.
  split; [rewrite wire_senders; apply senders_nodup|rewrite wire_receivers; apply receivers_nodup|apply outs_ports|apply ins_ports|].
  intros w k Hw Hk. assert (Hin : wire_ends w ∈ ends_from (loc n0) [] made).
  { rewrite <- (mn_wires _ _ _ _ Hmade). apply list_elem_of_fmap. eauto. }
  apply ends_split in Hin as (pre & c & post & Heq & [= _ -> Hto]). rewrite Hto in Hk.
  destruct (enters (loc n0) c) as [d|] eqn:Hd; [|done]. simpl app in *.
  assert (Hx : exists x0, vget (m_routers n0) d = Ok x0).
  { rewrite list.Forall_forall in Hfits. destruct (ends_exist c) as [_ He]; [|by rewrite Hd in He].
    apply Hfits. rewrite Heq. apply elem_of_app. right. by left. }
  destruct Hx as [x0 Hx0]. rewrite (channels_router _ _ _ _ Hx0 Hk), <- (proj2 (router_vcs _ Hfresh _ _ Hx0)).
  by eapply states_sender.
Qed.

End wires.

(** C7: [GarnetNetwork.init] builds a network from every consistent
    configuration whose link objects fit, and does not fail before the fault model
    is told of the routers.  Every output port and every
    input port of the routers and interfaces has exactly one wire, and
    where a wire enters a router, its sender keeps the state of exactly as
    many channels as the input unit has.  Without a fault model, or with one
    whose database is well-formed and has a record for every router of the
    network, and routers that are numbered in order, [init] ends.  A router
    with an output port then initialises into a state from which its cycles are
    safe; the assertion in [outportRecord] fails for a router without one. *)
Theorem network_built nr nv ext int fuel n0 st : config_ok nr nv ext int -> (config_fuel nr <= fuel)%nat ->
  Z.of_nat nv = Network.m_virtual_networks (base n0) -> fresh_network n0 -> queues_ready n0 -> rows_fit n0 ->
  links_fit n0 ext int -> Z.of_nat nv < 2 ^ 31 -> Z.of_nat nv <= zlength (Network.m_ordered (base n0)) ->
  exists s n, Topology.new nr (Z.of_nat nv) ext int = Ok s /\
    init ext_link int_link sys fuel s st n0 = declare_faults st n /\ fault_model n = fault_model n0 /\
    (fault_model n0 = None -> init ext_link int_link sys fuel s st n0 = Ok (n, st)) /\
    (forall f, fault_model n0 = Some f -> faults_known n f st ->
      exists f' st', init ext_link int_link sys fuel s st n0 = Ok (n <| fault_model := Some f' |>, st') /\
        zlength (FaultModel.routers f') = zlength (m_routers n)) /\
    wired n /\
    forall r x, vget (m_routers n) r = Ok x ->
      if decide (0 < Router.get_num_outports x)
      then exists x', Router.init x = Ok x' /\ cycle_ok (params n) 0 (Router.m_id x) (Router.get_num_outports x) x'
      else Router.init x = Err AssertFail.
Proof.
  intros Hc Hf Hnv Hfresh Hq Hrows Hfit Hmax Hord.
  destruct (init_made _ _ _ _ _ _ st Hc Hf Hnv Hfresh Hq Hrows Hfit)
    as (s & made & w & D & n1 & n & Hnew & _ & _ & _ & _ & _ & _ & Hinit & Hfm & Hb & _ & _ & Hf1 & Hall & Hmn).
  exists s, n. split; [done|]. split; [done|]. split; [done|]. rewrite Hinit. split; [intros Hnone; unfold declare_faults; by rewrite Hfm, Hnone|].
  split; [intros f Hsome Hk; apply (declare_faults_ok n f st); congruence|]. split; [by eapply made_wired|]. intros r x Hx.
  destruct (decide (0 < Router.get_num_outports x)) as [Hout|Hout]; [|unfold Router.init, outportRecord.new; by rewrite bool_decide_eq_false_2].
  pose proof (mn_nodes _ _ _ _ Hmn) as Hn. pose proof (vget_bound _ _ _ Hx) as Hrange.
  rewrite (nd_nrouters _ _ _ _ _ Hn) in Hrange. destruct (vget_range _ _ Hrange) as [x0 Hx0].
  pose proof (rm_assembled _ _ _ _ _ _ (nd_routers _ _ _ _ _ Hn r x0 x Hx0 Hx)) as Ha.
  destruct (nd_frame _ _ _ _ _ Hn) as (Hfb & _). pose proof (fn_vnets _ Hf1). pose proof (router_vcs _ Hf1 _ _ Hx0) as [Hpos _].
  assert (Hpo : Network.m_virtual_networks (base n1) <= zlength (RoutingUnit.m_ordered (params n))).
  { simpl. rewrite Hfb, Hb, <- Hnv. done. }
  assert (Hr : 0 < Network.m_virtual_networks (base n1) < 2 ^ 31) by (split; [done|]; by rewrite Hb, <- Hnv).
  destruct (safe_inv _ _ (init_ok (params n) _ _ _ _ _ 0 0 x Hr Hpos Hpo Ha Hout ltac:(lia) ltac:(lia)))
    as (x' & Hi & Hcyc & _). eauto.
Qed.

End network.

(** ** An example: two routers with a machine each *)

Definition pair_wire : NetworkLink.t := NetworkLink.new 0 1 1 128 500 [].
Definition pair_bridge (ty : CDCType) : option NetworkBridge.t := Some (NetworkBridge.new pair_wire ty 1 1).

Definition pair_ext_link (p : Z) : option GarnetExtLink.t :=
  if p <? 2 then
    Some (GarnetExtLink.new (fun _ => pair_wire) (fun _ => pair_wire) false false false false
            (fun _ => None) (fun _ => None) (fun _ => None) (fun _ => None))
  else None.
(** The link from router 1 to router 0 crosses clock domains at both ends. *)
Definition pair_int_link (p : Z) : option GarnetIntLink.t :=
  if p =? 2 then Some (GarnetIntLink.new pair_wire pair_wire false false false false None None None None)
  else if p =? 3 then Some (GarnetIntLink.new pair_wire pair_wire true true false false
    (pair_bridge LINK_OBJECT) (pair_bridge OBJECT_LINK) (pair_bridge OBJECT_LINK) (pair_bridge LINK_OBJECT))
  else None.

Definition pair_base : Network.t :=
  match @Network.new pair_machines 1 8 64 64 [mkMachineID 0 0; mkMachineID 1 0] with
  | Ok b => b
  | Err _ => Network.mk 0 0 0 0 [] [] [] [] ∅
  end.
Definition pair_network : GarnetNetwork.t :=
  GarnetNetwork.mk pair_base 0 None 16 0 1 4 0 None [CTRL_VNET_]
    [Router.new 0 1 1 2 128 500; Router.new 1 1 1 2 128 500]
    [NetworkInterface.new 0 1 50000 500; NetworkInterface.new 1 1 50000 500] [].
Definition pair_system : RubySystem := mkRubySystem false false 6.

Lemma pair_network_new : GarnetNetwork.new pair_base 0 16 4 1 0 None (m_routers pair_network) (m_nis pair_network) = Ok pair_network.
Proof. reflexivity. Qed.

Lemma pair_fresh : fresh_network pair_network.
Proof.
  split; [done..| | |done].
  - repeat constructor; [exists 0, 1, 2, 128, 500|exists 1, 1, 2, 128, 500]; split_and!; try done; lia.
  - repeat constructor.
Qed.

Lemma pair_queues : queues_ready pair_network.
Proof. split; try done. repeat constructor. Qed.

Lemma pair_fits : @links_fit pair_machines pair_ext_link pair_int_link (fun _ => 2) pair_network pair_ext pair_int.
Proof.
  split.
  - apply list.Forall_cons. split; [|apply Forall_singleton]; split; do 4 eexists;
      split_and!; first [reflexivity|by vm_compute].
  - apply list.Forall_cons. split; [|apply Forall_singleton]; do 5 eexists; split_and!; reflexivity.
Qed.

(** A database with the one configuration of these routers. *)
Definition pair_faults : FaultModel.t := FaultModel.mk [FaultModel.mkConf 4 4 (replicate 10 (F32.of_Z 0))] [] [1].

Definition pair_faulty : GarnetNetwork.t := pair_network <| fault_model := Some pair_faults |>.

Lemma declare_faults_parts st n n' st' : declare_faults st n = Ok (n', st') -> exists f, n' = n <| fault_model := f |>.
Proof.
  unfold declare_faults. destruct (fault_model n) as [f|] eqn:E.
  - intros H. apply bind_Ok in H as ([f1 s1] & _ & [= <- _]). by eexists.
  - intros [= <- _]. exists None. destruct n. simpl in *. by rewrite E.
Qed.

(** The numbers that the fault model is told of. *)
Definition shape (x : Router.t) : Z * Z * Z * Z := (Router.m_id x, Router.get_num_inports x, Router.get_num_outports x, Router.m_vc_per_vnet x).

Definition pair_shapes : res (list (Z * Z * Z * Z) * Z * Z) :=
  s ← @Topology.new pair_machines 2 1 pair_ext pair_int;
  '(n, _) ← @init pair_machines pair_ext_link pair_int_link pair_system (@config_fuel pair_machines 2) s (FaultModel.mkStatics true 0) pair_faulty;
  Ok (shape <$> m_routers n, m_buffers_per_data_vc n, m_buffers_per_ctrl_vc n).

Lemma pair_shapes_computed : pair_shapes = Ok ([(0, 2, 2, 2); (1, 2, 2, 2)], 4, 1).
Proof. by vm_compute. Qed.

Lemma shapes_known n x0 x1 : m_routers n = [x0; x1] -> shape x0 = (0, 2, 2, 2) -> shape x1 = (1, 2, 2, 2) ->
  m_buffers_per_data_vc n = 4 -> m_buffers_per_ctrl_vc n = 1 -> faults_known n pair_faults (FaultModel.mkStatics true 0).
Proof.
  intros Hr [= Hid0 Hi0 Ho0 Hv0] [= Hid1 Hi1 Ho1 Hv1] Hd Hc. split.
  - split; [by repeat constructor|done].
  - done.
  - intros r x [Hpos Hx]%vget_Ok. rewrite Hr in Hx. destruct (Z.to_nat r) as [|[|k]] eqn:E; simplify_eq/=; lia.
  - rewrite Hr. apply List.Forall_cons; [|apply List.Forall_cons; [|constructor]]; unfold fault_request; rewrite ?Hi0, ?Ho0, ?Hv0, ?Hi1, ?Ho1, ?Hv1, Hd, Hc;
      unfold FaultModel.supported, FaultModel.rq_channels, FaultModel.rq_buffers; cbn -[FaultModel.MAX_VCs FaultModel.MAX_BUFFERS_per_VC];
      split_and!; first [done|eexists; split; [by left|done]].
Qed.

Lemma network_built_witness : exists s n, @Topology.new pair_machines 2 1 pair_ext pair_int = Ok s /\ wired n /\
  (exists f' st', @init pair_machines pair_ext_link pair_int_link pair_system (@config_fuel pair_machines 2) s
    (FaultModel.mkStatics true 0) pair_faulty = Ok (n <| fault_model := Some f' |>, st') /\ zlength (FaultModel.routers f') = 2) /\
  forall r x, vget (m_routers n) r = Ok x ->
    exists x', Router.init x = Ok x' /\ cycle_ok (params n) 0 (Router.m_id x) (Router.get_num_outports x) x'.
Proof.
  destruct (@network_built pair_machines pair_machines_ok pair_ext_link pair_int_link pair_system (fun _ => 2) 2 1 pair_ext pair_int
    (@config_fuel pair_machines 2) pair_faulty (FaultModel.mkStatics true 0)) as (s & n & Hnew & Hinit & _ & _ & Hfaults & Hw & Hr);
    [apply pair_config|apply le_n|reflexivity|destruct pair_fresh; by split|destruct pair_queues; by split|intros H; discriminate H
    |destruct pair_fits; by split|lia|by vm_compute|].
  pose proof pair_shapes_computed as Hsh. unfold pair_shapes in Hsh. change (Z.of_nat 1) with 1 in Hnew. rewrite Hnew in Hsh. cbn [mbind res_bind] in Hsh. rewrite Hinit in Hsh.
  apply bind_Ok in Hsh as ([n' st'] & Hd & Hsh). apply declare_faults_parts in Hd as [f ->]. injection Hsh as Hsh Hbd Hbc. simpl in Hsh, Hbd, Hbc.
  destruct (m_routers n) as [|x0 [|x1 [|]]] eqn:Em; try discriminate Hsh.
  assert (shape x0 = (0, 2, 2, 2) /\ shape x1 = (1, 2, 2, 2)) as [H0 H1] by (unfold shape in *; injection Hsh; intros; split; congruence).
  assert (faults_known n pair_faults (FaultModel.mkStatics true 0)) as Hk by (by apply (shapes_known n x0 x1)).
  destruct (Hfaults pair_faults eq_refl Hk) as (f' & st1 & Hok & Hl).
  exists s, n. split; [done|]. split; [done|]. split; [exists f', st1; split; [done|]; by rewrite Hl|].
  intros r x Hx. specialize (Hr r x ltac:(congruence)). rewrite Em in Hx. apply vget_Ok in Hx as [_ Hx].
  rewrite decide_True in Hr; [done|]. destruct (Z.to_nat r) as [|[|k]]; simplify_eq/=; unfold shape in *; simplify_eq; lia.
Defined.
