(* ===== verification/NetworkRouting.v ===== *)
(** * NetworkRouting: packets reach their interface

    In a network that [GarnetNetwork.init] built, the routing units of the
    routers, the wires between them and the tables of the topology work
    together: table routing delivers. *)

From stdpp Require Import functions.
From S2P Require Import Prelude CFloat FaultModel NetDest CommonTypes Flit Channels RoutingUnit RoutingTable Topology TopologyProofs TopologyLinks TopologyTheorems.
From S2P Require Import Clock Heap MessageBuffer Network Link NetworkBridge GarnetLink NetworkInterface Units Router.
From S2P Require Import InputWakeup RouterWakeup GarnetNetwork UnitLemmas SwitchTheorems NetworkProofs NetworkBuild NetworkTheorems.
Import GarnetNetwork.

(** A packet with route [ri] that enters a router goes out at the port its
    routing unit computes, over the wire of that port, and so on until it is
    at interface [l]; no computation fails, whatever the time, the input
    port, the counters and the random numbers. *)
Inductive delivered `{MachineTypes} (n : GarnetNetwork.t) (ri : RouteInfo) (l : Z) : nat -> Receiver -> Prop :=
| delivered_here k p : delivered n ri l k (NIIn l p)
| delivered_next k r p x : vget (m_routers n) r = Ok x ->
    (forall curTick inport dirn g, zlength (routerr_ (g_cnt g)) = MAXN ->
       exists o g' w, route_compute (params n) curTick ri inport dirn x g = Ok (o, ri, (x, g')) /\
         zlength (routerr_ (g_cnt g')) = MAXN /\
         w ∈ m_wires n /\ w_from w = RouterOut r o /\ delivered n ri l k (w_to w)) ->
    delivered n ri l (S k) (RouterIn r p).

Section routing.
Context `{Hmt : MachineTypes} `{!MachineTypesOk}.

(** Table routing, whichever router is the destination. *)
Lemma table_route net curTick ri inport dirn x g links : RoutingAlgorithm_of (getRoutingAlgorithm net) = TABLE_ ->
  0 <= Router.m_id x < MAXN -> zlength (routerr_ (g_cnt g)) = MAXN ->
  table_ok net (vnet ri) (net_dest ri) links (mkRState (Router.routingUnit x) (g_cnt g) (g_rng g)) ->
  (exists k w, link_to links (m_weight_table (Router.routingUnit x)) (net_dest ri) k w /\ w <= INFINITE_) ->
  exists o g' w, route_compute net curTick ri inport dirn x g = Ok (o, ri, (x, g')) /\
    zlength (routerr_ (g_cnt g')) = MAXN /\ 0 <= o /\
    link_to links (m_weight_table (Router.routingUnit x)) (net_dest ri) (Z.to_nat o) w.
Proof.
  intros Halg Hid Hcnt Htab Hex. unfold route_compute, outportCompute.
  destruct (safe_inv _ _ (lookup_spec net _ _ _ _ Htab Hex)) as ([o s'] & Hlk & Hru & Hc & Ho & w & Hto & _).
  simpl in Hru, Hc, Hto. assert (Hx : x <| Router.routingUnit := ru s' |> = x) by (rewrite Hru; by destruct x).
  destruct (dest_router ri =? Router.m_id x).
  - unfold keepRoute. rewrite Hlk. cbn [mbind res_bind]. exists o, (mkGlobals (cnt s') (rng s')), w. rewrite Hx. simpl. by rewrite Hc.
  - unfold dispatch. rewrite Halg. unfold keepRoute. rewrite Hlk. cbn [mbind res_bind]. unfold countRoute.
    destruct (safe_inv (valter incr (routerr_ (cnt s')) (Router.m_id x)) (fun c => zlength c = MAXN)) as (c & Hcn & Hlen).
    { apply safe_valter; [rewrite Hc; lia|]. intros y _. unfold zlength in *. rewrite length_insert. by rewrite Hc. }
    rewrite Hcn. cbn [mbind res_bind]. rewrite (proj2 (Z.eqb_neq o (-1))) by lia. cbn [negb assert mbind res_bind].
    eexists o, _, w. simpl. rewrite Hx. by split_and!.
Qed.

Section built.
Context (nr : Z) (nv : nat) (ext : list BasicExtLink) (int : list BasicIntLink) (s : Topology.t) (made : list Topology.MadeLink)
  (w : Matrix) (n0 n : GarnetNetwork.t) (ni_vcs : Z -> Z).
Context (Hc : config_ok nr nv ext int) (Hok : topo_ok nv s) (Hb : built nr nv (all_links ext int) s).
Context (Hw : link_weights nv s w) (Hmk : making nv s w (fun _ _ => True) made).
Context (Hnv : Z.of_nat nv = Network.m_virtual_networks (base n0)).
Context (Hfresh : fresh_network n0) (Hmade : made_network n0 ni_vcs made n).
Context (Halg : m_routing_algorithm n0 = 0) (Hord : Z.of_nat nv <= zlength (Network.m_ordered (base n0))).
Context (Hrouters : nr <= zlength (m_routers n0)).
Context (Hids : forall r x, vget (m_routers n0) r = Ok x -> 0 <= Router.m_id x < MAXN).
Context (ri : RouteInfo) (m i : Z) (Hv : in_range (Z.of_nat nv) (vnet ri)) (Hmi : machine m i).
Context (Hsized : NetDest.sized (net_dest ri)) (Hdest : forall m' i', NetDest.mem (net_dest ri) m' i' <-> m' = m /\ i' = i).

Abbreviation hop := (may_take nv (all_links ext int) s made (vnet ri) m i).
Abbreviation target := (loc n0 (in_switch m i)).

(** The links that leave a router are the ones made for its switch. *)
Lemma leaves_router c r : c ∈ made -> leaves (loc n0) c = AtRouter r ->
  exists j e table, c = made_link s (router_switch r) j e table /\ ((router_switch r, j), e) ∈ all_links ext int /\
    good_table nv s w (router_switch r) j e table.
Proof.
  intros Hin Hl. destruct (proj1 Hmk c Hin) as (a & j & e & He & table & -> & Hg).
  rewrite (bt_find _ _ _ _ Hb), between_elem in He. exists j, e, table.
  assert (a = router_switch r) as ->; [|done]. unfold made_link in Hl. rewrite (bt_nodes _ _ _ _ Hb) in Hl.
  unfold router_switch. destruct (a <? machines); [done|]. destruct (j <? 2 * machines); simpl in Hl; injection Hl as <-; lia.
Qed.

(** The entry of a link in the table of [ri]'s virtual network. *)
Lemma link_entry c r : c ∈ made -> leaves (loc n0) c = AtRouter r ->
  NetDest.sized (table_of c !!! Z.to_nat (vnet ri)) /\ bl_weight (link_of c) <= INFINITE_ /\
  (reaches (net_dest ri) (table_of c !!! Z.to_nat (vnet ri)) ->
   exists j e table, c = made_link s (router_switch r) j e table /\ hop (router_switch r) j).
Proof.
  intros Hin Hl. destruct (leaves_router c r Hin Hl) as (j & e & table & -> & He & Hlen & Hg).
  assert (Ht : table_of (made_link s (router_switch r) j e table) = table) by (unfold made_link; by repeat case_match).
  assert (Hlk : link_of (made_link s (router_switch r) j e table) = le_link e) by (unfold made_link; by repeat case_match).
  rewrite Ht, Hlk. destruct (vget_range table (vnet ri)) as [d Hd]; [unfold in_range, zlength in *; lia|].
  pose proof (Hg _ _ Hd) as Hent. pose proof (cf_weights _ _ _ _ Hc) as Hwt. rewrite list.Forall_forall in Hwt.
  specialize (Hwt _ He). unfold weighed in Hwt. simpl in Hwt. apply vget_Ok in Hd as Hd'. destruct Hd' as [_ Hd'].
  rewrite (list_lookup_total_correct _ _ _ Hd'). split; [|split; [unfold Topology.INFINITE_LATENCY, INFINITE_ in *; lia|]].
  { case_decide; apply Hent. }
  intros (m' & i' & [-> ->]%Hdest & Hmem). exists j, e, table. split; [done|]. exists e, table, d.
  split; [done|]. split; [|done]. destruct (decide (vnet ri ∈ vnets_of nv (le_link e))); [done|].
  exfalso. by apply (proj2 Hent m i).
Qed.

(** A link the packet may take is one of the links of the router. *)
Lemma hop_link r next : 0 <= r -> hop (router_switch r) next ->
  exists k c, outs (loc n0) made (AtRouter r) !! k = Some c /\ reaches (net_dest ri) (table_of c !!! Z.to_nat (vnet ri)).
Proof.
  intros Hr (e & table & d & _ & _ & Hin & Hd & Hmem). set (c := made_link s (router_switch r) next e table) in *.
  assert (leaves (loc n0) c = AtRouter r /\ table_of c = table) as [Hl Ht].
  { unfold c, made_link, router_switch. rewrite (bt_nodes _ _ _ _ Hb). pose proof (cf_machines _ _ _ _ Hc).
    rewrite (proj2 (Z.ltb_ge _ _)) by lia. case_match; simpl; (split; [f_equal; lia|done]). }
  assert (Hc' : c ∈ outs (loc n0) made (AtRouter r)) by (by apply list_elem_of_filter).
  apply list_elem_of_lookup in Hc' as [k Hk]. exists k, c. split; [done|]. rewrite Ht.
  apply vget_Ok in Hd as [_ Hd]. rewrite (list_lookup_total_correct _ _ _ Hd). exists m, i. split; [by apply Hdest|done].
Qed.

(** One step of a packet at a router. *)
Lemma route_step r next x curTick inport dirn g : 0 <= r -> hop (router_switch r) next ->
  vget (m_routers n) r = Ok x -> zlength (routerr_ (g_cnt g)) = MAXN ->
  exists o g' wi j e table, route_compute (params n) curTick ri inport dirn x g = Ok (o, ri, (x, g')) /\
    zlength (routerr_ (g_cnt g')) = MAXN /\ wi ∈ m_wires n /\ w_from wi = RouterOut r o /\
    hop (router_switch r) j /\ receiver_node (w_to wi) = enters (loc n0) (made_link s (router_switch r) j e table).
Proof.
  intros Hr Hhop Hx Hg. pose proof (mn_nodes _ _ _ _ Hmade) as Hn. pose proof (vget_bound _ _ _ Hx) as Hrange.
  rewrite (nd_nrouters _ _ _ _ _ Hn) in Hrange. destruct (vget_range _ _ Hrange) as [x0 Hx0].
  destruct (nd_routers _ _ _ _ _ Hn r x0 x Hx0 Hx) as [_ (Hid & _) _ _ Htab Hwt].
  destruct (nd_frame _ _ _ _ _ Hn) as (Hfb & _ & _ & _ & _ & Hfa & _).
  destruct (hop_link r next Hr Hhop) as (k & c & Hk & Hreach). set (O := outs (loc n0) made (AtRouter r)) in *.
  destruct Htab as [Htab|[HO _]]; [|by rewrite HO in Hk].
  assert (Hmem : forall k' c', O !! k' = Some c' -> c' ∈ made /\ leaves (loc n0) c' = AtRouter r).
  { intros k' c' Hk'. apply list_elem_of_lookup_2 in Hk'. by apply list_elem_of_filter in Hk' as [? ?]. }
  set (links := (fun c => table_of c !!! Z.to_nat (vnet ri)) <$> O).
  assert (Hlink : forall k' w', link_to links (m_weight_table (Router.routingUnit x)) (net_dest ri) k' w' <->
    exists c', O !! k' = Some c' /\ bl_weight (link_of c') = w' /\ reaches (net_dest ri) (table_of c' !!! Z.to_nat (vnet ri))).
  { intros k' w'. unfold link_to, links. rewrite Hwt. split.
    - intros (l & Hl & Hw' & Hrl). rewrite list_lookup_fmap in Hl. rewrite list_lookup_fmap in Hw'. destruct (O !! k') as [c'|]; [|done].
      simplify_eq/=. eauto.
    - intros (c' & Hc' & <- & Hrl). exists (table_of c' !!! Z.to_nat (vnet ri)). rewrite !list_lookup_fmap, Hc'. done. }
  destruct (table_route (params n) curTick ri inport dirn x g links) as (o & g' & w' & Hrc & Hg' & Ho & Hto).
  - simpl. by rewrite Hfa, Halg.
  - rewrite Hid. by eapply Hids.
  - done.
  - split_and!; simpl.
    + rewrite Htab. apply vget_Ok. split; [apply Hv|]. unfold rows. rewrite list_lookup_fmap, lookup_seq_lt; [done|].
      unfold in_range in Hv. lia.
    + apply list.Forall_forall. intros l (c' & -> & [k' Hk']%list_elem_of_lookup)%list_elem_of_fmap.
      destruct (Hmem _ _ Hk') as [Hc1 Hc2]. destruct (link_entry _ _ Hc1 Hc2) as [[Hz _] _].
      destruct Hsized as [Hz' _]. unfold zlength in *. lia.
    + unfold links. rewrite Hwt. by rewrite !length_fmap.
    + apply Hv.
    + rewrite Hfb. unfold in_range in Hv. lia.
  - exists k, (bl_weight (link_of c)). split; [apply Hlink; eauto|]. destruct (Hmem _ _ Hk) as [Hc1 Hc2].
    by destruct (link_entry _ _ Hc1 Hc2) as (_ & ? & _).
  - apply Hlink in Hto as (c' & Hc' & _ & Hrl). destruct (Hmem _ _ Hc') as [Hc1 Hc2].
    destruct (link_entry _ _ Hc1 Hc2) as (_ & _ & Hstep). destruct (Hstep Hrl) as (j & e & table & -> & Hj).
    destruct (outs_wire _ _ _ _ _ Hc') as [q Hq]. rewrite <- (mn_wires _ _ _ _ Hmade) in Hq.
    apply list_elem_of_fmap in Hq as (wi & [= Hty Hfrom Hto'] & Hwi). rewrite Z2Nat.id in Hfrom by done.
    exists o, g', wi, j, e, table. split_and!; try done. rewrite <- Hto'. by destruct (enters _ _).
Qed.

Lemma hop_placed a b : hop a b -> placed machines a b /\ a < nr + 2 * machines /\ b < nr + 2 * machines.
Proof.
  intros (e & _ & _ & He & _). split; [by apply (all_links_placed _ _ _ _ _ Hc He)|]. by apply (links_bound _ _ _ _ _ Hc He).
Qed.

Lemma arrives_delivered k r p : 0 <= r < nr -> arrives hop (out_switch m i) k (router_switch r) ->
  delivered n ri target k (RouterIn r p).
Proof.
  revert r p. induction k as [|k IH]; intros r p Hr Harr; pose proof (cf_machines _ _ _ _ Hc) as Hm;
    pose proof (machine_switch _ _ Hmi) as Hsw; unfold in_switch in Hsw.
  all: assert (Hne : out_switch m i <> router_switch r) by (unfold out_switch, router_switch; lia).
  { inversion Harr. congruence. }
  inversion Harr as [|k' src [next Hnext] Hall]; [congruence|subst].
  destruct (vget_range (m_routers n) r) as [x Hx]; [rewrite (nd_nrouters _ _ _ _ _ (mn_nodes _ _ _ _ Hmade)); lia|].
  apply delivered_next with x; [done|]. intros curTick inport dirn g Hg.
  destruct (route_step r next x curTick inport dirn g) as (o & g' & wi & j & e & table & Hrc & Hg' & Hwi & Hfrom & Hj & Hto); [lia|done..|].
  exists o, g', wi. do 4 (split; [done|]). specialize (Hall j Hj). destruct (hop_placed _ _ Hj) as (Hp & _ & Hlt). unfold placed in Hp.
  unfold made_link in Hto. rewrite (bt_nodes _ _ _ _ Hb) in Hto. unfold router_switch in Hto, Hp.
  rewrite (proj2 (Z.ltb_ge (r + 2 * machines) machines)) in Hto by lia. destruct (Z.ltb_spec j (2 * machines)) as [Hjm|Hjm]; simpl in Hto.
  - assert (j = out_switch m i) as ->.
    { inversion Hall as [|k' src' [nx Hnx] _]; [done|]. exfalso. destruct (hop_placed _ _ Hnx) as (Hp' & _). unfold placed in Hp'. lia. }
    replace (out_switch m i - machines) with (in_switch m i) in Hto by (unfold in_switch, out_switch; lia).
    destruct (w_to wi) as [|l q]; [done|]. simpl in Hto. injection Hto as ->. apply delivered_here.
  - destruct (w_to wi) as [r' q|]; [|done]. simpl in Hto. injection Hto as ->. apply IH; [lia|].
    unfold router_switch. by replace (j - 2 * machines + 2 * machines) with j by lia.
Qed.

End built.

(** C6: the whole network delivers.  In the network that [init] builds from
    a consistent configuration whose link objects fit, with table routing, a packet
    for one machine that enters any router reaches the interface of that
    machine, if configured links of total weight [c], less than the weight that
    stands for no link, lead there: at every router the route computation
    returns an output port with a wire, and after at most [c] routers
    the packet is at the interface. *)
Theorem network_delivers ext_link int_link sys ni_vcs nr nv ext int fuel n0 st :
  config_ok nr nv ext int -> (config_fuel nr <= fuel)%nat ->
  Z.of_nat nv = Network.m_virtual_networks (base n0) -> fresh_network n0 -> queues_ready n0 -> rows_fit n0 ->
  fault_model n0 = None -> links_fit ext_link int_link ni_vcs n0 ext int ->
  m_routing_algorithm n0 = 0 -> Z.of_nat nv <= zlength (Network.m_ordered (base n0)) -> nr <= zlength (m_routers n0) ->
  (forall r x, vget (m_routers n0) r = Ok x -> 0 <= Router.m_id x < MAXN) ->
  exists s n, Topology.new nr (Z.of_nat nv) ext int = Ok s /\ init ext_link int_link sys fuel s st n0 = Ok (n, st) /\
    forall ri m i l r p c, in_range (Z.of_nat nv) (vnet ri) -> machine m i ->
      Network.getLocalNodeID (in_switch m i) (base n0) = Ok l -> NetDest.sized (net_dest ri) ->
      (forall m' i', NetDest.mem (net_dest ri) m' i' <-> m' = m /\ i' = i) -> 0 <= r < nr ->
      route nv (all_links ext int) (vnet ri) (router_switch r) (out_switch m i) c -> c < Topology.INFINITE_LATENCY ->
      delivered n ri l (Z.to_nat c) (RouterIn r p).
Proof.
  intros Hc Hf Hnv Hfresh Hq Hrows Hfm Hfit Halg Hord Hnr Hids.
  destruct (init_made ext_link int_link sys ni_vcs _ _ _ _ _ _ st Hc Hf Hnv Hfresh Hq Hrows Hfit)
    as (s & made & w & D & n1 & n & Hnew & _ & Hb & Hok & Hw & HD & Hmk & Hinit & Hfn & Hb1 & Hr1 & Ha1 & Hf1 & Hall & Hmn).
  exists s, n. split; [done|]. split; [rewrite Hinit; unfold declare_faults; by rewrite Hfn, Hfm|]. intros ri m i l r p c Hv Hmi Hl Hsz Hdest Hr Hroute Hinf.
  replace l with (loc n1 (in_switch m i)) by (unfold loc; by rewrite Hb1, Hl).
  eapply (arrives_delivered nr nv ext int s made w n1 n ni_vcs); try done; try congruence.
  - rewrite Hr1. exact Hids.
  - by eapply created_arrive.
Qed.

End routing.

(** ** The pair of routers again *)

Definition pair_dest : NetDest.t := [RSet.mk 1 0; RSet.mk 1 1].
Definition pair_route : RouteInfo := RouteInfo_new <| vnet := 0 |> <| net_dest := pair_dest |> <| dest_router := 1 |>.

Lemma pair_dest_ok : @NetDest.sized pair_machines pair_dest /\
  forall m i, NetDest.mem pair_dest m i <-> m = 1 /\ i = 0.
Proof.
  split; [split; [done|]|].
  - intros [|[|k]] x Hx; [by injection Hx as <-..|discriminate Hx].
  - intros m i. unfold NetDest.mem, RSet.mem. split.
    + intros (Hm & x & Hx & Hi & Hbit). destruct (Z.to_nat m) as [|[|k]] eqn:E; [..|discriminate Hx]; injection Hx as <-;
        simpl in *; [by rewrite Z.bits_0 in Hbit|]. split; [lia|]. destruct (decide (i = 0)); [done|].
      exfalso. change 1 with (2 ^ 0) in Hbit. rewrite Z.pow2_bits_false in Hbit by lia. done.
    + intros [-> ->]. split; [lia|]. exists (RSet.mk 1 1). split; [done|]. simpl. split; [lia|done].
Qed.

Lemma network_delivers_witness : exists s n, @Topology.new pair_machines 2 1 pair_ext pair_int = Ok s /\
  @init pair_machines pair_ext_link pair_int_link pair_system (@config_fuel pair_machines 2) s
    (FaultModel.mkStatics true 0) pair_network = Ok (n, FaultModel.mkStatics true 0) /\
  @delivered pair_machines n pair_route 1 2 (RouterIn 0 0).
Proof.
  destruct (@network_delivers pair_machines pair_machines_ok pair_ext_link pair_int_link pair_system (fun _ => 2) 2 1 pair_ext pair_int
    (@config_fuel pair_machines 2) pair_network (FaultModel.mkStatics true 0)) as (s & n & Hs & Hn & Hd);
    [apply pair_config|apply le_n|reflexivity|apply pair_fresh|apply pair_queues|intros H; discriminate H|reflexivity
    |apply pair_fits|reflexivity|by vm_compute|by vm_compute| |].
  - intros r x [_ Hx]%vget_Ok. destruct (Z.to_nat r) as [|[|k]]; [..|discriminate Hx]; injection Hx as <-; by vm_compute.
  - exists s, n. split; [exact Hs|]. split; [exact Hn|].
    apply (Hd pair_route 1 0 1 0 0 2); [by vm_compute|by vm_compute|by vm_compute|apply pair_dest_ok|apply pair_dest_ok|lia| |by vm_compute].
    apply (route_cons _ _ _ 4 5 _ (mkLinkEntry (plain_link 2) "East" "West") 1); [vm_compute; do 4 right; by left|by left|].
    apply (route_cons _ _ _ 5 3 _ (mkLinkEntry (plain_link 1) "" "") 0); [vm_compute; do 3 right; by left|by left|].
    apply route_nil.
Defined.
