(* ===== verification/SimpleSwitch.v ===== *)
(** * SimpleSwitch: the switches of the simple network

    network/simple: WeightBased.hh/.cc (routing), PerfectSwitch.hh/.cc (from the
    input buffers of a switch to one buffer per output link and virtual
    network), Throttle.hh/.cc (from these buffers to the link, limited by its
    bandwidth) and Switch.hh/.cc (a switch with its throttles).

    Message buffers are shared between controllers, switches and throttles: they
    are kept in a store, and a pointer is a key of it.  The calls of a buffer
    to its consumer stay in the buffer until the consumer hears them. *)

From stdpp Require Import gmap.
From S2P Require Import Prelude CFloat NetDest CommonTypes Clock Heap MessageBuffer Network.

(** ** The store of buffers *)

Notation Buffers := (gmap Z MessageBuffer.t).

Definition buffer_at (p : Z) (bs : Buffers) : res MessageBuffer.t :=
  match bs !! p with Some b => Ok b | None => Err Undefined end.

(** A call on the buffer behind a pointer. *)
Definition on_buffer {A} (p : Z) (f : MessageBuffer.t -> res (A * MessageBuffer.t)) (bs : Buffers) : res (A * Buffers) :=
  b ← buffer_at p bs; '(a, b) ← f b; Ok (a, <[p := b]> bs).

Definition update_buffer (p : Z) (f : MessageBuffer.t -> res MessageBuffer.t) (bs : Buffers) : res Buffers :=
  b ← buffer_at p bs; b ← f b; Ok (<[p := b]> bs).

(** ** Routing by weight *)

Module WeightBased.

Record LinkInfo := mkLinkInfo {
  m_link_id : Z;
  m_routing_entry : NetDest.t;
  m_out_buffers : list Z;
  m_order : Z;
  m_weight : Z;
}.
#[global] Instance LinkInfo_eta : Etaed LinkInfo := fun l =>
  mkLinkInfo (m_link_id l) (m_routing_entry l) (m_out_buffers l) (m_order l) (m_weight l).

Record t := mk { adaptive_routing : bool; m_links : list LinkInfo }.
#[global] Instance t_eta : Etaed t := fun u => mk (adaptive_routing u) (m_links u).

Record RouteInfo := mkRouteInfo { m_destinations : NetDest.t; ri_link_id : Z }.

(** The tuples of order, weight and link number. *)
Definition link_lt (a b : LinkInfo) : bool :=
  (m_order a <? m_order b) ||
  ((m_order a =? m_order b) && ((m_weight a <? m_weight b) ||
    ((m_weight a =? m_weight b) && (m_link_id a <? m_link_id b)))).

Section unit.
Context `{!StdSort LinkInfo link_lt} `{MachineTypes}.

Definition sortLinks (u : t) : t := u <| m_links ::= std_sort link_lt |>.

Definition addOutPort (link_id : Z) (out_buffers : list Z) (routing_table_entry : NetDest.t) (link_weight : Z) (u : t) : res t :=
  _ ← assert (link_id =? zlength (m_links u));
  Ok (sortLinks (u <| m_links ::= (fun l => l ++ [mkLinkInfo link_id routing_table_entry out_buffers 0 link_weight]) |>)).

(** How clogged a link is, with a random number for links that are equally long. *)
Definition measure (current_time : Z) (link : LinkInfo) (st : list LinkInfo * Buffers * Rng) : res (list LinkInfo * Buffers * Rng) :=
  let '(links, bs, g) := st in
  '(len, bs) ← for_each (m_out_buffers link) (fun p '(len, bs) =>
    '(n, bs) ← on_buffer p (fun b => Ok (MessageBuffer.getSize current_time b)) bs; Ok (i32 (len + n), bs)) (0, bs);
  '(r, g) ← uniform 0 255 g;
  Ok (links ++ [link <| m_order := Z.lor (i32 (Z.shiftl len 8)) r |>], bs, g).

Definition findRoute (dest : NetDest.t) (links : list LinkInfo) : res (list RouteInfo) :=
  '(msg_dsts, out_links) ← for_each links (fun link '(msg_dsts, out_links) =>
    let dst := m_routing_entry link in
    hit ← NetDest.intersectionIsNotEmpty dst msg_dsts;
    if (hit : bool) then
      d ← NetDest.AND dst msg_dsts;
      rest ← NetDest.removeNetDest dst msg_dsts;
      Ok (rest, out_links ++ [mkRouteInfo d (m_link_id link)])
    else Ok (msg_dsts, out_links)) (dest, []);
  _ ← assert (NetDest.count msg_dsts =? 0);
  Ok out_links.

(** Links are measured only for messages that may overtake each other. *)
Definition route (current_time : Z) (msg : Message.t) (deterministic : bool) (u : t) (bs : Buffers) (g : Rng)
    : res (list RouteInfo * t * Buffers * Rng) :=
  '(u, bs, g) ← (if adaptive_routing u then
      if deterministic then Ok (sortLinks (u <| m_links ::= fmap (fun l => l <| m_order := 0 |>) |>), bs, g)
      else '(links, bs, g) ← for_each (m_links u) (measure current_time) ([], bs, g);
           Ok (sortLinks (u <| m_links := links |>), bs, g)
    else Ok (u, bs, g));
  out_links ← findRoute (Message.m_Destination msg) (m_links u);
  Ok (out_links, u, bs, g).

End unit.
End WeightBased.

(** ** From input buffers to output links *)

Definition PRIORITY_SWITCH_LIMIT : Z := 128.

Module PerfectSwitch.

Record OutputPort := mkOutputPort { latency : Z; buffers : list Z }.

Record t := mk {
  m_switch_id : Z;
  m_in : list (list (option Z));
  m_out : list OutputPort;
  m_in_prio : list (list Z);
  m_in_prio_groups : list (list (list Z));
  m_virtual_networks : Z;
  m_wakeups_wo_switch : Z;
  m_pending_message_count : list Z;
  consumer : Consumer.t;
}.
#[global] Instance t_eta : Etaed t := fun s =>
  mk (m_switch_id s) (m_in s) (m_out s) (m_in_prio s) (m_in_prio_groups s) (m_virtual_networks s)
     (m_wakeups_wo_switch s) (m_pending_message_count s) (consumer s).

Definition new (sid virt_nets : Z) : t := mk sid [] [] [] [] virt_nets 0 [] Consumer.new.

Definition init (s : t) : t :=
  s <| m_pending_message_count ::= (fun l => l ++ replicate (Z.to_nat (m_virtual_networks s)) 0) |>.

(** A pointer with the routing priority of its buffer. *)
Definition prio_lt (a b : Z * Z) : bool := a.1 <? b.1.

Definition with_priority (bs : Buffers) (p : Z) : res (Z * Z) :=
  b ← buffer_at p bs; Ok (MessageBuffer.m_routing_priority b, p).

(** The priority that the groups are compared with stays that of the first buffer. *)
Definition group_buffers (cur_prio : Z) (sorted : list (Z * Z)) : list (list Z) :=
  foldl (fun groups '(prio, p) =>
    let groups := if negb (prio =? cur_prio) then groups ++ [[]] else groups in
    take (length groups - 1) groups ++ [List.last groups [] ++ [p]]) [[]] sorted.

Section sort.
Context `{!StdSort (Z * Z) prio_lt}.

Definition updatePriorityGroups (vnet in_buf : Z) (bs : Buffers) (s : t) : res t :=
  let missing := Z.to_nat (vnet + 1 - zlength (m_in_prio s)) in
  let prio := m_in_prio s ++ replicate missing [] in
  let groups := m_in_prio_groups s ++ replicate missing [] in
  ports ← vget prio vnet;
  ports ← for_each (ports ++ [in_buf]) (fun p l => x ← with_priority bs p; Ok (l ++ [x])) [];
  let sorted := std_sort prio_lt ports in
  match sorted with
  | [] => Err Undefined
  | (cur_prio, _) :: _ =>
      prio ← vset prio vnet (snd <$> sorted);
      groups ← vset groups vnet (group_buffers cur_prio sorted);
      Ok (s <| m_in_prio := prio |> <| m_in_prio_groups := groups |>)
  end.

Definition addInPort (ins : list (option Z)) (bs : Buffers) (s : t) : res (t * Buffers) :=
  let port := zlength (m_in s) in
  let s := s <| m_in ::= (fun l => l ++ [ins]) |> in
  for_ (length ins) 0 (fun i '(s, bs) =>
    p ← vget ins i;
    match p with
    | None => Ok (s, bs)
    | Some p =>
        bs ← update_buffer p (fun b => b ← MessageBuffer.setConsumer b;
          Ok (MessageBuffer.setVnet i (MessageBuffer.setIncomingLink port b))) bs;
        s ← updatePriorityGroups i p bs s;
        Ok (s, bs)
    end) (s, bs).

End sort.

Definition addOutPort `{!StdSort WeightBased.LinkInfo WeightBased.link_lt} (out : list Z) (routing_table_entry : NetDest.t)
    (routing_latency link_weight : Z) (s : t) (u : WeightBased.t) : res (t * WeightBased.t) :=
  u ← WeightBased.addOutPort (zlength (m_out s)) out routing_table_entry link_weight u;
  Ok (s <| m_out ::= (fun l => l ++ [mkOutputPort routing_latency out]) |>, u).

Definition inBuffer (in_port vnet : Z) (s : t) : res (option Z) :=
  port ← vget (m_in s) in_port;
  if zlength port <=? vnet then Ok None else vget port vnet.

Definition storeEventInfo (info : Z) (s : t) : res t :=
  l ← valter Z.succ (m_pending_message_count s) info; Ok (s <| m_pending_message_count := l |>).

(** The switch with its routing unit and the buffers. *)
Record State := mkState { st_switch : t; st_unit : WeightBased.t; st_buffers : Buffers; st_rng : Rng }.
#[global] Instance State_eta : Etaed State := fun s => mkState (st_switch s) (st_unit s) (st_buffers s) (st_rng s).

Section wakeup.
Context `{!StdSort WeightBased.LinkInfo WeightBased.link_lt} `{!StdHeap Message.t Message.gt} `{MachineTypes}.
(** The clock of the switch, the tick, the Ruby system and the ordered virtual networks. *)
Context (em : Clocked.t) (curTick : Z) (rs : RubySystem) (isVNetOrdered : Z -> res bool).

Definition current_time : Z := Clocked.clockEdge curTick 0 em.

Definition outgoing (vnet : Z) (r : WeightBased.RouteInfo) (s : t) : res (Z * Z) :=
  port ← vget (m_out s) (WeightBased.ri_link_id r); q ← vget (buffers port) vnet; Ok (latency port, q).

(** Whether all the links that a message goes to have room. *)
Definition enough_slots (vnet : Z) (out_links : list WeightBased.RouteInfo) (s : t) (bs : Buffers) : res (bool * Buffers) :=
  for_each out_links (fun r '(enough, bs) =>
    '(_, q) ← outgoing vnet r s;
    '(ok, bs) ← on_buffer q (fun b => Ok (MessageBuffer.areNSlotsAvailable 1 current_time b)) bs;
    Ok (enough && ok, bs)) (true, bs).

(** The first link gets the message itself, the others a copy of it as it was before. *)
Fixpoint send_all (vnet : Z) (out_links : list WeightBased.RouteInfo) (msg unmodified : Message.t) (s : t) (bs : Buffers) (g : Rng)
    : res (Buffers * Rng) :=
  match out_links with
  | [] => Ok (bs, g)
  | r :: out_links =>
      '(lat, q) ← outgoing vnet r s;
      b ← buffer_at q bs;
      '(b, g) ← MessageBuffer.enqueue rs (msg <| Message.m_Destination := WeightBased.m_destinations r |>) current_time lat b g;
      send_all vnet out_links unmodified unmodified s (<[q := b]> bs) g
  end.

(** One message of a buffer; false when the buffer has to wait. *)
Definition operate_message (p vnet : Z) (s : State) : res (bool * State) :=
  '(ready, bs) ← on_buffer p (MessageBuffer.isReady current_time) (st_buffers s);
  let s := s <| st_buffers := bs |> in
  if negb ready then Ok (false, s)
  else
    b ← buffer_at p bs;
    msg ← MessageBuffer.peekMsgPtr b;
    deterministic ← isVNetOrdered vnet;
    '(out_links, u, bs, g) ← WeightBased.route current_time msg deterministic (st_unit s) bs (st_rng s);
    '(enough, bs) ← enough_slots vnet out_links (st_switch s) bs;
    let s := mkState (st_switch s) u bs g in
    if negb enough then
      c ← Consumer.scheduleEvent em curTick 1 (consumer (st_switch s));
      Ok (false, s <| st_switch := (st_switch s) <| consumer := c |> |>)
    else
      '(taken, bs) ← on_buffer p (MessageBuffer.dequeue curTick current_time true) bs;
      pending ← valter Z.pred (m_pending_message_count (st_switch s)) vnet;
      let sw := (st_switch s) <| m_pending_message_count := pending |> in
      '(bs, g) ← send_all vnet out_links taken msg sw bs g;
      Ok (true, mkState sw u bs g).

Fixpoint operate_messages (fuel : nat) (p vnet : Z) (s : State) : res State :=
  match fuel with
  | O => Err OutOfFuel
  | S fuel =>
      '(more, s) ← operate_message p vnet s;
      if (more : bool) then operate_messages fuel p vnet s else Ok s
  end.

(** Every round but the last takes a message. *)
Definition operateMessageBuffer (p vnet : Z) (s : State) : res State :=
  b ← buffer_at p (st_buffers s);
  operate_messages (S (length (MessageBuffer.m_prio_heap b))) p vnet s.

(** The buffer with the oldest message. *)
Definition start_port (ins : list Z) (bs : Buffers) : res Z :=
  '(start, _) ← for_ (length ins) 0 (fun i '(start, lowest_tick) =>
    p ← vget ins i;
    b ← buffer_at p bs;
    let ready_time := MessageBuffer.readyTime b in
    Ok (if ready_time <? lowest_tick then (i, ready_time) else (start, lowest_tick))) (0, 2 ^ 64 - 1);
  Ok start.

Definition operateVnet (vnet : Z) (s : State) : res State :=
  pending ← vget (m_pending_message_count (st_switch s)) vnet;
  if pending =? 0 then Ok s
  else
    groups ← vget (m_in_prio_groups (st_switch s)) vnet;
    for_each groups (fun ins s =>
      start ← start_port ins (st_buffers s);
      for_ (length ins) 0 (fun i s =>
        p ← vget ins (Z.rem (i + start) (zlength ins));
        operateMessageBuffer p vnet s) s) s.

(** The highest virtual network first, except once in a while. *)
Definition wakeup (s : State) : res State :=
  let n := m_wakeups_wo_switch (st_switch s) + 1 in
  let invert := PRIORITY_SWITCH_LIMIT <? n in
  let s := s <| st_switch := (st_switch s) <| m_wakeups_wo_switch := if invert then 0 else n |> |> in
  let vnets := seqZ 0 (m_virtual_networks (st_switch s)) in
  for_each (if invert then vnets else rev vnets) operateVnet s.

(** The calls that the input buffers made since the last time. *)
Definition hear_call (c : BufferCall) (s : t) : res t :=
  match c with
  | scheduleEventAbsolute_ tick => c ← Consumer.scheduleEventAbsolute em curTick tick (consumer s); Ok (s <| consumer := c |>)
  | scheduleEvent_ cycles => c ← Consumer.scheduleEvent em curTick cycles (consumer s); Ok (s <| consumer := c |>)
  | storeEventInfo_ vnet => storeEventInfo vnet s
  | dequeue_callback_ => Ok s
  end.

End wakeup.
End PerfectSwitch.

(** ** From output links to the next buffer, at limited bandwidth *)

#[global] Instance MessageSizeType_eq_dec : EqDecision MessageSizeType.
Proof. solve_decision. Defined.

Module Throttle.

Definition MESSAGE_SIZE_MULTIPLIER : Z := 1000.

Record ThrottleStats := mkThrottleStats {
  acc_link_utilization : spec_float;
  msg_counts : MessageSizeType -> list Z;
  total_msg_count : Z;
  total_msg_bytes : Z;
  total_data_msg_bytes : Z;
  total_msg_wait_time : Z;
  total_stall_cy : Z;
  total_bw_sat_cy : Z;
}.
#[global] Instance ThrottleStats_eta : Etaed ThrottleStats := fun s =>
  mkThrottleStats (acc_link_utilization s) (msg_counts s) (total_msg_count s) (total_msg_bytes s) (total_data_msg_bytes s)
    (total_msg_wait_time s) (total_stall_cy s) (total_bw_sat_cy s).

Record t := mk {
  m_in : list (option Z);
  m_out : list (option Z);
  m_vnets : Z;
  m_units_remaining : list (list Z);
  m_switch_id : Z;
  m_node : Z;
  m_physical_vnets : bool;
  m_link_bandwidth_multiplier : list Z;
  m_vnet_channels : list Z;
  m_link_latency : Z;
  m_wakeups_wo_switch : Z;
  m_endpoint_bandwidth : Z;
  throttleStats : ThrottleStats;
  consumer : Consumer.t;
}.
#[global] Instance t_eta : Etaed t := fun h =>
  mk (m_in h) (m_out h) (m_vnets h) (m_units_remaining h) (m_switch_id h) (m_node h) (m_physical_vnets h)
     (m_link_bandwidth_multiplier h) (m_vnet_channels h) (m_link_latency h) (m_wakeups_wo_switch h) (m_endpoint_bandwidth h)
     (throttleStats h) (consumer h).

Definition ThrottleStats_new (vnets : Z) : ThrottleStats :=
  mkThrottleStats (F64.of_Z 0) (fun _ => replicate (Z.to_nat vnets) 0) 0 0 0 0 0 0.

(** One channel that all virtual networks share. *)
Definition new_shared (vnets sID node link_latency link_bandwidth_multiplier endpoint_bandwidth : Z) : res t :=
  _ ← assert (0 <? link_bandwidth_multiplier);
  Ok (mk [] [] 0 [] sID node false [link_bandwidth_multiplier] [] link_latency 0 endpoint_bandwidth
        (ThrottleStats_new vnets) Consumer.new).

(** Channels of its own for every virtual network. *)
Definition new_physical (vnets sID node link_latency : Z) (vnet_channels vnet_bandwidth_multiplier : list Z)
    (endpoint_bandwidth : Z) : res t :=
  _ ← assert (forallb (Z.ltb 0) vnet_bandwidth_multiplier);
  _ ← assert (forallb (Z.ltb 0) vnet_channels);
  _ ← assert (zlength vnet_bandwidth_multiplier =? zlength vnet_channels);
  Ok (mk [] [] 0 [] sID node true vnet_bandwidth_multiplier vnet_channels link_latency 0 endpoint_bandwidth
        (ThrottleStats_new vnets) Consumer.new).

Definition getChannelCnt (vnet : Z) (h : t) : res Z := if m_physical_vnets h then vget (m_vnet_channels h) vnet else Ok 1.

Definition getLinkBandwidth (vnet : Z) (h : t) : res Z :=
  bw ← vget (m_link_bandwidth_multiplier h) (if m_physical_vnets h then vnet else 0);
  _ ← assert (0 <? bw);
  imul (m_endpoint_bandwidth h) bw.

Definition getTotalLinkBandwidth (h : t) : res Z :=
  bw0 ← getLinkBandwidth 0 h;
  c0 ← getChannelCnt 0 h;
  sum ← imul bw0 c0;
  if m_physical_vnets h then
    for_ (Z.to_nat (m_vnets h - 1)) 1 (fun i sum =>
      bw ← getLinkBandwidth i h; c ← getChannelCnt i h; x ← imul bw c; iadd sum x) sum
  else Ok sum.

Definition addLinks (in_vec : list Z) (out_vec : list (option Z)) (h : t) (bs : Buffers) : res (t * Buffers) :=
  _ ← assert (zlength in_vec =? zlength out_vec);
  '(h, bs) ← for_ (length in_vec) 0 (fun vnet '(h, bs) =>
    in_ptr ← vget in_vec vnet;
    out_ptr ← vget out_vec vnet;
    channels ← getChannelCnt vnet h;
    let h := h <| m_units_remaining ::= (fun l => l ++ [replicate (Z.to_nat channels) 0]) |>
               <| m_in ::= (fun l => l ++ [Some in_ptr]) |> <| m_out ::= (fun l => l ++ [out_ptr]) |> in
    bs ← update_buffer in_ptr MessageBuffer.setConsumer bs;
    Ok (h, bs)) (h, bs);
  let h := h <| m_vnets := zlength in_vec |> in
  _ ← assert (if m_physical_vnets h then zlength (m_link_bandwidth_multiplier h) =? m_vnets h
              else zlength (m_link_bandwidth_multiplier h) =? 1);
  Ok (h, bs).

Section wakeup.
Context `{!StdHeap Message.t Message.gt}.
(** The clock of the switch, the tick, the Ruby system and the sizes of messages. *)
Context (em : Clocked.t) (curTick : Z) (rs : RubySystem) (MessageSizeType_to_int : MessageSizeType -> res Z).

Definition current_time : Z := Clocked.clockEdge curTick 0 em.

(** [BROADCAST_SCALING] is 1. *)
Definition network_message_to_size (msg : Message.t) : res Z :=
  size ← MessageSizeType_to_int (Message.m_MessageSize msg); imul size MESSAGE_SIZE_MULTIPLIER.

Definition count_message (vnet msg_enqueue_time : Z) (msg : Message.t) (s : ThrottleStats) : res ThrottleStats :=
  let ty := Message.m_MessageSize msg in
  counts ← valter Z.succ (msg_counts s ty) vnet;
  size ← MessageSizeType_to_int ty;
  control ← MessageSizeType_to_int MessageSizeType_Control;
  Ok (s <| msg_counts ::= (fun f ty' => if bool_decide (ty' = ty) then counts else f ty') |>
        <| total_msg_count ::= Z.succ |> <| total_msg_bytes ::= (fun x => x + u32 size) |>
        <| total_data_msg_bytes ::= (fun x => x + u32 (size - control)) |>
        <| total_msg_wait_time ::= (fun x => x + u64 (current_time - msg_enqueue_time)) |>).

(** A message moves to the output buffer at once, and is paid for from then on. *)
Definition move_message (vnet pin pout : Z) (h : t) (bs : Buffers) (g : Rng) : res (Z * t * Buffers * Rng) :=
  b ← buffer_at pin bs;
  msg ← MessageBuffer.peekMsgPtr b;
  let msg_enqueue_time := Message.m_LastEnqueueTime msg in
  units ← network_message_to_size msg;
  '(taken, bs) ← on_buffer pin (MessageBuffer.dequeue curTick current_time true) bs;
  b ← buffer_at pout bs;
  '(b, g) ← MessageBuffer.enqueue rs taken current_time (Clocked.clockPeriod em * m_link_latency h) b g;
  stats ← count_message vnet msg_enqueue_time taken (throttleStats h);
  Ok (units, h <| throttleStats := stats |>, <[pout := b]> bs, g).

(** [hasPendingWork]. *)
Definition has_pending_work (units pin : Z) (bs : Buffers) : res (bool * Buffers) :=
  '(ready, bs) ← on_buffer pin (MessageBuffer.isReady current_time) bs;
  Ok (ready || (0 <? units), bs).

(** The loop over the messages of a channel: what is left of the message on its
    way, of the bandwidth of the channel, and of that of the link. *)
Fixpoint transfer (fuel : nat) (vnet pin pout units bw total : Z) (h : t) (bs : Buffers) (g : Rng)
    : res (Z * Z * Z * t * Buffers * Rng) :=
  match fuel with
  | O => Err OutOfFuel
  | S fuel =>
      if negb (0 <? bw) then Ok (units, bw, total, h, bs, g)
      else
        '(pending, bs) ← has_pending_work units pin bs;
        if negb pending then Ok (units, bw, total, h, bs, g)
        else
          '(slot, bs) ← on_buffer pout (fun b => Ok (MessageBuffer.areNSlotsAvailable 1 current_time b)) bs;
          if negb slot then Ok (units, bw, total, h, bs, g)
          else
            '(units, h, bs, g) ← (if units =? 0 then
                '(ready, bs) ← on_buffer pin (MessageBuffer.isReady current_time) bs;
                if (ready : bool) then move_message vnet pin pout h bs g else Ok (units, h, bs, g)
              else Ok (units, h, bs, g));
            let spent := Z.min units bw in
            transfer fuel vnet pin pout (units - spent) (bw - spent) (total - spent) h bs g
  end.

(** The state of a wakeup: the throttle, the buffers, the bandwidth left and
    whether bandwidth or room ran out. *)
Record State := mkState {
  st_throttle : t;
  st_buffers : Buffers;
  st_rng : Rng;
  total_bw_remaining : Z;
  bw_saturated : bool;
  output_blocked : bool;
}.

(** Every round but the first and the last takes a message. *)
Definition operateVnet (vnet channel : Z) (s : State) : res State :=
  pin ← vget (m_in (st_throttle s)) vnet;
  pout ← vget (m_out (st_throttle s)) vnet;
  match pin, pout with
  | Some pin, Some pout =>
      row ← vget (m_units_remaining (st_throttle s)) vnet;
      units ← vget row channel;
      _ ← assert (0 <=? units);
      bw ← (if m_physical_vnets (st_throttle s) then getLinkBandwidth vnet (st_throttle s) else Ok (total_bw_remaining s));
      b ← buffer_at pin (st_buffers s);
      '(units, bw, total, h, bs, g) ←
        transfer (S (S (length (MessageBuffer.m_prio_heap b)))) vnet pin pout units bw (total_bw_remaining s)
          (st_throttle s) (st_buffers s) (st_rng s);
      row ← vset row channel units;
      rows ← vset (m_units_remaining h) vnet row;
      let h := h <| m_units_remaining := rows |> in
      _ ← assert (0 <=? units);
      _ ← assert (0 <=? bw);
      _ ← assert (0 <=? total);
      '(pending, bs) ← has_pending_work units pin bs;
      if (pending : bool) then
        '(slot, bs) ← (if bw =? 0 then Ok (true, bs)
                       else on_buffer pout (fun b => Ok (MessageBuffer.areNSlotsAvailable 1 current_time b)) bs);
        _ ← assert ((bw =? 0) || negb slot);
        '(slot, bs) ← (if output_blocked s then Ok (true, bs)
                       else on_buffer pout (fun b => Ok (MessageBuffer.areNSlotsAvailable 1 current_time b)) bs);
        Ok (mkState h bs g total (bw_saturated s || (bw =? 0)) (output_blocked s || negb slot))
      else Ok (mkState h bs g total (bw_saturated s) (output_blocked s))
  | _, _ => Ok s
  end.

Definition operate_channels (vnet : Z) (s : State) : res State :=
  n ← getChannelCnt vnet (st_throttle s);
  for_ (Z.to_nat n) 0 (operateVnet vnet) s.

Definition wakeup (h : t) (bs : Buffers) (g : Rng) : res (t * Buffers * Rng) :=
  total ← getTotalLinkBandwidth h;
  _ ← assert (0 <? total);
  let n := m_wakeups_wo_switch h + 1 in
  let iteration_direction := PRIORITY_SWITCH_LIMIT <? n in
  let h := h <| m_wakeups_wo_switch := if iteration_direction then 0 else n |> in
  let vnets := seqZ 0 (m_vnets h) in
  s ← for_each (if iteration_direction then vnets else rev vnets) operate_channels (mkState h bs g total false false);
  let ratio := F64.sub (F64.of_Z 1) (F64.div (F64.of_Z (total_bw_remaining s)) (F64.of_Z total)) in
  let h := (st_throttle s) <| throttleStats ::= (fun x => x <| acc_link_utilization ::= (fun a => F64.add a ratio) |>
             <| total_bw_sat_cy ::= (fun c => if bw_saturated s then c + 1 else c) |>
             <| total_stall_cy ::= (fun c => if output_blocked s then c + 1 else c) |>) |> in
  c ← (if bw_saturated s || output_blocked s then Consumer.scheduleEvent em curTick 1 (consumer h) else Ok (consumer h));
  Ok (h <| consumer := c |>, st_buffers s, st_rng s).

End wakeup.
End Throttle.

(** ** Switches *)

(** What a switch reads of the parameters of its network. *)
Record SimpleParams := mkSimpleParams {
  physical_vnets_channels : list Z;
  physical_vnets_bandwidth : list Z;
  sp_endpoint_bandwidth : Z;
  sp_virtual_networks : Z;
}.

Module Switch.

Record t := mk {
  m_id : Z;
  perfectSwitch : PerfectSwitch.t;
  throttles : list Throttle.t;
  m_int_routing_latency : Z;
  m_ext_routing_latency : Z;
  m_routing_unit : WeightBased.t;
  m_num_connected_buffers : Z;
  m_port_buffers : list Z;
  em : Clocked.t;
}.
#[global] Instance t_eta : Etaed t := fun s =>
  mk (m_id s) (perfectSwitch s) (throttles s) (m_int_routing_latency s) (m_ext_routing_latency s) (m_routing_unit s)
     (m_num_connected_buffers s) (m_port_buffers s) (em s).

Definition new (id virt_nets int_routing_latency ext_routing_latency clk_period : Z) (adaptive_routing : bool)
    (port_buffers : list Z) : t :=
  mk id (PerfectSwitch.new id virt_nets) [] int_routing_latency ext_routing_latency (WeightBased.mk adaptive_routing []) 0
     port_buffers (Clocked.new clk_period).

Definition init (s : t) : t := s <| perfectSwitch ::= PerfectSwitch.init |>.

Definition addInPort `{!StdSort (Z * Z) PerfectSwitch.prio_lt} (ins : list (option Z)) (s : t) (bs : Buffers) : res (t * Buffers) :=
  '(p, bs) ← PerfectSwitch.addInPort ins bs (perfectSwitch s); Ok (s <| perfectSwitch := p |>, bs).

(** The next port buffers, one per virtual network. *)
Definition connect_buffers (n : nat) (s : t) : res (list Z * t) :=
  for_ n 0 (fun _ '(l, s) =>
    _ ← assert (m_num_connected_buffers s <? zlength (m_port_buffers s));
    p ← vget (m_port_buffers s) (m_num_connected_buffers s);
    Ok (l ++ [p], s <| m_num_connected_buffers ::= Z.succ |>)) ([], s).

Definition addOutPort `{!StdSort WeightBased.LinkInfo WeightBased.link_lt} (net : SimpleParams) (out : list (option Z))
    (routing_table_entry : NetDest.t) (link_latency link_weight bw_multiplier : Z) (is_external : bool) (s : t) (bs : Buffers)
    : res (t * Buffers) :=
  let node := zlength (throttles s) in
  throttle ← (if (0 <? zlength (physical_vnets_channels net)) && negb (zlength out =? 0) then
      Throttle.new_physical (sp_virtual_networks net) (m_id s) node link_latency (physical_vnets_channels net)
        (resize (length out) bw_multiplier (physical_vnets_bandwidth net)) (sp_endpoint_bandwidth net)
    else
      Throttle.new_shared (sp_virtual_networks net) (m_id s) node link_latency bw_multiplier (sp_endpoint_bandwidth net));
  '(intermediateBuffers, s) ← connect_buffers (length out) s;
  let latency := if is_external then m_ext_routing_latency s else m_int_routing_latency s in
  '(p, u) ← PerfectSwitch.addOutPort intermediateBuffers routing_table_entry (Clocked.clockPeriod (em s) * latency) link_weight
              (perfectSwitch s) (m_routing_unit s);
  '(throttle, bs) ← Throttle.addLinks intermediateBuffers out throttle bs;
  Ok (s <| perfectSwitch := p |> <| m_routing_unit := u |> <| throttles ::= (fun l => l ++ [throttle]) |>, bs).

(** The formulas that add up the messages of the throttles, per virtual network. *)
Definition getMsgCount (ty : MessageSizeType) (s : t) : list Z :=
  match throttles s with
  | [] => []
  | h :: l => foldl (fun counts h => zip_with Z.add counts (Throttle.msg_counts (Throttle.throttleStats h) ty))
                (Throttle.msg_counts (Throttle.throttleStats h) ty) l
  end.
Definition msg_bytes (MessageSizeType_to_int : MessageSizeType -> res Z) (ty : MessageSizeType) (s : t) : res (list Z) :=
  size ← MessageSizeType_to_int ty; Ok ((fun n => n * size) <$> getMsgCount ty s).

(** Functional accesses to the port buffers. *)
Definition functionalRead (access : Message.t -> bool) (s : t) (bs : Buffers) : res bool :=
  for_break (length (m_port_buffers s)) 0 (fun i (_ : bool) =>
    p ← vget (m_port_buffers s) i; b ← buffer_at p bs;
    let hit := MessageBuffer.functionalRead access b in Ok (hit, hit)) false.
Definition functionalReadMask (access : Message.t -> bool) (s : t) (bs : Buffers) : res bool :=
  for_each (m_port_buffers s) (fun p read =>
    b ← buffer_at p bs; Ok (if MessageBuffer.functionalReadMask access b then true else read)) false.
Definition functionalWrite (access : Message.t -> bool) (s : t) (bs : Buffers) : res Z :=
  for_each (m_port_buffers s) (fun p n => b ← buffer_at p bs; Ok (u32 (n + MessageBuffer.functionalWrite access b))) 0.

End Switch.
