(* ===== verification/SimpleNetwork.v ===== *)
(** * SimpleNetwork: a network of simple switches

    network/simple/SimpleNetwork.hh/.cc and SimpleLink.hh/.cc.  The calls of the
    topology connect the switches to each other and to the buffers of the
    controllers.  The link objects that a [BasicLink*] can point to are
    parameters. *)

From stdpp Require Import gmap strings.
From S2P Require Import Prelude CFloat NetDest CommonTypes RoutingUnit Topology Clock Heap MessageBuffer Network SimpleSwitch.

(** What the two classes of links add to a [BasicLink]. *)
Record SimpleExtLink := mkSimpleExtLink { xl_bw_multiplier : Z }.
Record SimpleIntLink := mkSimpleIntLink { sl_bw_multiplier : Z; sl_buffers : list Z }.

Definition SimpleExtLink_new (p : BasicLink) : SimpleExtLink := mkSimpleExtLink (bl_bandwidth_factor p).
Definition SimpleIntLink_new (p : BasicLink) (buffers : list Z) : SimpleIntLink := mkSimpleIntLink (bl_bandwidth_factor p) buffers.

Module SimpleNetwork.

(** The buffers between the controllers and the network are pointers. *)
Record t := mk {
  base : Network.t;
  m_toNetQueues : list (list (option Z));
  m_fromNetQueues : list (list (option Z));
  m_switches : gmap Z Switch.t;
  m_int_link_buffers : list Z;
  m_buffer_size : Z;
  params : SimpleParams;
  m_buffers : Buffers;
}.
#[global] Instance t_eta : Etaed t := fun n =>
  mk (base n) (m_toNetQueues n) (m_fromNetQueues n) (m_switches n) (m_int_link_buffers n) (m_buffer_size n) (params n) (m_buffers n).

Definition new (b : Network.t) (toNet fromNet : list (list (option Z))) (routers : list Switch.t) (buffer_size : Z)
    (p : SimpleParams) (bs : Buffers) : res t :=
  let physical_vnets := 0 <? zlength (physical_vnets_channels p) in
  let vnets := sp_virtual_networks p in
  if physical_vnets && negb (zlength (physical_vnets_channels p) =? vnets) then Err FatalCalled
  else if negb physical_vnets && negb (zlength (physical_vnets_bandwidth p) =? 0) then Err FatalCalled
  else if negb (zlength (physical_vnets_bandwidth p) =? vnets) && negb (zlength (physical_vnets_bandwidth p) =? 0) then Err FatalCalled
  else Ok (mk b toNet fromNet (foldl (fun m s => <[Switch.m_id s := s]> m) ∅ routers) [] buffer_size p bs).

(** [m_switches[i]->f(...)]; a missing switch is a null pointer. *)
Definition on_switch (f : Switch.t -> Buffers -> res (Switch.t * Buffers)) (i : Z) (n : t) : res t :=
  match m_switches n !! i with
  | None => Err Undefined
  | Some s => '(s, bs) ← f s (m_buffers n); Ok (n <| m_switches ::= <[i := s]> |> <| m_buffers := bs |>)
  end.

Section links.
Context `{!StdSort (Z * Z) PerfectSwitch.prio_lt} `{!StdSort WeightBased.LinkInfo WeightBased.link_lt} `{MachineTypes}.
Context (ext_link : Z -> option SimpleExtLink) (int_link : Z -> option SimpleIntLink).

Definition cast {A} (p : option A) : res A := match p with Some x => Ok x | None => Err AssertFail end.

Definition makeExtOutLink (src global_dest : Z) (link : BasicLink) (routing_table_entry : list NetDest.t) (n : t) : res t :=
  local_dest ← Network.getLocalNodeID global_dest (base n);
  _ ← assert (local_dest <? Network.m_nodes (base n));
  _ ← assert (bool_decide (is_Some (m_switches n !! src)));
  simple_link ← cast (ext_link (bl_ptr link));
  let num_vnets := sp_virtual_networks (params n) in
  queues ← vget (m_fromNetQueues n) local_dest;
  _ ← assert (zlength queues <=? num_vnets);
  let queues := resize (Z.to_nat num_vnets) None queues in
  from ← vset (m_fromNetQueues n) local_dest queues;
  let n := n <| m_fromNetQueues := from |> in
  entry ← vget routing_table_entry 0;
  on_switch (Switch.addOutPort (params n) queues entry (bl_latency link) 0 (xl_bw_multiplier simple_link) true) src n.

Definition makeExtInLink (global_src dest : Z) (link : BasicLink) (routing_table_entry : list NetDest.t) (n : t) : res t :=
  local_src ← Network.getLocalNodeID global_src (base n);
  _ ← assert (local_src <? Network.m_nodes (base n));
  queues ← vget (m_toNetQueues n) local_src;
  on_switch (Switch.addInPort queues) dest n.

Definition makeInternalLink (src dest : Z) (link : BasicLink) (routing_table_entry : list NetDest.t)
    (src_outport dst_inport : PortDirection) (n : t) : res t :=
  simple_link ← cast (int_link (bl_ptr link));
  let bufs := Some <$> sl_buffers simple_link in
  n ← on_switch (Switch.addInPort bufs) dest n;
  entry ← vget routing_table_entry 0;
  n ← on_switch (Switch.addOutPort (params n) bufs entry (bl_latency link) (bl_weight link)
                   (sl_bw_multiplier simple_link) false) src n;
  Ok (n <| m_int_link_buffers ::= (fun l => l ++ sl_buffers simple_link) |>).

Definition make_link (l : Topology.MadeLink) (n : t) : res t :=
  match l with
  | Topology.MakeExtInLink src dest link table => makeExtInLink src dest link table n
  | Topology.MakeExtOutLink src dest link table => makeExtOutLink src dest link table n
  | Topology.MakeInternalLink src dest link table o d => makeInternalLink src dest link table o d n
  end.

Definition init (fuel : nat) (m_topology : Topology.t) (n : t) : res t :=
  made ← Topology.createLinks fuel m_topology; for_each made make_link n.

End links.

Definition isVNetOrdered (vnet : Z) (n : t) : res bool := vget (Network.m_ordered (base n)) vnet.

(** ** Statistics and functional accesses *)

Definition link_buffers (n : t) : res (list MessageBuffer.t) :=
  for_each (m_int_link_buffers n) (fun p l => b ← buffer_at p (m_buffers n); Ok (l ++ [b])) [].

(** The order of the switches is that of a hash map, and does not matter. *)
Definition switches (n : t) : list Switch.t := snd <$> map_to_list (m_switches n).

Definition msg_counts (ty : MessageSizeType) (n : t) : Z :=
  foldr (fun s count => foldr Z.add 0 (Switch.getMsgCount ty s) + count) 0 (switches n).
Definition msg_bytes (MessageSizeType_to_int : MessageSizeType -> res Z) (ty : MessageSizeType) (n : t) : res Z :=
  size ← MessageSizeType_to_int ty; Ok (msg_counts ty n * size).

Definition functionalRead (access : Message.t -> bool) (n : t) : res bool :=
  hit ← for_break (length (switches n)) 0 (fun i (_ : bool) =>
    s ← vget (switches n) i; hit ← Switch.functionalRead access s (m_buffers n); Ok (hit, hit)) false;
  if (hit : bool) then Ok true else bs ← link_buffers n; Ok (existsb (MessageBuffer.functionalRead access) bs).

Definition functionalReadMask (access : Message.t -> bool) (n : t) : res bool :=
  read ← for_each (switches n) (fun s read =>
    hit ← Switch.functionalReadMask access s (m_buffers n); Ok (if (hit : bool) then true else read)) false;
  bs ← link_buffers n;
  Ok (foldl (fun read b => if MessageBuffer.functionalReadMask access b then true else read) read bs).

Definition functionalWrite (access : Message.t -> bool) (n : t) : res Z :=
  k ← for_each (switches n) (fun s k => w ← Switch.functionalWrite access s (m_buffers n); Ok (u32 (k + w))) 0;
  bs ← link_buffers n;
  Ok (foldl (fun k b => u32 (k + MessageBuffer.functionalWrite access b)) k bs).

End SimpleNetwork.
