(* ===== verification/SimpleRouting.v ===== *)
(** * SimpleRouting: a routing unit divides the destinations of a message

    The route of a message whose destinations the links cover is a partition of
    these destinations over different links, each of which serves the ones it
    gets. *)

From Stdlib Require Import Sorted.
From stdpp Require Import gmap.
From S2P Require Import Prelude NetDest Heap MessageBuffer DestProofs SimpleSwitch.
Import WeightBased.

(** ** Sorting links and buffers *)

#[global] Instance link_sort_ok : StdSortOk LinkInfo link_lt.
Proof. apply insertion_sort_ok; unfold link_lt; intros; lia. Qed.

#[global] Instance prio_sort_ok : StdSortOk (Z * Z) PerfectSwitch.prio_lt.
Proof. apply insertion_sort_ok; unfold PerfectSwitch.prio_lt; intros; lia. Qed.

(** ** Destinations *)

Section routing.
Context `{MachineTypes, !MachineTypesOk}.

Lemma AND_spec d d2 : NetDest.sized d -> NetDest.sized d2 ->
  safe (NetDest.AND d2 d) (fun r => NetDest.sized r /\ forall m i, NetDest.mem r m i <-> NetDest.mem d m i /\ NetDest.mem d2 m i).
Proof.
  intros [Hl Hs] [Hl2 Hs2]. unfold NetDest.AND, NetDest.getSize. rewrite bool_decide_eq_true_2 by lia.
  cbn [mbind res_bind assert]. apply safe_bind. eapply safe_mono; [exact NetDest.new_spec|]. intros r0 [Hr0 _].
  eapply safe_mono; [apply (safe_for (fun j r => NetDest.sized r /\ forall m s, r !! m = Some s -> Z.of_nat m < j ->
    forall s1 s2, d !! m = Some s1 -> d2 !! m = Some s2 -> RSet.bits s = Z.land (RSet.bits s1) (RSet.bits s2)))|].
  - split; [done|]. intros; lia.
  - intros j r Hj ([Hlr Hsr] & Hr). unfold zlength in *.
    apply safe_bind, safe_vget; [unfold zlength; lia|]. intros s1 E1.
    apply safe_bind, safe_vget; [unfold zlength; lia|]. intros s2 E2. unfold RSet.AND.
    rewrite bool_decide_eq_true_2 by (by rewrite (Hs _ _ E1), (Hs2 _ _ E2)). cbn [mbind res_bind assert].
    apply safe_vset; [unfold zlength; lia|]. split.
    + split; [by rewrite zlength_insert|]. intros m s [(<- & <- & _)|[_ Hm]]%list_lookup_insert_Some; [exact (Hs _ _ E1)|by apply Hsr].
    + intros m s [(<- & <- & _)|[Hne Hm]]%list_lookup_insert_Some Hlt s3 s4 E3 E4; [cbn; congruence|].
      apply (Hr _ _ Hm); [lia|done..].
  - intros r (Hsr & Hr). split; [done|]. destruct Hsr as [Hlr _]. unfold zlength in *. intros m i. unfold NetDest.mem, RSet.mem.
    destruct (decide (0 <= m < Z.of_nat (length d))) as [Hm|Hm].
    + destruct (lookup_lt_is_Some_2 d (Z.to_nat m)) as [s1 E1]; [lia|].
      destruct (lookup_lt_is_Some_2 d2 (Z.to_nat m)) as [s2 E2]; [lia|].
      destruct (lookup_lt_is_Some_2 r (Z.to_nat m)) as [s E]; [lia|].
      pose proof (Hr _ _ E ltac:(lia) _ _ E1 E2) as Hb. rewrite E, E1, E2.
      split; [intros (_ & s' & [= <-] & Hi & Ht); rewrite Hb, Z.land_spec in Ht; apply andb_prop in Ht; naive_solver|].
      intros [(_ & s3 & [= <-] & Hi & K1) (_ & s4 & [= <-] & _ & K2)].
      split; [lia|]. exists s. by rewrite Hb, Z.land_spec, K1, K2.
    + split; [intros (? & s & E%lookup_lt_Some & _); lia|intros [(? & s & E%lookup_lt_Some & _) _]; lia].
Qed.

Lemma count_zero d : (forall m i, ~ NetDest.mem d m i) -> NetDest.count d = 0.
Proof.
  intros Hd. assert (Hs : forall s, s ∈ d -> RSet.count s = 0).
  { intros s (k & Hk)%list_elem_of_lookup. unfold RSet.count. rewrite (elem_of_nil_inv (filter _ _)); [done|].
    intros i [Hb _]%list_elem_of_filter. apply (Hd (Z.of_nat k) (Z.of_nat i)). split; [lia|]. exists s. rewrite Nat2Z.id.
    split; [done|]. split; [lia|done]. }
  clear Hd. induction d as [|s d IH]; [done|]. change (RSet.count s + NetDest.count d = 0). rewrite Hs, IH by set_solver. done.
Qed.

Lemma nodes_divided d e d1 d2 :
  (forall m i, NetDest.mem d1 m i <-> NetDest.mem d m i /\ NetDest.mem e m i) ->
  (forall m i, NetDest.mem d2 m i <-> NetDest.mem d m i /\ ~ NetDest.mem e m i) ->
  nodes d1 ++ nodes d2 ≡ₚ nodes d.
Proof.
  intros K1 K2. rewrite (nodes_filter d d1 (fun x => has_node e x = true)), (nodes_filter d d2 (fun x => ~ has_node e x = true)).
  - apply filter_app_complement.
  - intros m i Hm Hi. rewrite has_node_mem, K2 by done. tauto.
  - intros m i Hm Hi. rewrite has_node_mem, K1 by done. tauto.
Qed.

(** ** Routes *)

Definition covered (dest : NetDest.t) (links : list LinkInfo) : Prop :=
  forall m i, NetDest.mem dest m i -> exists l, l ∈ links /\ NetDest.mem (m_routing_entry l) m i.

(** A route gives a link destinations that it serves. *)
Definition serves (links : list LinkInfo) (r : RouteInfo) : Prop :=
  NetDest.sized (m_destinations r) /\ exists l, l ∈ links /\ m_link_id l = ri_link_id r /\
    forall m i, NetDest.mem (m_destinations r) m i -> NetDest.mem (m_routing_entry l) m i.

Record divided (dest : NetDest.t) (links : list LinkInfo) (out : list RouteInfo) : Prop := {
  dv_links : (ri_link_id <$> out) `sublist_of` (m_link_id <$> links);
  dv_serves : Forall (serves links) out;
  dv_nodes : out ≫= (fun r => nodes (m_destinations r)) ≡ₚ nodes dest;
}.

Lemma serves_more links l out : Forall (serves links) out -> Forall (serves (links ++ [l])) out.
Proof. intros Hr. apply (list.Forall_impl _ _ _ Hr). intros r (Hs & l' & Hl & H'). split; [done|]. exists l'. split; [set_solver|done]. Qed.

Lemma findRoute_spec dest links :
  NetDest.sized dest -> Forall (fun l => NetDest.sized (m_routing_entry l)) links -> covered dest links ->
  safe (findRoute dest links) (divided dest links).
Proof.
  intros Hd Hl Hc. unfold findRoute. apply safe_bind.
  eapply safe_mono; [apply (safe_for_each (fun pre '(rest, out) => NetDest.sized rest /\
    (forall m i, NetDest.mem rest m i <-> NetDest.mem dest m i /\ forall l, l ∈ pre -> ~ NetDest.mem (m_routing_entry l) m i) /\
    (ri_link_id <$> out) `sublist_of` (m_link_id <$> pre) /\ Forall (serves pre) out /\
    (out ≫= fun r => nodes (m_destinations r)) ++ nodes rest ≡ₚ nodes dest))|].
  - split; [done|]. split; [set_solver|]. done.
  - intros pre l post [rest out] -> (Hr & Hm & Hs & Hv & Hn).
    apply list.Forall_app in Hl as [_ [Hsl _]%list.Forall_cons].
    apply safe_bind. eapply safe_mono; [apply (NetDest.intersectionIsNotEmpty_spec (m_routing_entry l) rest);
      destruct Hr, Hsl; unfold zlength in *; lia|]. intros [] Hhit.
    + apply safe_bind. eapply safe_mono; [by apply (AND_spec rest (m_routing_entry l))|]. intros d [Hsd Hmd].
      apply safe_bind. eapply safe_mono; [by apply (removeNetDest_spec rest (m_routing_entry l))|]. intros rest' [Hsr Hmr].
      cbn. split; [done|]. split; [|split; [|split]].
      * intros m i. rewrite Hmr, Hm. set_solver.
      * rewrite !fmap_app. by apply sublist_app.
      * apply list.Forall_app. split; [by apply serves_more|].
        apply list.Forall_singleton. split; [done|]. exists l. split; [set_solver|]. split; [done|]. intros m i. cbn. rewrite Hmd. tauto.
      * rewrite bind_app. cbn. rewrite app_nil_r, <- app_assoc, (nodes_divided rest (m_routing_entry l)) by done. done.
    + cbn. split; [done|]. split; [|split; [|split]]; [| |by apply serves_more|done].
      * intros m i. rewrite Hm. split; [|set_solver]. intros [Hi Hno]. split; [done|].
        intros l' [Hp| ->%list_elem_of_singleton]%elem_of_app; [by apply Hno|]. intros Hl'.
        assert (false = true); [|done]. apply Hhit. exists m, i. rewrite Hm. done.
      * rewrite fmap_app. by apply sublist_inserts_r.
  - intros [rest out] (Hr & Hm & Hs & Hv & Hn). assert (He : forall m i, ~ NetDest.mem rest m i).
    { intros m i [Hi Hno]%Hm. destruct (Hc m i Hi) as (l & Hin & Hl'). by eapply Hno. }
    rewrite count_zero by done. cbn. split; [done..|]. rewrite <- Hn.
    replace (nodes rest) with (@nil Z); [by rewrite app_nil_r|]. symmetry. apply elem_of_nil_inv.
    intros x (m & i & _ & _ & _ & Hi)%elem_of_nodes%has_node_machine. by eapply He.
Qed.

End routing.

(** Buffers of the same priority end up in groups of their own, unless it is the
    priority of the first buffer. *)
Example priority_groups_split : PerfectSwitch.group_buffers 0 [(0, 10); (0, 11); (1, 12); (1, 13)] = [[10; 11]; [12]; [13]].
Proof. reflexivity. Qed.
