(* ===== verification/BufferStore.v ===== *)
(** * BufferStore: the message buffers that switches share

    Switches and throttles take messages from one buffer of the store and put
    them into another one.  Looking at a buffer changes only statistics and calls
    to its consumer; taking and putting a message keep an invariant of the
    store, and change what a set of buffers holds by this message. *)

From stdpp Require Import gmap.
From S2P Require Import Prelude NetDest Heap MessageBuffer MessageBufferProofs SimpleSwitch.
Import MessageBuffer.

(** ** Buffers up to statistics and calls *)

Record alike (b b' : t) : Prop := {
  al_consumer : m_consumer b' = m_consumer b;
  al_heap : m_prio_heap b' = m_prio_heap b;
  al_map : m_stall_msg_map b' = m_stall_msg_map b;
  al_stall : m_stall_map_size b' = m_stall_map_size b;
  al_max : m_max_size b' = m_max_size b;
  al_rate : m_max_dequeue_rate b' = m_max_dequeue_rate b;
  al_dequeues : m_dequeues_this_cy b' = m_dequeues_this_cy b;
  al_enqueue : m_time_last_time_enqueue b' = m_time_last_time_enqueue b;
  al_pop : m_time_last_time_pop b' = m_time_last_time_pop b;
  al_last : m_last_arrival_time b' = m_last_arrival_time b;
  al_size : m_size_at_cycle_start b' = m_size_at_cycle_start b;
  al_stalled : m_stalled_at_cycle_start b' = m_stalled_at_cycle_start b;
  al_msgs : m_msgs_this_cycle b' = m_msgs_this_cycle b;
  al_random : m_randomization b' = m_randomization b;
  al_zero : m_allow_zero_latency b' = m_allow_zero_latency b;
}.

#[global] Instance alike_equiv : Equivalence alike.
Proof. split; [by split|intros ?? []; by split|intros ??? [] []; split; congruence]. Qed.

Lemma alike_buffer_ok `{!StdHeap Message.t Message.gt} k now b b' : alike b b' -> buffer_ok k now b -> buffer_ok k now b'.
Proof.
  intros [] Hb. eapply (buffer_ok_frame k now b); [by split|..|exact Hb]; unfold occupancy, heap_size, stalled.
  - rewrite al_heap0. apply (bo_heap _ _ _ Hb).
  - rewrite al_stall0, al_map0. apply (bo_stall _ _ _ Hb).
  - rewrite al_heap0, al_stall0. done.
Qed.

(** Whether a message can be taken now, and whether there is room for one. *)
Definition due (now : Z) (b : t) : bool :=
  ((m_max_dequeue_rate b =? 0) || (m_time_last_time_pop b <? now) || (m_dequeues_this_cy b <? m_max_dequeue_rate b)) &&
  match m_prio_heap b with [] => false | m :: _ => Message.m_LastEnqueueTime m <=? now end.
Definition room (now : Z) (b : t) : bool := (areNSlotsAvailable 1 now b).1.

Lemma alike_due now b b' : alike b b' -> due now b' = due now b.
Proof. intros []. unfold due. by rewrite al_rate0, al_pop0, al_dequeues0, al_heap0. Qed.

Lemma room_eq now b : room now b = (m_max_size b =? 0) || (u32 (visible_size now b + 1) <=? m_max_size b).
Proof. unfold room, areNSlotsAvailable. destruct (m_max_size b =? 0); [done|]. by destruct (_ <=? _). Qed.

Lemma alike_room now b b' : alike b b' -> room now b' = room now b.
Proof. intros []. rewrite !room_eq. unfold visible_size, heap_size. by rewrite al_max0, al_pop0, al_enqueue0, al_heap0, al_stall0, al_size0, al_stalled0, al_msgs0. Qed.

Lemma due_head now b : due now b = true -> exists x l, m_prio_heap b = x :: l.
Proof. unfold due. destruct (m_prio_heap b) as [|x l]; [by rewrite andb_false_r|eauto]. Qed.

Lemma isReady_due now b : m_time_last_time_pop b <= now -> m_consumer b = true ->
  exists b', isReady now b = Ok (due now b, b') /\ alike b b' /\ (due now b = true -> b' = b).
Proof.
  intros Hp Hc. unfold isReady. rewrite (proj2 (Z.leb_le _ _)) by done. cbn [mbind res_bind assert]. rewrite Hc.
  unfold due. set (can := _ || _). set (rdy := match m_prio_heap b with [] => false | _ => _ end).
  destruct can, rdy; cbn; eexists; (split; [done|]); by split.
Qed.

(** ** Stores *)

Definition same_store (bs bs' : Buffers) : Prop := forall p, option_Forall2 alike (bs !! p) (bs' !! p).

#[global] Instance same_store_equiv : Equivalence same_store.
Proof. split; [intros ? p|intros ?? Hs p|intros ??? Hs Hs' p]; [done|symmetry; apply Hs|etrans; [apply Hs|apply Hs']]. Qed.

Lemma same_lookup bs bs' p b : same_store bs bs' -> bs !! p = Some b -> exists b', bs' !! p = Some b' /\ alike b b'.
Proof. intros Hs Hb. specialize (Hs p). rewrite Hb in Hs. inversion Hs; subst. eauto. Qed.

Lemma same_insert bs p b b' : bs !! p = Some b -> alike b b' -> same_store bs (<[p := b']> bs).
Proof.
  intros Hb Ha q. destruct (decide (q = p)) as [->|Hne]; [rewrite lookup_insert_eq, Hb; by constructor|].
  by rewrite lookup_insert_ne.
Qed.

(** ** What buffers hold *)

Section cargo.
Context {C : Type} (f : Z * MessageSizeType * NetDest.t -> list C).

Definition load (bs : Buffers) (p : Z) : list C :=
  match bs !! p with Some b => m_prio_heap b ≫= (fun m => f (content m)) | None => [] end.
Definition cargo (bs : Buffers) (ps : list Z) : list C := ps ≫= load bs.

Lemma cargo_same bs bs' ps : same_store bs bs' -> cargo bs' ps = cargo bs ps.
Proof.
  intros Hs. induction ps as [|p ps IH]; [done|]. change (load bs' p ++ cargo bs' ps = load bs p ++ cargo bs ps).
  rewrite IH. f_equal. unfold load. destruct (Hs p) as [b b' []|]; [by rewrite al_heap0|done].
Qed.

Lemma cargo_ext bs bs' ps : (forall p, p ∈ ps -> bs' !! p = bs !! p) -> cargo bs' ps = cargo bs ps.
Proof.
  induction ps as [|p ps IH]; intros Hp; [done|]. change (load bs' p ++ cargo bs' ps = load bs p ++ cargo bs ps).
  rewrite IH by set_solver. unfold load. by rewrite Hp by (by left).
Qed.

Lemma cargo_insert_ne bs p b ps : p ∉ ps -> cargo (<[p := b]> bs) ps = cargo bs ps.
Proof. intros Hp. apply cargo_ext. intros q Hq. rewrite lookup_insert_ne; [done|]. by intros ->. Qed.

(** One message less. *)
Lemma cargo_insert bs p b b' x ps : NoDup ps -> p ∈ ps -> bs !! p = Some b -> m_prio_heap b ≡ₚ x :: m_prio_heap b' ->
  cargo bs ps ≡ₚ f (content x) ++ cargo (<[p := b']> bs) ps.
Proof.
  intros Hnd (l1 & l2 & ->)%list_elem_of_split Hb Hh. apply list.NoDup_app in Hnd as (_ & H1 & [H2 _]%list.NoDup_cons).
  unfold cargo. rewrite !bind_app, !bind_cons. fold (cargo bs l1) (cargo bs l2) (cargo (<[p := b']> bs) l1) (cargo (<[p := b']> bs) l2).
  rewrite !cargo_insert_ne; [|done|intros Hp; apply (H1 p Hp); by left].
  unfold load. rewrite Hb, lookup_insert_eq, Hh. cbn. solve_Permutation.
Qed.

(** One message more. *)
Lemma cargo_put bs p b b' x ps : NoDup ps -> p ∈ ps -> bs !! p = Some b -> m_prio_heap b' ≡ₚ x :: m_prio_heap b ->
  cargo (<[p := b']> bs) ps ≡ₚ f (content x) ++ cargo bs ps.
Proof.
  intros Hnd Hp Hb Hh. rewrite (cargo_insert _ p b' b x) by (done || apply lookup_insert_eq).
  by rewrite insert_insert_eq, insert_id.
Qed.
End cargo.

(** The number of messages. *)
Definition single (c : Z * MessageSizeType * NetDest.t) : list unit := [tt].
Definition queued (bs : Buffers) (ps : list Z) : Z := zlength (cargo single bs ps).

Lemma queued_nonneg bs ps : 0 <= queued bs ps.
Proof. apply zlength_nonneg. Qed.

Lemma queued_same bs bs' ps : same_store bs bs' -> queued bs' ps = queued bs ps.
Proof. intros Hs. unfold queued. by rewrite (cargo_same single _ _ _ Hs). Qed.

Lemma queued_take bs p b x b' ps : NoDup ps -> p ∈ ps -> bs !! p = Some b -> m_prio_heap b ≡ₚ x :: m_prio_heap b' ->
  queued (<[p := b']> bs) ps = queued bs ps - 1.
Proof.
  intros Hnd Hp Hb Hh. unfold queued, zlength. rewrite (cargo_insert single bs p b b' x ps) by done. cbn [length app single]. lia.
Qed.

(** ** The invariant of a store *)

Section store.
Context `{!StdHeap Message.t Message.gt, !StdHeapOk Message.t Message.gt}.
(** The tick, the buffers, the ones that get messages with the latency that these
    get, and the messages that a buffer may have. *)
Context (rs : RubySystem) (now : Z) (ps : list Z) (outs : list (Z * Z)).
Context (Accept : Z -> Z * MessageSizeType * NetDest.t -> Prop).
Hypothesis outs_latency : forall q d d', (q, d) ∈ outs -> (q, d') ∈ outs -> d' = d.

(** Messages that come with latency [d] arrive in order. *)
Record writable (d : Z) (b : t) : Prop := {
  wr_random : randomized rs b = false;
  wr_delta : 0 <= d /\ now + d < 2 ^ 64 - 119;
  wr_zero : d <> 0 \/ m_allow_zero_latency b = true;
  wr_last : 0 <= m_last_arrival_time b <= now + d;
}.

Record store_ok (k : Z) (bs : Buffers) : Prop := {
  so_good : forall p, p ∈ ps -> exists b, bs !! p = Some b /\ buffer_ok k now b /\ m_consumer b = true;
  so_open : forall q d b, (q, d) ∈ outs -> bs !! q = Some b -> writable d b;
  so_accept : forall p b m, p ∈ ps -> bs !! p = Some b -> m ∈ m_prio_heap b -> Accept p (content m);
}.

Lemma alike_writable d b b' : alike b b' -> writable d b -> writable d b'.
Proof. intros [] []. split; unfold randomized in *; by rewrite ?al_random0, ?al_zero0, ?al_last0. Qed.

Lemma store_same k bs bs' : same_store bs bs' -> store_ok k bs -> store_ok k bs'.
Proof.
  intros Hs [H1 H2 H3]. assert (Hs' : same_store bs' bs) by (by symmetry). split.
  - intros p Hp. destruct (H1 p Hp) as (b & Hb & Hok & Hc). destruct (same_lookup _ _ _ _ Hs Hb) as (b' & Hb' & Ha).
    exists b'. split; [done|]. split; [by eapply alike_buffer_ok|]. by rewrite (al_consumer _ _ Ha).
  - intros q d b' Hq Hb'. destruct (same_lookup _ _ _ _ Hs' Hb') as (b & Hb & Ha).
    eapply alike_writable; [by symmetry|]. by eapply H2.
  - intros p b' m Hp Hb' Hm. destruct (same_lookup _ _ _ _ Hs' Hb') as (b & Hb & Ha). eapply H3; [done..|]. by rewrite (al_heap _ _ Ha).
Qed.

Lemma store_later k k' bs : store_ok k bs -> k <= k' -> store_ok k' bs.
Proof.
  intros [H1 H2 H3] Hk. split; [|done..]. intros p Hp. destruct (H1 p Hp) as (b & Hb & Hok & Hc).
  exists b. split; [done|]. split; [|done]. by eapply buffer_ok_later.
Qed.

(** A buffer is replaced by one that is as good. *)
Lemma store_insert k bs p b b' : store_ok k bs -> bs !! p = Some b -> buffer_ok k now b' -> m_consumer b' = m_consumer b ->
  (forall d, (p, d) ∈ outs -> writable d b -> writable d b') -> (forall m, m ∈ m_prio_heap b' -> p ∈ ps -> Accept p (content m)) ->
  store_ok k (<[p := b']> bs).
Proof.
  intros [H1 H2 H3] Hb Hok Hc Hw Hm. split.
  - intros q Hq. destruct (decide (q = p)) as [->|Hne].
    + exists b'. rewrite lookup_insert_eq. destruct (H1 p Hq) as (b1 & Hb1 & _ & Hc1). split_and!; [done..|]. congruence.
    + rewrite lookup_insert_ne by done. by apply H1.
  - intros q d b1 Hq [[<- <-]|[Hne Hb1]]%lookup_insert_Some; [apply Hw; [done|]|]; by eapply H2.
  - intros q b1 m Hq [[<- <-]|[Hne Hb1]]%lookup_insert_Some Hm1; [by apply Hm|]. by eapply H3.
Qed.

Lemma store_take k bs p b x l x' b' : store_ok k bs -> p ∈ ps -> bs !! p = Some b -> dequeued now b x l x' b' ->
  store_ok k (<[p := b']> bs) /\ m_prio_heap b ≡ₚ x :: m_prio_heap b' /\ Accept p (content x).
Proof.
  intros Hst Hp Hb Hd. destruct (so_good _ _ Hst p Hp) as (b1 & Hb1 & Hok & Hc). assert (b1 = b) as -> by congruence.
  destruct (dequeued_heap _ _ _ _ _ _ (bo_heap _ _ _ Hok) Hd) as [Hh Hperm].
  assert (Hx : m_prio_heap b ≡ₚ x :: m_prio_heap b') by (by rewrite Hperm, (dq_before _ _ _ _ _ _ Hd)).
  split; [|split; [done|]].
  - eapply store_insert; [done..|by eapply buffer_ok_dequeued|apply (dq_consumer _ _ _ _ _ _ Hd)| |].
    + destruct Hd. intros d _ []. split; [unfold randomized in *; by rewrite dq_random|done|by rewrite dq_zero|by rewrite dq_last].
    + intros m Hm _. eapply (so_accept _ _ Hst); [done..|]. rewrite Hx. by right.
  - eapply (so_accept _ _ Hst); [done..|]. rewrite Hx. by left.
Qed.

Lemma store_put k bs q d b m g : 0 <= now < 2 ^ 64 - 119 -> 0 <= k < 2 ^ 31 - 1 ->
  store_ok (k + 1) bs -> q ∈ ps -> (q, d) ∈ outs -> bs !! q = Some b -> buffer_ok k now b -> room now b = true ->
  Message.m_LastEnqueueTime m <= now -> Accept q (content m) ->
  exists b' g' m', enqueue rs m now d b g = Ok (b', g') /\ store_ok (k + 1) (<[q := b']> bs) /\
    content m' = content m /\ m_prio_heap b' ≡ₚ m' :: m_prio_heap b.
Proof.
  intros Hn Hk Hst Hq Ho Hb Hok Hr Hm Ha. destruct (so_good _ _ Hst q Hq) as (b1 & Hb1 & _ & Hc).
  assert (b1 = b) as -> by congruence. pose proof (so_open _ _ Hst _ _ _ Ho Hb) as Hw. assert (Hw' := Hw). destruct Hw'.
  destruct (enqueue_safe rs m now d b g) as (b' & g' & E); [apply (bo_heap _ _ _ Hok)| |eapply (slots_room k now 1); [done|lia..|exact Hr]|].
  { split; [done|lia|done|lia|intros; lia|done..]. }
  destruct (enqueue_Ok _ _ _ _ _ _ _ _ E) as (m' & He & Hcap). exists b', g', m'. split; [done|].
  assert (Hperm : m_prio_heap b' ≡ₚ m' :: m_prio_heap b).
  { rewrite (en_heap _ _ _ _ _ _ _ _ He). apply heap_push, (bo_heap _ _ _ Hok). }
  pose proof (en_content _ _ _ _ _ _ _ _ He) as Hcont. split; [|done].
  eapply store_insert; [done..|eapply buffer_ok_enqueued; [done|lia|done..]|apply (en_consumer _ _ _ _ _ _ _ _ He)| |].
  - destruct He. destruct en_arrival as (last & g1 & [_ Harr]%arrival_Ok & _ & Hl). intros d' Hd' _.
    rewrite (outs_latency _ _ _ Ho Hd'). destruct Harr as (_ & _ & [Harr ->]%(fun H => H wr_random0)); [lia..|].
    split; [unfold randomized in *; by rewrite en_random|done|by rewrite en_zero|]. rewrite Hl. destruct (getWarmupEnabled rs); lia.
  - intros y Hy _. rewrite Hperm in Hy. apply elem_of_cons in Hy as [->|Hy]; [by rewrite Hcont|]. by eapply (so_accept _ _ Hst).
Qed.

(** ** Looking at buffers *)

Lemma ready_spec k bs p (Q : bool * Buffers -> Prop) : store_ok k bs -> p ∈ ps ->
  (forall b bs', bs !! p = Some b -> same_store bs bs' -> (due now b = true -> bs' = bs) -> Q (due now b, bs')) ->
  safe (on_buffer p (isReady now) bs) Q.
Proof.
  intros Hst Hp HQ. destruct (so_good _ _ Hst p Hp) as (b & Hb & Hok & Hc). unfold on_buffer, buffer_at. rewrite Hb. cbn [mbind res_bind].
  destruct (isReady_due now b (bo_pop _ _ _ Hok) Hc) as (b' & -> & Ha & He). cbn. apply HQ; [done|by eapply same_insert|].
  intros Hd. rewrite (He Hd). by apply insert_id.
Qed.

Lemma room_spec k bs q (Q : bool * Buffers -> Prop) : store_ok k bs -> q ∈ ps ->
  (forall b bs', bs !! q = Some b -> same_store bs bs' -> Q (room now b, bs')) ->
  safe (on_buffer q (fun b => Ok (areNSlotsAvailable 1 now b)) bs) Q.
Proof.
  intros Hst Hq HQ. destruct (so_good _ _ Hst q Hq) as (b & Hb & _ & _). unfold on_buffer, buffer_at. rewrite Hb. cbn [mbind res_bind].
  destruct (areNSlotsAvailable 1 now b) as [r b'] eqn:E. cbn. replace r with (room now b) by (unfold room; by rewrite E).
  apply HQ; [done|]. eapply same_insert; [done|]. unfold areNSlotsAvailable in E. repeat case_match; by injection E as <- <-.
Qed.

Lemma size_spec k bs q (Q : Z * Buffers -> Prop) : store_ok k bs -> q ∈ ps ->
  (forall n bs', same_store bs bs' -> Q (n, bs')) -> safe (on_buffer q (fun b => Ok (getSize now b)) bs) Q.
Proof.
  intros Hst Hq HQ. destruct (so_good _ _ Hst q Hq) as (b & Hb & _ & _). unfold on_buffer, buffer_at. rewrite Hb. cbn [mbind res_bind].
  cbn. apply HQ. eapply same_insert; [done|]. by destruct (_ =? _).
Qed.

Lemma dequeue_store_spec k bs p b ct (Q : Message.t * Buffers -> Prop) : store_ok k bs -> p ∈ ps -> bs !! p = Some b -> due now b = true ->
  (forall x x' b', head (m_prio_heap b) = Some x -> content x' = content x -> Message.m_LastEnqueueTime x' <= now ->
     Message.m_LastEnqueueTime x <= now -> Accept p (content x) -> store_ok k (<[p := b']> bs) ->
     m_prio_heap b ≡ₚ x :: m_prio_heap b' -> Q (x', <[p := b']> bs)) ->
  safe (on_buffer p (dequeue ct now true) bs) Q.
Proof.
  intros Hst Hp Hb Hd HQ. destruct (so_good _ _ Hst p Hp) as (b1 & Hb1 & Hok & Hc). assert (b1 = b) as -> by congruence.
  destruct (isReady_due now b (bo_pop _ _ _ Hok) Hc) as (b' & Hr & _ & _). rewrite Hd in Hr.
  destruct (dequeue_safe ct now true b b' Hr) as (x' & b2 & E). unfold on_buffer, buffer_at. rewrite Hb. cbn [mbind res_bind].
  rewrite E. cbn. destruct (dequeue_Ok _ _ _ _ _ _ E) as (x & l & Hdq).
  destruct (store_take _ _ _ _ _ _ _ _ Hst Hp Hb Hdq) as (Hst' & Hperm & Ha). destruct Hdq.
  apply (HQ x); [by rewrite dq_before|by rewrite dq_message|by rewrite dq_message|done..].
Qed.
End store.

(** An unlimited buffer with at most one message, for examples. *)
Definition plain_buffer (l : list Message.t) : t := (new 0 0 true disabled false 0) <| m_consumer := true |> <| m_prio_heap := l |>.

Lemma plain_buffer_ok now l : 0 <= now -> (length l <= 1)%nat -> @buffer_ok (sorted_heap Message.gt) 0 now (plain_buffer l).
Proof.
  intros Hn Hl. split; cbn; try lia; [|done].
  destruct l as [|m [|m' l]]; [constructor|repeat constructor|cbn in Hl; lia].
Qed.
