(* ===== verification/PerfectSwitchProofs.v ===== *)
(** * PerfectSwitchProofs: a switch of the simple network forwards messages

    The invariant of a switch with its routing unit and its buffers, and the
    theorem that a wakeup ends, keeps the invariant and loses, duplicates or
    misroutes no message: the pairs of a message and a destination node that
    the buffers hold are the same before and after. *)

From stdpp Require Import gmap.
From S2P Require Import Prelude NetDest CommonTypes Clock Heap MessageBuffer MessageBufferProofs DestProofs SimpleSwitch SimpleRouting BufferStore.
Import MessageBuffer PerfectSwitch.

(** ** Lists of lists without duplicates *)

Lemma NoDup_bind_lookup {A B} (f : A -> list B) (l : list A) i a :
  NoDup (l ≫= f) -> l !! i = Some a -> NoDup (f a).
Proof.
  revert i. induction l as [|x l IH]; intros i; [done|]. rewrite bind_cons. intros (H1 & _ & H2)%list.NoDup_app.
  destruct i; cbn; [by intros [= <-]|]. by apply IH.
Qed.

Lemma NoDup_bind_inj {A B} (f : A -> list B) (l : list A) i j a b x :
  NoDup (l ≫= f) -> l !! i = Some a -> l !! j = Some b -> x ∈ f a -> x ∈ f b -> i = j.
Proof.
  revert i j. induction l as [|y l IH]; intros i j; [done|]. rewrite bind_cons. intros (_ & Hd & Hl)%list.NoDup_app.
  assert (Hin : forall k c, l !! k = Some c -> x ∈ f c -> x ∈ l ≫= f).
  { intros k c Hk Hc. apply list_elem_of_bind. exists c. split; [done|]. by eapply list_elem_of_lookup_2. }
  destruct i, j; cbn; [done|intros [= <-] Hj Ha Hb|intros Hi [= <-] Ha Hb|intros; f_equal; by eapply IH].
  - exfalso. eapply Hd; [exact Ha|]. by eapply Hin.
  - exfalso. eapply Hd; [exact Hb|]. by eapply Hin.
Qed.

(** ** The fixed part of a switch *)

(** The number, the destinations and the buffers of an output link. *)
Definition Row : Type := Z * NetDest.t * list Z.
Definition row (l : WeightBased.LinkInfo) : Row :=
  (WeightBased.m_link_id l, WeightBased.m_routing_entry l, WeightBased.m_out_buffers l).

Record Layout := mkLayout {
  ly_ports : list OutputPort;
  ly_groups : list (list (list Z));
  ly_vnets : Z;
  ly_table : list Row;
}.

Definition layout_of (s : State) : Layout :=
  mkLayout (m_out (st_switch s)) (m_in_prio_groups (st_switch s)) (m_virtual_networks (st_switch s))
    (row <$> WeightBased.m_links (st_unit s)).

Definition in_buffers (L : Layout) : list Z := ly_groups L ≫= @concat Z.
Definition port_buffers (port : OutputPort) : list (Z * Z) := (fun q => (q, latency port)) <$> buffers port.
Definition out_buffers (L : Layout) : list (Z * Z) := ly_ports L ≫= port_buffers.
Definition all_buffers (L : Layout) : list Z := in_buffers L ++ (ly_ports L ≫= buffers).

(** The input buffers of a virtual network. *)
Definition vnet_buffers (L : Layout) (vnet : nat) : list Z := concat (default [] (ly_groups L !! vnet)).

Section dests.
Context `{MachineTypes}.

(** Messages that come in have known destinations, messages that go out are
    on a link that serves all of their destinations. *)
Definition accepts (L : Layout) (p : Z) (c : Z * MessageSizeType * NetDest.t) : Prop :=
  (p ∈ in_buffers L -> NetDest.sized c.2 /\
     forall m i, NetDest.mem c.2 m i -> exists r, r ∈ ly_table L /\ NetDest.mem r.1.2 m i) /\
  (forall r, r ∈ ly_table L -> p ∈ r.2 -> forall m i, NetDest.mem c.2 m i -> NetDest.mem r.1.2 m i).

Record row_ok (L : Layout) (r : Row) : Prop := {
  ro_entry : NetDest.sized r.1.2;
  ro_id : 0 <= r.1.1;
  ro_port : exists port, ly_ports L !! Z.to_nat r.1.1 = Some port /\ buffers port = r.2;
  ro_vnets : ly_vnets L <= zlength r.2;
}.

Record layout_ok (L : Layout) : Prop := {
  ly_distinct : NoDup (all_buffers L);
  ly_ids : NoDup (ly_table L).*1.*1;
  ly_rows : Forall (row_ok L) (ly_table L);
  ly_inputs : zlength (ly_groups L) <= ly_vnets L;
}.
End dests.

Lemma elem_of_outs L q d : (q, d) ∈ out_buffers L <-> exists i port, ly_ports L !! i = Some port /\ q ∈ buffers port /\ d = latency port.
Proof.
  unfold out_buffers, port_buffers. rewrite list_elem_of_bind. split.
  - intros (port & (q' & [= -> ->] & Hq)%list_elem_of_fmap & (i & Hi)%list_elem_of_lookup). eauto 10.
  - intros (i & port & Hi & Hq & ->). exists port. split; [|by eapply list_elem_of_lookup_2]. apply list_elem_of_fmap. eauto.
Qed.

Section layout.
Context `{MachineTypes} (L : Layout) (HL : layout_ok L).

Lemma outs_distinct : NoDup (ly_ports L ≫= buffers).
Proof. by pose proof (ly_distinct L HL) as (? & _ & ?)%list.NoDup_app. Qed.

Lemma ins_distinct : NoDup (in_buffers L).
Proof. by pose proof (ly_distinct L HL) as (? & _ & ?)%list.NoDup_app. Qed.

Lemma outs_latency q d d' : (q, d) ∈ out_buffers L -> (q, d') ∈ out_buffers L -> d' = d.
Proof.
  rewrite !elem_of_outs. intros (i & port & Hi & Hq & ->) (j & port' & Hj & Hq' & ->).
  assert (i = j) as -> by (eapply (NoDup_bind_inj buffers (ly_ports L)); [apply outs_distinct|done..]). congruence.
Qed.

Lemma in_not_out p q d : p ∈ in_buffers L -> (q, d) ∈ out_buffers L -> p <> q.
Proof.
  intros Hp (i & port & Hi & Hq & _)%elem_of_outs ->. pose proof (ly_distinct L HL) as (_ & Hd & _)%list.NoDup_app.
  apply (Hd q Hp), list_elem_of_bind. exists port. split; [done|]. by eapply list_elem_of_lookup_2.
Qed.

Lemma outs_buffers q d : (q, d) ∈ out_buffers L -> q ∈ all_buffers L.
Proof.
  intros (i & port & Hi & Hq & _)%elem_of_outs. apply elem_of_app. right. apply list_elem_of_bind.
  exists port. split; [done|]. by eapply list_elem_of_lookup_2.
Qed.

Lemma vnet_buffers_in vnet p : p ∈ vnet_buffers L vnet -> p ∈ in_buffers L.
Proof.
  unfold vnet_buffers, in_buffers. destruct (ly_groups L !! vnet) as [g|] eqn:E; cbn; [|by intros ?%not_elem_of_nil].
  intros Hp. apply list_elem_of_bind. exists g. split; [done|]. by eapply list_elem_of_lookup_2.
Qed.

Lemma vnet_buffers_NoDup vnet : NoDup (vnet_buffers L vnet).
Proof.
  unfold vnet_buffers. destruct (ly_groups L !! vnet) as [g|] eqn:E; cbn; [|constructor].
  eapply (NoDup_bind_lookup (@concat Z) (ly_groups L)); [apply ins_distinct|done].
Qed.

Lemma vnet_buffers_inj v v' p : p ∈ vnet_buffers L v -> p ∈ vnet_buffers L v' -> v = v'.
Proof.
  unfold vnet_buffers. destruct (ly_groups L !! v) as [g|] eqn:E, (ly_groups L !! v') as [g'|] eqn:E'; cbn;
    [|by intros _ ?%not_elem_of_nil|by intros ?%not_elem_of_nil..].
  intros Hp Hp'. by eapply (NoDup_bind_inj (@concat Z) (ly_groups L)); [apply ins_distinct|..].
Qed.
End layout.

(** ** The invariant *)

(** Messages with each of their destinations. *)
Definition deliveries `{MachineTypes} (c : Z * MessageSizeType * NetDest.t) : list (Z * Z) := pair c.1.1 <$> nodes c.2.

Section invariant.
Context `{!StdHeap Message.t Message.gt} `{MachineTypes}.
Context (em : Clocked.t) (now : Z) (rs : RubySystem) (L : Layout).

Definition store_good : Z -> Buffers -> Prop := store_ok rs now (all_buffers L) (out_buffers L) (accepts L).

Record switch_ok (k : Z) (s : State) : Prop := {
  sw_out : m_out (st_switch s) = ly_ports L;
  sw_groups : m_in_prio_groups (st_switch s) = ly_groups L;
  sw_vnets : m_virtual_networks (st_switch s) = ly_vnets L;
  sw_rows : row <$> WeightBased.m_links (st_unit s) ≡ₚ ly_table L;
  sw_store : store_good k (st_buffers s);
  sw_counts : zlength (m_pending_message_count (st_switch s)) = ly_vnets L;
  sw_pending : forall v c, m_pending_message_count (st_switch s) !! v = Some c -> c = queued (st_buffers s) (vnet_buffers L v);
  sw_consumer : Consumer.waking em now (consumer (st_switch s));
}.

Definition waiting (s : State) : Z := queued (st_buffers s) (in_buffers L).
Definition held (s : State) : list (Z * Z) := cargo deliveries (st_buffers s) (all_buffers L).
End invariant.

(** ** One message *)

Section step.
Context `{!StdSort WeightBased.LinkInfo WeightBased.link_lt, !StdSortOk WeightBased.LinkInfo WeightBased.link_lt}.
Context `{!StdHeap Message.t Message.gt, !StdHeapOk Message.t Message.gt} `{MachineTypes, !MachineTypesOk}.
Context (em : Clocked.t) (now : Z) (rs : RubySystem) (isVNetOrdered : Z -> res bool) (L : Layout).
Hypothesis HL : layout_ok L.
Hypothesis clock_wf : Clocked.wf now em.
Hypothesis clock_edge : Clocked.clockEdge now 0 em = now.
Hypothesis now_range : 0 <= now < 2 ^ 64 - 119.
Hypothesis vnets_known : forall vnet, 0 <= vnet < ly_vnets L -> safe (isVNetOrdered vnet) (fun _ => True).

Notation store_good := (store_good now rs L).

Lemma sort_rows u : row <$> WeightBased.m_links (WeightBased.sortLinks u) ≡ₚ row <$> WeightBased.m_links u.
Proof. cbn. apply fmap_Permutation, sort_perm. Qed.

Lemma table_row l u : row <$> WeightBased.m_links u ≡ₚ ly_table L -> l ∈ WeightBased.m_links u -> row l ∈ ly_table L /\ row_ok L (row l).
Proof.
  intros Hr Hl. assert (Hin : row l ∈ ly_table L) by (rewrite <- Hr; by apply list_elem_of_fmap_2).
  split; [done|]. by apply (proj1 (list.Forall_forall _ _) (ly_rows L HL)).
Qed.

Lemma row_buffer r q : row_ok L r -> q ∈ r.2 -> q ∈ all_buffers L.
Proof.
  intros [_ _ (port & Hp & <-) _] Hq. apply elem_of_app. right. apply list_elem_of_bind. exists port. split; [done|].
  by eapply list_elem_of_lookup_2.
Qed.

Lemma measure_spec k u bs g : store_good k bs -> row <$> WeightBased.m_links u ≡ₚ ly_table L ->
  safe (for_each (WeightBased.m_links u) (WeightBased.measure now) ([], bs, g))
    (fun '(links, bs', _) => row <$> links = row <$> WeightBased.m_links u /\ same_store bs bs').
Proof.
  intros Hst Hr. apply (safe_for_each (fun pre '(links, bs', _) => row <$> links = row <$> pre /\ same_store bs bs')); [done|].
  intros pre l post [[links bs1] g1] Hl (Hlinks & Hs1). unfold WeightBased.measure.
  assert (row_ok L (row l)) as Hrow by (eapply table_row; [done|]; rewrite Hl; set_solver).
  apply safe_bind. eapply safe_mono; [apply (safe_for_each (fun _ '(_, bs') => same_store bs bs')); [done|]|].
  - intros pre' q post' [len bs2] Hq Hs2. apply safe_bind. eapply (size_spec rs now); [by eapply store_same| |].
    { eapply row_buffer; [done|]. cbn. rewrite Hq. set_solver. }
    intros n bs3 Hs3. cbn. by etrans.
  - intros [len bs2] Hs2. apply safe_bind, safe_uniform; [lia|]. intros z g2 _. cbn. by rewrite !fmap_app, Hlinks.
Qed.

(** The route of a message whose destinations the links know. *)
Lemma route_spec k msg det u bs g :
  store_good k bs -> row <$> WeightBased.m_links u ≡ₚ ly_table L -> NetDest.sized (Message.m_Destination msg) ->
  (forall m i, NetDest.mem (Message.m_Destination msg) m i -> exists r, r ∈ ly_table L /\ NetDest.mem r.1.2 m i) ->
  safe (WeightBased.route now msg det u bs g) (fun '(out, u', bs', _) =>
    row <$> WeightBased.m_links u' ≡ₚ ly_table L /\ same_store bs bs' /\ divided (Message.m_Destination msg) (WeightBased.m_links u') out).
Proof.
  intros Hst Hr Hd Hc. unfold WeightBased.route. apply safe_bind.
  eapply (safe_mono _ (fun '(u', bs', _) => row <$> WeightBased.m_links u' ≡ₚ ly_table L /\ same_store bs bs')).
  - destruct (WeightBased.adaptive_routing u); [|done]. destruct det.
    + split; [|done]. rewrite sort_rows. cbn. by rewrite <- list_fmap_compose.
    + apply safe_bind. eapply safe_mono; [by eapply measure_spec|]. intros [[links bs1] g1] [Hl Hs]. cbn [safe].
      split; [|done]. rewrite sort_rows. cbn. by rewrite Hl.
  - intros [[u' bs1] g1] [Hr' Hs]. apply safe_bind. eapply safe_mono; [apply findRoute_spec; [done| |]|done].
    + apply list.Forall_forall. intros l Hl. exact (ro_entry _ _ (proj2 (table_row _ _ Hr' Hl))).
    + intros m i Hm. destruct (Hc m i Hm) as (r & Hin & Hmem). rewrite <- Hr' in Hin.
      apply list_elem_of_fmap in Hin as (l & -> & Hl). eauto.
Qed.

(** A route leads to a buffer of its link for the virtual network. *)
Record aims (vnet : Z) (r : WeightBased.RouteInfo) (lat q : Z) : Prop := {
  am_id : 0 <= WeightBased.ri_link_id r;
  am_port : exists port, ly_ports L !! Z.to_nat (WeightBased.ri_link_id r) = Some port /\ q ∈ buffers port /\ lat = latency port;
  am_outgoing : forall sw, m_out sw = ly_ports L -> outgoing vnet r sw = Ok (lat, q);
  am_accepts : forall c, c.2 = WeightBased.m_destinations r -> accepts L q c;
}.

Lemma aims_out vnet r lat q : aims vnet r lat q -> (q, lat) ∈ out_buffers L.
Proof. intros [_ (port & ? & ? & ?) _ _]. apply elem_of_outs. eauto. Qed.

Lemma aims_inj vnet r r' lat lat' q : aims vnet r lat q -> aims vnet r' lat' q -> WeightBased.ri_link_id r = WeightBased.ri_link_id r'.
Proof.
  intros [Hi (port & Hp & Hq & _) _ _] [Hi' (port' & Hp' & Hq' & _) _ _].
  pose proof (NoDup_bind_inj buffers (ly_ports L) _ _ _ _ q (outs_distinct L HL) Hp Hp' Hq Hq'). lia.
Qed.

Lemma table_id r r' : r ∈ ly_table L -> r' ∈ ly_table L -> r.1.1 = r'.1.1 -> r = r'.
Proof.
  intros (i & Hi)%list_elem_of_lookup (j & Hj)%list_elem_of_lookup He.
  assert (i = j) as ->; [|congruence]. apply (NoDup_lookup (ly_table L).*1.*1 i j r.1.1); [apply (ly_ids L HL)|..].
  - by rewrite !list_lookup_fmap, Hi.
  - by rewrite !list_lookup_fmap, Hj, He.
Qed.

Lemma serves_aims u vnet r : row <$> WeightBased.m_links u ≡ₚ ly_table L -> 0 <= vnet < ly_vnets L ->
  serves (WeightBased.m_links u) r -> exists lat q, aims vnet r lat q.
Proof.
  intros Hr Hv (Hsz & l & Hl & Hid & Hd). destruct (table_row l u Hr Hl) as [Hin Hrow]. assert (Hrow' := Hrow).
  destruct Hrow' as [_ Hi (port & Hp & Hb) Hn]. cbn in Hi, Hp, Hb, Hn.
  destruct (lookup_lt_is_Some_2 (buffers port) (Z.to_nat vnet)) as [q Hq]; [rewrite Hb; unfold zlength in Hn; lia|].
  assert (Hqin : q ∈ buffers port) by (by eapply list_elem_of_lookup_2).
  exists (latency port), q. split; rewrite <- ?Hid; [done|eauto| |].
  - intros sw Hsw. unfold outgoing. rewrite <- Hid, Hsw. unfold vget. rewrite decide_True by done. rewrite Hp. cbn.
    rewrite decide_True by lia. by rewrite Hq.
  - intros c Hc. split.
    + intros Hq'. exfalso. eapply (in_not_out L HL q q (latency port)); [done| |done]. apply elem_of_outs. eauto.
    + intros r' Hr' Hq' m i. rewrite Hc. intros Hm%Hd.
      assert (row l = r') as <-; [|done]. apply table_id; [done..|].
      destruct (proj1 (list.Forall_forall _ _) (ly_rows L HL) r' Hr') as [_ Hi' (port' & Hp' & Hb') _].
      rewrite <- Hb' in Hq'. pose proof (NoDup_bind_inj buffers (ly_ports L) _ _ _ _ q (outs_distinct L HL) Hp Hp' Hqin Hq').
      cbn in *. lia.
Qed.

(** The link has room for a message. *)
Definition open_link (k vnet : Z) (bs : Buffers) (r : WeightBased.RouteInfo) : Prop :=
  exists lat q b, aims vnet r lat q /\ bs !! q = Some b /\ MessageBufferProofs.buffer_ok k now b /\ room now b = true.

Lemma open_link_same k vnet bs bs' r : same_store bs bs' -> open_link k vnet bs r -> open_link k vnet bs' r.
Proof.
  intros Hs (lat & q & b & Ha & Hb & Hok & Hr). destruct (same_lookup _ _ _ _ Hs Hb) as (b' & Hb' & Hal).
  exists lat, q, b'. split_and!; [done..|by eapply alike_buffer_ok|by rewrite (alike_room _ _ _ Hal)].
Qed.

Lemma enough_slots_spec k vnet out sw bs : m_out sw = ly_ports L -> store_good k bs ->
  (forall r, r ∈ out -> exists lat q, aims vnet r lat q) ->
  safe (enough_slots em now vnet out sw bs) (fun '(enough, bs') => same_store bs bs' /\
    (enough = true -> forall r, r ∈ out -> open_link k vnet bs r)).
Proof.
  intros Hsw Hst Ho. unfold enough_slots, current_time. rewrite clock_edge.
  apply (safe_for_each (fun pre '(enough, bs') => same_store bs bs' /\ (enough = true -> forall r, r ∈ pre -> open_link k vnet bs r))).
  - split; [done|]. by intros _ r ?%not_elem_of_nil.
  - intros pre r post [enough bs1] -> (Hs & Hen). destruct (Ho r) as (lat & q & Ha); [set_solver|].
    rewrite (am_outgoing _ _ _ _ Ha sw Hsw). cbn [mbind res_bind]. apply safe_bind.
    pose proof (outs_buffers L _ _ (aims_out _ _ _ _ Ha)) as Hq.
    eapply (room_spec rs now); [by eapply store_same|exact Hq|]. intros b bs2 Hb Hs2. cbn.
    split; [by etrans|]. intros [He Hr]%andb_prop r' [Hin| ->%list_elem_of_singleton]%elem_of_app; [by apply Hen|].
    destruct (so_good _ _ _ _ _ _ _ Hst q Hq) as (b0 & Hb0 & Hok & _).
    destruct (same_lookup _ _ _ _ Hs Hb0) as (b1 & Hb1 & Hal). rewrite Hb in Hb1. injection Hb1 as <-.
    exists lat, q, b0. split_and!; [done..|]. by rewrite <- (alike_room _ _ _ Hal).
Qed.

Lemma send_all_spec k vnet id sw out : m_out sw = ly_ports L -> 0 <= k < 2 ^ 31 - 1 -> forall msg unmodified bs g,
  NoDup (WeightBased.ri_link_id <$> out) -> (forall r, r ∈ out -> open_link k vnet bs r) -> store_good (k + 1) bs ->
  Message.m_id msg = id -> Message.m_id unmodified = id ->
  Message.m_LastEnqueueTime msg <= now -> Message.m_LastEnqueueTime unmodified <= now ->
  safe (send_all em now rs vnet out msg unmodified sw bs g) (fun '(bs', _) => store_good (k + 1) bs' /\
    (forall p, p ∈ in_buffers L -> bs' !! p = bs !! p) /\
    cargo deliveries bs' (all_buffers L) ≡ₚ
      (pair id <$> (out ≫= fun r => nodes (WeightBased.m_destinations r))) ++ cargo deliveries bs (all_buffers L)).
Proof.
  intros Hsw Hk. induction out as [|r out IH]; intros msg unm bs g Hnd Ho Hst Hm Hu Ht Htu; [done|].
  apply list.NoDup_cons in Hnd as [Hni Hnd]. cbn [send_all].
  destruct (Ho r) as (lat & q & b & Ha & Hb & Hok & Hr); [by left|].
  rewrite (am_outgoing _ _ _ _ Ha sw Hsw). cbn [mbind res_bind]. unfold buffer_at. rewrite Hb. cbn [mbind res_bind].
  unfold current_time at 1. rewrite clock_edge. pose proof (aims_out _ _ _ _ Ha) as Hout. pose proof (outs_buffers L _ _ Hout) as Hq.
  set (m1 := msg <| Message.m_Destination := WeightBased.m_destinations r |>).
  destruct (store_put rs now (all_buffers L) (out_buffers L) (accepts L) (outs_latency L HL) k bs q lat b m1 g)
    as (b' & g' & m' & -> & Hst' & Hc & Hperm); [done..|by apply (am_accepts _ _ _ _ Ha)|].
  cbn [mbind res_bind]. eapply safe_mono; [apply (IH unm unm (<[q := b']> bs) g'); [done| |done..]|].
  - intros r' Hr'. destruct (Ho r') as (lat' & q' & b1 & Ha' & Hb1 & Hrest); [by right|].
    exists lat', q', b1. split; [done|]. split; [|done]. rewrite lookup_insert_ne; [done|]. intros <-.
    apply Hni. rewrite (aims_inj _ _ _ _ _ _ Ha Ha'). by apply list_elem_of_fmap_2.
  - intros [bs' g1] (Hst1 & Hin & Hcargo). split; [done|]. split.
    + intros p Hp. rewrite Hin by done. rewrite lookup_insert_ne; [done|]. intros <-. by eapply (in_not_out L HL q q).
    + rewrite Hcargo, (cargo_put deliveries bs q b b' m') by (done || apply (ly_distinct L HL)).
      rewrite bind_cons, fmap_app, Hc. unfold deliveries at 1. cbn. rewrite Hm. solve_Permutation.
Qed.

(** ** Counting *)

Context (N : Z) (D : list (Z * Z)).
Hypothesis N_range : N < 2 ^ 31 - 1.

(** The state during a wakeup: [N] bounds the messages that went out or may still
    do so, [D] is what the buffers hold. *)
Definition good (s : State) : Prop := exists k, 0 <= k /\ switch_ok em now rs L k s /\ k + waiting L s = N /\ held L s ≡ₚ D.

Lemma good_quiet s sw u bs g : good s -> same_store (st_buffers s) bs -> row <$> WeightBased.m_links u ≡ₚ ly_table L ->
  m_out sw = m_out (st_switch s) -> m_in_prio_groups sw = m_in_prio_groups (st_switch s) ->
  m_virtual_networks sw = m_virtual_networks (st_switch s) ->
  m_pending_message_count sw = m_pending_message_count (st_switch s) -> Consumer.waking em now (consumer sw) ->
  good (mkState sw u bs g).
Proof.
  intros (k & Hk & Hsw & Hn & Hd) Hs Hu E1 E2 E3 E4 Hc. exists k. unfold waiting, held. cbn.
  rewrite (queued_same _ _ _ Hs), (cargo_same deliveries _ _ _ Hs). split; [done|]. split; [|done].
  destruct Hsw. split; cbn; rewrite ?E1, ?E2, ?E3, ?E4; try done; [by eapply store_same|].
  intros v c Hv. rewrite (queued_same _ _ _ Hs). by apply sw_pending0.
Qed.

(** Message [x] has left buffer [p] of virtual network [v]. *)
Lemma good_moved k s p v b x b' bs bs' u g pending :
  0 <= k -> switch_ok em now rs L k s -> k + waiting L s = N -> held L s ≡ₚ D ->
  same_store (st_buffers s) bs -> p ∈ vnet_buffers L v -> bs !! p = Some b -> m_prio_heap b ≡ₚ x :: m_prio_heap b' ->
  row <$> WeightBased.m_links u ≡ₚ ly_table L ->
  m_pending_message_count (st_switch s) !! v = Some pending -> store_good (k + 1) bs' ->
  (forall q, q ∈ in_buffers L -> bs' !! q = <[p := b']> bs !! q) ->
  cargo deliveries bs' (all_buffers L) ≡ₚ deliveries (content x) ++ cargo deliveries (<[p := b']> bs) (all_buffers L) ->
  good (mkState ((st_switch s) <| m_pending_message_count ::= <[v := Z.pred pending]> |>) u bs' g).
Proof.
  intros Hk Hsw Hn Hd Hs Hp Hb Hh Hu Hpend Hst Hin Hcargo. pose proof (vnet_buffers_in L v p Hp) as Hpi.
  assert (Hq : forall ps, ps ⊆ in_buffers L -> NoDup ps -> queued bs' ps = queued (st_buffers s) ps - if decide (p ∈ ps) then 1 else 0).
  { intros ps Hps Hnd. rewrite <- (queued_same _ _ _ Hs). unfold queued at 1.
    rewrite (cargo_ext single (<[p := b']> bs)) by (intros; apply Hin; by apply Hps). fold (queued (<[p := b']> bs) ps).
    case_decide; [by eapply queued_take|]. unfold queued. rewrite cargo_insert_ne by done. lia. }
  exists (k + 1). split; [lia|]. unfold waiting, held in *. cbn. split; [|split].
  - destruct Hsw. split; cbn; try done; [by rewrite zlength_insert|].
    intros v' c Hv'. rewrite Hq; [|intros q; apply vnet_buffers_in|by apply vnet_buffers_NoDup].
    apply list_lookup_insert_Some in Hv' as [(<- & <- & _)|[Hne Hv']].
    + rewrite decide_True by done. rewrite (sw_pending0 _ _ Hpend). lia.
    + rewrite decide_False by (intros Hp'; apply Hne; by eapply vnet_buffers_inj). rewrite (sw_pending0 _ _ Hv'). lia.
  - rewrite Hq, decide_True by (done || by apply ins_distinct). lia.
  - rewrite Hcargo, <- Hd, <- (cargo_same deliveries _ _ _ Hs). symmetry. eapply cargo_insert; [apply (ly_distinct L HL)| |done..].
    apply elem_of_app. by left.
Qed.

Definition heap_length (s : State) (p : Z) : nat := match st_buffers s !! p with Some b => length (m_prio_heap b) | None => 0 end.

(** The links have room for the message that is ready: it moves. *)
Lemma send_spec k s v p b bs u g msg out :
  0 <= k -> switch_ok em now rs L k s -> k + waiting L s = N -> held L s ≡ₚ D -> Z.of_nat v < ly_vnets L ->
  p ∈ vnet_buffers L v -> same_store (st_buffers s) bs -> bs !! p = Some b -> due now b = true -> head (m_prio_heap b) = Some msg ->
  row <$> WeightBased.m_links u ≡ₚ ly_table L -> divided (Message.m_Destination msg) (WeightBased.m_links u) out ->
  (forall r, r ∈ out -> open_link k (Z.of_nat v) bs r) ->
  safe ('(taken, bs) ← on_buffer p (dequeue now now true) bs;
        pending ← valter Z.pred (m_pending_message_count (st_switch s)) (Z.of_nat v);
        let sw := (st_switch s) <| m_pending_message_count := pending |> in
        '(bs, g) ← send_all em now rs (Z.of_nat v) out taken msg sw bs g;
        Ok (true, mkState sw u bs g))
    (fun '(more, s') => good s' /\ more = true /\ heap_length s p = S (heap_length s' p)).
Proof.
  intros Hk Hsw Hn Hd Hv Hp Hs Hb Hdue Hx Hu Hdiv Ho. pose proof (vnet_buffers_in L v p Hp) as Hpi.
  assert (Hst : store_good k bs) by (eapply store_same; [done|apply (sw_store _ _ _ _ _ _ Hsw)]).
  assert (Hpa : p ∈ all_buffers L) by (apply elem_of_app; by left).
  apply safe_bind. eapply (dequeue_store_spec rs now); [exact Hst|exact Hpa|done..|]. intros x x' b' Hx' Hc Ht Ht' _ Hst' Hh.
  assert (x = msg) as -> by congruence. cbn [mbind res_bind].
  apply safe_bind, safe_valter; [rewrite (sw_counts _ _ _ _ _ _ Hsw); lia|]. rewrite Nat2Z.id. intros c Hc0.
  assert (Hq1 : 1 <= waiting L s).
  { pose proof (queued_take bs p b msg b' (in_buffers L) (ins_distinct L HL) Hpi Hb Hh) as Hqt. rewrite (queued_same _ _ _ Hs) in Hqt.
    unfold waiting. pose proof (queued_nonneg (<[p := b']> bs) (in_buffers L)). lia. }
  injection Hc as Hid Hsize Hdest. apply safe_bind.
  eapply safe_mono; [apply (send_all_spec k (Z.of_nat v) (Message.m_id msg)); try done|].
  - exact (sw_out _ _ _ _ _ _ Hsw).
  - lia.
  - eapply sublist_NoDup; [|exact (dv_links _ _ _ Hdiv)].
    replace (WeightBased.m_link_id <$> WeightBased.m_links u) with (row <$> WeightBased.m_links u).*1.*1
      by (rewrite <- !list_fmap_compose; done). rewrite Hu. apply (ly_ids L HL).
  - intros r (lat & q & b1 & Ha & Hb1 & Hr)%Ho. exists lat, q, b1. split; [done|]. split; [|done].
    rewrite lookup_insert_ne; [done|]. exact (in_not_out L HL p q lat Hpi (aims_out _ _ _ _ Ha)).
  - eapply store_later; [exact Hst'|lia].
  - intros [bs' g'] (Hst1 & Hin & Hcargo). cbn. split; [|split; [done|]].
    + eapply good_moved; try done. rewrite Hcargo. unfold deliveries at 2, content. cbn. by rewrite (dv_nodes _ _ _ Hdiv).
    + unfold heap_length. cbn. rewrite (Hin p Hpi), lookup_insert_eq. destruct (Hs p) as [b1 b2 Hal|]; [|done].
      injection Hb as ->. rewrite <- (al_heap _ _ Hal), Hh. done.
Qed.

Lemma operate_message_spec s v p : good s -> Z.of_nat v < ly_vnets L -> p ∈ vnet_buffers L v ->
  safe (operate_message em now rs isVNetOrdered p (Z.of_nat v) s)
    (fun '(more, s') => good s' /\ (more = true -> heap_length s p = S (heap_length s' p))).
Proof.
  intros Hg Hv Hp. assert (Hg' := Hg). destruct Hg' as (k & Hk & Hsw & Hn & Hd). pose proof (vnet_buffers_in L v p Hp) as Hpi.
  assert (Hpa : p ∈ all_buffers L) by (apply elem_of_app; by left).
  pose proof (sw_store _ _ _ _ _ _ Hsw) as Hst. unfold operate_message, current_time. rewrite clock_edge.
  apply safe_bind. eapply (ready_spec rs now); [exact Hst|exact Hpa|]. intros b bs1 Hb Hs1 He.
  destruct (due now b) eqn:Hdue; cbn [negb].
  2:{ cbn. split; [|done]. by eapply good_quiet; try apply Hsw. }
  rewrite (He eq_refl) in *. clear He Hs1. cbn [mbind res_bind]. unfold buffer_at. rewrite Hb. cbn [mbind res_bind].
  destruct (due_head now b Hdue) as (x & l & Hx). unfold peekMsgPtr, front. rewrite Hx. cbn [mbind res_bind].
  destruct (so_accept _ _ _ _ _ _ _ Hst p b x Hpa Hb) as [[Hsz Hcov] _]; [rewrite Hx; by left|done|].
  apply safe_bind. eapply safe_mono; [apply vnets_known; lia|]. intros det _.
  apply safe_bind. eapply safe_mono; [by apply (route_spec k x det); try apply Hsw|]. intros [[[out u] bs2] g2] (Hu & Hs2 & Hdiv).
  apply safe_bind. eapply safe_mono; [apply (enough_slots_spec k (Z.of_nat v) out (st_switch s) bs2); [apply Hsw|by eapply store_same|]|].
  { intros r Hr. eapply serves_aims; [exact Hu|lia|]. by apply (proj1 (list.Forall_forall _ _) (dv_serves _ _ _ Hdiv)). }
  intros [enough bs3] (Hs3 & Ho). assert (Hs : same_store (st_buffers s) bs3) by (by etrans).
  destruct enough; cbn [negb].
  - destruct (same_lookup _ _ _ _ Hs Hb) as (b3 & Hb3 & Hal). cbn [st_switch].
    eapply safe_mono; [eapply (send_spec k s v p b3 bs3 u g2 x out); try done|].
    + by rewrite (alike_due _ _ _ Hal).
    + by rewrite (al_heap _ _ Hal), Hx.
    + intros r Hr. eapply open_link_same; [exact Hs3|]. by apply Ho.
    + intros [more s'] (? & _ & ?). by split.
  - apply safe_bind. eapply safe_mono; [apply (Consumer.scheduleEvent_safe em now); [done..|apply Hsw|lia]|].
    intros c Hc. cbn. split; [|done]. by eapply good_quiet; try apply Hsw; [..|apply Consumer.wf_waking].
Qed.

Lemma operate_messages_spec v p : Z.of_nat v < ly_vnets L -> p ∈ vnet_buffers L v -> forall fuel s, good s -> (heap_length s p < fuel)%nat ->
  safe (operate_messages em now rs isVNetOrdered fuel p (Z.of_nat v) s) good.
Proof.
  intros Hv Hp. induction fuel as [|fuel IH]; intros s Hg Hf; [lia|]. cbn [operate_messages].
  apply safe_bind. eapply safe_mono; [by apply operate_message_spec|]. intros [[] s'] [Hg' Hlen]; [|done].
  apply IH; [done|]. specialize (Hlen eq_refl). lia.
Qed.

Lemma operateMessageBuffer_spec v p s : Z.of_nat v < ly_vnets L -> p ∈ vnet_buffers L v -> good s ->
  safe (operateMessageBuffer em now rs isVNetOrdered p (Z.of_nat v) s) good.
Proof.
  intros Hv Hp Hg. assert (Hg' := Hg). destruct Hg' as (k & _ & Hsw & _ & _). unfold operateMessageBuffer, buffer_at.
  destruct (so_good _ _ _ _ _ _ _ (sw_store _ _ _ _ _ _ Hsw) p) as (b & Hb & _).
  { apply elem_of_app. left. by eapply vnet_buffers_in. }
  rewrite Hb. cbn [mbind res_bind]. apply operate_messages_spec; [done..|]. unfold heap_length. rewrite Hb. lia.
Qed.

Lemma start_port_spec v ins s : good s -> (forall p, p ∈ ins -> p ∈ vnet_buffers L v) ->
  safe (start_port ins (st_buffers s)) (fun i => 0 <= i /\ (ins <> [] -> i < zlength ins)).
Proof.
  intros (k & _ & Hsw & _ & _) Hin. unfold start_port. apply safe_bind.
  eapply safe_mono; [apply (safe_for (fun j '(start, _) => 0 <= start /\ (start = 0 \/ start < j)))|].
  - lia.
  - intros j [start low] Hj Hst. apply safe_bind, safe_vget; [unfold zlength; lia|]. intros p Hp%list_elem_of_lookup_2.
    destruct (so_good _ _ _ _ _ _ _ (sw_store _ _ _ _ _ _ Hsw) p) as (b & Hb & _).
    { apply elem_of_app. left. eapply vnet_buffers_in. by apply Hin. }
    unfold buffer_at. rewrite Hb. cbn [mbind res_bind]. destruct (_ <? _); cbn; lia.
  - intros [start low] Hst. cbn. split; [lia|]. intros Hne. unfold zlength. destruct ins; [done|]. cbn [length] in *. lia.
Qed.

Lemma operateVnet_spec v s : Z.of_nat v < ly_vnets L -> good s ->
  safe (operateVnet em now rs isVNetOrdered (Z.of_nat v) s) good.
Proof.
  intros Hv Hg. assert (Hg' := Hg). destruct Hg' as (k & _ & Hsw & _ & _). unfold operateVnet.
  apply safe_bind, safe_vget; [rewrite (sw_counts _ _ _ _ _ _ Hsw); lia|]. rewrite Nat2Z.id. intros c Hc%(sw_pending _ _ _ _ _ _ Hsw).
  destruct (Z.eqb_spec c 0) as [|Hne]; [done|]. rewrite (sw_groups _ _ _ _ _ _ Hsw).
  destruct (ly_groups L !! v) as [gs|] eqn:Hgs.
  2:{ exfalso. apply Hne. rewrite Hc. unfold vnet_buffers. by rewrite Hgs. }
  assert (vget (ly_groups L) (Z.of_nat v) = Ok gs) as -> by (unfold vget; rewrite decide_True by lia; by rewrite Nat2Z.id, Hgs). cbn [mbind res_bind].
  apply (safe_for_each (fun _ => good)); [done|]. intros pre ins post s1 -> Hg1.
  assert (Hin : forall p, p ∈ ins -> p ∈ vnet_buffers L v).
  { intros p Hp. unfold vnet_buffers. rewrite Hgs. cbn. apply list_elem_of_In, in_concat. exists ins.
    split; [apply in_elt|by apply list_elem_of_In]. }
  apply safe_bind. eapply safe_mono; [by eapply start_port_spec|]. intros start [Hs0 Hs1].
  apply (safe_for (fun _ => good)); [done|]. intros j s2 Hj Hg2.
  assert (0 < zlength ins) as Hlen by (unfold zlength; lia). pose proof (Z.rem_bound_pos (j + start) (zlength ins)) as Hrem.
  apply safe_bind, safe_vget; [lia|]. intros p Hp%list_elem_of_lookup_2. apply operateMessageBuffer_spec; [done|by apply Hin|done].
Qed.

Lemma wakeup_spec s : good s -> safe (wakeup em now rs isVNetOrdered s) good.
Proof.
  intros Hg. unfold wakeup. cbn zeta. set (s1 := s <| st_switch := _ |>).
  assert (Hg1 : good s1) by (destruct Hg as (k & Hk & Hsw & Hr); exists k; split; [done|]; split; [|done]; destruct Hsw; by split).
  assert (m_virtual_networks (st_switch s1) = ly_vnets L) as -> by (destruct Hg1 as (k & _ & Hsw & _); apply Hsw).
  apply (safe_for_each (fun _ => good)); [done|]. intros pre v post s2 Hv Hg2.
  assert (v ∈ seqZ 0 (ly_vnets L)) as Hin%elem_of_seqZ.
  { assert (v ∈ if PRIORITY_SWITCH_LIMIT <? m_wakeups_wo_switch (st_switch s) + 1 then seqZ 0 (ly_vnets L) else rev (seqZ 0 (ly_vnets L))) as Hin
      by (rewrite Hv; set_solver). case_match; [done|]. by apply list_elem_of_In, in_rev, list_elem_of_In. }
  replace v with (Z.of_nat (Z.to_nat v)) by lia. apply operateVnet_spec; [lia|done].
Qed.
End step.

(** ** The theorem *)

(** C8: a wakeup of a switch of the simple network ends without a failed
    assertion, keeps the invariant of the switch (the counts of pending
    messages, the bounds of the buffers, and that the messages on a link are for
    destinations that the link serves), and the buffers hold the same pairs of
    a message and a destination node before and after: messages that are
    divided over several links are neither lost nor delivered twice. *)
Theorem switch_wakeup_delivers
    `{!StdSort WeightBased.LinkInfo WeightBased.link_lt, !StdSortOk WeightBased.LinkInfo WeightBased.link_lt}
    `{!StdHeap Message.t Message.gt, !StdHeapOk Message.t Message.gt} `{MachineTypes, !MachineTypesOk}
    (em : Clocked.t) (now : Z) (rs : RubySystem) (isVNetOrdered : Z -> res bool) (L : Layout) (k : Z) (s : State) :
  layout_ok L -> Clocked.wf now em -> Clocked.clockEdge now 0 em = now -> 0 <= now < 2 ^ 64 - 119 ->
  (forall vnet, 0 <= vnet < ly_vnets L -> safe (isVNetOrdered vnet) (fun _ => True)) ->
  0 <= k -> k + waiting L s < 2 ^ 31 - 1 -> switch_ok em now rs L k s ->
  exists s', wakeup em now rs isVNetOrdered s = Ok s' /\
    switch_ok em now rs L (k + (waiting L s - waiting L s')) s' /\ held L s' ≡ₚ held L s.
Proof.
  intros HL Hclk Hedge Hnow Hord Hk Hn Hsw.
  destruct (safe_inv _ _ (wakeup_spec em now rs isVNetOrdered L HL Hclk Hedge Hnow Hord (k + waiting L s) (held L s) Hn s
    (ex_intro _ k (conj Hk (conj Hsw (conj eq_refl (Permutation_refl _))))))) as (s' & Hw & k' & Hk' & Hsw' & Hn' & Hd').
  exists s'. split; [done|]. split; [|done]. by replace (k + (waiting L s - waiting L s')) with k' by lia.
Qed.

(** One input and two outputs, with a message for both of them. *)
Definition fork_dest (bits : Z) : NetDest.t := [RSet.mk 16 bits; RSet.mk 16 0].
Definition fork : State :=
  mkState (PerfectSwitch.mk 0 [[Some 0]] [mkOutputPort 1 [1]; mkOutputPort 1 [2]] [[0]] [[[0]]] 1 0 [1] Consumer.new)
    (WeightBased.mk false [WeightBased.mkLinkInfo 0 (fork_dest 1) [1] 0 1; WeightBased.mkLinkInfo 1 (fork_dest 2) [2] 0 1])
    (list_to_map [(0, plain_buffer [Message.new 7 MessageSizeType_Control (fork_dest 3) 1]); (1, plain_buffer []); (2, plain_buffer [])])
    (mkRng (fun _ => 0) 0).
Definition fork_system : RubySystem := mkRubySystem false false 6.

Lemma fork_sized bits : @NetDest.sized two_machines (fork_dest bits).
Proof. split; [done|]. intros [|[|m]] r; cbn; by intros [= <-]. Qed.

Lemma fork_layout : @layout_ok two_machines (layout_of fork).
Proof.
  split.
  - apply (bool_decide_unpack _). vm_compute. done.
  - apply (bool_decide_unpack _). vm_compute. done.
  - repeat constructor; try apply fork_sized; cbn; unfold zlength; cbn; try lia; eauto.
  - done.
Qed.

Lemma fork_mem bits m i : NetDest.mem (fork_dest bits) m i -> m = 0 /\ 0 <= i /\ Z.testbit bits i = true.
Proof.
  intros (Hm & r & Hr & Hi & Hb). destruct (Z.to_nat m) as [|[|k]] eqn:E; cbn in Hr; [|injection Hr as <-; by rewrite Z.bits_0 in Hb|done].
  injection Hr as <-. split; [lia|done].
Qed.

Lemma fork_ok : @switch_ok (sorted_heap Message.gt) two_machines (Clocked.new 1) 2 fork_system (layout_of fork) 0 fork.
Proof.
  split; try done.
  - split.
    + intros p Hp. cbn in Hp. repeat (apply elem_of_cons in Hp as [->|Hp]; [eexists; split; [reflexivity|]; split; [apply plain_buffer_ok; cbn; lia|done]|]).
      by apply not_elem_of_nil in Hp.
    + intros q d b Hq Hb. cbn in Hq. repeat (apply elem_of_cons in Hq as [[= -> ->]|Hq];
        [vm_compute in Hb; injection Hb as <-; split; cbn; [done|lia|lia|lia]|]). by apply not_elem_of_nil in Hq.
    + intros p b m Hp Hb Hm. cbn in Hp. apply elem_of_cons in Hp as [->|Hp].
      * vm_compute in Hb. injection Hb as <-. apply list_elem_of_singleton in Hm as ->. split.
        -- intros _. split; [apply fork_sized|]. cbn. intros m i (-> & Hi & Hb)%fork_mem.
           assert (i = 0 \/ i = 1) as [-> | ->].
           { destruct (decide (i < 2)); [lia|]. rewrite Z.bits_above_log2 in Hb; [done|lia|cbn; lia]. }
           ++ exists (0, fork_dest 1, [1]). split; [by left|]. split; [lia|]. by exists (RSet.mk 16 1).
           ++ exists (1, fork_dest 2, [2]). split; [by right; left|]. split; [lia|]. by exists (RSet.mk 16 2).
        -- intros r Hr Hp. cbn in Hr. repeat (apply elem_of_cons in Hr as [->|Hr]; [by apply list_elem_of_singleton in Hp|]).
           by apply not_elem_of_nil in Hr.
      * repeat (apply elem_of_cons in Hp as [->|Hp]; [vm_compute in Hb; injection Hb as <-; by apply not_elem_of_nil in Hm|]).
        by apply not_elem_of_nil in Hp.
  - intros [|v] c; cbn; [by intros [= <-]|done].
  - split; [by repeat constructor|]. done.
Qed.

Lemma switch_wakeup_delivers_witness :
  exists s', @wakeup (insertion_sort _) (sorted_heap Message.gt) two_machines (Clocked.new 1) 2 fork_system (fun _ => Ok true) fork = Ok s' /\
    @switch_ok (sorted_heap Message.gt) two_machines (Clocked.new 1) 2 fork_system (layout_of fork) (1 - waiting (layout_of fork) s') s' /\
    @held two_machines (layout_of fork) s' ≡ₚ [(7, 0); (7, 1)].
Proof.
  apply (@switch_wakeup_delivers (insertion_sort _) link_sort_ok (sorted_heap Message.gt) message_heap_ok two_machines two_machines_ok
    (Clocked.new 1) 2 fork_system (fun _ => Ok true) (layout_of fork) 0 fork).
  - exact fork_layout.
  - split; cbn; lia.
  - reflexivity.
  - lia.
  - done.
  - lia.
  - vm_compute. done.
  - exact fork_ok.
Defined.
