(* ===== verification/ThrottleProofs.v ===== *)
(** * ThrottleProofs: a link of the simple network keeps to its bandwidth

    The invariant of a throttle with its buffers, and the theorem that a wakeup
    ends, moves messages without losing any, pays for them exactly what it
    takes from the bandwidth of the link, and comes back when work is left. *)

From stdpp Require Import gmap.
From S2P Require Import Prelude CFloat NetDest CommonTypes Clock Heap MessageBuffer MessageBufferProofs SimpleSwitch BufferStore.
Import MessageBuffer Throttle.

(** ** Sums *)

Notation zsum := (foldr Z.add 0).

Lemma zsum_app l1 l2 : zsum (l1 ++ l2) = zsum l1 + zsum l2.
Proof. induction l1 as [|x l1 IH]; cbn; [done|]. rewrite IH. lia. Qed.

Lemma zsum_perm l1 l2 : l1 ≡ₚ l2 -> zsum l1 = zsum l2.
Proof. induction 1; cbn; lia. Qed.

Lemma zsum_nonneg l : Forall (Z.le 0) l -> 0 <= zsum l.
Proof. induction 1; cbn; lia. Qed.

Lemma zsum_insert l i x y : l !! i = Some x -> zsum (<[i := y]> l) = zsum l + y - x.
Proof.
  revert i. induction l as [|z l IH]; intros [|i] Hi; try done.
  - injection Hi as ->. cbn. lia.
  - change (z + zsum (<[i := y]> l) = z + zsum l + y - x). rewrite (IH i Hi). lia.
Qed.

Lemma zsum_rows (rows : list (list Z)) v row row' : rows !! v = Some row ->
  zsum (concat (<[v := row']> rows)) = zsum (concat rows) + zsum row' - zsum row.
Proof.
  revert v. induction rows as [|r rows IH]; intros [|v] Hv; try done.
  - injection Hv as ->. cbn. rewrite !zsum_app. lia.
  - change (zsum (r ++ concat (<[v := row']> rows)) = zsum (r ++ concat rows) + zsum row' - zsum row).
    rewrite !zsum_app, (IH v Hv). lia.
Qed.

(** ** Vectors of pointers *)

Lemma pointer_elem (l : list (option Z)) i p : l !! i = Some (Some p) -> p ∈ omap id l.
Proof. intros Hl%list_elem_of_lookup_2. apply list_elem_of_omap. by exists (Some p). Qed.

Lemma NoDup_pointers (l : list (option Z)) i j p : NoDup (omap id l) -> l !! i = Some (Some p) -> l !! j = Some (Some p) -> i = j.
Proof.
  revert i j. induction l as [|x l IH]; intros [|i] [|j] Hnd Hi Hj; try done; cbn in Hnd, Hi, Hj.
  - injection Hi as ->. cbn in Hnd. apply list.NoDup_cons in Hnd as [Hn _]. exfalso. by eapply Hn, pointer_elem.
  - injection Hj as ->. cbn in Hnd. apply list.NoDup_cons in Hnd as [Hn _]. exfalso. by eapply Hn, pointer_elem.
  - f_equal. apply IH; [|done..]. destruct x; [by apply list.NoDup_cons in Hnd as [_ ?]|done].
Qed.

Section throttle.
Context `{!StdHeap Message.t Message.gt, !StdHeapOk Message.t Message.gt}.
Context (em : Clocked.t) (now : Z) (rs : RubySystem) (MessageSizeType_to_int : MessageSizeType -> res Z).

(** ** The invariant *)

Definition link_latency (h : t) : Z := Clocked.clockPeriod em * m_link_latency h.
Definition ins (h : t) : list Z := omap id (m_in h).
Definition outs (h : t) : list Z := omap id (m_out h).
Definition out_ports (h : t) : list (Z * Z) := (fun q => (q, link_latency h)) <$> outs h.
Definition ends (h : t) : list Z := ins h ++ outs h.

(** The size of a message in units of bandwidth. *)
Definition units (c : Z * MessageSizeType * NetDest.t) : Z :=
  match MessageSizeType_to_int c.1.2 with Ok n => n * MESSAGE_SIZE_MULTIPLIER | Err _ => 0 end.
Definition sized_message (_ : Z) (c : Z * MessageSizeType * NetDest.t) : Prop :=
  safe (MessageSizeType_to_int c.1.2) (fun n => 0 <= n * MESSAGE_SIZE_MULTIPLIER < 2 ^ 31).

Definition good_store (h : t) : Z -> Buffers -> Prop := store_ok rs now (ends h) (out_ports h) sized_message.

Record throttle_ok (k : Z) (h : t) (bs : Buffers) : Prop := {
  th_in : zlength (m_in h) = m_vnets h;
  th_out : zlength (m_out h) = m_vnets h;
  th_vnets : 0 < m_vnets h;
  th_rows : zlength (m_units_remaining h) = m_vnets h;
  th_channels : forall v row, m_units_remaining h !! v = Some row ->
    getChannelCnt (Z.of_nat v) h = Ok (zlength row) /\ row <> [] /\ Forall (Z.le 0) row;
  th_bandwidth : forall v, 0 <= v < m_vnets h -> safe (getLinkBandwidth v h) (fun bw => 0 < bw);
  th_counts : forall ty, m_vnets h <= zlength (msg_counts (throttleStats h) ty);
  th_distinct : NoDup (ends h);
  th_store : good_store h k bs;
  th_consumer : Consumer.waking em now (consumer h);
}.

(** What is left to pay for messages on their way and for messages that wait. *)
Definition to_pay (h : t) (bs : Buffers) : Z := zsum (cargo (fun c => [units c]) bs (ins h)).
Definition backlog (h : t) (bs : Buffers) : Z := zsum (concat (m_units_remaining h)) + to_pay h bs.
Definition messages (h : t) (bs : Buffers) : list (Z * MessageSizeType * NetDest.t) := cargo (fun c => [c]) bs (ends h).

Definition due_at (bs : Buffers) (p : Z) : bool := match bs !! p with Some b => due now b | None => false end.
Definition room_at (bs : Buffers) (p : Z) : bool := match bs !! p with Some b => room now b | None => false end.

(** A channel with a message on its way or a message to take. *)
Definition busy (h : t) (bs : Buffers) : Prop := exists v c row n pin pout,
  m_in h !! v = Some (Some pin) /\ m_out h !! v = Some (Some pout) /\
  m_units_remaining h !! v = Some row /\ row !! c = Some n /\ (0 < n \/ due_at bs pin = true).

Lemma to_pay_same h bs bs' : same_store bs bs' -> to_pay h bs' = to_pay h bs.
Proof. intros Hs. unfold to_pay. by rewrite (cargo_same _ _ _ _ Hs). Qed.

Lemma due_at_same bs bs' p : same_store bs bs' -> due_at bs' p = due_at bs p.
Proof. intros Hs. unfold due_at. destruct (Hs p) as [b b' Ha|]; [by apply alike_due|done]. Qed.

Lemma room_at_same bs bs' p : same_store bs bs' -> room_at bs' p = room_at bs p.
Proof. intros Hs. unfold room_at. destruct (Hs p) as [b b' Ha|]; [by apply alike_room|done]. Qed.

(** ** Moving messages *)

Context (h0 : t) (N : Z) (D : list (Z * MessageSizeType * NetDest.t)).
Hypothesis clock_wf : Clocked.wf now em.
Hypothesis clock_edge : Clocked.clockEdge now 0 em = now.
Hypothesis now_range : 0 <= now < 2 ^ 64 - 119.
Hypothesis control_known : safe (MessageSizeType_to_int MessageSizeType_Control) (fun _ => True).
Hypothesis distinct : NoDup (ends h0).
Hypothesis N_range : N < 2 ^ 31 - 1.

(** [N] bounds the messages that moved or may still do so, [D] is what the buffers hold. *)
Definition sound (bs : Buffers) : Prop :=
  exists k, 0 <= k /\ good_store h0 k bs /\ k + queued bs (ins h0) = N /\ messages h0 bs ≡ₚ D.

Lemma sound_same bs bs' : same_store bs bs' -> sound bs -> sound bs'.
Proof.
  intros Hs (k & Hk & Hst & Hn & Hd). exists k. unfold messages in *. rewrite (queued_same _ _ _ Hs), (cargo_same _ _ _ _ Hs).
  split; [done|]. split; [by eapply store_same|done].
Qed.

Lemma port_latency q d d' : (q, d) ∈ out_ports h0 -> (q, d') ∈ out_ports h0 -> d' = d.
Proof. unfold out_ports. intros (? & [= _ ->] & _)%list_elem_of_fmap (? & [= _ ->] & _)%list_elem_of_fmap. done. Qed.

(** The fields of a throttle that a wakeup does not change. *)
Record same_throttle (h : t) : Prop := {
  st_in : m_in h = m_in h0;
  st_out : m_out h = m_out h0;
  st_vnets : m_vnets h = m_vnets h0;
  st_physical : m_physical_vnets h = m_physical_vnets h0;
  st_multiplier : m_link_bandwidth_multiplier h = m_link_bandwidth_multiplier h0;
  st_channels : m_vnet_channels h = m_vnet_channels h0;
  st_latency : m_link_latency h = m_link_latency h0;
  st_endpoint : m_endpoint_bandwidth h = m_endpoint_bandwidth h0;
  st_counts : forall ty, zlength (msg_counts (throttleStats h) ty) = zlength (msg_counts (throttleStats h0) ty);
  st_consumer : consumer h = consumer h0;
}.

Lemma count_message_spec vnet time m stats :
  (forall ty, vnet < zlength (msg_counts stats ty)) -> 0 <= vnet -> sized_message 0 (content m) ->
  safe (count_message em now MessageSizeType_to_int vnet time m stats)
    (fun s => forall ty, zlength (msg_counts s ty) = zlength (msg_counts stats ty)).
Proof.
  intros Hc Hv Hm. unfold count_message. apply safe_bind, safe_valter; [by split|]. intros n Hn. cbn in Hm.
  apply safe_inv in Hm as (size & Hsize & _). cbn in Hsize. rewrite Hsize. cbn [mbind res_bind]. apply safe_bind.
  eapply safe_mono; [exact control_known|]. intros control _. intros ty. cbn. case_bool_decide as E; [|done]. subst. by rewrite zlength_insert.
Qed.

Definition heap_length (bs : Buffers) (p : Z) : nat := match bs !! p with Some b => length (m_prio_heap b) | None => 0 end.

(** The accounts after message [x] went from [pin] to [pout]. *)
Lemma sound_moved k bs pin pout b b' bq bq' x m :
  0 <= k -> good_store h0 k bs -> k + queued bs (ins h0) = N -> messages h0 bs ≡ₚ D -> pin ∈ ins h0 -> pout ∈ outs h0 ->
  bs !! pin = Some b -> m_prio_heap b ≡ₚ x :: m_prio_heap b' ->
  <[pin := b']> bs !! pout = Some bq -> m_prio_heap bq' ≡ₚ m :: m_prio_heap bq -> content m = content x ->
  good_store h0 (k + 1) (<[pout := bq']> (<[pin := b']> bs)) ->
  sound (<[pout := bq']> (<[pin := b']> bs)) /\
  units (content x) + to_pay h0 (<[pout := bq']> (<[pin := b']> bs)) = to_pay h0 bs /\
  heap_length bs pin = S (heap_length (<[pout := bq']> (<[pin := b']> bs)) pin).
Proof.
  intros Hk Hst Hn Hd Hin Hout Hb Hh Hq Hhq Hc Hst'. pose proof distinct as (Hnd & Hdis & _)%list.NoDup_app.
  assert (Hpo : pout ∉ ins h0) by (intros Hp; by apply (Hdis pout)). assert (Hne : pout <> pin) by (by intros ->).
  split; [|split].
  - exists (k + 1). split; [lia|]. split; [done|]. split.
    + unfold queued. rewrite cargo_insert_ne by done. pose proof (queued_take bs pin b x b' (ins h0) Hnd Hin Hb Hh) as Hqt. unfold queued in *. lia.
    + rewrite <- Hd. unfold messages. rewrite (cargo_put (fun c => [c]) _ pout bq bq' m), (cargo_insert (fun c => [c]) bs pin b b' x), Hc;
        (done || (apply elem_of_app; by left) || (apply elem_of_app; by right)).
  - unfold to_pay. rewrite cargo_insert_ne by done. rewrite (zsum_perm (cargo _ bs _) _ (cargo_insert _ bs pin b b' x _ Hnd Hin Hb Hh)). done.
  - unfold heap_length. rewrite Hb, lookup_insert_ne, lookup_insert_eq by done. by rewrite Hh.
Qed.

Lemma move_message_spec vnet pin pout h bs g :
  sound bs -> pin ∈ ins h0 -> pout ∈ outs h0 -> due_at bs pin = true -> room_at bs pout = true -> same_throttle h ->
  0 <= vnet -> (forall ty, vnet < zlength (msg_counts (throttleStats h0) ty)) ->
  safe (move_message em now rs MessageSizeType_to_int vnet pin pout h bs g) (fun '(u, h', bs', _) =>
    sound bs' /\ 0 <= u /\ u + to_pay h0 bs' = to_pay h0 bs /\ same_throttle h' /\ m_units_remaining h' = m_units_remaining h /\
    heap_length bs pin = S (heap_length bs' pin) /\ forall p, p <> pin -> p <> pout -> bs' !! p = bs !! p).
Proof.
  intros (k & Hk & Hst & Hn & Hd) Hin Hout Hdue Hroom Hh Hv Hcnt. unfold due_at in Hdue. unfold room_at in Hroom.
  assert (Hina : pin ∈ ends h0) by (apply elem_of_app; by left). assert (Houta : pout ∈ ends h0) by (apply elem_of_app; by right).
  assert (Hne : pin <> pout) by (pose proof distinct as (_ & Hdis & _)%list.NoDup_app; intros ->; by apply (Hdis pout)).
  destruct (bs !! pin) as [b|] eqn:Hb; [|done]. destruct (due_head now b Hdue) as (x & l & Hx).
  unfold move_message, buffer_at. rewrite Hb. cbn [mbind res_bind]. unfold peekMsgPtr, front. rewrite Hx. cbn [mbind res_bind].
  assert (Hsz : sized_message 0 (content x)) by (eapply (so_accept _ _ _ _ _ _ _ Hst pin b x); [done..|]; rewrite Hx; by left).
  assert (Hsz' := Hsz). apply safe_inv in Hsz' as (n & Hto & Hr). cbn in Hto. unfold network_message_to_size. rewrite Hto. cbn [mbind res_bind].
  rewrite imul_Ok by lia. cbn [mbind res_bind]. apply safe_bind. unfold current_time. rewrite clock_edge.
  eapply (dequeue_store_spec rs now); [exact Hst|exact Hina|done..|]. intros y x' b' Hy Hc Ht _ _ Hst1 Hperm.
  rewrite Hx in Hy. injection Hy as <-. rewrite lookup_insert_ne by done.
  destruct (so_good _ _ _ _ _ _ _ Hst pout Houta) as (bq & Hbq & Hokq & _). rewrite Hbq in Hroom |- *. cbn [mbind res_bind].
  rewrite (st_latency _ Hh). fold (link_latency h0).
  pose proof (queued_take bs pin b x b' (ins h0)) as Hqt. pose proof (queued_nonneg (<[pin := b']> bs) (ins h0)).
  pose proof distinct as (Hnd & _)%list.NoDup_app. rewrite Hqt in * by done.
  destruct (store_put rs now (ends h0) (out_ports h0) sized_message port_latency k (<[pin := b']> bs) pout (link_latency h0) bq x' g)
    as (bq' & g' & m & E & Hst2 & Hcm & Hpq); try done.
  { lia. } { eapply store_later; [exact Hst1|lia]. } { apply list_elem_of_fmap. eauto. }
  { by rewrite lookup_insert_ne. } { by rewrite Hc. }
  rewrite E. cbn [mbind res_bind]. apply safe_bind. eapply safe_mono.
  { apply (count_message_spec vnet (Message.m_LastEnqueueTime x) x' (throttleStats h)); [|done|by rewrite Hc].
    intros ty. rewrite (st_counts _ Hh). apply Hcnt. }
  intros stats Hstats. cbn [safe]. rewrite <- (lookup_insert_ne bs pin pout b') in Hbq by done.
  destruct (sound_moved k bs pin pout b b' bq bq' x m) as (Hs & Hp & Hl); try done; [congruence|].
  unfold units in Hp. cbn in Hp. rewrite Hto in Hp. split; [done|]. split; [lia|]. split; [done|]. split_and!; [|done..|].
  - destruct Hh. split; try done. intros ty. cbn. by rewrite Hstats.
  - intros p Hp1 Hp2. by rewrite !lookup_insert_ne.
Qed.

(** ** A channel *)

Lemma heap_length_same bs bs' p : same_store bs bs' -> heap_length bs' p = heap_length bs p.
Proof. intros Hs. unfold heap_length. destruct (Hs p) as [b b' Ha|]; [by rewrite (al_heap _ _ Ha)|done]. Qed.

Lemma ready_sound p bs (Q : bool * Buffers -> Prop) : sound bs -> p ∈ ends h0 ->
  (forall bs', same_store bs bs' -> Q (due_at bs p, bs')) -> safe (on_buffer p (isReady now) bs) Q.
Proof.
  intros (k & _ & Hst & _) Hp HQ. eapply (ready_spec rs now); [exact Hst|exact Hp|]. intros b bs' Hb Hs _.
  replace (due now b) with (due_at bs p) by (unfold due_at; by rewrite Hb). by apply HQ.
Qed.

Lemma room_sound p bs (Q : bool * Buffers -> Prop) : sound bs -> p ∈ ends h0 ->
  (forall bs', same_store bs bs' -> Q (room_at bs p, bs')) -> safe (on_buffer p (fun b => Ok (areNSlotsAvailable 1 now b)) bs) Q.
Proof.
  intros (k & _ & Hst & _) Hp HQ. eapply (room_spec rs now); [exact Hst|exact Hp|]. intros b bs' Hb Hs.
  replace (room now b) with (room_at bs p) by (unfold room_at; by rewrite Hb). by apply HQ.
Qed.

(** What remains of the message on its way, of the bandwidth of the channel and of
    the bandwidth of the link. *)
Record transferred (pin pout u bw total : Z) (rows : list (list Z)) (bs : Buffers) (u' bw' total' : Z) (h' : t) (bs' : Buffers) : Prop := {
  tr_sound : sound bs';
  tr_units : 0 <= u';
  tr_bw : 0 <= bw' <= bw;
  tr_total : total - total' = bw - bw';
  tr_paid : u' + to_pay h0 bs' + (bw - bw') = u + to_pay h0 bs;
  tr_same : same_throttle h';
  tr_rows : m_units_remaining h' = rows;
  tr_frame : forall p, p <> pin -> p <> pout -> due_at bs' p = due_at bs p;
  tr_exit : bw' = 0 \/ (due_at bs' pin = false /\ u' = 0) \/ room_at bs' pout = false;
}.

Section channel.
Context (vnet pin pout : Z).
Hypothesis vnet_pos : 0 <= vnet.
Hypothesis vnet_counts : forall ty, vnet < zlength (msg_counts (throttleStats h0) ty).
Hypothesis pin_in : pin ∈ ins h0.
Hypothesis pout_out : pout ∈ outs h0.

Lemma transferred_stop u bw total h bs bs' : sound bs -> same_store bs bs' -> 0 <= u -> 0 <= bw -> same_throttle h ->
  bw = 0 \/ (due_at bs pin = false /\ u = 0) \/ room_at bs pout = false ->
  transferred pin pout u bw total (m_units_remaining h) bs u bw total h bs'.
Proof.
  intros Hs Hsame Hu Hbw Hh He. split; rewrite ?(to_pay_same _ _ _ Hsame), ?(due_at_same _ _ _ Hsame), ?(room_at_same _ _ _ Hsame);
    try done; try lia; [by eapply sound_same|]. intros p _ _. by apply due_at_same.
Qed.

(** The message that is taken when none is on its way. *)
Lemma fetch_spec u h bs g : sound bs -> 0 <= u -> same_throttle h -> due_at bs pin || (0 <? u) = true -> room_at bs pout = true ->
  safe (if u =? 0 then
          '(ready, bs) ← on_buffer pin (isReady now) bs;
          if (ready : bool) then move_message em now rs MessageSizeType_to_int vnet pin pout h bs g else Ok (u, h, bs, g)
        else Ok (u, h, bs, g))
    (fun '(u', h', bs', _) => sound bs' /\ 0 <= u' /\ u' + to_pay h0 bs' = u + to_pay h0 bs /\ same_throttle h' /\
      m_units_remaining h' = m_units_remaining h /\
      (heap_length bs' pin + 1 <= heap_length bs pin + if (u =? 0)%Z then 0 else 1)%nat /\
      forall p, p <> pin -> p <> pout -> due_at bs' p = due_at bs p).
Proof.
  intros Hs Hu Hh Hpend Hroom. destruct (Z.eqb_spec u 0) as [->|Hne]; [|cbn; split_and!; done || lia].
  rewrite orb_false_r in Hpend. apply safe_bind. apply ready_sound; [done|apply elem_of_app; by left|]. intros bs1 Hs1.
  rewrite Hpend. eapply safe_mono; [apply (move_message_spec vnet pin pout h bs1 g); try done|].
  { by eapply sound_same. } { by rewrite (due_at_same _ _ _ Hs1). } { by rewrite (room_at_same _ _ _ Hs1). }
  intros [[[u1 h1] bs2] g1] (Hs2 & Hu1 & Hp & Hh1 & Hr & Hl & Hf).
  rewrite (to_pay_same _ _ _ Hs1) in Hp. rewrite (heap_length_same _ _ _ Hs1) in Hl. split_and!; try done; [lia|].
  intros p Hp1 Hp2. rewrite <- (due_at_same _ _ p Hs1). unfold due_at. by rewrite Hf.
Qed.

Lemma transfer_spec fuel : forall u bw total h bs g, sound bs -> 0 <= u -> 0 <= bw -> same_throttle h ->
  ((if (0 <? bw)%Z then heap_length bs pin + if (u =? 0)%Z then 0 else 1 else 0) < fuel)%nat ->
  safe (transfer em now rs MessageSizeType_to_int fuel vnet pin pout u bw total h bs g) (fun '(u', bw', total', h', bs', _) =>
    transferred pin pout u bw total (m_units_remaining h) bs u' bw' total' h' bs').
Proof.
  induction fuel as [|fuel IH]; intros u bw total h bs g Hs Hu Hbw Hh Hf; [lia|]. cbn [transfer].
  destruct (Z.ltb_spec 0 bw) as [Hpos|]; cbn [negb]; [|apply transferred_stop; try done; lia].
  unfold has_pending_work, current_time. rewrite clock_edge. apply safe_bind, safe_bind.
  apply ready_sound; [done|apply elem_of_app; by left|]. intros bs1 Hs1. cbn [safe].
  destruct (due_at bs pin || (0 <? u)) eqn:Hpend; cbn [negb].
  2:{ apply transferred_stop; try done. apply orb_false_elim in Hpend as [Hdue Hu0]. right; left. split; [done|lia]. }
  apply safe_bind. apply room_sound; [by eapply sound_same|apply elem_of_app; by right|]. intros bs2 Hs2.
  rewrite (room_at_same _ _ _ Hs1). assert (Hs12 : same_store bs bs2) by (by etrans).
  destruct (room_at bs pout) eqn:Hroom; cbn [negb]; [|apply transferred_stop; by auto].
  apply safe_bind. eapply safe_mono; [apply (fetch_spec u h bs2 g); try done|].
  { by eapply sound_same. } { by rewrite (due_at_same _ _ _ Hs12). } { by rewrite (room_at_same _ _ _ Hs12). }
  intros [[[u1 h1] bs3] g1] (Hs3 & Hu1 & Hp & Hh1 & Hr & Hl & Hfr).
  rewrite (to_pay_same _ _ _ Hs12) in Hp. rewrite (heap_length_same _ _ _ Hs12) in Hl.
  eapply safe_mono; [apply IH; try done; try lia|].
  - destruct (Z.ltb_spec 0 (bw - Z.min u1 bw)); [|lia]. destruct (Z.eqb_spec (u1 - Z.min u1 bw) 0); lia.
  - intros [[[[[u' bw'] total'] h'] bs'] g'] []. split; try done; try lia; [congruence|].
    intros p Hp1 Hp2. rewrite tr_frame0, Hfr by done. by apply due_at_same.
Qed.
End channel.

(** ** The loops *)

Context (B W : Z).

Definition flagged (s : State) : bool := bw_saturated s || output_blocked s.

(** The bandwidth of a channel of its own. *)
Definition channel_bw (v : Z) : Z := match getLinkBandwidth v h0 with Ok bw => bw | Err _ => 0 end.

Definition rows_ok (h : t) : Prop := zlength (m_units_remaining h) = m_vnets h0 /\
  forall v row, m_units_remaining h !! v = Some row -> getChannelCnt (Z.of_nat v) h0 = Ok (zlength row) /\ row <> [] /\ Forall (Z.le 0) row.

Record running (s : State) : Prop := {
  rn_same : same_throttle (st_throttle s);
  rn_rows : rows_ok (st_throttle s);
  rn_sound : sound (st_buffers s);
  rn_total : 0 <= total_bw_remaining s <= B;
  rn_paid : zsum (concat (m_units_remaining (st_throttle s))) + to_pay h0 (st_buffers s) + (B - total_bw_remaining s) = W;
}.

(** The first [j] channels of virtual network [v] have nothing to do, or there will be another wakeup. *)
Definition settled (s : State) (v j : nat) : Prop := flagged s = true \/ forall pin pout,
  m_in h0 !! v = Some (Some pin) -> m_out h0 !! v = Some (Some pout) ->
  (forall row c n, m_units_remaining (st_throttle s) !! v = Some row -> (c < j)%nat -> row !! c = Some n -> n = 0) /\
  ((0 < j)%nat -> due_at (st_buffers s) pin = false).

Lemma same_bandwidth h v : same_throttle h -> getLinkBandwidth v h = getLinkBandwidth v h0.
Proof. intros []. unfold getLinkBandwidth. by rewrite st_physical0, st_multiplier0, st_endpoint0. Qed.

Lemma same_channels h v : same_throttle h -> getChannelCnt v h = getChannelCnt v h0.
Proof. intros []. unfold getChannelCnt. by rewrite st_physical0, st_channels0. Qed.

(** The end of [operateVnet]: whether bandwidth or room ran out. *)
Lemma report_spec pin pout u bw total sat blk h bs g : sound bs -> pin ∈ ins h0 -> pout ∈ outs h0 -> 0 <= u ->
  bw = 0 \/ (due_at bs pin = false /\ u = 0) \/ room_at bs pout = false ->
  safe ('(pending, bs) ← has_pending_work em now u pin bs;
        if (pending : bool) then
          '(slot, bs) ← (if bw =? 0 then Ok (true, bs)
                         else on_buffer pout (fun b => Ok (areNSlotsAvailable 1 (current_time em now) b)) bs);
          _ ← assert ((bw =? 0) || negb slot);
          '(slot, bs) ← (if blk : bool then Ok (true, bs)
                         else on_buffer pout (fun b => Ok (areNSlotsAvailable 1 (current_time em now) b)) bs);
          Ok (mkState h bs g total (sat || (bw =? 0)) (blk || negb slot))
        else Ok (mkState h bs g total sat blk))
    (fun s' => st_throttle s' = h /\ total_bw_remaining s' = total /\ same_store bs (st_buffers s') /\
      (sat || blk = true -> flagged s' = true) /\ (flagged s' = true \/ (due_at bs pin = false /\ u = 0))).
Proof.
  intros Hs Hin Hout Hu Hexit. unfold has_pending_work, current_time. rewrite clock_edge. apply safe_bind, safe_bind.
  apply ready_sound; [done|apply elem_of_app; by left|]. intros bs1 Hs1. cbn [safe].
  destruct (due_at bs pin || (0 <? u)) eqn:Hpend.
  2:{ apply orb_false_elim in Hpend as [Hd Hu0]. cbn. split_and!; try done. right. split; [done|lia]. }
  assert (Hroom : bw <> 0 -> room_at bs pout = false).
  { intros Hne. destruct Hexit as [|[[Hd ->]|]]; [done| |done]. by rewrite Hd in Hpend. }
  apply safe_bind. eapply (safe_mono _ (fun '(slot, bs') => (bw =? 0) || negb slot = true /\ same_store bs bs')).
  { destruct (Z.eqb_spec bw 0); [done|]. apply room_sound; [by eapply sound_same|apply elem_of_app; by right|].
    intros bs2 Hs2. rewrite (room_at_same _ _ _ Hs1), Hroom by done. split; [done|by etrans]. }
  intros [slot bs2] [-> Hs2]. cbn [assert mbind res_bind]. apply safe_bind.
  eapply (safe_mono _ (fun '(slot, bs') => same_store bs bs' /\ (bw = 0 \/ blk || negb slot = true))).
  { destruct blk; [by split; [|right]|]. apply room_sound; [by eapply sound_same|apply elem_of_app; by right|].
    intros bs3 Hs3. rewrite (room_at_same _ _ _ Hs2). split; [by etrans|]. destruct (Z.eqb_spec bw 0); [by left|]. right. by rewrite Hroom. }
  intros [slot' bs3] [Hs3 Hf]. unfold flagged. cbn.
  assert (E : (sat || (bw =? 0)) || (blk || negb slot') = true) by (destruct Hf as [->| ->]; by rewrite ?orb_true_r).
  rewrite E. by auto 10.
Qed.

Lemma settled_step v c s s' pin pout row n n' :
  settled s v c -> m_in h0 !! v = Some (Some pin) -> m_out h0 !! v = Some (Some pout) ->
  m_units_remaining (st_throttle s) !! v = Some row -> row !! c = Some n ->
  m_units_remaining (st_throttle s') = <[v := <[c := n']> row]> (m_units_remaining (st_throttle s)) ->
  (flagged s = true -> flagged s' = true) -> (flagged s' = true \/ (due_at (st_buffers s') pin = false /\ n' = 0)) -> settled s' v (S c).
Proof.
  intros [Hf|Hset] Hin Hout Hrow Hn E Hfl [Hf'|[Hd ->]]; try (left; by auto). right. intros pin' pout' Hin' Hout'.
  assert (pin' = pin) as -> by congruence. destruct (Hset pin pout Hin Hout) as [Hz _]. split; [|done].
  intros row' c' m Hrow' Hc Hm. rewrite E, list_lookup_insert_eq in Hrow' by (by eapply lookup_lt_Some). injection Hrow' as <-.
  apply list_lookup_insert_Some in Hm as [(_ & <- & _)|[Hne Hm]]; [done|]. eapply Hz; [done| |done]. lia.
Qed.

Lemma settled_other v v' j s s' rows pin pout : v' <> v -> settled s v' j ->
  m_in h0 !! v = Some (Some pin) -> m_out h0 !! v = Some (Some pout) -> m_units_remaining (st_throttle s') = rows ->
  rows !! v' = m_units_remaining (st_throttle s) !! v' -> (flagged s = true -> flagged s' = true) ->
  (forall p, p <> pin -> p <> pout -> due_at (st_buffers s') p = due_at (st_buffers s) p) -> settled s' v' j.
Proof.
  intros Hne [Hf|Hset] Hin Hout <- E Hfl Hd; [left; by auto|]. right. intros pin' pout' Hin' Hout'.
  destruct (Hset pin' pout' Hin' Hout') as [Hz Hdue]. split; [intros row c n; rewrite E; apply Hz|]. intros Hj. rewrite Hd; [by apply Hdue|..].
  - intros ->. apply Hne. pose proof distinct as (Hnd & _)%list.NoDup_app. by eapply NoDup_pointers.
  - intros ->. pose proof distinct as (_ & Hdis & _)%list.NoDup_app. eapply (Hdis pout); by eapply pointer_elem.
Qed.

Hypothesis in_vnets : zlength (m_in h0) = m_vnets h0.
Hypothesis out_vnets : zlength (m_out h0) = m_vnets h0.
Hypothesis bandwidth_known : forall v, 0 <= v < m_vnets h0 -> safe (getLinkBandwidth v h0) (fun bw => 0 < bw).
Hypothesis counts_known : forall ty, m_vnets h0 <= zlength (msg_counts (throttleStats h0) ty).

Record stepped (v c : nat) (s s' : State) : Prop := {
  sp_running : running s';
  sp_total : m_physical_vnets h0 = true -> total_bw_remaining s - channel_bw (Z.of_nat v) <= total_bw_remaining s';
  sp_settled : settled s v c -> settled s' v (S c);
  sp_other : forall v' j, v' <> v -> settled s v' j -> settled s' v' j;
}.

Lemma stepped_idle v c s : running s -> 0 <= channel_bw (Z.of_nat v) ->
  (m_in h0 !! v = Some None \/ m_out h0 !! v = Some None) -> stepped v c s s.
Proof. intros Hr Hbw Hn. split; try done; [lia|]. intros _. right. intros pin pout Hin Hout. destruct Hn; congruence. Qed.

(** The new state after a transfer on channel [c]. *)
Lemma stepped_transfer v c s s' pin pout row u bw u' bw' total' h' bs' : running s ->
  m_in h0 !! v = Some (Some pin) -> m_out h0 !! v = Some (Some pout) ->
  m_units_remaining (st_throttle s) !! v = Some row -> row !! c = Some u ->
  bw <= total_bw_remaining s -> (m_physical_vnets h0 = true -> bw = channel_bw (Z.of_nat v)) ->
  transferred pin pout u bw (total_bw_remaining s) (m_units_remaining (st_throttle s)) (st_buffers s) u' bw' total' h' bs' ->
  st_throttle s' = h' <| m_units_remaining := <[v := <[c := u']> row]> (m_units_remaining (st_throttle s)) |> ->
  total_bw_remaining s' = total' -> same_store bs' (st_buffers s') ->
  (flagged s = true -> flagged s' = true) -> (flagged s' = true \/ (due_at bs' pin = false /\ u' = 0)) -> stepped v c s s'.
Proof.
  intros [] Hin Hout Hrow Hu Hbw Hphys [] Eh Et Hs Hfl Hset.
  assert (Erows : m_units_remaining (st_throttle s') = <[v := <[c := u']> row]> (m_units_remaining (st_throttle s))) by (by rewrite Eh).
  destruct rn_rows0 as [Hlen Hrows]. split.
  - split; rewrite ?Et, ?Erows, ?(to_pay_same _ _ _ Hs); try lia.
    + rewrite Eh. destruct tr_same0. by split.
    + split; rewrite Erows; [by rewrite zlength_insert|]. intros w r [(<- & <- & _)|[_ Hw]]%list_lookup_insert_Some; [|by apply Hrows].
      destruct (Hrows _ _ Hrow) as (? & Hne & Hpos). rewrite zlength_insert. split; [done|]. split.
      * intros E. apply (f_equal length) in E. rewrite length_insert in E. by destruct row.
      * by apply Forall_insert.
    + by eapply sound_same.
    + rewrite (zsum_rows _ _ _ _ Hrow), (zsum_insert _ _ _ _ Hu). lia.
  - intros Hp. rewrite Et, <- (Hphys Hp). lia.
  - intros Hse. eapply (settled_step v c s s'); try done. by rewrite (due_at_same _ _ _ Hs).
  - intros v' j Hne Hse. eapply (settled_other v v' j s s'); try done; [by rewrite list_lookup_insert_ne|].
    intros p Hp1 Hp2. rewrite (due_at_same _ _ _ Hs). by apply tr_frame0.
Qed.

Lemma channel_step_spec v c s : running s -> Z.of_nat v < m_vnets h0 -> Z.of_nat c < zlength (default [] (m_units_remaining (st_throttle s) !! v)) ->
  (m_physical_vnets h0 = true -> channel_bw (Z.of_nat v) <= total_bw_remaining s) ->
  safe (operateVnet em now rs MessageSizeType_to_int (Z.of_nat v) (Z.of_nat c) s) (stepped v c s).
Proof.
  intros Hr Hv Hc Hbud. assert (Hr' := Hr). destruct Hr' as [Hsame [Hlen Hrows] Hsound Htot _].
  pose proof (bandwidth_known (Z.of_nat v) ltac:(lia)) as (cbw & Ecbw & Hcbw)%safe_inv.
  assert (Hch : channel_bw (Z.of_nat v) = cbw) by (unfold channel_bw; by rewrite Ecbw).
  unfold operateVnet. rewrite (st_in _ Hsame), (st_out _ Hsame).
  apply safe_bind, safe_vget; [lia|]. rewrite Nat2Z.id. intros pin Hin.
  apply safe_bind, safe_vget; [lia|]. rewrite Nat2Z.id. intros pout Hout.
  destruct pin as [pin|]; [|apply stepped_idle; [done|lia|by left]]. destruct pout as [pout|]; [|apply stepped_idle; [done|lia|by right]].
  apply safe_bind, safe_vget; [lia|]. rewrite Nat2Z.id. intros row Hrow. rewrite Hrow in Hc. cbn in Hc.
  apply safe_bind, safe_vget; [lia|]. rewrite Nat2Z.id. intros u Hu.
  destruct (Hrows _ _ Hrow) as (_ & _ & Hpos). pose proof (proj1 (Forall_lookup _ _) Hpos _ _ Hu) as Hu0. cbn in Hu0.
  rewrite (proj2 (Z.leb_le 0 u)) by done. cbn [assert mbind res_bind]. rewrite (same_bandwidth _ _ Hsame), (st_physical _ Hsame), Ecbw.
  apply safe_bind. eapply (safe_mono _ (fun bw => 0 <= bw <= total_bw_remaining s /\ (m_physical_vnets h0 = true -> bw = cbw))).
  { rewrite Hch in Hbud. destruct (m_physical_vnets h0); cbn; [split; [split; [lia|by apply Hbud]|done]|lia]. }
  intros bw [Hbw Hphys]. assert (Hpin : pin ∈ ins h0) by (by eapply pointer_elem). assert (Hpout : pout ∈ outs h0) by (by eapply pointer_elem).
  destruct Hsound as (k & Hk & Hst & Hrest). destruct (so_good _ _ _ _ _ _ _ Hst pin) as (b & Hb & _); [apply elem_of_app; by left|].
  unfold buffer_at. rewrite Hb. cbn [mbind res_bind]. apply safe_bind.
  eapply safe_mono; [apply (transfer_spec (Z.of_nat v) pin pout); try done; try lia|].
  { intros ty. pose proof (counts_known ty). lia. } { by exists k. }
  { unfold heap_length. rewrite Hb. repeat case_match; lia. }
  intros [[[[[u' bw'] total'] h'] bs'] g'] Htr. pose proof (tr_rows _ _ _ _ _ _ _ _ _ _ _ _ Htr) as Er.
  pose proof (tr_units _ _ _ _ _ _ _ _ _ _ _ _ Htr). pose proof (tr_bw _ _ _ _ _ _ _ _ _ _ _ _ Htr). pose proof (tr_total _ _ _ _ _ _ _ _ _ _ _ _ Htr).
  apply safe_bind, safe_vset; [lia|]. rewrite Er. apply safe_bind, safe_vset; [lia|]. rewrite !Nat2Z.id.
  rewrite (proj2 (Z.leb_le 0 u')), (proj2 (Z.leb_le 0 bw')), (proj2 (Z.leb_le 0 total')) by lia. cbn [assert mbind res_bind].
  eapply safe_mono; [apply (report_spec pin pout u' bw' total' (bw_saturated s) (output_blocked s)); try done; by apply Htr|].
  intros s' (E1 & E2 & Hs' & Hfl & Hset). rewrite <- Hch in Hphys.
  eapply (stepped_transfer v c s s' pin pout row u bw u' bw' total' h' bs'); try done; lia.
Qed.

Definition channel_count (v : Z) : Z := match getChannelCnt v h0 with Ok n => n | Err _ => 0 end.
Definition demand (v : Z) : Z := channel_bw v * channel_count v.

Lemma operate_channels_spec v s : running s -> Z.of_nat v < m_vnets h0 ->
  (m_physical_vnets h0 = true -> demand (Z.of_nat v) <= total_bw_remaining s) ->
  safe (operate_channels em now rs MessageSizeType_to_int (Z.of_nat v) s) (fun s' => running s' /\
    (m_physical_vnets h0 = true -> total_bw_remaining s - demand (Z.of_nat v) <= total_bw_remaining s') /\
    settled s' v (Z.to_nat (channel_count (Z.of_nat v))) /\ forall v' j, v' <> v -> settled s v' j -> settled s' v' j).
Proof.
  intros Hr Hv Hbud. assert (Hr' := Hr). destruct Hr' as [Hsame [Hlen Hrows] _ _ _]. unfold zlength in Hlen.
  destruct (lookup_lt_is_Some_2 (m_units_remaining (st_throttle s)) v) as [row Hrow]; [lia|]. destruct (Hrows _ _ Hrow) as (Hn & _ & _).
  unfold operate_channels. rewrite (same_channels _ _ Hsame), Hn. cbn [mbind res_bind]. unfold demand, channel_count in *. rewrite Hn in *.
  pose proof (bandwidth_known (Z.of_nat v) ltac:(lia)) as (bw & Ebw & Hbw)%safe_inv. unfold channel_bw in *. rewrite Ebw in *.
  eapply safe_mono; [apply (safe_for (fun j s' => running s' /\ (m_physical_vnets h0 = true -> total_bw_remaining s - bw * j <= total_bw_remaining s') /\
    settled s' v (Z.to_nat j) /\ forall v' i, v' <> v -> settled s v' i -> settled s' v' i))|].
  - split; [done|]. split; [intros; lia|]. split; [|done]. right. intros pin pout _ _. split; [intros; lia|lia].
  - intros j s1 Hj (Hr1 & Hb1 & Hset & Hoth). replace j with (Z.of_nat (Z.to_nat j)) by lia.
    assert (Hr1' := Hr1). destruct Hr1' as [Hsame1 [Hlen1 Hrows1] _ _ _]. unfold zlength in Hlen1.
    destruct (lookup_lt_is_Some_2 (m_units_remaining (st_throttle s1)) v) as [row1 Hrow1]; [lia|]. destruct (Hrows1 _ _ Hrow1) as (Hn1 & _ & _).
    rewrite Hn1 in Hn. injection Hn as Hn.
    eapply safe_mono; [apply channel_step_spec; [done..| |]|].
    + rewrite Hrow1. cbn. lia.
    + intros Hp. unfold channel_bw. rewrite Ebw. specialize (Hb1 Hp). specialize (Hbud Hp). nia.
    + intros s2 []. unfold channel_bw in sp_total0. rewrite Ebw in sp_total0. split; [done|]. split.
      * intros Hp. specialize (Hb1 Hp). specialize (sp_total0 Hp). lia.
      * split; [|intros v' i Hne Hse; apply sp_other0; [done|]; by apply Hoth].
        replace (Z.to_nat (Z.of_nat (Z.to_nat j) + 1)) with (S (Z.to_nat j)) by lia. by apply sp_settled0.
  - intros s' (Hr1 & Hb1 & Hset & Hoth). rewrite Z.add_0_l, Z2Nat.id in * by apply zlength_nonneg. done.
Qed.

Definition vnet_numbers : list Z := seqZ 0 (m_vnets h0).

Hypothesis channels_known : forall v, 0 <= v < m_vnets h0 -> safe (getChannelCnt v h0) (fun n => 0 < n).
Hypothesis vnets_pos : 0 < m_vnets h0.

Lemma demand_pos v : 0 <= v < m_vnets h0 -> 0 < demand v.
Proof.
  intros Hv. unfold demand, channel_bw, channel_count. destruct (safe_inv _ _ (bandwidth_known v Hv)) as (bw & -> & ?).
  destruct (safe_inv _ _ (channels_known v Hv)) as (n & -> & ?). lia.
Qed.

Lemma total_demand : getTotalLinkBandwidth h0 = Ok B ->
  0 < B /\ (m_physical_vnets h0 = true -> zsum (demand <$> vnet_numbers) = B).
Proof.
  unfold getTotalLinkBandwidth, vnet_numbers. intros (bw & Ebw & (n & En & (sum & Es%imul_inv & Ht)%bind_Ok)%bind_Ok)%bind_Ok.
  assert (E0 : sum = demand 0) by (unfold demand, channel_bw, channel_count; by rewrite Ebw, En).
  pose proof (demand_pos 0 ltac:(lia)) as H0. destruct (m_physical_vnets h0); [|injection Ht as <-; split; [lia|done]].
  apply (for_Ok (fun i sum => 0 < sum /\ zsum (demand <$> seqZ 0 i) = sum)) in Ht.
  - rewrite Z2Nat.id in Ht by lia. replace (1 + (m_vnets h0 - 1)) with (m_vnets h0) in Ht by lia. destruct Ht. by split.
  - rewrite E0. split; [done|]. change (demand 0 + 0 = demand 0). lia.
  - intros i x x' Hi (Hpos & Hx) Hf. apply bind_Ok in Hf as (bw1 & E1 & Hf). apply bind_Ok in Hf as (n1 & E2 & Hf).
    apply bind_Ok in Hf as (y & ->%imul_inv & ->%iadd_inv). pose proof (demand_pos i ltac:(lia)) as Hd.
    assert (Ed : demand i = bw1 * n1) by (unfold demand, channel_bw, channel_count; by rewrite E1, E2). rewrite Ed in Hd. split; [lia|].
    replace (i + 1) with (Z.of_nat (S (Z.to_nat i))) by lia. rewrite seqZ_S, Z2Nat.id, Z.add_0_l, fmap_app, zsum_app by lia. cbn. lia.
Qed.

Lemma vnets_spec l s : l ≡ₚ vnet_numbers -> getTotalLinkBandwidth h0 = Ok B -> running s -> total_bw_remaining s = B ->
  safe (for_each l (operate_channels em now rs MessageSizeType_to_int) s) (fun s' => running s' /\
    forall v, 0 <= v < m_vnets h0 -> settled s' (Z.to_nat v) (Z.to_nat (channel_count v))).
Proof.
  intros Hl HB Hr Ht. destruct (total_demand HB) as [Hpos Hsum]. eapply safe_mono; [apply (safe_for_each (fun pre s' => running s' /\
    (m_physical_vnets h0 = true -> B - zsum (demand <$> pre) <= total_bw_remaining s') /\
    forall v, v ∈ pre -> settled s' (Z.to_nat v) (Z.to_nat (channel_count v))))|].
  - split; [done|]. split; [cbn; lia|]. by intros v ?%not_elem_of_nil.
  - intros pre v post s1 -> (Hr1 & Hb & Hset).
    assert (Hv : v ∈ vnet_numbers) by (rewrite <- Hl; apply elem_of_app; right; by left). apply elem_of_seqZ in Hv.
    assert (Hd : m_physical_vnets h0 = true -> zsum (demand <$> pre) + demand v <= B).
    { intros Hp. rewrite <- (Hsum Hp), <- (zsum_perm _ _ (fmap_Permutation demand _ _ Hl)), fmap_app, zsum_app. cbn.
      assert (0 <= zsum (demand <$> post)); [|lia]. apply zsum_nonneg, list.Forall_forall. intros x (w & -> & Hw)%list_elem_of_fmap.
      assert (w ∈ vnet_numbers) as Hw'%elem_of_seqZ by (rewrite <- Hl; apply elem_of_app; right; by right).
      pose proof (demand_pos w ltac:(lia)). lia. }
    assert (Ev : Z.of_nat (Z.to_nat v) = v) by lia. rewrite <- Ev at 1.
    eapply safe_mono; [apply operate_channels_spec; [done|lia|]|].
    + intros Hp. rewrite Ev. specialize (Hb Hp). specialize (Hd Hp). lia.
    + intros s2 (Hr2 & Hb2 & Hset2 & Hoth). rewrite Ev in *. split; [done|]. split.
      * intros Hp. rewrite fmap_app, zsum_app. cbn. specialize (Hb2 Hp). specialize (Hb Hp). lia.
      * intros w [Hw| ->%list_elem_of_singleton]%elem_of_app; [|done].
        destruct (decide (w = v)) as [->|Hne]; [done|]. apply Hoth; [|by apply Hset].
        assert (w ∈ vnet_numbers) as Hw'%elem_of_seqZ by (rewrite <- Hl; apply elem_of_app; by left). lia.
  - intros s' (Hr1 & _ & Hset). split; [done|]. intros v Hv. apply Hset. rewrite Hl. apply elem_of_seqZ. lia.
Qed.

(** Only the statistics and the consumer differ from the state after the loops. *)
Lemma throttle_ok_running s h' k : running s -> good_store h0 k (st_buffers s) -> same_throttle (h' <| consumer := consumer h0 |>) ->
  m_units_remaining h' = m_units_remaining (st_throttle s) -> Consumer.waking em now (consumer h') ->
  throttle_ok k h' (st_buffers s).
Proof.
  intros [_ [Hlen Hrows] _ _ _] Hst Hsame Er Hc. pose proof (fun v => same_bandwidth _ v Hsame) as Hbw. pose proof (fun v => same_channels _ v Hsame) as Hch.
  destruct Hsame. cbn in *. split.
  - congruence.
  - congruence.
  - by rewrite st_vnets0.
  - congruence.
  - intros v row. rewrite Er. intros Hv%Hrows. rewrite <- (Hch (Z.of_nat v)) in Hv. exact Hv.
  - rewrite st_vnets0. intros v Hv. pose proof (bandwidth_known v Hv) as Hb. rewrite <- (Hbw v) in Hb. exact Hb.
  - intros ty. rewrite st_vnets0. pose proof (counts_known ty) as Hcn. rewrite <- st_counts0 in Hcn. exact Hcn.
  - unfold ends, ins, outs in *. by rewrite st_in0, st_out0.
  - unfold good_store, ends, out_ports, ins, outs, link_latency in *. by rewrite st_in0, st_out0, st_latency0.
  - done.
Qed.

Lemma not_busy s h' : running s -> (forall v, 0 <= v < m_vnets h0 -> settled s (Z.to_nat v) (Z.to_nat (channel_count v))) ->
  m_in h' = m_in h0 -> m_out h' = m_out h0 -> m_units_remaining h' = m_units_remaining (st_throttle s) ->
  busy h' (st_buffers s) -> flagged s = true.
Proof.
  intros [_ [Hlen Hrows] _ _ _] Hset Ei Eo Er (v & c & row & n & pin & pout & Hin & Hout & Hrow & Hn & Hb).
  rewrite Ei in Hin. rewrite Eo in Hout. rewrite Er in Hrow. destruct (Hrows _ _ Hrow) as (Hcnt & _ & _).
  apply lookup_lt_Some in Hin as Hv. unfold zlength in in_vnets. destruct (Hset (Z.of_nat v)) as [|Hq]; [lia|done|].
  rewrite Nat2Z.id in Hq. destruct (Hq pin pout Hin Hout) as [Hz Hd]. unfold channel_count in *. rewrite Hcnt in *. unfold zlength in *.
  apply lookup_lt_Some in Hn as Hc. pose proof (Hz row c n Hrow ltac:(lia) Hn). destruct Hb as [|Hb]; [lia|]. rewrite Hd in Hb by lia. done.
Qed.

Lemma throttle_wakeup_spec bs g : getTotalLinkBandwidth h0 = Ok B -> W = backlog h0 bs -> rows_ok h0 -> sound bs ->
  Consumer.waking em now (consumer h0) ->
  safe (wakeup em now rs MessageSizeType_to_int h0 bs g) (fun '(h', bs', _) => exists k' spent,
    k' + queued bs' (ins h0) = N /\ throttle_ok k' h' bs' /\ 0 <= spent <= B /\ backlog h' bs' + spent = W /\
    messages h' bs' ≡ₚ D /\ (busy h' bs' -> now + Clocked.clockPeriod em ∈ Consumer.m_wakeup_ticks (consumer h'))).
Proof.
  intros HB HW Hrows Hsnd Hwk. destruct (total_demand HB) as [Hpos _]. unfold wakeup. rewrite HB. cbn [mbind res_bind].
  rewrite (proj2 (Z.ltb_lt 0 B)) by done. cbn [assert mbind res_bind]. apply safe_bind. set (dir := _ <? _).
  set (s0 := mkState _ bs g B false false). assert (Hr0 : running s0).
  { split; [by split|exact Hrows|exact Hsnd|cbn; lia|]. cbn. rewrite HW. unfold backlog. lia. }
  eapply safe_mono; [apply (vnets_spec _ s0); [|done..]|].
  { cbn. unfold vnet_numbers. destruct dir; [done|]. by rewrite <- Permutation_rev. }
  intros s (Hr & Hset). cbn zeta. set (h1 := (st_throttle s) <| throttleStats ::= _ |>).
  assert (Hr' := Hr). destruct Hr' as [Hsame _ (k' & Hk' & Hst & Hn & Hd) Htot Hpaid].
  assert (Hsame1 : same_throttle h1) by (destruct Hsame; by split). fold (flagged s).
  apply safe_bind. eapply (safe_mono _ (fun c => Consumer.waking em now c /\
    (flagged s = true -> now + Clocked.clockPeriod em ∈ Consumer.m_wakeup_ticks c))).
  { rewrite (st_consumer _ Hsame1). destruct (flagged s); [|by split].
    eapply safe_mono; [by apply (Consumer.scheduleEvent_ticks em now)|]. intros c [Hc Et]. split; [by apply Consumer.wf_waking|].
    intros _. rewrite Et, Z.mul_1_r. apply Consumer.insert_tick_elem. by left. }
  intros c [Hc Hfl]. cbn [safe]. exists k', (B - total_bw_remaining s). split; [done|]. split.
  { eapply throttle_ok_running; try done. destruct Hsame1. by split. }
  split; [lia|]. split; [|split].
  - rewrite <- Hpaid. unfold backlog, to_pay, ins. cbn. rewrite (st_in _ Hsame). done.
  - rewrite <- Hd. unfold messages, ends, ins, outs. cbn. by rewrite (st_in _ Hsame), (st_out _ Hsame).
  - intros Hb. apply Hfl. eapply not_busy; [done..| | | |exact Hb]; [apply Hsame|apply Hsame|done].
Qed.
End throttle.

(** C9: a wakeup of a throttle ends without a failed assertion and keeps the
    invariant of the throttle.  What has to be paid for the messages on their
    way and for those that wait goes down by what the wakeup spends, which is at
    most the bandwidth of the link; the messages in the buffers are the same
    before and after; and when a channel still has something to do, the throttle
    is woken in the next cycle. *)
Theorem throttle_wakeup_pays `{!StdHeap Message.t Message.gt, !StdHeapOk Message.t Message.gt}
    (em : Clocked.t) (now : Z) (rs : RubySystem) (MessageSizeType_to_int : MessageSizeType -> res Z)
    (h : t) (bs : Buffers) (g : Rng) (k B : Z) :
  Clocked.wf now em -> Clocked.clockEdge now 0 em = now -> 0 <= now < 2 ^ 64 - 119 ->
  safe (MessageSizeType_to_int MessageSizeType_Control) (fun _ => True) ->
  getTotalLinkBandwidth h = Ok B -> 0 <= k -> k + queued bs (ins h) < 2 ^ 31 - 1 ->
  throttle_ok em now rs MessageSizeType_to_int k h bs ->
  exists h' bs' g' spent, wakeup em now rs MessageSizeType_to_int h bs g = Ok (h', bs', g') /\
    throttle_ok em now rs MessageSizeType_to_int (k + (queued bs (ins h) - queued bs' (ins h))) h' bs' /\
    0 <= spent <= B /\ backlog MessageSizeType_to_int h' bs' + spent = backlog MessageSizeType_to_int h bs /\
    messages h' bs' ≡ₚ messages h bs /\
    (busy now h' bs' -> now + Clocked.clockPeriod em ∈ Consumer.m_wakeup_ticks (consumer h')).
Proof.
  intros Hclk Hedge Hnow Hctl HB Hk Hn [].
  assert (Hch : forall v, 0 <= v < m_vnets h -> safe (getChannelCnt v h) (fun n => 0 < n)).
  { intros v Hv. destruct (lookup_lt_is_Some_2 (m_units_remaining h) (Z.to_nat v)) as [row Hrow]; [unfold zlength in th_rows0; lia|].
    destruct (th_channels0 _ _ Hrow) as (E & Hne & _). rewrite Z2Nat.id in E by lia. rewrite E. unfold zlength. destruct row; [done|]. cbn. lia. }
  pose proof (throttle_wakeup_spec em now rs MessageSizeType_to_int h (k + queued bs (ins h)) (messages h bs) Hclk Hedge Hnow Hctl th_distinct0
    Hn B (backlog MessageSizeType_to_int h bs) th_in0 th_out0 th_bandwidth0 th_counts0 Hch th_vnets0 bs g HB eq_refl (conj th_rows0 th_channels0)
    (ex_intro _ k (conj Hk (conj th_store0 (conj eq_refl (Permutation_refl _))))) th_consumer0) as (((h' & bs') & g') & E & k' & spent & Hk' & Hrest)%safe_inv.
  exists h', bs', g', spent. split; [done|]. by replace (k + (queued bs (ins h) - queued bs' (ins h))) with k' by lia.
Qed.

(** A control message of eight bytes on a link that takes five thousand units per cycle. *)
Definition lane : t := Throttle.mk [Some 0] [Some 1] 1 [[0]] 0 0 false [5] [] 1 0 1000 (ThrottleStats_new 1) Consumer.new.
Definition lane_buffers : Buffers :=
  list_to_map [(0, plain_buffer [Message.new 7 MessageSizeType_Control [] 1]); (1, plain_buffer [])].
Definition lane_system : RubySystem := mkRubySystem false false 6.

Lemma lane_ok : @throttle_ok (sorted_heap Message.gt) (Clocked.new 1) 2 lane_system (fun _ => Ok 8) 0 lane lane_buffers.
Proof.
  split; try done.
  - intros [|v] row; [intros [= <-]|done]. split; [done|]. split; [done|]. by repeat constructor.
  - apply (bool_decide_unpack _). vm_compute. done.
  - split.
    + intros p Hp. cbn in Hp. repeat (apply elem_of_cons in Hp as [->|Hp]; [eexists; split; [reflexivity|]; split; [apply plain_buffer_ok; cbn; lia|done]|]).
      by apply not_elem_of_nil in Hp.
    + intros q d b Hq Hb. cbn in Hq. apply list_elem_of_singleton in Hq as [= -> ->]. vm_compute in Hb. injection Hb as <-.
      split; unfold link_latency; cbn; [done|lia|lia|lia].
    + intros p b m _ _ _. unfold sized_message, MESSAGE_SIZE_MULTIPLIER. cbn. lia.
  - split; [by repeat constructor|done].
Qed.

Lemma throttle_wakeup_pays_witness : exists h' bs' g' spent,
  @wakeup (sorted_heap Message.gt) (Clocked.new 1) 2 lane_system (fun _ => Ok 8) lane lane_buffers (mkRng (fun _ => 0) 0) = Ok (h', bs', g') /\
  @throttle_ok (sorted_heap Message.gt) (Clocked.new 1) 2 lane_system (fun _ => Ok 8) (1 - queued bs' (ins lane)) h' bs' /\
  0 <= spent <= 5000 /\ backlog (fun _ => Ok 8) h' bs' + spent = 8000 /\
  messages h' bs' ≡ₚ [(7, MessageSizeType_Control, [])] /\ (busy 2 h' bs' -> 3 ∈ Consumer.m_wakeup_ticks (consumer h')).
Proof.
  apply (@throttle_wakeup_pays (sorted_heap Message.gt) message_heap_ok (Clocked.new 1) 2 lane_system (fun _ => Ok 8) lane lane_buffers
    (mkRng (fun _ => 0) 0) 0 5000).
  - split; cbn; lia.
  - reflexivity.
  - lia.
  - done.
  - reflexivity.
  - lia.
  - vm_compute. done.
  - exact lane_ok.
Defined.
