(* ===== verification/SwitchBuild.v ===== *)
(** * SwitchBuild: the switches that the simple network assembles

    The calls of the topology attach ports to a switch.  After any sequence of
    them the perfect switch, its routing unit and the buffers satisfy the
    invariant of [switch_wakeup_delivers], and every throttle the one of
    [throttle_wakeup_pays]. *)

From stdpp Require Import gmap.
From S2P Require Import Prelude CFloat NetDest CommonTypes Clock Heap MessageBuffer MessageBufferProofs DestProofs SimpleSwitch SimpleRouting BufferStore PerfectSwitchProofs ThrottleProofs.

(** ** Groups of buffers *)

Lemma concat_last {A} (groups : list (list A)) x : groups <> [] ->
  concat (take (length groups - 1) groups ++ [List.last groups [] ++ [x]]) = concat groups ++ [x].
Proof.
  intros (l & y & ->)%exists_last. rewrite length_app. cbn. rewrite Nat.add_sub, take_app_length, last_last, !concat_app. cbn.
  by rewrite !app_nil_r, app_assoc.
Qed.

Lemma group_buffers_concat prio sorted : concat (PerfectSwitch.group_buffers prio sorted) = sorted.*2.
Proof.
  unfold PerfectSwitch.group_buffers.
  assert (Hg : forall (l : list (Z * Z)) (groups : list (list Z)), groups <> [] -> concat (foldl (fun groups '(prio', p) =>
      let groups := if negb (prio' =? prio) then groups ++ [[]] else groups in
      take (length groups - 1) groups ++ [List.last groups [] ++ [p]]) groups l) = concat groups ++ l.*2).
  { induction l as [|[pr p] l IH]; intros groups Hne; [by rewrite app_nil_r|]. cbn [foldl fmap list_fmap snd].
    rewrite IH; [|by intros [_ ?]%app_nil]. rewrite concat_last by (case_match; [by intros [_ ?]%app_nil|done]).
    rewrite <- app_assoc. case_match; [|done]. by rewrite concat_app, app_nil_r. }
  by rewrite Hg.
Qed.

Lemma bind_insert_perm {A B} (f : A -> list B) l i a b : l !! i = Some a -> (<[i := b]> l ≫= f) ++ f a ≡ₚ (l ≫= f) ++ f b.
Proof.
  intros Hi. apply take_drop_middle in Hi as Hl. rewrite <- Hl at 2. rewrite insert_take_drop by (by eapply lookup_lt_Some).
  rewrite !bind_app, !bind_cons. solve_Permutation.
Qed.

Section groups.
Context `{!StdSort (Z * Z) PerfectSwitch.prio_lt, !StdSortOk (Z * Z) PerfectSwitch.prio_lt}.
Import PerfectSwitch.

(** The groups hold the buffers in the order of their priority. *)
Record grouped (s : t) : Prop := {
  gr_length : length (m_in_prio s) = length (m_in_prio_groups s);
  gr_same : forall v l g, m_in_prio s !! v = Some l -> m_in_prio_groups s !! v = Some g -> concat g ≡ₚ l;
}.

Definition ins_of (s : t) (v : nat) : list Z := concat (default [] (m_in_prio_groups s !! v)).

Lemma with_priority_spec bs ps : (forall p, p ∈ ps -> is_Some (bs !! p)) ->
  safe (for_each ps (fun p l => x ← with_priority bs p; Ok (l ++ [x])) []) (fun l => l.*2 = ps).
Proof.
  intros Hp. apply (safe_for_each (fun pre l => l.*2 = pre)); [done|]. intros pre p post l -> Hl.
  destruct (Hp p) as [b Hb]; [set_solver|]. unfold with_priority, buffer_at. rewrite Hb. cbn. by rewrite fmap_app, Hl.
Qed.

(** Another input buffer of a virtual network. *)
Record input_added (vnet : nat) (p : Z) (s s' : t) : Prop := {
  ia_grouped : grouped s';
  ia_rest : m_out s' = m_out s /\ m_virtual_networks s' = m_virtual_networks s /\
    m_pending_message_count s' = m_pending_message_count s /\ consumer s' = consumer s;
  ia_length : length (m_in_prio_groups s') = Nat.max (S vnet) (length (m_in_prio_groups s));
  ia_buffers : (m_in_prio_groups s' ≫= @concat Z) ≡ₚ p :: (m_in_prio_groups s ≫= @concat Z);
}.

Lemma bind_concat_nil k : (replicate k [] ≫= @concat Z) = [].
Proof. induction k; cbn; done. Qed.

Lemma updatePriorityGroups_spec vnet p bs s : grouped s -> (forall q, q ∈ p :: (m_in_prio_groups s ≫= @concat Z) -> is_Some (bs !! q)) ->
  safe (updatePriorityGroups (Z.of_nat vnet) p bs s) (input_added vnet p s).
Proof.
  intros [Hlen Hsame] Hbs. unfold updatePriorityGroups. set (missing := Z.to_nat _). set (prio := m_in_prio s ++ _). set (groups := m_in_prio_groups s ++ _).
  assert (Hl : length prio = length groups) by (unfold prio, groups; rewrite !length_app, !length_replicate; lia).
  assert (Hlv : length groups = Nat.max (S vnet) (length (m_in_prio_groups s))).
  { unfold groups. rewrite length_app, length_replicate. unfold missing, zlength. lia. }
  assert (Hg : forall v l g, prio !! v = Some l -> groups !! v = Some g -> concat g ≡ₚ l).
  { intros v l g Hv Hv'. unfold prio, groups in *. destruct (decide (v < length (m_in_prio s))%nat).
    - rewrite lookup_app_l in Hv by lia. rewrite lookup_app_l in Hv' by lia. by eapply Hsame.
    - rewrite lookup_app_r in Hv by lia. rewrite lookup_app_r in Hv' by lia.
      apply lookup_replicate in Hv as [-> _]. by apply lookup_replicate in Hv' as [-> _]. }
  assert (Hb : (groups ≫= @concat Z) = m_in_prio_groups s ≫= @concat Z) by (unfold groups; by rewrite bind_app, bind_concat_nil, app_nil_r).
  apply safe_bind, safe_vget; [unfold zlength; lia|]. rewrite Nat2Z.id. intros ports Hports.
  destruct (lookup_lt_is_Some_2 groups vnet) as [g Hgv]; [lia|]. pose proof (Hg _ _ _ Hports Hgv) as Hperm.
  apply safe_bind. eapply safe_mono; [apply with_priority_spec|].
  { intros q [Hq| ->%list_elem_of_singleton]%elem_of_app; [|apply Hbs; by left]. apply Hbs. right. rewrite <- Hb.
    apply list_elem_of_bind. exists g. split; [by rewrite Hperm|]. by eapply list_elem_of_lookup_2. }
  intros l Hsnd. pose proof (sort_perm l) as Hsort. destruct (std_sort prio_lt l) as [|[cur q0] rest] eqn:E.
  { apply Permutation_nil in Hsort as ->. by destruct ports. }
  rewrite <- E in *. clear E rest. apply safe_bind, safe_vset; [unfold zlength; lia|]. apply safe_bind, safe_vset; [unfold zlength; lia|]. rewrite Nat2Z.id.
  assert (Hnew : concat (group_buffers cur (std_sort prio_lt l)) ≡ₚ ports ++ [p]) by (by rewrite group_buffers_concat, Hsort, Hsnd).
  cbn [safe]. split; cbn.
  - split; cbn; [by rewrite !length_insert|]. intros v l' g' Hv Hv'.
    apply list_lookup_insert_Some in Hv as [(<- & <- & _)|[Hne Hv]].
    + rewrite list_lookup_insert_eq in Hv' by lia. injection Hv' as <-. by rewrite group_buffers_concat.
    + rewrite list_lookup_insert_ne in Hv' by done. by eapply Hg.
  - done.
  - by rewrite length_insert.
  - rewrite <- Hb. pose proof (bind_insert_perm (@concat Z) groups vnet g (group_buffers cur (std_sort prio_lt l)) Hgv) as Hins.
    rewrite Hnew, Hperm in Hins. apply (Permutation_app_inv_r ports). rewrite Hins. solve_Permutation.
Qed.
End groups.

(** ** Buffers that nobody has used *)

Section stock.
Context `{!StdHeap Message.t Message.gt}.
Context (rs : RubySystem) (now : Z).

Record fresh (b : MessageBuffer.t) : Prop := {
  fr_ok : buffer_ok 0 now b;
  fr_empty : MessageBuffer.m_prio_heap b = [];
  fr_random : randomized rs b = false;
  fr_last : MessageBuffer.m_last_arrival_time b = 0;
}.

(** The buffers of [C] have a consumer. *)
Definition stock (C : gset Z) (ps : list Z) (bs : Buffers) : Prop :=
  forall p, p ∈ ps -> exists b, bs !! p = Some b /\ fresh b /\ MessageBuffer.m_consumer b = bool_decide (p ∈ C).

Lemma fresh_consumer b b' : fresh b -> MessageBuffer.setConsumer b = Ok b' -> fresh b' /\ MessageBuffer.m_consumer b' = true.
Proof.
  intros [[]]. unfold MessageBuffer.setConsumer. destruct (MessageBuffer.m_consumer b); [done|]. intros [= <-]. split; [|done]. by split.
Qed.

Lemma connect_spec p f C ps bs : stock C ps bs -> p ∈ ps -> p ∉ C ->
  (forall b, fresh b -> MessageBuffer.m_consumer b = false -> safe (f b) (fun b' => fresh b' /\ MessageBuffer.m_consumer b' = true)) ->
  safe (update_buffer p f bs) (fun bs' => stock ({[p]} ∪ C) ps bs' /\ forall q, q <> p -> bs' !! q = bs !! q).
Proof.
  intros Hst Hp HC Hf. destruct (Hst p Hp) as (b & Hb & Hfr & Hc). rewrite bool_decide_eq_false_2 in Hc by done.
  unfold update_buffer, buffer_at. rewrite Hb. cbn [mbind res_bind]. apply safe_bind. eapply safe_mono; [by apply Hf|].
  intros b' [Hfr' Hc']. cbn. split; [|intros q Hq; by rewrite lookup_insert_ne].
  intros q Hq. destruct (decide (q = p)) as [->|Hne].
  - exists b'. rewrite lookup_insert_eq, bool_decide_eq_true_2 by set_solver. done.
  - rewrite lookup_insert_ne by done. destruct (Hst q Hq) as (b1 & Hb1 & Hfr1 & Hc1). exists b1. split; [done|]. split; [done|].
    rewrite Hc1. apply bool_decide_ext. set_solver.
Qed.

Lemma setConsumer_spec b : fresh b -> MessageBuffer.m_consumer b = false ->
  safe (MessageBuffer.setConsumer b) (fun b' => fresh b' /\ MessageBuffer.m_consumer b' = true).
Proof.
  intros Hf Hc. pose proof (fresh_consumer b) as H. unfold MessageBuffer.setConsumer in *. rewrite Hc in *. cbn. by apply H.
Qed.

Lemma stock_more C C' ps bs : C = C' -> stock C ps bs -> stock C' ps bs.
Proof. by intros ->. Qed.

Section ports.
Context `{!StdSort (Z * Z) PerfectSwitch.prio_lt, !StdSortOk (Z * Z) PerfectSwitch.prio_lt}.
Import PerfectSwitch.

(** An input port: its buffers get the switch as consumer and join the groups. *)
Record in_port_added (ins : list (option Z)) (C : gset Z) (ps : list Z) (s : t) (bs : Buffers) (s' : t) (bs' : Buffers) : Prop := {
  ip_grouped : grouped s';
  ip_rest : m_out s' = m_out s /\ m_virtual_networks s' = m_virtual_networks s /\
    m_pending_message_count s' = m_pending_message_count s /\ consumer s' = consumer s;
  ip_length : (length (m_in_prio_groups s') <= Nat.max (length ins) (length (m_in_prio_groups s)))%nat;
  ip_buffers : (m_in_prio_groups s' ≫= @concat Z) ≡ₚ omap id ins ++ (m_in_prio_groups s ≫= @concat Z);
  ip_stock : stock (list_to_set (omap id ins) ∪ C) ps bs';
  ip_frame : forall q, q ∉ omap id ins -> bs' !! q = bs !! q;
}.

Lemma addInPort_spec ins C ps bs s : grouped s -> stock C ps bs -> NoDup (omap id ins) ->
  (forall p, p ∈ omap id ins -> p ∈ ps /\ p ∉ C) -> (forall p, p ∈ m_in_prio_groups s ≫= @concat Z -> p ∈ ps) ->
  safe (addInPort ins bs s) (fun '(s', bs') => in_port_added ins C ps s bs s' bs').
Proof.
  intros Hg Hst Hnd Hin Hold. unfold addInPort. set (s0 := s <| m_in ::= _ |>).
  eapply safe_mono; [apply (safe_for (fun j '(s', bs') => in_port_added (take (Z.to_nat j) ins) C ps s0 bs s' bs'))|].
  - split; cbn; try done; [by destruct Hg|]. eapply stock_more; [|done]. set_solver.
  - intros j [s1 bs1] Hj Hip. apply safe_bind, safe_vget; [unfold zlength; lia|]. intros x Hx.
    replace (Z.to_nat (j + 1)) with (S (Z.to_nat j)) by lia. rewrite (take_S_r _ _ _ Hx).
    assert (Hlen : (length (take (Z.to_nat j) ins) = Z.to_nat j)%nat) by (rewrite length_take; apply lookup_lt_Some in Hx; lia).
    destruct x as [p|].
    2:{ destruct Hip. split; rewrite ?omap_app, ?app_nil_r, ?length_app; cbn; rewrite ?app_nil_r; try done. change (m_in_prio_groups s0) with (m_in_prio_groups s) in ip_length0. lia. }
    assert (Hp : p ∈ omap id ins) by (by eapply pointer_elem). destruct (Hin p Hp) as [Hps HpC].
    assert (Hnew : p ∉ omap id (take (Z.to_nat j) ins)).
    { intros Hold'. apply list_elem_of_omap in Hold' as (y & (i & Hi)%list_elem_of_lookup & Hy). cbn in Hy. subst y.
      rewrite lookup_take_Some in Hi. destruct Hi as [Hi Hlt]. pose proof (NoDup_pointers ins i (Z.to_nat j) p Hnd Hi Hx). lia. }
    destruct Hip. apply safe_bind. eapply safe_mono; [apply (connect_spec p); [exact ip_stock0|done| |]|].
    { rewrite elem_of_union, elem_of_list_to_set. tauto. }
    { intros b Hf Hc. apply safe_bind. eapply safe_mono; [by apply setConsumer_spec|]. intros b' [[[] ? ? ?] ?]. cbn. split; [|done]. by split. }
    intros bs2 [Hst2 Hfr2]. apply safe_bind. replace j with (Z.of_nat (Z.to_nat j)) at 1 by lia.
    eapply safe_mono; [apply (updatePriorityGroups_spec (Z.to_nat j) p bs2 s1 ip_grouped0)|].
    { intros q Hq. destruct (Hst2 q) as (b & Hb & _); [|by exists b]. apply elem_of_cons in Hq as [->|Hq]; [done|]. rewrite ip_buffers0 in Hq.
      apply elem_of_app in Hq as [Hq|Hq]; [|by apply Hold]. apply (Hin q). apply list_elem_of_omap in Hq as (y & Hy & E).
      apply list_elem_of_omap. exists y. split; [|done]. apply list_elem_of_lookup in Hy as (i & Hi). apply lookup_take_Some in Hi as [Hi _].
      by eapply list_elem_of_lookup_2. }
    intros s2 []. cbn [safe]. destruct ip_rest0 as (E1 & E2 & E3 & E4), ia_rest0 as (F1 & F2 & F3 & F4). split.
    + done.
    + split_and!; congruence.
    + rewrite ia_length0, length_app. cbn. change (m_in_prio_groups s0) with (m_in_prio_groups s) in *. lia.
    + rewrite ia_buffers0, ip_buffers0, omap_app. cbn. solve_Permutation.
    + eapply stock_more; [|done]. rewrite omap_app. cbn. rewrite list_to_set_app_L. cbn. set_solver.
    + intros q Hq. rewrite omap_app in Hq. cbn in Hq. rewrite Hfr2, ip_frame0; [done|set_solver..].
  - intros [s1 bs1] Hip. rewrite Z.add_0_l, Nat2Z.id, firstn_all in Hip. by destruct Hip.
Qed.
End ports.

(** ** Throttles *)

Section throttles.
Import Throttle.

(** The throttle [h'] has the links [ins] and [outs] in addition to the parameters of [h]. *)
Record linked (ins : list Z) (outs : list (option Z)) (h h' : t) : Prop := {
  lk_in : m_in h' = Some <$> ins;
  lk_out : m_out h' = outs;
  lk_rows : length (m_units_remaining h') = length ins;
  lk_units : forall v row, m_units_remaining h' !! v = Some row ->
    exists n, getChannelCnt (Z.of_nat v) h = Ok n /\ row = replicate (Z.to_nat n) 0;
  lk_physical : m_physical_vnets h' = m_physical_vnets h;
  lk_multiplier : m_link_bandwidth_multiplier h' = m_link_bandwidth_multiplier h;
  lk_channels : m_vnet_channels h' = m_vnet_channels h;
  lk_latency : m_link_latency h' = m_link_latency h;
  lk_endpoint : m_endpoint_bandwidth h' = m_endpoint_bandwidth h;
  lk_stats : throttleStats h' = throttleStats h;
  lk_consumer : consumer h' = consumer h;
}.

Lemma linked_channels ins outs h h' v : linked ins outs h h' -> getChannelCnt v h' = getChannelCnt v h.
Proof. intros []. unfold getChannelCnt. by rewrite lk_physical0, lk_channels0. Qed.

Lemma linked_bandwidth ins outs h h' v : linked ins outs h h' -> getLinkBandwidth v h' = getLinkBandwidth v h.
Proof. intros []. unfold getLinkBandwidth. by rewrite lk_physical0, lk_multiplier0, lk_endpoint0. Qed.

(** One link more. *)
Lemma linked_next ins outs h h1 n pin pout : linked ins outs h h1 -> length outs = length ins ->
  getChannelCnt (Z.of_nat (length ins)) h = Ok n ->
  linked (ins ++ [pin]) (outs ++ [pout]) h (h1 <| m_units_remaining ::= (fun l => l ++ [replicate (Z.to_nat n) 0]) |>
    <| m_in ::= (fun l => l ++ [Some pin]) |> <| m_out ::= (fun l => l ++ [pout]) |>).
Proof.
  intros [] Hl Hn. split; cbn; try done.
  - by rewrite lk_in0, fmap_app.
  - by rewrite lk_out0.
  - rewrite !length_app, lk_rows0. done.
  - intros v row [Hv|[Hv Hrow]]%lookup_app_Some; [by apply lk_units0|].
    apply list_lookup_singleton_Some in Hrow as [Hz <-]. exists n. split; [|done]. rewrite <- Hn. do 2 f_equal. lia.
Qed.

Lemma addLinks_spec ins outs h C ps bs : length ins = length outs ->
  m_in h = [] -> m_out h = [] -> m_units_remaining h = [] ->
  (forall v, 0 <= v < zlength ins -> exists n, getChannelCnt v h = Ok n) ->
  (if m_physical_vnets h then zlength (m_link_bandwidth_multiplier h) = zlength ins else zlength (m_link_bandwidth_multiplier h) = 1) ->
  stock C ps bs -> NoDup ins -> (forall p, p ∈ ins -> p ∈ ps /\ p ∉ C) ->
  safe (addLinks ins outs h bs) (fun '(h', bs') => linked ins outs h h' /\ m_vnets h' = zlength ins /\
    stock (list_to_set ins ∪ C) ps bs' /\ forall q, q ∉ ins -> bs' !! q = bs !! q).
Proof.
  intros Hl E1 E2 E3 Hch Hbw Hst Hnd Hin. unfold addLinks, zlength. rewrite Hl, Z.eqb_refl. cbn [assert mbind res_bind]. rewrite <- Hl.
  apply safe_bind. eapply safe_mono; [apply (safe_for (fun j '(h', bs') =>
    linked (take (Z.to_nat j) ins) (take (Z.to_nat j) outs) h h' /\ stock (list_to_set (take (Z.to_nat j) ins) ∪ C) ps bs' /\
    forall q, q ∉ take (Z.to_nat j) ins -> bs' !! q = bs !! q))|].
  - split; [|split; [eapply stock_more; [|done]; cbn; set_solver|done]]. split; try done; [by rewrite E3|]. by rewrite E3.
  - intros j [h1 bs1] Hj (Hlk & Hst1 & Hfr). unfold zlength in *.
    apply safe_bind, safe_vget; [unfold zlength; lia|]. intros pin Hpin.
    apply safe_bind, safe_vget; [unfold zlength; lia|]. intros pout Hpout.
    rewrite (linked_channels _ _ _ _ _ Hlk). destruct (Hch j) as [n Hn]; [lia|]. rewrite Hn. cbn [mbind res_bind].
    replace (Z.to_nat (j + 1)) with (S (Z.to_nat j)) by lia. rewrite (take_S_r _ _ _ Hpin), (take_S_r _ _ _ Hpout).
    assert (Hnew : pin ∉ take (Z.to_nat j) ins).
    { intros (i & [Hi Hlt]%lookup_take_Some)%list_elem_of_lookup. pose proof (NoDup_lookup _ _ _ _ Hnd Hi Hpin). lia. }
    destruct (Hin pin) as [Hp1 Hp2]; [by eapply list_elem_of_lookup_2|].
    apply safe_bind. eapply safe_mono; [apply (connect_spec pin); [exact Hst1|done| |apply setConsumer_spec]|].
    { rewrite elem_of_union, elem_of_list_to_set. tauto. }
    intros bs2 [Hst2 Hfr2]. cbn [safe]. split; [|split].
    + apply linked_next; [done|rewrite !length_take; lia|]. rewrite length_take, <- Hn. f_equal. lia.
    + eapply stock_more; [|done]. rewrite list_to_set_app_L. cbn. set_solver.
    + intros q Hq. rewrite Hfr2, Hfr; [done|set_solver..].
  - intros [h1 bs1] (Hlk & Hst1 & Hfr). rewrite Z.add_0_l, Nat2Z.id, firstn_all in *. rewrite firstn_all2 in Hlk by lia.
    assert (Hlk' := Hlk). destruct Hlk'. cbn. rewrite lk_physical0, lk_multiplier0. unfold zlength in *.
    replace (if m_physical_vnets h then _ else _) with true by (destruct (m_physical_vnets h); lia). cbn.
    split; [by split|done].
Qed.
End throttles.
End stock.

(** ** Layouts *)

Section layouts.
Context `{MachineTypes}.

Lemma row_ok_port L r : row_ok L r -> r.1.1 < zlength (ly_ports L).
Proof. intros [_ Hi (port & Hp%lookup_lt_Some & _) _]. unfold zlength. lia. Qed.

(** An output port more. *)
Lemma layout_out L lat out entry table : layout_ok L -> NoDup (all_buffers L ++ out) -> NetDest.sized entry -> ly_vnets L <= zlength out ->
  table ≡ₚ ly_table L ++ [(zlength (ly_ports L), entry, out)] ->
  layout_ok (mkLayout (ly_ports L ++ [PerfectSwitch.mkOutputPort lat out]) (ly_groups L) (ly_vnets L) table).
Proof.
  intros [] Hnd Hs Hv Ht. pose proof (proj1 (list.Forall_forall _ _) ly_rows) as Hrows. split; cbn.
  - unfold all_buffers in *. cbn. rewrite bind_app, app_assoc. cbn. by rewrite app_nil_r.
  - rewrite Ht, !fmap_app. cbn. apply list.NoDup_app. split; [done|]. split; [|apply list.NoDup_singleton].
    intros i (r1 & Ei & (r & Er & Hr)%list_elem_of_fmap)%list_elem_of_fmap Hz%list_elem_of_singleton.
    pose proof (row_ok_port _ _ (Hrows r Hr)). subst. lia.
  - apply list.Forall_forall. intros r Hr. rewrite Ht in Hr. apply elem_of_app in Hr as [Hr| ->%list_elem_of_singleton].
    + destruct (Hrows r Hr) as [? ? (port & Hp & Hb) ?]. split; cbn; try done.
      exists port. split; [|done]. by apply lookup_app_l_Some.
    + split; cbn; [done|apply zlength_nonneg| |done]. exists (PerfectSwitch.mkOutputPort lat out). split; [|done].
      unfold zlength. rewrite Nat2Z.id, lookup_app_r, Nat.sub_diag by lia. done.
  - done.
Qed.

(** An input port more. *)
Lemma layout_in L groups new : layout_ok L -> (groups ≫= @concat Z) ≡ₚ new ++ in_buffers L -> NoDup (new ++ all_buffers L) ->
  zlength groups <= ly_vnets L -> layout_ok (mkLayout (ly_ports L) groups (ly_vnets L) (ly_table L)).
Proof.
  intros [] Hg Hnd Hl. split; cbn; try done.
  - unfold all_buffers, in_buffers in *. cbn. by rewrite Hg, <- app_assoc.
  - eapply list.Forall_impl; [exact ly_rows|]. intros r []. by split.
Qed.
End layouts.

(** ** The calls of the network *)

Inductive PortCall :=
| AddInPort (ins : list (option Z))
| AddOutPort (outs : list (option Z)) (entry : NetDest.t) (link_latency link_weight bw_multiplier : Z) (is_external : bool).

Definition call_ins (c : PortCall) : list Z := match c with AddInPort ins => omap id ins | AddOutPort _ _ _ _ _ _ => [] end.
Definition call_outs (c : PortCall) : list (option Z) := match c with AddInPort _ => [] | AddOutPort outs _ _ _ _ _ => outs end.
Definition inputs (calls : list PortCall) : list Z := calls ≫= call_ins.
Definition outputs (calls : list PortCall) : list (option Z) := calls ≫= call_outs.

Definition attach `{!StdSort (Z * Z) PerfectSwitch.prio_lt} `{!StdSort WeightBased.LinkInfo WeightBased.link_lt}
    (net : SimpleParams) (c : PortCall) (st : Switch.t * Buffers) : res (Switch.t * Buffers) :=
  match c with
  | AddInPort ins => Switch.addInPort ins st.1 st.2
  | AddOutPort outs entry lat weight bw ext => Switch.addOutPort net outs entry lat weight bw ext st.1 st.2
  end.

(** Bandwidths are positive and fit their type. *)
Definition bandwidth_fits (net : SimpleParams) (bw : Z) : Prop := 0 < bw /\ sp_endpoint_bandwidth net * bw < 2 ^ 31.

Record params_ok (net : SimpleParams) : Prop := {
  pa_vnets : 0 < sp_virtual_networks net;
  pa_endpoint : 0 < sp_endpoint_bandwidth net;
  pa_channels : zlength (physical_vnets_channels net) = 0 \/ zlength (physical_vnets_channels net) = sp_virtual_networks net;
  pa_positive : Forall (Z.lt 0) (physical_vnets_channels net);
  pa_bandwidth : Forall (bandwidth_fits net) (physical_vnets_bandwidth net);
}.

(** The throttle of a new port. *)
Record unlinked (net : SimpleParams) (lat : Z) (h : Throttle.t) : Prop := {
  ul_in : Throttle.m_in h = [];
  ul_out : Throttle.m_out h = [];
  ul_rows : Throttle.m_units_remaining h = [];
  ul_channels : forall v, 0 <= v < sp_virtual_networks net -> exists n, Throttle.getChannelCnt v h = Ok n /\ 0 < n;
  ul_bandwidth : forall v, 0 <= v < sp_virtual_networks net -> safe (Throttle.getLinkBandwidth v h) (fun bw => 0 < bw);
  ul_multiplier : if Throttle.m_physical_vnets h then zlength (Throttle.m_link_bandwidth_multiplier h) = sp_virtual_networks net
    else zlength (Throttle.m_link_bandwidth_multiplier h) = 1;
  ul_counts : forall ty, sp_virtual_networks net <= zlength (Throttle.msg_counts (Throttle.throttleStats h) ty);
  ul_latency : Throttle.m_link_latency h = lat;
  ul_consumer : Throttle.consumer h = Consumer.new;
}.

Lemma bandwidth_Ok net bw : 0 < sp_endpoint_bandwidth net -> bandwidth_fits net bw ->
  safe (imul (sp_endpoint_bandwidth net) bw) (fun x => 0 < x).
Proof. intros He [Hb Hf]. rewrite imul_Ok by nia. cbn. lia. Qed.

Lemma new_throttle_spec net out lat bw id node : params_ok net -> bandwidth_fits net bw -> zlength out = sp_virtual_networks net ->
  safe (if (0 <? zlength (physical_vnets_channels net)) && negb (zlength (A := option Z) out =? 0) then
      Throttle.new_physical (sp_virtual_networks net) id node lat (physical_vnets_channels net)
        (resize (length out) bw (physical_vnets_bandwidth net)) (sp_endpoint_bandwidth net)
    else Throttle.new_shared (sp_virtual_networks net) id node lat bw (sp_endpoint_bandwidth net)) (unlinked net lat).
Proof.
  intros [] Hbw Hout. assert (Hb0 := Hbw). destruct Hb0 as [Hb0 _].
  destruct ((0 <? zlength (physical_vnets_channels net)) && negb (zlength out =? 0)) eqn:E.
  - apply andb_prop in E as [Ec%Z.ltb_lt _]. destruct pa_channels0 as [|Hc]; [lia|]. unfold Throttle.new_physical.
    assert (Hfit : Forall (bandwidth_fits net) (resize (length out) bw (physical_vnets_bandwidth net))) by (by apply Forall_resize).
    assert (forallb (Z.ltb 0) (resize (length out) bw (physical_vnets_bandwidth net)) = true) as ->.
    { apply forallb_forall. intros x Hx%list_elem_of_In. apply Z.ltb_lt, (proj1 (list.Forall_forall _ _) Hfit x Hx). }
    assert (forallb (Z.ltb 0) (physical_vnets_channels net) = true) as ->.
    { apply forallb_forall. intros x Hx%list_elem_of_In. apply Z.ltb_lt. by apply (proj1 (list.Forall_forall _ _) pa_positive0). }
    cbn [assert mbind res_bind]. unfold zlength at 1. rewrite length_resize. fold (zlength out). rewrite Hout, Hc, Z.eqb_refl. cbn [assert mbind res_bind safe].
    split; cbn; try done.
    + intros v Hv. unfold Throttle.getChannelCnt. cbn. destruct (vget_range (physical_vnets_channels net) v) as [n Hn]; [lia|]. exists n. split; [done|].
      apply vget_Ok in Hn as [_ Hn]. by apply (proj1 (Forall_lookup _ _) pa_positive0 _ _ Hn).
    + intros v Hv. unfold Throttle.getLinkBandwidth. cbn. unfold zlength in Hout.
      apply safe_bind, safe_vget; [unfold zlength; rewrite length_resize; lia|]. intros x Hx. pose proof (proj1 (Forall_lookup _ _) Hfit _ _ Hx) as Hx'.
      rewrite (proj2 (Z.ltb_lt 0 x)) by apply Hx'. cbn [assert mbind res_bind]. by apply bandwidth_Ok.
    + unfold zlength in *. rewrite length_resize. lia.
    + intros ty. unfold zlength. rewrite length_replicate. lia.
  - unfold Throttle.new_shared. rewrite (proj2 (Z.ltb_lt 0 bw)) by done. cbn [assert mbind res_bind safe]. split; cbn; try done.
    + intros v Hv. by exists 1.
    + intros v Hv. unfold Throttle.getLinkBandwidth. change (vget _ _) with (Ok bw). cbn [mbind res_bind Throttle.m_endpoint_bandwidth]. rewrite (proj2 (Z.ltb_lt 0 bw)) by done. cbn [assert mbind res_bind]. by apply bandwidth_Ok.
    + intros ty. unfold zlength. rewrite length_replicate. lia.
Qed.

Lemma connect_buffers_spec n s : 0 <= Switch.m_num_connected_buffers s ->
  Switch.m_num_connected_buffers s + Z.of_nat n <= zlength (Switch.m_port_buffers s) ->
  safe (Switch.connect_buffers n s) (fun '(l, s') =>
    l = take n (drop (Z.to_nat (Switch.m_num_connected_buffers s)) (Switch.m_port_buffers s)) /\
    s' = s <| Switch.m_num_connected_buffers ::= (fun k => k + Z.of_nat n) |>).
Proof.
  intros H0 Hn. unfold Switch.connect_buffers. set (k := Z.to_nat _). set (P := Switch.m_port_buffers s) in *.
  eapply safe_mono; [apply (safe_for (fun j '(l, s') => l = take (Z.to_nat j) (drop k P) /\
    s' = s <| Switch.m_num_connected_buffers ::= (fun k => k + j) |>))|].
  - split; [done|]. destruct s. unfold update. cbn. by rewrite Z.add_0_r.
  - intros j [l s'] Hj [-> ->]. cbn [Switch.m_num_connected_buffers Switch.m_port_buffers]. unfold update at 1 2. cbn. fold P.
    rewrite (proj2 (Z.ltb_lt _ _)) by lia. cbn [assert mbind res_bind].
    apply safe_bind, safe_vget; [unfold zlength in *; lia|]. intros p Hp. cbn. split.
    + replace (Z.to_nat (j + 1)) with (S (Z.to_nat j)) by lia. symmetry. apply take_S_r. rewrite lookup_drop, <- Hp. f_equal. lia.
    + unfold update. cbn. f_equal. lia.
  - intros [l s'] [-> ->]. by rewrite Z.add_0_l, Nat2Z.id.
Qed.

(** Too few buffers are left. *)
Lemma connect_buffers_short n s : 0 <= Switch.m_num_connected_buffers s <= zlength (Switch.m_port_buffers s) ->
  zlength (Switch.m_port_buffers s) < Switch.m_num_connected_buffers s + Z.of_nat n -> Switch.connect_buffers n s = Err AssertFail.
Proof.
  unfold Switch.connect_buffers. match goal with |- _ -> _ -> for_ _ _ ?f _ = _ =>
    enough (forall n l i s, 0 <= Switch.m_num_connected_buffers s <= zlength (Switch.m_port_buffers s) ->
      zlength (Switch.m_port_buffers s) < Switch.m_num_connected_buffers s + Z.of_nat n -> for_ n i f (l, s) = Err AssertFail) as Hgen by apply Hgen end.
  clear. intros n. induction n as [|n IH]; intros l i s Hk Hn; [lia|]. cbn [for_].
  destruct (Z.ltb_spec (Switch.m_num_connected_buffers s) (zlength (Switch.m_port_buffers s))); [|done]. cbn [assert mbind res_bind].
  destruct (vget_range (Switch.m_port_buffers s) (Switch.m_num_connected_buffers s)) as [p ->]; [lia|]. cbn [mbind res_bind]. apply IH; unfold update; cbn; lia.
Qed.

(** ** The invariant *)

Section assembly.
Context `{!StdSort (Z * Z) PerfectSwitch.prio_lt, !StdSortOk (Z * Z) PerfectSwitch.prio_lt}.
Context `{!StdSort WeightBased.LinkInfo WeightBased.link_lt, !StdSortOk WeightBased.LinkInfo WeightBased.link_lt}.
Context `{!StdHeap Message.t Message.gt} `{MachineTypes, !MachineTypesOk}.
Context (rs : RubySystem) (now : Z) (net : SimpleParams) (s0 : Switch.t) (all : list PortCall).

Definition em0 : Clocked.t := Switch.em s0.
Definition ports0 : list Z := Switch.m_port_buffers s0.
Definition pointers : list Z := inputs all ++ ports0 ++ omap id (outputs all).
Definition far : gset Z := list_to_set (omap id (outputs all)).

Definition latency_ok (lat : Z) : Prop := 0 < lat /\ now + Clocked.clockPeriod em0 * lat < 2 ^ 64 - 119.

Definition call_ok (c : PortCall) : Prop :=
  match c with
  | AddInPort ins => zlength ins <= sp_virtual_networks net
  | AddOutPort outs entry lat _ bw _ =>
      zlength outs = sp_virtual_networks net /\ NetDest.sized entry /\ bandwidth_fits net bw /\ latency_ok lat
  end.

Definition switch_layout (s : Switch.t) : Layout :=
  mkLayout (PerfectSwitch.m_out (Switch.perfectSwitch s)) (PerfectSwitch.m_in_prio_groups (Switch.perfectSwitch s))
    (PerfectSwitch.m_virtual_networks (Switch.perfectSwitch s)) (row <$> WeightBased.m_links (Switch.m_routing_unit s)).

Definition taken (s : Switch.t) : list Z := take (Z.to_nat (Switch.m_num_connected_buffers s)) ports0.

(** A throttle that has its links. *)
Record throttle_built (s : Switch.t) (h : Throttle.t) : Prop := {
  tb_new : exists ins outs lat h0, linked ins outs h0 h /\ unlinked net lat h0 /\ latency_ok lat /\ Throttle.m_vnets h = zlength ins /\
    zlength ins = sp_virtual_networks net /\ zlength outs = sp_virtual_networks net /\
    (forall p, p ∈ ins -> p ∈ taken s) /\ (forall p, p ∈ omap id outs -> p ∈ omap id (outputs all)) /\ NoDup (ins ++ omap id outs);
}.

Record assembled (calls : list PortCall) (s : Switch.t) (bs : Buffers) : Prop := {
  as_grouped : grouped (Switch.perfectSwitch s);
  as_layout : layout_ok (switch_layout s);
  as_vnets : PerfectSwitch.m_virtual_networks (Switch.perfectSwitch s) = sp_virtual_networks net;
  as_inputs : in_buffers (switch_layout s) ≡ₚ inputs calls;
  as_outputs : (PerfectSwitch.m_out (Switch.perfectSwitch s) ≫= PerfectSwitch.buffers) = taken s;
  as_latency : Forall (fun port => exists lat, latency_ok lat /\ PerfectSwitch.latency port = Clocked.clockPeriod em0 * lat)
    (PerfectSwitch.m_out (Switch.perfectSwitch s));
  as_links : length (WeightBased.m_links (Switch.m_routing_unit s)) = length (PerfectSwitch.m_out (Switch.perfectSwitch s));
  as_connected : Switch.m_num_connected_buffers s = zlength (outputs calls);
  as_ports : Switch.m_port_buffers s = ports0 /\ Switch.em s = em0 /\
    Switch.m_int_routing_latency s = Switch.m_int_routing_latency s0 /\ Switch.m_ext_routing_latency s = Switch.m_ext_routing_latency s0;
  as_stock : stock rs now (list_to_set (inputs calls ++ taken s) ∪ far) pointers bs;
  as_pending : PerfectSwitch.m_pending_message_count (Switch.perfectSwitch s) = replicate (Z.to_nat (sp_virtual_networks net)) 0;
  as_consumer : PerfectSwitch.consumer (Switch.perfectSwitch s) = Consumer.new;
  as_throttles : Forall (throttle_built s) (Switch.throttles s);
  as_count : length (Switch.throttles s) = length (PerfectSwitch.m_out (Switch.perfectSwitch s));
}.

Hypothesis params : params_ok net.
Hypothesis distinct : NoDup pointers.
Hypothesis int_latency : latency_ok (Switch.m_int_routing_latency s0).
Hypothesis ext_latency : latency_ok (Switch.m_ext_routing_latency s0).

Lemma assembled_in pre ins post s bs : all = pre ++ AddInPort ins :: post -> assembled pre s bs -> call_ok (AddInPort ins) ->
  safe (Switch.addInPort ins s bs) (fun '(s', bs') => assembled (pre ++ [AddInPort ins]) s' bs').
Proof.
  intros Hall Has Hc. assert (Has' := Has). destruct Has'. unfold Switch.addInPort.
  assert (Ein : inputs all = inputs pre ++ omap id ins ++ inputs post) by (unfold inputs; by rewrite Hall, bind_app, bind_cons).
  pose proof distinct as Hnd. unfold pointers in Hnd. rewrite Ein, <- !app_assoc in Hnd.
  assert (Htk : taken s `sublist_of` ports0) by apply sublist_take.
  apply list.NoDup_app in Hnd as (Hnd1 & Hd1 & (Hnd2 & Hd2 & (_ & Hd3 & (_ & Hd4 & _)%list.NoDup_app)%list.NoDup_app)%list.NoDup_app).
  assert (Htin : forall p, p ∈ taken s -> p ∈ ports0) by (intros p Hp; by eapply elem_of_sublist).
  apply safe_bind. eapply safe_mono; [eapply (addInPort_spec rs now ins); [done|exact as_stock0|done| |]|].
  - intros p Hp. unfold pointers. rewrite Ein. split; [set_solver|]. unfold far.
    rewrite elem_of_union, !elem_of_list_to_set, elem_of_app. intros [[Hi|Ht%Htin]|Ho]; [apply (Hd1 p); set_solver|apply (Hd2 p Hp); set_solver..].
  - intros p Hp. change (p ∈ in_buffers (switch_layout s)) in Hp. rewrite as_inputs0 in Hp. unfold pointers. rewrite Ein. set_solver.
  - intros [p' bs'] []. cbn [safe]. destruct ip_rest0 as (E1 & E2 & E3 & E4).
    assert (Hin : in_buffers (switch_layout (s <| Switch.perfectSwitch := p' |>)) ≡ₚ omap id ins ++ in_buffers (switch_layout s)) by exact ip_buffers0.
    split; cbn; rewrite ?E1, ?E2, ?E3, ?E4; try done.
    + pose proof (layout_in (switch_layout s) (PerfectSwitch.m_in_prio_groups p') (omap id ins) as_layout0) as Hl. unfold switch_layout in *. cbn in *.
      rewrite E1, E2. apply Hl; [exact ip_buffers0| |].
      * unfold all_buffers. rewrite as_inputs0. cbn. rewrite as_outputs0. apply list.NoDup_app. split; [done|].
        split; [intros q Hq [Hq'|Hq'%Htin]%elem_of_app; [by apply (Hd1 q); [|set_solver]|by apply (Hd2 q); [|set_solver]]|].
        apply list.NoDup_app. split; [done|]. split; [intros q Hq Hq'%Htin; apply (Hd1 q); set_solver|].
        eapply sublist_NoDup; [|exact Htk]. pose proof distinct as (_ & _ & (? & _)%list.NoDup_app)%list.NoDup_app. done.
      * pose proof (ly_inputs _ as_layout0) as Hli. cbn in Hc, Hli. rewrite as_vnets0 in *. unfold zlength in *. lia.
    + rewrite Hin, as_inputs0. unfold inputs. rewrite bind_app. cbn. rewrite app_nil_r. apply Permutation_app_comm.
    + unfold outputs. rewrite bind_app. cbn. by rewrite app_nil_r.
    + eapply stock_more; [|exact ip_stock0]. unfold inputs. rewrite bind_app. cbn. rewrite app_nil_r, !list_to_set_app_L.
      change (taken (s <| Switch.perfectSwitch := p' |>)) with (taken s). set_solver.
    + eapply list.Forall_impl; [exact as_throttles0|]. intros h [Hh]. by split.
Qed.

(** The next buffers of the switch, which become the output port of [c]. *)
Lemma next_buffers pre outs entry lat weight bw ext post s bs :
  all = pre ++ AddOutPort outs entry lat weight bw ext :: post -> assembled pre s bs ->
  zlength (outputs pre) + zlength outs <= zlength ports0 ->
  let k := Z.to_nat (Switch.m_num_connected_buffers s) in
  let new := take (length outs) (drop k ports0) in
  length new = length outs /\ taken s ++ new = take (k + length outs) ports0 /\ NoDup (inputs pre ++ taken s ++ new) /\
  (forall p, p ∈ new -> p ∈ ports0 /\ p ∉ inputs pre /\ p ∉ taken s /\ p ∉ omap id (outputs all)) /\
  (forall p, p ∈ omap id outs -> p ∈ omap id (outputs all)) /\ NoDup (new ++ omap id outs).
Proof.
  intros Hall [] enough k new.
  assert (Eout : outputs all = outputs pre ++ outs ++ outputs post) by (unfold outputs; by rewrite Hall, bind_app, bind_cons).
  assert (Ein : inputs all = inputs pre ++ inputs post) by (unfold inputs; by rewrite Hall, bind_app, bind_cons).
  assert (Hlen : length new = length outs).
  { unfold new. rewrite length_take, length_drop. unfold zlength in *. lia. }
  assert (Htk : taken s ++ new = take (k + length outs) ports0) by (unfold taken, new; fold k; apply take_take_drop).
  pose proof distinct as (Hn1 & Hd1 & (Hn2 & Hd2 & Hn3)%list.NoDup_app)%list.NoDup_app.
  assert (Hsub : taken s ++ new `sublist_of` ports0) by (rewrite Htk; apply sublist_take).
  assert (Hnd : NoDup (taken s ++ new)) by (eapply sublist_NoDup; [|exact Hsub]; done).
  assert (Hin : forall p, p ∈ taken s ++ new -> p ∈ ports0) by (intros p Hp; by eapply elem_of_sublist).
  assert (Hpre : forall p, p ∈ inputs pre -> p ∈ inputs all) by (rewrite Ein; set_solver).
  assert (Houts : forall p, p ∈ omap id outs -> p ∈ omap id (outputs all)) by (rewrite Eout, !omap_app; set_solver).
  split; [done|]. split; [done|]. split; [|split; [|split; [done|]]].
  - rewrite Ein in Hn1. apply list.NoDup_app in Hn1 as (Hn1 & _). apply list.NoDup_app. split; [done|]. split; [|done].
    intros p Hp%Hpre Hp'%Hin. apply (Hd1 p Hp). set_solver.
  - intros p Hp. assert (Hp' : p ∈ ports0) by (apply Hin; set_solver). split; [done|].
    split; [intros Hi%Hpre; apply (Hd1 p Hi); set_solver|]. split; [|by apply Hd2].
    intros Ht. apply list.NoDup_app in Hnd as (_ & Hd & _). by apply (Hd p).
  - apply list.NoDup_app in Hnd as (_ & _ & Hnn). apply list.NoDup_app. split; [done|]. split.
    + intros p Hp Hp'%Houts. apply (Hd2 p); [apply Hin; set_solver|done].
    + rewrite Eout, !omap_app in Hn3. apply list.NoDup_app in Hn3 as (_ & _ & (Hn3 & _)%list.NoDup_app). done.
Qed.

Lemma assembled_out pre outs entry lat weight bw ext post s bs :
  all = pre ++ AddOutPort outs entry lat weight bw ext :: post -> assembled pre s bs -> call_ok (AddOutPort outs entry lat weight bw ext) ->
  zlength (outputs pre) + zlength outs <= zlength ports0 ->
  safe (Switch.addOutPort net outs entry lat weight bw ext s bs)
    (fun '(s', bs') => assembled (pre ++ [AddOutPort outs entry lat weight bw ext]) s' bs').
Proof.
  intros Hall Has (Hl & Hs & Hbw & Hlat) enough. assert (Has' := Has). destruct Has'. destruct as_ports0 as (Ep & Ee & Ei & Ex).
  destruct (next_buffers _ _ _ _ _ _ _ _ _ _ Hall Has enough) as (Hlen & Htk & Hnd & Hnew & Houts & Hnd').
  set (k := Z.to_nat (Switch.m_num_connected_buffers s)) in *. set (new := take (length outs) (drop k ports0)) in *.
  unfold Switch.addOutPort. apply safe_bind. eapply safe_mono; [by apply new_throttle_spec|]. intros h0 Hh0.
  apply safe_bind. eapply safe_mono; [apply connect_buffers_spec|].
  { rewrite as_connected0. apply zlength_nonneg. }
  { rewrite Ep, as_connected0. unfold zlength in *. lia. }
  rewrite Ep. fold k. fold new. clearbody new. intros [l s1] [-> ->]. apply safe_bind. unfold PerfectSwitch.addOutPort, WeightBased.addOutPort. cbn.
  rewrite (proj2 (Z.eqb_eq _ _)) by (unfold zlength; lia). cbn [assert mbind res_bind safe]. apply safe_bind.
  eapply safe_mono; [apply (addLinks_spec rs now new outs h0); [done|apply Hh0|apply Hh0|apply Hh0| | |exact as_stock0|by apply list.NoDup_app in Hnd' as [? _]|]|].
  { intros v Hv. destruct (ul_channels _ _ _ Hh0 v) as (n & Hn & _); [unfold zlength in *; lia|]. by exists n. }
  { pose proof (ul_multiplier _ _ _ Hh0) as Hm. destruct (Throttle.m_physical_vnets h0); [|done]. unfold zlength in *. lia. }
  { intros p (Hp & Hpi & Hpt & Hpo)%Hnew. split; [unfold pointers; set_solver|]. unfold far.
    rewrite elem_of_union, !elem_of_list_to_set, elem_of_app. tauto. }
  intros [h' bs'] (Hlk & Hvn & Hst & _). cbn [safe].
  set (s' := _ <| Switch.throttles ::= _ |>).
  assert (Ek : Switch.m_num_connected_buffers s' = Switch.m_num_connected_buffers s + zlength outs) by done.
  assert (Etk : taken s' = taken s ++ new) by (rewrite Htk; unfold taken; rewrite Ek; f_equal; unfold k; rewrite as_connected0; unfold zlength; lia).
  assert (Erow : row <$> WeightBased.m_links (Switch.m_routing_unit s') ≡ₚ
    ly_table (switch_layout s) ++ [(zlength (ly_ports (switch_layout s)), entry, new)]).
  { unfold s'. cbn. rewrite sort_perm, fmap_app. done. }
  assert (Hnd2 : NoDup (all_buffers (switch_layout s) ++ new)).
  { unfold all_buffers. rewrite as_inputs0. cbn. rewrite as_outputs0, <- app_assoc. done. }
  split; try done.
  - by destruct as_grouped0.
  - apply (layout_out (switch_layout s) _ new entry _ as_layout0 Hnd2 Hs); [|exact Erow]. cbn. rewrite as_vnets0. unfold zlength in *. lia.
  - change (in_buffers (switch_layout s')) with (in_buffers (switch_layout s)). rewrite as_inputs0. unfold inputs. rewrite bind_app. cbn. by rewrite app_nil_r.
  - rewrite Etk. cbn. rewrite bind_app, as_outputs0. cbn. by rewrite app_nil_r.
  - cbn. apply list.Forall_app. split; [done|]. apply list.Forall_singleton. cbn. rewrite Ee, Ei, Ex. destruct ext; eauto.
  - cbn. rewrite sort_perm, !length_app. cbn. lia.
  - rewrite Ek, as_connected0. unfold outputs, zlength. rewrite bind_app, length_app. cbn. rewrite app_nil_r. lia.
  - rewrite Etk. eapply stock_more; [|exact Hst]. unfold inputs. rewrite bind_app. cbn. rewrite app_nil_r, !list_to_set_app_L. set_solver.
  - cbn. apply list.Forall_app. split.
    + eapply list.Forall_impl; [exact as_throttles0|]. intros h [(ins & outs' & lat' & h1 & H1 & H2 & H3 & H4 & H5 & H6 & H7 & H8)]. split.
      exists ins, outs', lat', h1. split_and!; try done; [|apply H8..]. intros p Hp%H7. rewrite Etk. set_solver.
    + apply list.Forall_singleton. split. exists new, outs, lat, h0. split_and!; try done; [unfold zlength in *; lia|].
      intros p Hp. rewrite Etk. set_solver.
  - cbn. rewrite !length_app. cbn. lia.
Qed.

Lemma outputs_snoc pre c : zlength (outputs (pre ++ [c])) = zlength (outputs pre) + zlength (call_outs c).
Proof. unfold outputs, zlength. rewrite bind_app, length_app. cbn. rewrite app_nil_r. lia. Qed.

(** With too few buffers of its own the switch cannot take another port. *)
Lemma short_out outs entry lat weight bw ext pre s bs : assembled pre s bs -> call_ok (AddOutPort outs entry lat weight bw ext) ->
  zlength (outputs pre) <= zlength ports0 < zlength (outputs pre) + zlength outs ->
  Switch.addOutPort net outs entry lat weight bw ext s bs = Err AssertFail.
Proof.
  intros [] (Hl & Hs & Hbw & Hlat) Hshort. destruct as_ports0 as (Ep & _). unfold Switch.addOutPort.
  destruct (safe_inv _ _ (new_throttle_spec net outs lat bw (Switch.m_id s) (zlength (Switch.throttles s)) params Hbw Hl)) as (h & -> & _). cbn [mbind res_bind].
  by rewrite connect_buffers_short by (rewrite ?Ep, as_connected0; unfold zlength in *; lia).
Qed.

(** All the calls, or the first of them for which no buffers are left. *)
Lemma attach_all post pre s bs : all = pre ++ post -> Forall call_ok post -> assembled pre s bs -> zlength (outputs pre) <= zlength ports0 ->
  match for_each post (attach net) (s, bs) with
  | Ok (s', bs') => assembled all s' bs' /\ zlength (outputs all) <= zlength ports0
  | Err e => e = AssertFail /\ zlength ports0 < zlength (outputs all)
  end.
Proof.
  revert pre s bs. induction post as [|c post IH]; intros pre s bs Hall Hc Has Hle; [rewrite app_nil_r in Hall; subst pre; done|].
  apply list.Forall_cons in Hc as [Hc Hpost]. cbn [for_each]. pose proof (outputs_snoc pre c) as Hlen.
  assert (Hall' : all = (pre ++ [c]) ++ post) by (by rewrite <-(assoc_L (++))). destruct (Z.le_gt_cases (zlength (outputs (pre ++ [c]))) (zlength ports0)) as [Hok|Hshort].
  - assert (safe (attach net c (s, bs)) (fun '(s', bs') => assembled (pre ++ [c]) s' bs')) as Hs.
    { destruct c; cbn [attach fst snd]; [by eapply assembled_in|eapply assembled_out; [done..|]]. cbn in Hlen. lia. }
    apply safe_inv in Hs as ([s' bs'] & -> & Has'). cbn [mbind res_bind]. by apply (IH (pre ++ [c])).
  - destruct c as [ins|outs entry lat weight bw ext]; cbn in Hlen; [unfold zlength in *; cbn in Hlen; lia|]. cbn [attach fst snd].
    rewrite (short_out outs entry lat weight bw ext pre s bs Has Hc) by lia. cbn [mbind res_bind]. split; [done|].
    rewrite Hall'. unfold outputs in *. rewrite bind_app. unfold zlength in *. rewrite length_app. lia.
Qed.

(** ** What the invariant gives *)

Hypothesis now_pos : 0 <= now.
Hypothesis period_pos : 0 < Clocked.clockPeriod em0.

Lemma stock_store C out accept ps bs : stock rs now C pointers bs -> (forall p, p ∈ ps -> p ∈ pointers /\ p ∈ C) ->
  (forall q d, (q, d) ∈ out -> q ∈ pointers /\ exists lat, latency_ok lat /\ d = Clocked.clockPeriod em0 * lat) ->
  store_ok rs now ps out accept 0 bs.
Proof.
  intros Hst Hps Hout. split.
  - intros p [Hp HC]%Hps. destruct (Hst p Hp) as (b & Hb & Hf & Hc). exists b. split; [done|]. split; [apply Hf|].
    by rewrite Hc, bool_decide_eq_true_2.
  - intros q d b (Hq & lat & [Hl1 Hl2] & ->)%Hout Hb. destruct (Hst q Hq) as (b' & Hb' & Hf & _). rewrite Hb in Hb'. injection Hb' as <-.
    destruct Hf. split; [done| |left; nia|rewrite fr_last0; nia]. nia.
  - intros p b m [Hp _]%Hps Hb Hm. destruct (Hst p Hp) as (b' & Hb' & Hf & _). rewrite Hb in Hb'. injection Hb' as <-.
    rewrite (fr_empty _ _ _ Hf) in Hm. by apply not_elem_of_nil in Hm.
Qed.

Lemma stock_queued C ps bs : stock rs now C pointers bs -> (forall p, p ∈ ps -> p ∈ pointers) -> queued bs ps = 0.
Proof.
  intros Hst Hps. unfold queued, cargo. replace (ps ≫= load single bs) with (@nil unit); [done|]. symmetry.
  induction ps as [|p ps IH]; [done|]. rewrite bind_cons, IH by set_solver. rewrite app_nil_r. unfold load.
  destruct (Hst p) as (b & -> & Hf & _); [apply Hps; by left|]. by rewrite (fr_empty _ _ _ Hf).
Qed.

Lemma waking_new : Consumer.waking em0 now Consumer.new.
Proof. split; [split; constructor|done]. Qed.

Lemma assembled_switch s bs g : assembled all s bs ->
  switch_ok em0 now rs (switch_layout s) 0 (PerfectSwitch.mkState (Switch.perfectSwitch s) (Switch.m_routing_unit s) bs g).
Proof.
  intros []. assert (Htk : forall p, p ∈ taken s -> p ∈ ports0) by (intros p Hp; eapply elem_of_sublist; [exact Hp|apply sublist_take]).
  assert (Hin : forall p, p ∈ in_buffers (switch_layout s) -> p ∈ pointers /\ p ∈ (list_to_set (inputs all ++ taken s) ∪ far : gset Z)).
  { intros p Hp. rewrite as_inputs0 in Hp. unfold pointers. rewrite list_to_set_app_L. set_solver. }
  split; cbn; try done.
  - eapply stock_store; [exact as_stock0| |].
    + intros p [Hp|Hp]%elem_of_app; [by apply Hin|]. cbn in Hp. rewrite as_outputs0 in Hp. unfold pointers.
      pose proof (Htk p Hp). rewrite list_to_set_app_L. set_solver.
    + intros q d (i & port & Hi & Hq & ->)%elem_of_outs. cbn in Hi. split; [|by apply (proj1 (Forall_lookup _ _) as_latency0 _ _ Hi)].
      assert (q ∈ taken s) as Hq'%Htk; [|unfold pointers; set_solver]. rewrite <- as_outputs0. apply list_elem_of_bind.
      exists port. split; [done|]. by eapply list_elem_of_lookup_2.
  - rewrite as_pending0. unfold zlength. rewrite length_replicate, as_vnets0. pose proof (pa_vnets _ params). lia.
  - rewrite as_pending0. intros v c [-> _]%lookup_replicate. symmetry. eapply stock_queued; [exact as_stock0|].
    intros p Hp%vnet_buffers_in. by apply Hin.
  - rewrite as_consumer0. apply waking_new.
Qed.

Lemma omap_id_Some (l : list Z) : omap id (Some <$> l) = l.
Proof. induction l as [|x l IH]; [done|]. cbn. by f_equal. Qed.

Lemma assembled_throttle s bs h size : assembled all s bs -> h ∈ Switch.throttles s -> throttle_ok em0 now rs size 0 h bs.
Proof.
  intros [] Hh. destruct (proj1 (list.Forall_forall _ _) as_throttles0 h Hh) as [(ins' & outs' & lat & h0 & Hlk & Hul & Hlat & Ev & E1 & E2 & Hins & Houts & Hnd)].
  assert (Htk : forall p, p ∈ taken s -> p ∈ ports0) by (intros p Hp; eapply elem_of_sublist; [exact Hp|apply sublist_take]).
  assert (Ei : ins h = ins') by (unfold ins; by rewrite (lk_in _ _ _ _ Hlk), omap_id_Some).
  assert (Eo : outs h = omap id outs') by (unfold outs; by rewrite (lk_out _ _ _ _ Hlk)).
  pose proof (pa_vnets _ params) as Hv. pose proof (lk_rows _ _ _ _ Hlk) as Hrows. split.
  - rewrite (lk_in _ _ _ _ Hlk). unfold zlength in *. rewrite length_fmap. lia.
  - rewrite (lk_out _ _ _ _ Hlk). lia.
  - lia.
  - unfold zlength in *. lia.
  - intros v row Hr. destruct (lk_units _ _ _ _ Hlk v row Hr) as (n & Hn & ->). rewrite (linked_channels _ _ _ _ _ Hlk), Hn.
    apply lookup_lt_Some in Hr. destruct (ul_channels _ _ _ Hul (Z.of_nat v)) as (n' & Hn' & Hpos); [unfold zlength in *; lia|].
    assert (n' = n) as -> by congruence. unfold zlength. rewrite length_replicate, Z2Nat.id by lia. split; [done|]. split.
    + replace (Z.to_nat n) with (S (Z.to_nat n - 1)) by lia. done.
    + apply Forall_replicate. lia.
  - intros v Hr. rewrite (linked_bandwidth _ _ _ _ _ Hlk). apply (ul_bandwidth _ _ _ Hul). lia.
  - intros ty. rewrite (lk_stats _ _ _ _ Hlk), Ev, E1. apply (ul_counts _ _ _ Hul).
  - unfold ends. by rewrite Ei, Eo.
  - unfold good_store. eapply stock_store; [exact as_stock0| |].
    + intros p Hp. unfold ends in Hp. rewrite Ei, Eo in Hp. unfold pointers, far. rewrite list_to_set_app_L.
      apply elem_of_app in Hp as [Hp%Hins|Hp%Houts]; [pose proof (Htk p Hp)|]; set_solver.
    + intros q d Hq. unfold out_ports in Hq. apply list_elem_of_fmap in Hq as (q' & [= -> ->] & Hq). rewrite Eo in Hq. apply Houts in Hq.
      split; [unfold pointers; set_solver|]. exists lat. split; [done|]. unfold link_latency. by rewrite (lk_latency _ _ _ _ Hlk), (ul_latency _ _ _ Hul).
  - rewrite (lk_consumer _ _ _ _ Hlk), (ul_consumer _ _ _ Hul). apply waking_new.
Qed.
End assembly.

(** ** The theorem *)

Definition new_switch (net : SimpleParams) (sid int_latency ext_latency period : Z) (adaptive : bool) (ports : list Z) : Switch.t :=
  Switch.init (Switch.new sid (sp_virtual_networks net) int_latency ext_latency period adaptive ports).

(** C10: a switch of the simple network to which ports are added in any order,
    with buffers that are distinct and unused and parameters in range, is built
    without a failed assertion when it has a buffer of its own for every output
    buffer, and stops at an assertion when it has fewer.  All
    input buffers are in the groups that the switch serves, and the switch, its
    routing unit and each of its throttles, one per output port, satisfy the
    invariants under which their wakeups are safe, lose no message and keep
    to the bandwidth. *)
Theorem switch_assembled
    `{!StdSort (Z * Z) PerfectSwitch.prio_lt, !StdSortOk (Z * Z) PerfectSwitch.prio_lt}
    `{!StdSort WeightBased.LinkInfo WeightBased.link_lt, !StdSortOk WeightBased.LinkInfo WeightBased.link_lt}
    `{!StdHeap Message.t Message.gt} `{MachineTypes, !MachineTypesOk}
    (rs : RubySystem) (now : Z) (net : SimpleParams) (sid int_latency ext_latency period : Z) (adaptive : bool) (ports : list Z)
    (calls : list PortCall) (bs : Buffers) (g : Rng) (size : MessageSizeType -> res Z) :
  let s0 := new_switch net sid int_latency ext_latency period adaptive ports in
  params_ok net -> 0 < period -> 0 <= now -> latency_ok now s0 int_latency -> latency_ok now s0 ext_latency ->
  Forall (call_ok now net s0) calls -> NoDup (pointers s0 calls) ->
  stock rs now (list_to_set (omap id (outputs calls))) (pointers s0 calls) bs ->
  (zlength ports < zlength (outputs calls) -> for_each calls (attach net) (s0, bs) = Err AssertFail) /\
  (zlength (outputs calls) <= zlength ports -> exists s bs', for_each calls (attach net) (s0, bs) = Ok (s, bs') /\
    layout_ok (switch_layout s) /\ in_buffers (switch_layout s) ≡ₚ inputs calls /\
    switch_ok (Clocked.new period) now rs (switch_layout s) 0
      (PerfectSwitch.mkState (Switch.perfectSwitch s) (Switch.m_routing_unit s) bs' g) /\
    length (Switch.throttles s) = length (PerfectSwitch.m_out (Switch.perfectSwitch s)) /\
    Forall (fun h => throttle_ok (Clocked.new period) now rs size 0 h bs') (Switch.throttles s)).
Proof.
  intros s0 Hp Hper Hnow Hint Hext Hcalls Hnd Hst. pose proof (pa_vnets _ Hp) as Hv.
  assert (Hbase : assembled rs now net s0 calls [] s0 bs).
  { split; try done.
    - split; cbn; [constructor|constructor|constructor|]. unfold zlength. cbn. lia.
    - eapply stock_more; [|exact Hst]. cbn. unfold far. set_solver. }
  pose proof (attach_all rs now net s0 calls Hp Hnd Hint Hext calls [] s0 bs eq_refl Hcalls Hbase (zlength_nonneg ports)) as Hall.
  change (ports0 s0) with ports in Hall.
  destruct (for_each calls (attach net) (s0, bs)) as [[s bs']|e]; [|destruct Hall as [-> ?]; split; [done|lia]].
  destruct Hall as [Has Hen]. split; [lia|intros _].
  exists s, bs'. split; [done|]. split; [apply Has|]. split; [apply Has|]. split.
  - by eapply (assembled_switch rs now net s0 calls).
  - split; [apply Has|]. apply list.Forall_forall. intros h Hh. by eapply (assembled_throttle rs now net s0 calls).
Qed.

(** An input port, and two output ports one of which has no buffer in the second virtual network. *)
Definition hub_params : SimpleParams := mkSimpleParams [] [] 1000 2.
Definition hub_calls : list PortCall :=
  [AddInPort [Some 0; Some 1]; AddOutPort [Some 10; Some 11] (fork_dest 1) 1 1 16 false; AddOutPort [Some 12; None] (fork_dest 2) 1 0 16 true].
Definition hub_buffer (c : bool) : MessageBuffer.t := (MessageBuffer.new 0 0 true disabled false 0) <| MessageBuffer.m_consumer := c |>.
Definition hub_buffers : Buffers :=
  list_to_map ((fun p => (p, hub_buffer (10 <=? p))) <$> [0; 1; 2; 3; 4; 5; 10; 11; 12]).

Lemma hub_stock : @stock (sorted_heap Message.gt) fork_system 2 (list_to_set (omap id (outputs hub_calls)))
  (pointers (new_switch hub_params 0 1 1 1 false [2; 3; 4; 5]) hub_calls) hub_buffers.
Proof.
  intros p Hp. exists (hub_buffer (10 <=? p)). cbn in Hp.
  repeat (apply elem_of_cons in Hp as [->|Hp]; [split; [reflexivity|]; split; [|symmetry; vm_compute; reflexivity];
    split; try done; split; cbn; (done || lia || constructor)|]). by apply not_elem_of_nil in Hp.
Qed.

Lemma switch_assembled_witness :
  exists s bs', for_each hub_calls (attach hub_params) (new_switch hub_params 0 1 1 1 false [2; 3; 4; 5], hub_buffers) = Ok (s, bs') /\
    @layout_ok two_machines (switch_layout s) /\ in_buffers (switch_layout s) ≡ₚ [0; 1] /\
    @switch_ok (sorted_heap Message.gt) two_machines (Clocked.new 1) 2 fork_system (switch_layout s) 0
      (PerfectSwitch.mkState (Switch.perfectSwitch s) (Switch.m_routing_unit s) bs' (mkRng (fun _ => 0) 0)) /\
    length (Switch.throttles s) = length (PerfectSwitch.m_out (Switch.perfectSwitch s)) /\
    Forall (fun h => @throttle_ok (sorted_heap Message.gt) (Clocked.new 1) 2 fork_system (fun _ => Ok 8) 0 h bs') (Switch.throttles s).
Proof.
  refine (proj2 (@switch_assembled (insertion_sort _) prio_sort_ok (insertion_sort _) link_sort_ok (sorted_heap Message.gt) two_machines two_machines_ok
    fork_system 2 hub_params 0 1 1 1 false [2; 3; 4; 5] hub_calls hub_buffers (mkRng (fun _ => 0) 0) (fun _ => Ok 8) _ _ _ _ _ _ _ _) _).
  - split; cbn; [lia|lia|by left|constructor|constructor].
  - lia.
  - lia.
  - split; cbn; lia.
  - split; cbn; lia.
  - repeat constructor; try apply fork_sized; cbn; unfold zlength; cbn; lia.
  - apply (bool_decide_unpack _). vm_compute. done.
  - exact hub_stock.
  - vm_compute. done.
Defined.
