(* ===== verification/EventQueue.v ===== *)
(** * EventQueue: the events of the simulator

    base/flags.hh, sim/eventq.hh/.cc and the loop of sim/simulate.cc.  The queue
    is a list of bins, each a stack of events with the same tick and priority;
    both kinds of list run through pointers in the events.  Events are kept in a
    store and a pointer is a key of it.  [process] is a virtual function: it is a
    parameter, and may call the queue.  One thread runs the queue; events that
    other threads insert wait in [async_queue].  Signals, tracing and printing
    are left out. *)

From stdpp Require Import gmap.
From S2P Require Import Prelude.

(** ** Events *)

Module Event.

Definition PublicRead : Z := 0x003f.
Definition PublicWrite : Z := 0x001d.
Definition Squashed : Z := 0x0001.
Definition Scheduled : Z := 0x0002.
Definition Managed : Z := 0x0004.
Definition IsExitEvent : Z := 0x0010.
Definition IsMainQueue : Z := 0x0020.
Definition Initialized : Z := 0x7a40.
Definition InitMask : Z := 0xffc0.

(** [queue] is the queue that the event was scheduled on. *)
Record t := mk {
  nextBin : option Z;
  nextInBin : option Z;
  _when : Z;
  _priority : Z;
  flags : Z;
  queue : option Z;
}.
#[global] Instance t_eta : Etaed t := fun e => mk (nextBin e) (nextInBin e) (_when e) (_priority e) (flags e) (queue e).

(** [Flags]: 16 bits. *)
Definition isSet (mask : Z) (e : t) : bool := negb (Z.land (flags e) mask =? 0).
Definition clear (mask : Z) (e : t) : t := e <| flags ::= (fun f => Z.ldiff f mask) |>.
Definition set (mask : Z) (e : t) : t := e <| flags ::= (fun f => Z.lor f mask) |>.

Definition new (p f : Z) : res t :=
  _ ← assert (Z.ldiff f PublicWrite =? 0);
  Ok (mk None None 0 p (Z.lor Initialized f) None).

Definition initialized (e : t) : bool := Z.land (flags e) InitMask =? Initialized.
Definition scheduled (e : t) : bool := isSet Scheduled e.
Definition squash (e : t) : t := set Squashed e.
Definition squashed (e : t) : bool := isSet Squashed e.
Definition isExitEvent (e : t) : bool := isSet IsExitEvent e.
Definition isManaged (e : t) : bool := isSet Managed e.

Definition setFlags (f : Z) (e : t) : res t := _ ← assert (Z.ldiff f PublicWrite =? 0); Ok (set f e).
Definition clearFlags (f : Z) (e : t) : res t := _ ← assert (Z.ldiff f PublicWrite =? 0); Ok (clear f e).

(** What a checkpoint keeps of an event; the flags are written as a [short]. *)
Definition serialize (e : t) : Z * Z * Z := (_when e, _priority e, flags e).

Definition unserialize (cp : Z * Z * Z) (e : t) : res t :=
  let '(cp_when, cp_priority, cp_flags) := cp in
  _ ← assert (negb (scheduled e));
  _ ← assert (initialized e);
  let e := set Initialized (e <| _when := cp_when |> <| _priority := cp_priority |> <| flags := cp_flags |>) in
  Ok (if isSet Scheduled e && negb (isSet Squashed e) then clear (Z.lor Squashed Scheduled) e else e).

Definition setWhen (when q : Z) (e : t) : t := e <| _when := when |> <| queue := Some q |>.

(** [operator<], [operator<=] and [operator==]. *)
Definition lt (l r : t) : bool := (_when l <? _when r) || ((_when l =? _when r) && (_priority l <? _priority r)).
Definition le (l r : t) : bool := (_when l <? _when r) || ((_when l =? _when r) && (_priority l <=? _priority r)).
Definition eq (l r : t) : bool := (_when l =? _when r) && (_priority l =? _priority r).

End Event.

Notation Events := (gmap Z Event.t).

Definition event_at (p : Z) (st : Events) : res Event.t := match st !! p with Some e => Ok e | None => Err Undefined end.
Definition update_event (p : Z) (f : Event.t -> Event.t) (st : Events) : res Events :=
  e ← event_at p st; Ok (<[p := f e]> st).

(** [insertBefore]: a bin of its own in front of the bin [curr], or the top of it. *)
Definition insertBefore (event : Z) (curr : option Z) (st : Events) : res (Z * Events) :=
  e ← event_at event st;
  match curr with
  | None => Ok (event, <[event := e <| Event.nextBin := None |> <| Event.nextInBin := None |>]> st)
  | Some c =>
      k ← event_at c st;
      Ok (event, <[event := if Event.lt e k then e <| Event.nextBin := Some c |> <| Event.nextInBin := None |>
                            else e <| Event.nextBin := Event.nextBin k |> <| Event.nextInBin := Some c |>]> st)
  end.

(** The walk along a bin; every round goes to another event of it. *)
Fixpoint unlink (fuel : nat) (event curr : Z) (next : option Z) (st : Events) : res Events :=
  match fuel with
  | O => Err OutOfFuel
  | S fuel =>
      match next with
      | None => Err PanicCalled
      | Some n =>
          k ← event_at n st;
          if event =? n then update_event curr (fun c => c <| Event.nextInBin := Event.nextInBin k |>) st
          else unlink fuel event n (Event.nextInBin k) st
      end
  end.

Definition removeItem (event top : Z) (st : Events) : res (option Z * Events) :=
  t ← event_at top st;
  if event =? top then
    match Event.nextInBin t with
    | None => Ok (Event.nextBin t, st)
    | Some next => st ← update_event next (fun n => n <| Event.nextBin := Event.nextBin t |>) st; Ok (Some next, st)
    end
  else st ← unlink (S (size st)) event top (Event.nextInBin t) st; Ok (Some top, st).

(** [acquireImpl] does nothing; [releaseImpl] deletes an event that is not scheduled. *)
Definition release (event : Z) (st : Events) : res Events :=
  e ← event_at event st;
  Ok (if Event.isManaged e && negb (Event.scheduled e) then delete event st else st).

(** ** The queue *)

Module EventQueue.

(** [this] stands for the address of the object. *)
Record t := mk { this : Z; head : option Z; _curTick : Z; async_queue : list Z }.
#[global] Instance t_eta : Etaed t := fun q => mk (this q) (head q) (_curTick q) (async_queue q).

Definition new (this : Z) : t := mk this None 0 [].

Definition empty (q : t) : bool := match head q with None => true | Some _ => false end.
Definition getCurTick (q : t) : Z := _curTick q.
Definition setCurTick (newVal : Z) (q : t) : t := q <| _curTick := newVal |>.

(** A pointer that is followed may not be null. *)
Definition getHead (q : t) : res Z := match head q with Some h => Ok h | None => Err Undefined end.

Definition nextTick (q : t) (st : Events) : res Z := h ← getHead q; e ← event_at h st; Ok (Event._when e).

(** The walk along the bins, to the first one that is not before [e]. *)
Fixpoint find_bin (fuel : nat) (e : Event.t) (prev : Z) (curr : option Z) (st : Events) : res (Z * option Z) :=
  match fuel with
  | O => Err OutOfFuel
  | S fuel =>
      match curr with
      | None => Ok (prev, None)
      | Some c =>
          k ← event_at c st;
          if Event.lt k e then find_bin fuel e c (Event.nextBin k) st else Ok (prev, Some c)
      end
  end.

Definition insert (event : Z) (q : t) (st : Events) : res (t * Events) :=
  e ← event_at event st;
  match head q with
  | None => '(top, st) ← insertBefore event None st; Ok (q <| head := Some top |>, st)
  | Some h =>
      k ← event_at h st;
      if Event.le e k then '(top, st) ← insertBefore event (Some h) st; Ok (q <| head := Some top |>, st)
      else
        '(prev, curr) ← find_bin (S (size st)) e h (Event.nextBin k) st;
        '(top, st) ← insertBefore event curr st;
        st ← update_event prev (fun p => p <| Event.nextBin := Some top |>) st;
        Ok (q, st)
  end.

Definition remove (event : Z) (q : t) (st : Events) : res (t * Events) :=
  match head q with
  | None => Err PanicCalled
  | Some h =>
      e ← event_at event st;
      _ ← assert (bool_decide (Event.queue e = Some (this q)));
      k ← event_at h st;
      if Event.eq k e then '(top, st) ← removeItem event h st; Ok (q <| head := top |>, st)
      else
        '(prev, curr) ← find_bin (S (size st)) e h (Event.nextBin k) st;
        match curr with
        | None => Err PanicCalled
        | Some c =>
            kc ← event_at c st;
            if negb (Event.eq kc e) then Err PanicCalled
            else
              '(top, st) ← removeItem event c st;
              st ← update_event prev (fun p => p <| Event.nextBin := top |>) st;
              Ok (q, st)
        end
  end.

Definition asyncInsert (event : Z) (q : t) : t := q <| async_queue ::= (fun l => l ++ [event]) |>.

Definition handleAsyncInsertions (curEventQueue : Z) (q : t) (st : Events) : res (t * Events) :=
  _ ← assert (this q =? curEventQueue);
  '(q, st) ← for_each (async_queue q) (fun event '(q, st) => insert event q st) (q, st);
  Ok (q <| async_queue := [] |>, st).

Section mode.
(** Whether the simulation runs on several threads, and the queue of this thread. *)
Context (inParallelMode : bool) (curEventQueue : Z).

Definition schedule (event when : Z) (global : bool) (q : t) (st : Events) : res (t * Events) :=
  _ ← assert (getCurTick q <=? when);
  e ← event_at event st;
  _ ← assert (negb (Event.scheduled e));
  _ ← assert (Event.initialized e);
  st ← update_event event (Event.setWhen when (this q)) st;
  '(q, st) ← (if inParallelMode && (negb (this q =? curEventQueue) || global) then Ok (asyncInsert event q, st) else insert event q st);
  st ← update_event event (Event.set Event.Scheduled) st;
  Ok (q, st).

Definition deschedule (event : Z) (q : t) (st : Events) : res (t * Events) :=
  e ← event_at event st;
  _ ← assert (Event.scheduled e);
  _ ← assert (Event.initialized e);
  _ ← assert (negb inParallelMode || (this q =? curEventQueue));
  '(q, st) ← remove event q st;
  st ← update_event event (fun e => Event.clear Event.Scheduled (Event.clear Event.Squashed e)) st;
  st ← release event st;
  Ok (q, st).

Definition reschedule (event when : Z) (always : bool) (q : t) (st : Events) : res (t * Events) :=
  _ ← assert (getCurTick q <=? when);
  e ← event_at event st;
  _ ← assert (always || Event.scheduled e);
  _ ← assert (Event.initialized e);
  _ ← assert (negb inParallelMode || (this q =? curEventQueue));
  '(q, st) ← (if Event.scheduled e then remove event q st else Ok (q, st));
  st ← update_event event (Event.setWhen when (this q)) st;
  '(q, st) ← insert event q st;
  st ← update_event event (fun e => Event.set Event.Scheduled (Event.clear Event.Squashed e)) st;
  Ok (q, st).

End mode.

Definition checkpointReschedule (event : Z) (q : t) (st : Events) : res (t * Events) :=
  e ← event_at event st; if Event.isSet Event.Scheduled e then insert event q st else Ok (q, st).

(** [UNSERIALIZE_EVENT]. *)
Definition unserialize_event (cp : Z * Z * Z) (event : Z) (q : t) (st : Events) : res (t * Events) :=
  e ← event_at event st;
  e ← Event.unserialize cp e;
  checkpointReschedule event q (<[event := e]> st).

(** The events already met, and the tick and priority of the last one. *)
Definition Seen : Type := list Z * Z * Z.

Fixpoint verify_bin (fuel : nat) (nextInBin : option Z) (seen : Seen) (st : Events) : res (option Seen) :=
  match fuel with
  | O => Err OutOfFuel
  | S fuel =>
      match nextInBin with
      | None => Ok (Some seen)
      | Some n =>
          e ← event_at n st;
          let '(map, time, priority) := seen in
          if Event._when e <? time then Ok None
          else if (Event._when e =? time) && (Event._priority e <? priority) then Ok None
          else if bool_decide (n ∈ map) then Ok None
          else verify_bin fuel (Event.nextInBin e) (n :: map, Event._when e, Event._priority e) st
      end
  end.

Fixpoint verify_bins (fuel : nat) (nextBin : option Z) (seen : Seen) (st : Events) : res bool :=
  match fuel with
  | O => Err OutOfFuel
  | S fuel =>
      match nextBin with
      | None => Ok true
      | Some n =>
          r ← verify_bin (S (size st)) (Some n) seen st;
          match r with
          | None => Ok false
          | Some seen => e ← event_at n st; verify_bins fuel (Event.nextBin e) seen st
          end
      end
  end.

Definition debugVerify (q : t) (st : Events) : res bool := verify_bins (S (size st)) (head q) ([], 0, 0) st.

Definition replaceHead (s : option Z) (q : t) : option Z * t := (head q, q <| head := s |>).

(** ** Running events *)

Section process.
(** What the handlers of events work on besides the queue. *)
Context {U : Type} (process : Z -> t * Events * U -> res (t * Events * U)).

(** Returns the event when it ends the simulation. *)
Definition serviceOne (q : t) (st : Events) (u : U) : res (option Z * (t * Events * U)) :=
  event ← getHead q;
  e ← event_at event st;
  let st := <[event := Event.clear Event.Scheduled e]> st in
  '(q, st) ← match Event.nextInBin e with
             | Some next => st ← update_event next (fun n => n <| Event.nextBin := Event.nextBin e |>) st; Ok (q <| head := Some next |>, st)
             | None => Ok (q <| head := Event.nextBin e |>, st)
             end;
  e ← event_at event st;
  if negb (Event.squashed e) then
    '(q, st, u) ← process event (setCurTick (Event._when e) q, st, u);
    e ← event_at event st;
    if Event.isExitEvent e then
      _ ← assert (negb (Event.isSet Event.Managed e) || negb (Event.isSet Event.IsMainQueue e));
      Ok (Some event, (q, st, u))
    else st ← release event st; Ok (None, (q, st, u))
  else
    st ← update_event event (Event.clear Event.Squashed) st;
    st ← release event st;
    Ok (None, (q, st, u)).

Fixpoint serviceEvents (fuel : nat) (when : Z) (q : t) (st : Events) (u : U) : res (t * Events * U) :=
  match fuel with
  | O => Err OutOfFuel
  | S fuel =>
      if empty q then Ok (setCurTick when q, st, u)
      else
        tick ← nextTick q st;
        if when <? tick then Ok (setCurTick when q, st, u)
        else '(_, (q, st, u)) ← serviceOne q st u; serviceEvents fuel when q st u
  end.

Fixpoint simLoop (fuel : nat) (q : t) (st : Events) (u : U) : res (Z * (t * Events * U)) :=
  match fuel with
  | O => Err OutOfFuel
  | S fuel =>
      _ ← assert (negb (empty q));
      tick ← nextTick q st;
      _ ← assert (getCurTick q <=? tick);
      '(exit_event, (q, st, u)) ← serviceOne q st u;
      match exit_event with Some e => Ok (e, (q, st, u)) | None => simLoop fuel q st u end
  end.

(** The thread takes the queue as its own and runs it until an event ends the
    simulation. *)
Definition doSimLoop (fuel : nat) (q : t) (st : Events) (u : U) : res (Z * (t * Events * U)) :=
  '(q, st) ← handleAsyncInsertions (this q) q st; simLoop fuel q st u.

End process.
End EventQueue.

(** ** Code that uses the queue *)

(** What the queue offers to the objects of the simulator; [EventManager]
    passes the first three on. *)
Class EventManager (Q : Type) := {
  em_schedule : Z -> Z -> bool -> Q -> Events -> res (Q * Events);
  em_deschedule : Z -> Q -> Events -> res (Q * Events);
  em_reschedule : Z -> Z -> bool -> Q -> Events -> res (Q * Events);
  em_curTick : Q -> Z;
  em_nextTick : Q -> Events -> res Z;
  em_empty : Q -> bool;
}.

(** A function that works on the queue through these calls, on its events
    through their public functions, and decides by what it sees; [Stop] is a
    failure of its own. *)
Inductive Handler (A : Type) :=
| Return (a : A)
| Schedule (event when : Z) (global : bool) (k : Handler A)
| Deschedule (event : Z) (k : Handler A)
| Reschedule (event when : Z) (always : bool) (k : Handler A)
| CurTick (k : Z -> Handler A)
| NextTick (k : Z -> Handler A)
| IsEmpty (k : bool -> Handler A)
| Create (p f : Z) (k : Z -> Handler A)
| Destroy (event : Z) (k : Handler A)
| Squash (event : Z) (k : Handler A)
| SetFlags (event f : Z) (k : Handler A)
| ClearFlags (event f : Z) (k : Handler A)
| Look (event : Z) (k : Z -> Z -> Z -> Handler A)
| Stop (e : error).
Arguments Return {A}. Arguments Schedule {A}. Arguments Deschedule {A}. Arguments Reschedule {A}.
Arguments CurTick {A}. Arguments NextTick {A}. Arguments IsEmpty {A}. Arguments Create {A}. Arguments Destroy {A}.
Arguments Squash {A}. Arguments SetFlags {A}. Arguments ClearFlags {A}. Arguments Look {A}. Arguments Stop {A}.

(** A created event gets a free address; the destructor demands that it is not scheduled. *)
Fixpoint run {A Q} `{EventManager Q} (h : Handler A) (q : Q) (st : Events) : res (Q * Events * A) :=
  match h with
  | Return a => Ok (q, st, a)
  | Schedule event when global k => '(q, st) ← em_schedule event when global q st; run k q st
  | Deschedule event k => '(q, st) ← em_deschedule event q st; run k q st
  | Reschedule event when always k => '(q, st) ← em_reschedule event when always q st; run k q st
  | CurTick k => run (k (em_curTick q)) q st
  | NextTick k => when ← em_nextTick q st; run (k when) q st
  | IsEmpty k => run (k (em_empty q)) q st
  | Create p f k => e ← Event.new p f; let event := fresh (dom st : gset Z) in run (k event) q (<[event := e]> st)
  | Destroy event k => e ← event_at event st; _ ← assert (negb (Event.scheduled e)); run k q (delete event st)
  | Squash event k => st ← update_event event Event.squash st; run k q st
  | SetFlags event f k => e ← event_at event st; e ← Event.setFlags f e; run k q (<[event := e]> st)
  | ClearFlags event f k => e ← event_at event st; e ← Event.clearFlags f e; run k q (<[event := e]> st)
  | Look event k => e ← event_at event st; run (k (Event._when e) (Event._priority e) (Event.flags e)) q st
  | Stop e => Err e
  end.

Definition queue_manager (inParallelMode : bool) (curEventQueue : Z) : EventManager EventQueue.t := {|
  em_schedule := EventQueue.schedule inParallelMode curEventQueue;
  em_deschedule := EventQueue.deschedule inParallelMode curEventQueue;
  em_reschedule := EventQueue.reschedule inParallelMode curEventQueue;
  em_curTick := EventQueue.getCurTick;
  em_nextTick := EventQueue.nextTick;
  em_empty := EventQueue.empty;
|}.

(** A simulation: the objects are set up, then the loop runs; [handler] is what
    the events do, by their address. *)
Definition simulate {U} (inParallelMode : bool) (this : Z) (setup : Handler U) (handler : Z -> U -> Handler U) (fuel : nat)
    : res (Z * (EventQueue.t * Events * U)) :=
  let em := queue_manager inParallelMode this in
  '(q, st, u) ← run setup (EventQueue.new this) ∅;
  EventQueue.doSimLoop (fun event '(q, st, u) => run (handler event u) q st) fuel q st u.
