(* ===== verification/EventAgenda.v ===== *)
(** * EventAgenda: what the event queue promises

    The abstract queue is the list of the events that wait, the one scheduled
    last in front.  The next one is the first of those with the least tick and,
    among these, the least priority.  [Agenda] has the operations of
    [EventQueue] on this list; the code keeps the list arranged in the order of
    service and cut into bins, and this file holds the facts on such orders
    that do not depend on pointers. *)

From Stdlib Require Import Sorted Permutation.
From stdpp Require Import gmap.
From S2P Require Import Prelude EventQueue.

(** ** The order of service *)

(** Ticks and priorities, compared in this order. *)
Definition klt (a b : Z * Z) : bool := (a.1 <? b.1) || ((a.1 =? b.1) && (a.2 <? b.2)).
Definition kle (a b : Z * Z) : bool := (a.1 <? b.1) || ((a.1 =? b.1) && (a.2 <=? b.2)).

Definition key_of (e : Event.t) : Z * Z := (Event._when e, Event._priority e).
Definition key (st : Events) (x : Z) : Z * Z := from_option key_of (0, 0) (st !! x).

Lemma kle_klt a b : kle a b = negb (klt b a).
Proof. unfold kle, klt. lia. Qed.
Lemma klt_trans a b c : klt a b -> klt b c -> klt a c.
Proof. unfold klt. rewrite !Is_true_true. lia. Qed.
Lemma kle_klt_trans a b c : kle a b -> klt b c -> klt a c.
Proof. unfold kle, klt. rewrite !Is_true_true. lia. Qed.
Lemma klt_kle_trans a b c : klt a b -> kle b c -> klt a c.
Proof. unfold kle, klt. rewrite !Is_true_true. lia. Qed.
Lemma kle_trans a b c : kle a b -> kle b c -> kle a c.
Proof. unfold kle. rewrite !Is_true_true. lia. Qed.
Lemma kle_total a b : kle a b \/ kle b a.
Proof. unfold kle. rewrite !Is_true_true. lia. Qed.
Lemma klt_kle a b : klt a b -> kle a b.
Proof. unfold kle, klt. rewrite !Is_true_true. lia. Qed.
Lemma kle_refl a : kle a a.
Proof. unfold kle. rewrite Is_true_true. lia. Qed.
Lemma kle_cases a b : kle a b -> a = b \/ klt a b.
Proof.
  destruct a as [a1 a2], b as [b1 b2]. unfold kle, klt. rewrite !Is_true_true. simpl. intros Hle.
  destruct (decide (a1 = b1 /\ a2 = b2)) as [[-> ->]|]; [by left|right; lia].
Qed.
Lemma kle_when a b : kle a b -> a.1 <= b.1.
Proof. unfold kle. rewrite Is_true_true. lia. Qed.
Lemma klt_irrefl a : ~ klt a a.
Proof. unfold klt. rewrite Is_true_true. lia. Qed.

Section order.
Context (k : Z -> Z * Z).

(** The code puts an event before the first one that is not before it. *)
Fixpoint place (x : Z) (l : list Z) : list Z :=
  match l with
  | [] => [x]
  | y :: l' => if kle (k x) (k y) then x :: l else y :: place x l'
  end.

Definition arrange (l : list Z) : list Z := foldr place [] l.

Fixpoint first (l : list Z) : option Z :=
  match l with
  | [] => None
  | x :: l' => match first l' with Some y => if kle (k x) (k y) then Some x else Some y | None => Some x end
  end.

Definition in_order : list Z -> Prop := StronglySorted (fun x y => kle (k x) (k y)).

Lemma place_perm x l : place x l ≡ₚ x :: l.
Proof. induction l as [|y l IH]; simpl; [done|]. case_match; [done|]. rewrite IH. apply Permutation_swap. Qed.

Lemma arrange_perm l : arrange l ≡ₚ l.
Proof. induction l as [|x l IH]; simpl; [done|]. by rewrite place_perm, IH. Qed.

Lemma place_in_order x l : in_order l -> in_order (place x l).
Proof.
  unfold in_order. induction 1 as [|y l Hs IH Hy]; simpl; [repeat constructor|].
  destruct (kle (k x) (k y)) eqn:E.
  - constructor; [by constructor|]. constructor; [by rewrite E|].
    eapply list.Forall_impl; [exact Hy|]. intros z. apply kle_trans. by rewrite E.
  - constructor; [done|]. rewrite place_perm. constructor; [|done].
    destruct (kle_total (k x) (k y)) as [Hle|]; [by rewrite E in Hle|done].
Qed.

Lemma arrange_in_order l : in_order (arrange l).
Proof. induction l; simpl; [constructor|]. by apply place_in_order. Qed.

Lemma first_arrange l : first l = head (arrange l).
Proof.
  induction l as [|x l IH]; simpl; [done|]. rewrite IH. destruct (arrange l); simpl; [done|].
  by case_match.
Qed.

(** The first event waits, and none that waits comes before it. *)
Lemma first_least l x : first l = Some x -> x ∈ l /\ forall y, y ∈ l -> kle (k x) (k y).
Proof.
  rewrite first_arrange. pose proof (arrange_in_order l) as Hs. pose proof (arrange_perm l) as Hp.
  destruct (arrange l) as [|z m]; [done|]. intros [= ->]. apply StronglySorted_inv in Hs as [_ Hs].
  rewrite list.Forall_forall in Hs. split; [rewrite <-Hp; set_solver|].
  intros y. rewrite <-Hp. intros [->|]%elem_of_cons; [apply kle_refl|auto].
Qed.

Lemma place_before x y l : kle (k x) (k y) -> place x (y :: l) = x :: y :: l.
Proof. simpl. intros ->%Is_true_true. done. Qed.

Lemma place_front x l : Forall (fun y => kle (k x) (k y)) l -> place x l = x :: l.
Proof. destruct l; [done|]. intros [Hle _]%list.Forall_cons. by apply place_before. Qed.

Lemma place_app x l1 l2 : Forall (fun y => klt (k y) (k x)) l1 -> place x (l1 ++ l2) = l1 ++ place x l2.
Proof.
  induction 1 as [|y l1 Hy _ IH]; simpl; [done|].
  rewrite kle_klt. apply Is_true_true in Hy as ->. simpl. by rewrite IH.
Qed.

Lemma place_filter x y l : y <> x -> in_order l ->
  place y (filter (fun z => z <> x) l) = filter (fun z => z <> x) (place y l).
Proof.
  intros Hne. induction 1 as [|z l Hs IH Hz]; simpl.
  - by rewrite filter_cons_True by done.
  - destruct (kle (k y) (k z)) eqn:E.
    + rewrite (filter_cons _ y) by done. rewrite decide_True by done. apply place_front.
      rewrite list.Forall_forall. intros w [_ [->|Hw]%elem_of_cons]%list_elem_of_filter; [by rewrite E|].
      rewrite list.Forall_forall in Hz. eapply kle_trans; [|by apply Hz]. by rewrite E.
    + rewrite !filter_cons. case_decide; [|done]. simpl. by rewrite E, IH.
Qed.

Lemma arrange_filter x l : arrange (filter (fun z => z <> x) l) = filter (fun z => z <> x) (arrange l).
Proof.
  induction l as [|y l IH]; simpl; [done|]. rewrite filter_cons. case_decide as Hy.
  - simpl. rewrite IH. by apply place_filter, arrange_in_order.
  - subst y. rewrite IH. generalize (arrange l) as m. clear.
    induction m as [|z m IH]; simpl.
    + by rewrite filter_cons_False by naive_solver.
    + case_match; [by rewrite (filter_cons_False _ x) by naive_solver|].
      rewrite !filter_cons. by rewrite IH.
Qed.

End order.

Lemma place_ext k k' x l : k x = k' x -> Forall (fun y => k y = k' y) l -> place k x l = place k' x l.
Proof. intros Hx. induction 1 as [|y l Hy _ IH]; simpl; [done|]. by rewrite Hx, Hy, IH. Qed.

Lemma arrange_ext k k' l : Forall (fun y => k y = k' y) l -> arrange k l = arrange k' l.
Proof.
  induction 1 as [|y l Hy Hl IH]; simpl; [done|]. rewrite IH. apply place_ext; [done|].
  by rewrite (arrange_perm k' l).
Qed.

(** ** Bins *)

Section bins.
Context (k : Z -> Z * Z).

(** A bin holds the events of one key. *)
Definition bin_ok (b : list Z) : Prop := exists x b', b = x :: b' /\ Forall (fun y => k y = k x) b'.
Definition bin_lt (b b' : list Z) : Prop := Forall (fun x => Forall (fun y => klt (k x) (k y)) b') b.

Definition binned (bs : list (list Z)) : Prop := Forall bin_ok bs /\ StronglySorted bin_lt bs.

Lemma binned_cons b bs : binned (b :: bs) <-> bin_ok b /\ Forall (bin_lt b) bs /\ binned bs.
Proof. unfold binned. rewrite list.Forall_cons. split; [intros [[] []%StronglySorted_inv]|intros (? & ? & ? & ?)]; repeat constructor; auto. Qed.

Lemma binned_app bs bs' :
  binned (bs ++ bs') <-> binned bs /\ binned bs' /\ Forall (fun b => Forall (bin_lt b) bs') bs.
Proof.
  induction bs as [|b bs IH]; simpl.
  - split; [intros; split_and!; [split; constructor|done|constructor]|tauto].
  - rewrite !binned_cons, IH, list.Forall_app, list.Forall_cons. tauto.
Qed.

(** A bin keyed like [x] may change as long as it stays keyed like [x]. *)
Definition bin_like (v : Z * Z) (b : list Z) : Prop := b <> [] /\ Forall (fun y => k y = v) b.

Lemma bin_ok_like b : bin_ok b <-> exists v, bin_like v b.
Proof.
  split.
  - intros (x & b' & -> & Hb). exists (k x). split; [done|]. by constructor.
  - intros (v & Hne & Hb). destruct b as [|x b]; [done|]. apply list.Forall_cons in Hb as [Hx Hb].
    exists x, b. split; [done|]. by rewrite Hx.
Qed.

Lemma bin_lt_like v v' b b' : bin_like v b -> bin_like v' b' -> bin_lt b b' <-> klt v v'.
Proof.
  intros [Hne Hb] [Hne' Hb']. unfold bin_lt. split.
  - intros Hlt. destruct b as [|x b], b' as [|y b']; try done.
    apply list.Forall_cons in Hb as [<- _], Hb' as [<- _].
    by apply list.Forall_cons in Hlt as [[Hlt _]%list.Forall_cons _].
  - intros Hlt. rewrite list.Forall_forall in *. intros x ->%Hb. rewrite list.Forall_forall in *. by intros y ->%Hb'.
Qed.

Lemma bin_lt_r b x b' : bin_ok (x :: b') -> Forall (fun y => klt (k y) (k x)) b -> bin_lt b (x :: b').
Proof.
  intros (x' & b'' & [= <- <-] & Hb) Hall. eapply list.Forall_impl; [exact Hall|].  intros y Hy. constructor; [done|].
  eapply list.Forall_impl; [exact Hb|]. by intros z ->.
Qed.

Lemma bin_lt_l x b b' : bin_ok (x :: b) -> Forall (fun y => klt (k x) (k y)) b' -> bin_lt (x :: b) b'.
Proof.
  intros (x' & b'' & [= <- <-] & Hb) Hlt. constructor; [done|]. eapply list.Forall_impl; [exact Hb|]. by intros z ->.
Qed.

Lemma bin_lt_concat b bs :
  Forall (bin_lt b) bs <-> Forall (fun x => Forall (fun y => klt (k x) (k y)) (concat bs)) b.
Proof.
  unfold bin_lt. induction bs as [|b' bs IH]; simpl.
  - split; [intros _; rewrite list.Forall_forall; by constructor|constructor].
  - rewrite list.Forall_cons, IH, <-list.Forall_and. apply Forall_iff. intros x. by rewrite list.Forall_app.
Qed.

(** The keys of two runs of bins side by side. *)
Lemma binned_concat bs bs' :
  binned (bs ++ bs') <-> binned bs /\ binned bs' /\ Forall (fun x => Forall (fun y => klt (k x) (k y)) (concat bs')) (concat bs).
Proof.
  rewrite binned_app. enough (Forall (fun b => Forall (bin_lt b) bs') bs <-> Forall (fun x => Forall (fun y => klt (k x) (k y)) (concat bs')) (concat bs)) by tauto.
  induction bs as [|b bs IH]; simpl; [split; constructor|].
  by rewrite list.Forall_cons, list.Forall_app, bin_lt_concat, IH.
Qed.

(** The events of a bin queue are in order. *)
Lemma binned_in_order bs : binned bs -> in_order k (concat bs).
Proof.
  induction bs as [|b bs IH]; simpl; [intros _; constructor|]. rewrite binned_cons, bin_lt_concat.
  intros ((v & _ & Hv)%bin_ok_like & Hlt & Hbs).
  induction b as [|x b IHb]; simpl; [auto|].
  apply list.Forall_cons in Hv as [Hx Hv], Hlt as [Hxs Hlt]. constructor; [by apply IHb|].
  rewrite list.Forall_app. split.
  - eapply list.Forall_impl; [exact Hv|]. intros y ->. rewrite Hx. apply kle_refl.
  - eapply list.Forall_impl; [exact Hxs|]. intros y. apply klt_kle.
Qed.

End bins.

(** ** The abstract queue *)

Module Agenda.

Record t := mk { this : Z; waiting : list Z; _curTick : Z; async_queue : list Z }.
#[global] Instance t_eta : Etaed t := fun a => mk (this a) (waiting a) (_curTick a) (async_queue a).

Definition new (this : Z) : t := mk this [] 0 [].

Definition empty (a : t) : bool := bool_decide (waiting a = []).
Definition next (a : t) (st : Events) : res Z := match first (key st) (waiting a) with Some x => Ok x | None => Err Undefined end.
Definition nextTick (a : t) (st : Events) : res Z := event ← next a st; e ← event_at event st; Ok (Event._when e).

Definition insert (event : Z) (a : t) : t := a <| waiting ::= cons event |>.
Definition drop (event : Z) (a : t) : t := a <| waiting ::= filter (fun x => x <> event) |>.

Definition remove (event : Z) (a : t) (st : Events) : res t :=
  if empty a then Err PanicCalled
  else
    e ← event_at event st;
    _ ← assert (bool_decide (Event.queue e = Some (this a)));
    if bool_decide (event ∈ waiting a) then Ok (drop event a) else Err PanicCalled.

Definition asyncInsert (event : Z) (a : t) : t := a <| async_queue ::= (fun l => l ++ [event]) |>.
Definition handleAsyncInsertions (a : t) : t := (foldl (fun a event => insert event a) a (async_queue a)) <| async_queue := [] |>.

Section mode.
Context (inParallelMode : bool) (curEventQueue : Z).

Definition schedule (event when : Z) (global : bool) (a : t) (st : Events) : res (t * Events) :=
  _ ← assert (_curTick a <=? when);
  e ← event_at event st;
  _ ← assert (negb (Event.scheduled e));
  _ ← assert (Event.initialized e);
  st ← update_event event (fun e => Event.set Event.Scheduled (Event.setWhen when (this a) e)) st;
  Ok (if inParallelMode && (negb (this a =? curEventQueue) || global) then asyncInsert event a else insert event a, st).

Definition deschedule (event : Z) (a : t) (st : Events) : res (t * Events) :=
  e ← event_at event st;
  _ ← assert (Event.scheduled e);
  _ ← assert (Event.initialized e);
  _ ← assert (negb inParallelMode || (this a =? curEventQueue));
  a ← remove event a st;
  st ← update_event event (fun e => Event.clear Event.Scheduled (Event.clear Event.Squashed e)) st;
  st ← release event st;
  Ok (a, st).

Definition reschedule (event when : Z) (always : bool) (a : t) (st : Events) : res (t * Events) :=
  _ ← assert (_curTick a <=? when);
  e ← event_at event st;
  _ ← assert (always || Event.scheduled e);
  _ ← assert (Event.initialized e);
  _ ← assert (negb inParallelMode || (this a =? curEventQueue));
  a ← (if Event.scheduled e then remove event a st else Ok a);
  st ← update_event event (fun e => Event.set Event.Scheduled (Event.clear Event.Squashed (Event.setWhen when (this a) e))) st;
  Ok (insert event a, st).

Definition manager : EventManager t := {|
  em_schedule := schedule; em_deschedule := deschedule; em_reschedule := reschedule;
  em_curTick := _curTick; em_nextTick := nextTick; em_empty := empty;
|}.

End mode.

Section process.
Context {U : Type} (process : Z -> t * Events * U -> res (t * Events * U)).

Definition serviceOne (a : t) (st : Events) (u : U) : res (option Z * (t * Events * U)) :=
  event ← next a st;
  st ← update_event event (Event.clear Event.Scheduled) st;
  let a := drop event a in
  e ← event_at event st;
  if negb (Event.squashed e) then
    '(a, st, u) ← process event (a <| _curTick := Event._when e |>, st, u);
    e ← event_at event st;
    if Event.isExitEvent e then
      _ ← assert (negb (Event.isSet Event.Managed e) || negb (Event.isSet Event.IsMainQueue e));
      Ok (Some event, (a, st, u))
    else st ← release event st; Ok (None, (a, st, u))
  else
    st ← update_event event (Event.clear Event.Squashed) st;
    st ← release event st;
    Ok (None, (a, st, u)).

(** Nothing compares the tick of the next event with the present. *)
Fixpoint simLoop (fuel : nat) (a : t) (st : Events) (u : U) : res (Z * (t * Events * U)) :=
  match fuel with
  | O => Err OutOfFuel
  | S fuel =>
      _ ← assert (negb (empty a));
      '(exit_event, (a, st, u)) ← serviceOne a st u;
      match exit_event with Some e => Ok (e, (a, st, u)) | None => simLoop fuel a st u end
  end.

End process.

Definition simulate {U} (inParallelMode : bool) (this : Z) (setup : Handler U) (handler : Z -> U -> Handler U) (fuel : nat)
    : res (Z * (t * Events * U)) :=
  let em := manager inParallelMode this in
  '(a, st, u) ← run setup (new this) ∅;
  simLoop (fun event '(a, st, u) => run (handler event u) a st) fuel (handleAsyncInsertions a) st u.

End Agenda.
