(* ===== verification/EventLists.v ===== *)
(** * EventLists: the linked lists of the event queue

    The events that wait hang on the head of the queue as a list of stacks.
    [bins] says which events hang there; the lemmas give what [insert],
    [remove] and the pop of [serviceOne] do to them. *)

From Stdlib Require Import Sorted Permutation.
From stdpp Require Import gmap.
From S2P Require Import Prelude EventQueue EventAgenda.

(** An event without its links. *)
Definition erase (e : Event.t) : Event.t := e <| Event.nextBin := None |> <| Event.nextInBin := None |>.
Definition skin (st : Events) : Events := erase <$> st.

(** ** The lists *)

Fixpoint stack (st : Events) (p : option Z) (l : list Z) : Prop :=
  match l with
  | [] => p = None
  | x :: l' => p = Some x /\ exists e, st !! x = Some e /\ stack st (Event.nextInBin e) l'
  end.

(** Only the event on top of a stack has a link to the next one. *)
Fixpoint bins (st : Events) (p : option Z) (bs : list (list Z)) : Prop :=
  match bs with
  | [] => p = None
  | b :: bs' => exists x b' e, b = x :: b' /\ p = Some x /\ st !! x = Some e /\
      stack st (Event.nextInBin e) b' /\ bins st (Event.nextBin e) bs'
  end.

Definition same_in (st st' : Events) (x : Z) : Prop := Event.nextInBin <$> st' !! x = Event.nextInBin <$> st !! x.
Definition same_links (st st' : Events) (x : Z) : Prop :=
  same_in st st' x /\ Event.nextBin <$> st' !! x = Event.nextBin <$> st !! x.

Lemma stack_same st st' p l : Forall (same_in st st') l -> stack st p l -> stack st' p l.
Proof.
  intros Hl. revert p. induction Hl as [|x l Hx _ IH]; simpl; [done|]. intros p (-> & e & He & Hs).
  unfold same_in in Hx. rewrite He in Hx. apply fmap_Some in Hx as (e' & He' & Heq).
  split; [done|]. exists e'. rewrite <-Heq. auto.
Qed.

(** The bins after [x] may be others. *)
Lemma bins_splice st st' p bs1 x b bs2 q bs2' :
  bins st p (bs1 ++ (x :: b) :: bs2) -> Forall (same_links st st') (concat bs1) -> Forall (same_in st st') (x :: b) ->
  Event.nextBin <$> st' !! x = Some q -> bins st' q bs2' -> bins st' p (bs1 ++ (x :: b) :: bs2').
Proof.
  intros Hb H1 [Hx Hs]%list.Forall_cons Hq H2. revert p Hb.
  induction bs1 as [|b1 bs1 IH]; simpl in *; intros p.
  - intros (? & ? & e & [= <- <-] & -> & He & Hst & _). unfold same_in in Hx. rewrite He in Hx.
    apply fmap_Some in Hx as (e' & He' & Heq). exists x, b, e'. rewrite He' in Hq. injection Hq as ->.
    split_and!; [done..| |done]. rewrite <-Heq. by eapply stack_same.
  - intros (y & b' & e & -> & -> & He & Hst & Hb). apply list.Forall_app in H1 as [[[Hy1 Hy2] Hb']%list.Forall_cons H1].
    unfold same_in in Hy1. rewrite He in Hy1, Hy2.
    apply fmap_Some in Hy1 as (e' & He' & Heq). rewrite He' in Hy2. injection Hy2 as Heq2.
    exists y, b', e'. rewrite <-Heq, Heq2. split_and!; [done..| |by apply IH].
    eapply stack_same; [|done]. eapply list.Forall_impl; [exact Hb'|]. by intros ? [].
Qed.

Lemma bins_same st st' p bs : Forall (same_links st st') (concat bs) -> bins st p bs -> bins st' p bs.
Proof.
  revert p. induction bs as [|b bs IH]; simpl; intros p; [done|].
  intros [Hb Hbs]%list.Forall_app (x & b' & e & -> & -> & He & Hst & Hr).
  apply list.Forall_cons in Hb as [[Hx1 Hx2] Hb]. unfold same_in in Hx1. rewrite He in Hx1, Hx2.
  apply fmap_Some in Hx1 as (e' & He' & Heq). rewrite He' in Hx2. injection Hx2 as Heq2.
  exists x, b', e'. rewrite <-Heq, Heq2. split_and!; [done..| |by apply IH].
  eapply stack_same; [|done]. eapply list.Forall_impl; [exact Hb|]. by intros ? [].
Qed.

Lemma same_links_other st x e y : y <> x -> same_links st (<[x := e]> st) y.
Proof. intros Hne. unfold same_links, same_in. by rewrite lookup_insert_ne. Qed.

Lemma same_links_others st x e l : x ∉ l -> Forall (same_links st (<[x := e]> st)) l.
Proof. intros Hx. rewrite list.Forall_forall. intros y Hy. apply same_links_other. set_solver. Qed.

Lemma same_in_others st x e l : x ∉ l -> Forall (same_in st (<[x := e]> st)) l.
Proof. intros Hx. eapply list.Forall_impl; [by apply same_links_others|]. by intros ? []. Qed.

Lemma same_in_update st x e e' l : st !! x = Some e -> Event.nextInBin e' = Event.nextInBin e -> Forall (same_in st (<[x := e']> st)) l.
Proof.
  intros He Heq. rewrite list.Forall_forall. intros y _. unfold same_in. destruct (decide (y = x)) as [->|].
  - rewrite lookup_insert_eq, He. simpl. by rewrite Heq.
  - by rewrite lookup_insert_ne.
Qed.

Lemma same_links_update st x e e' l :
  st !! x = Some e -> Event.nextInBin e' = Event.nextInBin e -> Event.nextBin e' = Event.nextBin e ->
  Forall (same_links st (<[x := e']> st)) l.
Proof.
  intros He Heq1 Heq2. rewrite list.Forall_forall. intros y _. unfold same_links, same_in. destruct (decide (y = x)) as [->|].
  - rewrite lookup_insert_eq, He. simpl. by rewrite Heq1, Heq2.
  - by rewrite lookup_insert_ne.
Qed.

Lemma same_in_trans st st' st'' l : Forall (same_in st st') l -> Forall (same_in st' st'') l -> Forall (same_in st st'') l.
Proof.
  rewrite !list.Forall_forall. unfold same_in. intros Hl Hl' x Hx. by rewrite Hl', Hl.
Qed.

Lemma same_links_trans st st' st'' l :
  Forall (same_links st st') l -> Forall (same_links st' st'') l -> Forall (same_links st st'') l.
Proof.
  rewrite !list.Forall_forall. unfold same_links, same_in. intros Hl Hl' x Hx.
  destruct (Hl _ Hx), (Hl' _ Hx). split; congruence.
Qed.

(** ** Sizes *)

Lemma stack_dom st p l x : stack st p l -> x ∈ l -> is_Some (st !! x).
Proof.
  revert p. induction l as [|y l IH]; simpl; intros p; [set_solver|]. intros (-> & e & He & Hs) [->|]%elem_of_cons; eauto.
Qed.

Lemma bins_dom st p bs x : bins st p bs -> x ∈ concat bs -> is_Some (st !! x).
Proof.
  revert p. induction bs as [|b bs IH]; simpl; intros p; [set_solver|].
  intros (y & b' & e & -> & -> & He & Hs & Hr). simpl. rewrite elem_of_cons, elem_of_app.
  intros [->|[Hx|Hx]]; eauto using stack_dom.
Qed.

Lemma bins_length st p bs : bins st p bs -> (length bs <= length (concat bs))%nat.
Proof.
  revert p. induction bs as [|b bs IH]; simpl; intros p; [done|]. intros (y & b' & e & -> & _ & _ & _ & Hr%IH).
  simpl. rewrite length_app. lia.
Qed.

Lemma length_le_size (st : Events) l : NoDup l -> (forall x, x ∈ l -> is_Some (st !! x)) -> (length l <= size st)%nat.
Proof.
  intros Hnd Hdom. rewrite <-(size_list_to_set (C := gset Z) l), <-size_dom by done.
  apply subseteq_size. intros x Hx%elem_of_list_to_set. by apply elem_of_dom, Hdom.
Qed.

Lemma bins_size st p bs : bins st p bs -> NoDup (concat bs) -> (length (concat bs) <= size st)%nat.
Proof. intros Hb Hnd. apply length_le_size; [done|]. intros x. by eapply bins_dom. Qed.

(** ** Erased stores *)


Lemma skin_key st x : key (skin st) x = key st x.
Proof. unfold key, skin. rewrite lookup_fmap. by destruct (st !! x). Qed.

Lemma skin_same_key st st' x : skin st' = skin st -> key st' x = key st x.
Proof. intros Heq. by rewrite <-(skin_key st'), Heq, skin_key. Qed.

Lemma skin_update st x e e' : st !! x = Some e -> erase e' = erase e -> skin (<[x := e']> st) = skin st.
Proof. intros He Heq. unfold skin. rewrite fmap_insert, Heq. apply insert_id. by rewrite lookup_fmap, He. Qed.

Lemma skin_lookup st x : skin st !! x = erase <$> st !! x.
Proof. apply lookup_fmap. Qed.

Lemma lt_key e e' : Event.lt e e' = klt (key_of e) (key_of e').
Proof. done. Qed.
Lemma le_key e e' : Event.le e e' = kle (key_of e) (key_of e').
Proof. done. Qed.
Lemma eq_key e e' : Event.eq e e' = bool_decide (key_of e = key_of e').
Proof.
  unfold Event.eq, key_of. apply eq_true_iff_eq. rewrite bool_decide_eq_true, andb_true_iff, !Z.eqb_eq.
  split; [by intros [-> ->]|by intros [= -> ->]].
Qed.
Lemma key_at st x e : st !! x = Some e -> key st x = key_of e.
Proof. unfold key. by intros ->. Qed.

Lemma event_at_Ok st x e : st !! x = Some e -> event_at x st = Ok e.
Proof. unfold event_at. by intros ->. Qed.
Lemma update_event_Ok st x e f : st !! x = Some e -> update_event x f st = Ok (<[x := f e]> st).
Proof. intros He. unfold update_event. by rewrite (event_at_Ok _ _ _ He). Qed.

(** ** Insertion *)

Definition lower (st : Events) (e : Event.t) (b : list Z) : Prop := exists x b', b = x :: b' /\ klt (key st x) (key_of e).

(** The walk stops in front of the first bin that is not lower. *)
Lemma find_bin_spec st e fuel prev b curr bs : bins st curr bs -> (length bs < fuel)%nat ->
  exists bs1 prev' b' curr' bs2, EventQueue.find_bin fuel e prev curr st = Ok (prev', curr') /\
    (prev :: b) :: bs = bs1 ++ (prev' :: b') :: bs2 /\ bins st curr' bs2 /\
    (klt (key st prev) (key_of e) -> Forall (lower st e) (bs1 ++ [prev' :: b'])) /\
    (forall x b2 bs2', bs2 = (x :: b2) :: bs2' -> ~ klt (key st x) (key_of e)).
Proof.
  revert prev b curr bs. induction fuel as [|fuel IH]; simpl; intros prev b curr bs Hb Hf; [lia|].
  destruct bs as [|b1 bs]; simpl in Hb.
  - subst curr. exists [], prev, b, None, []. split_and!; [done..| |done]. intros Hlt.
    apply list.Forall_singleton. by exists prev, b.
  - destruct Hb as (x & b' & k & -> & -> & Hk & Hst & Hb). rewrite (event_at_Ok _ _ _ Hk). simpl.
    rewrite lt_key, <-(key_at st x k) by done. destruct (klt (key st x) (key_of e)) eqn:E.
    + destruct (IH x b' _ _ Hb) as (bs1 & prev' & b2 & curr' & bs2 & -> & Heq & Hb2 & Hlow & Hstop); [simpl in Hf; lia|].
      exists ((prev :: b) :: bs1), prev', b2, curr', bs2. rewrite Heq. split_and!; [done..| |done].
      intros Hlt. simpl. constructor; [by exists prev, b|]. apply Hlow. by rewrite E.
    + exists [], prev, b, (Some x), ((x :: b') :: bs). split_and!; [done..| | |].
      * simpl. by exists x, b', k.
      * intros Hlt. apply list.Forall_singleton. by exists prev, b.
      * intros x' ? ? [= <- <- <-]. rewrite E. by intros [].
Qed.

#[local] Arguments EventQueue.find_bin : simpl never.

(** Every event of a lower bin is lower. *)
Lemma lower_all st e bs : binned (key st) bs -> Forall (lower st e) bs -> Forall (fun y => klt (key st y) (key_of e)) (concat bs).
Proof.
  induction bs as [|b bs IH]; simpl; [constructor|]. rewrite binned_cons, list.Forall_cons.
  intros ((x & b' & -> & Hb) & _ & Hbs) ((? & ? & [= <- <-] & Hlt) & Hlow). apply list.Forall_app. split; [|auto].
  constructor; [done|]. eapply list.Forall_impl; [exact Hb|]. by intros y ->.
Qed.

(** The bins from the first one that is not lower on. *)
Lemma insertBefore_spec st p bs event e :
  bins st p bs -> binned (key st) bs -> event ∉ concat bs -> st !! event = Some e ->
  (forall x b2 bs2', bs = (x :: b2) :: bs2' -> ~ klt (key st x) (key_of e)) ->
  exists e' bs', insertBefore event p st = Ok (event, <[event := e']> st) /\ erase e' = erase e /\
    bins (<[event := e']> st) (Some event) bs' /\ binned (key st) bs' /\
    concat bs' = place (key st) event (concat bs).
Proof.
  intros Hb Hk Hnew He Hstop. unfold insertBefore. rewrite (event_at_Ok _ _ _ He). simpl.
  assert (bin_ok (key st) [event]) as Hone by (by exists event, []).
  destruct bs as [|b bs]; simpl in Hb.
  - subst p. eexists _, [[event]]. split_and!; [done..| | |done].
    + eexists event, [], _. split_and!; [done..|by rewrite lookup_insert_eq|done|done].
    + apply binned_cons. split_and!; [done|constructor|split; constructor].
  - destruct Hb as (c & b' & k & -> & -> & Hc & Hst & Hb). rewrite (event_at_Ok _ _ _ Hc). simpl.
    specialize (Hstop c b' bs eq_refl). simpl in Hnew.
    assert (event <> c /\ event ∉ b' /\ event ∉ concat bs) as (Hn1 & Hn2 & Hn3) by set_solver.
    assert (kle (key st event) (key st c)) as Hle by (by rewrite kle_klt, (key_at _ _ _ He); apply negb_prop_intro).
    rewrite (proj1 (Is_true_true _) Hle), lt_key, <-(key_at st c k), <-(key_at st event e) by done.
    apply kle_cases in Hle as [Heq|Hlt].
    + rewrite Heq, (not_true_is_false (klt _ _)) by (intros ?%Is_true_true; by eapply klt_irrefl).
      eexists _, ((event :: c :: b') :: bs). split_and!; [done..| | |done].
      * eexists event, (c :: b'), _. split_and!; [done..|by rewrite lookup_insert_eq| |]; simpl.
        -- split; [done|]. exists k. rewrite lookup_insert_ne by done. split; [done|].
           eapply stack_same; [by apply same_in_others|done].
        -- eapply bins_same; [by apply same_links_others|done].
      * apply binned_cons in Hk as ((? & ? & [= <- <-] & Hk) & Hlt & Hks). apply binned_cons. split_and!; [|..|done].
        -- exists event, (c :: b'). split; [done|]. constructor; [done|]. by rewrite Heq.
        -- eapply list.Forall_impl; [exact Hlt|]. intros b2 [Hc2 Hb2]%list.Forall_cons. constructor; [by rewrite Heq|]. by constructor.
    + rewrite (proj1 (Is_true_true _) Hlt).
      eexists _, ([event] :: (c :: b') :: bs). split_and!; [done..| | |done].
      * eexists event, [], _. split_and!; [done..|by rewrite lookup_insert_eq|done|]. simpl.
        exists c, b', k. rewrite lookup_insert_ne by done. split_and!; [done..| |].
        -- eapply stack_same; [by apply same_in_others|done].
        -- eapply bins_same; [by apply same_links_others|done].
      * apply (binned_concat _ [[event]]). split_and!; [|done|].
        { apply binned_cons. split_and!; [done|constructor|split; constructor]. }
        simpl. apply list.Forall_singleton. apply binned_in_order in Hk. simpl in Hk.
        apply StronglySorted_inv in Hk as [_ Hk]. constructor; [done|].
        eapply list.Forall_impl; [exact Hk|]. intros y. by apply klt_kle_trans.
Qed.

(** A new list behind the bin of [prev]. *)
Lemma bins_relink st st' p bs1 prev b bs2 h bs2' :
  bins st p (bs1 ++ (prev :: b) :: bs2) -> NoDup (concat bs1 ++ prev :: b) ->
  (forall y, y ∈ concat bs1 ++ prev :: b -> same_links st st' y) -> bins st' h bs2' -> prev ∉ concat bs2' ->
  exists st'', update_event prev (fun e => e <| Event.nextBin := h |>) st' = Ok st'' /\ skin st'' = skin st' /\
    bins st'' p (bs1 ++ (prev :: b) :: bs2').
Proof.
  intros Hb Hnd Hsame Hb2 Hprev.
  assert (is_Some (st !! prev)) as [ep Hep] by (eapply (bins_dom _ _ _ _ Hb); rewrite concat_app; set_solver).
  destruct (Hsame prev) as [Hp _]; [set_solver|]. unfold same_in in Hp. rewrite Hep in Hp. apply fmap_Some in Hp as (ep' & Hep' & Hin).
  rewrite (update_event_Ok _ _ _ _ Hep'). eexists. split_and!; [done|by eapply skin_update|].
  eapply (bins_splice st); [exact Hb| | |by rewrite lookup_insert_eq|].
  - eapply same_links_trans; [rewrite list.Forall_forall; intros y Hy; apply Hsame; set_solver|].
    apply same_links_others. apply list.NoDup_app in Hnd as (_ & Hnd & _). set_solver.
  - eapply same_in_trans; [rewrite list.Forall_forall; intros y Hy; apply Hsame; set_solver|]. by eapply same_in_update.
  - eapply bins_same; [by apply same_links_others|done].
Qed.

Lemma insert_spec q st bs event e :
  bins st (EventQueue.head q) bs -> binned (key st) bs -> NoDup (concat bs) -> event ∉ concat bs -> st !! event = Some e ->
  exists h st' bs', EventQueue.insert event q st = Ok (q <| EventQueue.head := h |>, st') /\ skin st' = skin st /\
    bins st' h bs' /\ binned (key st) bs' /\ concat bs' = place (key st) event (concat bs).
Proof.
  intros Hb Hk Hnd Hnew He. unfold EventQueue.insert. rewrite (event_at_Ok _ _ _ He). simpl.
  destruct bs as [|b bs].
  { simpl in Hb. rewrite Hb.
    destruct (insertBefore_spec st None [] event e) as (e' & bs' & -> & Hee & Hb' & Hk' & Hc); try done. simpl.
    eexists _, _, bs'. split_and!; [done|by eapply skin_update|done..]. }
  pose proof (bins_size _ _ _ Hb Hnd) as Hsize. pose proof (bins_length _ _ _ Hb) as Hlen.
  pose proof Hb as (h & b' & k & -> & Hh & Hhk & Hst & Hb2). rewrite Hh, (event_at_Ok _ _ _ Hhk). simpl.
  rewrite le_key, kle_klt, <-(key_at st h k) by done. destruct (klt (key st h) (key_of e)) eqn:E; simpl.
  - destruct (find_bin_spec st e (S (size st)) h b' _ _ Hb2) as (bs1 & prev & b1 & curr & bs2 & -> & Heq & Hb3 & Hlow & Hstop); [simpl in *; lia|].
    simpl. specialize (Hlow ltac:(by rewrite E)). rewrite Heq in *.
    rewrite (cons_middle _ bs1), app_assoc in Hk. pose proof Hk as (Hk1 & Hk2 & Hk3)%binned_concat.
    pose proof (lower_all _ _ _ Hk1 Hlow) as Hlt.
    rewrite concat_app in Hnew, Hnd. simpl in Hnew, Hnd.
    destruct (insertBefore_spec st curr bs2 event e) as (e' & bs' & -> & Hee & Hb' & Hk' & Hc); try done; [set_solver|].
    simpl. assert (prev ∉ concat bs') as Hpb.
    { rewrite Hc, place_perm. apply list.NoDup_app in Hnd as (_ & _ & Hnd).
      apply NoDup_cons_1_1 in Hnd. set_solver. }
    rewrite app_comm_cons, app_assoc in Hnd. apply list.NoDup_app in Hnd as (Hnd & _ & _).
    destruct (bins_relink st (<[event := e']> st) (EventQueue.head q) bs1 prev b1 bs2 (Some event) bs') as (st'' & -> & Hskin & Hb''); [done..| |done|done|].
    { intros y Hy. apply same_links_other. set_solver. }
    eexists (EventQueue.head q), st'', (bs1 ++ (prev :: b1) :: bs'). split_and!; [by destruct q|by rewrite Hskin; eapply skin_update|done|..].
    + rewrite (cons_middle _ bs1), app_assoc. apply binned_concat. split_and!; [done..|].
      rewrite Hc. rewrite list.Forall_forall in Hlt, Hk3 |- *. intros x Hx. rewrite place_perm. constructor; [|by apply Hk3].
      rewrite (key_at st event e) by done. by apply Hlt.
    + change (concat (bs1 ++ (prev :: b1) :: bs') = place (key st) event (concat ((h :: b') :: bs))).
      rewrite Heq, (cons_middle _ bs1 bs'), (cons_middle _ bs1 bs2), !app_assoc, !(concat_app (bs1 ++ _)), Hc, place_app; [done|].
      by rewrite (key_at st event e).
  - destruct (insertBefore_spec st (Some h) ((h :: b') :: bs) event e) as (e' & bs' & -> & Hee & Hb' & Hk' & Hc); try done.
    { by rewrite <-Hh. } { intros ? ? ? [= <- <- <-]. rewrite E. by intros []. }
    simpl. eexists _, _, bs'. split_and!; [done|by eapply skin_update|done..].
Qed.

(** ** Removal *)

Notation without event := (filter (fun x => x <> event)).

Lemma without_id (event : Z) (l : list Z) : event ∉ l -> without event l = l.
Proof.
  intros Hl. induction l as [|x l IH]; [done|].
  rewrite filter_cons_True by set_solver. rewrite IH; [done|set_solver].
Qed.

Lemma unlink_spec st event fuel curr ec b :
  st !! curr = Some ec -> stack st (Event.nextInBin ec) b -> NoDup (curr :: b) -> (length b < fuel)%nat -> event ∈ b ->
  exists x ex ex', unlink fuel event curr (Event.nextInBin ec) st = Ok (<[x := ex']> st) /\ x ∈ curr :: b /\
    st !! x = Some ex /\ erase ex' = erase ex /\ Event.nextBin ex' = Event.nextBin ex /\
    stack (<[x := ex']> st) (Some curr) (curr :: without event b).
Proof.
  revert curr ec b. induction fuel as [|fuel IH]; intros curr ec b Hc Hs Hnd Hf Hin; [lia|].
  destruct b as [|n b]; [set_solver|]. destruct Hs as (Hn & k & Hk & Hs). simpl. rewrite Hn, (event_at_Ok _ _ _ Hk). simpl.
  apply list.NoDup_cons in Hnd as [Hcb Hnd]. pose proof Hnd as [Hnb _]%list.NoDup_cons.
  destruct (Z.eqb_spec event n) as [->|Hne].
  - rewrite (update_event_Ok _ _ _ _ Hc). eexists curr, ec, _. split_and!; [done|set_solver|done..|].
    eexists. split; [by rewrite lookup_insert_eq|]. simpl.
    rewrite filter_cons_False by naive_solver. rewrite without_id by done.
    eapply stack_same; [apply same_in_others; set_solver|done].
  - destruct (IH n k b) as (x & ex & ex' & -> & Hx & Hex & Her & Hnb' & Hs'); [done..|simpl in Hf; lia|set_solver|].
    exists x, ex, ex'. split_and!; [done|set_solver|done..|].
    exists ec. rewrite lookup_insert_ne by set_solver. split; [done|].
    rewrite filter_cons_True by done. by rewrite Hn.
Qed.

Lemma unlink_panics st event fuel curr p b :
  stack st p b -> (length b < fuel)%nat -> event ∉ b -> unlink fuel event curr p st = Err PanicCalled.
Proof.
  revert curr p b. induction fuel as [|fuel IH]; intros curr p b Hs Hf Hin; [lia|].
  destruct b as [|n b]; simpl in *; [by rewrite Hs|]. destruct Hs as (-> & k & Hk & Hs). rewrite (event_at_Ok _ _ _ Hk). simpl.
  rewrite (proj2 (Z.eqb_neq event n)) by set_solver. apply (IH _ _ b); [done|lia|set_solver].
Qed.

#[local] Arguments unlink : simpl never.

(** An empty bin goes. *)
Definition solid (b : list Z) : list (list Z) := match b with [] => [] | _ => [b] end.

Lemma concat_solid b : concat (solid b) = b.
Proof. destruct b; simpl; [done|]. by rewrite app_nil_r. Qed.

Lemma removeItem_spec st event top b bs :
  bins st (Some top) ((top :: b) :: bs) -> NoDup (concat ((top :: b) :: bs)) -> event ∈ top :: b ->
  exists p st', removeItem event top st = Ok (p, st') /\ skin st' = skin st /\
    bins st' p (solid (without event (top :: b)) ++ bs) /\ (forall y, y ∉ top :: b -> same_links st st' y).
Proof.
  intros Hb Hnd Hin. pose proof (bins_size _ _ _ Hb Hnd) as Hsize. simpl in Hsize. rewrite length_app in Hsize.
  destruct Hb as (? & ? & et & [= <- <-] & _ & Ht & Hs & Hb). simpl in Hnd.
  pose proof Hnd as [Htb Hnd']%list.NoDup_cons. pose proof Hnd' as (Hndb & Hdis & _)%list.NoDup_app.
  unfold removeItem. rewrite (event_at_Ok _ _ _ Ht). simpl. destruct (Z.eqb_spec event top) as [->|Hne].
  - rewrite filter_cons_False by naive_solver. rewrite without_id by set_solver.
    destruct b as [|n b]; simpl in Hs.
    + rewrite Hs. exists (Event.nextBin et), st. by split_and!.
    + destruct Hs as (-> & en & Hn & Hs). rewrite (update_event_Ok _ _ _ _ Hn). simpl. eexists (Some n), _.
      split_and!; [done|by eapply skin_update| |].
      * eexists n, b, _. split_and!; [done..|by rewrite lookup_insert_eq| |]; simpl.
        -- eapply stack_same; [|done]. apply same_in_others. by apply NoDup_cons_1_1 in Hndb.
        -- eapply bins_same; [|done]. apply same_links_others. set_solver.
      * intros y Hy. apply same_links_other. set_solver.
  - destruct (unlink_spec st event (S (size st)) top et b) as (x & ex & ex' & -> & Hx & Hex & Her & Hnb & Hs'); [done..| |lia|set_solver|].
    { constructor; [set_solver|done]. }
    simpl. rewrite filter_cons_True by done. eexists (Some top), _.
    assert (x ∉ concat bs) as Hxbs by set_solver.
    split_and!; [done|by eapply skin_update| |].
    + destruct Hs' as (_ & et' & Ht' & Hs'). simpl. eexists top, _, et'. split_and!; [done..|].
      replace (Event.nextBin et') with (Event.nextBin et); [eapply bins_same; [|done]; by apply same_links_others|].
      destruct (decide (x = top)) as [->|]; [|rewrite lookup_insert_ne in Ht' by done; congruence].
      rewrite lookup_insert_eq in Ht'. congruence.
    + intros y Hy. apply same_links_other. set_solver.
Qed.

Lemma removeItem_panics st event top b bs :
  bins st (Some top) ((top :: b) :: bs) -> NoDup (concat ((top :: b) :: bs)) -> event ∉ top :: b ->
  removeItem event top st = Err PanicCalled.
Proof.
  intros Hb Hnd Hin. pose proof (bins_size _ _ _ Hb Hnd) as Hsize. simpl in Hsize. rewrite length_app in Hsize.
  destruct Hb as (? & ? & et & [= <- <-] & _ & Ht & Hs & Hb).
  unfold removeItem. rewrite (event_at_Ok _ _ _ Ht). simpl. rewrite (proj2 (Z.eqb_neq event top)) by set_solver.
  by rewrite (unlink_panics st event _ top _ b) by (done || lia || set_solver).
Qed.

Lemma binned_without k event bs1 b bs2 : binned k (bs1 ++ b :: bs2) -> binned k (bs1 ++ solid (without event b) ++ bs2).
Proof.
  rewrite (cons_middle b bs1), !binned_concat, concat_app, concat_app, concat_solid. simpl.
  intros (H1 & (Hb & H2 & Hb2) & H12). rewrite app_nil_r in *.
  assert (forall P : Z -> Prop, Forall P b -> Forall P (without event b)) as Hsub.
  { intros P. rewrite !list.Forall_forall. intros HP x [_ Hx]%list_elem_of_filter. auto. }
  split_and!; [done| |done|by apply Hsub|].
  - apply binned_cons in Hb as ((v & _ & Hv)%bin_ok_like & _ & _). apply Hsub in Hv.
    destruct (without event b) as [|x b']; [split; constructor|]. apply binned_cons.
    split_and!; [|constructor|split; constructor]. apply bin_ok_like. by exists v.
  - eapply list.Forall_impl; [exact H12|]. intros x. rewrite !list.Forall_app. naive_solver.
Qed.

(** An event is in the first bin if it has its key. *)
Lemma in_first_bin k x b bs y : binned k ((x :: b) :: bs) -> y ∈ concat ((x :: b) :: bs) -> k x = k y -> y ∈ x :: b.
Proof.
  intros (_ & Hlt & _)%binned_cons [?|Hy]%elem_of_app Heq; [done|]. apply bin_lt_concat, list.Forall_cons in Hlt as [Hlt _].
  rewrite list.Forall_forall in Hlt. apply Hlt in Hy. rewrite Heq in Hy. by apply klt_irrefl in Hy.
Qed.

Lemma first_bin_le k x b bs y : binned k ((x :: b) :: bs) -> y ∈ concat ((x :: b) :: bs) -> kle (k x) (k y).
Proof.
  intros Hk%binned_in_order [->|Hy]%elem_of_cons; [apply kle_refl|]. apply StronglySorted_inv in Hk as [_ Hk].
  rewrite list.Forall_forall in Hk. auto.
Qed.

Lemma lower_not_in st event e bs : binned (key st) bs -> Forall (lower st e) bs -> st !! event = Some e -> event ∉ concat bs.
Proof.
  intros Hk Hlow%lower_all He Hin; [|done]. rewrite list.Forall_forall in Hlow. apply Hlow in Hin.
  rewrite (key_at _ _ _ He) in Hin. by apply klt_irrefl in Hin.
Qed.

Lemma without_middle (event : Z) l1 l2 l3 : NoDup (l1 ++ l2 ++ l3) -> event ∈ l2 ->
  without event (l1 ++ l2 ++ l3) = l1 ++ without event l2 ++ l3.
Proof.
  intros (_ & H1 & (_ & H2 & _)%list.NoDup_app)%list.NoDup_app Hin.
  rewrite !list.filter_app, (without_id _ l1), (without_id _ l3); [done|set_solver|set_solver].
Qed.

Lemma NoDup_last (l1 : list Z) x l2 l3 : NoDup (l1 ++ x :: l2 ++ l3) -> NoDup l3.
Proof. by intros (_ & _ & (_ & (_ & _ & ?)%list.NoDup_app)%list.NoDup_cons)%list.NoDup_app. Qed.

Section remove.
Context (q : EventQueue.t) (st : Events) (bs : list (list Z)) (event : Z) (e : Event.t).
Context (Hb : bins st (EventQueue.head q) bs) (Hk : binned (key st) bs) (Hnd : NoDup (concat bs)) (He : st !! event = Some e).
Context (Hq : Event.queue e = Some (EventQueue.this q)).

Lemma remove_spec : event ∈ concat bs ->
  exists h st' bs', EventQueue.remove event q st = Ok (q <| EventQueue.head := h |>, st') /\ skin st' = skin st /\
    bins st' h bs' /\ binned (key st) bs' /\ concat bs' = without event (concat bs).
Proof.
  intros Hin. destruct bs as [|b0 bs0] eqn:Hbs; [set_solver|].
  pose proof (bins_size _ _ _ Hb Hnd) as Hsize. pose proof (bins_length _ _ _ Hb) as Hlen.
  pose proof Hb as (h & b' & k & -> & Hh & Hhk & Hst & Hb2).
  unfold EventQueue.remove. rewrite Hh, (event_at_Ok _ _ _ He). simpl. rewrite Hq, bool_decide_true by done. simpl.
  rewrite (event_at_Ok _ _ _ Hhk). simpl. rewrite eq_key, <-(key_at st h k), <-(key_at st event e) by done.
  case_bool_decide as Heq.
  - destruct (removeItem_spec st event h b' bs0) as (p & st' & -> & Hskin & Hb' & _); [by rewrite <-Hh|done|by eapply in_first_bin|].
    simpl. eexists p, st', _. split_and!; [done..|by apply (binned_without _ event [])|].
    rewrite concat_app, concat_solid. symmetry. apply (without_middle _ [] (h :: b') (concat bs0)); [done|by eapply in_first_bin].
  - destruct (find_bin_spec st e (S (size st)) h b' _ _ Hb2) as (bs1 & prev & b1 & curr & bs2 & -> & Hsplit & Hb3 & Hlow & Hstop); [simpl in *; lia|].
    simpl. pose proof (first_bin_le _ _ _ _ _ Hk Hin) as [?|Hlt]%kle_cases; [done|].
    rewrite (key_at st event e) in Hlt by done. specialize (Hlow Hlt). clear Hlt Heq. rewrite Hsplit in *.
    rewrite (cons_middle _ bs1), app_assoc in Hk. pose proof Hk as (Hk1 & Hk2 & Hk3)%binned_concat.
    rewrite (cons_middle _ bs1), app_assoc, concat_app in Hin.
    apply elem_of_app in Hin as [Hin|Hin]; [by eapply lower_not_in in Hin|].
    destruct bs2 as [|b2 bs2]; [set_solver|]. pose proof Hb3 as (c & b2' & kc & -> & -> & Hc & _ & _).
    rewrite (event_at_Ok _ _ _ Hc). simpl. specialize (Hstop c b2' bs2 eq_refl).
    pose proof (first_bin_le _ _ _ _ _ Hk2 Hin) as [Heq|?]%kle_cases; [|exfalso; apply Hstop; by rewrite <-(key_at st event e)].
    rewrite eq_key, <-(key_at st c kc), <-(key_at st event e), bool_decide_true by done. simpl.
    rewrite concat_app in Hnd. simpl in Hnd. pose proof Hnd as (Hnd1 & Hdis & Hnd2)%list.NoDup_app.
    destruct (removeItem_spec st event c b2' bs2) as (p & st' & -> & Hskin & Hb' & Hother); [done| |by eapply in_first_bin|].
    { by eapply (NoDup_last []). }
    assert (concat (solid (without event (c :: b2')) ++ bs2) = without event (concat ((c :: b2') :: bs2))) as Hc2.
    { rewrite concat_app, concat_solid. symmetry. apply (without_middle _ [] (c :: b2') (concat bs2)); [|by eapply in_first_bin].
      by eapply (NoDup_last []). }
    assert (prev ∉ concat (solid (without event (c :: b2')) ++ bs2)) as Hpb.
    { rewrite Hc2. intros [_ Hp]%list_elem_of_filter. simpl in Hp. apply NoDup_cons_1_1 in Hnd2. set_solver. }
    rewrite app_comm_cons, app_assoc in Hnd. apply list.NoDup_app in Hnd as (Hnd1' & Hdis' & _).
    destruct (bins_relink st st' (EventQueue.head q) bs1 prev b1 ((c :: b2') :: bs2) p (solid (without event (c :: b2')) ++ bs2))
      as (st'' & Hu & Hskin' & Hb''); [done..| |done|done|].
    { intros y Hy. apply Hother. apply Hdis' in Hy. simpl in Hy. set_solver. }
    simpl. rewrite Hu. simpl. eexists (EventQueue.head q), st'', _. split_and!; [by destruct q|by rewrite Hskin'|done|..].
    + rewrite (cons_middle _ bs1), app_assoc. by apply binned_without.
    + rewrite (cons_middle _ bs1), app_assoc, concat_app, Hc2.
      change (h :: b' ++ concat bs0) with (concat ((h :: b') :: bs0)). rewrite Hsplit, (cons_middle _ bs1 ((c :: b2') :: bs2)), app_assoc, (concat_app (bs1 ++ [prev :: b1])).
      rewrite list.filter_app, (without_id _ (concat (bs1 ++ _))); [done|by eapply lower_not_in].
Qed.

Lemma remove_panics : event ∉ concat bs -> EventQueue.remove event q st = Err PanicCalled.
Proof.
  intros Hin. destruct bs as [|b0 bs0] eqn:Hbs; [by simpl in Hb; unfold EventQueue.remove; rewrite Hb|].
  pose proof (bins_size _ _ _ Hb Hnd) as Hsize. pose proof (bins_length _ _ _ Hb) as Hlen.
  pose proof Hb as (h & b' & k & -> & Hh & Hhk & Hst & Hb2).
  unfold EventQueue.remove. rewrite Hh, (event_at_Ok _ _ _ He). simpl. rewrite Hq, bool_decide_true by done. simpl.
  rewrite (event_at_Ok _ _ _ Hhk). simpl. case_match.
  - rewrite (removeItem_panics st event h b' bs0); [done|by rewrite <-Hh|done|set_solver].
  - destruct (find_bin_spec st e (S (size st)) h b' _ _ Hb2) as (bs1 & prev & b1 & curr & bs2 & -> & Hsplit & Hb3 & Hlow & Hstop); [simpl in *; lia|].
    simpl. destruct bs2 as [|b2 bs2]; [by rewrite Hb3|]. pose proof Hb3 as (c & b2' & kc & -> & -> & Hc & _ & _).
    rewrite (event_at_Ok _ _ _ Hc). simpl. case_match; [done|]. rewrite Hsplit, concat_app in Hin, Hnd.
    rewrite (removeItem_panics st event c b2' bs2); [done..| |set_solver].
    by eapply NoDup_last.
Qed.

End remove.
