(* ===== verification/EventQueueProofs.v ===== *)
(** * EventQueueProofs: the event queue refines the agenda

    The relation between the queue of the code and [Agenda], the proof that
    every operation keeps it, and the theorem on whole simulations: objects that
    use the queue through its functions cannot tell it from the agenda. *)

From Stdlib Require Import Sorted Permutation.
From stdpp Require Import gmap sorting.
From S2P Require Import Prelude EventQueue EventAgenda EventLists.

(** Two computations that fail alike or return related values. *)
Definition refines {A B} (R : A -> B -> Prop) (m : res A) (n : res B) : Prop :=
  match m, n with Ok a, Ok b => R a b | Err x, Err y => x = y | _, _ => False end.

Lemma refines_bind {A B A' B'} (R : A -> B -> Prop) (R' : A' -> B' -> Prop) m n f g :
  refines R m n -> (forall a b, R a b -> refines R' (f a) (g b)) -> refines R' (x ← m; f x) (y ← n; g y).
Proof. destruct m, n; simpl; intros Hm Hf; try done; auto. Qed.

Lemma refines_assert {A B} (R : A -> B -> Prop) b m n :
  (b = true -> refines R m n) -> refines R (_ ← assert b; m) (_ ← assert b; n).
Proof. destruct b; simpl; auto. Qed.

Lemma bind_assert_Ok {A B} b (a : A) (f : A -> res B) : (x ← (_ ← assert b; Ok a); f x) = (_ ← assert b; f a).
Proof. by destruct b. Qed.

(** ** What hangs on the queue *)

Definition hangs (q : EventQueue.t) (st : Events) (l : list Z) : Prop :=
  exists bs, bins st (EventQueue.head q) bs /\ binned (key st) bs /\ concat bs = arrange (key st) l.

Lemma binned_ext k k' bs : Forall (fun x => k x = k' x) (concat bs) -> binned k bs -> binned k' bs.
Proof.
  induction bs as [|b bs IH]; simpl; [split; constructor|]. rewrite !binned_cons, !bin_lt_concat.
  intros [Hb Hbs]%list.Forall_app (Hok & Hlt & Hk). split_and!; [| |auto].
  - apply bin_ok_like in Hok as (v & Hne & Hv). apply bin_ok_like. exists v. split; [done|].
    rewrite list.Forall_forall in *. intros x Hx. by rewrite <-Hb, Hv.
  - rewrite list.Forall_forall in *. intros x Hx. specialize (Hlt x Hx). rewrite list.Forall_forall in *.
    intros y Hy. rewrite <-Hb, <-Hbs by done. auto.
Qed.

Section hangs.
Context (q : EventQueue.t) (st : Events) (l : list Z) (Hh : hangs q st l).

Lemma hangs_dom x : x ∈ l -> is_Some (st !! x).
Proof. destruct Hh as (bs & Hb & _ & Hc). intros Hx. eapply bins_dom; [exact Hb|]. by rewrite Hc, arrange_perm. Qed.

Lemma hangs_head : EventQueue.head q = first (key st) l.
Proof.
  destruct Hh as (bs & Hb & _ & Hc). rewrite first_arrange, <-Hc.
  destruct bs as [|b bs]; [done|]. by destruct Hb as (x & b' & e & -> & -> & _).
Qed.

Lemma hangs_keys st' : (forall x, x ∈ l -> same_links st st' x /\ key st x = key st' x) -> hangs q st' l.
Proof.
  destruct Hh as (bs & Hb & Hk & Hc). intros Hsame.
  assert (Forall (fun x => same_links st st' x /\ key st x = key st' x) (concat bs)) as Hall.
  { rewrite Hc, arrange_perm. by apply list.Forall_forall. }
  exists bs. split_and!.
  - eapply bins_same; [|done]. eapply list.Forall_impl; [exact Hall|]. by intros ? [].
  - eapply binned_ext; [|done]. eapply list.Forall_impl; [exact Hall|]. by intros ? [].
  - rewrite Hc. apply arrange_ext, list.Forall_forall. intros x Hx. by apply Hsame.
Qed.

Lemma hangs_update x e e' : st !! x = Some e -> Event.nextInBin e' = Event.nextInBin e -> Event.nextBin e' = Event.nextBin e ->
  (x ∈ l -> key_of e' = key_of e) -> hangs q (<[x := e']> st) l.
Proof.
  intros He H1 H2 Hkey. apply hangs_keys. intros y Hy. split.
  - pose proof (same_links_update st x e e' [y] He H1 H2) as Hl. by inversion Hl.
  - unfold key. destruct (decide (y = x)) as [->|]; [|by rewrite lookup_insert_ne].
    rewrite lookup_insert_eq, He. simpl. by rewrite Hkey.
Qed.

Lemma hangs_other x e : x ∉ l -> hangs q (<[x := e]> st) l.
Proof.
  intros Hx. apply hangs_keys. intros y Hy. assert (y <> x) by set_solver.
  split; [by apply same_links_other|]. unfold key. by rewrite lookup_insert_ne.
Qed.

Lemma hangs_delete x : x ∉ l -> hangs q (delete x st) l.
Proof.
  intros Hx. apply hangs_keys. intros y Hy. assert (y <> x) by set_solver.
  unfold same_links, same_in, key. by rewrite lookup_delete_ne.
Qed.

Context (Hnd : NoDup l).

Lemma hangs_insert x e : x ∉ l -> st !! x = Some e ->
  exists h st', EventQueue.insert x q st = Ok (q <| EventQueue.head := h |>, st') /\ skin st' = skin st /\
    hangs (q <| EventQueue.head := h |>) st' (x :: l).
Proof.
  destruct Hh as (bs & Hb & Hk & Hc). intros Hx He.
  destruct (insert_spec q st bs x e) as (h & st' & bs' & -> & Hskin & Hb' & Hk' & Hc'); [done..| | |done|].
  { by rewrite Hc, arrange_perm. } { by rewrite Hc, arrange_perm. }
  exists h, st'. split_and!; [done..|]. exists bs'. split_and!; [done| |].
  - eapply binned_ext; [|done]. apply list.Forall_forall. intros y _. symmetry. by apply skin_same_key.
  - rewrite Hc', Hc. apply (arrange_ext _ _ (x :: l)), list.Forall_forall. intros y _. symmetry. by apply skin_same_key.
Qed.

Lemma hangs_without x h st' bs' : skin st' = skin st -> bins st' h bs' -> binned (key st) bs' ->
  concat bs' = without x (arrange (key st) l) -> hangs (q <| EventQueue.head := h |>) st' (without x l).
Proof.
  intros Hskin Hb' Hk' Hc'. exists bs'. split_and!; [done| |].
  - eapply binned_ext; [|done]. apply list.Forall_forall. intros y _. symmetry. by apply skin_same_key.
  - rewrite Hc', <-arrange_filter. apply arrange_ext, list.Forall_forall. intros y _. symmetry. by apply skin_same_key.
Qed.

Lemma hangs_remove x e : st !! x = Some e -> Event.queue e = Some (EventQueue.this q) ->
  (x ∈ l -> exists h st', EventQueue.remove x q st = Ok (q <| EventQueue.head := h |>, st') /\ skin st' = skin st /\
    hangs (q <| EventQueue.head := h |>) st' (without x l)) /\
  (x ∉ l -> EventQueue.remove x q st = Err PanicCalled).
Proof.
  destruct Hh as (bs & Hb & Hk & Hc). intros He Hq.
  assert (NoDup (concat bs)) as Hnd' by (by rewrite Hc, arrange_perm).
  split; intros Hx.
  - destruct (remove_spec q st bs x e) as (h & st' & bs' & -> & Hskin & Hb' & Hk' & Hc'); [done..|by rewrite Hc, arrange_perm|].
    exists h, st'. split_and!; [done..|]. eapply hangs_without; [done..|]. by rewrite Hc', Hc.
  - apply (remove_panics q st bs x e); [done..|]. by rewrite Hc, arrange_perm.
Qed.

(** The pop of [serviceOne] is a removal of the top. *)
Lemma hangs_pop x : EventQueue.head q = Some x ->
  exists h st', removeItem x x st = Ok (h, st') /\ skin st' = skin st /\ hangs (q <| EventQueue.head := h |>) st' (without x l).
Proof.
  destruct Hh as (bs & Hb & Hk & Hc). intros Hx.
  assert (NoDup (concat bs)) as Hnd' by (by rewrite Hc, arrange_perm).
  destruct bs as [|b bs]; [by simpl in Hb; rewrite Hb in Hx|]. pose proof Hb as (y & b' & _ & -> & Hy & _).
  rewrite Hx in Hy. injection Hy as <-. rewrite Hx in Hb.
  destruct (removeItem_spec st x x b' bs) as (p & st' & -> & Hskin & Hb' & _); [done..|set_solver|].
  exists p, st'. split_and!; [done..|]. eapply hangs_without; [done..|by apply (binned_without _ x [])|].
  rewrite concat_app, concat_solid, <-Hc. symmetry. apply (without_middle _ [] (x :: b') (concat bs)); [done|set_solver].
Qed.

End hangs.

(** ** The relation *)

Definition marked (evs : Events) (l : list Z) : Prop := forall x, x ∈ l -> exists e, evs !! x = Some e /\ Event.scheduled e.
Definition ahead (evs : Events) (now : Z) (l : list Z) : Prop := forall x, x ∈ l -> now <= (key evs x).1.

(** With [all], the events that other threads have left are not in the past either. *)
Record represents (all : bool) (q : EventQueue.t) (st : Events) (a : Agenda.t) (evs : Events) : Prop := {
  r_this : Agenda.this a = EventQueue.this q;
  r_tick : Agenda._curTick a = EventQueue._curTick q;
  r_async : Agenda.async_queue a = EventQueue.async_queue q;
  r_skin : evs = skin st;
  r_hangs : hangs q st (Agenda.waiting a);
  r_nodup : NoDup (Agenda.waiting a ++ Agenda.async_queue a);
  r_marked : marked evs (Agenda.waiting a ++ Agenda.async_queue a);
  r_ahead : ahead evs (Agenda._curTick a) (Agenda.waiting a ++ if all then Agenda.async_queue a else []);
  r_start : 0 <= Agenda._curTick a;
}.

Lemma marked_insert evs x e l : (x ∈ l -> Event.scheduled e) -> (forall y, y ∈ l -> y <> x -> exists e, evs !! y = Some e /\ Event.scheduled e) ->
  marked (<[x := e]> evs) l.
Proof.
  intros Hx Hl y Hy. destruct (decide (y = x)) as [->|]; [|rewrite lookup_insert_ne by done; auto].
  rewrite lookup_insert_eq. eauto.
Qed.

Lemma ahead_insert evs x e now l : (x ∈ l -> now <= Event._when e) -> (forall y, y ∈ l -> y <> x -> now <= (key evs y).1) ->
  ahead (<[x := e]> evs) now l.
Proof.
  intros Hx Hl y Hy. unfold key. destruct (decide (y = x)) as [->|]; [rewrite lookup_insert_eq; simpl; auto|].
  rewrite lookup_insert_ne by done. by apply Hl.
Qed.

Lemma skin_at st x : event_at x (skin st) = match st !! x with Some e => Ok (erase e) | None => Err Undefined end.
Proof. unfold event_at. rewrite skin_lookup. by destruct (st !! x). Qed.

Lemma skin_insert st x e : skin (<[x := e]> st) = <[x := erase e]> (skin st).
Proof. apply fmap_insert. Qed.

Lemma skin_Some st st' x e : skin st' = skin st -> st !! x = Some e -> exists e', st' !! x = Some e' /\ erase e' = erase e.
Proof.
  intros Hskin He. pose proof (skin_lookup st' x) as Hx. rewrite Hskin, skin_lookup, He in Hx. simpl in Hx.
  symmetry in Hx. apply fmap_Some in Hx as (e' & ? & ?). eauto.
Qed.

(** Changes that keep the links. *)
Class Linkless (f : Event.t -> Event.t) := {
  linkless_erase e : erase (f e) = f (erase e);
  linkless_in e : Event.nextInBin (f e) = Event.nextInBin e;
  linkless_bin e : Event.nextBin (f e) = Event.nextBin e;
}.
#[global] Instance setWhen_linkless when q : Linkless (Event.setWhen when q).
Proof. by split. Qed.
#[global] Instance set_linkless m : Linkless (Event.set m).
Proof. by split. Qed.
#[global] Instance clear_linkless m : Linkless (Event.clear m).
Proof. by split. Qed.
#[global] Instance squash_linkless : Linkless Event.squash.
Proof. by split. Qed.
#[global] Instance compose_linkless f g : Linkless f -> Linkless g -> Linkless (fun e => f (g e)).
Proof. intros [Hf1 Hf2 Hf3] [Hg1 Hg2 Hg3]. split; intros e; [by rewrite Hf1, Hg1|by rewrite Hf2, Hg2|by rewrite Hf3, Hg3]. Qed.

Lemma refines_event_at st x {A B} (R : A -> B -> Prop) f g :
  (forall e, st !! x = Some e -> refines R (f e) (g (erase e))) -> refines R (e ← event_at x st; f e) (e ← event_at x (skin st); g e).
Proof. intros Hf. rewrite skin_at. unfold event_at. destruct (st !! x); simpl; auto. Qed.

Lemma refines_update_event st x g {A B} (R : A -> B -> Prop) f f' :
  (forall e, st !! x = Some e -> refines R (f (<[x := g e]> st)) (f' (<[x := g (erase e)]> (skin st)))) ->
  refines R (st ← update_event x g st; f st) (evs ← update_event x g (skin st); f' evs).
Proof. intros Hf. unfold update_event. rewrite skin_at. unfold event_at. destruct (st !! x); simpl; auto. Qed.

Lemma scheduled_set e : Event.scheduled (Event.set Event.Scheduled e).
Proof.
  unfold Event.scheduled, Event.isSet. simpl. rewrite Z.land_comm, Z.land_lor_distr_r, Z.land_diag, Z.lor_comm.
  destruct (Z.lor _ _ =? 0) eqn:E; [|done]. apply Z.eqb_eq, Z.lor_eq_0_iff in E as [[=] _].
Qed.

(** The public flags do not include [Scheduled]. *)
Lemma public_flags m : Z.ldiff m Event.PublicWrite = 0 -> Z.land m Event.Scheduled = 0.
Proof.
  intros Hm. assert (Z.land (Z.ldiff m Event.PublicWrite) Event.Scheduled = 0) as <- by by rewrite Hm.
  apply Z.bits_inj'. intros n Hn. rewrite !Z.land_spec, Z.ldiff_spec.
  change Event.Scheduled with (Z.ldiff Event.Scheduled Event.PublicWrite). rewrite !Z.ldiff_spec.
  by destruct (Z.testbit m n), (Z.testbit Event.Scheduled n), (Z.testbit Event.PublicWrite n).
Qed.

Lemma scheduled_other m e : Z.land m Event.Scheduled = 0 ->
  Event.scheduled (Event.set m e) = Event.scheduled e /\ Event.scheduled (Event.clear m e) = Event.scheduled e.
Proof.
  unfold Event.scheduled, Event.isSet. intros Hm. simpl. split.
  - by rewrite Z.land_lor_distr_l, Hm, Z.lor_0_r.
  - do 2 f_equal. apply Z.bits_inj'. intros n Hn. pose proof (f_equal (fun z => Z.testbit z n) Hm) as Hb. simpl in Hb.
    rewrite Z.land_spec, Z.bits_0 in Hb. rewrite !Z.land_spec, Z.ldiff_spec.
    by destruct (Z.testbit m n), (Z.testbit Event.Scheduled n), (Z.testbit (Event.flags e) n).
Qed.

(** Flags that the order does not depend on. *)
Lemma represents_flags all q st a evs x e f `{!Linkless f} :
  represents all q st a evs -> st !! x = Some e -> key_of (f e) = key_of e ->
  (x ∈ Agenda.waiting a ++ Agenda.async_queue a -> Event.scheduled (f (erase e))) ->
  represents all q (<[x := f e]> st) a (<[x := f (erase e)]> evs).
Proof.
  intros [] He Hkey Hs. split; try done.
  - by rewrite r_skin0, <-linkless_erase, skin_insert.
  - eapply hangs_update; [done..|apply linkless_in|apply linkless_bin|done].
  - apply marked_insert; auto.
  - assert (key_of (f (erase e)) = key_of e) as Hw by (by rewrite <-linkless_erase, <-Hkey; destruct (f e)).
    apply ahead_insert; [|auto]. intros Hx%r_ahead0. rewrite r_skin0, skin_key, (key_at _ _ _ He) in Hx.
    injection Hw as -> _. done.
Qed.

(** An event that does not wait can go. *)
Lemma represents_delete all q st a evs x :
  represents all q st a evs -> x ∉ Agenda.waiting a ++ Agenda.async_queue a -> represents all q (delete x st) a (delete x evs).
Proof.
  intros [] Hx. split; try done.
  - rewrite r_skin0. unfold skin. by rewrite fmap_delete.
  - apply hangs_delete; [done|set_solver].
  - intros y Hy. rewrite lookup_delete_ne by set_solver. auto.
  - intros y Hy. unfold key. rewrite lookup_delete_ne; [by apply r_ahead0|]. destruct all; set_solver.
Qed.

(** A new one does not wait. *)
Lemma represents_create all q st a evs x e :
  represents all q st a evs -> st !! x = None -> erase e = e -> represents all q (<[x := e]> st) a (<[x := e]> evs).
Proof.
  intros [] Hx He.
  assert (forall y, y ∈ Agenda.waiting a ++ Agenda.async_queue a -> y <> x) as Hne.
  { intros y (e' & Hy & _)%r_marked0 ->. rewrite r_skin0, skin_lookup, Hx in Hy. done. }
  split; try done.
  - by rewrite skin_insert, He, r_skin0.
  - apply hangs_other; [done|]. intros Hy. by apply (Hne x); [set_solver|].
  - apply marked_insert; [|auto]. intros Hy. by apply Hne in Hy.
  - apply ahead_insert; [|auto]. intros Hy. exfalso. by apply (Hne x); [destruct all; set_solver|].
Qed.

Lemma represents_public all q st a evs x e m f `{!Linkless f} :
  represents all q st a evs -> st !! x = Some e -> f = Event.set m \/ f = Event.clear m -> Z.land m Event.Scheduled = 0 ->
  represents all q (<[x := f e]> st) a (<[x := f (erase e)]> evs).
Proof.
  intros Hr He Hf Hm. apply represents_flags; [done..|by destruct Hf as [-> | ->]|].
  intros (e' & He' & Hs)%(r_marked _ _ _ _ _ Hr). rewrite (r_skin _ _ _ _ _ Hr), skin_lookup, He in He'. injection He' as <-.
  destruct (scheduled_other m (erase e) Hm) as [H1 H2]. destruct Hf as [-> | ->]; by rewrite ?H1, ?H2.
Qed.

Lemma event_not_waiting all q st a evs x e : represents all q st a evs -> st !! x = Some e -> Event.scheduled e = false ->
  x ∉ Agenda.waiting a ++ Agenda.async_queue a.
Proof.
  intros [] He Hs (e' & He' & Hs')%r_marked0. rewrite r_skin0, skin_lookup, He in He'. injection He' as <-.
  change (Is_true (Event.scheduled e)) in Hs'. by rewrite Hs in Hs'.
Qed.

Notation related all := (fun x y => represents all x.1 x.2 y.1 y.2).

Lemma release_refines all q st a evs x : represents all q st a evs ->
  refines (fun st evs => represents all q st a evs) (release x st) (release x evs).
Proof.
  intros Hr. unfold release. rewrite (r_skin _ _ _ _ _ Hr). apply refines_event_at. intros e He. simpl.
  rewrite <-(r_skin _ _ _ _ _ Hr). change (Event.isManaged (erase e)) with (Event.isManaged e).
  change (Event.scheduled (erase e)) with (Event.scheduled e).
  case_match; [|done]. apply represents_delete; [done|]. eapply event_not_waiting; [done..|].
  by destruct (Event.isManaged e), (Event.scheduled e).
Qed.

(** ** The operations *)

Lemma empty_refines all q st a evs : represents all q st a evs -> EventQueue.empty q = Agenda.empty a.
Proof.
  intros []. unfold EventQueue.empty, Agenda.empty. rewrite (hangs_head _ _ _ r_hangs0), first_arrange.
  pose proof (arrange_perm (key st) (Agenda.waiting a)) as Hp.
  destruct (Agenda.waiting a) eqn:E, (arrange _ _); simpl; try done.
  - by apply Permutation_nil_r in Hp.
  - by apply Permutation_nil_l in Hp.
Qed.

Lemma next_refines all q st a evs : represents all q st a evs -> Agenda.next a evs = EventQueue.getHead q.
Proof.
  intros []. unfold Agenda.next, EventQueue.getHead. rewrite (hangs_head _ _ _ r_hangs0), !first_arrange, r_skin0.
  by rewrite (arrange_ext (key (skin st)) (key st)) by (apply list.Forall_forall; intros; apply skin_key).
Qed.

Lemma nextTick_refines all q st a evs : represents all q st a evs -> refines eq (EventQueue.nextTick q st) (Agenda.nextTick a evs).
Proof.
  intros Hr. unfold EventQueue.nextTick, Agenda.nextTick. rewrite (next_refines _ _ _ _ _ Hr), (r_skin _ _ _ _ _ Hr).
  destruct (EventQueue.getHead q); simpl; [|done]. by apply refines_event_at.
Qed.

(** An event that did not wait is put among those that do. *)
Lemma represents_insert all q st a evs h st' event ev :
  represents all q st a evs -> event ∉ Agenda.waiting a ++ Agenda.async_queue a ->
  hangs (q <| EventQueue.head := h |>) st' (event :: Agenda.waiting a) -> skin st' = <[event := ev]> evs ->
  Event.scheduled ev -> Agenda._curTick a <= Event._when ev ->
  represents all (q <| EventQueue.head := h |>) st' (Agenda.insert event a) (<[event := ev]> evs).
Proof.
  intros [] Hnew Hh Hskin Hs Hw. split; try done; simpl.
  - by constructor.
  - apply marked_insert; [done|]. intros y [->|]%elem_of_cons; [done|auto].
  - apply ahead_insert; [done|]. intros y [->|]%elem_of_cons; [done|auto].
Qed.

Lemma represents_async all q st a evs st' event ev :
  represents all q st a evs -> event ∉ Agenda.waiting a ++ Agenda.async_queue a ->
  hangs q st' (Agenda.waiting a) -> skin st' = <[event := ev]> evs -> Event.scheduled ev -> Agenda._curTick a <= Event._when ev ->
  represents all (EventQueue.asyncInsert event q) st' (Agenda.asyncInsert event a) (<[event := ev]> evs).
Proof.
  intros [] Hnew Hh Hskin Hs Hw. split; try done; simpl.
  - by rewrite r_async0.
  - rewrite (assoc_L (++)). apply list.NoDup_app. split_and!; [done|set_solver|apply NoDup_singleton].
  - rewrite (assoc_L (++)). apply marked_insert; [done|]. intros y [| ->%list_elem_of_singleton]%elem_of_app; [auto|done].
  - apply ahead_insert; [done|]. intros y Hy Hne. apply r_ahead0. destruct all; set_solver.
Qed.

Lemma remove_refines all q st a evs event : represents all q st a evs ->
  refines (fun x a' => represents all x.1 x.2 a' evs /\ event ∉ Agenda.waiting a' ++ Agenda.async_queue a' /\
      Agenda._curTick a' = Agenda._curTick a)
    (EventQueue.remove event q st) (Agenda.remove event a evs).
Proof.
  intros Hr. unfold Agenda.remove. rewrite <-(empty_refines _ _ _ _ _ Hr). pose proof Hr as []. rewrite r_skin0, skin_at, r_this0.
  destruct (EventQueue.head q) as [h|] eqn:Hh; [|by unfold EventQueue.remove, EventQueue.empty; rewrite Hh].
  replace (EventQueue.empty q) with false by (unfold EventQueue.empty; by rewrite Hh).
  destruct (st !! event) as [e|] eqn:He; simpl; [|by unfold EventQueue.remove, event_at; rewrite Hh, He].
  destruct (bool_decide (Event.queue e = _)) eqn:Hq; simpl.
  2: { unfold EventQueue.remove. rewrite Hh, (event_at_Ok _ _ _ He). cbn [mbind res_bind]. by rewrite Hq. }
  apply bool_decide_eq_true in Hq. apply list.NoDup_app in r_nodup0 as (Hnd & Hdis & Hnd').
  destruct (hangs_remove _ _ _ r_hangs0 Hnd event e He Hq) as [Hin Hout].
  case_bool_decide as Hw; [|by rewrite Hout].
  destruct (Hin Hw) as (h' & st' & -> & Hskin & Hh'). clear Hin Hout.
  assert (forall y l, y ∈ without event (Agenda.waiting a) ++ l -> y ∈ Agenda.waiting a ++ l) as Hsub.
  { intros y l [[_ ?]%list_elem_of_filter|?]%elem_of_app; set_solver. }
  split_and!; [split; try done; simpl| |done].
  - apply list.NoDup_app. split_and!; [by apply list.NoDup_filter| |done]. intros y [_ Hy]%list_elem_of_filter. auto.
  - intros y Hy%Hsub. rewrite <-r_skin0. auto.
  - intros y Hy%Hsub. rewrite <-r_skin0. auto.
  - simpl. rewrite elem_of_app, list_elem_of_filter. intros [[]|Hy]; [done|]. by apply Hdis in Hw.
Qed.

Section mode.
Context (par : bool) (cur : Z) (all : bool).

Lemma schedule_refines event when global q st a evs : represents all q st a evs ->
  refines (related all) (EventQueue.schedule par cur event when global q st) (Agenda.schedule par cur event when global a evs).
Proof.
  intros Hr. unfold EventQueue.schedule, Agenda.schedule, EventQueue.getCurTick. rewrite <-(r_tick _ _ _ _ _ Hr).
  apply refines_assert. intros Hw%Z.leb_le. rewrite (r_skin _ _ _ _ _ Hr). apply refines_event_at. intros e He.
  change (Event.scheduled (erase e)) with (Event.scheduled e). change (Event.initialized (erase e)) with (Event.initialized e).
  apply refines_assert. intros Hs%negb_true_iff. apply refines_assert. intros _.
  pose proof (event_not_waiting _ _ _ _ _ _ _ Hr He Hs) as Hnew. rewrite (update_event_Ok _ _ _ _ He).
  rewrite (update_event_Ok (skin st) event (erase e)) by (by rewrite skin_lookup, He). simpl.
  rewrite (r_this _ _ _ _ _ Hr), <-(r_skin _ _ _ _ _ Hr). set (e1 := Event.setWhen when (EventQueue.this q) e).
  assert (hangs q (<[event := e1]> st) (Agenda.waiting a)) as Hh1.
  { eapply hangs_other; [apply (r_hangs _ _ _ _ _ Hr)|set_solver]. }
  destruct (par && _).
  - simpl. rewrite (update_event_Ok _ _ e1) by apply lookup_insert_eq. simpl. rewrite insert_insert_eq.
    apply (represents_async _ _ st); [done|done| | |apply scheduled_set|done].
    + eapply hangs_other; [apply (r_hangs _ _ _ _ _ Hr)|set_solver].
    + by rewrite skin_insert, (r_skin _ _ _ _ _ Hr).
  - pose proof (r_nodup _ _ _ _ _ Hr) as (Hnd & _ & _)%list.NoDup_app.
    destruct (hangs_insert _ _ _ Hh1 Hnd event e1) as (h & st2 & -> & Hskin & Hh2); [set_solver|apply lookup_insert_eq|].
    simpl. destruct (skin_Some _ st2 event e1 Hskin) as (e2 & He2 & Her); [apply lookup_insert_eq|].
    rewrite (update_event_Ok _ _ _ _ He2). simpl.
    apply (represents_insert _ _ st); [done..| | |apply scheduled_set|done].
    + by eapply hangs_update.
    + rewrite skin_insert, Hskin, skin_insert, insert_insert_eq, linkless_erase, Her. by rewrite (r_skin _ _ _ _ _ Hr).
Qed.

Lemma deschedule_refines event q st a evs : represents all q st a evs ->
  refines (related all) (EventQueue.deschedule par cur event q st) (Agenda.deschedule par cur event a evs).
Proof.
  intros Hr. unfold EventQueue.deschedule, Agenda.deschedule. rewrite (r_skin _ _ _ _ _ Hr). apply refines_event_at. intros e He.
  rewrite (r_this _ _ _ _ _ Hr), <-(r_skin _ _ _ _ _ Hr).
  do 3 (apply refines_assert; intros _).
  eapply refines_bind; [by apply remove_refines|]. intros [q1 st1] a1 (Hr1 & Hnew & _). simpl in *.
  rewrite (r_skin _ _ _ _ _ Hr1). apply refines_update_event. intros e1 He1. rewrite <-(r_skin _ _ _ _ _ Hr1).
  eapply refines_bind; [apply release_refines, (represents_flags _ _ _ _ _ _ _ (fun e => Event.clear _ (Event.clear _ e)))|]; [done..|].
  done.
Qed.

Lemma reschedule_refines event when always q st a evs : represents all q st a evs ->
  refines (related all) (EventQueue.reschedule par cur event when always q st) (Agenda.reschedule par cur event when always a evs).
Proof.
  intros Hr. unfold EventQueue.reschedule, Agenda.reschedule, EventQueue.getCurTick. rewrite <-(r_tick _ _ _ _ _ Hr).
  apply refines_assert. intros Hw%Z.leb_le. rewrite (r_skin _ _ _ _ _ Hr). apply refines_event_at. intros e He.
  rewrite (r_this _ _ _ _ _ Hr), <-(r_skin _ _ _ _ _ Hr).
  change (Event.scheduled (erase e)) with (Event.scheduled e). change (Event.initialized (erase e)) with (Event.initialized e).
  do 3 (apply refines_assert; intros _).
  apply (refines_bind (fun x a' => represents all x.1 x.2 a' evs /\ event ∉ Agenda.waiting a' ++ Agenda.async_queue a' /\
    Agenda._curTick a' = Agenda._curTick a)).
  { destruct (Event.scheduled e) eqn:Hs; [|simpl; split_and!; [done| |done]; by eapply event_not_waiting].
    by apply remove_refines. }
  intros [q1 st1] a1 (Hr1 & Hnew & Htick). simpl in Hr1.
  assert (exists e1, st1 !! event = Some e1) as [e1 He1].
  { pose proof (r_skin _ _ _ _ _ Hr) as Hs. rewrite (r_skin _ _ _ _ _ Hr1) in Hs. destruct (skin_Some _ _ _ _ Hs He) as (? & ? & _). eauto. }
  rewrite (update_event_Ok _ _ _ _ He1).
  rewrite (update_event_Ok evs event (erase e1)) by (by rewrite (r_skin _ _ _ _ _ Hr1), skin_lookup, He1). simpl.
  rewrite (r_this _ _ _ _ _ Hr1). set (e2 := Event.setWhen when (EventQueue.this q1) e1).
  assert (hangs q1 (<[event := e2]> st1) (Agenda.waiting a1)) as Hh1.
  { eapply hangs_other; [apply (r_hangs _ _ _ _ _ Hr1)|set_solver]. }
  pose proof (r_nodup _ _ _ _ _ Hr1) as (Hnd & _ & _)%list.NoDup_app.
  destruct (hangs_insert _ _ _ Hh1 Hnd event e2) as (h & st2 & -> & Hskin & Hh2); [set_solver|apply lookup_insert_eq|].
  simpl. destruct (skin_Some _ st2 event e2 Hskin) as (e3 & He3 & Her); [apply lookup_insert_eq|].
  rewrite (update_event_Ok _ _ _ _ He3). simpl.
  apply (represents_insert _ _ st1); [done..| | |apply scheduled_set|by rewrite Htick].
  - by eapply hangs_update.
  - rewrite skin_insert, Hskin, skin_insert, insert_insert_eq, !linkless_erase, Her. by rewrite (r_skin _ _ _ _ _ Hr1).
Qed.

(** ** Handlers *)

Lemma run_refines {A} (h : Handler A) q st a evs : represents all q st a evs ->
  refines (fun x y => represents all x.1.1 x.1.2 y.1.1 y.1.2 /\ x.2 = y.2)
    (@run A _ (queue_manager par cur) h q st) (@run A _ (Agenda.manager par cur) h a evs).
Proof.
  revert q st a evs. induction h; simpl; intros q st a' evs Hr.
  - done.
  - eapply refines_bind; [by apply schedule_refines|]. intros [] [] Hr'. by apply IHh.
  - eapply refines_bind; [by apply deschedule_refines|]. intros [] [] Hr'. by apply IHh.
  - eapply refines_bind; [by apply reschedule_refines|]. intros [] [] Hr'. by apply IHh.
  - rewrite (r_tick _ _ _ _ _ Hr). by apply H.
  - eapply refines_bind; [by eapply nextTick_refines|]. intros t ? <-. by apply H.
  - rewrite <-(empty_refines _ _ _ _ _ Hr). by apply H.
  - unfold Event.new. destruct (assert _); simpl; [|done].
    replace (dom evs) with (dom st) by (by rewrite (r_skin _ _ _ _ _ Hr); unfold skin; rewrite dom_fmap_L).
    apply H. apply represents_create; [done| |done]. apply not_elem_of_dom, is_fresh.
  - rewrite (r_skin _ _ _ _ _ Hr). apply refines_event_at. intros e He. change (Event.scheduled (erase e)) with (Event.scheduled e).
    apply refines_assert. intros Hs%negb_true_iff. apply IHh. rewrite <-(r_skin _ _ _ _ _ Hr).
    apply represents_delete; [done|]. by eapply event_not_waiting.
  - rewrite (r_skin _ _ _ _ _ Hr). apply refines_update_event. intros e He. rewrite <-(r_skin _ _ _ _ _ Hr).
    apply IHh. eapply (represents_public _ _ _ _ _ _ _ Event.Squashed); [apply _|done..|by left|done].
  - rewrite (r_skin _ _ _ _ _ Hr). apply refines_event_at. intros e He. rewrite <-(r_skin _ _ _ _ _ Hr).
    unfold Event.setFlags. rewrite !bind_assert_Ok. apply refines_assert. intros Hf%Z.eqb_eq%public_flags.
    apply IHh. eapply represents_public; by eauto.
  - rewrite (r_skin _ _ _ _ _ Hr). apply refines_event_at. intros e He. rewrite <-(r_skin _ _ _ _ _ Hr).
    unfold Event.clearFlags. rewrite !bind_assert_Ok. apply refines_assert. intros Hf%Z.eqb_eq%public_flags.
    apply IHh. eapply represents_public; by eauto.
  - rewrite (r_skin _ _ _ _ _ Hr). apply refines_event_at. intros e He. rewrite <-(r_skin _ _ _ _ _ Hr). by apply H.
  - done.
Qed.

End mode.

(** ** The loop *)

Lemma represents_weaken all q st a evs : represents all q st a evs -> represents false q st a evs.
Proof. intros []. split; try done. intros y Hy. apply r_ahead0. destruct all; set_solver. Qed.

(** The next event leaves the queue; nothing that waits comes before it. *)
Lemma represents_pop q st a evs x e : represents false q st a evs -> EventQueue.head q = Some x -> st !! x = Some e ->
  exists h st' e', removeItem x x (<[x := Event.clear Event.Scheduled e]> st) = Ok (h, st') /\ st' !! x = Some e' /\
    erase e' = Event.clear Event.Scheduled (erase e) /\
    represents false (q <| EventQueue.head := h |>) st' (Agenda.drop x a) (<[x := Event.clear Event.Scheduled (erase e)]> evs) /\
    Agenda._curTick a <= Event._when e /\
    forall y, y ∈ Agenda.waiting (Agenda.drop x a) -> Event._when e <= (key (<[x := Event.clear Event.Scheduled (erase e)]> evs) y).1.
Proof.
  intros [] Hx He. pose proof r_nodup0 as (Hnd & Hdis & Hnd')%list.NoDup_app.
  assert (hangs q (<[x := Event.clear Event.Scheduled e]> st) (Agenda.waiting a)) as Hh by (by eapply hangs_update).
  destruct (hangs_pop _ _ _ Hh Hnd x Hx) as (h & st' & Hrem & Hskin & Hh').
  destruct (skin_Some _ _ x (Event.clear Event.Scheduled e) Hskin) as (e' & He' & Her); [apply lookup_insert_eq|].
  rewrite (hangs_head _ _ _ r_hangs0) in Hx. pose proof (first_least _ _ _ Hx) as [Hin Hleast].
  exists h, st', e'. split_and!; [done..| | |].
  - split; try done; simpl.
    + by rewrite Hskin, skin_insert, r_skin0.
    + apply list.NoDup_app. split_and!; [by apply list.NoDup_filter| |done]. intros y [_ Hy]%list_elem_of_filter. auto.
    + apply marked_insert; [|intros y Hy _; apply r_marked0; rewrite elem_of_app, list_elem_of_filter in Hy; set_solver].
      rewrite elem_of_app, list_elem_of_filter. intros [[]|Hy]; [done|]. by apply Hdis in Hin.
    + apply ahead_insert; [|intros y Hy _; apply r_ahead0; rewrite elem_of_app, list_elem_of_filter in Hy; set_solver].
      rewrite elem_of_app, list_elem_of_filter. intros [[]|Hy]; [done|set_solver].
  - assert (x ∈ Agenda.waiting a ++ []) as Hxw%r_ahead0 by set_solver. by rewrite r_skin0, skin_key, (key_at _ _ _ He) in Hxw.
  - simpl. intros y [Hne Hy]%list_elem_of_filter. unfold key. rewrite lookup_insert_ne by done.
    change (Event._when e <= (key evs y).1). rewrite r_skin0, skin_key. apply Hleast in Hy.
    rewrite (key_at _ _ _ He) in Hy. apply kle_when in Hy. done.
Qed.

Lemma pop_removeItem q st x e : st !! x = Some e ->
  match Event.nextInBin e with
  | Some next => st ← update_event next (fun n => n <| Event.nextBin := Event.nextBin e |>) (<[x := Event.clear Event.Scheduled e]> st);
                 Ok (q <| EventQueue.head := Some next |>, st)
  | None => Ok (q <| EventQueue.head := Event.nextBin e |>, <[x := Event.clear Event.Scheduled e]> st)
  end = ('(h, st) ← removeItem x x (<[x := Event.clear Event.Scheduled e]> st); Ok (q <| EventQueue.head := h |>, st)).
Proof.
  intros He. unfold removeItem. rewrite (event_at_Ok _ x (Event.clear Event.Scheduled e)) by apply lookup_insert_eq.
  simpl. rewrite Z.eqb_refl. destruct (Event.nextInBin e); simpl; [|done]. by destruct (update_event _ _ _).
Qed.

(** The loop never meets an event of the past. *)
Lemma in_time q st a evs : represents false q st a evs -> EventQueue.empty q = false ->
  forall {A} (m : res A), (tick ← EventQueue.nextTick q st; _ ← assert (EventQueue.getCurTick q <=? tick); m) = m.
Proof.
  intros [] Hne A m. unfold EventQueue.empty in Hne. unfold EventQueue.nextTick, EventQueue.getHead.
  destruct (EventQueue.head q) as [x|] eqn:Hx; [|done]. simpl. rewrite (hangs_head _ _ _ r_hangs0) in Hx.
  pose proof (first_least _ _ _ Hx) as [Hin _]. destruct (hangs_dom _ _ _ r_hangs0 x Hin) as [e He].
  rewrite (event_at_Ok _ _ _ He). simpl. assert (x ∈ Agenda.waiting a ++ []) as Ht%r_ahead0 by set_solver.
  rewrite r_skin0, skin_key, (key_at _ _ _ He), r_tick0 in Ht. simpl in Ht. unfold EventQueue.getCurTick.
  by rewrite (proj2 (Z.leb_le _ _) Ht).
Qed.

Definition state_related {U} (x : EventQueue.t * Events * U) (y : Agenda.t * Events * U) : Prop :=
  represents false x.1.1 x.1.2 y.1.1 y.1.2 /\ x.2 = y.2.

Section loop.
Context {U : Type} (process : Z -> EventQueue.t * Events * U -> res (EventQueue.t * Events * U)).
Context (process' : Z -> Agenda.t * Events * U -> res (Agenda.t * Events * U)).
Context (Hprocess : forall event x y, state_related x y -> refines state_related (process event x) (process' event y)).

Lemma serviceOne_refines q st a evs u : represents false q st a evs ->
  refines (fun x y => x.1 = y.1 /\ state_related x.2 y.2) (EventQueue.serviceOne process q st u) (Agenda.serviceOne process' a evs u).
Proof.
  intros Hr. unfold EventQueue.serviceOne, Agenda.serviceOne. rewrite (next_refines _ _ _ _ _ Hr). unfold EventQueue.getHead.
  destruct (EventQueue.head q) as [x|] eqn:Hx; simpl; [|done]. destruct (hangs_dom _ _ _ (r_hangs _ _ _ _ _ Hr) x) as [e He].
  { rewrite (hangs_head _ _ _ (r_hangs _ _ _ _ _ Hr)) in Hx. by eapply first_least. }
  rewrite (event_at_Ok _ _ _ He), (update_event_Ok evs x (erase e)) by (by rewrite (r_skin _ _ _ _ _ Hr), skin_lookup, He).
  simpl. rewrite (pop_removeItem q st x e He).
  destruct (represents_pop q st a evs x e Hr Hx He) as (h & st' & e' & -> & He' & Her & Hr' & Hnow & Hmin). simpl.
  rewrite (event_at_Ok _ _ _ He'). set (evs' := <[x := _]> evs) in *.
  rewrite (event_at_Ok evs' x (erase e')) by (by rewrite Her; apply lookup_insert_eq). simpl.
  change (Event.squashed (erase e')) with (Event.squashed e'). destruct (negb (Event.squashed e')).
  - eapply refines_bind; [apply Hprocess|].
    + split; [|done]. simpl. assert (Event._when e' = Event._when e) as -> by (by injection Her).
      destruct Hr'. split; try done; simpl in *; [|pose proof (r_start _ _ _ _ _ Hr); lia].
      intros y Hy. apply Hmin. set_solver.
    + intros [[q1 st1] u1] [[a1 evs1] u1'] [Hr1 [= <-]]. simpl in Hr1.
      rewrite (r_skin _ _ _ _ _ Hr1). apply refines_event_at. intros e1 He1. rewrite <-(r_skin _ _ _ _ _ Hr1).
      change (Event.isExitEvent (erase e1)) with (Event.isExitEvent e1). destruct (Event.isExitEvent e1).
      * apply refines_assert. done.
      * eapply refines_bind; [by apply release_refines|]. done.
  - assert (evs' = skin st') as -> by apply (r_skin _ _ _ _ _ Hr'). apply refines_update_event. intros e1 He1.
    eapply refines_bind; [apply release_refines; eapply (represents_public _ _ _ _ _ _ _ Event.Squashed)|]; [apply _|done..|by right|done|].
    done.
Qed.

Lemma simLoop_refines fuel q st a evs u : represents false q st a evs ->
  refines (fun x y => x.1 = y.1 /\ state_related x.2 y.2) (EventQueue.simLoop process fuel q st u) (Agenda.simLoop process' fuel a evs u).
Proof.
  revert q st a evs u. induction fuel as [|fuel IH]; simpl; intros q st a evs u Hr; [done|].
  rewrite <-(empty_refines _ _ _ _ _ Hr). apply refines_assert. intros Hne%negb_true_iff.
  rewrite (in_time _ _ _ _ Hr Hne).
  eapply refines_bind; [by apply serviceOne_refines|]. intros [o [[q1 st1] u1]] [o' [[a1 evs1] u1']] [Ho [Hr1 Hu]].
  simpl in Ho, Hr1, Hu. subst. destruct o'; [done|]. by apply IH.
Qed.

End loop.

(** ** Events that other threads left *)

Lemma async_spec p q st l : hangs q st l -> NoDup (l ++ p) -> (forall x, x ∈ p -> is_Some (st !! x)) ->
  exists h st', for_each p (fun event '(q, st) => EventQueue.insert event q st) (q, st) = Ok (q <| EventQueue.head := h |>, st') /\
    skin st' = skin st /\ hangs (q <| EventQueue.head := h |>) st' (reverse p ++ l).
Proof.
  revert q st l. induction p as [|x p IH]; intros q st l Hh Hnd Hdom; simpl.
  - exists (EventQueue.head q), st. by destruct q.
  - destruct (Hdom x) as [e He]; [set_solver|]. pose proof Hnd as (Hl & Hdis & Hp)%list.NoDup_app.
    destruct (hangs_insert _ _ _ Hh Hl x e) as (h & st' & -> & Hskin & Hh'); [set_solver|done|]. simpl.
    destruct (IH _ _ _ Hh') as (h' & st'' & -> & Hskin' & Hh'').
    + simpl. by rewrite Permutation_middle.
    + intros y Hy. destruct (Hdom y) as [ey Hey]; [set_solver|]. destruct (skin_Some _ _ _ _ Hskin Hey) as (? & ? & _). eauto.
    + exists h', st''. split_and!; [done|by rewrite Hskin'|]. by rewrite reverse_cons, <-(assoc_L (++)).
Qed.

Lemma handleAsync_refines q st a evs : represents true q st a evs ->
  exists q' st', EventQueue.handleAsyncInsertions (EventQueue.this q) q st = Ok (q', st') /\
    represents false q' st' (Agenda.handleAsyncInsertions a) evs.
Proof.
  intros []. unfold EventQueue.handleAsyncInsertions, Agenda.handleAsyncInsertions. rewrite Z.eqb_refl. simpl.
  destruct (async_spec (EventQueue.async_queue q) q st (Agenda.waiting a)) as (h & st' & -> & Hskin & Hh); [done|by rewrite <-r_async0|..].
  { rewrite <-r_async0. intros x Hx. destruct (r_marked0 x) as (e & He & _); [set_solver|].
    rewrite r_skin0, skin_lookup in He. apply fmap_Some in He as (? & ? & _). eauto. }
  assert (foldl (fun a event => Agenda.insert event a) a (Agenda.async_queue a) =
          a <| Agenda.waiting := reverse (Agenda.async_queue a) ++ Agenda.waiting a |>) as ->.
  { generalize (Agenda.async_queue a). clear. intros p. revert a. induction p as [|x p IH]; intros a; simpl; [by destruct a|].
    rewrite IH, reverse_cons, <-(assoc_L (++)). done. }
  assert (reverse (Agenda.async_queue a) ++ Agenda.waiting a ≡ₚ Agenda.waiting a ++ Agenda.async_queue a) as Hperm
    by (by rewrite reverse_Permutation, (comm (++))).
  eexists _, st'. split; [done|]. split; try done; simpl; rewrite ?app_nil_r.
  - by rewrite Hskin.
  - rewrite r_async0. destruct Hh as (bs & Hb & Hk & Hc). by exists bs.
  - by rewrite Hperm.
  - intros x. rewrite Hperm. apply r_marked0.
  - intros x. rewrite Hperm. apply r_ahead0.
Qed.

Lemma represents_new this : represents true (EventQueue.new this) ∅ (Agenda.new this) ∅.
Proof.
  split; try done; simpl; [|apply NoDup_nil_2|intros x; set_solver].
  exists []. split_and!; [done|split; constructor|done].
Qed.

Lemma simulate_refines {U} par this (setup : Handler U) handler fuel :
  refines (fun x y => x.1 = y.1 /\ state_related x.2 y.2) (simulate par this setup handler fuel) (Agenda.simulate par this setup handler fuel).
Proof.
  unfold simulate, Agenda.simulate. eapply refines_bind; [apply (run_refines _ _ true), represents_new|].
  intros [[q st] u] [[a evs] u'] [Hr Hu]. simpl in Hr, Hu. subst u'. unfold EventQueue.doSimLoop.
  destruct (handleAsync_refines _ _ _ _ Hr) as (q' & st' & -> & Hr'). simpl.
  apply simLoop_refines; [|done]. intros event [[q1 st1] u1] [[a1 evs1] u1'] [Hr1 Hu]. simpl in Hr1, Hu. subst u1'.
  by apply run_refines.
Qed.

(** ** The check of the queue on itself *)

Section verify.
Context (st : Events).

Lemma verify_bin_spec fuel p b map v : stack st p b -> (length b < fuel)%nat -> NoDup (map ++ b) ->
  in_order (key st) b -> Forall (fun y => kle v (key st y)) b ->
  exists v', EventQueue.verify_bin fuel p (map, v.1, v.2) st = Ok (Some (reverse b ++ map, v'.1, v'.2)) /\
    forall y, Forall (fun x => kle (key st x) (key st y)) b -> kle v (key st y) -> kle v' (key st y).
Proof.
  revert p b map v. induction fuel as [|fuel IH]; intros p b map v Hs Hf Hnd Ho Hv; [lia|].
  destruct b as [|x b]; simpl in *; [rewrite Hs; eauto|]. destruct Hs as (-> & e & He & Hs). rewrite (event_at_Ok _ _ _ He). simpl.
  apply StronglySorted_inv in Ho as [Ho Hx]. apply list.Forall_cons in Hv as [Hvx Hv].
  rewrite (key_at _ _ _ He) in Hvx, Hx. destruct v as [t pr]. simpl.
  pose proof Hvx as Hcmp%Is_true_true. unfold kle in Hcmp. simpl in Hcmp.
  rewrite (proj2 (Z.ltb_ge (Event._when e) t)), (proj2 (andb_false_iff _ _)) by lia.
  rewrite bool_decide_false by (apply list.NoDup_app in Hnd as (_ & Hnd & _); set_solver).
  destruct (IH _ b (x :: map) (key_of e) Hs) as (v' & Heq & Hv'); [lia|by simpl; rewrite Permutation_middle|done|done|].
  exists v'. simpl in Heq. rewrite Heq. split; [by rewrite reverse_cons, <-(assoc_L (++))|].
  intros y [Hxy Hb]%list.Forall_cons Hy. apply Hv'; [done|]. by rewrite (key_at _ _ _ He) in Hxy.
Qed.

Lemma verify_bins_spec fuel p bs map v : bins st p bs -> (length bs < fuel)%nat -> NoDup (map ++ concat bs) ->
  (length (concat bs) <= size st)%nat -> in_order (key st) (concat bs) -> Forall (fun y => kle v (key st y)) (concat bs) ->
  EventQueue.verify_bins fuel p (map, v.1, v.2) st = Ok true.
Proof.
  revert p bs map v. induction fuel as [|fuel IH]; intros p bs map v Hb Hf Hnd Hsize Ho Hv; [lia|].
  destruct bs as [|b bs]; [by simpl in *; rewrite Hb|]. destruct Hb as (x & b' & e & -> & -> & He & Hs & Hb).
  change (concat ((x :: b') :: bs)) with ((x :: b') ++ concat bs) in *. rewrite length_app in Hsize.
  apply list.Forall_app in Hv as [Hv1 Hv2]. rewrite (assoc_L (++)) in Hnd. pose proof Hnd as (Hnd1 & _ & _)%list.NoDup_app.
  destruct (verify_bin_spec (S (size st)) (Some x) (x :: b') map v) as (v' & Heq & Hv'); [by split; eauto|simpl in *; lia|done| |done|].
  { by eapply StronglySorted_app_1_l. }
  cbn [EventQueue.verify_bins]. rewrite Heq. cbn [mbind res_bind]. rewrite (event_at_Ok _ _ _ He). cbn [mbind res_bind].
  apply (IH _ bs); [done|simpl in Hf; lia| |lia|by eapply StronglySorted_app_1_r|].
  - rewrite reverse_Permutation, (comm (++) (x :: b') map). done.
  - rewrite list.Forall_forall in *. intros y Hy. apply Hv'; [|auto]. rewrite list.Forall_forall. intros z Hz.
    by apply (StronglySorted_app_1_elem_of _ _ _ z y Ho).
Qed.

End verify.

(** The head comes before the tick and priority that the check starts from. *)
Definition head_before_zero (q : EventQueue.t) (st : Events) : bool :=
  match EventQueue.head q with
  | Some h => match st !! h with Some e => (Event._when e =? 0) && (Event._priority e <? 0) | None => false end
  | None => false
  end.

Lemma debugVerify_spec all q st a evs : represents all q st a evs ->
  EventQueue.debugVerify q st = Ok (negb (head_before_zero q st)).
Proof.
  intros []. pose proof r_hangs0 as (bs & Hb & Hk & Hc). unfold EventQueue.debugVerify, head_before_zero.
  pose proof r_nodup0 as (Hnd & _ & _)%list.NoDup_app.
  assert (NoDup (concat bs)) as Hnd' by (by rewrite Hc, arrange_perm).
  pose proof (bins_size _ _ _ Hb Hnd') as Hsize. pose proof (bins_length _ _ _ Hb) as Hlen.
  apply binned_in_order in Hk.
  destruct bs as [|b bs]; [by simpl in Hb; rewrite Hb|]. pose proof Hb as (x & b' & e & -> & Hx & He & Hs & Hb2).
  rewrite Hx, He. assert (0 <= Event._when e) as Hw.
  { assert (x ∈ concat ((x :: b') :: bs)) as Hin by set_solver. rewrite Hc, arrange_perm in Hin.
    assert (x ∈ Agenda.waiting a ++ if all then Agenda.async_queue a else []) as Ha%r_ahead0 by set_solver.
    rewrite r_skin0, skin_key, (key_at _ _ _ He) in Ha. simpl in Ha. lia. }
  destruct ((Event._when e =? 0) && (Event._priority e <? 0)) eqn:E; simpl negb.
  - cbn [EventQueue.verify_bins EventQueue.verify_bin]. rewrite (event_at_Ok _ _ _ He). cbn [mbind res_bind].
    by rewrite (proj2 (Z.ltb_ge _ _) Hw), E.
  - rewrite Hx in Hb. apply (verify_bins_spec st _ _ ((x :: b') :: bs) [] (0, 0)); [done|lia|done..|].
    simpl in Hk. apply StronglySorted_inv in Hk as [_ Hk]. rewrite (key_at _ _ _ He) in Hk.
    assert (kle (0, 0) (key_of e)) as H0 by (unfold kle, key_of; cbn [fst snd]; rewrite Is_true_true; lia).
    simpl. constructor; [by rewrite (key_at _ _ _ He)|]. eapply list.Forall_impl; [exact Hk|]. intros y. by apply kle_trans.
Qed.

(** ** Theorems *)

(** C12: a whole simulation run by the event queue is the one run by the agenda.
    For every set-up of the objects and everything that their events do through
    the functions of the queue and of the events (schedule, deschedule and
    reschedule others or themselves, squash, create and delete events, look at
    them and at the tick), on one thread or with others, for every number of
    rounds: the linked lists of bins of the code service the same events at the
    same ticks as an agenda that always takes, among the events that wait, the
    one scheduled last among those of least tick and priority; both end with the
    same exit event, or both fail with the same error.  The loop of the agenda
    has no check that time goes on, so that of the code never fires. *)
Theorem simulation_refines_agenda {U} (inParallelMode : bool) (this : Z) (setup : Handler U) (handler : Z -> U -> Handler U) (fuel : nat) :
  refines (fun x y => x.1 = y.1 /\ state_related x.2 y.2)
    (simulate inParallelMode this setup handler fuel) (Agenda.simulate inParallelMode this setup handler fuel).
Proof. apply simulate_refines. Qed.

(** Three objects log the ticks at which they are serviced.  The first creates an
    event of its own in passing and postpones the second; the third ends the run. *)
Definition demo_setup : Handler (list (Z * Z)) :=
  Create 0 0 (fun a => Create 0 0 (fun b => Create 10 Event.IsExitEvent (fun c =>
  Schedule a 5 false (Schedule b 5 false (Schedule c 9 false (Return [])))))).

Definition demo_handler (event : Z) (log : list (Z * Z)) : Handler (list (Z * Z)) :=
  CurTick (fun now => let log := (event, now) :: log in
    if event =? 1 then
      if bool_decide (length log = 1%nat) then Create (-1) Event.Managed (fun d => Schedule d 9 false (Reschedule 0 7 false (Return log)))
      else Return log
    else Return log).

Example demo_simulation :
  exists q st, simulate false 100 demo_setup demo_handler 10 = Ok (2, (q, st, [(2, 9); (3, 9); (0, 7); (1, 5)])) /\ st !! 3 = None.
Proof. eexists _, _. split; vm_compute; reflexivity. Qed.

(** C39: the queue passes its own check.  In every state in which a simulation
    ends, [debugVerify] finds the events in order and none twice, with one
    exception: it starts from tick 0 and priority 0, so it calls a queue inverted
    whose first event is for tick 0 and has a negative priority. *)
Theorem simulation_verified {U} (inParallelMode : bool) (this : Z) (setup : Handler U) (handler : Z -> U -> Handler U) (fuel : nat) x q st u :
  simulate inParallelMode this setup handler fuel = Ok (x, (q, st, u)) ->
  EventQueue.debugVerify q st = Ok (negb (head_before_zero q st)).
Proof.
  intros Hsim. pose proof (simulate_refines inParallelMode this setup handler fuel) as Hr. rewrite Hsim in Hr.
  destruct (Agenda.simulate _ _ _ _ _) as [[y [[a evs] u']]|]; [|done]. destruct Hr as [_ [Hr _]]. by eapply debugVerify_spec.
Qed.

(** The exit event of tick 0 leaves one of negative priority behind. *)
Definition early_setup : Handler unit :=
  Create (-31) Event.IsExitEvent (fun a => Create (-1) 0 (fun b => Schedule a 0 false (Schedule b 0 false (Return tt)))).

Lemma simulation_verified_witness :
  exists q st, simulate false 100 early_setup (fun _ _ => Return tt) 1 = Ok (0, (q, st, tt)) /\ EventQueue.debugVerify q st = Ok false.
Proof.
  destruct (simulate false 100 early_setup (fun _ _ => Return tt) 1) as [[x [[q st] []]]|] eqn:E; [|by vm_compute in E].
  exists q, st. pose proof (simulation_verified _ _ _ _ _ _ _ _ _ E) as Hv. vm_compute in E. injection E as <- <- <-.
  split; [done|]. rewrite Hv. reflexivity.
Defined.
