(* ===== verification/SimObjects.v ===== *)
(** * SimObjects: consumers on the event queue

    The [Consumer] of mem/ruby/common/Consumer.cc with its event in the event
    queue, and systems of consumers whose [wakeup] functions ask each other to
    wake up, run by the loop of the simulator up to an exit event. *)

From Stdlib Require Import Sorted.
From stdpp Require Import gmap.
From S2P Require Import Prelude Clock EventQueue EventAgenda EventLists EventQueueProofs.

Fixpoint hbind {A B} (h : Handler A) (f : A -> Handler B) : Handler B :=
  match h with
  | Return a => f a
  | Schedule event when global k => Schedule event when global (hbind k f)
  | Deschedule event k => Deschedule event (hbind k f)
  | Reschedule event when always k => Reschedule event when always (hbind k f)
  | CurTick k => CurTick (fun x => hbind (k x) f)
  | NextTick k => NextTick (fun x => hbind (k x) f)
  | IsEmpty k => IsEmpty (fun x => hbind (k x) f)
  | Create p fl k => Create p fl (fun x => hbind (k x) f)
  | Destroy event k => Destroy event (hbind k f)
  | Squash event k => Squash event (hbind k f)
  | SetFlags event fl k => SetFlags event fl (hbind k f)
  | ClearFlags event fl k => ClearFlags event fl (hbind k f)
  | Look event k => Look event (fun x y z => hbind (k x y z) f)
  | Stop e => Stop e
  end.

(** ** Consumers *)

Module SimConsumer.

Record t := mk { m_wakeup_event : Z; em : Clocked.t; m_wakeup_ticks : list Z }.
#[global] Instance t_eta : Etaed t := fun c => mk (m_wakeup_event c) (em c) (m_wakeup_ticks c).

(** The event is an [EventFunctionWrapper] without flags. *)
Definition new (period ev_prio : Z) : Handler t := Create ev_prio 0 (fun event => Return (mk event (Clocked.new period) [])).

Definition scheduleNextWakeup (c : t) : Handler unit :=
  CurTick (fun curTick =>
    match Consumer.lower_bound (Clocked.clockEdge curTick 0 (em c)) (m_wakeup_ticks c) with
    | None => Return tt
    | Some when =>
        if Clocked.clockEdge curTick 0 (em c) <=? when then
          Look (m_wakeup_event c) (fun event_when _ flags =>
            let scheduled := negb (Z.land flags Event.Scheduled =? 0) in
            if scheduled && (when <? event_when) then Reschedule (m_wakeup_event c) when true (Return tt)
            else if negb scheduled then Schedule (m_wakeup_event c) when false (Return tt)
            else Return tt)
        else Stop AssertFail
    end).

(** Both return the tick that is added. *)
Definition scheduleEvent (timeDelta : Z) (c : t) : Handler (t * Z) :=
  CurTick (fun curTick =>
    let edge := Clocked.clockEdge curTick timeDelta (em c) in
    let c := c <| m_wakeup_ticks ::= Consumer.insert_tick edge |> in
    hbind (scheduleNextWakeup c) (fun _ => Return (c, edge))).

Definition scheduleEventAbsolute (evt_time : Z) (c : t) : Handler (t * Z) :=
  let edge := divCeil evt_time (Clocked.clockPeriod (em c)) * Clocked.clockPeriod (em c) in
  let c := c <| m_wakeup_ticks ::= Consumer.insert_tick edge |> in
  hbind (scheduleNextWakeup c) (fun _ => Return (c, edge)).

(** The part of [processCurrentEvent] before [wakeup]; also returns the tick. *)
Definition currentTick (c : t) : Handler (t * Z) :=
  CurTick (fun curTick =>
    match m_wakeup_ticks c with
    | [] => Stop Undefined
    | curr :: rest =>
        if Clocked.clockEdge curTick 0 (em c) =? curr then Return (c <| m_wakeup_ticks := rest |>, curr) else Stop AssertFail
    end).

End SimConsumer.

(** ** Systems of consumers *)

(** A call of [scheduleEvent] or [scheduleEventAbsolute] of a consumer. *)
Inductive Request :=
| After (consumer : nat) (timeDelta : Z)
| At (consumer : nat) (evt_time : Z).

Definition target (r : Request) : nat := match r with After j _ | At j _ => j end.

(** The consumers, the rest of the simulated state, and the ticks for which
    each consumer was asked to wake up and at which it woke up. *)
Record System (W : Type) := mkSystem {
  consumers : list SimConsumer.t;
  world : W;
  asked : list (nat * Z);
  woken : list (nat * Z);
}.
Arguments mkSystem {W}. Arguments consumers {W}. Arguments world {W}. Arguments asked {W}. Arguments woken {W}.
#[global] Instance System_eta W : Etaed (System W) := fun s => mkSystem (consumers s) (world s) (asked s) (woken s).

Section system.
Context {W : Type}.
(** What the [wakeup] of a consumer does at a tick: it asks for wake-ups and
    changes the world. *)
Context (wakeup : nat -> Z -> W -> list Request * W).

Definition make_request (r : Request) (s : System W) : Handler (System W) :=
  match consumers s !! target r with
  | None => Stop Undefined
  | Some c =>
      hbind (match r with
             | After _ timeDelta => SimConsumer.scheduleEvent timeDelta c
             | At _ evt_time => SimConsumer.scheduleEventAbsolute evt_time c
             end)
        (fun '(c, edge) => Return (s <| consumers ::= <[target r := c]> |> <| asked ::= (fun l => l ++ [(target r, edge)]) |>))
  end.

Fixpoint make_requests (l : list Request) (s : System W) : Handler (System W) :=
  match l with
  | [] => Return s
  | r :: l' => hbind (make_request r s) (make_requests l')
  end.

Definition processCurrentEvent (i : nat) (s : System W) : Handler (System W) :=
  match consumers s !! i with
  | None => Stop Undefined
  | Some c =>
      hbind (SimConsumer.currentTick c) (fun '(c, curr) =>
        let s := s <| consumers ::= <[i := c]> |> <| woken ::= (fun l => l ++ [(i, curr)]) |> in
        let '(requests, w) := wakeup i curr (world s) in
        hbind (make_requests requests (s <| world := w |>)) (fun s =>
          match consumers s !! i with
          | None => Stop Undefined
          | Some c => hbind (SimConsumer.scheduleNextWakeup c) (fun _ => Return s)
          end))
  end.

(** The callbacks; the exit event does nothing. *)
Definition system_handler (event : Z) (s : System W) : Handler (System W) :=
  match list_find (fun c => SimConsumer.m_wakeup_event c = event) (consumers s) with
  | Some (i, _) => processCurrentEvent i s
  | None => Return s
  end.

(** The consumers are made with their clock period and the priority of their
    event. *)
Fixpoint make_consumers (config : list (Z * Z)) (s : System W) : Handler (System W) :=
  match config with
  | [] => Return s
  | (period, ev_prio) :: config =>
      hbind (SimConsumer.new period ev_prio) (fun c => make_consumers config (s <| consumers ::= (fun l => l ++ [c]) |>))
  end.

Definition Sim_Exit_Pri : Z := 100.

(** Then they are started, and the run is to end at [last]. *)
Definition system_setup (config : list (Z * Z)) (w : W) (startup : list Request) (last : Z) : Handler (System W) :=
  hbind (make_consumers config (mkSystem [] w [] [])) (fun s =>
  hbind (make_requests startup s) (fun s =>
  Create Sim_Exit_Pri Event.IsExitEvent (fun exit_event => Schedule exit_event last false (Return s)))).

End system.
