(* ===== verification/SimProofs.v ===== *)
(** * SimProofs: a system of consumers wakes up as asked

    The invariant of a system of consumers on the agenda: the event of every
    consumer waits for the first of its ticks.  With it the loop ends at the
    tick of the exit event and every consumer has woken up at exactly the ticks
    asked for; by the refinement of [EventQueueProofs] the same holds on the
    event queue. *)

From Stdlib Require Import Sorted.
From stdpp Require Import gmap sorting.
From S2P Require Import Prelude Clock EventQueue EventAgenda EventLists EventQueueProofs SimObjects.

Lemma run_hbind {A B Q} (em : EventManager Q) (h : Handler A) (f : A -> Handler B) q st :
  run (hbind h f) q st = ('(q, st, a) ← run h q st; run (f a) q st).
Proof.
  revert q st. induction h; simpl; intros q st; [done| | | |by auto| |by auto| | | | | | |done].
  - destruct (em_schedule _ _ _ _ _) as [[]|]; simpl; auto.
  - destruct (em_deschedule _ _ _) as [[]|]; simpl; auto.
  - destruct (em_reschedule _ _ _ _ _) as [[]|]; simpl; auto.
  - destruct (em_nextTick _ _); simpl; auto.
  - destruct (Event.new _ _); simpl; auto.
  - destruct (event_at _ _); simpl; [|done]. destruct (assert _); simpl; auto.
  - destruct (update_event _ _ _); simpl; auto.
  - destruct (event_at _ _); simpl; [|done]. destruct (Event.setFlags _ _); simpl; auto.
  - destruct (event_at _ _); simpl; [|done]. destruct (Event.clearFlags _ _); simpl; auto.
  - destruct (event_at _ _); simpl; auto.
Qed.

(** ** One event *)

(** The event [x] of a consumer waits for the given tick, or not at all. *)
Definition fit (a : Agenda.t) (evs : Events) (x p : Z) (at_ : option Z) : Prop :=
  exists e, evs !! x = Some e /\ Event._priority e = p /\
    match at_ with
    | Some w => Event.flags e = Z.lor Event.Initialized Event.Scheduled /\ Event._when e = w /\
                Event.queue e = Some (Agenda.this a) /\ x ∈ Agenda.waiting a
    | None => Event.flags e = Event.Initialized /\ x ∉ Agenda.waiting a
    end.

(** Everything but the event [x] stays. *)
Record frame (x : Z) (a : Agenda.t) (evs : Events) (a' : Agenda.t) (evs' : Events) : Prop := {
  f_this : Agenda.this a' = Agenda.this a;
  f_tick : Agenda._curTick a' = Agenda._curTick a;
  f_async : Agenda.async_queue a' = Agenda.async_queue a;
  f_events y : y <> x -> evs' !! y = evs !! y;
  f_waiting y : y <> x -> y ∈ Agenda.waiting a' <-> y ∈ Agenda.waiting a;
  f_nodup : NoDup (Agenda.waiting a) -> NoDup (Agenda.waiting a');
}.

Lemma frame_refl x a evs : frame x a evs a evs.
Proof. by split. Qed.

Lemma fit_frame x a evs a' evs' y p at_ : frame x a evs a' evs' -> y <> x -> fit a evs y p at_ -> fit a' evs' y p at_.
Proof.
  intros [] Hne (e & He & Hp & Hat). exists e. rewrite f_events0, f_this0 by done. split_and!; [done..|].
  destruct at_; rewrite f_waiting0 by done; done.
Qed.

Section event.
Context (cur : Z) (a : Agenda.t) (evs : Events) (x p : Z).

Lemma schedule_fit w : fit a evs x p None -> Agenda._curTick a <= w ->
  exists a' evs', Agenda.schedule false cur x w false a evs = Ok (a', evs') /\ fit a' evs' x p (Some w) /\ frame x a evs a' evs'.
Proof.
  intros (e & He & Hp & Hf & Hx) Hw. unfold Agenda.schedule. rewrite (proj2 (Z.leb_le _ _) Hw). simpl.
  rewrite (event_at_Ok _ _ _ He). simpl. unfold Event.scheduled, Event.initialized, Event.isSet. rewrite Hf. simpl.
  rewrite (update_event_Ok _ _ _ _ He). simpl. eexists _, _. split_and!; [done|..].
  - eexists. split_and!; [apply lookup_insert_eq|exact Hp|by simpl; rewrite Hf|done..|set_solver].
  - split; try done; simpl; [|set_solver|by constructor]. intros y Hy. by rewrite lookup_insert_ne.
Qed.

Lemma reschedule_fit w0 w : fit a evs x p (Some w0) -> Agenda._curTick a <= w ->
  exists a' evs', Agenda.reschedule false cur x w true a evs = Ok (a', evs') /\ fit a' evs' x p (Some w) /\ frame x a evs a' evs'.
Proof.
  intros (e & He & Hp & Hf & Hw0 & Hq & Hx) Hw. unfold Agenda.reschedule. rewrite (proj2 (Z.leb_le _ _) Hw). simpl.
  rewrite (event_at_Ok _ _ _ He). simpl. unfold Event.scheduled, Event.initialized, Event.isSet. rewrite Hf. simpl.
  unfold Agenda.remove, Agenda.empty. rewrite bool_decide_false by (intros Hn; rewrite Hn in Hx; set_solver).
  rewrite (event_at_Ok _ _ _ He). simpl. rewrite Hq, !bool_decide_true by done. simpl.
  rewrite (update_event_Ok _ _ _ _ He). simpl. eexists _, _. split_and!; [done|..].
  - eexists. split_and!; [apply lookup_insert_eq|exact Hp|by simpl; rewrite Hf|done..|set_solver].
  - split; try done; simpl.
    + intros y Hy. by rewrite lookup_insert_ne.
    + intros y Hy. rewrite elem_of_cons, list_elem_of_filter. naive_solver.
    + intros Hnd. constructor; [rewrite list_elem_of_filter; naive_solver|by apply list.NoDup_filter].
Qed.

Lemma next_fit c at_ c' :
  fit a evs x p at_ -> SimConsumer.m_wakeup_event c = x -> Clocked.wf (Agenda._curTick a) (SimConsumer.em c) ->
  Consumer.scheduleNextWakeup (SimConsumer.em c) (Agenda._curTick a) (Consumer.mk (SimConsumer.m_wakeup_ticks c) at_) = Ok c' ->
  exists a' evs', @run _ _ (Agenda.manager false cur) (SimConsumer.scheduleNextWakeup c) a evs = Ok (a', evs', tt) /\
    fit a' evs' x p (Consumer.m_wakeup_event c') /\ frame x a evs a' evs'.
Proof.
  intros Hfit Hx Hclk. unfold Consumer.scheduleNextWakeup. simpl.
  destruct (Clocked.update_spec _ _ Hclk) as (_ & _ & Hedge).
  assert (Agenda._curTick a <= Clocked.clockEdge (Agenda._curTick a) 0 (SimConsumer.em c)) as Hle.
  { unfold Clocked.clockEdge. lia. }
  destruct (Consumer.lower_bound _ _) as [when|].
  2: { intros [= <-]. exists a, evs. split_and!; [done..|apply frame_refl]. }
  destruct (Z.leb_spec (Clocked.clockEdge (Agenda._curTick a) 0 (SimConsumer.em c)) when) as [Hwhen|]; simpl; [|done].
  pose proof Hfit as (e & He & Hp & Hat). rewrite Hx, (event_at_Ok _ _ _ He). simpl. destruct at_ as [w|].
  - destruct Hat as (Hf & Hw & Hat). rewrite Hf, Hw. simpl. destruct (when <? w); intros [= <-].
    + destruct (reschedule_fit w when Hfit) as (a' & evs' & Hs & ?); [lia|]. simpl. rewrite Hs. simpl. eauto.
    + exists a, evs. split_and!; [done..|apply frame_refl].
  - destruct Hat as [Hf Hat]. rewrite Hf. simpl. intros [= <-].
    destruct (schedule_fit when Hfit) as (a' & evs' & Hs & ?); [lia|]. rewrite Hs. simpl. eauto.
Qed.

End event.

#[local] Arguments SimConsumer.scheduleNextWakeup : simpl never.
#[local] Arguments hbind : simpl never.

(** ** Clock edges *)

Lemma new_consumer_wf period now : 0 < period -> 0 <= now -> Clocked.wf now (Clocked.new period).
Proof. unfold Clocked.wf. simpl. lia. Qed.

Lemma edge_multiple period now n : 0 < period -> 0 <= now ->
  exists m, Clocked.clockEdge now n (Clocked.new period) = m * period /\ now + period * n <= m * period.
Proof.
  intros Hp Hnow. destruct (Clocked.update_spec now (Clocked.new period) (new_consumer_wf _ _ Hp Hnow)) as ((_ & _ & Ht & _) & Hper & Hge).
  unfold Clocked.clockEdge. rewrite Ht, Hper. simpl. exists (Clocked.cycle (Clocked.update now (Clocked.new period)) + n).
  rewrite Ht, Hper in Hge. simpl in Hge. lia.
Qed.

(** The present edge is the first multiple of the period not in the past. *)
Lemma edge_least period now n : 0 < period -> 0 <= now -> now <= n * period -> Clocked.clockEdge now 0 (Clocked.new period) <= n * period.
Proof.
  intros Hp Hnow Hn. destruct (Clocked.update_spec now (Clocked.new period) (new_consumer_wf _ _ Hp Hnow)) as ((_ & _ & Ht & Hlt) & Hper & Hge).
  unfold Clocked.clockEdge. rewrite Hper in *. simpl in *. rewrite Z.mul_0_r, Z.add_0_r, Ht.
  set (m := Clocked.cycle _) in *. assert (m < n + 1) by nia. nia.
Qed.

Lemma divCeil_multiple period t : 0 < period -> 0 <= t -> t <= divCeil t period * period.
Proof.
  intros Hp Ht. destruct (decide (t = 0)) as [->|]; [|pose proof (divCeil_spec t _ Hp); lia].
  unfold divCeil. rewrite Z.quot_div_nonneg by lia. pose proof (Z.div_pos (0 + period - 1) period). nia.
Qed.

(** ** The invariant of a system *)

Section system.
Context {W : Type} (wakeup : nat -> Z -> W -> list Request * W) (config : list (Z * Z)) (cur : Z).
Context (Hconfig : forall j period prio, config !! j = Some (period, prio) -> 0 < period /\ prio < Sim_Exit_Pri).

Notation events s := (SimConsumer.m_wakeup_event <$> consumers s).
Notation edge now c := (Clocked.clockEdge now 0 (SimConsumer.em c)).

Definition woken_of (j : nat) (s : System W) : list Z := (filter (fun p => p.1 = j) (woken s)).*2.

Lemma elem_woken_of j k s : k ∈ woken_of j s <-> (j, k) ∈ woken s.
Proof.
  unfold woken_of. rewrite list_elem_of_fmap. split.
  - by intros ([j' k'] & -> & [[= ->] Hin]%list_elem_of_filter).
  - intros Hin. exists (j, k). by rewrite list_elem_of_filter.
Qed.

(** The ticks asked for are those at which the consumer woke up and, after
    them, those that it waits for. *)
Definition history (now : Z) (j : nat) (s : System W) (ticks : list Z) : Prop :=
  StronglySorted Z.lt (woken_of j s ++ ticks) /\ (forall k, (j, k) ∈ asked s <-> k ∈ woken_of j s ++ ticks) /\
  Forall (fun k => k <= now) (woken_of j s).

(** In the consumer [mid] the wake-up is under way. *)
Definition consumer_ok (mid : option nat) (a : Agenda.t) (evs : Events) (s : System W) (j : nat) (c : SimConsumer.t) : Prop :=
  exists period prio at_, config !! j = Some (period, prio) /\ SimConsumer.em c = Clocked.new period /\
    fit a evs (SimConsumer.m_wakeup_event c) prio at_ /\
    (if bool_decide (mid = Some j) then Consumer.waking else Consumer.wf) (SimConsumer.em c) (edge (Agenda._curTick a) c)
      (Consumer.mk (SimConsumer.m_wakeup_ticks c) at_) /\
    history (Agenda._curTick a) j s (SimConsumer.m_wakeup_ticks c).

Definition exit_ok (a : Agenda.t) (evs : Events) (s : System W) (x last : Z) : Prop :=
  x ∉ events s /\ exists e, evs !! x = Some e /\ key_of e = (last, Sim_Exit_Pri) /\
    Event.flags e = Z.lor (Z.lor Event.Initialized Event.IsExitEvent) Event.Scheduled /\ x ∈ Agenda.waiting a.

Record system_ok (mid : option nat) (exit : option (Z * Z)) (a : Agenda.t) (evs : Events) (s : System W) : Prop := {
  s_start : 0 <= Agenda._curTick a;
  s_async : Agenda.async_queue a = [];
  s_nodup : NoDup (Agenda.waiting a);
  s_length : length (consumers s) = length config;
  s_ids : NoDup (events s);
  s_ok j c : consumers s !! j = Some c -> consumer_ok mid a evs s j c;
  s_woken : NoDup (woken s) /\ forall j k, (j, k) ∈ woken s -> (j < length config)%nat /\ 0 <= k <= Agenda._curTick a;
  s_exit : match exit with Some (x, last) => exit_ok a evs s x last | None => True end;
  s_waiting y : y ∈ Agenda.waiting a -> y ∈ events s \/ fst <$> exit = Some y;
}.

Lemma consumer_ok_waking mid a evs s j c : consumer_ok mid a evs s j c -> exists period prio at_,
  config !! j = Some (period, prio) /\ 0 < period /\ SimConsumer.em c = Clocked.new period /\
  fit a evs (SimConsumer.m_wakeup_event c) prio at_ /\
  Consumer.waking (SimConsumer.em c) (edge (Agenda._curTick a) c) (Consumer.mk (SimConsumer.m_wakeup_ticks c) at_) /\
  history (Agenda._curTick a) j s (SimConsumer.m_wakeup_ticks c).
Proof.
  intros (period & prio & at_ & Hc & Hem & Hf & Hw & Hh). exists period, prio, at_. destruct (Hconfig _ _ _ Hc).
  split_and!; try done. case_bool_decide; [done|by apply Consumer.wf_waking].
Qed.

(** Events of different consumers are different. *)
Lemma other_event (s : System W) j j' c c' : NoDup (events s) -> consumers s !! j = Some c -> consumers s !! j' = Some c' -> j' <> j ->
  SimConsumer.m_wakeup_event c' <> SimConsumer.m_wakeup_event c.
Proof.
  intros Hnd Hc Hc' Hne Heq. apply Hne. eapply (proj1 (NoDup_alt _) Hnd); rewrite list_lookup_fmap, ?Hc, ?Hc'; simpl; [done|by rewrite Heq].
Qed.

Lemma events_update (l : list SimConsumer.t) j c c' : l !! j = Some c -> SimConsumer.m_wakeup_event c' = SimConsumer.m_wakeup_event c ->
  SimConsumer.m_wakeup_event <$> <[j := c']> l = SimConsumer.m_wakeup_event <$> l.
Proof. intros Hc Hev. rewrite list_fmap_insert, Hev. apply list_insert_id. by rewrite list_lookup_fmap, Hc. Qed.

(** The consumer [j] and its event change. *)
Lemma system_update mid mid' exit a evs s j c a' evs' s' c' :
  system_ok mid exit a evs s -> consumers s !! j = Some c -> frame (SimConsumer.m_wakeup_event c) a evs a' evs' ->
  consumers s' = <[j := c']> (consumers s) -> SimConsumer.m_wakeup_event c' = SimConsumer.m_wakeup_event c ->
  woken s' = woken s -> (forall j' k, j' <> j -> (j', k) ∈ asked s' <-> (j', k) ∈ asked s) ->
  (forall j', j' <> j -> bool_decide (mid' = Some j') = bool_decide (mid = Some j')) ->
  consumer_ok mid' a' evs' s' j c' -> system_ok mid' exit a' evs' s'.
Proof.
  intros [] Hc Hfr Hs' Hev Hwok Hask Hmid Hok. pose proof Hfr as [].
  assert (events s' = events s) as Hevs by (rewrite Hs'; by eapply events_update).
  assert (SimConsumer.m_wakeup_event c ∈ events s) as Hin by (apply list_elem_of_fmap; exists c; split; [done|by eapply list_elem_of_lookup_2]).
  split; rewrite ?f_tick0, ?f_async0, ?Hevs, ?Hwok; try done.
  - auto.
  - by rewrite Hs', length_insert.
  - intros j' c1. rewrite Hs'. destruct (decide (j' = j)) as [->|Hne].
    + rewrite list_lookup_insert_eq by (by eapply lookup_lt_Some). by intros [= <-].
    + rewrite list_lookup_insert_ne by done. intros Hc1. destruct (s_ok0 _ _ Hc1) as (period & prio & at_ & Hcfg & Hem & Hf & Hw & Hh1 & Hh2 & Hh3).
      exists period, prio, at_. unfold history, woken_of in *. rewrite Hmid, f_tick0, Hwok by done. split_and!; try done.
      * eapply fit_frame; [done| |done]. by eapply other_event.
      * intros k. rewrite Hask by done. apply Hh2.
  - destruct exit as [[x last]|]; [|done]. destruct s_exit0 as (Hx & e & He & Hk & Hfl & Hxw). split; [by rewrite Hevs|].
    assert (x <> SimConsumer.m_wakeup_event c) by congruence || (intros ->; done).
    exists e. rewrite f_events0, f_waiting0 by done. done.
  - intros y Hy. destruct (decide (y = SimConsumer.m_wakeup_event c)) as [->|]; [by left|]. apply s_waiting0. by apply f_waiting0.
Qed.

Lemma history_insert now j s ticks k c1 : history now j s ticks -> Forall (fun k' => k' < k) (woken_of j s) ->
  history now j (s <| consumers := c1 |> <| asked ::= (fun l => l ++ [(j, k)]) |>) (Consumer.insert_tick k ticks).
Proof.
  intros (Hs & Hask & Hnow) Hk. unfold history, woken_of in *. simpl. apply StronglySorted_app in Hs as (Hx & Hs1 & Hs2). split_and!; [| |done].
  - apply StronglySorted_app. split_and!; [|done|by apply Consumer.insert_tick_sorted].
    intros x y Hxin [->|Hy]%Consumer.insert_tick_elem; [|by apply Hx]. by apply (proj1 (list.Forall_forall _ _) Hk).
  - intros k'. rewrite elem_of_app, Hask, list_elem_of_singleton, !elem_of_app, Consumer.insert_tick_elem. naive_solver.
Qed.

(** One more tick for a consumer. *)
Lemma request_ok mid exit a evs s j c k :
  system_ok mid exit a evs s -> consumers s !! j = Some c -> edge (Agenda._curTick a) c <= k ->
  (exists n, k = n * Clocked.clockPeriod (SimConsumer.em c)) -> Forall (fun k' => k' < k) (woken_of j s) ->
  let c' := c <| SimConsumer.m_wakeup_ticks ::= Consumer.insert_tick k |> in
  exists a' evs', @run _ _ (Agenda.manager false cur) (SimConsumer.scheduleNextWakeup c') a evs = Ok (a', evs', tt) /\
    Agenda._curTick a' = Agenda._curTick a /\
    system_ok mid exit a' evs' (s <| consumers ::= <[j := c']> |> <| asked ::= (fun l => l ++ [(j, k)]) |>).
Proof.
  intros Hsys Hc Hk Hmul Hwok c'. destruct (consumer_ok_waking _ _ _ _ _ _ (s_ok _ _ _ _ _ Hsys _ _ Hc)) as (period & prio & at_ & Hcfg & Hper & Hem & Hfit & Hwk & Hh).
  destruct (safe_inv _ _ (Consumer.schedule_wf _ _ _ k Hwk Hk Hmul)) as (cc & Hcc & Hwf & Hticks). simpl in Hcc.
  destruct (next_fit cur a evs _ prio c' at_ cc Hfit) as (a' & evs' & Hrun & Hfit' & Hfr); [done| |done|].
  { simpl. rewrite Hem. apply new_consumer_wf; [done|apply Hsys]. }
  exists a', evs'. pose proof Hfr as []. split_and!; [done..|].
  eapply (system_update mid mid); [exact Hsys|done|done|done|done|done| |done|].
  - intros j' k' Hne. simpl. rewrite elem_of_app, list_elem_of_singleton. naive_solver.
  - exists period, prio, (Consumer.m_wakeup_event cc). rewrite f_tick0. split_and!; [done..| |].
    + simpl in Hticks. destruct cc as [tk ev]. simpl in *. subst tk. case_bool_decide; [by apply Consumer.wf_waking|done].
    + by apply history_insert.
Qed.

(** ** Requests *)

(** A request for a consumer of the system, at least [lead] cycles or ticks ahead. *)
Definition due (lead now : Z) (r : Request) : Prop :=
  (target r < length config)%nat /\ match r with After _ timeDelta => lead <= timeDelta | At _ evt_time => now + lead <= evt_time end.

Lemma woken_below mid exit a evs s j c k lead : system_ok mid exit a evs s -> consumers s !! j = Some c ->
  Agenda._curTick a + lead <= k -> 1 <= lead \/ woken s = [] -> Forall (fun k' => k' < k) (woken_of j s).
Proof.
  intros Hsys Hc Hk [Hl|Hw]; [|unfold woken_of; rewrite Hw; constructor].
  destruct (s_ok _ _ _ _ _ Hsys _ _ Hc) as (? & ? & ? & _ & _ & _ & _ & _ & _ & Hnow).
  eapply list.Forall_impl; [exact Hnow|]. simpl. lia.
Qed.

Lemma make_request_ok mid exit a evs s lead r :
  system_ok mid exit a evs s -> due lead (Agenda._curTick a) r -> 0 <= lead -> 1 <= lead \/ woken s = [] ->
  exists a' evs' s', @run _ _ (Agenda.manager false cur) (make_request r s) a evs = Ok (a', evs', s') /\
    Agenda._curTick a' = Agenda._curTick a /\ system_ok mid exit a' evs' s' /\ woken s' = woken s /\ events s' = events s.
Proof.
  intros Hsys [Hr Hdue] Hlead Hwok. unfold make_request.
  assert (is_Some (consumers s !! target r)) as [c Hc] by (apply lookup_lt_is_Some; by rewrite (s_length _ _ _ _ _ Hsys)).
  rewrite Hc. pose proof (consumer_ok_waking _ _ _ _ _ _ (s_ok _ _ _ _ _ Hsys _ _ Hc)) as (period & prio & at_ & Hcfg & Hper & Hem & _).
  pose proof (s_start _ _ _ _ _ Hsys) as Hnow. rewrite run_hbind.
  assert (forall k, edge (Agenda._curTick a) c <= k -> Agenda._curTick a + lead <= k -> (exists n, k = n * period) -> exists a' evs',
    @run _ _ (Agenda.manager false cur) (SimConsumer.scheduleNextWakeup (c <| SimConsumer.m_wakeup_ticks ::= Consumer.insert_tick k |>)) a evs = Ok (a', evs', tt) /\
    Agenda._curTick a' = Agenda._curTick a /\
    system_ok mid exit a' evs' (s <| consumers ::= <[target r := c <| SimConsumer.m_wakeup_ticks ::= Consumer.insert_tick k |>]> |> <| asked ::= (fun l => l ++ [(target r, k)]) |>)) as Hreq.
  { intros k Hk Hk' Hn. eapply request_ok; [done..| |by eapply woken_below]. by rewrite Hem. }
  destruct r as [j d|j t]; cbn [target] in *.
  - unfold SimConsumer.scheduleEvent. cbn [run em_curTick Agenda.manager]. rewrite run_hbind.
    destruct (edge_multiple period (Agenda._curTick a) d Hper Hnow) as (m & Hm & Hge).
    destruct (Hreq (Clocked.clockEdge (Agenda._curTick a) d (SimConsumer.em c))) as (a' & evs' & -> & Ht & Hsys').
    + rewrite (Clocked.clockEdge_plus _ d), Hem. simpl. nia.
    + rewrite Hem, Hm. nia.
    + rewrite Hem, Hm. eauto.
    + simpl. eexists _, _, _. split_and!; [done..|]. by eapply events_update.
  - unfold SimConsumer.scheduleEventAbsolute. rewrite run_hbind, Hem. cbn [Clocked.clockPeriod Clocked.new].
    pose proof (divCeil_multiple period t Hper ltac:(lia)) as Hge.
    destruct (Hreq (divCeil t period * period)) as (a' & evs' & -> & Ht & Hsys'); [|lia|eauto|].
    + rewrite Hem. apply edge_least; lia.
    + simpl. eexists _, _, _. split_and!; [done..|]. by eapply events_update.
Qed.

Lemma make_requests_ok mid exit lead l a evs s :
  system_ok mid exit a evs s -> Forall (due lead (Agenda._curTick a)) l -> 0 <= lead -> 1 <= lead \/ woken s = [] ->
  exists a' evs' s', @run _ _ (Agenda.manager false cur) (make_requests l s) a evs = Ok (a', evs', s') /\
    Agenda._curTick a' = Agenda._curTick a /\ system_ok mid exit a' evs' s' /\ woken s' = woken s /\ events s' = events s.
Proof.
  intros Hsys Hl Hlead. revert a evs s Hsys Hl. induction l as [|r l IH]; intros a evs s Hsys Hl Hw; simpl; [eauto 10|].
  apply list.Forall_cons in Hl as [Hr Hl]. rewrite run_hbind.
  destruct (make_request_ok mid exit a evs s lead r Hsys Hr Hlead Hw) as (a1 & evs1 & s1 & -> & Ht & Hsys1 & Hw1 & Hev1). simpl.
  destruct (IH a1 evs1 s1 Hsys1) as (a2 & evs2 & s2 & -> & Ht2 & Hsys2 & Hw2 & Hev2); [by rewrite Ht|by rewrite Hw1|].
  exists a2, evs2, s2. split_and!; [done|by rewrite Ht2|done|by rewrite Hw2|by rewrite Hev2].
Qed.

(** ** A wake-up *)

Lemma woken_of_snoc j (s s' : System W) i k : woken s' = woken s ++ [(i, k)] ->
  woken_of j s' = woken_of j s ++ if decide (i = j) then [k] else [].
Proof. intros Hw. unfold woken_of. rewrite Hw, list.filter_app, fmap_app, filter_cons. simpl. by case_decide. Qed.

(** A consumer that is not being woken waits for the first of its ticks. *)
Lemma waits_for_first exit a evs s j c : system_ok None exit a evs s -> consumers s !! j = Some c -> exists period prio,
  config !! j = Some (period, prio) /\ 0 < period /\ prio < Sim_Exit_Pri /\ SimConsumer.em c = Clocked.new period /\
  fit a evs (SimConsumer.m_wakeup_event c) prio (head (SimConsumer.m_wakeup_ticks c)) /\
  Consumer.pending (SimConsumer.em c) (edge (Agenda._curTick a) c) (SimConsumer.m_wakeup_ticks c) /\
  history (Agenda._curTick a) j s (SimConsumer.m_wakeup_ticks c).
Proof.
  intros Hsys Hc. destruct (s_ok _ _ _ _ _ Hsys _ _ Hc) as (period & prio & at_ & Hcfg & Hem & Hf & [Hp Hat] & Hh).
  simpl in Hp, Hat. subst at_. destruct (Hconfig _ _ _ Hcfg). exists period, prio. by split_and!.
Qed.

Lemma frame_pop a evs x e e' : evs !! x = Some e -> frame x a evs (Agenda.drop x a) (<[x := e']> evs).
Proof.
  intros He. split; try done; simpl.
  - intros y Hy. by rewrite lookup_insert_ne.
  - intros y Hy. rewrite list_elem_of_filter. naive_solver.
  - by apply list.NoDup_filter.
Qed.

(** No tick that is waited for comes before the one of the first event. *)
Lemma first_tick exit a evs s x e j c t : system_ok None exit a evs s -> first (key evs) (Agenda.waiting a) = Some x -> evs !! x = Some e ->
  consumers s !! j = Some c -> t ∈ SimConsumer.m_wakeup_ticks c -> exists prio, prio < Sim_Exit_Pri /\ kle (key_of e) (t, prio).
Proof.
  intros Hsys [_ Hleast]%first_least He Hc Ht.
  destruct (waits_for_first _ _ _ _ _ _ Hsys Hc) as (period & prio & _ & _ & Hprio & _ & Hfit & [Hs _] & _).
  exists prio. split; [done|]. destruct (SimConsumer.m_wakeup_ticks c) as [|t0 l] eqn:E; [set_solver|].
  destruct Hfit as (e0 & He0 & Hp0 & _ & Hw0 & _ & Hin). specialize (Hleast _ Hin). rewrite (key_at _ _ _ He), (key_at _ _ _ He0) in Hleast.
  eapply kle_trans; [exact Hleast|]. pose proof (Consumer.sorted_head_le _ _ Hs t Ht). unfold key_of, kle. simpl. rewrite Hw0, Hp0.
  rewrite Is_true_true. lia.
Qed.

Section wake.
Context (exit : option (Z * Z)) (a : Agenda.t) (evs : Events) (s : System W) (i : nat) (c : SimConsumer.t) (e : Event.t).
Context (Hsys : system_ok None exit a evs s) (Hc : consumers s !! i = Some c) (He : evs !! SimConsumer.m_wakeup_event c = Some e).
Context (Hfirst : first (key evs) (Agenda.waiting a) = Some (SimConsumer.m_wakeup_event c)).

Notation k := (Event._when e).
Notation a1 := ((Agenda.drop (SimConsumer.m_wakeup_event c) a) <| Agenda._curTick := k |>).
Notation evs1 := (<[SimConsumer.m_wakeup_event c := Event.clear Event.Scheduled e]> evs).
Notation s1 rest := (s <| consumers ::= <[i := c <| SimConsumer.m_wakeup_ticks := rest |>]> |> <| woken ::= (fun l => l ++ [(i, k)]) |>).

Lemma first_event : exists rest, SimConsumer.m_wakeup_ticks c = k :: rest /\ Agenda._curTick a <= k /\ edge k c = k /\
  Event.flags e = Z.lor Event.Initialized Event.Scheduled.
Proof.
  destruct (waits_for_first _ _ _ _ _ _ Hsys Hc) as (period & prio & Hcfg & Hper & Hprio & Hem & (e' & He' & Hp & Hat) & [Hs Hall] & Hh).
  rewrite He in He'. injection He' as <-. apply first_least in Hfirst as [Hin _].
  destruct (SimConsumer.m_wakeup_ticks c) as [|t rest]; simpl in Hat; [by destruct Hat|]. destruct Hat as (Hf & Hw & _ & _).
  subst t. exists rest. apply list.Forall_cons in Hall as [[Hge [n Hn]] _]. rewrite Hem in *. simpl in Hn.
  pose proof (s_start _ _ _ _ _ Hsys) as Hstart.
  destruct (edge_multiple period (Agenda._curTick a) 0 Hper Hstart) as (m & Hm & Hle). split_and!; [done|lia| |done].
  apply (Clocked.clockEdge_aligned _ n); [apply new_consumer_wf; lia|done].
Qed.

Lemma start_wakeup rest : SimConsumer.m_wakeup_ticks c = k :: rest -> system_ok (Some i) exit a1 evs1 (s1 rest).
Proof.
  intros Hticks. destruct first_event as (rest' & Hr & Hnow & Hedge & Hflags). rewrite Hticks in Hr. injection Hr as <-.
  pose proof (frame_pop a evs _ e (Event.clear Event.Scheduled e) He) as Hfr. pose proof Hsys as [].
  assert (woken (s1 rest) = woken s ++ [(i, k)]) as Hwok by reflexivity.
  assert (events (s1 rest) = events s) as Hevs by (by eapply events_update).
  pose proof (waits_for_first _ _ _ _ _ _ Hsys Hc) as (period & prio & Hcfg & Hper & Hprio & Hem & (e' & He' & Hp & _) & [Hs Hall] & Hh1 & Hh2 & Hh3).
  rewrite He in He'. injection He' as <-. rewrite Hticks in *.
  split; rewrite ?Hevs; try done; simpl.
  - lia.
  - by apply list.NoDup_filter.
  - by rewrite length_insert.
  - intros j' c'. destruct (decide (j' = i)) as [->|Hne].
    + rewrite list_lookup_insert_eq by (by eapply lookup_lt_Some). intros [= <-]. exists period, prio, None. simpl.
      rewrite bool_decide_true by done. split_and!; [done..| | |].
      * eexists. split_and!; [apply lookup_insert_eq|exact Hp|by simpl; rewrite Hflags|]. simpl. rewrite list_elem_of_filter. naive_solver.
      * split; [|done]. simpl. apply StronglySorted_inv in Hs as [Hs Hlt]. split; [done|]. apply list.Forall_cons in Hall as [_ Hall].
        rewrite list.Forall_forall in *. intros t Ht. rewrite Hedge. split; [apply Hlt in Ht; lia|by apply Hall].
      * unfold history. rewrite (woken_of_snoc i s (s1 rest) i k Hwok), decide_True, <-(assoc_L (++)) by done. simpl. split_and!; [done..|].
        apply list.Forall_app. split; [|by repeat constructor]. eapply list.Forall_impl; [exact Hh3|]. simpl. lia.
    + rewrite list_lookup_insert_ne by done. intros Hc'.
      pose proof (waits_for_first _ _ _ _ _ _ Hsys Hc') as (period' & prio' & Hcfg' & Hper' & Hprio' & Hem' & Hfit' & [Hs' Hall'] & Hh1' & Hh2' & Hh3').
      exists period', prio', (head (SimConsumer.m_wakeup_ticks c')). rewrite bool_decide_false by congruence. split_and!; [done..| | |].
      * apply (fit_frame _ _ _ _ _ _ _ _ Hfr) in Hfit'; [done|]. by eapply other_event.
      * split; [|done]. simpl. eapply Consumer.pending_later; [by split|]. intros t Ht.
        destruct (first_tick _ _ _ _ _ _ _ _ t Hsys Hfirst He Hc' Ht) as (pt & _ & Hle%kle_when). simpl in Hle.
        rewrite list.Forall_forall in Hall'. destruct (Hall' t Ht) as [_ [n Hn]]. rewrite Hem' in Hn |- *. simpl in Hn. rewrite Hn in *.
        apply edge_least; lia.
      * unfold history. rewrite (woken_of_snoc j' s (s1 rest) i k Hwok), decide_False, app_nil_r by done. split_and!; [done..|].
        eapply list.Forall_impl; [exact Hh3'|]. simpl. lia.
  - destruct s_woken0 as [Hnd Hb]. split.
    + apply list.NoDup_app. split_and!; [done| |apply list.NoDup_singleton]. intros p Hp1 ->%list_elem_of_singleton.
      apply elem_woken_of in Hp1. apply StronglySorted_app in Hh1 as (Hx & _ & _). specialize (Hx k k Hp1). set_solver by lia.
    + intros j k'. rewrite elem_of_app, list_elem_of_singleton. intros [Hin%Hb|[= -> ->]]; [lia|].
      apply lookup_lt_Some in Hcfg. split; [done|lia].
  - destruct exit as [[x last]|]; [|done]. destruct s_exit0 as (Hx & ex & Hex & Hk & Hfl & Hxw).
    assert (x <> SimConsumer.m_wakeup_event c) as Hne.
    { intros ->. apply Hx, list_elem_of_fmap. exists c. split; [done|]. by eapply list_elem_of_lookup_2. }
    split; [by rewrite Hevs|]. exists ex. rewrite lookup_insert_ne by done. split_and!; [done..|]. simpl. by apply list_elem_of_filter.
  - intros y [_ Hy]%list_elem_of_filter. auto.
Qed.

End wake.

Lemma end_wakeup exit a evs s i c : system_ok (Some i) exit a evs s -> consumers s !! i = Some c ->
  exists a' evs', @run _ _ (Agenda.manager false cur) (SimConsumer.scheduleNextWakeup c) a evs = Ok (a', evs', tt) /\
    Agenda._curTick a' = Agenda._curTick a /\ system_ok None exit a' evs' s.
Proof.
  intros Hsys Hc. destruct (consumer_ok_waking _ _ _ _ _ _ (s_ok _ _ _ _ _ Hsys _ _ Hc)) as (period & prio & at_ & Hcfg & Hper & Hem & Hfit & Hwk & Hh).
  destruct (safe_inv _ _ (Consumer.scheduleNextWakeup_wf _ _ _ Hwk)) as (cc & Hcc & Hwf & Hticks).
  destruct (next_fit cur a evs _ prio c at_ cc Hfit) as (a' & evs' & Hrun & Hfit' & Hfr); [done| |done|].
  { rewrite Hem. apply new_consumer_wf; [done|apply Hsys]. }
  exists a', evs'. pose proof Hfr as []. split_and!; [done..|].
  eapply (system_update (Some i) None); [exact Hsys|done|done| |done|done|done| |].
  - by rewrite list_insert_id.
  - intros j' Hne. rewrite !bool_decide_false by congruence. done.
  - exists period, prio, (Consumer.m_wakeup_event cc). rewrite f_tick0. split_and!; [done..| |done].
    destruct cc as [tk ev]. simpl in *. by subst tk.
Qed.

(** ** The loop *)

Context (Hwakeup : forall i now w, Forall (due 1 now) (wakeup i now w).1).

Notation process := (fun event '(a, st, u) => @run _ _ (Agenda.manager false cur) (system_handler wakeup event u) a st).

Lemma handler_found s i c : NoDup (events s) -> consumers s !! i = Some c ->
  system_handler wakeup (SimConsumer.m_wakeup_event c) s = processCurrentEvent wakeup i s.
Proof.
  intros Hnd Hc. unfold system_handler.
  destruct (list_find _ (consumers s)) as [[j c']|] eqn:Hf.
  - apply list_find_Some in Hf as (Hc' & Heq & _). destruct (decide (j = i)) as [->|Hne]; [done|].
    exfalso. by eapply (other_event s i j).
  - apply list_find_None in Hf. rewrite list.Forall_forall in Hf. exfalso. eapply Hf; [|done]. by eapply list_elem_of_lookup_2.
Qed.

Lemma system_ok_world mid exit a evs s w : system_ok mid exit a evs s -> system_ok mid exit a evs (s <| world := w |>).
Proof. by intros []. Qed.

Section service.
Context (exit : option (Z * Z)) (a : Agenda.t) (evs : Events) (s : System W) (i : nat) (c : SimConsumer.t) (e : Event.t).
Context (Hsys : system_ok None exit a evs s) (Hc : consumers s !! i = Some c) (He : evs !! SimConsumer.m_wakeup_event c = Some e).
Context (Hfirst : first (key evs) (Agenda.waiting a) = Some (SimConsumer.m_wakeup_event c)).

Lemma processCurrentEvent_ok : exists a' evs' s',
  @run _ _ (Agenda.manager false cur) (processCurrentEvent wakeup i s)
    ((Agenda.drop (SimConsumer.m_wakeup_event c) a) <| Agenda._curTick := Event._when e |>)
    (<[SimConsumer.m_wakeup_event c := Event.clear Event.Scheduled e]> evs) = Ok (a', evs', s') /\
  Agenda._curTick a' = Event._when e /\ system_ok None exit a' evs' s' /\ woken s' = woken s ++ [(i, Event._when e)] /\
  events s' = events s.
Proof.
  destruct (first_event _ _ _ _ _ _ _ Hsys Hc He Hfirst) as (rest & Hticks & Hnow & Hedge & Hflags).
  pose proof (start_wakeup _ _ _ _ _ _ _ Hsys Hc He Hfirst rest Hticks) as Hsys1.
  unfold processCurrentEvent. rewrite Hc, run_hbind. unfold SimConsumer.currentTick. simpl.
  rewrite Hticks, Hedge, Z.eqb_refl. simpl. pose proof (Hwakeup i (Event._when e) (world s)) as Hdue.
  destruct (wakeup i (Event._when e) (world s)) as [requests w]. rewrite run_hbind. apply (system_ok_world _ _ _ _ _ w) in Hsys1.
  destruct (make_requests_ok _ _ 1 requests _ _ _ Hsys1) as (a2 & evs2 & s2 & -> & Ht2 & Hsys2 & Hw2 & Hev2); [done|lia|lia|]. simpl.
  assert (is_Some (consumers s2 !! i)) as [c2 Hc2].
  { apply lookup_lt_is_Some. rewrite (s_length _ _ _ _ _ Hsys2), <-(s_length _ _ _ _ _ Hsys). by eapply lookup_lt_Some. }
  rewrite Hc2, run_hbind. destruct (end_wakeup _ _ _ _ _ _ Hsys2 Hc2) as (a3 & evs3 & -> & Ht3 & Hsys3). simpl.
  exists a3, evs3, s2. split_and!; [done|by rewrite Ht3, Ht2|done|done|].
  rewrite Hev2. by eapply events_update.
Qed.

(** The events of consumers do not end the simulation and are not deleted. *)
Lemma consumer_event_stays exit' a' evs' s' : system_ok None exit' a' evs' s' -> events s' = events s ->
  exists e', evs' !! SimConsumer.m_wakeup_event c = Some e' /\ Event.isExitEvent e' = false /\ Event.isManaged e' = false.
Proof.
  intros Hsys' Hevs. assert (events s !! i = Some (SimConsumer.m_wakeup_event c)) as Hi by (by rewrite list_lookup_fmap, Hc).
  rewrite <-Hevs, list_lookup_fmap in Hi. apply fmap_Some in Hi as (c' & Hc' & ->).
  destruct (waits_for_first _ _ _ _ _ _ Hsys' Hc') as (_ & prio & _ & _ & _ & _ & (e' & He' & _ & Hat) & _).
  exists e'. split; [done|]. unfold Event.isExitEvent, Event.isManaged, Event.isSet.
  by destruct (head _); destruct Hat as [-> _].
Qed.

(** The event of a consumer comes first: it wakes up, and nothing fails. *)
Lemma service_consumer : exists a' evs' s', Agenda.serviceOne process a evs s = Ok (None, (a', evs', s')) /\
  system_ok None exit a' evs' s' /\ Agenda._curTick a' = Event._when e /\ woken s' = woken s ++ [(i, Event._when e)].
Proof.
  destruct (first_event _ _ _ _ _ _ _ Hsys Hc He Hfirst) as (rest & Hticks & Hnow & Hedge & Hflags).
  unfold Agenda.serviceOne, Agenda.next. rewrite Hfirst. simpl. rewrite (update_event_Ok _ _ _ _ He). simpl.
  rewrite (event_at_Ok _ _ (Event.clear Event.Scheduled e)) by apply lookup_insert_eq. simpl.
  unfold Event.squashed at 1, Event.isSet at 1. simpl. rewrite Hflags. simpl.
  rewrite (handler_found s i c) by (done || apply Hsys).
  destruct processCurrentEvent_ok as (a' & evs' & s' & -> & Ht & Hsys' & Hw & Hevs). simpl.
  destruct (consumer_event_stays _ _ _ _ Hsys' Hevs) as (e' & He' & Hexit & Hman). rewrite (event_at_Ok _ _ _ He'). simpl.
  rewrite Hexit. unfold release. rewrite (event_at_Ok _ _ _ He'). simpl. rewrite Hman. simpl. eauto 10.
Qed.

End service.

(** The exit event comes first: the loop ends with its tick, before every tick
    that is still waited for. *)
Lemma service_exit a evs s x last :
  system_ok None (Some (x, last)) a evs s -> first (key evs) (Agenda.waiting a) = Some x ->
  exists a' evs', Agenda.serviceOne process a evs s = Ok (Some x, (a', evs', s)) /\ Agenda._curTick a' = last /\
    forall j c t, consumers s !! j = Some c -> t ∈ SimConsumer.m_wakeup_ticks c -> last < t.
Proof.
  intros Hsys Hfirst. destruct (s_exit _ _ _ _ _ Hsys) as (Hx & e & He & Hk & Hfl & Hin).
  unfold Agenda.serviceOne, Agenda.next. rewrite Hfirst. simpl. rewrite (update_event_Ok _ _ _ _ He). simpl.
  rewrite (event_at_Ok _ _ (Event.clear Event.Scheduled e)) by apply lookup_insert_eq. simpl.
  unfold Event.squashed at 1, Event.isSet at 1. simpl. rewrite Hfl. simpl.
  replace (system_handler wakeup x s) with (Return s).
  2: { unfold system_handler. destruct (list_find _ _) as [[j c]|] eqn:Hf; [|done]. apply list_find_Some in Hf as (Hc & Heq & _).
       exfalso. apply Hx, list_elem_of_fmap. exists c. split; [done|]. by eapply list_elem_of_lookup_2. }
  simpl. rewrite (event_at_Ok _ _ (Event.clear Event.Scheduled e)) by apply lookup_insert_eq. simpl.
  unfold Event.isExitEvent, Event.isSet. simpl. rewrite Hfl. simpl. eexists _, _. split_and!; [done|by injection Hk|].
  intros j c t Hc Ht. destruct (first_tick _ _ _ _ _ _ _ _ t Hsys Hfirst He Hc Ht) as (prio & Hprio & Hle).
  rewrite Hk in Hle. apply Is_true_true in Hle. unfold kle in Hle. cbn [fst snd] in Hle. lia.
Qed.

Lemma woken_bound mid exit a evs s last : system_ok mid exit a evs s -> Agenda._curTick a <= last ->
  (length (woken s) <= length config * Z.to_nat (last + 1))%nat.
Proof.
  intros Hsys Hlast. destruct (s_woken _ _ _ _ _ Hsys) as [Hnd Hb].
  replace (length config * Z.to_nat (last + 1))%nat with (length (list_prod (seq 0 (length config)) (seqZ 0 (last + 1))))
    by (rewrite length_prod, length_seq, length_seqZ; lia).
  apply submseteq_length, NoDup_submseteq; [done|]. intros [j k] Hin%Hb. apply list_elem_of_In, in_prod_iff.
  rewrite <-!list_elem_of_In. rewrite elem_of_seq, elem_of_seqZ. lia.
Qed.

(** What holds of the ticks of a system at the end of a run. *)
Definition woken_as_asked (last : Z) (s : System W) : Prop := forall j, (j < length config)%nat ->
  StronglySorted Z.lt (woken_of j s) /\ forall k, k ∈ woken_of j s <-> (j, k) ∈ asked s /\ k <= last.

Lemma loop_ok fuel a evs s x last :
  system_ok None (Some (x, last)) a evs s -> Agenda._curTick a <= last ->
  (length config * Z.to_nat (last + 1) < fuel + length (woken s))%nat ->
  exists a' evs' s', Agenda.simLoop process fuel a evs s = Ok (x, (a', evs', s')) /\ Agenda._curTick a' = last /\ woken_as_asked last s'.
Proof.
  revert a evs s. induction fuel as [|fuel IH]; intros a evs s Hsys Hlast Hfuel.
  { pose proof (woken_bound _ _ _ _ _ _ Hsys Hlast). lia. }
  simpl. destruct (s_exit _ _ _ _ _ Hsys) as (Hx & ex & Hex & Hkx & _ & Hin).
  unfold Agenda.empty at 1. rewrite bool_decide_false by (intros Hn; rewrite Hn in Hin; set_solver). simpl.
  destruct (first (key evs) (Agenda.waiting a)) as [y|] eqn:Hfirst.
  2: { rewrite first_arrange in Hfirst. pose proof (arrange_perm (key evs) (Agenda.waiting a)) as Hp.
       destruct (arrange _ _); [|done]. apply Permutation_nil_l in Hp. rewrite <-Hp in Hin. set_solver. }
  pose proof (first_least _ _ _ Hfirst) as [Hy Hleast].
  destruct (s_waiting _ _ _ _ _ Hsys y Hy) as [Hyc|[= <-]].
  - apply list_elem_of_fmap in Hyc as (c & -> & [i Hc]%list_elem_of_lookup).
    destruct (waits_for_first _ _ _ _ _ _ Hsys Hc) as (_ & prio & _ & _ & _ & _ & (e & He & _) & _).
    destruct (service_consumer _ _ _ _ _ _ _ Hsys Hc He Hfirst) as (a' & evs' & s' & -> & Hsys' & Ht & Hw). simpl.
    apply IH; [done| |rewrite Hw, length_app; simpl; lia].
    specialize (Hleast x Hin). rewrite (key_at _ _ _ He), (key_at _ _ _ Hex), Hkx in Hleast. apply kle_when in Hleast. by rewrite Ht.
  - destruct (service_exit _ _ _ _ _ Hsys Hfirst) as (a' & evs' & -> & Ht & Hlate). simpl.
    exists a', evs', s. split_and!; [done..|]. intros j Hj.
    assert (is_Some (consumers s !! j)) as [c Hc] by (apply lookup_lt_is_Some; by rewrite (s_length _ _ _ _ _ Hsys)).
    destruct (waits_for_first _ _ _ _ _ _ Hsys Hc) as (_ & _ & _ & _ & _ & _ & _ & _ & Hs & Hask & Hnow).
    split; [by eapply StronglySorted_app_1_l|]. intros k. rewrite Hask, elem_of_app. rewrite list.Forall_forall in Hnow.
    split; [intros Hk; split; [by left|]; apply Hnow in Hk; lia|]. intros [[?|Hk] Hle]; [done|]. apply (Hlate _ _ _ Hc) in Hk. lia.
Qed.

(** ** The set-up *)

Lemma add_exit a evs s last x : system_ok None None a evs s -> evs !! x = None -> Agenda._curTick a <= last ->
  exists a' evs', Agenda.schedule false cur x last false a (<[x := Event.mk None None 0 Sim_Exit_Pri (Z.lor Event.Initialized Event.IsExitEvent) None]> evs)
    = Ok (a', evs') /\ Agenda._curTick a' = Agenda._curTick a /\ system_ok None (Some (x, last)) a' evs' s.
Proof.
  intros Hsys Hx Hlast. unfold Agenda.schedule. rewrite (proj2 (Z.leb_le _ _) Hlast). simpl.
  erewrite event_at_Ok by apply lookup_insert_eq. simpl. erewrite update_event_Ok by apply lookup_insert_eq. simpl.
  rewrite insert_insert_eq. eexists _, _. split_and!; [done..|]. pose proof Hsys as [].
  assert (x ∉ events s) as Hnew.
  { intros (c & -> & [j Hc]%list_elem_of_lookup)%list_elem_of_fmap.
    destruct (waits_for_first _ _ _ _ _ _ Hsys Hc) as (_ & ? & _ & _ & _ & _ & (e & He & _) & _). congruence. }
  assert (forall y, y <> x -> <[x := Event.set Event.Scheduled (Event.setWhen last (Agenda.this a)
    (Event.mk None None 0 Sim_Exit_Pri (Z.lor Event.Initialized Event.IsExitEvent) None))]> evs !! y = evs !! y) as Hother
    by (intros y Hy; by rewrite lookup_insert_ne).
  assert (x ∉ Agenda.waiting a) as Hnw by (intros [?|?]%s_waiting0; done).
  split; try done; simpl.
  - by constructor.
  - intros j c Hc. destruct (s_ok0 _ _ Hc) as (period & prio & at_ & Hcfg & Hem & Hf & Hw & Hh).
    exists period, prio, at_. split_and!; try done. eapply (fit_frame x a evs); [|intros Heq; apply Hnew, list_elem_of_fmap; exists c; split; [done|by eapply list_elem_of_lookup_2]|done].
    split; try done; simpl; [set_solver|by constructor].
  - split; [done|]. eexists. split_and!; [apply lookup_insert_eq|done|done|]. simpl. set_solver.
  - intros y [->|Hy]%elem_of_cons; [by right|]. destruct (s_waiting0 _ Hy); [by left|done].
Qed.

End system.

Section create.
Context {W : Type}.
Implicit Types s : System W.

Lemma add_consumer config a evs s x period prio :
  (forall j period prio, config !! j = Some (period, prio) -> 0 < period /\ prio < Sim_Exit_Pri) ->
  system_ok config None None a evs s -> asked s = [] -> woken s = [] -> evs !! x = None ->
  system_ok (config ++ [(period, prio)]) None None a (<[x := Event.mk None None 0 prio (Z.lor Event.Initialized 0) None]> evs)
    (s <| consumers ::= (fun l => l ++ [SimConsumer.mk x (Clocked.new period) []]) |>).
Proof.
  intros Hcfg Hsys Hask Hwok Hx. pose proof Hsys as [].
  assert (x ∉ SimConsumer.m_wakeup_event <$> consumers s) as Hnew.
  { intros (c & -> & [j Hc]%list_elem_of_lookup)%list_elem_of_fmap.
    destruct (waits_for_first _ Hcfg _ _ _ _ _ _ Hsys Hc) as (_ & ? & _ & _ & _ & _ & (e & He & _) & _). congruence. }
  assert (x ∉ Agenda.waiting a) as Hnw by (intros [?|?]%s_waiting0; done).
  split; try done; simpl.
  - rewrite !length_app. simpl. lia.
  - rewrite fmap_app. simpl. apply list.NoDup_app. split_and!; [done| |apply list.NoDup_singleton]. set_solver.
  - intros j c [Hc|[Hlen Hc]]%lookup_app_Some.
    + destruct (s_ok0 _ _ Hc) as (period' & prio' & at_ & Hcfg' & Hem & Hf & Hw & Hh).
      exists period', prio', at_. split_and!; try done; [by apply lookup_app_l_Some|].
      eapply (fit_frame x a evs); [|intros Heq; apply Hnew, list_elem_of_fmap; exists c; split; [done|by eapply list_elem_of_lookup_2]|done].
      split; try done. intros y Hy. by rewrite lookup_insert_ne.
    + apply list_lookup_singleton_Some in Hc as [Hj <-]. assert (j = length config) as -> by lia.
      exists period, prio, None. simpl. rewrite lookup_app_r, Nat.sub_diag by done. split_and!; [done..| | |].
      * eexists. split_and!; [apply lookup_insert_eq|done..].
      * split; [|done]. split; constructor.
      * unfold history, woken_of. simpl. rewrite Hwok, Hask. split_and!; [constructor|set_solver|constructor].
  - rewrite Hwok. split; [constructor|set_solver].
  - intros y Hy. rewrite fmap_app. destruct (s_waiting0 _ Hy); [left; set_solver|done].
Qed.

Lemma make_consumers_ok cur config' config a evs s :
  (forall j period prio, (config ++ config') !! j = Some (period, prio) -> 0 < period /\ prio < Sim_Exit_Pri) ->
  system_ok config None None a evs s -> asked s = [] -> woken s = [] ->
  exists evs' s', @run _ _ (Agenda.manager false cur) (make_consumers config' s) a evs = Ok (a, evs', s') /\
    system_ok (config ++ config') None None a evs' s' /\ woken s' = [].
Proof.
  revert config evs s. induction config' as [|[period prio] config' IH]; intros config evs s Hcfg Hsys Hask Hwok; simpl.
  { rewrite app_nil_r. eauto. }
  rewrite (cons_middle _ config), (assoc_L (++)) in Hcfg |- *. rewrite run_hbind. simpl.
  apply IH; [done| |done|done]. apply add_consumer; [|done..|].
  - intros j p' pr Hj. eapply Hcfg. rewrite <-(assoc_L (++)). by apply lookup_app_l_Some.
  - apply not_elem_of_dom, is_fresh.
Qed.

End create.

(** ** Theorem *)

(** C11: a system of consumers on the event queue wakes up as it is asked.  For
    any consumers with clocks of their own and events of a priority before that
    of the exit event, any requests at the start and any [wakeup] functions that
    ask each other for wake-ups at least a cycle or a tick ahead, the loop of the
    simulator ends with the exit event at its tick within one round for every
    consumer and tick; no assertion of the queue or of the consumers fails on
    the way, and every consumer has woken up, in order of time and once each, at
    exactly the clock edges up to then for which it was asked.  The requests
    have to be ahead: one for the current tick, after the consumer has woken in
    it, wakes it again (Example asked_again_now). *)
Theorem consumers_wake_as_asked {W} (wakeup : nat -> Z -> W -> list Request * W) (config : list (Z * Z)) (startup : list Request)
    (last this : Z) (w : W) (fuel : nat)
    (Hconfig : forall j period prio, config !! j = Some (period, prio) -> 0 < period /\ prio < Sim_Exit_Pri)
    (Hwakeup : forall i now w, Forall (due config 1 now) (wakeup i now w).1)
    (Hstartup : Forall (due config 0 0) startup) (Hlast : 0 <= last)
    (Hfuel : (length config * Z.to_nat (last + 1) < fuel)%nat) :
  exists x q st s, simulate false this (system_setup config w startup last) (system_handler wakeup) fuel = Ok (x, (q, st, s)) /\
    EventQueue._curTick q = last /\ woken_as_asked config last s.
Proof.
  pose proof (simulate_refines false this (system_setup config w startup last) (system_handler wakeup) fuel) as Href.
  enough (exists x a evs s, Agenda.simulate false this (system_setup config w startup last) (system_handler wakeup) fuel = Ok (x, (a, evs, s)) /\
    Agenda._curTick a = last /\ woken_as_asked config last s) as (x & a & evs & s & Hsim & Ht & Hs).
  { rewrite Hsim in Href. destruct (simulate _ _ _ _ _) as [[y [[q st] s']]|]; [|done]. destruct Href as [_ [Hr Hs']].
    simpl in Hr, Hs'. subst s'. exists y, q, st, s. rewrite <-(r_tick _ _ _ _ _ Hr). done. }
  clear Href. unfold Agenda.simulate, system_setup. rewrite run_hbind.
  destruct (make_consumers_ok this config [] (Agenda.new this) ∅ (mkSystem [] w [] []) Hconfig) as (evs1 & s1 & -> & Hsys1 & Hw1); [|done..|].
  { split; try done; simpl; [apply NoDup_nil_2|apply NoDup_nil_2|split; [apply NoDup_nil_2|set_solver]|set_solver]. }
  simpl in Hsys1 |- *. rewrite run_hbind.
  destruct (make_requests_ok wakeup config this Hconfig None None 0 startup (Agenda.new this) evs1 s1 Hsys1) as (a2 & evs2 & s2 & -> & Ht2 & Hsys2 & Hw2 & _); [done|lia|by right|].
  simpl. destruct (add_exit wakeup config this Hconfig Hwakeup a2 evs2 s2 last (fresh (dom evs2))) as (a3 & evs3 & Hadd & Ht3 & Hsys3);
    [done|apply not_elem_of_dom, is_fresh|by rewrite Ht2|]. rewrite Hadd. simpl.
  replace (Agenda.handleAsyncInsertions a3) with a3.
  2: { pose proof (s_async _ _ _ _ _ _ Hsys3) as Ha. unfold Agenda.handleAsyncInsertions. rewrite Ha. destruct a3. simpl in *. by rewrite Ha. }
  destruct (loop_ok wakeup config this Hconfig Hwakeup fuel a3 evs3 s2 _ last Hsys3) as (a4 & evs4 & s4 & Hloop & Ht4 & Hs4); [by rewrite Ht3, Ht2|lia|].
  eexists _, a4, evs4, s4. split_and!; [exact Hloop|done..].
Qed.

(** Two objects on clocks of 500 and 300 ticks: the first asks the second, which
    answers, and asks itself again every third cycle. *)
Definition demo_wakeup (i : nat) (now : Z) (w : nat) : list Request * nat :=
  match i with
  | O => ([At 1 (now + 1); After 0 3], S w)
  | _ => ([After 0 1], w)
  end.

Lemma consumers_wake_as_asked_witness :
  exists x q st s, simulate false 7 (system_setup [(500, 0); (300, 0)] 0%nat [After 0 0] 1800) (system_handler demo_wakeup) 4000 = Ok (x, (q, st, s)) /\
    EventQueue._curTick q = 1800 /\ woken_as_asked [(500, 0); (300, 0)] 1800 s.
Proof.
  apply (consumers_wake_as_asked demo_wakeup [(500, 0); (300, 0)] [After 0 0] 1800 7 0%nat 4000).
  - intros j period prio Hj. destruct j as [|[|j]]; simpl in Hj; [injection Hj as <- <-..|done]; unfold Sim_Exit_Pri; lia.
  - intros i now w. destruct i; repeat constructor; simpl; lia.
  - repeat constructor; simpl; lia.
  - lia.
  - cbn [length]. lia.
Defined.

Example demo_system :
  match simulate false 7 (system_setup [(500, 0); (300, 0)] 0%nat [After 0 0] 1800) (system_handler demo_wakeup) 30 with
  | Ok (_, (_, _, s)) => woken s = [(0%nat, 0); (1%nat, 300); (0%nat, 1000); (1%nat, 1200); (0%nat, 1500); (1%nat, 1800)]
  | Err _ => False
  end.
Proof. vm_compute. reflexivity. Qed.

(** The second object asks the first one, once, for the tick in which both have
    woken up. *)
Example asked_again_now :
  match simulate false 7 (system_setup [(1, 0); (1, 1)] true [After 0 1; After 1 1] 5)
          (system_handler (fun i now w => if decide (i = 1%nat /\ w = true) then ([At 0 now], false) else ([], w))) 30 with
  | Ok (_, (_, _, s)) => woken s = [(0%nat, 1); (1%nat, 1); (0%nat, 1)]
  | Err _ => False
  end.
Proof. vm_compute. reflexivity. Qed.
