(* ===== verification/TopologyScripts.v ===== *)
(** * TopologyScripts: the scripts that configure networks

    configs/topologies: Mesh_XY.py, Mesh_westfirst.py, Pt2Pt.py, Crossbar.py and
    CrossbarGarnet.py.  A script gets the controllers of the system and makes
    routers and links for them; routers are known by their number.  The objects
    have the default parameters of BasicLink.py.  The scripts fail where Python
    raises an exception. *)

From S2P Require Import Prelude NetDest CommonTypes RoutingUnit Mesh Topology.

(** [type] and the machine that the controller stands for. *)
Record Node := mkNode { node_type : string; node_machine : MachineID }.

Record Options := mkOptions { num_cpus : Z; mesh_rows : Z; opt_link_latency : Z }.

(** [network.routers], [ext_links] and [int_links]; the routers are numbered. *)
Record Net := mkNet {
  net_routers : Z;
  net_ext_links : list BasicExtLink;
  net_int_links : list BasicIntLink;
}.

Definition basic_link (link_id latency weight : Z) : BasicLink := mkBasicLink latency 16 weight [] link_id.

Definition ExtLink (link_id latency : Z) (ext_node : Node) (int_node : Z) : BasicExtLink :=
  mkExtLink (basic_link link_id latency 1) (node_machine ext_node) int_node.

Definition IntLink (link_id latency src_node dst_node : Z) (src_outport dst_inport : PortDirection) (weight : Z) : BasicIntLink :=
  Topology.mkIntLink (basic_link link_id latency weight) src_node dst_node src_outport dst_inport.

(** [routers[i]] *)
Definition router_at (num_routers i : Z) : res Z := if (0 <=? i) && (i <? num_routers) then Ok i else Err OutOfRange.

Definition enumerate {A} (l : list A) : list (Z * A) := zip (range (zlength l)) l.

(** ** Meshes *)

(** The loops over rows and columns in [Mesh_westfirst]; the ports have no
    names. *)
Definition westfirst_links (num_rows num_columns : Z) : list Mesh.IntLink :=
  (row ← range num_rows; col ← range num_columns;
   if col + 1 <? num_columns
   then [Mesh.mkIntLink (col + row * num_columns) ((col + 1) + row * num_columns) "" "" 2]
   else []) ++
  (row ← range num_rows; col ← range num_columns;
   if col + 1 <? num_columns
   then [Mesh.mkIntLink ((col + 1) + row * num_columns) (col + row * num_columns) "" "" 1]
   else []) ++
  (col ← range num_columns; row ← range num_rows;
   if row + 1 <? num_rows
   then [Mesh.mkIntLink (col + row * num_columns) (col + (row + 1) * num_columns) "" "" 2]
   else []) ++
  (col ← range num_columns; row ← range num_rows;
   if row + 1 <? num_rows
   then [Mesh.mkIntLink (col + (row + 1) * num_columns) (col + row * num_columns) "" "" 2]
   else []).

Section mesh.
Context (options : Options).

(** Each node to the appropriate router. *)
Definition connect_node (cntrls_per_router : Z) (x : Z * Node) (s : list BasicExtLink * Z) : res (list BasicExtLink * Z) :=
  let '(i, n) := x in
  let '(ext_links, link_count) := s in
  let cntrl_level := i / num_cpus options in
  let router_id := i mod num_cpus options in
  _ ← assert (cntrl_level <? cntrls_per_router);
  r ← router_at (num_cpus options) router_id;
  Ok (ext_links ++ [ExtLink link_count (opt_link_latency options) n r], link_count + 1).

(** The remaining nodes to router 0. *)
Definition connect_remainder (remainder : Z) (x : Z * Node) (s : list BasicExtLink * Z) : res (list BasicExtLink * Z) :=
  let '(i, n) := x in
  let '(ext_links, link_count) := s in
  _ ← assert (bool_decide (node_type n = "DMA_Controller"));
  _ ← assert (i <? remainder);
  r ← router_at (num_cpus options) 0;
  Ok (ext_links ++ [ExtLink link_count (opt_link_latency options) n r], link_count + 1).

Definition make_int_link (l : Mesh.IntLink) (s : list BasicIntLink * Z) : res (list BasicIntLink * Z) :=
  let '(int_links, link_count) := s in
  src ← router_at (num_cpus options) (src_node l);
  dst ← router_at (num_cpus options) (dst_node l);
  Ok (int_links ++ [IntLink link_count (opt_link_latency options) src dst (src_outport l) (dst_inport l) (Mesh.weight l)], link_count + 1).

(** [makeTopology] of the two meshes, which differ in their internal links.
    The number of columns is a truncated quotient of floats, the integer
    quotient for fewer than 2^53 routers. *)
Definition make_mesh (links : Z -> Z -> list Mesh.IntLink) (nodes : list Node) : res Net :=
  let num_routers := num_cpus options in
  let num_rows := mesh_rows options in
  _ ← assert (negb (num_routers =? 0));
  let cntrls_per_router := zlength nodes / num_routers in
  let remainder := zlength nodes mod num_routers in
  _ ← assert ((0 <? num_rows) && (num_rows <=? num_routers));
  let num_columns := num_routers / num_rows in
  _ ← assert (num_columns * num_rows =? num_routers);
  let network_nodes := snd <$> filter (fun x => x.1 < zlength nodes - remainder) (enumerate nodes) in
  let remainder_nodes := snd <$> filter (fun x => ~ (x.1 < zlength nodes - remainder)) (enumerate nodes) in
  '(ext_links, link_count) ← for_each (enumerate network_nodes) (connect_node cntrls_per_router) ([], 0);
  '(ext_links, link_count) ← for_each (enumerate remainder_nodes) (connect_remainder remainder) (ext_links, link_count);
  '(int_links, link_count) ← for_each (links num_rows num_columns) make_int_link ([], link_count);
  Ok (mkNet num_routers ext_links int_links).

Definition Mesh_XY : list Node -> res Net := make_mesh mesh_links.
Definition Mesh_westfirst : list Node -> res Net := make_mesh westfirst_links.

(** ** Point to point and crossbars *)

Definition Pt2Pt (nodes : list Node) : Net :=
  let n := zlength nodes in
  let pairs := (i ← range n; j ← range n; if negb (i =? j) then [(i, j)] else []) in
  mkNet n ((fun '(i, node) => ExtLink i (opt_link_latency options) node i) <$> enumerate nodes)
    ((fun '(k, (i, j)) => IntLink (n + 1 + k) (opt_link_latency options) i j "" "" 1) <$> enumerate pairs).

Definition Crossbar (nodes : list Node) : Net :=
  let n := zlength nodes in
  mkNet (n + 1) ((fun '(i, node) => ExtLink i (opt_link_latency options) node i) <$> enumerate nodes)
    (((fun i => IntLink (n + i) (opt_link_latency options) i n "" "" 1) <$> range n) ++
     ((fun i => IntLink (2 * n + i) (opt_link_latency options) n i "" "" 1) <$> range n)).

(** One router; the links keep the default latency. *)
Definition CrossbarGarnet (nodes : list Node) : Net :=
  mkNet 1 ((fun '(i, node) => ExtLink i 1 node 0) <$> enumerate nodes) [].

End mesh.
