(* ===== verification/ScriptProofs.v ===== *)
(** * ScriptProofs: configured networks are consistent

    The networks that the topology scripts make are consistent configurations,
    so that the theorems on [Topology] and on the networks apply to them, and
    their links connect all machines. *)

From S2P Require Import Prelude NetDest CommonTypes RoutingUnit Mesh Topology TopologyProofs TopologyLinks TopologyTheorems TopologyScripts.

Section nets.
Context `{Hmt : MachineTypes} `{!MachineTypesOk}.

Notation is_machine x := (machine (mach_type x) (mach_num x)).
Notation switch_in x := (in_switch (mach_type x) (mach_num x)).
Notation switch_out x := (out_switch (mach_type x) (mach_num x)).

(** The controllers are different machines. *)
Record nodes_ok (nodes : list Node) : Prop := {
  nd_once : NoDup (node_machine <$> nodes);
  nd_machines : Forall (fun x => is_machine x) (node_machine <$> nodes);
  nd_some : nodes <> [];
}.

(** What the scripts make of them. *)
Record net_ok (nodes : list Node) (net : Net) : Prop := {
  nt_ext : xl_ext_node <$> net_ext_links net = node_machine <$> nodes;
  nt_ext_ok : Forall (fun l => 0 <= xl_int_node l < net_routers net /\ bl_weight (xl_link l) = 1 /\ bl_vnets (xl_link l) = []) (net_ext_links net);
  nt_int_ok : Forall (fun l => 0 <= il_src_node l < net_routers net /\ 0 <= il_dst_node l < net_routers net /\
    il_src_node l <> il_dst_node l /\ 0 < bl_weight (il_link l) < INFINITE_LATENCY /\ bl_vnets (il_link l) = []) (net_int_links net);
  nt_int_once : NoDup ((fun l => (il_src_node l, il_dst_node l)) <$> net_int_links net);
}.

Lemma in_switch_inj x y : is_machine x -> is_machine y -> switch_in x = switch_in y -> x = y.
Proof.
  assert (forall m i m' i', machine m i -> machine m' i' -> m < m' -> in_switch m i < in_switch m' i') as Hlt.
  { intros m i m' i' [Hm Hi] [Hm' Hi'] Hlt. unfold in_switch. assert (0 <= MachineType_base_number (m + 1) <= MachineType_base_number m') as Hb by (apply base_number_mono; lia).
    rewrite machine_number_succ in Hb by lia. lia. }
  destruct x as [m i], y as [m' i']. simpl. intros Hx Hy Heq.
  destruct (Z.lt_trichotomy m m') as [Hmm|[->|Hmm]]; [pose proof (Hlt _ _ _ _ Hx Hy Hmm); lia| |pose proof (Hlt _ _ _ _ Hy Hx Hmm); lia].
  unfold in_switch in Heq. f_equal. lia.
Qed.

Lemma switch_out_in x : switch_out x = switch_in x + machines.
Proof. unfold out_switch, in_switch. lia. Qed.

(** ** No two links between the same switches *)

Definition ext_keys (l : BasicExtLink) : list (Z * Z) :=
  [(switch_in (xl_ext_node l), router_switch (xl_int_node l)); (router_switch (xl_int_node l), switch_out (xl_ext_node l))].

Lemma all_keys ext int : (all_links ext int).*1 = (ext ≫= ext_keys) ++ ((fun l => (router_switch (il_src_node l), router_switch (il_dst_node l))) <$> int).
Proof.
  unfold all_links. rewrite fmap_app, <-list_fmap_compose. f_equal. induction ext as [|l ext IH]; [done|].
  cbn [mbind list_bind]. rewrite fmap_app. f_equal; [|exact IH]. unfold ext_pairs, ext_keys. simpl. by rewrite switch_out_in.
Qed.

Lemma ext_keys_once ext nr : NoDup (xl_ext_node <$> ext) -> Forall (fun x => is_machine x) (xl_ext_node <$> ext) ->
  Forall (fun l => 0 <= xl_int_node l < nr) ext -> NoDup (ext ≫= ext_keys).
Proof.
  induction ext as [|l ext IH]; intros Hnd Hm Hr; [apply NoDup_nil_2|]. cbn [fmap list_fmap] in Hnd, Hm.
  apply list.NoDup_cons in Hnd as [Hnew Hnd]. apply list.Forall_cons in Hm as [Hl Hm], Hr as [Hlr Hr].
  cbn [mbind list_bind]. apply list.NoDup_app. pose proof (machine_switch _ _ Hl) as Hsw. unfold router_switch.
  split_and!; [|intros k Hk Hin|by apply IH].
  - unfold ext_keys, router_switch. apply list.NoDup_cons. split; [|apply list.NoDup_singleton].
    intros [= Heq _]%list_elem_of_singleton. lia.
  - apply list_elem_of_bind in Hin as (l' & Hk' & Hl').
    assert (xl_ext_node l' ∈ xl_ext_node <$> ext) as Hin' by (apply list_elem_of_fmap; eauto).
    rewrite list.Forall_forall in Hm. rewrite list.Forall_forall in Hr. pose proof (Hm _ Hin') as Hm'. pose proof (Hr _ Hl') as Hr'. simpl in Hr'.
    pose proof (machine_switch _ _ Hm') as Hsw'.
    assert (switch_in (xl_ext_node l) <> switch_in (xl_ext_node l')) as Hne.
    { intros Heq. apply in_switch_inj in Heq; [|done..]. by rewrite Heq in Hnew. }
    unfold ext_keys, router_switch in Hk, Hk'. rewrite !switch_out_in in Hk, Hk'.
    rewrite !elem_of_cons, elem_of_nil in Hk, Hk'.
    destruct Hk as [->|[->|[]]], Hk' as [[= ? ?]|[[= ? ?]|[]]]; lia.
Qed.

Lemma keys_once nodes net : nodes_ok nodes -> net_ok nodes net -> NoDup (all_links (net_ext_links net) (net_int_links net)).*1.
Proof.
  intros [Hnd Hm _] [Hext Hextok Hintok Hint]. rewrite all_keys. rewrite <-Hext in Hnd, Hm. apply list.NoDup_app. split_and!.
  - apply (ext_keys_once _ (net_routers net)); [done..|]. eapply list.Forall_impl; [exact Hextok|]. naive_solver.
  - intros k (l & Hk & Hl)%list_elem_of_bind (l' & -> & Hl')%list_elem_of_fmap.
    assert (xl_ext_node l ∈ xl_ext_node <$> net_ext_links net) as Hin by (apply list_elem_of_fmap; eauto).
    rewrite list.Forall_forall in Hm. rewrite list.Forall_forall in Hintok. pose proof (machine_switch _ _ (Hm _ Hin)) as Hsw. destruct (Hintok _ Hl') as (H1 & H2 & _).
    unfold ext_keys, router_switch in Hk. rewrite switch_out_in in Hk. rewrite !elem_of_cons, elem_of_nil in Hk.
    destruct Hk as [[= ? ?]|[[= ? ?]|[]]]; lia.
  - assert (Inj (=) (=) (fun '(a, b) => (router_switch a, router_switch b))) as Hinj.
    { intros [a b] [a' b'] [= ? ?]. unfold router_switch in *. f_equal; lia. }
    apply (NoDup_fmap_2 (fun '(a, b) => (router_switch a, router_switch b))) in Hint. by rewrite <-list_fmap_compose in Hint.
Qed.

Lemma between_once k ls : NoDup ls.*1 -> between k ls = [] \/ exists e, between k ls = [e] /\ (k, e) ∈ ls.
Proof.
  unfold between. induction ls as [|[k' e] ls IH]; simpl; [by left|]. intros [Hnew Hnd]%list.NoDup_cons.
  rewrite filter_cons. simpl. case_decide as Hk; [subst k'|].
  - right. exists e. split; [|set_solver]. simpl. f_equal.
    destruct (filter _ ls) as [|[k2 e2] l] eqn:E; [done|]. exfalso.
    assert ((k2, e2) ∈ filter (fun p : Z * Z * LinkEntry => p.1 = k) ls) as [Hk2 Hin]%list_elem_of_filter by (rewrite E; set_solver).
    simpl in Hk2. subst k2. apply Hnew, list_elem_of_fmap. by exists (k, e2).
  - destruct (IH Hnd) as [?|(e' & ? & ?)]; [by left|]. right. exists e'. split; [done|set_solver].
Qed.

(** ** The configuration is consistent *)

Lemma link_facts nodes net p : net_ok nodes net -> p ∈ all_links (net_ext_links net) (net_int_links net) ->
  0 < bl_weight (le_link p.2) < INFINITE_LATENCY /\ bl_vnets (le_link p.2) = [].
Proof.
  intros [_ Hext Hint _] [(l & Hp & Hl)%list_elem_of_bind|(l & -> & Hl)%list_elem_of_fmap]%elem_of_app.
  - rewrite list.Forall_forall in Hext. destruct (Hext _ Hl) as (_ & Hw & Hv). unfold ext_pairs in Hp.
    rewrite !elem_of_cons, elem_of_nil in Hp. destruct Hp as [->|[->|[]]]; simpl; rewrite Hw; unfold INFINITE_LATENCY; (split; [lia|done]).
  - rewrite list.Forall_forall in Hint. by destruct (Hint _ Hl) as (_ & _ & _ & ? & ?).
Qed.

Lemma net_config nodes net nv : 1 < machines -> (0 < nv)%nat -> nodes_ok nodes -> net_ok nodes net ->
  config_ok (net_routers net) nv (net_ext_links net) (net_int_links net).
Proof.
  intros Hmach Hnv Hnodes Hnet. pose proof Hnodes as [_ Hm Hne]. pose proof Hnet as [Hext Hextok Hintok _]. split; [done|done|..].
  - rewrite <-Hext in Hm. apply list.Forall_forall. intros l Hl. rewrite list.Forall_forall in Hm. rewrite list.Forall_forall in Hextok. split.
    + apply Hm, list_elem_of_fmap. eauto.
    + by apply Hextok.
  - eapply list.Forall_impl; [exact Hintok|]. naive_solver.
  - apply list.Forall_forall. intros p Hp. by destruct (link_facts _ _ _ Hnet Hp).
  - intros k. destruct (between_once k _ (keys_once _ _ Hnodes Hnet)) as [->|(e & -> & Hin)]; [split; [apply NoDup_nil_2|constructor]|].
    destruct (link_facts _ _ _ Hnet Hin) as [_ Hv]. simpl in Hv. unfold group_ok, carried. simpl. rewrite app_nil_r. unfold vnets_of. rewrite Hv.
    rewrite <-list_fmap_compose. split.
    + apply NoDup_fmap_2; [intros ? ?; done|apply NoDup_seqZ].
    + apply list.Forall_forall. intros [v l] (v' & [= -> ->] & Hin')%list_elem_of_fmap. apply elem_of_seqZ in Hin'. unfold in_range. lia.
  - destruct (net_ext_links net) as [|l ls]; [|done]. simpl in Hext. by destruct nodes.
Qed.

(** ** Routes *)

Lemma route_app nv ls v a b c w1 w2 : route nv ls v a b w1 -> route nv ls v b c w2 -> route nv ls v a c (w1 + w2).
Proof. induction 1 as [|src next dst e w He Hv _ IH]; intros H2; [done|]. rewrite <-Z.add_assoc. by apply route_cons with next; [..|apply IH]. Qed.

Lemma route_link nodes net nv v p : net_ok nodes net -> p ∈ all_links (net_ext_links net) (net_int_links net) -> in_range (Z.of_nat nv) v ->
  v ∈ vnets_of nv (le_link p.2) /\
  route nv (all_links (net_ext_links net) (net_int_links net)) v p.1.1 p.1.2 (bl_weight (le_link p.2)).
Proof.
  intros Hnet Hp Hv. destruct (link_facts _ _ _ Hnet Hp) as [_ Hvn].
  assert (v ∈ vnets_of nv (le_link p.2)) as Hve by (unfold vnets_of; rewrite Hvn; apply elem_of_seqZ; unfold in_range in Hv; lia).
  split; [done|]. rewrite <-(Z.add_0_r (bl_weight _)). destruct p as [[a b] e]. apply route_cons with b; [done|done|apply route_nil].
Qed.

(** All routers reach each other at a cost of at most [B]. *)
Definition joined (net : Net) (B : Z) : Prop := forall nv v r r', in_range (Z.of_nat nv) v -> 0 <= r < net_routers net -> 0 <= r' < net_routers net ->
  exists c, 0 <= c <= B /\ route nv (all_links (net_ext_links net) (net_int_links net)) v (router_switch r) (router_switch r') c.

Lemma node_link nodes net x : net_ok nodes net -> x ∈ nodes -> exists l, l ∈ net_ext_links net /\ xl_ext_node l = node_machine x /\
  0 <= xl_int_node l < net_routers net /\ bl_weight (xl_link l) = 1.
Proof.
  intros [Hext Hok _ _] Hx. assert (node_machine x ∈ node_machine <$> nodes) as Hin by (apply list_elem_of_fmap; eauto).
  rewrite <-Hext in Hin. apply list_elem_of_fmap in Hin as (l & Heq & Hl). rewrite list.Forall_forall in Hok.
  destruct (Hok _ Hl) as (? & ? & _). eauto 10.
Qed.

Lemma joined_machines nodes net B nv v x y : net_ok nodes net -> joined net B -> in_range (Z.of_nat nv) v -> x ∈ nodes -> y ∈ nodes ->
  exists c, 0 <= c <= B + 2 /\ route nv (all_links (net_ext_links net) (net_int_links net)) v
    (switch_in (node_machine x)) (switch_out (node_machine y)) c.
Proof.
  intros Hnet Hj Hv Hx Hy. destruct (node_link _ _ _ Hnet Hx) as (l & Hl & Hlx & Hlr & Hlw), (node_link _ _ _ Hnet Hy) as (l' & Hl' & Hly & Hlr' & Hlw').
  destruct (Hj nv v _ _ Hv Hlr Hlr') as (c & Hc & Hroute). exists (1 + (c + 1)). split; [lia|].
  assert (forall p, p ∈ ext_pairs l \/ p ∈ ext_pairs l' -> p ∈ all_links (net_ext_links net) (net_int_links net)) as Hin.
  { intros p Hp. unfold all_links. apply elem_of_app. left. apply list_elem_of_bind. destruct Hp; eauto. }
  unfold ext_pairs in Hin. rewrite Hlx, Hly in Hin.
  destruct (route_link nodes net nv v ((switch_in (node_machine x), router_switch (xl_int_node l)), mkLinkEntry (xl_link l) "" "") Hnet) as [_ H1];
    [apply Hin; left; by left|done|]. simpl in H1. rewrite Hlw in H1.
  destruct (route_link nodes net nv v ((router_switch (xl_int_node l'), switch_in (node_machine y) + machines), mkLinkEntry (xl_link l') "" "") Hnet) as [_ H2];
    [apply Hin; right; right; by left|done|]. simpl in H2. rewrite Hlw' in H2.
  rewrite switch_out_in. eapply route_app; [exact H1|]. by eapply route_app.
Qed.

(** ** Point to point and crossbars *)

Lemma length_range n : length (range n) = Z.to_nat n.
Proof. unfold range. by rewrite length_fmap, length_seq. Qed.

Lemma enumerate_snd {A} (l : list A) : (enumerate l).*2 = l.
Proof. apply snd_zip. rewrite length_range. unfold zlength. lia. Qed.

Lemma enumerate_elem {A} (l : list A) i x : (i, x) ∈ enumerate l -> 0 <= i < zlength l /\ x ∈ l.
Proof. intros Hin. split; [by apply elem_of_zip_l, range_elem in Hin|by apply elem_of_zip_r in Hin]. Qed.

Lemma enumerated_ext nodes (f : Z -> Z) nr lat : (forall i, 0 <= i < zlength nodes -> 0 <= f i < nr) ->
  let ext := (fun '(i, node) => ExtLink i lat node (f i)) <$> enumerate nodes in
  xl_ext_node <$> ext = node_machine <$> nodes /\
  Forall (fun l => 0 <= xl_int_node l < nr /\ bl_weight (xl_link l) = 1 /\ bl_vnets (xl_link l) = []) ext.
Proof.
  intros Hf ext. split.
  - unfold ext. rewrite <-list_fmap_compose. rewrite <-(enumerate_snd nodes) at 2. rewrite <-list_fmap_compose.
    apply list_fmap_ext. by intros ? [].
  - apply list.Forall_forall. intros l ([i x] & -> & [Hi _]%enumerate_elem)%list_elem_of_fmap. simpl. auto.
Qed.

Lemma NoDup_range n : NoDup (range n).
Proof. unfold range. apply NoDup_fmap_2; [apply _|apply NoDup_seq]. Qed.

(** A link between routers of the net. *)
Lemma int_route nodes net nv v l : net_ok nodes net -> in_range (Z.of_nat nv) v -> l ∈ net_int_links net ->
  route nv (all_links (net_ext_links net) (net_int_links net)) v (router_switch (il_src_node l)) (router_switch (il_dst_node l)) (bl_weight (il_link l)).
Proof.
  intros Hnet Hv Hl. apply (route_link nodes net nv v (int_pair l) Hnet); [|done].
  unfold all_links. apply elem_of_app. right. apply list_elem_of_fmap. eauto.
Qed.

Section others.
Context (options : Options) (nodes : list Node).

Lemma pt2pt_pairs n : let pairs := (i ← range n; j ← range n; if negb (i =? j) then [(i, j)] else []) in
  NoDup pairs /\ forall i j, (i, j) ∈ pairs <-> 0 <= i < n /\ 0 <= j < n /\ i <> j.
Proof.
  assert (forall i j p, p ∈ (if negb (i =? j) then [(i, j)] else []) <-> p = (i, j) /\ i <> j) as Hif.
  { intros i j p. destruct (Z.eqb_spec i j); simpl; set_solver. }
  split.
  - apply NoDup_bind; [..|apply NoDup_range].
    + intros i i' p _ _ (j & Hp & _)%list_elem_of_bind (j' & Hp' & _)%list_elem_of_bind.
      apply Hif in Hp as [-> _], Hp' as [[= ->] _]. done.
    + intros i _. apply NoDup_bind; [..|apply NoDup_range].
      * intros j j' p _ _ [-> _]%Hif [[= ->] _]%Hif. done.
      * intros j _. destruct (negb _); [apply list.NoDup_singleton|apply NoDup_nil_2].
  - intros i j. rewrite list_elem_of_bind. setoid_rewrite list_elem_of_bind. setoid_rewrite Hif. setoid_rewrite range_elem. split.
    + by intros (i' & (j' & ([= -> ->] & ?) & ?) & ?).
    + intros (? & ? & ?). eauto 10.
Qed.

Lemma Pt2Pt_ok : net_ok nodes (Pt2Pt options nodes) /\ joined (Pt2Pt options nodes) 1.
Proof.
  destruct (pt2pt_pairs (zlength nodes)) as [Hnd Hin].
  destruct (enumerated_ext nodes (fun i => i) (zlength nodes) (opt_link_latency options) ltac:(done)) as [Hext Hextok].
  assert (net_ok nodes (Pt2Pt options nodes)) as Hnet.
  { split; [done|done| |]; simpl.
    - apply list.Forall_forall. intros l ([k [i j]] & -> & [_ (? & ? & ?)%Hin]%enumerate_elem)%list_elem_of_fmap. simpl. unfold INFINITE_LATENCY. split_and!; lia || done.
    - rewrite <-list_fmap_compose. erewrite list_fmap_ext; [rewrite enumerate_snd; exact Hnd|]. by intros ? [? []]. }
  split; [done|]. intros nv v r r' Hv Hr Hr'. destruct (decide (r = r')) as [->|Hne]; [exists 0; split; [lia|apply route_nil]|].
  assert ((r, r') ∈ (enumerate (i ← range (zlength nodes); j ← range (zlength nodes); if negb (i =? j) then [(i, j)] else [])).*2) as Hp
    by (rewrite enumerate_snd; by apply Hin).
  apply list_elem_of_fmap in Hp as ([k p] & Heq & Hp). simpl in Heq. subst p.
  exists 1. split; [lia|]. apply (int_route nodes (Pt2Pt options nodes) nv v (IntLink (zlength nodes + 1 + k) (opt_link_latency options) r r' "" "" 1) Hnet Hv).
  simpl. apply list_elem_of_fmap. by exists (k, (r, r')).
Qed.

Lemma Crossbar_ok : net_ok nodes (Crossbar options nodes) /\ joined (Crossbar options nodes) 2.
Proof.
  destruct (enumerated_ext nodes (fun i => i) (zlength nodes + 1) (opt_link_latency options) ltac:(lia)) as [Hext Hextok].
  assert (net_ok nodes (Crossbar options nodes)) as Hnet.
  { split; [done|done| |]; simpl.
    - apply list.Forall_forall. intros l [(i & -> & Hi%range_elem)%list_elem_of_fmap|(i & -> & Hi%range_elem)%list_elem_of_fmap]%elem_of_app;
        simpl; unfold INFINITE_LATENCY; split_and!; lia || done.
    - rewrite fmap_app, <-!list_fmap_compose. apply list.NoDup_app. split_and!.
      + apply NoDup_fmap_2; [|apply NoDup_range]. by intros ? ? [= ?].
      + intros p (i & -> & Hi%range_elem)%list_elem_of_fmap (j & Heq & Hj%range_elem)%list_elem_of_fmap. simpl in Heq. injection Heq as ? ?. lia.
      + apply NoDup_fmap_2; [|apply NoDup_range]. by intros ? ? [= ?]. }
  assert (forall nv v r, in_range (Z.of_nat nv) v -> 0 <= r < zlength nodes ->
    let ls := all_links (net_ext_links (Crossbar options nodes)) (net_int_links (Crossbar options nodes)) in
    route nv ls v (router_switch r) (router_switch (zlength nodes)) 1 /\ route nv ls v (router_switch (zlength nodes)) (router_switch r) 1) as Hto.
  { intros nv v r Hv Hr. split.
    - apply (int_route nodes _ nv v (IntLink (zlength nodes + r) (opt_link_latency options) r (zlength nodes) "" "" 1) Hnet Hv).
      simpl. apply elem_of_app. left. apply list_elem_of_fmap. exists r. by rewrite range_elem.
    - apply (int_route nodes _ nv v (IntLink (2 * zlength nodes + r) (opt_link_latency options) (zlength nodes) r "" "" 1) Hnet Hv).
      simpl. apply elem_of_app. right. apply list_elem_of_fmap. exists r. by rewrite range_elem. }
  split; [done|]. intros nv v r r' Hv Hr Hr'. simpl in Hr, Hr'.
  destruct (decide (r = zlength nodes)) as [->|], (decide (r' = zlength nodes)) as [->|].
  - exists 0. split; [lia|apply route_nil].
  - exists 1. split; [lia|]. apply Hto; [done|lia].
  - exists 1. split; [lia|]. apply Hto; [done|lia].
  - exists (1 + 1). split; [lia|]. eapply route_app; apply Hto; (done || lia).
Qed.

Lemma CrossbarGarnet_ok : net_ok nodes (CrossbarGarnet nodes) /\ joined (CrossbarGarnet nodes) 0.
Proof.
  destruct (enumerated_ext nodes (fun _ => 0) 1 1 ltac:(lia)) as [Hext Hextok].
  split; [split; [done|done|constructor|apply NoDup_nil_2]|]. intros nv v r r' Hv Hr Hr'. simpl in Hr, Hr'.
  exists 0. split; [lia|]. assert (r = r') as -> by lia. apply route_nil.
Qed.

End others.


(** ** Tables from a cost *)

(** If [h] is the cost of the best way to a machine from every switch that has
    one, and the weight that stands for no link elsewhere, the tables allow
    exactly the links along which it goes down by the weight of the link. *)
Section cost.
Context (nr : Z) (nv : nat) (ext : list BasicExtLink) (int : list BasicIntLink) (s : Topology.t) (made : list Topology.MadeLink) (w D : Matrix).
Context (Hc : config_ok nr nv ext int) (Hb : built nr nv (all_links ext int) s) (Hok : topo_ok nv s) (Hw : link_weights nv s w).
Context (Hmk : making nv s w (fun _ _ => True) made) (v m i : Z) (Hv : in_range (Z.of_nat nv) v) (Hmi : machine m i).
Context (h : Z -> Z) (Hbound : forall a, 0 <= a < nr + 2 * machines -> 0 <= h a <= INFINITE_LATENCY) (Hzero : h (out_switch m i) = 0).
Context (Hlinks : forall a b e, ((a, b), e) ∈ all_links ext int -> v ∈ vnets_of nv (le_link e) -> h a <= bl_weight (le_link e) + h b).
Context (Hreach : forall a, 0 <= a < nr + 2 * machines -> route nv (all_links ext int) v a (out_switch m i) (h a) \/
  (h a = INFINITE_LATENCY /\ a <> out_switch m i /\ forall e, ((a, out_switch m i), e) ∉ all_links ext int)).
Notation n := (Z.to_nat (Topology.num_switches (Topology.m_link_map s))).

Lemma entry_cases a b : in_range (Z.of_nat n) a -> in_range (Z.of_nat n) b ->
  (exists e, ((a, b), e) ∈ all_links ext int /\ v ∈ vnets_of nv (le_link e) /\ entry w v a b = bl_weight (le_link e)) \/
  ((forall e, ((a, b), e) ∈ all_links ext int -> v ∉ vnets_of nv (le_link e)) /\ entry w v a b = if a =? b then 0 else INFINITE_LATENCY).
Proof.
  intros Ha Hb'. destruct (mget_range nv n n w v a b (lw_shape _ _ _ Hw) Hv Ha Hb') as [x Hx]. rewrite (entry_Ok _ _ _ _ _ Hx).
  destruct (weight_cases nv s Hok w Hw v a b x Hx) as [(es & e & Hg & He & Hcar & _)|[Hno ->]].
  - left. pose proof (link_find_elem _ _ _ (to_map _ _ Hok) Hg) as Hes. rewrite (bt_find _ _ _ _ Hb) in Hes.
    pose proof (lw_link _ _ _ Hw _ _ _ _ _ Hg Hcar) as Hx'. rewrite Hx in Hx'. injection Hx' as ->.
    exists e. rewrite <-between_elem, Hes. split; [done|]. split; [|done].
    apply list_elem_of_bind in Hcar as (e' & Hv' & _). apply list_elem_of_fmap in Hv' as (v' & [= <- Hl] & Hv'). by rewrite Hl.
  - right. split; [|done]. intros e He Hve. apply between_elem in He. rewrite <-(bt_find _ _ _ _ Hb) in He.
    eapply Hno; [by apply link_find_in in He|]. apply list_elem_of_bind. exists e. split; [apply list_elem_of_fmap; by exists v|done].
Qed.

Lemma switches_bound a : in_range (Z.of_nat n) a -> 0 <= a < nr + 2 * machines.
Proof. assert (Topology.num_switches (Topology.m_link_map s) <= nr + 2 * machines) by (by eapply num_switches_config). unfold in_range. lia. Qed.

Lemma cost_walk a b c : in_range (Z.of_nat n) b -> walk (Z.of_nat n) (entry w v) a b c -> h a <= c + h b.
Proof.
  intros Hb'. pose proof (Hbound b (switches_bound b Hb')).
  induction 1 as [|a k b c Ha Hk _ IH]; [lia|]. specialize (IH Hb' ltac:(done)). pose proof (Hbound a (switches_bound a Ha)). pose proof (Hbound k (switches_bound k Hk)).
  destruct (entry_cases a k Ha Hk) as [(e & He & Hve & ->)|[_ ->]]; [specialize (Hlinks _ _ _ He Hve); lia|].
  destruct (Z.eqb_spec a k) as [->|]; lia.
Qed.

Lemma cost_dist a : in_range (Z.of_nat n) a -> is_dist (Z.of_nat n) (entry w v) a (out_switch m i) (h a).
Proof.
  intros Ha. assert (Hout : in_range (Z.of_nat n) (out_switch m i)) by (apply out_switch_range; [by apply (switches_enough nv s)|done]).
  split; [|intros c Hwalk%cost_walk; [lia|done]].
  destruct (Hreach a (switches_bound a Ha)) as [Hr|(Hinf & Hne & Hno)]; [by eapply route_walk|].
  replace (h a) with (entry w v a (out_switch m i)); [by apply walk_one|]. rewrite Hinf.
  destruct (entry_cases a (out_switch m i) Ha Hout) as [(e & He & _)|[_ ->]]; [by apply Hno in He|].
  by rewrite (proj2 (Z.eqb_neq _ _)).
Qed.

Lemma may_take_cost a b e : ((a, b), e) ∈ all_links ext int -> v ∈ vnets_of nv (le_link e) ->
  may_take nv (all_links ext int) s made v m i a b <-> bl_weight (le_link e) + h b = h a.
Proof.
  intros He Hve. rewrite (may_take_leads nr nv ext int s made w v m i a b Hok Hb Hw Hmk Hv Hmi).
  pose proof He as He'. apply between_elem in He'. rewrite <-(bt_find _ _ _ _ Hb) in He'.
  destruct (linked_link nv s Hok a b e v He' Hve) as [Hlk _].
  destruct (group_facts nv s Hok a b _ (link_find_in _ _ _ He')) as (Ha & Hb' & _).
  assert (entry w v a b = bl_weight (le_link e)) as <-.
  { apply entry_Ok, (lw_link _ _ _ Hw a b _ v (le_link e) (link_find_in _ _ _ He')). apply list_elem_of_bind. exists e.
    split; [apply list_elem_of_fmap; by exists v|done]. }
  split.
  - intros [_ (d & d' & Hd & Hd' & Heq)].
    by rewrite (is_dist_unique _ _ _ _ _ _ (cost_dist _ Hb') Hd), (is_dist_unique _ _ _ _ _ _ (cost_dist _ Ha) Hd').
  - intros Heq. split; [done|]. exists (h b), (h a). split_and!; [by apply cost_dist..|done].
Qed.

End cost.

End nets.
