(* ===== verification/MeshScripts.v ===== *)
(** * MeshScripts: the meshes and their routing tables

    The networks that Mesh_XY.py and Mesh_westfirst.py make.  Their links are
    those of a mesh with a weight per direction, and the distances that
    [Topology] computes for them are known in closed form; so are the links
    that its tables allow, and among them those of least weight, which the
    routers take: dimension order in one mesh, west first in the other. *)

From S2P Require Import Prelude NetDest CommonTypes RoutingUnit Mesh Topology TopologyProofs TopologyLinks TopologyTheorems TopologyScripts ScriptProofs.

(** ** The links of a mesh *)

(** The four loops, with any links. *)
Definition grid (n m : Z) (test : Z -> Z -> bool) (g : Z -> Z -> Mesh.IntLink) : list Mesh.IntLink :=
  a ← range n; b ← range m; if test a b then [g a b] else [].

Definition gen_links (f : PortDirection -> Z -> Z -> Mesh.IntLink) (R C : Z) : list Mesh.IntLink :=
  grid R C (fun row col => col + 1 <? C) (fun row col => f "East" (col + row * C) ((col + 1) + row * C)) ++
  grid R C (fun row col => col + 1 <? C) (fun row col => f "West" ((col + 1) + row * C) (col + row * C)) ++
  grid C R (fun col row => row + 1 <? R) (fun col row => f "North" (col + row * C) (col + (row + 1) * C)) ++
  grid C R (fun col row => row + 1 <? R) (fun col row => f "South" (col + (row + 1) * C) (col + row * C)).

Definition xy_weight (d : PortDirection) : Z := if bool_decide (d = "East" \/ d = "West") then 1 else 2.
Definition westfirst_weight (d : PortDirection) : Z := if bool_decide (d = "West") then 1 else 2.

Lemma mesh_links_gen R C : mesh_links R C = gen_links (fun d s t => Mesh.mkIntLink s t d (opposite d) (xy_weight d)) R C.
Proof. done. Qed.
Lemma westfirst_links_gen R C : westfirst_links R C = gen_links (fun d s t => Mesh.mkIntLink s t "" "" (westfirst_weight d)) R C.
Proof. done. Qed.

Lemma grid_elem n m (test : Z -> Z -> bool) g l : l ∈ grid n m test g <-> exists a b, 0 <= a < n /\ 0 <= b < m /\ test a b /\ l = g a b.
Proof.
  unfold grid. rewrite list_elem_of_bind. setoid_rewrite list_elem_of_bind. setoid_rewrite range_elem. split.
  - intros (a & (b & Hl & Hb) & Ha). destruct (test a b) eqn:E; [|by apply not_elem_of_nil in Hl].
    apply list_elem_of_singleton in Hl as ->. exists a, b. by rewrite E.
  - intros (a & b & Ha & Hb & Ht & ->). exists a. split; [|done]. exists b. split; [|done]. destruct (test a b); [by left|done].
Qed.

Lemma grid_once n m (test : Z -> Z -> bool) g : (forall a b a' b', 0 <= a < n -> 0 <= b < m -> 0 <= a' < n -> 0 <= b' < m -> test a b -> test a' b' ->
  g a b = g a' b' -> a = a' /\ b = b') -> NoDup (grid n m test g).
Proof.
  intros Hg. assert (forall a b l, l ∈ (if test a b then [g a b] else []) -> test a b /\ l = g a b) as Hif.
  { intros a b l Hl. destruct (test a b); [by apply list_elem_of_singleton in Hl|by apply not_elem_of_nil in Hl]. }
  apply NoDup_bind; [..|apply NoDup_range].
  - intros a a' l Ha Ha' (b & [Ht ->]%Hif & Hb)%list_elem_of_bind (b' & [Ht' Heq]%Hif & Hb')%list_elem_of_bind.
    rewrite range_elem in *. by apply Hg in Heq as [? _].
  - intros a Ha. apply NoDup_bind; [..|apply NoDup_range].
    + intros b b' l Hb Hb' [Ht ->]%Hif [Ht' Heq]%Hif. rewrite range_elem in *. by apply Hg in Heq as [_ ?].
    + intros b _. destruct (test a b); [apply list.NoDup_singleton|apply NoDup_nil_2].
Qed.

Lemma move_inj p d d' : d ∈ mesh_dirs -> d' ∈ mesh_dirs -> move d p = move d' p -> d = d'.
Proof.
  unfold mesh_dirs. rewrite !elem_of_cons, !elem_of_nil. intros Hd Hd' Heq. destruct p as [x y].
  by destruct Hd as [->|[->|[->|[->|[]]]]], Hd' as [->|[->|[->|[->|[]]]]]; try done;
    unfold move in Heq; simpl in Heq; pose proof (f_equal fst Heq) as Hx; pose proof (f_equal snd Heq) as Hy; simpl in Hx, Hy; lia.
Qed.

Section gen.
Context (f : PortDirection -> Z -> Z -> Mesh.IntLink) (R C : Z).
Context (Hsrc : forall d s t, src_node (f d s t) = s) (Hdst : forall d s t, dst_node (f d s t) = t).

Lemma gen_links_elem l : l ∈ gen_links f R C <->
  exists p d, d ∈ mesh_dirs /\ in_mesh R C p /\ in_mesh R C (move d p) /\ l = f d (id_of C p) (id_of C (move d p)).
Proof.
  unfold gen_links. rewrite !elem_of_app, !grid_elem. unfold in_mesh, id_of. split.
  - intros [(a & b & Ha & Hb & Ht%Is_true_true & ->)|[(a & b & Ha & Hb & Ht%Is_true_true & ->)|[(a & b & Ha & Hb & Ht%Is_true_true & ->)|(a & b & Ha & Hb & Ht%Is_true_true & ->)]]];
      [exists (b, a), "East"|exists (b + 1, a), "West"|exists (a, b), "North"|exists (a, b + 1), "South"];
      unfold move, mesh_dirs; simpl; (split; [set_solver|]); (split; [lia|]); (split; [lia|]); f_equal; lia.
  - intros ([x y] & d & Hd & Hp & Hm & ->). unfold mesh_dirs in Hd. rewrite !elem_of_cons, elem_of_nil in Hd.
    destruct Hd as [->|[->|[->|[->|[]]]]]; unfold move in *; simpl in *.
    + left. exists y, x. rewrite Is_true_true. split_and!; [lia..|]. done.
    + right; left. exists y, (x - 1). rewrite Is_true_true. split_and!; [lia..|]. f_equal; lia.
    + right; right; left. exists x, y. rewrite Is_true_true. split_and!; [lia..|]. done.
    + right; right; right. exists x, (y - 1). rewrite Is_true_true. split_and!; [lia..|]. f_equal; lia.
Qed.

Lemma gen_links_once : NoDup (gen_links f R C).
Proof.
  assert (forall d s t d' s' t', f d s t = f d' s' t' -> s = s' /\ t = t') as Hinj.
  { intros d s t d' s' t' Heq. pose proof (f_equal src_node Heq) as H1. pose proof (f_equal dst_node Heq) as H2.
    by rewrite !Hsrc in H1; rewrite !Hdst in H2. }
  assert (forall a b a' b', 0 <= b < C -> 0 <= b' < C -> b + a * C = b' + a' * C -> a = a' /\ b = b') as Hid
    by (intros a b a' b' Hb Hb' Heq; assert (a = a') by nia; split; [done|nia]).
  unfold gen_links. rewrite !list.NoDup_app. split_and!;
    try (apply grid_once; intros a b a' b' Ha Hb Ha' Hb' _ _ [H1 H2]%Hinj;
         first [apply Hid in H1; lia|apply Hid in H2; lia]);
    intros l; rewrite ?elem_of_app, !grid_elem; intros (a & b & Ha & Hb & Ht%Is_true_true & ->) Hin;
    repeat (destruct Hin as [Hin|Hin]; [destruct Hin as (a' & b' & _ & _ & Ht'%Is_true_true & [H1 H2]%Hinj); lia|]);
    destruct Hin as (a' & b' & _ & _ & Ht'%Is_true_true & [H1 H2]%Hinj); lia.
Qed.

Lemma gen_links_pairs : NoDup ((fun l => (src_node l, dst_node l)) <$> gen_links f R C).
Proof.
  apply NoDup_fmap_2_strong; [|apply gen_links_once]. intros l l' Hl Hl' [= H1 H2].
  apply gen_links_elem in Hl as (p & d & Hd & Hp & Hm & ->), Hl' as (p' & d' & Hd' & Hp' & Hm' & ->).
  rewrite !Hsrc in H1. rewrite !Hdst in H2. apply (id_of_inj R C) in H1; [|done..]. subst p'.
  apply (id_of_inj R C) in H2; [|done..]. by rewrite (move_inj p d d').
Qed.

End gen.

(** ** The meshes of the scripts *)

Lemma split_enumerated {A} (l : list A) k o :
  (snd <$> filter (fun x => x.1 < k) (zip (Z.of_nat <$> seq o (length l)) l)) ++
  (snd <$> filter (fun x => ~ (x.1 < k)) (zip (Z.of_nat <$> seq o (length l)) l)) = l.
Proof.
  revert o. induction l as [|x l IH]; intros o; [done|]. cbn [length seq]. rewrite fmap_cons. cbn [zip_with]. rewrite !filter_cons. cbn [fst].
  destruct (decide (Z.of_nat o < k)).
  - rewrite decide_False by auto. rewrite fmap_cons. cbn [app snd]. f_equal. apply IH.
  - rewrite decide_True by auto. rewrite fmap_cons. cbn [snd].
    assert (filter (fun x : Z * A => x.1 < k) (zip (Z.of_nat <$> seq (S o) (length l)) l) = []) as Hnil.
    { destruct (filter _ _) as [|[i y] m] eqn:E; [done|]. exfalso.
      assert ((i, y) ∈ filter (fun x : Z * A => x.1 < k) (zip (Z.of_nat <$> seq (S o) (length l)) l)) as [Hi Hin]%list_elem_of_filter by (rewrite E; by left).
      apply elem_of_zip_l, list_elem_of_fmap in Hin as (j & -> & Hj%elem_of_seq). simpl in Hi. lia. }
    specialize (IH (S o)). rewrite Hnil in IH |- *. cbn [fmap list_fmap app] in IH |- *. by rewrite IH.
Qed.

Lemma filter_enumerate_length {A} (l : list A) k : 0 <= k <= zlength l ->
  zlength (snd <$> filter (fun x => x.1 < k) (enumerate l)) = k.
Proof.
  intros Hk. unfold enumerate, range, zlength in *. rewrite Nat2Z.id.
  assert (forall o, Z.of_nat o <= k <= Z.of_nat o + Z.of_nat (length l) ->
    Z.of_nat (length (snd <$> filter (fun x => x.1 < k) (zip (Z.of_nat <$> seq o (length l)) l))) = k - Z.of_nat o) as Hgen; [|rewrite Hgen; lia].
  clear Hk. induction l as [|x l IH]; intros o Ho; [simpl in *; lia|]. cbn [length seq] in *. rewrite fmap_cons. cbn [zip_with].
  rewrite filter_cons. cbn [fst]. case_decide; [rewrite fmap_cons; cbn [length]; specialize (IH (S o)); lia|].
  assert (k = Z.of_nat o) as -> by lia.
  destruct (filter _ _) as [|[i y] m] eqn:E; simpl; [lia|]. exfalso.
  assert ((i, y) ∈ filter (fun x : Z * A => x.1 < Z.of_nat o) (zip (Z.of_nat <$> seq (S o) (length l)) l)) as [Hi Hin]%list_elem_of_filter by (rewrite E; by left).
  apply elem_of_zip_l, list_elem_of_fmap in Hin as (j & -> & Hj%elem_of_seq). simpl in Hi. lia.
Qed.

Lemma router_at_Ok n i : 0 <= i < n -> router_at n i = Ok i.
Proof. intros Hi. unfold router_at. by rewrite (proj2 (Z.leb_le _ _)), (proj2 (Z.ltb_lt _ _)) by lia. Qed.

Definition ext_ok (nr : Z) (l : BasicExtLink) : Prop := 0 <= xl_int_node l < nr /\ bl_weight (xl_link l) = 1 /\ bl_vnets (xl_link l) = [].

Section make.
Context (options : Options) (R C : Z) (HR : 0 < R) (HC : 0 < C) (Hcpus : num_cpus options = R * C) (Hrows : mesh_rows options = R).

Lemma connect_nodes_ok cpr nodes : zlength nodes <= cpr * (R * C) ->
  safe (for_each (enumerate nodes) (connect_node options cpr) ([], 0)) (fun '(ext, _) =>
    xl_ext_node <$> ext = node_machine <$> nodes /\ Forall (ext_ok (R * C)) ext).
Proof.
  intros Hlen. eapply safe_mono; [apply (safe_for_each (fun pre '(ext, _) =>
    xl_ext_node <$> ext = (fun x => node_machine x.2) <$> pre /\ Forall (ext_ok (R * C)) ext))|].
  - by split.
  - intros pre [i n] post [ext count] Heq [He Hok].
    assert ((i, n) ∈ enumerate nodes) as [Hi _]%enumerate_elem by (rewrite Heq; set_solver).
    assert (0 < R * C) as Hpos by lia. pose proof (Z.mod_pos_bound i (R * C) Hpos).
    unfold connect_node. rewrite Hcpus. apply safe_bind, safe_assert; [apply Z.ltb_lt, Z.div_lt_upper_bound; lia|].
    rewrite router_at_Ok by done. simpl. rewrite !fmap_app, He. split; [done|]. apply list.Forall_app. split; [done|]. apply list.Forall_singleton. by split.
  - intros [ext count] [He Hok]. split; [|done]. rewrite He. rewrite <-(enumerate_snd nodes) at 2. by rewrite <-list_fmap_compose.
Qed.

Lemma connect_remainder_ok rem nodes ext0 count0 names : zlength nodes <= rem -> Forall (fun n => node_type n = "DMA_Controller") nodes ->
  xl_ext_node <$> ext0 = names -> Forall (ext_ok (R * C)) ext0 ->
  safe (for_each (enumerate nodes) (connect_remainder options rem) (ext0, count0)) (fun '(ext, _) =>
    xl_ext_node <$> ext = names ++ (node_machine <$> nodes) /\ Forall (ext_ok (R * C)) ext).
Proof.
  intros Hlen Htype H0 Hok0. eapply safe_mono; [apply (safe_for_each (fun pre '(ext, _) =>
    xl_ext_node <$> ext = names ++ ((fun x => node_machine x.2) <$> pre) /\ Forall (ext_ok (R * C)) ext))|].
  - by rewrite app_nil_r.
  - intros pre [i n] post [ext count] Heq [He Hok].
    assert ((i, n) ∈ enumerate nodes) as [Hi Hn]%enumerate_elem by (rewrite Heq; set_solver).
    rewrite list.Forall_forall in Htype. unfold connect_remainder. rewrite (Htype _ Hn), bool_decide_true by done. simpl.
    apply safe_bind, safe_assert; [lia|]. rewrite Hcpus, router_at_Ok by lia. simpl.
    rewrite !fmap_app, He, (assoc_L (++)). split; [done|]. apply list.Forall_app. split; [done|]. apply list.Forall_singleton. split; [simpl; lia|done].
  - intros [ext count] [He Hok]. split; [|done]. rewrite He. rewrite <-(enumerate_snd nodes) at 2. by rewrite <-list_fmap_compose.
Qed.

Lemma make_int_links_ok ls count0 : Forall (fun l => 0 <= src_node l < R * C /\ 0 <= dst_node l < R * C) ls ->
  safe (for_each ls (make_int_link options) ([], count0)) (fun '(int, _) =>
    (fun l => (il_src_node l, il_dst_node l, bl_weight (il_link l))) <$> int = (fun l => (src_node l, dst_node l, Mesh.weight l)) <$> ls /\
    Forall (fun l => bl_vnets (il_link l) = []) int).
Proof.
  intros Hls. apply (safe_for_each (fun pre '(int, _) =>
    (fun l => (il_src_node l, il_dst_node l, bl_weight (il_link l))) <$> int = (fun l => (src_node l, dst_node l, Mesh.weight l)) <$> pre /\
    Forall (fun l => bl_vnets (il_link l) = []) int)).
  - by split.
  - intros pre l post [int count] Heq [He Hok]. rewrite Heq in Hls. apply list.Forall_app in Hls as [_ [[Hs Hd] _]%list.Forall_cons].
    unfold make_int_link. rewrite Hcpus, !router_at_Ok by done. simpl. rewrite !fmap_app, He. split; [done|].
    apply list.Forall_app. split; [done|]. by apply list.Forall_singleton.
Qed.

(** The controllers that are left over are DMA controllers. *)
Definition dma_remainder (nodes : list Node) : Prop :=
  Forall (fun n => node_type n = "DMA_Controller") (drop (Z.to_nat (zlength nodes - zlength nodes mod (R * C))) nodes).

Lemma make_mesh_ok links nodes : dma_remainder nodes ->
  Forall (fun l => 0 <= src_node l < R * C /\ 0 <= dst_node l < R * C) (links R C) ->
  exists ext int, make_mesh options links nodes = Ok (mkNet (R * C) ext int) /\
    xl_ext_node <$> ext = node_machine <$> nodes /\ Forall (ext_ok (R * C)) ext /\
    (fun l => (il_src_node l, il_dst_node l, bl_weight (il_link l))) <$> int = (fun l => (src_node l, dst_node l, Mesh.weight l)) <$> links R C /\
    Forall (fun l => bl_vnets (il_link l) = []) int.
Proof.
  intros Hdma Hls. unfold make_mesh. rewrite Hcpus, Hrows.
  assert (0 < R * C) as Hpos by lia. pose proof (Z.mod_pos_bound (zlength nodes) (R * C) Hpos) as Hmod.
  pose proof (Z.div_mod (zlength nodes) (R * C) ltac:(lia)) as Hdm.
  assert (0 <= zlength nodes - zlength nodes mod (R * C) <= zlength nodes) as Hk.
  { pose proof (Z.mod_le (zlength nodes) (R * C) ltac:(unfold zlength; lia) Hpos). lia. }
  rewrite (proj2 (Z.eqb_neq (R * C) 0)) by lia. cbn [negb assert mbind res_bind].
  rewrite (proj2 (Z.ltb_lt 0 R)), (proj2 (Z.leb_le R (R * C))) by nia. cbn [andb assert mbind res_bind].
  rewrite (Z.mul_comm R C), Z.div_mul, Z.eqb_refl by lia. rewrite (Z.mul_comm C R) in *. cbn [assert mbind res_bind].
  set (k := zlength nodes - zlength nodes mod (R * C)) in *.
  pose proof (filter_enumerate_length nodes k Hk) as Hlen1.
  pose proof (split_enumerated nodes k 0) as Hsplit.
  replace (zip (Z.of_nat <$> seq 0 (length nodes)) nodes) with (enumerate nodes) in Hsplit
    by (unfold enumerate, range, zlength; by rewrite Nat2Z.id).
  set (l1 := snd <$> filter _ _) in *. set (l2 := snd <$> filter (fun x => ~ _) _) in *.
  destruct (safe_inv _ _ (connect_nodes_ok (zlength nodes / (R * C)) l1 ltac:(nia))) as ([ext1 c1] & -> & He1 & Hok1). cbn [mbind res_bind].
  assert (l2 = drop (Z.to_nat k) nodes) as Hl2.
  { rewrite <-Hsplit. unfold zlength in Hlen1. rewrite drop_app_length' by lia. done. }
  assert (zlength l2 <= zlength nodes mod (R * C)) as Hlen2.
  { rewrite Hl2. unfold zlength in *. rewrite length_drop. lia. }
  destruct (safe_inv _ _ (connect_remainder_ok (zlength nodes mod (R * C)) l2 ext1 c1 _ Hlen2 ltac:(by rewrite Hl2) He1 Hok1)) as ([ext2 c2] & -> & He2 & Hok2).
  cbn [mbind res_bind]. destruct (safe_inv _ _ (make_int_links_ok (links R C) c2 Hls)) as ([int c3] & -> & Hi & Hv). cbn [mbind res_bind].
  exists ext2, int. split_and!; [done| |done..]. rewrite He2, <-fmap_app. by rewrite Hsplit.
Qed.

End make.

(** ** The tables of a mesh *)

Section tables.
Context `{Hmt : MachineTypes} `{!MachineTypesOk}.

Notation is_machine x := (machine (mach_type x) (mach_num x)).
Notation switch_in x := (in_switch (mach_type x) (mach_num x)).
Notation switch_out x := (out_switch (mach_type x) (mach_num x)).

(** A net with the links of a mesh, weighed by direction. *)
Record mesh_net (wt : PortDirection -> Z) (R C : Z) (nodes : list Node) (net : Net) : Prop := {
  mn_ok : net_ok nodes net;
  mn_routers : net_routers net = R * C;
  mn_sound l : l ∈ net_int_links net -> exists p d, d ∈ mesh_dirs /\ in_mesh R C p /\ in_mesh R C (move d p) /\
    il_src_node l = id_of C p /\ il_dst_node l = id_of C (move d p) /\ bl_weight (il_link l) = wt d;
  mn_complete p d : d ∈ mesh_dirs -> in_mesh R C p -> in_mesh R C (move d p) -> exists l, l ∈ net_int_links net /\
    il_src_node l = id_of C p /\ il_dst_node l = id_of C (move d p) /\ bl_weight (il_link l) = wt d;
}.

Lemma make_mesh_net options R C links f wt nodes : 0 < R -> 0 < C -> num_cpus options = R * C -> mesh_rows options = R ->
  links R C = gen_links f R C -> (forall d s t, src_node (f d s t) = s /\ dst_node (f d s t) = t /\ Mesh.weight (f d s t) = wt d) ->
  (forall d, 0 < wt d < INFINITE_LATENCY) -> dma_remainder R C nodes ->
  exists net, make_mesh options links nodes = Ok net /\ mesh_net wt R C nodes net.
Proof.
  intros HR HC Hcpus Hrows Hgen Hf Hwt Hdma.
  assert (forall l, l ∈ links R C <-> exists p d, d ∈ mesh_dirs /\ in_mesh R C p /\ in_mesh R C (move d p) /\ l = f d (id_of C p) (id_of C (move d p))) as Hls
    by (intros l; rewrite Hgen; apply gen_links_elem; intros d s t; by destruct (Hf d s t) as (? & ? & ?)).
  destruct (make_mesh_ok options R C HR HC Hcpus Hrows links nodes Hdma) as (ext & int & Hmk & Hext & Hextok & Hint & Hv).
  { apply list.Forall_forall. intros l (p & d & Hd & Hp & Hm & ->)%Hls. destruct (Hf d (id_of C p) (id_of C (move d p))) as (-> & -> & _).
    split; by apply id_of_range. }
  assert (forall l, l ∈ int -> exists p d, d ∈ mesh_dirs /\ in_mesh R C p /\ in_mesh R C (move d p) /\
    il_src_node l = id_of C p /\ il_dst_node l = id_of C (move d p) /\ bl_weight (il_link l) = wt d) as Hsound.
  { intros l Hl. assert ((il_src_node l, il_dst_node l, bl_weight (il_link l)) ∈ (fun l => (src_node l, dst_node l, Mesh.weight l)) <$> links R C) as Hin
      by (rewrite <-Hint; apply list_elem_of_fmap; eauto).
    apply list_elem_of_fmap in Hin as (l' & [= H1 H2 H3] & (p & d & Hd & Hp & Hm & ->)%Hls).
    destruct (Hf d (id_of C p) (id_of C (move d p))) as (E1 & E2 & E3). exists p, d. rewrite H1, H2, H3. done. }
  exists (mkNet (R * C) ext int). split; [done|]. split; [split; try done; simpl| |done|]; simpl.
  - apply list.Forall_forall. intros l Hl. destruct (Hsound l Hl) as (p & d & Hd & Hp & Hm & -> & -> & ->).
    rewrite list.Forall_forall in Hv. split; [by apply id_of_range|]. split; [by apply id_of_range|]. split; [|split; [apply Hwt|by apply Hv]].
    intros Heq. apply (id_of_inj R C) in Heq; [|done..]. destruct p as [x y]. unfold mesh_dirs in Hd. rewrite !elem_of_cons, elem_of_nil in Hd.
    destruct Hd as [->|[->|[->|[->|[]]]]]; unfold move in Heq; simpl in Heq; injection Heq; lia.
  - assert (NoDup ((fun l => (src_node l, dst_node l)) <$> links R C)) as Hnd
      by (rewrite Hgen; apply gen_links_pairs; intros d s t; by destruct (Hf d s t) as (? & ? & ?)).
    apply (f_equal (fmap fst)) in Hint. rewrite <-!list_fmap_compose in Hint. unfold compose in Hint. simpl in Hint. by rewrite Hint.
  - done.
  - intros p d Hd Hp Hm. destruct (Hf d (id_of C p) (id_of C (move d p))) as (E1 & E2 & E3).
    assert ((id_of C p, id_of C (move d p), wt d) ∈ (fun l => (src_node l, dst_node l, Mesh.weight l)) <$> links R C) as Hin.
    { apply list_elem_of_fmap. exists (f d (id_of C p) (id_of C (move d p))). rewrite E1, E2, E3. split; [done|]. apply Hls. eauto 10. }
    rewrite <-Hint in Hin. apply list_elem_of_fmap in Hin as (l & [= H1 H2 H3] & Hl). by exists l.
Qed.

(** *** Costs *)

Section mesh.
Context (wt : PortDirection -> Z) (R C : Z) (nodes : list Node) (net : Net) (Hnodes : nodes_ok nodes) (Hmn : mesh_net wt R C nodes net).
Context (Hwt : forall d, 0 < wt d <= 2) (HR : 0 < R) (HC : 0 < C) (Hsize : 2 * (R + C) < INFINITE_LATENCY).

Definition cost (t p : coord) : Z :=
  (if p.1 <=? t.1 then wt "East" * (t.1 - p.1) else wt "West" * (p.1 - t.1)) +
  (if p.2 <=? t.2 then wt "North" * (t.2 - p.2) else wt "South" * (p.2 - t.2)).

(** The direction brings a packet at [p] closer to [t]. *)
Definition productive (t p : coord) (d : PortDirection) : Prop :=
  (d = "East" /\ p.1 < t.1) \/ (d = "West" /\ t.1 < p.1) \/ (d = "North" /\ p.2 < t.2) \/ (d = "South" /\ t.2 < p.2).

Lemma mesh_dirs_cases d : d ∈ mesh_dirs -> d = "East" \/ d = "West" \/ d = "North" \/ d = "South".
Proof. unfold mesh_dirs. rewrite !elem_of_cons, elem_of_nil. tauto. Qed.

Lemma cost_bound t p : in_mesh R C t -> in_mesh R C p -> 0 <= cost t p <= 2 * (R + C) - 4.
Proof.
  intros [Ht1 Ht2] [Hp1 Hp2]. unfold cost. pose proof (Hwt "East"). pose proof (Hwt "West"). pose proof (Hwt "North"). pose proof (Hwt "South").
  destruct (Z.leb_spec p.1 t.1), (Z.leb_spec p.2 t.2); nia.
Qed.

Lemma cost_step t p d : d ∈ mesh_dirs -> cost t p <= wt d + cost t (move d p) /\
  (wt d + cost t (move d p) = cost t p <-> productive t p d).
Proof.
  intros Hd%mesh_dirs_cases. destruct p as [x y], t as [x' y']. unfold cost, productive, move.
  pose proof (Hwt "East"). pose proof (Hwt "West"). pose proof (Hwt "North"). pose proof (Hwt "South").
  destruct Hd as [->|[->|[->| ->]]]; simpl; repeat (case_bool_decide; try done); simpl;
    repeat match goal with |- context [?a <=? ?b] => destruct (Z.leb_spec a b) end; intuition (try discriminate; try nia).
Qed.

Lemma productive_in_mesh t p d : in_mesh R C t -> in_mesh R C p -> productive t p d -> d ∈ mesh_dirs /\ in_mesh R C (move d p).
Proof.
  intros [Ht1 Ht2] [Hp1 Hp2] Hd. destruct p as [x y]. unfold in_mesh, move, mesh_dirs, productive in *. simpl in *.
  destruct Hd as [[-> ?]|[[-> ?]|[[-> ?]|[-> ?]]]]; simpl; (split; [set_solver|lia]).
Qed.

Lemma productive_some t p : p <> t -> exists d, productive t p d.
Proof.
  intros Hne. destruct p as [x y], t as [x' y']. unfold productive. simpl.
  destruct (Z.lt_trichotomy x x') as [?|[->|?]]; [exists "East"; tauto| |exists "West"; tauto].
  destruct (Z.lt_trichotomy y y') as [?|[->|?]]; [exists "North"; tauto|done|exists "South"; tauto].
Qed.

Lemma cost_self t : cost t t = 0.
Proof. unfold cost. rewrite !Z.leb_refl. lia. Qed.

Notation links := (all_links (net_ext_links net) (net_int_links net)).
Notation router p := (router_switch (id_of C p)).

Lemma mesh_route nv v t p : in_range (Z.of_nat nv) v -> in_mesh R C t -> in_mesh R C p -> route nv links v (router p) (router t) (cost t p).
Proof.
  intros Hv Ht. remember (Z.to_nat (cost t p)) as k eqn:Hk. revert p Hk. induction k as [k IH] using lt_wf_ind. intros p Hk Hp.
  destruct (decide (p = t)) as [->|Hne]; [rewrite cost_self; apply route_nil|].
  destruct (productive_some t p Hne) as [d Hd]. destruct (productive_in_mesh _ _ _ Ht Hp Hd) as [Hdir Hm].
  destruct (cost_step t p d Hdir) as [_ Hstep]. apply Hstep in Hd. pose proof (Hwt d). pose proof (cost_bound t _ Ht Hm).
  destruct (mn_complete _ _ _ _ _ Hmn p d Hdir Hp Hm) as (l & Hl & Hs & Hdst & Hw).
  rewrite <-Hd, <-Hw. eapply route_app; [|by eapply IH; [|done|done]; lia].
  pose proof (int_route nodes net nv v l (mn_ok _ _ _ _ _ Hmn) Hv Hl) as Hr. by rewrite Hs, Hdst in Hr.
Qed.

Definition coord_of (r : Z) : coord := (r mod C, r / C).

Lemma coord_of_mesh r : 0 <= r < R * C -> in_mesh R C (coord_of r) /\ id_of C (coord_of r) = r.
Proof.
  intros Hr. unfold in_mesh, id_of, coord_of; simpl. pose proof (Z.mod_pos_bound r C HC). pose proof (Z.div_mod r C ltac:(lia)).
  split; [|lia]. split; [lia|]. split; [apply Z.div_pos; lia|]. apply Z.div_lt_upper_bound; lia.
Qed.

Lemma coord_of_id p : in_mesh R C p -> coord_of (id_of C p) = p.
Proof. intros Hp. destruct (coord_of_mesh (id_of C p)) as [Hm Heq]; [by apply id_of_range|]. by apply (id_of_inj R C) in Heq. Qed.

Section target.
Context (y : BasicExtLink) (Hy : y ∈ net_ext_links net).
Notation T := (switch_out (xl_ext_node y)).
Notation t := (coord_of (xl_int_node y)).

Definition attached (a : Z) (l : BasicExtLink) : Prop := switch_in (xl_ext_node l) = a.
#[local] Instance attached_dec a l : Decision (attached a l).
Proof. unfold attached. apply _. Defined.

(** The cost of the best way to the machine of [y]. *)
Definition total (a : Z) : Z :=
  if a =? T then 0
  else if 2 * machines <=? a then cost t (coord_of (a - 2 * machines)) + 1
  else match list_find (attached a) (net_ext_links net) with
       | Some (_, l) => cost t (coord_of (xl_int_node l)) + 2
       | None => INFINITE_LATENCY
       end.

Lemma ext_facts l : l ∈ net_ext_links net -> is_machine (xl_ext_node l) /\ 0 <= switch_in (xl_ext_node l) < machines /\
  in_mesh R C (coord_of (xl_int_node l)) /\ id_of C (coord_of (xl_int_node l)) = xl_int_node l /\ bl_weight (xl_link l) = 1.
Proof.
  intros Hl. destruct (mn_ok _ _ _ _ _ Hmn) as [Hext Hok _ _]. pose proof (nd_machines _ Hnodes) as Hm. rewrite <-Hext in Hm.
  rewrite list.Forall_forall in Hm. rewrite list.Forall_forall in Hok. destruct (Hok _ Hl) as (Hr & Hw & _). rewrite (mn_routers _ _ _ _ _ Hmn) in Hr.
  assert (is_machine (xl_ext_node l)) as Hlm by (apply Hm, list_elem_of_fmap; eauto).
  destruct (coord_of_mesh _ Hr). pose proof (machine_switch _ _ Hlm). done.
Qed.

Lemma ext_unique l l' : l ∈ net_ext_links net -> l' ∈ net_ext_links net -> switch_in (xl_ext_node l) = switch_in (xl_ext_node l') -> l = l'.
Proof.
  intros Hl Hl' Heq. destruct (ext_facts l Hl) as [Hm _], (ext_facts l' Hl') as [Hm' _]. apply in_switch_inj in Heq; [|done..].
  apply list_elem_of_lookup in Hl as [i Hi], Hl' as [j Hj]. pose proof (nd_once _ Hnodes) as Hnd. rewrite <-(nt_ext _ _ (mn_ok _ _ _ _ _ Hmn)) in Hnd.
  assert (i = j) as ->; [|congruence]. eapply (proj1 (NoDup_alt _) Hnd); rewrite list_lookup_fmap, ?Hi, ?Hj; simpl; [done|by rewrite Heq].
Qed.

Lemma target_place : machines <= T < 2 * machines /\ in_mesh R C t.
Proof. destruct (ext_facts y Hy) as (_ & ? & ? & _). rewrite switch_out_in. split; [lia|done]. Qed.

Lemma total_router p : in_mesh R C p -> total (router p) = cost t p + 1.
Proof.
  intros Hp. pose proof target_place as [HT _]. pose proof (id_of_range R C p Hp). unfold total, router_switch.
  rewrite (proj2 (Z.eqb_neq _ _)), (proj2 (Z.leb_le _ _)) by lia. replace (id_of C p + 2 * machines - 2 * machines) with (id_of C p) by lia.
  by rewrite coord_of_id.
Qed.

Lemma total_in l : l ∈ net_ext_links net -> total (switch_in (xl_ext_node l)) = cost t (coord_of (xl_int_node l)) + 2.
Proof.
  intros Hl. pose proof target_place as [HT _]. destruct (ext_facts l Hl) as (_ & Hsw & _). unfold total.
  rewrite (proj2 (Z.eqb_neq _ _)), (proj2 (Z.leb_gt _ _)) by lia.
  destruct (list_find _ _) as [[i l']|] eqn:Hf.
  - apply list_find_Some in Hf as (Hl' & Ha & _). apply list_elem_of_lookup_2 in Hl'. by rewrite (ext_unique l' l Hl' Hl Ha).
  - apply list_find_None in Hf. rewrite list.Forall_forall in Hf. exfalso. by apply (Hf l Hl).
Qed.

Lemma total_out l : l ∈ net_ext_links net -> switch_out (xl_ext_node l) <> T -> total (switch_out (xl_ext_node l)) = INFINITE_LATENCY.
Proof.
  intros Hl Hne. destruct (ext_facts l Hl) as (_ & Hsw & _).
  assert (machines <= switch_out (xl_ext_node l) < 2 * machines) as Hb by (rewrite switch_out_in; lia).
  unfold total. rewrite (proj2 (Z.eqb_neq _ _)) by done. rewrite (proj2 (Z.leb_gt _ _)) by lia.
  destruct (list_find _ _) as [[i l']|] eqn:Hf; [|done].
  apply list_find_Some in Hf as (Hl' & Ha & _). apply list_elem_of_lookup_2, ext_facts in Hl' as (_ & Hsw' & _). unfold attached in Ha. lia.
Qed.

(** Every link of the net. *)
Lemma mesh_link_cases a b e : ((a, b), e) ∈ links ->
  (exists l, l ∈ net_ext_links net /\ a = switch_in (xl_ext_node l) /\ b = router_switch (xl_int_node l) /\ bl_weight (le_link e) = 1) \/
  (exists l, l ∈ net_ext_links net /\ a = router_switch (xl_int_node l) /\ b = switch_out (xl_ext_node l) /\ bl_weight (le_link e) = 1) \/
  (exists p d, d ∈ mesh_dirs /\ in_mesh R C p /\ in_mesh R C (move d p) /\ a = router p /\ b = router (move d p) /\ bl_weight (le_link e) = wt d).
Proof.
  intros [(l & Hp & Hl)%list_elem_of_bind|(l & Heq & Hl)%list_elem_of_fmap]%elem_of_app.
  - destruct (ext_facts l Hl) as (_ & _ & _ & _ & Hw). unfold ext_pairs in Hp. rewrite !elem_of_cons, elem_of_nil in Hp.
    destruct Hp as [[= -> -> ->]|[[= -> -> ->]|[]]]; [left|right; left]; exists l; simpl; rewrite ?switch_out_in; done.
  - right; right. destruct (mn_sound _ _ _ _ _ Hmn l Hl) as (p & d & Hd & Hp & Hm & H1 & H2 & H3). exists p, d.
    unfold int_pair in Heq. injection Heq as -> -> ->. rewrite H1, H2. done.
Qed.

Lemma total_target : total T = 0.
Proof. unfold total. by rewrite Z.eqb_refl. Qed.

Lemma total_bound a : 0 <= a < R * C + 2 * machines -> 0 <= total a <= INFINITE_LATENCY.
Proof.
  intros Ha. pose proof target_place as [_ Ht]. unfold total. destruct (a =? T); [unfold INFINITE_LATENCY; lia|].
  destruct (Z.leb_spec (2 * machines) a).
  - destruct (coord_of_mesh (a - 2 * machines)) as [Hm _]; [lia|]. pose proof (cost_bound _ _ Ht Hm). lia.
  - destruct (list_find _ _) as [[i l]|] eqn:Hf; [|unfold INFINITE_LATENCY; lia].
    apply list_find_Some in Hf as (Hl & _ & _). apply list_elem_of_lookup_2, ext_facts in Hl as (_ & _ & Hm & _).
    pose proof (cost_bound _ _ Ht Hm). lia.
Qed.

Lemma total_links a b e : ((a, b), e) ∈ links -> total a <= bl_weight (le_link e) + total b.
Proof.
  pose proof target_place as [HT Ht].
  intros [(l & Hl & -> & -> & ->)|[(l & Hl & -> & -> & ->)|(p & d & Hd & Hp & Hm & -> & -> & ->)]]%mesh_link_cases.
  - destruct (ext_facts l Hl) as (_ & _ & Hlm & Hid & _). rewrite total_in by done. rewrite <-Hid at 2. rewrite total_router by done. lia.
  - destruct (ext_facts l Hl) as (_ & Hsw & Hlm & Hid & _). rewrite <-Hid at 1. rewrite total_router by done. pose proof (cost_bound _ _ Ht Hlm).
    destruct (decide (switch_out (xl_ext_node l) = T)) as [Heq|Hne]; [|rewrite total_out by done; lia].
    rewrite Heq, total_target. rewrite !switch_out_in in Heq. rewrite (ext_unique l y Hl Hy) by lia. rewrite cost_self. lia.
  - rewrite !total_router by done. destruct (cost_step t p d Hd) as [? _]. lia.
Qed.

Lemma total_reach nv v a : in_range (Z.of_nat nv) v -> 0 <= a < R * C + 2 * machines -> route nv links v a T (total a) \/
  (total a = INFINITE_LATENCY /\ a <> T /\ forall e, ((a, T), e) ∉ links).
Proof.
  intros Hv Ha. pose proof target_place as [HT Ht]. destruct (ext_facts y Hy) as (_ & _ & _ & Hid & Hyw).
  assert (forall l, l ∈ net_ext_links net -> forall p, p ∈ ext_pairs l -> p ∈ links) as Hext.
  { intros l Hl p Hp. unfold all_links. apply elem_of_app. left. apply list_elem_of_bind. eauto. }
  assert (route nv links v (router t) T 1) as Hlast.
  { destruct (route_link nodes net nv v ((router_switch (xl_int_node y), switch_in (xl_ext_node y) + machines), mkLinkEntry (xl_link y) "" "") (mn_ok _ _ _ _ _ Hmn)) as [_ Hr];
      [apply (Hext y Hy); right; by left|done|]. simpl in Hr. by rewrite Hyw, <-switch_out_in, <-Hid in Hr. }
  assert (forall p, in_mesh R C p -> route nv links v (router p) T (cost t p + 1)) as Hrouter.
  { intros p Hp. eapply route_app; [by apply mesh_route|done]. }
  destruct (decide (a = T)) as [->|HaT]; [left; rewrite total_target; apply route_nil|].
  destruct (Z.le_gt_cases (2 * machines) a) as [Hr|Hlt].
  - left. destruct (coord_of_mesh (a - 2 * machines)) as [Hm Hi]; [lia|].
    replace a with (router (coord_of (a - 2 * machines))) by (unfold router_switch; lia). rewrite total_router by done. by apply Hrouter.
  - destruct (list_find (attached a) (net_ext_links net)) as [[i l]|] eqn:Hf.
    + left. apply list_find_Some in Hf as (Hl%list_elem_of_lookup_2 & <- & _). destruct (ext_facts l Hl) as (_ & _ & Hm & Hli & Hw).
      rewrite total_in by done. replace (cost t (coord_of (xl_int_node l)) + 2) with (1 + (cost t (coord_of (xl_int_node l)) + 1)) by lia.
      eapply route_app; [|by apply Hrouter].
      destruct (route_link nodes net nv v ((switch_in (xl_ext_node l), router_switch (xl_int_node l)), mkLinkEntry (xl_link l) "" "") (mn_ok _ _ _ _ _ Hmn)) as [_ Hr];
        [apply (Hext l Hl); by left|done|]. simpl in Hr. by rewrite Hw, <-Hli in Hr.
    + right. split_and!; [|done|].
      * unfold total. rewrite (proj2 (Z.eqb_neq _ _)), (proj2 (Z.leb_gt _ _)) by lia. by rewrite Hf.
      * intros e [(l & Hl & _ & Heq & _)|[(l & Hl & -> & _)|(p & d & _ & Hp & Hm & -> & _)]]%mesh_link_cases.
        -- destruct (ext_facts l Hl) as (_ & _ & Hm & Hli & _). pose proof (id_of_range R C _ Hm). rewrite Hli in *. unfold router_switch in Heq. lia.
        -- destruct (ext_facts l Hl) as (_ & _ & Hm & Hli & _). pose proof (id_of_range R C _ Hm). rewrite Hli in *. unfold router_switch in Hlt. lia.
        -- pose proof (id_of_range R C _ Hp). unfold router_switch in Hlt. lia.
Qed.

(** The links that the tables of a created topology allow at a router. *)
Lemma mesh_may_take nv s made w v p next : config_ok (R * C) nv (net_ext_links net) (net_int_links net) -> built (R * C) nv links s ->
  topo_ok nv s -> link_weights nv s w -> making nv s w (fun _ _ => True) made -> in_range (Z.of_nat nv) v -> in_mesh R C p ->
  may_take nv links s made v (mach_type (xl_ext_node y)) (mach_num (xl_ext_node y)) (router p) next <->
  (p = t /\ next = T) \/ exists d, productive t p d /\ next = router (move d p).
Proof.
  intros Hc Hb Hok Hw Hmk Hv Hp. pose proof (mn_ok _ _ _ _ _ Hmn) as Hnet. destruct (ext_facts y Hy) as (Hym & _ & Ht & Hid & Hyw).
  pose proof (may_take_cost (R * C) nv (net_ext_links net) (net_int_links net) s made w Hc Hb Hok Hw Hmk v _ _ Hv Hym total total_bound total_target
    (fun a b e He _ => total_links a b e He) (fun a Ha => total_reach nv v a Hv Ha)) as Hcost.
  assert (forall b e, ((router p, b), e) ∈ links -> v ∈ vnets_of nv (le_link e)) as Hvn
    by (intros b e He; by destruct (route_link nodes net nv v _ Hnet He Hv)).
  split.
  - intros Htake. pose proof Htake as (e & _ & _ & He & _). apply (Hcost _ _ _ He (Hvn _ _ He)) in Htake.
    rewrite total_router in Htake by done. pose proof target_place as [HT _]. pose proof (cost_bound _ _ Ht Hp).
    apply mesh_link_cases in He as [(l & Hl & Ha & _)|[(l & Hl & Ha & -> & Hlw)|(p' & d & Hd & Hp' & Hm & Ha & -> & Hlw)]].
    + destruct (ext_facts l Hl) as (_ & Hsw & _). pose proof (id_of_range R C _ Hp). unfold router_switch in Ha. lia.
    + destruct (decide (switch_out (xl_ext_node l) = T)) as [Heq|Hne]; [|rewrite total_out in Htake by done; lia].
      rewrite !switch_out_in in Heq. assert (l = y) as -> by (apply ext_unique; [done..|lia]). left. split; [|done].
      apply (id_of_inj R C); [done|done|]. unfold router_switch in Ha. lia.
    + assert (p = p') as <- by (apply (id_of_inj R C); [done..|]; unfold router_switch in Ha; lia).
      right. exists d. split; [|done]. rewrite total_router, Hlw in Htake by done. apply cost_step; [done|lia].
  - intros [[-> ->]|(d & Hd & ->)].
    + assert (((router t, T), mkLinkEntry (xl_link y) "" "") ∈ links) as He.
      { unfold all_links. apply elem_of_app. left. apply list_elem_of_bind. exists y. split; [|done].
        unfold ext_pairs. rewrite Hid, switch_out_in. right. by left. }
      apply (Hcost _ _ _ He (Hvn _ _ He)). rewrite total_target, total_router, cost_self by done. simpl. lia.
    + destruct (productive_in_mesh _ _ _ Ht Hp Hd) as [Hdir Hm]. destruct (mn_complete _ _ _ _ _ Hmn p d Hdir Hp Hm) as (l & Hl & Hs & Hdst & Hlw).
      assert (((router p, router (move d p)), mkLinkEntry (il_link l) (il_src_outport l) (il_dst_inport l)) ∈ links) as He.
      { unfold all_links. apply elem_of_app. right. apply list_elem_of_fmap. exists l. split; [|done]. unfold int_pair. by rewrite Hs, Hdst. }
      apply (Hcost _ _ _ He (Hvn _ _ He)). rewrite !total_router by done. simpl. rewrite Hlw. apply (cost_step t p d Hdir) in Hd. lia.
Qed.

(** The weight of the link from a router. *)
Lemma out_weight p next e : in_mesh R C p -> ((router p, next), e) ∈ links ->
  (machines <= next < 2 * machines /\ bl_weight (le_link e) = 1) \/
  exists d, d ∈ mesh_dirs /\ next = router (move d p) /\ in_mesh R C (move d p) /\ bl_weight (le_link e) = wt d.
Proof.
  intros Hp [(l & Hl & Ha & _)|[(l & Hl & Ha & -> & Hlw)|(p' & d & Hd & Hp' & Hm & Ha & -> & Hlw)]]%mesh_link_cases.
  - destruct (ext_facts l Hl) as (_ & Hsw & _). pose proof (id_of_range R C _ Hp). unfold router_switch in Ha. lia.
  - left. destruct (ext_facts l Hl) as (_ & Hsw & _). rewrite switch_out_in. split; [lia|done].
  - assert (p = p') as <- by (apply (id_of_inj R C); [done..|]; unfold router_switch in Ha; lia). right. eauto.
Qed.

End target.

(** The tables allow the link, and no lighter one: the links from which
    [lookupRoutingTable] chooses. *)
Definition lightest (nv : nat) (ls : list ((Z * Z) * LinkEntry)) (s : Topology.t) (made : list Topology.MadeLink) (v m i src next : Z) : Prop :=
  may_take nv ls s made v m i src next /\
  forall other e e', may_take nv ls s made v m i src other -> ((src, next), e) ∈ ls -> ((src, other), e') ∈ ls -> bl_weight (le_link e) <= bl_weight (le_link e').

Lemma not_productive t d : ~ productive t t d.
Proof. unfold productive. lia. Qed.

Lemma mesh_lightest y nv s made w v p next : y ∈ net_ext_links net ->
  config_ok (R * C) nv (net_ext_links net) (net_int_links net) -> built (R * C) nv links s ->
  topo_ok nv s -> link_weights nv s w -> making nv s w (fun _ _ => True) made -> in_range (Z.of_nat nv) v -> in_mesh R C p ->
  let t := coord_of (xl_int_node y) in
  lightest nv links s made v (mach_type (xl_ext_node y)) (mach_num (xl_ext_node y)) (router p) next <->
  (p = t /\ next = switch_out (xl_ext_node y)) \/
  exists d, productive t p d /\ (forall d', productive t p d' -> wt d <= wt d') /\ next = router (move d p).
Proof.
  intros Hy Hc Hb Hok Hw Hmk Hv Hp t. destruct (ext_facts y Hy) as (_ & _ & Ht & _).
  pose proof (fun next => mesh_may_take y Hy nv s made w v p next Hc Hb Hok Hw Hmk Hv Hp) as Hmt'. fold t in Hmt', Ht.
  assert (forall d e, productive t p d -> ((router p, router (move d p)), e) ∈ links -> bl_weight (le_link e) = wt d) as Hweight.
  { intros d e Hd He. destruct (productive_in_mesh _ _ _ Ht Hp Hd) as [Hdir Hm]. pose proof (id_of_range R C _ Hm).
    apply out_weight in He as [[? _]|(d' & Hdir' & Heq & Hm' & ->)]; [unfold router_switch in *; lia| |done].
    rewrite (move_inj p d d'); [done..|]. apply (id_of_inj R C); [done..|]. unfold router_switch in Heq. lia. }
  unfold lightest. rewrite Hmt'. split.
  - intros [[?|(d & Hd & ->)] Hleast]; [by left|]. right. exists d. split; [done|]. split; [|done]. intros d' Hd'.
    destruct (proj2 (Hmt' _) (or_intror (ex_intro _ d (conj Hd eq_refl)))) as (e & _ & _ & He & _).
    pose proof (proj2 (Hmt' _) (or_intror (ex_intro _ d' (conj Hd' eq_refl)))) as Htake'. pose proof Htake' as (e' & _ & _ & He' & _).
    rewrite <-(Hweight d e Hd He), <-(Hweight d' e' Hd' He'). by eapply Hleast.
  - intros [[-> ->]|(d & Hd & Hleast & ->)].
    + split; [by left|]. intros other e e' [[_ ->]|(d & Hd & _)]%Hmt' He He'; [|by apply not_productive in Hd].
      assert (forall e, ((router t, switch_out (xl_ext_node y)), e) ∈ links -> bl_weight (le_link e) = 1) as Hone; [|by rewrite (Hone e), (Hone e')].
      intros e1 [[_ ?]|(d & _ & Heq & Hm & _)]%out_weight; [done| |done].
      destruct (target_place y Hy) as [HT _]. pose proof (id_of_range R C _ Hm). unfold router_switch in *. lia.
    + split; [by eauto|]. intros other e e' [[-> _]|(d' & Hd' & ->)]%Hmt' He He'; [by apply not_productive in Hd|].
      rewrite (Hweight d e Hd He), (Hweight d' e' Hd' He'). by apply Hleast.
Qed.

Lemma mesh_joined : joined net (2 * (R + C) - 4).
Proof.
  intros nv v r r' Hv Hr Hr'. rewrite (mn_routers _ _ _ _ _ Hmn) in Hr, Hr'.
  destruct (coord_of_mesh r Hr) as [Hm Hi], (coord_of_mesh r' Hr') as [Hm' Hi'].
  exists (cost (coord_of r') (coord_of r)). split; [by apply cost_bound|]. rewrite <-Hi at 1. rewrite <-Hi' at 1. by apply mesh_route.
Qed.

End mesh.

(** The scripts have what they check, and the mesh is small against the
    weight that stands for no link. *)
Record mesh_ready (options : Options) (R C : Z) (nodes : list Node) : Prop := {
  mr_rows : 0 < R;
  mr_columns : 0 < C;
  mr_size : 2 * (R + C) < INFINITE_LATENCY;
  mr_num_cpus : num_cpus options = R * C;
  mr_mesh_rows : mesh_rows options = R;
  mr_remainder : dma_remainder R C nodes;
  mr_nodes : nodes_ok nodes;
}.

Lemma xy_weight_bound d : 0 < xy_weight d <= 2.
Proof. unfold xy_weight. case_bool_decide; lia. Qed.
Lemma westfirst_weight_bound d : 0 < westfirst_weight d <= 2.
Proof. unfold westfirst_weight. case_bool_decide; lia. Qed.

Lemma Mesh_XY_net options R C nodes : mesh_ready options R C nodes -> exists net, Mesh_XY options nodes = Ok net /\ mesh_net xy_weight R C nodes net.
Proof.
  intros []. eapply make_mesh_net; try done; [apply mesh_links_gen|done|]. intros d. pose proof (xy_weight_bound d). unfold INFINITE_LATENCY. lia.
Qed.

Lemma Mesh_westfirst_net options R C nodes : mesh_ready options R C nodes -> exists net, Mesh_westfirst options nodes = Ok net /\ mesh_net westfirst_weight R C nodes net.
Proof.
  intros []. eapply make_mesh_net; try done; [apply westfirst_links_gen|done|]. intros d. pose proof (westfirst_weight_bound d). unfold INFINITE_LATENCY. lia.
Qed.

(** [Topology] runs to its end on the net, and the links of least weight that its tables allow at the routers are as [rule] says. *)
Definition routes_by (rule : coord -> coord -> PortDirection -> Prop) (R C : Z) (nv fuel : nat) (net : Net) : Prop :=
  exists s made, Topology.new (net_routers net) (Z.of_nat nv) (net_ext_links net) (net_int_links net) = Ok s /\ Topology.createLinks fuel s = Ok made /\
    forall v y p next, in_range (Z.of_nat nv) v -> y ∈ net_ext_links net -> in_mesh R C p ->
      let t := coord_of C (xl_int_node y) in
      lightest nv (all_links (net_ext_links net) (net_int_links net)) s made v (mach_type (xl_ext_node y)) (mach_num (xl_ext_node y))
        (router_switch (id_of C p)) next <->
      (p = t /\ next = switch_out (xl_ext_node y)) \/ exists d, rule p t d /\ next = router_switch (id_of C (move d p)).

Lemma mesh_routes wt rule options R C nodes nv net fuel : 1 < machines -> (0 < nv)%nat -> mesh_ready options R C nodes -> (config_fuel (R * C) <= fuel)%nat ->
  mesh_net wt R C nodes net -> (forall d, 0 < wt d <= 2) ->
  (forall p t d, productive t p d /\ (forall d', productive t p d' -> wt d <= wt d') <-> rule p t d) -> routes_by rule R C nv fuel net.
Proof.
  intros Hmach Hnv [HR HC Hsize _ _ _ Hnodes] Hfuel Hmn Hwt Hrule. pose proof (mn_routers _ _ _ _ _ Hmn) as Hr.
  pose proof (net_config nodes net nv Hmach Hnv Hnodes (mn_ok _ _ _ _ _ Hmn)) as Hc. rewrite Hr in Hc.
  destruct (create_spec _ _ _ _ fuel Hc Hfuel) as (s & made & w & D & Hnew & Hmade & Hb & Hok & Hw & _ & Hmk).
  exists s, made. rewrite Hr. split; [done|]. split; [done|]. intros v y p next Hv Hy Hp t.
  rewrite (mesh_lightest wt R C nodes net Hnodes Hmn Hwt HR HC Hsize y nv s made w v p next Hy Hc Hb Hok Hw Hmk Hv Hp). fold t.
  setoid_rewrite <-Hrule. naive_solver.
Qed.

(** C27: on the mesh of Mesh_XY.py the weights enforce dimension-order
    routing: the script succeeds, the controllers are attached as they come,
    the links and tables are made, and at every router the links of least
    weight that the tables allow for a machine are exactly the first hop of
    the XY path to the router of the machine, or the link to the machine when
    it is there. *)
Theorem Mesh_XY_enforces_XY options R C nodes nv fuel : 1 < machines -> (0 < nv)%nat -> mesh_ready options R C nodes ->
  (config_fuel (R * C) <= fuel)%nat ->
  exists net, Mesh_XY options nodes = Ok net /\ xl_ext_node <$> net_ext_links net = node_machine <$> nodes /\
    routes_by (fun p t d => p <> t /\ d = xy_dir p t) R C nv fuel net.
Proof.
  intros Hmach Hnv Hready Hfuel. destruct (Mesh_XY_net _ _ _ _ Hready) as (net & Hmk & Hmn). exists net. split; [done|].
  split; [apply (nt_ext _ _ (mn_ok _ _ _ _ _ Hmn))|]. eapply mesh_routes; try done; [apply xy_weight_bound|].
  intros [x y] [x' y'] d. unfold productive, xy_dir, xy_weight. simpl. split.
  - intros [Hd Hleast]. pose proof (Hleast "East") as HE. pose proof (Hleast "West") as HW. clear Hleast.
    destruct Hd as [[-> ?]|[[-> ?]|[[-> ?]|[-> ?]]]]; (split; [intros [= -> ->]; lia|]);
      destruct (Z.ltb_spec x x'), (Z.ltb_spec x' x); try lia; try done;
      try (destruct (Z.ltb_spec y y'); (done || lia)); repeat case_bool_decide; naive_solver lia.
  - intros [Hne ->]. destruct (Z.ltb_spec x x'), (Z.ltb_spec x' x); try lia; [split; [tauto|]|split; [tauto|]|].
    1, 2: intros d' _; repeat case_bool_decide; naive_solver lia.
    assert (x = x') as -> by lia. assert (y <> y') by congruence.
    destruct (Z.ltb_spec y y'); (split; [intuition lia|]); intros d' [[-> ?]|[[-> ?]|[[-> ?]|[-> ?]]]]; try lia.
Qed.

(** C28: on the mesh of Mesh_westfirst.py the weights enforce the west-first
    turn model: the links of least weight that the tables allow are those
    that bring the packet closer, but only the one to the west while the
    machine is to the west. *)
Theorem Mesh_westfirst_enforces_west_first options R C nodes nv fuel : 1 < machines -> (0 < nv)%nat -> mesh_ready options R C nodes ->
  (config_fuel (R * C) <= fuel)%nat ->
  exists net, Mesh_westfirst options nodes = Ok net /\ xl_ext_node <$> net_ext_links net = node_machine <$> nodes /\
    routes_by (fun p t d => productive t p d /\ (t.1 < p.1 -> d = "West")) R C nv fuel net.
Proof.
  intros Hmach Hnv Hready Hfuel. destruct (Mesh_westfirst_net _ _ _ _ Hready) as (net & Hmk & Hmn). exists net. split; [done|].
  split; [apply (nt_ext _ _ (mn_ok _ _ _ _ _ Hmn))|]. eapply mesh_routes; try done; [apply westfirst_weight_bound|].
  intros p t d. unfold westfirst_weight. split.
  - intros [Hd Hleast]. split; [done|]. intros Hw. specialize (Hleast "West" ltac:(unfold productive; tauto)).
    by repeat case_bool_decide.
  - intros [Hd Hw]. split; [done|]. intros d' Hd'. repeat case_bool_decide; try lia. subst d'.
    assert (t.1 < p.1) by (unfold productive in Hd'; naive_solver). naive_solver.
Qed.

(** ** Delivery on every network of the scripts *)

Lemma arrives_mono hop final k k' src : (k <= k')%nat -> arrives hop final k src -> arrives hop final k' src.
Proof.
  intros Hle Ha. revert k' Hle. induction Ha as [|k src Hsome _ IH]; intros k' Hle; [apply arrived|].
  destruct k' as [|k']; [lia|]. apply underway_hop; [done|]. intros next Hn. apply IH; [done|lia].
Qed.

Lemma config_fuel_mono a b : a <= b -> (config_fuel a <= config_fuel b)%nat.
Proof. intros Hle. unfold config_fuel. apply le_n_S, Nat.mul_le_mono_r, Nat.mul_le_mono; lia. Qed.

(** A script made a consistent network, [Topology] runs to its end on it,
    and a packet of any virtual network from any controller is at any other
    one after at most [bound] links, whichever links of the tables it takes. *)
Definition delivers (nodes : list Node) (nv fuel bound : nat) (made_net : res Net) : Prop :=
  exists net s made, made_net = Ok net /\
    config_ok (net_routers net) nv (net_ext_links net) (net_int_links net) /\
    Topology.new (net_routers net) (Z.of_nat nv) (net_ext_links net) (net_int_links net) = Ok s /\ Topology.createLinks fuel s = Ok made /\
    forall v x y, in_range (Z.of_nat nv) v -> x ∈ nodes -> y ∈ nodes ->
      arrives (may_take nv (all_links (net_ext_links net) (net_int_links net)) s made v (mach_type (node_machine y)) (mach_num (node_machine y)))
        (switch_out (node_machine y)) bound (switch_in (node_machine x)).

Lemma joined_delivers nodes net nv fuel B bound : 1 < machines -> (0 < nv)%nat -> nodes_ok nodes -> net_ok nodes net -> joined net B ->
  B + 2 <= Z.of_nat bound -> B + 2 < INFINITE_LATENCY -> (config_fuel (net_routers net) <= fuel)%nat -> delivers nodes nv fuel bound (Ok net).
Proof.
  intros Hmach Hnv Hnodes Hnet Hj Hbound Hinf Hfuel. pose proof (net_config nodes net nv Hmach Hnv Hnodes Hnet) as Hc.
  destruct (create_spec _ _ _ _ fuel Hc Hfuel) as (s & made & w & D & Hnew & Hmade & Hb & Hok & Hw & HD & Hmk).
  exists net, s, made. do 4 (split; [done|]). intros v x y Hv Hx Hy.
  destruct (joined_machines nodes net B nv v x y Hnet Hj Hv Hx Hy) as (c & Hcb & Hroute).
  assert (is_machine (node_machine y)) as Hym.
  { pose proof (nd_machines _ Hnodes) as Hm. rewrite list.Forall_forall in Hm. apply Hm, list_elem_of_fmap. eauto. }
  apply (arrives_mono _ _ (Z.to_nat c)); [lia|]. eapply created_arrive; try done. lia.
Qed.

(** C29: every topology script connects all controllers: on the controllers
    of a system it succeeds with a consistent configuration, [Topology] makes
    its links and tables, and every packet reaches the machine it is for,
    whichever of the allowed links the routers take, in a number of hops
    linear in the sides of the mesh. *)
Theorem scripts_deliver options R C nodes nv fuel : 1 < machines -> (0 < nv)%nat -> mesh_ready options R C nodes ->
  (config_fuel (R * C + zlength nodes + 1) <= fuel)%nat ->
  Forall (delivers nodes nv fuel (Z.to_nat (2 * (R + C))))
    [Mesh_XY options nodes; Mesh_westfirst options nodes; Ok (Pt2Pt options nodes); Ok (Crossbar options nodes); Ok (CrossbarGarnet nodes)].
Proof.
  intros Hmach Hnv Hready Hfuel. pose proof Hready as [HR HC Hsize _ _ _ Hnodes].
  assert (forall nr, nr <= R * C + zlength nodes + 1 -> (config_fuel nr <= fuel)%nat) as Hf
    by (intros nr Hnr; pose proof (config_fuel_mono _ _ Hnr); lia).
  assert (0 <= zlength nodes) by (unfold zlength; lia).
  assert (forall wt net, (forall d, 0 < wt d <= 2) -> mesh_net wt R C nodes net -> delivers nodes nv fuel (Z.to_nat (2 * (R + C))) (Ok net)) as Hmesh.
  { intros wt net Hwt Hmn. eapply joined_delivers; try done; [apply (mn_ok _ _ _ _ _ Hmn)|by eapply mesh_joined|lia|lia|].
    apply Hf. rewrite (mn_routers _ _ _ _ _ Hmn). lia. }
  assert (forall net B, net_ok nodes net /\ joined net B -> B <= 2 -> net_routers net <= zlength nodes + 1 ->
    delivers nodes nv fuel (Z.to_nat (2 * (R + C))) (Ok net)) as Hother.
  { intros net B [Hnet Hj] HB Hr. eapply joined_delivers; try done; [lia| |apply Hf; lia]. unfold INFINITE_LATENCY in *. lia. }
  destruct (Mesh_XY_net _ _ _ _ Hready) as (net & -> & Hmn), (Mesh_westfirst_net _ _ _ _ Hready) as (net' & -> & Hmn').
  repeat apply list.Forall_cons_2; [| | | | |constructor].
  - by eapply Hmesh; [apply xy_weight_bound|].
  - by eapply Hmesh; [apply westfirst_weight_bound|].
  - eapply Hother; [apply Pt2Pt_ok|lia|simpl; lia].
  - eapply Hother; [apply Crossbar_ok|lia|simpl; lia].
  - eapply Hother; [apply CrossbarGarnet_ok|lia|simpl; lia].
Qed.

End tables.

(** ** A mesh of two rows *)

(** Two caches, two directories and a DMA controller. *)
Definition five_machines : MachineTypes :=
  {| MachineType_NUM := 3; MachineType_base_level := fun m => m; MachineType_base_count := fun m => if m =? 2 then 1 else 2;
     MachineType_base_number := fun m => if m <=? 2 then 2 * m else 5; NUMBER_BITS_PER_SET := 64 |}.
Definition five_nodes : list Node :=
  [mkNode "L1Cache_Controller" (mkMachineID 0 0); mkNode "L1Cache_Controller" (mkMachineID 0 1);
   mkNode "Directory_Controller" (mkMachineID 1 0); mkNode "Directory_Controller" (mkMachineID 1 1);
   mkNode "DMA_Controller" (mkMachineID 2 0)].
Definition two_rows : Options := mkOptions 4 2 1.

Lemma five_machines_ok : @MachineTypesOk five_machines.
Proof.
  split; simpl; try lia; try (intros m; destruct (m =? 2); lia).
  intros m Hm. assert (m = 0 \/ m = 1 \/ m = 2) as [->|[->| ->]] by lia; done.
Qed.

Lemma five_nodes_ready : @mesh_ready five_machines two_rows 2 2 five_nodes.
Proof.
  split; [done..| |].
  - unfold dma_remainder. vm_compute. by repeat constructor.
  - split; [|unfold machine; simpl; repeat constructor; simpl; lia|done]. apply (bool_decide_unpack _). by vm_compute.
Qed.

(** The packet of cache 0, at router 0, for directory 1, at router 3, goes
    east to router 1. *)
Lemma Mesh_XY_enforces_XY_witness : exists net s made, Mesh_XY two_rows five_nodes = Ok net /\
  @Topology.createLinks five_machines (@config_fuel five_machines 4) s = Ok made /\
  @lightest 2 (@all_links five_machines (net_ext_links net) (net_int_links net)) s made 0 1 1 (@router_switch five_machines 0) (@router_switch five_machines 1).
Proof.
  destruct (@Mesh_XY_enforces_XY five_machines five_machines_ok two_rows 2 2 five_nodes 2 (@config_fuel five_machines 4)
    ltac:(by vm_compute) ltac:(lia) five_nodes_ready (le_n _)) as (net & Hnet & _ & s & made & _ & Hmade & Hrule).
  exists net, s, made. split; [exact Hnet|]. split; [exact Hmade|].
  assert (net_ext_links net !! 3%nat = Some (mkExtLink (basic_link 3 1 1) (mkMachineID 1 1) 3)) as Hy
    by (vm_compute in Hnet; by injection Hnet as <-).
  apply (proj2 (Hrule 0 _ (0, 0) (@router_switch five_machines 1) ltac:(done) (list_elem_of_lookup_2 _ _ _ Hy) ltac:(done))).
  right. exists "East". by vm_compute.
Defined.

(** Under the west-first weights the packet of the DMA controller, at router
    0, for directory 1 may go east or north. *)
Lemma Mesh_westfirst_enforces_west_first_witness : exists net s made, Mesh_westfirst two_rows five_nodes = Ok net /\
  @Topology.createLinks five_machines (@config_fuel five_machines 4) s = Ok made /\
  forall next, next = @router_switch five_machines 1 \/ next = @router_switch five_machines 2 ->
  @lightest 2 (@all_links five_machines (net_ext_links net) (net_int_links net)) s made 0 1 1 (@router_switch five_machines 0) next.
Proof.
  destruct (@Mesh_westfirst_enforces_west_first five_machines five_machines_ok two_rows 2 2 five_nodes 2 (@config_fuel five_machines 4)
    ltac:(by vm_compute) ltac:(lia) five_nodes_ready (le_n _)) as (net & Hnet & _ & s & made & _ & Hmade & Hrule).
  exists net, s, made. split; [exact Hnet|]. split; [exact Hmade|]. intros next Hnext.
  assert (net_ext_links net !! 3%nat = Some (mkExtLink (basic_link 3 1 1) (mkMachineID 1 1) 3)) as Hy
    by (vm_compute in Hnet; by injection Hnet as <-).
  apply (proj2 (Hrule 0 _ (0, 0) next ltac:(done) (list_elem_of_lookup_2 _ _ _ Hy) ltac:(done))).
  right. destruct Hnext as [->| ->]; [exists "East"|exists "North"]; (split; [|done]); (split; [vm_compute; naive_solver|by vm_compute]).
Defined.

Lemma scripts_deliver_witness : Forall (@delivers five_machines five_nodes 2 (@config_fuel five_machines 10) 8)
  [Mesh_XY two_rows five_nodes; Mesh_westfirst two_rows five_nodes; Ok (Pt2Pt two_rows five_nodes); Ok (Crossbar two_rows five_nodes);
   Ok (CrossbarGarnet five_nodes)].
Proof.
  apply (@scripts_deliver five_machines five_machines_ok two_rows 2 2 five_nodes 2 (@config_fuel five_machines 10)
    ltac:(by vm_compute) ltac:(lia) five_nodes_ready (le_n _)).
Defined.
