(* ===== verification/AddrRange.v ===== *)
(** * AddrRange: ranges of addresses

    base/addr_range.hh.  A range is an interval of addresses, from which
    interleaving takes the ones whose selected bits match a value: each mask
    gives one bit, the parity of the bits that it selects.  Addresses have 64
    bits, the match value 8.  Printing is left out. *)

From stdpp Require Import list.
From S2P Require Import Prelude Bitfield Heap.

Definition MaxAddr : Z := 2 ^ 64 - 1.
Definition u8 (z : Z) : Z := z mod 2 ^ 8.

(** [1 << n], an [int]. *)
Definition int_bit (n : Z) : res Z := if (0 <=? n) && (n <? 32) then Ok (i32 (Z.shiftl 1 n)) else Err Undefined.

Definition fatal_if (b : bool) : res unit := if b then Err FatalCalled else Ok tt.

Module AddrRange.

Record t := mk { _start : Z; _end : Z; masks : list Z; intlvMatch : Z }.
#[global] Instance t_eq_dec : EqDecision t.
Proof. solve_decision. Defined.

(** ** Construction *)

Definition empty : t := mk 1 0 [] 0.
Definition interval (start end_ : Z) : t := mk start end_ [] 0.

Definition check_match (intlv_match num_bits : Z) : res unit :=
  if num_bits =? 0 then Ok tt else n ← shl64 1 num_bits; fatal_if (n <=? intlv_match).

Definition new_masks (start end_ : Z) (ms : list Z) (intlv_match : Z) : res t :=
  _ ← check_match intlv_match (zlength ms);
  Ok (mk start end_ ms intlv_match).

Definition legacy_mask (intlv_high_bit xor_high_bit i : Z) : res Z :=
  mask ← shl64 1 (u8 (intlv_high_bit - i));
  if xor_high_bit =? 0 then Ok mask else m ← shl64 1 (u8 (xor_high_bit - i)); Ok (Z.lor mask m).

(** The legacy constructor, from the highest of the bits. *)
Definition new_bits (start end_ intlv_high_bit xor_high_bit intlv_bits intlv_match : Z) : res t :=
  _ ← check_match intlv_match intlv_bits;
  _ ← fatal_if (negb (intlv_bits =? 0) && negb (xor_high_bit =? 0) &&
        (if xor_high_bit =? intlv_high_bit then true
         else if intlv_high_bit <? xor_high_bit then xor_high_bit - intlv_high_bit <? intlv_bits
         else intlv_high_bit - xor_high_bit <? intlv_bits));
  ms ← for_ (Z.to_nat intlv_bits) 0 (fun i ms => m ← legacy_mask intlv_high_bit xor_high_bit i; vset ms (intlv_bits - i - 1) m)
         (replicate (Z.to_nat intlv_bits) 0);
  Ok (mk start end_ ms intlv_match).

Definition mergesWith (r self : t) : bool :=
  (_start r =? _start self) && (_end r =? _end self) && bool_decide (masks r = masks self).

(** All the stripes of an interval, in order, make the interval. *)
Definition merge (ranges : list t) : res t :=
  let self := match ranges with [] => empty | r :: _ => r end in
  if 1 <? zlength ranges then
    n ← shl64 1 (zlength (masks self));
    _ ← fatal_if (negb (zlength ranges =? n));
    _ ← for_each ranges (fun it match_ =>
          _ ← fatal_if (negb (mergesWith it self));
          _ ← fatal_if (negb (intlvMatch it =? match_));
          Ok (u8 (match_ + 1))) 0;
    Ok (interval (_start self) (_end self))
  else Ok self.

Definition RangeEx (start end_ : Z) : t := interval start end_.
Definition RangeIn (start end_ : Z) : t := interval start (u64 (end_ + 1)).
Definition RangeSize (start size : Z) : t := interval start (u64 (start + size)).

(** ** Properties *)

Definition interleaved (r : t) : bool := 0 <? zlength (masks r).
Definition stripes (r : t) : res Z := n ← shl64 1 (zlength (masks r)); Ok (u32 n).
Definition size (r : t) : res Z := shr64 (u64 (_end r - _start r)) (zlength (masks r)).
Definition valid (r : t) : bool := _start r <=? _end r.

(** The masks are collected in an [int]. *)
Definition granularity (r : t) : res Z :=
  if interleaved r then shl64 1 (ctz64 (u64 (foldl (fun combined_mask mask => i32 (Z.lor (u64 combined_mask) mask)) 0 (masks r))))
  else size r.

(** [sel]; its highest bit would be the sign of an [int], which no match value has. *)
Definition select (a : Z) (ms : list Z) : res Z :=
  '(sel, _) ← for_each ms (fun mask '(sel, i) =>
    if i <? 32 then Ok (Z.lor sel (Z.shiftl (popCount (Z.land a mask) mod 2) i), i + 1) else Err Undefined) (0, 0);
  Ok sel.

Definition contains (a : Z) (r : t) : res bool :=
  if (_start r <=? a) && (a <? _end r) then sel ← select a (masks r); Ok (sel =? intlvMatch r) else Ok false.

Definition intersects (r self : t) : res bool :=
  if (_end r <=? _start self) || (_end self <=? _start r) then Ok false
  else if negb (interleaved self) && negb (interleaved r) then Ok true
  else
    n ← size r;
    if n =? 1 then contains (_start r) self
    else if mergesWith r self then Ok (intlvMatch self =? intlvMatch r)
    else Err PanicCalled.

Definition isSubset (r self : t) : res bool :=
  if interleaved self then Err PanicCalled
  else if interleaved r then
    first ← contains (_start self) r;
    if negb first then Ok false
    else
      last ← contains (u64 (_end self - 1)) r;
      if negb last then Ok false else n ← size self; g ← granularity r; Ok (n <=? g)
  else Ok ((_start r <=? _start self) && (_end self <=? _end r)).

(** ** Interleaving bits *)

Section sort.
Context `{!StdSort Z Z.ltb}.

Definition masks_lsb (r : t) : list Z := std_sort Z.ltb (ctz64 <$> masks r).

Definition remove_bit (intlv_bit : Z) (s : Z * Z) : res (Z * Z) :=
  let '(a, i) := s in
  if 0 <? intlv_bit then a' ← insertBits (Z.shiftr a 1) (u32 (intlv_bit - i - 1)) 0 a; Ok (a', i + 1)
  else Ok (Z.shiftr a 1, i + 1).

Definition removeIntlvBits (a : Z) (r : t) : res Z :=
  if negb (interleaved r) then Ok a else '(a, _) ← for_each (masks_lsb r) remove_bit (a, 0); Ok a.

Definition add_bit (intlv_bit a : Z) : res Z :=
  if 0 <? intlv_bit then insertBits (u64 (Z.shiftl a 1)) (u32 (intlv_bit - 1)) 0 a else Ok (u64 (Z.shiftl a 1)).

(** The lowest bit of a mask, from the others and the match value, which is
    shifted as an [int]; the complement of [1 << lsb] is an [int] as well. *)
Definition match_bit (intlv_match : Z) (mask : Z) (s : Z * Z) : res (Z * Z) :=
  let '(a, i) := s in
  let lsb := ctz64 mask in
  intlv_bit ← (if i <? 32 then bits intlv_match i i else Err Undefined);
  one ← int_bit lsb;
  let masked := Z.land (Z.land a mask) (u64 (Z.lnot one)) in
  a ← insertBits a lsb lsb (Z.lxor intlv_bit (popCount masked));
  Ok (a, i + 1).

Definition addIntlvBits (a : Z) (r : t) : res Z :=
  if negb (interleaved r) then Ok a
  else
    a ← for_each (masks_lsb r) add_bit a;
    '(a, _) ← for_each (masks r) (match_bit (intlvMatch r)) (a, 0);
    Ok a.

Definition getOffset (a : Z) (r : t) : res Z :=
  if negb ((_start r <=? a) && (a <? _end r)) then Ok MaxAddr
  else if interleaved r then x ← removeIntlvBits a r; s ← removeIntlvBits (_start r) r; Ok (u64 (x - s))
  else Ok (u64 (a - _start r)).

End sort.

(** ** Comparison and differences *)

Definition lt (self r : t) : bool :=
  if negb (_start self =? _start r) then _start self <? _start r
  else if interleaved self && interleaved r then intlvMatch self <? intlvMatch r
  else interleaved self.

Definition eq (self r : t) : bool := bool_decide (self = r).

Section exclude.
Context `{!StdSort t lt}.

Fixpoint exclude_loop (self : t) (sorted_ranges : list t) (next_start : Z) (ranges : list t) : res (list t) :=
  match sorted_ranges with
  | [] => Ok (if next_start <? _end self then ranges ++ [interval next_start (_end self)] else ranges)
  | e :: rest =>
      _ ← assert (negb (interleaved e));
      hit ← intersects e self;
      if negb hit then exclude_loop self rest next_start ranges
      else if _start e <=? next_start then
        if _end e <? _end self then exclude_loop self rest (if next_start <? _end e then _end e else next_start) ranges
        else Ok ranges
      else
        let ranges := ranges ++ [interval next_start (_start e)] in
        if _end e <? _end self then exclude_loop self rest (_end e) ranges else Ok ranges
  end.

Definition exclude (exclude_ranges : list t) (self : t) : res (list t) :=
  _ ← assert (negb (interleaved self));
  exclude_loop self (std_sort lt exclude_ranges) (_start self) [].

(** From a list of ranges. *)
Definition exclude_all (base to_exclude : list t) : res (list t) :=
  let to_exclude := std_sort lt to_exclude in
  for_each base (fun range ret => l ← exclude to_exclude range; Ok (ret ++ l)) [].

End exclude.

End AddrRange.
