(* ===== verification/AddrRangeProofs.v ===== *)
(** * AddrRangeProofs: interleaved ranges, and differences of ranges

    Interleaving divides an interval into stripes.  Within a stripe, taking
    the interleaving bits out of an address and putting them back are inverse
    to each other, and offsets number the addresses without gaps.  The ranges
    that the constructors make are stripes, the stripes of an interval divide
    it and merge into it again, and [exclude] computes the difference of sets
    of addresses. *)

From Stdlib Require Import Sorted.
From stdpp Require Import list sorting.
From S2P Require Import Prelude Bitfield BitfieldProofs Heap AddrRange.
Import AddrRange.

(** ** Positions *)

(** The position of bit [j] when bits are put in at the positions of [P],
    in increasing order. *)
Definition up (P : list Z) (j : Z) : Z := foldl (fun j l => if l <=? j then j + 1 else j) j P.

Lemma up_snoc P l j : up (P ++ [l]) j = let u := up P j in if l <=? u then u + 1 else u.
Proof. unfold up. by rewrite foldl_app. Qed.

(** Below [l] there are as many positions as [P] leaves free; above they follow each other. *)
Lemma up_split P l j : StronglySorted Z.lt P -> Forall (fun p => 0 <= p < l) P -> 0 <= j ->
  (l - zlength P <= j -> up P j = j + zlength P) /\ (j < l - zlength P -> j <= up P j < l).
Proof.
  revert l. induction P as [|q P IH] using rev_ind; intros l Hs Hf Hj; [unfold zlength; simpl; lia|].
  apply StronglySorted_app in Hs as (Hs1 & Hs2 & _). apply list.Forall_app in Hf as [Hf1 [Hq _]%list.Forall_cons].
  simpl in Hq. destruct (IH q Hs2) as [Hhigh Hlow]; [|done|].
  { rewrite list.Forall_forall in Hf1. apply list.Forall_forall. intros p Hp. split; [by apply Hf1|]. apply Hs1; [done|by left]. }
  rewrite up_snoc. unfold zlength in *. rewrite length_app. simpl. cbv zeta. split; intros Hcase.
  - rewrite Hhigh by lia. rewrite (proj2 (Z.leb_le _ _)) by lia. lia.
  - destruct (Z.le_gt_cases (q - Z.of_nat (length P)) j) as [Hge|Hlt].
    + rewrite Hhigh by done. rewrite (proj2 (Z.leb_le _ _)) by lia. lia.
    + specialize (Hlow Hlt). rewrite (proj2 (Z.leb_gt _ _)) by lia. lia.
Qed.

Lemma sorted_count P l : StronglySorted Z.lt P -> Forall (fun p => 0 <= p < l) P -> 0 <= l -> zlength P <= l.
Proof.
  revert l. induction P as [|q P IH] using rev_ind; intros l Hs Hf Hl; [done|].
  apply StronglySorted_app in Hs as (Hs1 & Hs2 & _). apply list.Forall_app in Hf as [Hf1 [Hq _]%list.Forall_cons].
  unfold zlength in *. rewrite length_app. simpl. assert (Z.of_nat (length P) <= q); [|lia]. apply IH; [done| |lia].
  rewrite list.Forall_forall in Hf1. apply list.Forall_forall. intros p Hp. split; [by apply Hf1|]. apply Hs1; [done|by left].
Qed.

Lemma up_bound P j : j <= up P j <= j + zlength P.
Proof.
  induction P as [|q P IH] using rev_ind; [unfold zlength; simpl; lia|]. rewrite up_snoc. unfold zlength in *. rewrite length_app. simpl. cbv zeta.
  destruct (q <=? up P j); lia.
Qed.

(** Every position that is not in [P] is the position of a bit, and no other one is. *)
Lemma up_onto P p : StronglySorted Z.lt P -> Forall (fun p => 0 <= p) P -> 0 <= p -> p ∉ P -> exists j, 0 <= j /\ up P j = p.
Proof.
  revert p. induction P as [|q P IH] using rev_ind; intros p Hs Hf Hp Hn; [by exists p|].
  apply StronglySorted_app in Hs as (Hs1 & Hs2 & _). apply list.Forall_app in Hf as [Hf1 [Hq _]%list.Forall_cons]. rewrite not_elem_of_app, list_elem_of_singleton in Hn. destruct Hn as [Hn Hne].
  destruct (Z.lt_ge_cases p q).
  - destruct (IH p Hs2 Hf1 Hp Hn) as (j & Hj & Hu). exists j. split; [done|]. rewrite up_snoc, Hu. cbv zeta. by rewrite (proj2 (Z.leb_gt _ _)) by lia.
  - destruct (IH (p - 1) Hs2 Hf1) as (j & Hj & Hu); [lia| |].
    + intros Hin. assert (p - 1 < q) by (apply Hs1; [done|by left]). lia.
    + exists j. split; [done|]. rewrite up_snoc, Hu. cbv zeta. rewrite (proj2 (Z.leb_le _ _)) by lia. lia.
Qed.

Lemma up_avoids P j : StronglySorted Z.lt P -> up P j ∉ P.
Proof.
  induction P as [|q P IH] using rev_ind; intros Hs; [apply not_elem_of_nil|]. apply StronglySorted_app in Hs as (Hs1 & Hs2 & _).
  rewrite up_snoc. cbv zeta. rewrite not_elem_of_app, list_elem_of_singleton. destruct (Z.leb_spec q (up P j)) as [Hle|Hgt].
  - split; [|lia]. intros Hin. assert (up P j + 1 < q) by (apply Hs1; [done|by left]). lia.
  - split; [by apply IH|lia].
Qed.

Lemma up_inj P j k : up P j = up P k -> j = k.
Proof.
  revert j k. induction P as [|q P IH] using rev_ind; intros j k; [done|]. rewrite !up_snoc. cbv zeta. intros Heq. apply IH.
  destruct (Z.leb_spec q (up P j)), (Z.leb_spec q (up P k)); lia.
Qed.

(** ** Good masks *)

(** The bits that are left out when the masks are taken away belong to one mask each. *)
Record masks_ok (ms : list Z) : Prop := {
  mo_some : ms <> [];
  mo_few : zlength ms <= 32;
  mo_word : Forall (fun m => 0 < m < 2 ^ 64) ms;
  mo_own : forall i j m m', ms !! i = Some m -> ms !! j = Some m' -> i <> j -> Z.testbit m' (ctz64 m) = false;
}.

Section stripes.
Context `{!StdSort Z Z.ltb} `{!StdSortOk Z Z.ltb}.

Section masks.
Context (ms : list Z) (Hms : masks_ok ms).
Notation L := (std_sort Z.ltb (ctz64 <$> ms)).

Lemma lsb_facts m : m ∈ ms -> is_lsb m (ctz64 m) /\ 0 <= ctz64 m < 64.
Proof.
  intros Hm. pose proof (mo_word _ Hms) as Hw. rewrite list.Forall_forall in Hw. specialize (Hw m Hm). simpl in Hw.
  assert (is_lsb m (ctz64 m)) as Hl by (apply ctz64_lsb; lia). split; [done|]. destruct Hl as (H0 & Hb & _). split; [done|].
  apply Z.nle_gt. intros Hge. assert (word m) as [_ Hi]%word_bits by (unfold word; lia). by rewrite Hi in Hb.
Qed.

Lemma lsb_sorted : StronglySorted Z.lt L /\ Forall (fun l => 0 <= l < 64) L /\ zlength L = zlength ms.
Proof.
  pose proof (sort_perm (ctz64 <$> ms)) as Hp. split_and!.
  - assert (NoDup L) as Hnd.
    { rewrite Hp. apply NoDup_alt. intros i j l Hi Hj. rewrite list_lookup_fmap in Hi, Hj.
      apply fmap_Some in Hi as (m & Hi & ->), Hj as (m' & Hj & Heq). destruct (decide (i = j)) as [|Hne]; [done|]. exfalso.
      pose proof (mo_own _ Hms i j m m' Hi Hj Hne) as Hf. rewrite Heq in Hf.
      apply list_elem_of_lookup_2, lsb_facts in Hj as [(_ & Ht & _) _]. congruence. }
    pose proof (sort_sorted (ctz64 <$> ms)) as Hs. revert Hnd Hs. generalize L. clear. intros l Hnd Hs.
    induction Hs as [|x l Hs IH Hf]; constructor; apply list.NoDup_cons in Hnd as [Hn Hnd]; [by apply IH|].
    rewrite list.Forall_forall in Hf. apply list.Forall_forall. intros y Hy. specialize (Hf y Hy). simpl in Hf.
    assert (x <> y) by (by intros ->). lia.
  - rewrite Hp. apply list.Forall_forall. intros l (m & -> & Hm)%list_elem_of_fmap. by apply lsb_facts.
  - unfold zlength. f_equal. rewrite (Permutation_length Hp). apply length_fmap.
Qed.

Lemma lsb_elem l : l ∈ L <-> exists m, m ∈ ms /\ l = ctz64 m.
Proof. rewrite (sort_perm (ctz64 <$> ms)), list_elem_of_fmap. naive_solver. Qed.

Lemma mask_is_word m : m ∈ ms -> word m.
Proof. intros Hm. pose proof (mo_word _ Hms) as Hw. rewrite list.Forall_forall in Hw. specialize (Hw m Hm). unfold word. simpl in Hw. lia. Qed.

(** *** Removing *)

Lemma remove_bit_ok l x i : word x -> 0 <= i <= l -> l < 64 -> exists r, remove_bit l (x, i) = Ok (r, i + 1) /\ word r /\
  forall j, 0 <= j < 64 -> Z.testbit r j = if j <? l - i then Z.testbit x j else Z.testbit x (j + 1).
Proof.
  intros Hx Hi Hl. assert (word (Z.shiftr x 1)) as Hw by (by apply word_shiftr). unfold remove_bit. destruct (Z.ltb_spec 0 l).
  - destruct (insertBits_spec (Z.shiftr x 1) (l - i - 1) 0 x Hw) as (r & -> & Hr & Hbits); [lia|lia|apply u32_bound|unfold word in Hx; lia|].
    simpl. exists r. split; [done|]. split; [done|]. intros j Hj. rewrite Hbits by done. rewrite Z.sub_0_r, Z.shiftr_spec by lia.
    destruct (Z.leb_spec 0 j), (Z.leb_spec j (l - i - 1)), (Z.ltb_spec j (l - i)); simpl; lia || done.
  - exists (Z.shiftr x 1). split; [done|]. split; [done|]. intros j Hj. rewrite (proj2 (Z.ltb_ge _ _)) by lia. by rewrite Z.shiftr_spec by lia.
Qed.

(** The part of a sorted list before an element. *)
Lemma sorted_before P l post : StronglySorted Z.lt (P ++ l :: post) -> Forall (fun l => 0 <= l < 64) (P ++ l :: post) ->
  StronglySorted Z.lt P /\ Forall (fun p => 0 <= p < l) P /\ zlength P <= l < 64.
Proof.
  intros (Hpl & Hs & _)%StronglySorted_app [Hf [Hl _]%list.Forall_cons]%list.Forall_app. split; [done|].
  assert (Forall (fun p => 0 <= p < l) P) as HfP.
  { rewrite list.Forall_forall in Hf. apply list.Forall_forall. intros p Hp. split; [by apply Hf|]. apply Hpl; [done|by left]. }
  split; [done|]. split; [|lia]. apply sorted_count; [done|done|lia].
Qed.

Lemma remove_ok a : word a -> exists x, for_each L remove_bit (a, 0) = Ok (x, zlength ms) /\ word x /\
  forall j, 0 <= j -> Z.testbit x j = Z.testbit a (up L j).
Proof.
  intros Ha. destruct lsb_sorted as (Hs & Hf & Hlen).
  edestruct (safe_inv (for_each L remove_bit (a, 0)) (fun '(x, i) => i = zlength L /\ word x /\ forall j, 0 <= j -> Z.testbit x j = Z.testbit a (up L j)))
    as ([x i] & -> & -> & Hw & Hx); [|by exists x; rewrite Hlen].
  apply (safe_for_each (fun P '(x, i) => i = zlength P /\ word x /\ forall j, 0 <= j -> Z.testbit x j = Z.testbit a (up P j))); [done|].
  intros P l post [x i] Heq (-> & Hw & Hx). rewrite Heq in Hs, Hf. destruct (sorted_before P l post Hs Hf) as (HsP & HfP & Hl). clear Heq.
  destruct (remove_bit_ok l x (zlength P) Hw) as (r & -> & Hr & Hbits); [pose proof (zlength_nonneg P); lia|lia|]. simpl.
  split; [unfold zlength; rewrite length_app; simpl; lia|]. split; [done|]. intros j Hj. rewrite up_snoc. cbv zeta.
  destruct (Z.lt_ge_cases j 64) as [Hj64|Hge].
  - rewrite Hbits by lia. destruct (up_split P l j HsP HfP Hj) as [Hhigh Hlow]. destruct (Z.ltb_spec j (l - zlength P)).
    + rewrite Hx by lia. by rewrite (proj2 (Z.leb_gt _ _)) by lia.
    + rewrite Hx by lia. destruct (up_split P l (j + 1) HsP HfP ltac:(lia)) as [Hhigh' _]. rewrite Hhigh, Hhigh' by lia.
      rewrite (proj2 (Z.leb_le _ _)) by lia. f_equal. lia.
  - apply word_bits in Hr as [_ Hr], Ha as [_ Ha]. rewrite Hr by lia. pose proof (up_bound P j). symmetry. apply Ha. destruct (l <=? up P j); lia.
Qed.

(** *** Adding *)

Lemma add_bit_ok l x : word x -> 0 <= l < 64 -> exists r, add_bit l x = Ok r /\ word r /\
  forall j, 0 <= j < 64 -> j <> l -> Z.testbit r j = Z.testbit x (if j <? l then j else j - 1).
Proof.
  intros Hx Hl. pose proof (u64_word (Z.shiftl x 1)) as Hw. unfold add_bit. destruct (Z.ltb_spec 0 l).
  - destruct (insertBits_spec (u64 (Z.shiftl x 1)) (l - 1) 0 x Hw) as (r & -> & Hr & Hbits); [lia|lia|apply u32_bound|unfold word in Hx; lia|].
    exists r. split; [done|]. split; [done|]. intros j Hj Hne. rewrite Hbits by done. rewrite Z.sub_0_r, u64_testbit, Z.shiftl_spec by lia.
    destruct (Z.leb_spec 0 j), (Z.leb_spec j (l - 1)), (Z.ltb_spec j l), (Z.ltb_spec j 64); simpl; lia || done.
  - eexists. split; [done|]. split; [done|]. intros j Hj Hne. rewrite u64_testbit, Z.shiftl_spec by lia.
    by rewrite (proj2 (Z.ltb_lt j 64)), (proj2 (Z.ltb_ge j l)) by lia.
Qed.

Lemma add_ok x : word x -> exists c, for_each L add_bit x = Ok c /\ word c /\
  forall j, 0 <= j -> up L j < 64 -> Z.testbit c (up L j) = Z.testbit x j.
Proof.
  intros Hx. destruct lsb_sorted as (Hs & Hf & _).
  apply safe_inv, (safe_for_each (fun P c => word c /\ forall j, 0 <= j -> up P j < 64 -> Z.testbit c (up P j) = Z.testbit x j)); [done|].
  intros P l post c Heq [Hc Hbits]. rewrite Heq in Hs, Hf. destruct (sorted_before P l post Hs Hf) as (HsP & HfP & Hl). clear Heq.
  pose proof (zlength_nonneg P). destruct (add_bit_ok l c Hc ltac:(lia)) as (r & -> & Hr & Hrb). simpl. split; [done|].
  intros j Hj. rewrite up_snoc. cbv zeta. pose proof (up_bound P j). destruct (Z.leb_spec l (up P j)); intros Hlt.
  - rewrite Hrb by lia. rewrite (proj2 (Z.ltb_ge _ _)) by lia. replace (up P j + 1 - 1) with (up P j) by lia. apply Hbits; lia.
  - rewrite Hrb by lia. rewrite (proj2 (Z.ltb_lt _ _)) by lia. apply Hbits; lia.
Qed.

(** *** Matching *)

Definition clear_bit (p x : Z) : Z := Z.land x (u64 (Z.lnot (2 ^ p))).

Lemma clear_bit_testbit p x i : 0 <= p -> 0 <= i < 64 -> Z.testbit (clear_bit p x) i = Z.testbit x i && negb (i =? p).
Proof.
  intros Hp Hi. unfold clear_bit. rewrite Z.land_spec, u64_testbit, Z.lnot_spec, Z.pow2_bits_eqb by lia.
  by rewrite (proj2 (Z.ltb_lt i 64)), (Z.eqb_sym p i) by lia.
Qed.

Lemma clear_bit_word p x : word x -> word (clear_bit p x).
Proof. intros Hx. apply word_land_l; [done|]. apply u64_word. Qed.

Lemma parity_bit x p : word x -> 0 <= p < 64 -> parity x = xorb (Z.testbit x p) (parity (clear_bit p x)).
Proof.
  intros Hx Hp. pose proof (clear_bit_word p x Hx) as Hc. destruct (Z.testbit x p) eqn:E.
  - assert (x = Z.lxor (2 ^ p) (clear_bit p x)) as Heq.
    { assert (word (2 ^ p)) as Hpw by (split; [apply Z.pow_nonneg; lia|apply Z.pow_lt_mono_r; lia]).
      apply Z.bits_inj_iff'. intros i Hi. rewrite Z.lxor_spec, Z.pow2_bits_eqb by lia. destruct (Z.lt_ge_cases i 64).
      - rewrite clear_bit_testbit by lia. rewrite (Z.eqb_sym p i). destruct (Z.eqb_spec i p) as [->|]; [by rewrite E|].
        simpl. rewrite andb_true_r. by destruct (Z.testbit x i).
      - apply word_bits in Hx as [_ Hx], Hc as [_ Hc]. rewrite Hx, Hc by lia. by rewrite (proj2 (Z.eqb_neq p i)) by lia. }
    rewrite Heq at 1. rewrite parity_lxor; [|apply Z.pow_nonneg; lia|apply Hc]. f_equal. unfold parity.
    replace (2 ^ p) with (0 + 2 ^ p * 1) by lia. rewrite popCount_concat; [done|lia| |lia]. split; [lia|]. apply Z.pow_pos_nonneg; lia.
  - rewrite xorb_false_l. f_equal. apply word_ext; [done|done|]. intros i Hi. rewrite clear_bit_testbit by lia.
    destruct (Z.eqb_spec i p) as [->|]; simpl; [by rewrite E|by rewrite andb_true_r].
Qed.

Lemma int_bit_ok p : 0 <= p < 31 -> int_bit p = Ok (2 ^ p).
Proof.
  intros Hp. unfold int_bit. rewrite (proj2 (Z.leb_le _ _)), (proj2 (Z.ltb_lt _ _)) by lia. simpl. rewrite Z.shiftl_1_l, i32_small; [done|].
  assert (2 ^ p < 2 ^ 31) by (apply Z.pow_lt_mono_r; lia). pose proof (Z.pow_nonneg 2 p). lia.
Qed.

Lemma match_bit_ok k m y i : word y -> m ∈ ms -> ctz64 m < 31 -> 0 <= i < 32 -> exists y', match_bit k m (y, i) = Ok (y', i + 1) /\ word y' /\
  (forall p, 0 <= p < 64 -> p <> ctz64 m -> Z.testbit y' p = Z.testbit y p) /\ parity (Z.land y' m) = Z.testbit k i.
Proof.
  intros Hy Hm Hlt Hi. destruct (lsb_facts m Hm) as [(_ & Hb & _) Hp]. set (p := ctz64 m) in *.
  pose proof (mask_is_word m Hm) as Hmw.
  unfold match_bit. fold p. rewrite (proj2 (Z.ltb_lt i 32)), bits_one, int_bit_ok by lia. cbn [mbind res_bind].
  fold (clear_bit p (Z.land y m)). set (q := popCount _).
  assert (0 <= q) as Hq by apply popCount_nonneg.
  destruct (insertBits_spec y p p (Z.lxor (Z.b2z (Z.testbit k i)) q) Hy) as (y' & Hins & Hw & Hbits);
    [lia|lia|rewrite u32_small; lia|apply Z.lxor_nonneg; destruct (Z.testbit k i); simpl; lia|].
  rewrite u32_small in Hins by lia. rewrite Hins. simpl. exists y'. split; [done|]. split; [done|].
  assert (forall j, 0 <= j < 64 -> j <> p -> Z.testbit y' j = Z.testbit y j) as Hother.
  { intros j Hj Hne. rewrite Hbits by done. destruct (Z.leb_spec p j), (Z.leb_spec j p); simpl; lia || done. }
  split; [done|]. rewrite (parity_bit _ p) by (apply word_land_l; [done|apply Hmw] || lia).
  rewrite Z.land_spec, Hb, andb_true_r, Hbits by lia. rewrite Z.leb_refl, Z.sub_diag. cbn [andb].
  assert (clear_bit p (Z.land y' m) = clear_bit p (Z.land y m)) as ->.
  { apply word_ext; [apply clear_bit_word, word_land_l; [done|apply Hmw]..|]. intros j Hj. rewrite !clear_bit_testbit, !Z.land_spec by lia.
    destruct (Z.eqb_spec j p); simpl; [by rewrite !andb_false_r|]. by rewrite Hother. }
  rewrite Z.lxor_spec, Z.b2z_bit0. unfold parity. fold q. rewrite <-(Z.bit0_odd q). destruct (Z.testbit k i), (Z.testbit q 0); done.
Qed.

Lemma match_ok k c : word c -> Forall (fun m => ctz64 m < 31) ms -> exists y, for_each ms (match_bit k) (c, 0) = Ok (y, zlength ms) /\ word y /\
  (forall p, 0 <= p < 64 -> p ∉ L -> Z.testbit y p = Z.testbit c p) /\
  (forall i m, ms !! i = Some m -> parity (Z.land y m) = Z.testbit k (Z.of_nat i)).
Proof.
  intros Hc Hlow.
  assert (safe (for_each ms (match_bit k) (c, 0)) (fun '(y, n) => n = zlength ms /\ word y /\
    (forall p, 0 <= p < 64 -> p ∉ L -> Z.testbit y p = Z.testbit c p) /\
    (forall i m, ms !! i = Some m -> parity (Z.land y m) = Z.testbit k (Z.of_nat i)))) as Hsafe;
    [|destruct (safe_inv _ _ Hsafe) as ([y n] & -> & -> & ?); eauto].
  apply (safe_for_each (fun P '(y, n) => n = zlength P /\ word y /\ (forall p, 0 <= p < 64 -> p ∉ L -> Z.testbit y p = Z.testbit c p) /\
    (forall i m, P !! i = Some m -> parity (Z.land y m) = Z.testbit k (Z.of_nat i)))); [done|].
  intros P m post [y n] Heq (-> & Hy & Hoff & Hpar).
  assert (m ∈ ms) as Hm by (rewrite Heq; set_solver). assert (ms !! length P = Some m) as Hat by (rewrite Heq; by apply list_lookup_middle).
  pose proof (mo_few _ Hms) as Hfew. rewrite Heq in Hfew. unfold zlength in Hfew. rewrite length_app in Hfew. simpl in Hfew.
  rewrite list.Forall_forall in Hlow. destruct (match_bit_ok k m y (zlength P) Hy Hm (Hlow m Hm)) as (y' & -> & Hy' & Hother & Hnew); [unfold zlength; lia|].
  simpl. split; [unfold zlength; rewrite length_app; simpl; lia|]. split; [done|]. split.
  - intros p Hp Hn. rewrite Hother; [by apply Hoff|done|]. intros ->. apply Hn, lsb_elem. eauto.
  - intros i m' Hi. apply lookup_app_Some in Hi as [Hi|[Hge Hi]].
    + rewrite <-(Hpar i m' Hi). f_equal. destruct (lsb_facts m Hm) as [_ Hp].
      assert (ms !! i = Some m') as Hi' by (rewrite Heq; by apply lookup_app_l_Some).
      assert (word m') as Hm' by (eapply mask_is_word, list_elem_of_lookup_2; done).
      apply word_ext; [apply word_land_l; [done|apply Hm']..|]. intros j Hj. rewrite !Z.land_spec.
      destruct (decide (j = ctz64 m)) as [->|]; [|by rewrite Hother].
      assert (Z.testbit m' (ctz64 m) = false) as ->; [|by rewrite !andb_false_r].
      eapply (mo_own _ Hms (length P) i); [done|done|]. apply lookup_lt_Some in Hi. lia.
    + apply list_lookup_singleton_Some in Hi as [Hi <-]. replace (Z.of_nat i) with (zlength P) by (unfold zlength; lia). done.
Qed.

(** *** Selecting *)

Lemma popCount_mod2 x : popCount x mod 2 = Z.b2z (parity x).
Proof. unfold parity. rewrite Zmod_odd. by destruct (Z.odd _). Qed.

Lemma select_ok a : exists s, select a ms = Ok s /\ 0 <= s < 2 ^ zlength ms /\
  forall i m, ms !! i = Some m -> Z.testbit s (Z.of_nat i) = parity (Z.land a m).
Proof.
  apply safe_inv. unfold select. apply safe_bind. pose proof (mo_few _ Hms) as Hfew.
  eapply safe_mono; [apply (safe_for_each (fun P '(s, n) => n = zlength P /\ 0 <= s < 2 ^ zlength P /\
    forall i m, P !! i = Some m -> Z.testbit s (Z.of_nat i) = parity (Z.land a m)))|].
  - split; [done|]. split; [done|]. done.
  - intros P m post [s n] Heq (-> & Hs & Hbits). rewrite Heq in Hfew. unfold zlength in *. rewrite length_app in *. simpl in Hfew |- *.
    rewrite (proj2 (Z.ltb_lt _ 32)) by lia. simpl. rewrite popCount_mod2. set (n := Z.of_nat (length P)) in *.
    set (b := parity (Z.land a m)). assert (0 <= Z.shiftl (Z.b2z b) n) by (apply Z.shiftl_nonneg; by destruct b).
    split; [lia|]. replace (Z.of_nat (length P + 1)) with (n + 1) by lia. apply (bits_bound n s) in Hs as [Hs Hhigh]; [|lia].
    assert (forall j, 0 <= j -> Z.testbit (Z.shiftl (Z.b2z b) n) j = if j =? n then b else false) as Hshift.
    { intros j Hj. rewrite Z.shiftl_spec by done. destruct (Z.eqb_spec j n) as [->|Hne]; [rewrite Z.sub_diag; by destruct b|].
      destruct (Z.lt_ge_cases j n); [by rewrite Z.testbit_neg_r by lia|]. destruct b; [|apply Z.testbit_0_l]. simpl.
      replace (j - n) with (Z.succ (j - n - 1)) by lia. change 1 with (2 * 0 + 1). rewrite Z.testbit_odd_succ by lia. apply Z.testbit_0_l. }
    split.
    + apply bits_bound; [lia|]. split; [by apply Z.lor_nonneg|]. intros j Hj. rewrite Z.lor_spec, Hhigh, Hshift by lia.
      by rewrite (proj2 (Z.eqb_neq j n)) by lia.
    + intros i m' Hi. rewrite Z.lor_spec, Hshift by lia. apply lookup_app_Some in Hi as [Hi|[Hge Hi]].
      * pose proof (lookup_lt_Some _ _ _ Hi). rewrite (proj2 (Z.eqb_neq _ _)), orb_false_r by lia. by apply Hbits.
      * apply list_lookup_singleton_Some in Hi as [Hi <-]. replace (Z.of_nat i) with n by lia. by rewrite Z.eqb_refl, Hhigh by lia.
  - intros [s n] (_ & Hs & Hbits). simpl. done.
Qed.

Lemma select_iff a k : 0 <= k < 2 ^ zlength ms -> select a ms = Ok k <-> forall i m, ms !! i = Some m -> parity (Z.land a m) = Z.testbit k (Z.of_nat i).
Proof.
  intros Hk. destruct (select_ok a) as (s & -> & Hs & Hbits). pose proof (zlength_nonneg ms). split.
  - intros [= ->] i m Hi. by rewrite Hbits with (m := m).
  - intros Hpar. f_equal. apply bits_bound in Hk as [Hk Hkh], Hs as [Hs Hsh]; [|done..]. apply Z.bits_inj_iff'. intros j Hj.
    destruct (Z.lt_ge_cases j (zlength ms)); [|by rewrite Hkh, Hsh].
    destruct (lookup_lt_is_Some_2 ms (Z.to_nat j)) as [m Hm]; [unfold zlength in *; lia|].
    rewrite <-(Z2Nat.id j) by done. by rewrite (Hbits _ m Hm), (Hpar _ m Hm).
Qed.
End masks.

(** ** Stripes *)

(** Interleaved by masks whose lowest bits are below the sign of an [int]. *)
Record stripe (r : t) : Prop := {
  st_masks : masks_ok (masks r);
  st_low : Forall (fun m => ctz64 m < 31) (masks r);
  st_match : 0 <= intlvMatch r < 2 ^ zlength (masks r);
}.

Section stripe.
Context (r : t) (Hr : stripe r).
Notation n := (zlength (masks r)).
Notation L := (masks_lsb r).

Lemma stripe_interleaved : interleaved r = true.
Proof.
  unfold interleaved, zlength. pose proof (mo_some _ (st_masks _ Hr)). destruct (masks r); [done|]. simpl. apply Z.ltb_lt. lia.
Qed.

Lemma stripe_sorted : StronglySorted Z.lt L /\ Forall (fun l => 0 <= l < 64) L /\ zlength L = n.
Proof. apply lsb_sorted, (st_masks _ Hr). Qed.

Lemma remove_value a : word a -> exists x, removeIntlvBits a r = Ok x /\ 0 <= x < 2 ^ (64 - n) /\ forall j, 0 <= j -> Z.testbit x j = Z.testbit a (up L j).
Proof.
  intros Ha. unfold removeIntlvBits. rewrite stripe_interleaved. destruct stripe_sorted as (Hs & Hf & Hlen). pose proof (mo_few _ (st_masks _ Hr)).
  destruct (remove_ok (masks r) (st_masks _ Hr) a Ha) as (x & Hfe & Hw & Hx). fold (masks_lsb r) in Hfe, Hx.
  simpl. rewrite Hfe. simpl. exists x. split; [done|]. split; [|done].
  apply bits_bound; [lia|]. split; [apply Hw|]. intros j Hj. rewrite Hx by lia. apply word_bits in Ha as [_ Ha]. apply Ha.
  destruct (up_split L 64 j Hs Hf) as [Hhigh _]; [lia|]. rewrite Hhigh by lia. lia.
Qed.

Lemma add_value x : word x -> exists a, addIntlvBits x r = Ok a /\ word a /\ select a (masks r) = Ok (intlvMatch r) /\
  forall j, 0 <= j -> up L j < 64 -> Z.testbit a (up L j) = Z.testbit x j.
Proof.
  intros Hx. unfold addIntlvBits. rewrite stripe_interleaved. destruct stripe_sorted as (Hs & _).
  destruct (add_ok (masks r) (st_masks _ Hr) x Hx) as (c & Hadd & Hc & Hbits). fold (masks_lsb r) in Hadd, Hbits.
  simpl. rewrite Hadd. simpl.
  destruct (match_ok (masks r) (st_masks _ Hr) (intlvMatch r) c Hc (st_low _ Hr)) as (a & -> & Ha & Hoff & Hpar). fold (masks_lsb r) in Hoff. simpl.
  exists a. split; [done|]. split; [done|]. split; [by apply select_iff; [apply Hr..|]|].
  intros j Hj Hlt. pose proof (up_bound L j). rewrite Hoff; [by apply Hbits|lia|by apply up_avoids].
Qed.

Lemma remove_add x : 0 <= x < 2 ^ (64 - n) -> exists a, addIntlvBits x r = Ok a /\ word a /\ select a (masks r) = Ok (intlvMatch r) /\ removeIntlvBits a r = Ok x.
Proof.
  intros Hx. pose proof (mo_few _ (st_masks _ Hr)). pose proof (zlength_nonneg (masks r)). destruct stripe_sorted as (Hs & Hf & Hlen).
  assert (word x) as Hw. { split; [lia|]. assert (2 ^ (64 - n) <= 2 ^ 64) by (apply Z.pow_le_mono_r; lia). lia. }
  destruct (add_value x Hw) as (a & Hadd & Ha & Hsel & Hbits). exists a. split; [done|]. split; [done|]. split; [done|].
  destruct (remove_value a Ha) as (x' & -> & Hx' & Hbits'). f_equal. apply bits_bound in Hx as [_ Hx], Hx' as [_ Hx']; [|lia..].
  apply Z.bits_inj_iff'. intros j Hj. destruct (Z.lt_ge_cases j (64 - n)); [|by rewrite Hx, Hx'].
  rewrite Hbits' by done. destruct (up_split L 64 j Hs Hf Hj) as [_ Hlow]. apply Hbits; [done|]. lia.
Qed.

Lemma add_remove a : word a -> select a (masks r) = Ok (intlvMatch r) -> exists x, removeIntlvBits a r = Ok x /\ 0 <= x < 2 ^ (64 - n) /\ addIntlvBits x r = Ok a.
Proof.
  intros Ha Hsel. pose proof (mo_few _ (st_masks _ Hr)). pose proof (zlength_nonneg (masks r)). destruct stripe_sorted as (Hs & Hf & Hlen).
  destruct (remove_value a Ha) as (x & Hrem & Hx & Hbits). exists x. split; [done|]. split; [done|].
  assert (word x) as Hw. { split; [lia|]. assert (2 ^ (64 - n) <= 2 ^ 64) by (apply Z.pow_le_mono_r; lia). lia. }
  destruct (add_value x Hw) as (b & -> & Hb & Hselb & Hbits'). f_equal.
  assert (forall p, 0 <= p < 64 -> p ∉ L -> Z.testbit b p = Z.testbit a p) as Hoff.
  { intros p Hp Hn. destruct (up_onto L p Hs) as (j & Hj & <-); [eapply list.Forall_impl; [exact Hf|simpl; lia]|lia|done|].
    rewrite Hbits' by lia. by apply Hbits. }
  apply word_ext; [done|done|]. intros p Hp. destruct (decide (p ∈ L)) as [Hin|]; [|by apply Hoff].
  apply (lsb_elem (masks r)) in Hin as (m & Hm & ->). pose proof Hm as [i Hi]%list_elem_of_lookup.
  destruct (lsb_facts _ (st_masks _ Hr) m Hm) as [(_ & Hbit & _) Hlsb]. pose proof (mask_is_word _ (st_masks _ Hr) m Hm) as Hmw.
  pose proof (proj1 (select_iff _ (st_masks _ Hr) a _ (st_match _ Hr)) Hsel i m Hi) as Hpa.
  pose proof (proj1 (select_iff _ (st_masks _ Hr) b _ (st_match _ Hr)) Hselb i m Hi) as Hpb. rewrite <-Hpa in Hpb.
  rewrite !(parity_bit (Z.land _ m) (ctz64 m)) in Hpb by (apply word_land_l; [done|apply Hmw] || lia).
  rewrite !Z.land_spec, Hbit, !andb_true_r in Hpb.
  assert (clear_bit (ctz64 m) (Z.land b m) = clear_bit (ctz64 m) (Z.land a m)) as Heq.
  { apply word_ext; [apply clear_bit_word, word_land_l; [done|apply Hmw]..|]. intros j Hj. rewrite !clear_bit_testbit, !Z.land_spec by lia.
    destruct (Z.eqb_spec j (ctz64 m)) as [|Hne]; simpl; [by rewrite !andb_false_r|]. rewrite !andb_true_r.
    destruct (Z.testbit m j) eqn:Hmj; [|by rewrite !andb_false_r]. rewrite Hoff; [done|done|].
    intros (m' & Hm' & ->)%(lsb_elem (masks r)). pose proof Hm' as [i' Hi']%list_elem_of_lookup.
    assert (i' <> i) as Hii by (intros ->; rewrite Hi in Hi'; injection Hi' as ->; done).
    by rewrite (mo_own _ (st_masks _ Hr) i' i m' m Hi' Hi Hii) in Hmj. }
  rewrite Heq in Hpb. clear -Hpb.
  by destruct (Z.testbit a (ctz64 m)), (Z.testbit b (ctz64 m)), (parity _).
Qed.

(** *** Offsets *)

Section aligned.
Context (top : Z) (Htop : Forall (fun m => ctz64 m < top) (masks r)) (Htop64 : top <= 64).

Lemma lsb_below : Forall (fun l => 0 <= l < top) L /\ 0 <= n <= top.
Proof.
  destruct stripe_sorted as (Hs & Hf & Hlen). pose proof (zlength_nonneg (masks r)).
  assert (Forall (fun l => 0 <= l < top) L) as Hb.
  { rewrite list.Forall_forall in Htop. rewrite list.Forall_forall in Hf. apply list.Forall_forall. intros l Hl. split; [by apply Hf|].
    apply (lsb_elem (masks r)) in Hl as (m & Hm & ->). by apply Htop. }
  split; [done|]. split; [done|]. rewrite <-Hlen. apply sorted_count; [done|done|].
  pose proof (mo_some _ (st_masks _ Hr)). destruct (masks r) as [|m ms] eqn:E; [done|]. pose proof Htop as [? _]%list.Forall_cons.
  destruct (lsb_facts (m :: ms)) with (m := m) as [_ ?]; [rewrite <-E; apply Hr|by left|lia].
Qed.

Lemma remove_high a x : word a -> removeIntlvBits a r = Ok x -> x / 2 ^ (top - n) = a / 2 ^ top.
Proof.
  intros Ha Hx. destruct (remove_value a Ha) as (x' & Hx' & _ & Hbits). rewrite Hx in Hx'. injection Hx' as <-.
  destruct lsb_below as [Hf Hn], stripe_sorted as (Hs & _ & Hlen). apply Z.bits_inj_iff'. intros j Hj.
  rewrite !Z.div_pow2_bits by lia. rewrite Hbits by lia.
  destruct (up_split L top (j + (top - n)) Hs Hf) as [Hhigh _]; [lia|]. rewrite Hhigh by lia. f_equal. lia.
Qed.

Lemma remove_aligned A : word (A * 2 ^ top) -> removeIntlvBits (A * 2 ^ top) r = Ok (A * 2 ^ (top - n)).
Proof.
  intros Ha. destruct (remove_value _ Ha) as (x & Hx & Hxb & Hbits). rewrite Hx. f_equal. pose proof (remove_high _ _ Ha Hx) as Hhigh.
  destruct lsb_below as [Hf Hn], stripe_sorted as (Hs & _ & Hlen).
  assert (0 < 2 ^ top) by (apply Z.pow_pos_nonneg; lia). assert (0 < 2 ^ (top - n)) by (apply Z.pow_pos_nonneg; lia).
  rewrite Z.div_mul in Hhigh by lia. rewrite (Z.div_mod x (2 ^ (top - n))), Hhigh by lia.
  assert (x mod 2 ^ (top - n) = 0) as ->; [|lia]. apply Z.bits_inj_0. intros j. destruct (Z.lt_ge_cases j 0); [by apply Z.testbit_neg_r|].
  destruct (Z.lt_ge_cases j (top - n)); [|by rewrite Z.mod_pow2_bits_high by lia]. rewrite Z.mod_pow2_bits_low, Hbits by lia.
  destruct (up_split L top j Hs Hf) as [_ Hlow]; [lia|]. rewrite Hlen in Hlow. specialize (Hlow ltac:(lia)). by rewrite Z.mul_pow2_bits_low by lia.
Qed.

Context (A B : Z) (Hstart : _start r = A * 2 ^ top) (Hend : _end r = B * 2 ^ top) (HA : 0 <= A <= B) (HB : B * 2 ^ top < 2 ^ 64).

Lemma start_word : word (A * 2 ^ top) /\ 0 < 2 ^ top /\ 0 < 2 ^ (top - n) /\ 2 ^ top = 2 ^ (top - n) * 2 ^ n.
Proof.
  destruct lsb_below as [_ Hn]. assert (0 < 2 ^ top) by (apply Z.pow_pos_nonneg; lia). split_and!; [|done|apply Z.pow_pos_nonneg; lia|].
  - split; [by apply Z.mul_nonneg_nonneg; lia|]. assert (A * 2 ^ top <= B * 2 ^ top) by (apply Z.mul_le_mono_nonneg_r; lia). lia.
  - rewrite <-Z.pow_add_r by lia. f_equal. lia.
Qed.

(** An address lies in the interval when what is left of it lies in the interval that is left. *)
Lemma in_interval a x : word a -> removeIntlvBits a r = Ok x -> A * 2 ^ top <= a < B * 2 ^ top <-> A * 2 ^ (top - n) <= x < B * 2 ^ (top - n).
Proof.
  intros Ha Hx. pose proof (remove_high a x Ha Hx) as Hh. destruct start_word as (_ & H1 & H2 & _).
  split; intros [Hlo Hhi]; split.
  - rewrite Z.mul_comm. etrans; [apply Z.mul_le_mono_nonneg_l; [lia|]|by apply Z.mul_div_le]. rewrite Hh. apply Z.div_le_lower_bound; lia.
  - apply Z.nle_gt. intros Hge. assert (B <= x / 2 ^ (top - n)) as Hb by (apply Z.div_le_lower_bound; lia).
    rewrite Hh in Hb. assert (a / 2 ^ top < B) by (apply Z.div_lt_upper_bound; lia). lia.
  - assert (A <= a / 2 ^ top) by (rewrite <-Hh; apply Z.div_le_lower_bound; lia). pose proof (Z.mul_div_le a (2 ^ top) H1). nia.
  - assert (a / 2 ^ top < B) by (rewrite <-Hh; apply Z.div_lt_upper_bound; lia). pose proof (Z.mul_succ_div_gt a (2 ^ top) H1). nia.
Qed.

Lemma stripe_size : size r = Ok ((B - A) * 2 ^ (top - n)).
Proof.
  destruct lsb_below as [_ Hn], start_word as (Hw & H1 & H2 & H3). unfold size. rewrite Hstart, Hend.
  rewrite u64_small by (unfold word in Hw; split; [apply Z.le_0_sub, Z.mul_le_mono_nonneg_r; lia|]; lia).
  rewrite shr64_Ok by (pose proof (mo_few _ (st_masks _ Hr)); lia). f_equal. rewrite <-Z.mul_sub_distr_r, H3, Z.mul_assoc.
  apply Z.div_mul. apply Z.pow_nonzero; lia.
Qed.

Lemma offset_value a x : word a -> removeIntlvBits a r = Ok x -> A * 2 ^ top <= a < B * 2 ^ top -> getOffset a r = Ok (x - A * 2 ^ (top - n)).
Proof.
  intros Ha Hx Hin. unfold getOffset. rewrite Hstart, Hend, (proj2 (Z.leb_le _ _)), (proj2 (Z.ltb_lt _ _)), stripe_interleaved by lia. simpl.
  destruct start_word as (Hw & H1 & H2 & _). rewrite Hx, remove_aligned by done. simpl. f_equal. apply u64_small.
  destruct (remove_value a Ha) as (x' & Hx' & Hb & _). rewrite Hx in Hx'. injection Hx' as <-.
  apply (in_interval a x Ha Hx) in Hin. assert (0 <= A * 2 ^ (top - n)) by (apply Z.mul_nonneg_nonneg; lia).
  assert (2 ^ (64 - n) <= 2 ^ 64) by (pose proof (zlength_nonneg (masks r)); apply Z.pow_le_mono_r; lia). lia.
Qed.

Lemma contains_iff a : contains a r = Ok true <-> A * 2 ^ top <= a < B * 2 ^ top /\ select a (masks r) = Ok (intlvMatch r).
Proof.
  unfold contains. rewrite Hstart, Hend. destruct (select_ok _ (st_masks _ Hr) a) as (s & -> & _).
  destruct (Z.leb_spec (A * 2 ^ top) a), (Z.ltb_spec a (B * 2 ^ top)); simpl; try (split; [done|lia]).
  split; [intros [= ->%Z.eqb_eq]; done|]. intros [_ [= ->]]. by rewrite Z.eqb_refl.
Qed.

Lemma stripe_offsets_bijection :
  size r = Ok ((B - A) * 2 ^ (top - n)) /\
  (forall a, word a -> contains a r = Ok true -> exists o, getOffset a r = Ok o /\ 0 <= o < (B - A) * 2 ^ (top - n)) /\
  (forall o, 0 <= o < (B - A) * 2 ^ (top - n) -> exists a, word a /\ contains a r = Ok true /\ getOffset a r = Ok o /\
    forall a', word a' -> contains a' r = Ok true -> getOffset a' r = Ok o -> a' = a).
Proof.
  destruct start_word as (Hw & H1 & H2 & H3), lsb_below as [_ Hn]. assert (0 <= A * 2 ^ (top - n)) by (apply Z.mul_nonneg_nonneg; lia).
  split; [apply stripe_size|]. split.
  - intros a Ha [Hin _]%contains_iff. destruct (remove_value a Ha) as (x & Hx & _). exists (x - A * 2 ^ (top - n)).
    split; [by apply offset_value|]. apply (in_interval a x Ha Hx) in Hin. lia.
  - intros o Ho. assert (0 <= A * 2 ^ (top - n) + o < 2 ^ (64 - n)) as Hx.
    { split; [lia|]. apply (Z.mul_lt_mono_pos_r (2 ^ n)); [apply Z.pow_pos_nonneg; lia|]. rewrite <-Z.pow_add_r by lia.
      replace (64 - n + n) with 64 by lia. assert ((A * 2 ^ (top - n) + o) * 2 ^ n < B * 2 ^ top); [|lia].
      rewrite H3, Z.mul_assoc. apply Z.mul_lt_mono_pos_r; [apply Z.pow_pos_nonneg; lia|lia]. }
    destruct (remove_add _ Hx) as (a & Hadd & Ha & Hsel & Hrem). pose proof (proj2 (in_interval a _ Ha Hrem) ltac:(lia)) as Hin.
    exists a. split; [done|]. split; [by apply contains_iff|]. split; [rewrite (offset_value a _ Ha Hrem Hin); f_equal; lia|].
    intros a' Ha' [Hin' Hsel']%contains_iff Hoff. destruct (add_remove a' Ha' Hsel') as (x' & Hrem' & _ & Hadd').
    rewrite (offset_value a' _ Ha' Hrem' Hin') in Hoff. injection Hoff as Hoff. replace x' with (A * 2 ^ (top - n) + o) in Hadd' by lia. congruence.
Qed.

End aligned.
End stripe.
End stripes.

(** ** Membership *)

(** The addresses of a range. *)
Definition inside (a : Z) (r : t) : Prop := contains a r = Ok true.

Lemma inside_interval a r : interleaved r = false -> intlvMatch r = 0 -> inside a r <-> _start r <= a < _end r.
Proof.
  unfold interleaved, inside, contains. intros Hi Hm. assert (masks r = []) as ->.
  { apply Z.ltb_ge in Hi. unfold zlength in Hi. destruct (masks r); [done|]. cbn [length] in Hi. lia. }
  rewrite Hm. destruct (Z.leb_spec (_start r) a), (Z.ltb_spec a (_end r)); simpl; split; intros; (done || lia).
Qed.

(** A stripe has the addresses of the interval that select it. *)
Lemma inside_stripe a s e ms k : masks_ok ms -> exists sel, select a ms = Ok sel /\ 0 <= sel < 2 ^ zlength ms /\
  (inside a (mk s e ms k) <-> s <= a < e /\ sel = k).
Proof.
  intros Hms. destruct (select_ok ms Hms a) as (sel & Hsel & Hb & _). exists sel. split; [done|]. split; [done|].
  unfold inside, contains. simpl. rewrite Hsel. destruct (Z.leb_spec s a), (Z.ltb_spec a e); simpl; try (split; [done|lia]).
  split; [intros [= ->%Z.eqb_eq]; done|]. intros [_ ->]. by rewrite Z.eqb_refl.
Qed.

(** The masks of a range leave [g] low bits alone. *)
Lemma select_chunk ms g a b : Forall (fun m => forall j, 0 <= j < g -> Z.testbit m j = false) ms -> 0 <= g -> a / 2 ^ g = b / 2 ^ g -> select a ms = select b ms.
Proof.
  intros Hlow Hg Hab. unfold select. f_equal. revert Hlow. generalize (0, 0). induction ms as [|m ms IH]; intros [sel i] Hlow; [done|].
  apply list.Forall_cons in Hlow as [Hm Hlow]. simpl. assert (Z.land a m = Z.land b m) as ->.
  { apply Z.bits_inj_iff'. intros j Hj. rewrite !Z.land_spec. destruct (Z.lt_ge_cases j g); [by rewrite Hm, !andb_false_r by lia|].
    replace j with (j - g + g) by lia. by rewrite <-!Z.div_pow2_bits, Hab by lia. }
  destruct (i <? 32); simpl; [by apply IH|done].
Qed.

Lemma i32_testbit x j : 0 <= j < 31 -> Z.testbit (i32 x) j = Z.testbit x j.
Proof.
  intros Hj. rewrite <-(Z.mod_pow2_bits_low (i32 x) 31), <-(Z.mod_pow2_bits_low x 31) by lia. f_equal. unfold i32.
  pose proof (Z.div_mod (x + 2 ^ 31) (2 ^ 32) ltac:(lia)) as Hd. replace ((x + 2 ^ 31) mod 2 ^ 32 - 2 ^ 31) with (x + (- 2 * ((x + 2 ^ 31) / 2 ^ 32)) * 2 ^ 31) by lia.
  by rewrite Z.mod_add by lia.
Qed.

Definition combine (ms : list Z) : Z := foldl (fun c m => i32 (Z.lor (u64 c) m)) 0 ms.

Lemma combine_testbit ms j : 0 <= j < 31 -> Z.testbit (combine ms) j = existsb (fun m => Z.testbit m j) ms.
Proof.
  intros Hj. unfold combine. enough (forall c, Z.testbit (foldl (fun c m => i32 (Z.lor (u64 c) m)) c ms) j = Z.testbit c j || existsb (fun m => Z.testbit m j) ms) as He
    by (rewrite He; by rewrite Z.testbit_0_l).
  induction ms as [|m ms IH]; intros c; simpl; [by rewrite orb_false_r|]. rewrite IH, i32_testbit, Z.lor_spec, u64_testbit by done.
  rewrite (proj2 (Z.ltb_lt j 64)) by lia. simpl. by rewrite orb_assoc.
Qed.

Lemma combine_lsb ms : ms <> [] -> Forall (fun m => 0 < m /\ ctz64 m < 31) ms ->
  let g := ctz64 (u64 (combine ms)) in 0 <= g < 31 /\ Forall (fun m => forall j, 0 <= j < g -> Z.testbit m j = false) ms.
Proof.
  intros Hne Hms g. destruct ms as [|m ms]; [done|]. pose proof Hms as [[Hm Hlt] _]%list.Forall_cons.
  destruct (ctz64_lsb m Hm) as (Hk & Hb & _). set (c := combine (m :: ms)) in *.
  assert (forall j, 0 <= j < 31 -> Z.testbit (u64 c) j = existsb (fun m => Z.testbit m j) (m :: ms)) as Hbits.
  { intros j Hj. rewrite u64_testbit, (proj2 (Z.ltb_lt j 64)) by lia. by apply combine_testbit. }
  assert (Z.testbit (u64 c) (ctz64 m) = true) as Hset by (rewrite Hbits by lia; simpl; by rewrite Hb).
  assert (0 < u64 c) as Hpos.
  { pose proof (u64_word c) as [? _]. destruct (decide (u64 c = 0)) as [Hz|]; [|lia]. by rewrite Hz, Z.testbit_0_l in Hset. }
  destruct (ctz64_lsb _ Hpos) as (Hg & Hgb & Hlow). fold g in Hg, Hgb, Hlow.
  assert (g <= ctz64 m) as Hle. { apply Z.nlt_ge. intros Hgt. by rewrite Hlow in Hset by lia. }
  split; [lia|]. apply list.Forall_forall. intros m' Hm' j Hj. specialize (Hlow j Hj). rewrite Hbits in Hlow by lia.
  destruct (Z.testbit m' j) eqn:E; [|done]. rewrite <-Hlow. symmetry. apply existsb_exists. exists m'. split; [by apply list_elem_of_In|done].
Qed.

(** ** Subsets and intersections *)

Definition plain (r : t) : Prop := interleaved r = false /\ intlvMatch r = 0.

Lemma stripe_lows r : stripe r -> Forall (fun m => 0 < m /\ ctz64 m < 31) (masks r).
Proof.
  intros Hr. pose proof (mo_word _ (st_masks _ Hr)) as H1. pose proof (st_low _ Hr) as H2. rewrite list.Forall_forall in H1. rewrite list.Forall_forall in H2.
  apply list.Forall_forall. intros m Hin. split; [by apply H1|by apply H2].
Qed.

Lemma inside_parts a r : inside a r <-> _start r <= a < _end r /\ select a (masks r) = Ok (intlvMatch r).
Proof.
  unfold inside, contains. destruct (Z.leb_spec (_start r) a), (Z.ltb_spec a (_end r)); simpl; try (split; [done|lia]).
  destruct (select a (masks r)) as [sel|]; simpl; [|naive_solver]. split; [intros [= ->%Z.eqb_eq]; done|]. intros [_ [= ->]]. by rewrite Z.eqb_refl.
Qed.

(** A range that is a subset has no other addresses. *)
Lemma isSubset_sound r self : stripe r \/ plain r -> plain self -> 0 <= _start self -> _end self < 2 ^ 64 -> isSubset r self = Ok true ->
  forall a, inside a self -> inside a r.
Proof.
  intros Hr [Hi Hm] Hs He Hsub a Ha. apply inside_interval in Ha; [|done..]. unfold isSubset in Hsub. rewrite Hi in Hsub. destruct Hr as [Hr|[Hr Hrm]].
  - rewrite (stripe_interleaved r Hr) in Hsub. apply bind_Ok in Hsub as (first & Hfirst & Hsub). destruct first; [|done]. simpl in Hsub.
    apply bind_Ok in Hsub as (last & Hlast & Hsub). destruct last; [|done]. simpl in Hsub. apply bind_Ok in Hsub as (n & Hn & Hsub), Hsub as (g & Hg & [= Hle%Z.leb_le]).
    rewrite u64_small in Hlast by lia. unfold size in Hn.
    replace (zlength (masks self)) with 0 in Hn by (unfold interleaved in Hi; apply Z.ltb_ge in Hi; pose proof (zlength_nonneg (masks self)); lia).
    rewrite shr64_Ok, Z.div_1_r, u64_small in Hn by lia. injection Hn as <-.
    unfold granularity in Hg. rewrite (stripe_interleaved r Hr) in Hg. fold (combine (masks r)) in Hg.
    destruct (combine_lsb (masks r)) as [Hb Hlow]; [apply (mo_some _ (st_masks _ Hr))|by apply stripe_lows|].
    set (k := ctz64 (u64 (combine (masks r)))) in *. assert (0 < 2 ^ k) by (apply Z.pow_pos_nonneg; lia).
    assert (g = 2 ^ k) as ->.
    { unfold shl64 in Hg. rewrite (proj2 (Z.leb_le _ _)), (proj2 (Z.ltb_lt _ _)) in Hg by lia. simpl in Hg. injection Hg as <-.
      rewrite Z.shiftl_1_l. apply u64_small. split; [lia|]. apply Z.pow_lt_mono_r; lia. }
    apply inside_parts in Hfirst as [Hf1 Hf2], Hlast as [Hl1 Hl2]. apply inside_parts. split; [lia|].
    assert (a / 2 ^ k = _start self / 2 ^ k \/ a / 2 ^ k = (_end self - 1) / 2 ^ k) as [Hc|Hc].
    { assert (_start self / 2 ^ k <= a / 2 ^ k) by (apply Z.div_le_mono; lia). assert (a / 2 ^ k <= (_end self - 1) / 2 ^ k) by (apply Z.div_le_mono; lia).
      assert ((_end self - 1) / 2 ^ k <= (_start self + 1 * 2 ^ k) / 2 ^ k) as Hd by (apply Z.div_le_mono; lia). rewrite Z.div_add in Hd by lia. lia. }
    + rewrite (select_chunk _ k a (_start self)) by (done || lia). done.
    + rewrite (select_chunk _ k a (_end self - 1)) by (done || lia). done.
  - rewrite Hr in Hsub. injection Hsub as Hsub. apply inside_interval; [done..|]. lia.
Qed.

(** Ranges that do not intersect have no address in common; an interleaved
    range of size 1 may have another address than its first one. *)
Lemma intersects_sound r self : (stripe r \/ plain r) -> (interleaved r = true -> size r <> Ok 1) -> intersects r self = Ok false ->
  forall a, 0 <= a -> _end r < 2 ^ 64 -> 0 <= _start r -> inside a self -> inside a r -> False.
Proof.
  intros Hr Hone Hint a Ha He Hs Hself Hin. apply inside_parts in Hself as [Hin1 Hsel1], Hin as [Hin2 Hsel2]. unfold intersects in Hint.
  destruct (Z.leb_spec (_end r) (_start self)); [lia|]. destruct (Z.leb_spec (_end self) (_start r)); [lia|]. simpl in Hint.
  destruct (negb (interleaved self) && negb (interleaved r)); [done|]. apply bind_Ok in Hint as (n & Hn & Hint).
  destruct (Z.eqb_spec n 1) as [->|].
  - destruct (interleaved r) eqn:Hi; [by apply Hone|]. unfold size in Hn.
    replace (zlength (masks r)) with 0 in Hn by (unfold interleaved in Hi; apply Z.ltb_ge in Hi; pose proof (zlength_nonneg (masks r)); lia).
    rewrite shr64_Ok, Z.div_1_r, u64_small in Hn by lia. injection Hn as Hn. assert (a = _start r) as -> by lia.
    assert (inside (_start r) self) as Hc by (by apply inside_parts). unfold inside in Hc. congruence.
  - unfold mergesWith in Hint. destruct (_start r =? _start self), (_end r =? _end self); simpl in Hint; try done.
    case_bool_decide as Hm; [|done]. injection Hint as Hint%Z.eqb_neq. rewrite Hm in Hsel2. congruence.
Qed.

(** ** Differences *)

Lemma intersects_plain r self : plain r -> plain self -> intersects r self = Ok (negb ((_end r <=? _start self) || (_end self <=? _start r))).
Proof. intros [Hr _] [Hs _]. unfold intersects. rewrite Hr, Hs. simpl. by destruct (_ || _). Qed.

Lemma plain_interval a b : plain (interval a b).
Proof. done. Qed.

Lemma inside_new a b x : inside x (interval a b) <-> a <= x < b.
Proof. by apply inside_interval. Qed.

(** The ranges that are left of the interval from [ns] up to [top] without
    those of [l]. *)
Record remains (ns top : Z) (l out : list t) : Prop := {
  rm_same a : (exists o, o ∈ out /\ inside a o) <-> ns <= a < top /\ forall e, e ∈ l -> ~ inside a e;
  rm_plain : Forall (fun o => plain o /\ ns <= _start o < _end o) out;
  rm_sorted : StronglySorted (fun x y => _end x <= _start y) out;
}.

Definition ordinary (e : t) : Prop := plain e /\ _start e <= _end e.

Lemma inside_ordinary e a : ordinary e -> inside a e <-> _start e <= a < _end e.
Proof. intros [[? ?] _]. by apply inside_interval. Qed.

(** Nothing is left above the end. *)
Lemma remains_end ns top l : top <= ns -> remains ns top l [].
Proof. intros Hle. split; [|constructor|constructor]. intros a. setoid_rewrite elem_of_nil. split; [naive_solver|lia]. Qed.

Lemma remains_last ns top : remains ns top [] (if ns <? top then [interval ns top] else []).
Proof.
  destruct (Z.ltb_spec ns top); [|by apply remains_end]. split.
  - intros a. setoid_rewrite list_elem_of_singleton. setoid_rewrite elem_of_nil. split.
    + intros (o & -> & Ha%inside_new). split; [lia|done].
    + intros [Ha _]. eexists. split; [done|]. by apply inside_new.
  - apply list.Forall_singleton. split; [done|simpl; lia].
  - repeat constructor.
Qed.

(** A range that has no address of the interval. *)
Lemma remains_skip ns top e l out : ordinary e -> (forall a, ns <= a < top -> ~ inside a e) -> remains ns top l out -> remains ns top (e :: l) out.
Proof.
  intros He Hno [Hsame Hplain Hsorted]. split; [|done..]. intros a. rewrite Hsame. setoid_rewrite elem_of_cons. split.
  - intros [Ha Hl]. split; [done|]. intros e' [->|]; [by apply Hno|by apply Hl].
  - naive_solver.
Qed.

(** A range that has the first addresses of the interval. *)
Lemma remains_cover ns top e l out : ordinary e -> _start e <= ns -> remains (Z.max ns (_end e)) top l out -> remains ns top (e :: l) out.
Proof.
  intros He Hle [Hsame Hplain Hsorted]. split; [| |done].
  - intros a. rewrite Hsame. setoid_rewrite elem_of_cons. split.
    + intros [Ha Hl]. split; [lia|]. intros e' [->|]; [rewrite inside_ordinary by done; lia|by apply Hl].
    + intros [Ha Hl]. split; [|naive_solver]. assert (~ inside a e) as Hn by (apply Hl; by left). rewrite inside_ordinary in Hn by done. lia.
  - eapply list.Forall_impl; [exact Hplain|]. simpl. intros o [? ?]. split; [done|lia].
Qed.

(** A range that leaves a gap before it. *)
Lemma remains_gap ns top e l out : ordinary e -> ns < _start e -> _start e <= top -> Forall (fun e' => ordinary e' /\ _start e <= _start e') l ->
  remains (_end e) top l out -> remains ns top (e :: l) (interval ns (_start e) :: out).
Proof.
  intros He Hlt Htop Hl [Hsame Hplain Hsorted]. pose proof He as [_ Hev].
  assert (forall a, a < _start e -> forall e', e' ∈ l -> ~ inside a e') as Hlater.
  { intros a Ha e' He'. rewrite list.Forall_forall in Hl. destruct (Hl e' He') as [? ?]. rewrite inside_ordinary by done. lia. }
  split.
  - intros a. setoid_rewrite elem_of_cons. split.
    + intros (o & [->|Ho] & Ha).
      * apply inside_new in Ha. split; [lia|]. intros e' [->|He']; [rewrite inside_ordinary by done; lia|apply Hlater; [lia|done]].
      * destruct (proj1 (Hsame a)) as [Hb Hno]; [eauto|]. split; [lia|]. intros e' [->|He']; [rewrite inside_ordinary by done; lia|by apply Hno].
    + intros [Ha Hno]. destruct (Z.lt_ge_cases a (_start e)); [eexists; split; [by left|]; apply inside_new; lia|].
      assert (~ inside a e) as Hn by (apply Hno; by left). rewrite inside_ordinary in Hn by done.
      destruct (proj2 (Hsame a)) as (o & Ho & Hin); [split; [lia|]; intros e' He'; apply Hno; by right|]. eauto.
  - constructor; [split; [done|simpl; lia]|]. eapply list.Forall_impl; [exact Hplain|]. simpl. intros o [? ?]. split; [done|lia].
  - constructor; [done|]. eapply list.Forall_impl; [exact Hplain|]. simpl. lia.
Qed.

Lemma exclude_loop_ok self l next_start ranges : plain self -> Forall ordinary l -> StronglySorted (fun x y => _start x <= _start y) l ->
  _start self <= next_start -> exists out, exclude_loop self l next_start ranges = Ok (ranges ++ out) /\ remains next_start (_end self) l out.
Proof.
  intros Hself. revert next_start ranges. induction l as [|e l IH]; intros ns ranges Hl Hs Hns; simpl.
  - exists (if ns <? _end self then [interval ns (_end self)] else []). split; [|apply remains_last]. destruct (ns <? _end self); [done|by rewrite app_nil_r].
  - apply list.Forall_cons in Hl as [He Hl]. apply StronglySorted_inv in Hs as [Hs Hse]. pose proof He as [Hep Hev].
    assert (Forall (fun e' => ordinary e' /\ _start e <= _start e') l) as Hlater by (by apply list.Forall_and).
    rewrite (proj1 Hep), intersects_plain by done. simpl.
    destruct (Z.leb_spec (_end e) (_start self)); simpl.
    { destruct (IH ns ranges Hl Hs Hns) as (out & -> & Hout). exists out. split; [done|]. apply remains_skip; [done| |done]. intros a Ha. rewrite inside_ordinary by done. lia. }
    destruct (Z.leb_spec (_end self) (_start e)); simpl.
    { destruct (IH ns ranges Hl Hs Hns) as (out & -> & Hout). exists out. split; [done|]. apply remains_skip; [done| |done]. intros a Ha. rewrite inside_ordinary by done. lia. }
    destruct (Z.leb_spec (_start e) ns), (Z.ltb_spec (_end e) (_end self)).
    + replace (if ns <? _end e then _end e else ns) with (Z.max ns (_end e)) by (destruct (Z.ltb_spec ns (_end e)); lia).
      destruct (IH (Z.max ns (_end e)) ranges Hl Hs ltac:(lia)) as (out & -> & Hout). exists out. split; [done|]. by apply remains_cover.
    + exists []. rewrite app_nil_r. split; [done|]. apply remains_cover; [done|done|]. apply remains_end. lia.
    + destruct (IH (_end e) (ranges ++ [interval ns (_start e)]) Hl Hs ltac:(lia)) as (out & -> & Hout).
      eexists. rewrite <-(assoc_L (++)). split; [done|]. apply remains_gap; (done || lia).
    + exists [interval ns (_start e)]. split; [done|]. apply remains_gap; [done|lia|lia|done|]. apply remains_end. lia.
Qed.

Section exclude.
Context `{!StdSort t lt} `{!StdSortOk t lt}.

Lemma exclude_ok l self : plain self -> Forall ordinary l -> exists out, exclude l self = Ok out /\ remains (_start self) (_end self) l out.
Proof.
  intros Hself Hl. unfold exclude. rewrite (proj1 Hself). simpl. pose proof (sort_perm l) as Hp.
  assert (Forall ordinary (std_sort lt l)) as Hl' by (by rewrite Hp).
  destruct (exclude_loop_ok self (std_sort lt l) (_start self) [] Hself Hl') as (out & -> & [Hsame Hplain Hsorted]); [|done|].
  - pose proof (sort_sorted l) as Hs. revert Hl' Hs. generalize (std_sort lt l). clear. intros l Hl Hs. induction Hs as [|x l Hs IH Hf]; [constructor|].
    apply list.Forall_cons in Hl as [[[Hx _] _] Hl]. constructor; [by apply IH|]. rewrite list.Forall_forall in Hf. rewrite list.Forall_forall in Hl.
    apply list.Forall_forall. intros y Hy. specialize (Hf y Hy). destruct (Hl y Hy) as [[Hyp _] _]. simpl in Hf. unfold lt in Hf.
    rewrite Hyp in Hf. simpl in Hf. destruct (Z.eqb_spec (_start y) (_start x)); simpl in Hf; lia.
  - exists out. split; [done|]. split; [|done..]. intros a. rewrite Hsame. by setoid_rewrite Hp.
Qed.

End exclude.

(** ** The legacy constructor *)

Section bits.
Context (high xor nb : Z) (Hnb : 0 < nb <= 8) (Hhigh : nb - 1 <= high < 64).
Context (Hxor : xor = 0 \/ (nb - 1 <= xor < 64 /\ nb <= Z.abs (xor - high))).

(** The bits that mask [k] selects. *)
Notation low_bit k := (high - nb + 1 + k).
Notation xor_bit k := (xor - nb + 1 + k).

Definition mask_at (k : Z) : Z := Z.lor (2 ^ low_bit k) (if xor =? 0 then 0 else 2 ^ xor_bit k).

Lemma mask_at_testbit k j : 0 <= k < nb -> 0 <= j -> Z.testbit (mask_at k) j = (low_bit k =? j) || (negb (xor =? 0) && (xor_bit k =? j)).
Proof.
  intros Hk Hj. unfold mask_at. rewrite Z.lor_spec, Z.pow2_bits_eqb by lia. f_equal. destruct (Z.eqb_spec xor 0); simpl; [apply Z.testbit_0_l|].
  apply Z.pow2_bits_eqb. lia.
Qed.

Lemma mask_at_word k : 0 <= k < nb -> 0 < mask_at k < 2 ^ 64.
Proof.
  intros Hk. assert (forall p, 0 <= p < 64 -> word (2 ^ p)) as Hw by (intros p Hp; split; [apply Z.pow_nonneg; lia|apply Z.pow_lt_mono_r; lia]).
  assert (word (mask_at k)) as Hm. { apply word_lor; [apply Hw; lia|]. destruct (Z.eqb_spec xor 0); [done|]. apply Hw. lia. }
  pose proof Hm as [H0 ?]. split; [|done]. destruct (decide (mask_at k = 0)) as [Hz|]; [|lia].
  assert (Z.testbit (mask_at k) (low_bit k) = true) as Hb by (rewrite mask_at_testbit by lia; by rewrite Z.eqb_refl). by rewrite Hz, Z.testbit_0_l in Hb.
Qed.

Lemma mask_at_lsb k : 0 <= k < nb -> let p := ctz64 (mask_at k) in 0 <= p <= low_bit k /\ (p = low_bit k \/ (xor <> 0 /\ p = xor_bit k)) /\ (xor <> 0 -> p <= xor_bit k).
Proof.
  intros Hk p. destruct (ctz64_lsb (mask_at k)) as (Hp & Hb & Hlow); [apply mask_at_word; lia|]. fold p in Hp, Hb, Hlow.
  assert (forall q, 0 <= q -> Z.testbit (mask_at k) q = true -> p <= q) as Hleast.
  { intros q Hq Hqb. apply Z.nlt_ge. intros Hlt. by rewrite Hlow in Hqb by lia. }
  rewrite mask_at_testbit in Hb by lia. split_and!; [done| | |].
  - apply Hleast; [lia|]. rewrite mask_at_testbit by lia. by rewrite Z.eqb_refl.
  - destruct (Z.eqb_spec (low_bit k) p); [by left|]. destruct (Z.eqb_spec xor 0); [done|]. simpl in Hb. right. lia.
  - intros Hx. apply Hleast; [lia|]. rewrite mask_at_testbit by lia. rewrite (proj2 (Z.eqb_neq xor 0)), Z.eqb_refl by done. apply orb_true_r.
Qed.

Definition masks_at : list Z := mask_at <$> (Z.of_nat <$> seq 0 (Z.to_nat nb)).

Lemma masks_at_lookup i m : masks_at !! i = Some m <-> (i < Z.to_nat nb)%nat /\ m = mask_at (Z.of_nat i).
Proof.
  unfold masks_at. rewrite !list_lookup_fmap. split.
  - intros (j & (i' & Hi & ->)%fmap_Some & ->)%fmap_Some. apply lookup_seq in Hi as [-> Hi]. done.
  - intros [Hi ->]. by rewrite (proj2 (lookup_seq 0 (Z.to_nat nb) i i)).
Qed.

Lemma masks_at_length : zlength masks_at = nb.
Proof. unfold zlength, masks_at. rewrite !length_fmap, length_seq. lia. Qed.

Lemma masks_at_ok : masks_ok masks_at.
Proof.
  split.
  - intros Hnil. pose proof masks_at_length as Hl. rewrite Hnil in Hl. unfold zlength in Hl. simpl in Hl. lia.
  - rewrite masks_at_length. lia.
  - apply list.Forall_forall. intros m [i [Hi ->]%masks_at_lookup]%list_elem_of_lookup. apply mask_at_word. lia.
  - intros i j m m' [Hi ->]%masks_at_lookup [Hj ->]%masks_at_lookup Hne. destruct (mask_at_lsb (Z.of_nat i)) as (Hp & Hcase & _); [lia|].
    rewrite mask_at_testbit by lia. destruct (Z.eqb_spec (low_bit (Z.of_nat j)) (ctz64 (mask_at (Z.of_nat i)))); simpl; [lia|].
    destruct (Z.eqb_spec xor 0); [done|]. simpl. lia.
Qed.

Lemma legacy_mask_ok i : 0 <= i < nb -> legacy_mask high xor i = Ok (mask_at (nb - i - 1)).
Proof.
  intros Hi. assert (forall p, 0 <= p < 64 -> shl64 1 (u8 p) = Ok (2 ^ p)) as Hshl.
  { intros p Hp. unfold shl64, u8. rewrite Z.mod_small, (proj2 (Z.leb_le _ _)), (proj2 (Z.ltb_lt _ _)) by lia. simpl. f_equal.
    rewrite Z.shiftl_1_l. apply u64_small. split; [apply Z.pow_nonneg; lia|apply Z.pow_lt_mono_r; lia]. }
  unfold legacy_mask, mask_at. rewrite (Hshl (high - i)) by lia. simpl. replace (low_bit (nb - i - 1)) with (high - i) by lia. replace (xor_bit (nb - i - 1)) with (xor - i) by lia.
  destruct (Z.eqb_spec xor 0); [by rewrite Z.lor_0_r|]. rewrite Hshl by lia. done.
Qed.

Lemma new_bits_ok start end_ k : 0 <= k < 2 ^ nb -> new_bits start end_ high xor nb k = Ok (mk start end_ masks_at k).
Proof.
  intros Hk. unfold new_bits, check_match. rewrite (proj2 (Z.eqb_neq nb 0)) by lia.
  assert (shl64 1 nb = Ok (2 ^ nb)) as ->.
  { unfold shl64. rewrite (proj2 (Z.leb_le _ _)), (proj2 (Z.ltb_lt _ _)) by lia. simpl. f_equal. rewrite Z.shiftl_1_l. apply u64_small.
    split; [lia|apply Z.pow_lt_mono_r; lia]. }
  simpl. unfold fatal_if. rewrite (proj2 (Z.leb_gt (2 ^ nb) k)) by lia. simpl.
  assert (negb (xor =? 0) && (if xor =? high then true else if high <? xor then xor - high <? nb else high - xor <? nb) = false) as Hapart.
  { destruct (Z.eqb_spec xor 0); [done|]. simpl. destruct (Z.eqb_spec xor high), (Z.ltb_spec high xor); lia. }
  rewrite Hapart. simpl.
  enough (safe (for_ (Z.to_nat nb) 0 (fun i ms => m ← legacy_mask high xor i; vset ms (nb - i - 1) m) (replicate (Z.to_nat nb) 0)) (fun ms => ms = masks_at)) as Hsafe
    by (by destruct (safe_inv _ _ Hsafe) as (ms & -> & ->)).
  eapply safe_mono; [apply (safe_for (fun i ms => length ms = Z.to_nat nb /\ forall j, nb - i <= Z.of_nat j < nb -> ms !! j = Some (mask_at (Z.of_nat j))))|].
  - split; [apply length_replicate|]. intros j Hj. lia.
  - intros i ms Hi [Hlen Hms]. rewrite legacy_mask_ok by lia. simpl. apply safe_vset; [unfold zlength; lia|].
    split; [by rewrite length_insert|]. intros j Hj. destruct (decide (j = Z.to_nat (nb - i - 1))) as [->|Hne].
    + rewrite list_lookup_insert_eq by lia. do 2 f_equal. lia.
    + rewrite list_lookup_insert_ne by done. apply Hms. lia.
  - intros ms [Hlen Hms]. apply list_eq. intros j. destruct (decide (j < Z.to_nat nb)%nat) as [Hj|Hj].
    + rewrite Hms by lia. symmetry. apply masks_at_lookup. done.
    + rewrite !lookup_ge_None_2; [done|pose proof masks_at_length; unfold zlength in *; lia|lia].
Qed.

Lemma mask_at_parity a k : 0 <= a -> 0 <= k < nb ->
  parity (Z.land a (mask_at k)) = xorb (Z.testbit a (low_bit k)) (negb (xor =? 0) && Z.testbit a (xor_bit k)).
Proof.
  intros Ha Hk. assert (forall p, 0 <= p -> parity (Z.land a (2 ^ p)) = Z.testbit a p /\ 0 <= Z.land a (2 ^ p)) as Hone.
  { intros p Hp. split; [|apply Z.land_nonneg; by left]. assert (Z.land a (2 ^ p) = if Z.testbit a p then 2 ^ p else 0) as ->.
    { apply Z.bits_inj_iff'. intros j Hj. rewrite Z.land_spec, Z.pow2_bits_eqb by done.
      destruct (Z.eqb_spec p j) as [->|Hne]; [rewrite andb_true_r|rewrite andb_false_r];
        destruct (Z.testbit a _); by rewrite ?Z.testbit_0_l, ?Z.pow2_bits_true, ?Z.pow2_bits_false. }
    destruct (Z.testbit a p); [|done]. unfold parity. replace (2 ^ p) with (0 + 2 ^ p * 1) by lia. rewrite popCount_concat; [done|lia| |lia].
    split; [lia|]. apply Z.pow_pos_nonneg; lia. }
  assert (mask_at k = Z.lxor (2 ^ low_bit k) (if xor =? 0 then 0 else 2 ^ xor_bit k)) as ->.
  { apply Z.bits_inj_iff'. intros j Hj. rewrite mask_at_testbit, Z.lxor_spec, Z.pow2_bits_eqb by lia.
    destruct (Z.eqb_spec xor 0); simpl; [rewrite Z.testbit_0_l; by destruct (_ =? _)|]. rewrite Z.pow2_bits_eqb by lia.
    destruct (Z.eqb_spec (low_bit k) j), (Z.eqb_spec (xor_bit k) j); lia || done. }
  set (q := if xor =? 0 then 0 else 2 ^ xor_bit k).
  assert (Z.land a (Z.lxor (2 ^ low_bit k) q) = Z.lxor (Z.land a (2 ^ low_bit k)) (Z.land a q)) as ->.
  { apply Z.bits_inj_iff'. intros j Hj. rewrite !Z.land_spec, !Z.lxor_spec, !Z.land_spec.
    by destruct (Z.testbit a j), (Z.testbit (2 ^ _) j), (Z.testbit q j). }
  destruct (Hone (low_bit k)) as [Hl Hl0]; [lia|]. rewrite parity_lxor, Hl; [|done|apply Z.land_nonneg; by left]. f_equal.
  unfold q. destruct (Z.eqb_spec xor 0); simpl; [by rewrite Z.land_0_r|]. apply Hone. lia.
Qed.

(** The stripe of an address, from the bits that the constructor is given. *)
Lemma inside_bits start end_ a k : 0 <= start -> 0 <= k < 2 ^ nb -> inside a (mk start end_ masks_at k) <->
  start <= a < end_ /\ forall i, 0 <= i < nb -> Z.testbit k i = xorb (Z.testbit a (low_bit i)) (negb (xor =? 0) && Z.testbit a (xor_bit i)).
Proof.
  intros Hs Hk. rewrite inside_parts. simpl. rewrite select_iff by (apply masks_at_ok || by rewrite masks_at_length). split.
  - intros [Ha Hsel]. split; [done|]. intros i Hi. rewrite <-mask_at_parity by lia. rewrite (Hsel (Z.to_nat i)) with (m := mask_at i); [f_equal; lia|].
    apply masks_at_lookup. split; [lia|f_equal; lia].
  - intros [Ha Hsel]. split; [done|]. intros i m [Hi ->]%masks_at_lookup. rewrite mask_at_parity by lia. symmetry. apply Hsel. lia.
Qed.

Lemma new_bits_stripe start end_ k : (high < 31 \/ (xor <> 0 /\ xor < 31)) -> 0 <= k < 2 ^ nb -> stripe (mk start end_ masks_at k).
Proof.
  intros Hlow Hk. split; simpl; [apply masks_at_ok| |by rewrite masks_at_length].
  apply list.Forall_forall. intros m [i [Hi ->]%masks_at_lookup]%list_elem_of_lookup. destruct (mask_at_lsb (Z.of_nat i)) as (Hp & _ & Hx); [lia|]. lia.
Qed.

End bits.

(** ** Merging *)

Definition stripes_of (start end_ : Z) (ms : list Z) (count : nat) : list t := (fun i => mk start end_ ms (Z.of_nat i)) <$> seq 0 count.

Lemma merge_stripes start end_ ms : ms <> [] -> zlength ms <= 8 -> merge (stripes_of start end_ ms (Z.to_nat (2 ^ zlength ms))) = Ok (interval start end_).
Proof.
  intros Hne Hlen. pose proof (zlength_nonneg ms). assert (0 < zlength ms) by (unfold zlength in *; destruct ms; [done|cbn [length] in *; lia]).
  assert (2 ^ 1 <= 2 ^ zlength ms) by (apply Z.pow_le_mono_r; lia). assert (2 ^ zlength ms <= 2 ^ 8) by (apply Z.pow_le_mono_r; lia).
  set (n := Z.to_nat (2 ^ zlength ms)). unfold merge.
  assert (zlength (stripes_of start end_ ms n) = 2 ^ zlength ms) as Hl by (unfold zlength at 1, stripes_of; rewrite length_fmap, length_seq; lia). rewrite Hl.
  rewrite (proj2 (Z.ltb_lt _ _)) by lia.
  assert (match stripes_of start end_ ms n with [] => empty | r :: _ => r end = mk start end_ ms 0) as ->.
  { unfold stripes_of. destruct n as [|n'] eqn:En; [lia|done]. }
  simpl masks. assert (shl64 1 (zlength ms) = Ok (2 ^ zlength ms)) as ->.
  { unfold shl64. rewrite (proj2 (Z.leb_le _ _)), (proj2 (Z.ltb_lt _ _)) by lia. simpl. f_equal. rewrite Z.shiftl_1_l. apply u64_small. lia. }
  cbn [mbind res_bind]. rewrite Z.eqb_refl. cbn [negb fatal_if mbind res_bind].
  match goal with |- (for_each _ ?f 0 ≫= _) = _ => enough (safe (for_each (stripes_of start end_ ms n) f 0) (fun _ => True)) as Hsafe
    by (by destruct (safe_inv _ _ Hsafe) as (? & -> & _)) end.
  eapply safe_mono; [apply (safe_for_each (fun pre m => m = u8 (zlength pre)))|done]; [done|].
  intros pre x post m Heq ->. assert (stripes_of start end_ ms n !! length pre = Some x) as Hx by (rewrite Heq; by apply list_lookup_middle).
  unfold stripes_of in Hx. rewrite list_lookup_fmap in Hx. apply fmap_Some in Hx as (i & Hi & ->). apply lookup_seq in Hi as [-> Hi].
  assert (Z.of_nat (length pre) < 2 ^ 8) as Hpre by (unfold n in Hi; lia). simpl in Hi |- *. unfold mergesWith. simpl. rewrite !Z.eqb_refl, bool_decide_true by done. simpl. unfold u8 in *. rewrite !(Z.mod_small (zlength pre)) by (unfold zlength; lia).
  rewrite (proj2 (Z.eqb_eq _ _)) by done. simpl. unfold zlength. rewrite length_app. simpl. f_equal. lia.
Qed.

(** ** Theorems *)

(** C33: interleaving divides an interval.  For any position of the
    interleaving bits, and of the bits to combine them with by exclusive or when
    they are far enough away, the constructor makes a range for every match value;
    a range has the addresses of the interval whose bits, combined, are its
    match value; every address of the interval is in exactly one of them; and
    all of them together merge into the interval. *)
Theorem interleaving_partitions start end_ high xor nb : 0 <= start -> 0 < nb <= 8 -> nb - 1 <= high < 64 ->
  xor = 0 \/ (nb - 1 <= xor < 64 /\ nb <= Z.abs (xor - high)) ->
  exists ms, (forall k, 0 <= k < 2 ^ nb -> new_bits start end_ high xor nb k = Ok (mk start end_ ms k)) /\
    (forall a k, 0 <= k < 2 ^ nb -> contains a (mk start end_ ms k) = Ok true <->
      start <= a < end_ /\ forall i, 0 <= i < nb ->
        Z.testbit k i = xorb (Z.testbit a (high - nb + 1 + i)) (negb (xor =? 0) && Z.testbit a (xor - nb + 1 + i))) /\
    (forall a, start <= a < end_ -> exists k, 0 <= k < 2 ^ nb /\ contains a (mk start end_ ms k) = Ok true /\
      forall k', contains a (mk start end_ ms k') = Ok true -> k' = k) /\
    merge (stripes_of start end_ ms (Z.to_nat (2 ^ nb))) = Ok (interval start end_).
Proof.
  intros Hs Hnb Hhigh Hxor. exists (masks_at high xor nb). pose proof (masks_at_ok high xor nb Hnb Hhigh Hxor) as Hok.
  pose proof (masks_at_length high xor nb Hnb) as Hlen. split; [intros k; by apply new_bits_ok|]. split; [intros a k; by apply inside_bits|]. split.
  - intros a Ha. destruct (inside_stripe a start end_ (masks_at high xor nb) 0 Hok) as (sel & Hsel & Hb & _). rewrite Hlen in Hb.
    exists sel. split; [done|]. split; [by apply inside_parts|]. intros k' [_ Hk']%inside_parts. simpl in Hk'. congruence.
  - rewrite <-Hlen at 2. apply merge_stripes; [apply Hok|lia].
Qed.

Lemma interleaving_partitions_witness : exists ms, new_bits 0 0x10000 7 13 2 3 = Ok (mk 0 0x10000 ms 3) /\
  contains 0x10c0 (mk 0 0x10000 ms 2) = Ok true.
Proof.
  destruct (interleaving_partitions 0 0x10000 7 13 2) as (ms & Hnew & Hin & _); [lia|lia|lia|right; lia|].
  exists ms. split; [by apply Hnew|]. apply Hin; [lia|]. split; [lia|]. intros i Hi. assert (i = 0 \/ i = 1) as [->| ->] by lia; done.
Defined.

Section stripes.
Context `{!StdSort Z Z.ltb} `{!StdSortOk Z Z.ltb}.

(** C34: taking the interleaving bits out of the addresses of a stripe, and
    putting them back, are inverse to each other, whatever bits the masks
    combine: the addresses that select the stripe correspond to all the
    numbers of 64 bits but as many as there are masks. *)
Theorem intlv_roundtrip r : stripe r ->
  (forall a, word a -> select a (masks r) = Ok (intlvMatch r) ->
    exists x, removeIntlvBits a r = Ok x /\ 0 <= x < 2 ^ (64 - zlength (masks r)) /\ addIntlvBits x r = Ok a) /\
  (forall x, 0 <= x < 2 ^ (64 - zlength (masks r)) ->
    exists a, addIntlvBits x r = Ok a /\ word a /\ select a (masks r) = Ok (intlvMatch r) /\ removeIntlvBits a r = Ok x).
Proof. intros Hr. split; [intros a; by apply add_remove|intros x; by apply remove_add]. Qed.

(** Offsets number the addresses of a stripe: when the interval begins and
    ends at multiples of a power of two above the bits that are taken out,
    [getOffset] is a one-to-one map from the addresses of the stripe to the
    numbers below its [size]. *)
Theorem stripe_offsets r top A B : stripe r -> Forall (fun m => ctz64 m < top) (masks r) -> top <= 64 ->
  _start r = A * 2 ^ top -> _end r = B * 2 ^ top -> 0 <= A <= B -> B * 2 ^ top < 2 ^ 64 ->
  exists n, size r = Ok n /\
  (forall a, word a -> contains a r = Ok true -> exists o, getOffset a r = Ok o /\ 0 <= o < n) /\
  (forall o, 0 <= o < n -> exists a, word a /\ contains a r = Ok true /\ getOffset a r = Ok o /\
    forall a', word a' -> contains a' r = Ok true -> getOffset a' r = Ok o -> a' = a).
Proof. intros. eexists. by eapply stripe_offsets_bijection. Qed.

End stripes.

#[global] Instance int_sort_ok : StdSortOk Z Z.ltb.
Proof. apply insertion_sort_ok; intros; lia. Qed.

#[global] Instance range_sort_ok : StdSortOk t lt.
Proof.
  assert (forall x y : t, lt x y = true <-> _start x < _start y \/ (_start x = _start y /\ interleaved x = true /\ (interleaved y = true -> intlvMatch x < intlvMatch y))) as Hlt.
  { intros x y. unfold lt. destruct (Z.eqb_spec (_start x) (_start y)); simpl; [|split; [lia|intros [?|[? _]]; [lia|done]]].
    destruct (interleaved x), (interleaved y); simpl; split; intros; try done; try lia; naive_solver lia. }
  assert (forall x y : t, lt x y = false <-> _start y < _start x \/ (_start x = _start y /\ (interleaved x = true -> interleaved y = true /\ intlvMatch y <= intlvMatch x))) as Hge.
  { intros x y. rewrite <-not_true_iff_false, Hlt. destruct (Z.lt_trichotomy (_start x) (_start y)) as [?|[?|?]]; [split; lia| |split; lia].
    destruct (interleaved x), (interleaved y); naive_solver lia. }
  apply insertion_sort_ok.
  - intros x y Hxy. apply Hge. apply Hlt in Hxy. destruct (interleaved x), (interleaved y); naive_solver lia.
  - intros x y z. rewrite !Hge. destruct (interleaved x), (interleaved y), (interleaved z); naive_solver lia.
Qed.

(** Four stripes of 64 bytes, combined with bits 12 and 13. *)
Definition four_stripes (k : Z) : t := mk 0x4000 0x10000 [0x1040; 0x2080] k.

Lemma four_stripes_ok k : 0 <= k < 4 -> stripe (four_stripes k).
Proof.
  intros Hk. split; [split|..]; simpl.
  - done.
  - by vm_compute.
  - repeat constructor; simpl; lia.
  - intros [|[|]] [|[|]] m m' Hi Hj Hne; simpl in *; try done; simplify_eq; by vm_compute.
  - by repeat constructor.
  - done.
Qed.

Lemma intlv_roundtrip_witness : exists x, removeIntlvBits 0x50c4 (four_stripes 2) = Ok x /\ addIntlvBits x (four_stripes 2) = Ok 0x50c4.
Proof.
  destruct (intlv_roundtrip (four_stripes 2) (four_stripes_ok 2 ltac:(lia))) as [Hrt _].
  destruct (Hrt 0x50c4) as (x & Hrem & _ & Hadd); [by unfold word|by vm_compute|]. by exists x.
Defined.

Lemma stripe_offsets_witness : exists n a, size (four_stripes 2) = Ok n /\ n = 0x3000 /\ contains a (four_stripes 2) = Ok true /\ getOffset a (four_stripes 2) = Ok 0x2fff.
Proof.
  destruct (stripe_offsets (four_stripes 2) 14 1 4 (four_stripes_ok 2 ltac:(lia))) as (n & Hn & _ & Honto); [by repeat constructor|done..|].
  pose proof Hn as Hn'. vm_compute in Hn'. injection Hn' as <-. destruct (Honto 0x2fff) as (a & _ & Ha & Ho & _); [lia|]. by exists 0x3000, a.
Defined.

(** C35: excluding ranges from a range leaves exactly the addresses of the
    range that are in none of the others, as ranges that are not empty, in order
    and without overlap, whatever the order and the overlaps of the ranges to
    exclude. *)
Theorem exclude_difference `{!StdSort t lt} `{!StdSortOk t lt} l self : plain self -> Forall ordinary l ->
  exists out, exclude l self = Ok out /\
    (forall a, (exists o, o ∈ out /\ contains a o = Ok true) <-> contains a self = Ok true /\ forall e, e ∈ l -> contains a e <> Ok true) /\
    Forall (fun o => _start o < _end o) out /\ StronglySorted (fun x y => _end x <= _start y) out.
Proof.
  intros Hself Hl. destruct (exclude_ok l self Hself Hl) as (out & -> & [Hsame Hplain Hsorted]). exists out. split; [done|]. split; [|split; [|done]].
  - intros a. fold (inside a self). rewrite inside_interval by apply Hself. apply Hsame.
  - eapply list.Forall_impl; [exact Hplain|]. simpl. lia.
Qed.

Lemma exclude_difference_witness : exists out, exclude [interval 6 8; interval 2 4; interval 3 5] (interval 0 10) = Ok out /\
  exists o, o ∈ out /\ contains 5 o = Ok true.
Proof.
  destruct (exclude_difference [interval 6 8; interval 2 4; interval 3 5] (interval 0 10)) as (out & Hout & Hsame & _); [done|by repeat constructor|].
  exists out. split; [exact Hout|]. apply Hsame. split; [by vm_compute|]. intros e. rewrite !elem_of_cons, elem_of_nil.
  intros [->|[->|[->|[]]]]; by vm_compute.
Defined.

(** ** Limits *)

(** The complement of the lowest bit of a mask is an [int]: from bit 31 on it
    clears the higher bits of the mask too, and the address comes back
    different. *)
Example high_mask_lost : let r := mk 0 (2 ^ 41) [2 ^ 31 + 2 ^ 40] 1 in
  contains (2 ^ 40) r = Ok true /\ removeIntlvBits (2 ^ 40) r = Ok (2 ^ 39) /\ addIntlvBits (2 ^ 39) r = Ok (2 ^ 40 + 2 ^ 31).
Proof. by vm_compute. Qed.

(** For a stripe of size 1, [intersects] looks at the first address of its
    interval, which need not be the one of the stripe. *)
Example small_stripe_missed : let r := mk 0 2 [1] 1 in let self := interval 1 3 in
  contains 1 r = Ok true /\ contains 1 self = Ok true /\ intersects r self = Ok false.
Proof. by vm_compute. Qed.

(** The masks are combined in an [int]: high bits are lost. *)
Example high_granularity_undefined : granularity (mk 0 (2 ^ 40) [2 ^ 32] 0) = Err Undefined.
Proof. by vm_compute. Qed.

(** Ranges that end before they start bring back excluded addresses. *)
Example invalid_range_excluded : exclude [interval 2 8; interval 9 4] (interval 0 10) = Ok [interval 0 2; interval 8 9; interval 4 10].
Proof. by vm_compute. Qed.
