(* ===== verification/AddrRangeMap.v ===== *)
(** * AddrRangeMap: maps from ranges of addresses

    base/addr_range_map.hh: a [std::map] ordered by the [operator<] of the
    ranges, with a list of iterators to the nodes that were found last.  A node of
    the map has a number, which is what an iterator holds; an iterator to a node
    that was erased is not valid.

    In a map whose ranges do not overlap, looking up an address finds the
    entry of the range it is in, with or without the cache of iterators; a new
    entry is refused exactly when its range overlaps another one. *)

From Stdlib Require Import Sorted.
From stdpp Require Import list sorting.
From S2P Require Import Prelude Bitfield BitfieldProofs Heap AddrRange AddrRangeProofs.

Module AddrRangeMap.

Record Node (V : Type) := mkNode { node_id : Z; first : AddrRange.t; second : V }.
Arguments mkNode {V}. Arguments node_id {V}. Arguments first {V}. Arguments second {V}.

(** The nodes in order; [fresh] is the number of the next node. *)
Record t (V : Type) := mk { tree : list (Node V); cache : list Z; fresh : Z }.
Arguments mk {V}. Arguments tree {V}. Arguments cache {V}. Arguments fresh {V}.
#[global] Instance t_eta V : Etaed (t V) := fun m => mk (tree m) (cache m) (fresh m).

Section map.
Context {V : Type} (max_cache_size : Z).

Definition new : t V := mk [] [] 0.

Definition deref (it : Z) (m : t V) : res (Node V) :=
  match list_find (fun n => node_id n = it) (tree m) with Some (_, n) => Ok n | None => Err Undefined end.

(** A full cache gives up its last entry; the new one goes to the front. *)
Definition addNewEntryToCache (it : Z) (m : t V) : t V :=
  if max_cache_size =? 0 then m
  else if u64 max_cache_size <=? zlength (cache m) then
    m <| cache := if 1 <? max_cache_size then it :: removelast (cache m) else removelast (cache m) ++ [it] |>
  else m <| cache := it :: cache m |>.

Section find.
Context (cond : AddrRange.t -> res bool).

(** The iterators of the cache in turn: the one that is found goes to the front. *)
Fixpoint find_cached (seen rest : list Z) (m : t V) : res (option (Node V) * t V) :=
  match rest with
  | [] => Ok (None, m)
  | it :: rest' =>
      n ← deref it m;
      hit ← cond (first n);
      if hit : bool then Ok (Some n, m <| cache := it :: seen ++ rest' |>) else find_cached (seen ++ [it]) rest' m
  end.

(** Down from a node, as long as the ranges merge. *)
Fixpoint walk_down (down : list (Node V)) : res (option (Node V)) :=
  match down with
  | [] => Ok None
  | i :: rest =>
      hit ← cond (first i);
      if hit : bool then Ok (Some i)
      else match rest with
           | next :: _ => if AddrRange.mergesWith (first i) (first next) then walk_down rest else Ok None
           | [] => Ok None
           end
  end.

(** [upper_bound]: the nodes before the first one that the range is less
    than, and those from it on. *)
Fixpoint upper_bound (r : AddrRange.t) (l : list (Node V)) : list (Node V) * list (Node V) :=
  match l with
  | [] => ([], [])
  | x :: l' => if AddrRange.lt r (first x) then ([], l) else let '(before, from) := upper_bound r l' in (x :: before, from)
  end.

Definition find (r : AddrRange.t) (m : t V) : res (option (Node V) * t V) :=
  '(cached, m) ← find_cached [] (cache m) m;
  match cached with
  | Some n => Ok (Some n, m)
  | None =>
      let '(before, from) := upper_bound r (tree m) in
      next ← (match from with n :: _ => hit ← cond (first n); Ok (if hit : bool then Some n else None) | [] => Ok None end);
      found ← (match next with Some n => Ok (Some n) | None => walk_down (reverse before) end);
      Ok (match found with Some n => (Some n, addNewEntryToCache (node_id n) m) | None => (None, m) end)
  end.

End find.

(** A range that contains the argument; the address is a range of size 1. *)
Definition contains (r : AddrRange.t) : t V -> res (option (Node V) * t V) := find (fun r1 => AddrRange.isSubset r1 r) r.
Definition contains_addr (a : Z) : t V -> res (option (Node V) * t V) := contains (AddrRange.RangeSize a 1).
Definition intersects (r : AddrRange.t) : t V -> res (option (Node V) * t V) := find (fun r1 => AddrRange.intersects r1 r) r.

(** Into the tree, where an equivalent range stays as it is. *)
Fixpoint tree_insert (n : Node V) (l : list (Node V)) : list (Node V) * Node V :=
  match l with
  | [] => ([n], n)
  | x :: l' =>
      if AddrRange.lt (first n) (first x) then (n :: l, n)
      else if AddrRange.lt (first x) (first n) then let '(l', n) := tree_insert n l' in (x :: l', n)
      else (l, x)
  end.

Definition insert (r : AddrRange.t) (d : V) (m : t V) : res (option (Node V) * t V) :=
  '(found, m) ← intersects r m;
  match found with
  | Some _ => Ok (None, m)
  | None => let '(l, n) := tree_insert (mkNode (fresh m) r d) (tree m) in Ok (Some n, m <| tree := l |> <| fresh ::= Z.succ |>)
  end.

Definition drop_cached (it : Z) (m : t V) : t V := m <| cache ::= filter (fun c => c <> it) |>.

Definition erase (p : Z) (m : t V) : res (t V) :=
  _ ← deref p m;
  let m := drop_cached p m in
  Ok (m <| tree ::= filter (fun n => node_id n <> p) |>).

(** The nodes from an iterator on, and those before another one. *)
Fixpoint nodes_from (p : option Z) (l : list (Node V)) : list (Node V) :=
  match l with [] => [] | x :: l' => if bool_decide (p = Some (node_id x)) then l else nodes_from p l' end.

Fixpoint nodes_until (q : option Z) (l : list (Node V)) : res (list (Node V)) :=
  match l with
  | [] => if bool_decide (q = None) then Ok [] else Err Undefined
  | x :: l' => if bool_decide (q = Some (node_id x)) then Ok [] else l'' ← nodes_until q l'; Ok (x :: l'')
  end.

(** For every node, it is the first one that is taken out of the cache. *)
Definition erase_range (p q : option Z) (m : t V) : res (t V) :=
  _ ← (match p with Some it => _ ← deref it m; Ok tt | None => Ok tt end);
  l ← nodes_until q (nodes_from p (tree m));
  let m := foldl (fun m _ => match p with Some it => drop_cached it m | None => m end) m l in
  Ok (m <| tree ::= filter (fun n => node_id n ∉ node_id <$> l) |>).

Definition clear (m : t V) : t V := m <| cache := [] |> <| tree := [] |>.
Definition size (m : t V) : Z := zlength (tree m).
Definition is_empty (m : t V) : bool := zlength (tree m) =? 0.

End map.
End AddrRangeMap.

Import AddrRange(_start, _end, masks, intlvMatch, interleaved, mergesWith, interval, RangeSize, lt).
Import AddrRangeMap(Node, mkNode, node_id, first, second, tree, cache, fresh, deref, find_cached, walk_down, upper_bound,
  addNewEntryToCache, tree_insert, drop_cached).

(** ** Ranges in a map *)

Record fit (r : AddrRange.t) : Prop := {
  fit_kind : stripe r \/ plain r;
  fit_bounds : 0 <= _start r < _end r /\ _end r < 2 ^ 64;
  fit_size : interleaved r = true -> AddrRange.size r <> Ok 1;
}.

Definition covers (a : Z) (r : AddrRange.t) : bool := match AddrRange.contains a r with Ok b => b | Err _ => false end.

Lemma covers_iff a r : covers a r = true <-> inside a r.
Proof. unfold covers, inside. destruct (AddrRange.contains a r) as [[]|]; naive_solver. Qed.

Lemma contains_covers a r : stripe r \/ plain r -> AddrRange.contains a r = Ok (covers a r).
Proof.
  intros Hr. unfold covers, AddrRange.contains. destruct (_ && _); [|done]. destruct Hr as [Hr|[Hi _]].
  - by destruct (select_ok _ (st_masks _ Hr) a) as (s & -> & _).
  - unfold interleaved in Hi. by destruct (masks r).
Qed.

Lemma isSubset_addr a r : fit r -> 0 <= a < 2 ^ 64 - 1 -> AddrRange.isSubset r (RangeSize a 1) = Ok (covers a r).
Proof.
  intros [Hkind Hb _] Ha. unfold RangeSize. rewrite u64_small by lia. unfold AddrRange.isSubset.
  change (interleaved (interval a (a + 1))) with false. cbn [_start _end interval]. replace (a + 1 - 1) with a by lia. rewrite u64_small by lia.
  destruct Hkind as [Hr|Hr].
  - rewrite stripe_interleaved by done. rewrite contains_covers by (by left). cbn [mbind res_bind]. destruct (covers a r); [|done]. cbn [negb].
    assert (AddrRange.size (interval a (a + 1)) = Ok 1) as ->.
    { unfold AddrRange.size. cbn [_start _end interval masks]. rewrite u64_small by lia. replace (a + 1 - a) with 1 by lia. done. }
    destruct (combine_lsb (masks r) (mo_some _ (st_masks _ Hr)) (stripe_lows r Hr)) as [Hg _]. unfold AddrRange.granularity.
    rewrite stripe_interleaved by done. fold (combine (masks r)). set (g := ctz64 (u64 (combine (masks r)))) in *.
    assert (shl64 1 g = Ok (2 ^ g)) as ->.
    { unfold shl64. rewrite (proj2 (Z.leb_le _ _)), (proj2 (Z.ltb_lt _ _)) by lia. simpl. f_equal. rewrite Z.shiftl_1_l. apply u64_small.
      split; [apply Z.pow_nonneg; lia|apply Z.pow_lt_mono_r; lia]. }
    cbn [mbind res_bind]. f_equal. apply Z.leb_le. pose proof (Z.pow_pos_nonneg 2 g). lia.
  - rewrite (proj1 Hr). f_equal. apply eq_true_iff_eq. rewrite covers_iff, inside_interval by apply Hr. rewrite andb_true_iff, !Z.leb_le. lia.
Qed.

Lemma merges_parts x y : mergesWith x y = true <-> _start x = _start y /\ _end x = _end y /\ masks x = masks y.
Proof. unfold mergesWith. rewrite !andb_true_iff, !Z.eqb_eq, bool_decide_eq_true. tauto. Qed.

(** The order of the ranges in the tree. *)
Definition before (x y : AddrRange.t) : Prop := _end x <= _start y \/ (mergesWith y x = true /\ intlvMatch x < intlvMatch y).

(** What a map can hold together: otherwise [intersects] panics. *)
Definition compatible (x y : AddrRange.t) : Prop :=
  _end x <= _start y \/ _end y <= _start x \/ (plain x /\ plain y) \/ mergesWith x y = true.

Definition overlap (x y : AddrRange.t) : bool :=
  negb ((_end x <=? _start y) || (_end y <=? _start x)) && (negb (mergesWith x y) || (intlvMatch x =? intlvMatch y)).

Lemma intersects_overlap x y : fit x -> fit y -> compatible x y -> AddrRange.intersects x y = Ok (overlap x y).
Proof.
  intros [Hx _ Hxs] [Hy _ _] Hc. unfold AddrRange.intersects, overlap.
  destruct (Z.leb_spec (_end x) (_start y)); [done|]. destruct (Z.leb_spec (_end y) (_start x)); [done|]. cbn [orb negb andb].
  destruct (interleaved y) eqn:Ey, (interleaved x) eqn:Ex; cbn [negb andb].
  4: { destruct Hx as [Hx|[_ Hx]]; [by rewrite stripe_interleaved in Ex|]. destruct Hy as [Hy|[_ Hy]]; [by rewrite stripe_interleaved in Ey|].
       rewrite Hx, Hy. by rewrite orb_true_r. }
  all: assert (mergesWith x y = true) as Hm by (destruct Hc as [?|[?|[[[? _] [? _]]|?]]]; [lia|lia|congruence|done]).
  2,3: apply merges_parts in Hm as (_ & _ & Hm); unfold interleaved in Ex, Ey; rewrite Hm in Ex; congruence.
  rewrite Hm. destruct Hx as [Hx|[? _]]; [|congruence]. destruct (AddrRange.size x) as [n|] eqn:En.
  - cbn [mbind res_bind]. rewrite (proj2 (Z.eqb_neq n 1)); [by rewrite Z.eqb_sym|]. intros ->. by apply Hxs.
  - unfold AddrRange.size in En. rewrite shr64_Ok in En; [done|]. pose proof (mo_few _ (st_masks _ Hx)). pose proof (zlength_nonneg (masks x)). lia.
Qed.

(** Ranges that do not overlap are ordered, one way or the other. *)
Lemma ordered x y : fit x -> fit y -> compatible x y -> overlap x y = false -> before x y \/ before y x.
Proof.
  intros [Hx Hxb _] [Hy Hyb _] Hc Ho. unfold overlap in Ho. destruct (Z.leb_spec (_end x) (_start y)); [by left; left|].
  destruct (Z.leb_spec (_end y) (_start x)); [by right; left|]. cbn in Ho. apply orb_false_iff in Ho as [Hm%negb_false_iff Hne%Z.eqb_neq].
  assert (mergesWith y x = true) by (apply merges_parts; apply merges_parts in Hm; naive_solver).
  unfold before. destruct (Z.lt_ge_cases (intlvMatch x) (intlvMatch y)); [left|right]; right; (split; [done|lia]).
Qed.

Lemma fit_plain x : fit x -> interleaved x = false -> plain x.
Proof. intros [[Hx|Hx] _ _] Hi; [by rewrite stripe_interleaved in Hi|done]. Qed.

Lemma merges_interleaved x y : mergesWith x y = true -> interleaved x = interleaved y.
Proof. intros (_ & _ & Hm)%merges_parts. unfold interleaved. by rewrite Hm. Qed.

Lemma before_lt x y : fit x -> fit y -> before x y -> lt x y = true /\ lt y x = false.
Proof.
  intros Hx Hy [Hxy|[Hm Hlt]]; pose proof (fit_bounds _ Hx); unfold lt.
  - rewrite !(proj2 (Z.eqb_neq _ _)) by lia. cbn [negb]. split; [apply Z.ltb_lt|apply Z.ltb_ge]; lia.
  - rewrite (merges_interleaved _ _ Hm). apply merges_parts in Hm as (Hs & _ & Hm). rewrite Hs, Z.eqb_refl. cbn [negb].
    destruct (interleaved x) eqn:Ei; cbn [andb]; [split; [apply Z.ltb_lt|apply Z.ltb_ge]; lia|].
    assert (interleaved y = false) as Ey by (unfold interleaved in *; by rewrite Hm).
    destruct (fit_plain x Hx Ei) as [_ Hx0], (fit_plain y Hy Ey) as [_ Hy0]. lia.
Qed.

(** No address is in two ranges. *)
Lemma before_apart a x y : before x y -> inside a x -> ~ inside a y.
Proof.
  intros Hb [Hx Hxs]%inside_parts [Hy Hys]%inside_parts. destruct Hb as [?|[(_ & _ & Hm)%merges_parts ?]]; [lia|].
  rewrite Hm, Hxs in Hys. injection Hys as Hk. lia.
Qed.

Lemma filter_sorted {A} (R : A -> A -> Prop) (Q : A -> Prop) `{!forall x, Decision (Q x)} l : StronglySorted R l -> StronglySorted R (filter Q l).
Proof.
  induction 1 as [|x l Hs IH Hf]; [constructor|]. rewrite filter_cons. destruct (decide (Q x)); [|done]. constructor; [done|].
  rewrite list.Forall_forall in Hf. apply list.Forall_forall. intros y [_ Hy]%list_elem_of_filter. auto.
Qed.

(** ** Searching *)

Section map.
Context {V : Type} (max_cache_size : Z) (Hmax : 0 <= max_cache_size < 2 ^ 31).
Notation Map := (AddrRangeMap.t V).

Record wf (m : Map) : Prop := {
  wf_sorted : StronglySorted (fun x y => before (first x) (first y)) (tree m);
  wf_fit n : n ∈ tree m -> fit (first n);
  wf_ids : NoDup (node_id <$> tree m);
  wf_fresh n : n ∈ tree m -> node_id n < fresh m;
  wf_cache it : it ∈ cache m -> it ∈ node_id <$> tree m;
  wf_cache_once : NoDup (cache m);
  wf_cache_size : zlength (cache m) <= max_cache_size;
}.

(** The same entries; only the cache is different. *)
Definition same_entries (m m' : Map) : Prop := tree m' = tree m /\ fresh m' = fresh m.

Lemma deref_node (m : Map) n : wf m -> n ∈ tree m -> deref (node_id n) m = Ok n.
Proof.
  intros Hwf Hn. pose proof (wf_ids _ Hwf) as Hids. unfold deref.
  destruct (list_find _ (tree m)) as [[i n']|] eqn:E.
  - apply list_find_Some in E as (Hi & Hid & _). f_equal. apply list_elem_of_lookup in Hn as [j Hj].
    assert (i = j) as -> by (eapply NoDup_lookup; [exact Hids|rewrite list_lookup_fmap, Hi; done|rewrite list_lookup_fmap, Hj; simpl; by rewrite Hid]). congruence.
  - exfalso. apply list_find_None in E. rewrite list.Forall_forall in E. by apply (E n).
Qed.

Lemma cached_node (m : Map) it : wf m -> it ∈ cache m -> exists n, n ∈ tree m /\ node_id n = it.
Proof. intros Hwf (n & -> & Hn)%(wf_cache _ Hwf)%list_elem_of_fmap. eauto. Qed.

Lemma wf_same m m' : wf m -> same_entries m m' -> cache m' ≡ₚ cache m -> wf m'.
Proof.
  intros [H1 H2 H3 H4 H5 H6 H7] [Ht Hf] Hp. split; rewrite ?Ht, ?Hf; try done.
  - intros it. rewrite Hp. apply H5.
  - by rewrite Hp.
  - unfold zlength. by rewrite Hp.
Qed.

Lemma add_cache_wf m n : wf m -> n ∈ tree m -> node_id n ∉ cache m -> wf (addNewEntryToCache max_cache_size (node_id n) m) /\
  same_entries m (addNewEntryToCache max_cache_size (node_id n) m).
Proof.
  intros Hwf Hn Hnew. pose proof Hwf as [H1 H2 H3 H4 H5 H6 H7].
  assert (forall l, (forall it, it ∈ l -> it ∈ cache m) -> NoDup l -> zlength l < max_cache_size -> forall l', l' ≡ₚ node_id n :: l -> wf (m <| cache := l' |>)) as Hadd.
  { intros l Hsub Hnd Hlen l' Hp. split; [done..| | |]; simpl.
    - intros it. rewrite Hp, elem_of_cons. intros [->|Hit]; [by apply list_elem_of_fmap_2|auto].
    - rewrite Hp. apply list.NoDup_cons. auto.
    - unfold zlength in *. rewrite Hp. simpl. lia. }
  unfold addNewEntryToCache. destruct (Z.eqb_spec max_cache_size 0); [done|]. rewrite u64_small by lia.
  destruct (Z.leb_spec max_cache_size (zlength (cache m))); (split; [|done]).
  - assert (cache m <> []) as Hne by (intros Hnil; rewrite Hnil in *; unfold zlength in *; simpl in *; lia).
    pose proof (List.app_removelast_last 0 Hne) as Hl. set (l := removelast (cache m)) in *. rewrite Hl in H6, H7. apply list.NoDup_app in H6 as (H6 & _).
    assert (zlength l < max_cache_size) by (unfold zlength in *; rewrite length_app in H7; simpl in H7; lia).
    apply (Hadd l); [intros it Hit; rewrite Hl; set_solver|done|done|]. destruct (_ <? _); [done|]. by rewrite Permutation_app_comm.
  - by apply (Hadd (cache m)).
Qed.

(** A condition that answers [P] on every entry. *)
Section find.
Context (cond : AddrRange.t -> res bool) (P : Node V -> bool).
Context (m : Map) (Hm : wf m) (Hcond : forall n, n ∈ tree m -> cond (first n) = Ok (P n)).

Lemma find_cached_ok seen rest : cache m = seen ++ rest -> exists o m', find_cached cond seen rest m = Ok (o, m') /\ same_entries m m' /\ cache m' ≡ₚ cache m /\
  match o with Some n => n ∈ tree m /\ P n = true | None => m' = m /\ forall n, n ∈ tree m -> node_id n ∈ rest -> P n = false end.
Proof.
  revert seen. induction rest as [|it rest IH]; intros seen Hc; simpl.
  { eexists _, _. split; [done|]. split; [done|]. split; [done|]. split; [done|]. intros n _ []%elem_of_nil. }
  destruct (cached_node m it Hm) as (n & Hn & <-); [rewrite Hc; set_solver|]. rewrite (deref_node m n Hm Hn). cbn [mbind res_bind]. rewrite Hcond by done. cbn [mbind res_bind].
  destruct (P n) eqn:EP.
  - eexists _, _. split; [done|]. split; [done|]. split; [|done]. simpl. rewrite Hc. apply Permutation_middle.
  - destruct (IH (seen ++ [node_id n])) as (o & m' & Hf & Hs & Hp & Ho); [by rewrite <-(assoc_L (++))|]. exists o, m'. split_and!; [done..|].
    destruct o; [done|]. destruct Ho as [-> Ho]. split; [done|]. intros n' Hn' [Hid|Hin]%elem_of_cons; [|by apply Ho].
    pose proof (deref_node m n Hm Hn) as Hd. rewrite <-Hid, (deref_node m n' Hm Hn') in Hd. by injection Hd as ->.
Qed.

Lemma walk_down_ok down : (forall n, n ∈ down -> n ∈ tree m) ->
  (forall pre y post, down = pre ++ y :: post -> P y = true -> forall z, z ∈ pre -> mergesWith (first z) (first y) = true) ->
  exists o, walk_down cond down = Ok o /\ match o with Some n => n ∈ down /\ P n = true | None => forall n, n ∈ down -> P n = false end.
Proof.
  induction down as [|i down IH]; intros Hin Hreach; [exists None; split; [done|]; by intros n ?%elem_of_nil|]. simpl.
  rewrite Hcond by set_solver. cbn [mbind res_bind]. destruct (P i) eqn:EP; [exists (Some i); split; [done|]; set_solver|].
  destruct down as [|next down]; [exists None; split; [done|]; by intros n ->%list_elem_of_singleton|].
  destruct (mergesWith (first i) (first next)) eqn:Em.
  - destruct IH as (o & Ho & Hres); [set_solver| |].
    { intros pre y post Heq HP z Hz. apply (Hreach (i :: pre) y post); [by rewrite Heq|done|set_solver]. }
    exists o. split; [done|]. destruct o; [set_solver|]. intros n [->|?]%elem_of_cons; auto.
  - exists None. split; [done|]. intros n [->|Hn]%elem_of_cons; [done|]. apply not_true_is_false. intros HP.
    apply list_elem_of_split in Hn as (pre & post & Heq). pose proof (Hreach (i :: pre) n post) as Hr. rewrite Heq in Hr. specialize (Hr eq_refl HP).
    pose proof (Hr i ltac:(set_solver)) as Hi. enough (mergesWith (first i) (first next) = true) by congruence.
    destruct pre as [|z pre]; simplify_eq/=; [done|]. pose proof (Hr z ltac:(set_solver)) as Hz. rewrite merges_parts in *. naive_solver congruence.
Qed.

Lemma upper_bound_split r (l lo hi : list (Node V)) : upper_bound r l = (lo, hi) -> l = lo ++ hi /\ (forall n, n ∈ lo -> lt r (first n) = false) /\
  match hi with n :: _ => lt r (first n) = true | [] => True end.
Proof.
  revert lo hi. induction l as [|x l IH]; intros lo hi; simpl; [intros [= <- <-]; set_solver|].
  destruct (lt r (first x)) eqn:E; [intros [= <- <-]; set_solver|]. destruct (upper_bound r l) as [lo' hi'] eqn:El. intros [= <- <-].
  destruct (IH _ _ eq_refl) as (-> & Hlo & Hhi). split; [done|]. split; [|done]. intros n [->|?]%elem_of_cons; auto.
Qed.

(** The entries that the search looks at are enough: among the entries above the range
    the first one, below it those that merge with an entry to find. *)
Context (r : AddrRange.t).
Context (Habove : forall h y, h ∈ tree m -> y ∈ tree m -> P y = true -> before (first h) (first y) -> lt r (first h) = true -> P h = true).
Context (Hbelow : forall y z, y ∈ tree m -> z ∈ tree m -> P y = true -> before (first y) (first z) -> lt r (first z) = false -> mergesWith (first z) (first y) = true).

Lemma find_ok : exists o m', AddrRangeMap.find max_cache_size cond r m = Ok (o, m') /\ wf m' /\ same_entries m m' /\
  match o with Some n => n ∈ tree m /\ P n = true | None => forall n, n ∈ tree m -> P n = false end.
Proof.
  unfold AddrRangeMap.find. destruct (find_cached_ok [] (cache m) eq_refl) as (o & m' & -> & Hs & Hp & Ho). cbn [mbind res_bind].
  destruct o as [n|]; [exists (Some n), m'; split_and!; [done|by apply (wf_same m)|done|apply Ho|apply Ho]|]. destruct Ho as [-> Hmiss].
  destruct (upper_bound r (tree m)) as [lo hi] eqn:Eu. apply upper_bound_split in Eu as (Htree & Hlo & Hhi).
  pose proof (wf_sorted _ Hm) as Hsort. rewrite Htree in Hsort. apply StronglySorted_app in Hsort as (_ & Hslo & Hshi).
  assert (exists o, (match hi with n :: _ => hit ← cond (first n); Ok (if hit : bool then Some n else None) | [] => Ok None end) = Ok o /\
    match o with Some n => n ∈ tree m /\ P n = true | None => forall n, n ∈ hi -> P n = false end) as (o & -> & Ho).
  { destruct hi as [|h hi]; [exists None; split; [done|]; by intros n ?%elem_of_nil|]. assert (h ∈ tree m) as Hh by (rewrite Htree; set_solver).
    rewrite (Hcond h Hh). eexists. split; [done|]. destruct (P h) eqn:EP; [done|]. intros n [->|Hn]%elem_of_cons; [done|].
    apply not_true_is_false. intros HP. apply StronglySorted_inv in Hshi as [_ Hf]. rewrite list.Forall_forall in Hf.
    rewrite (Habove h n) in EP; [done|done|rewrite Htree; set_solver|done|by apply Hf|done]. }
  cbn [mbind res_bind].
  assert (exists o', (match o with Some n => Ok (Some n) | None => walk_down cond (reverse lo) end) = Ok o' /\
    match o' with Some n => n ∈ tree m /\ P n = true | None => forall n, n ∈ tree m -> P n = false end) as (o' & -> & Ho').
  { destruct o as [n|]; [by exists (Some n)|]. destruct (walk_down_ok (reverse lo)) as (o' & -> & Ho'); [intros n; rewrite Htree; set_solver| |].
    - intros pre y post Heq HP z Hz. apply (f_equal reverse) in Heq. rewrite reverse_involutive, reverse_app, reverse_cons, <-(assoc_L (++)) in Heq. simpl in Heq.
      rewrite Heq in Hslo, Hlo. apply StronglySorted_app in Hslo as (_ & _ & Hsy). apply StronglySorted_inv in Hsy as [_ Hf]. rewrite list.Forall_forall in Hf.
      apply Hbelow; [rewrite Htree, Heq; set_solver..|done|apply Hf; set_solver|apply Hlo; set_solver].
    - exists o'. split; [done|]. destruct o'; [rewrite Htree; set_solver|]. intros n. rewrite Htree, elem_of_app. intros [Hn|Hn]; [apply Ho'; set_solver|auto]. }
  cbn [mbind res_bind]. destruct o' as [n|]; [|by exists None, m]. destruct Ho' as [Hn HP].
  assert (node_id n ∉ cache m) as Hnew by (intros Hin; rewrite Hmiss in HP by done; done).
  destruct (add_cache_wf m n Hm Hn Hnew) as [Hwf' Hs']. eexists _, _. by split_and!.
Qed.

End find.
(** ** Addresses *)

(** The value of an address. *)
Definition value_at (a : Z) (m : Map) : option V := second <$> head (filter (fun n => covers a (first n) = true) (tree m)).

Lemma value_at_unique (m : Map) a n n' : wf m -> n ∈ tree m -> n' ∈ tree m -> inside a (first n) -> inside a (first n') -> n = n'.
Proof.
  intros Hm (l1 & l2 & Ht)%list_elem_of_split Hn' Hin Hin'. pose proof (wf_sorted _ Hm) as Hs. rewrite Ht in Hs, Hn'.
  apply StronglySorted_app in Hs as (H1 & _ & H2). apply StronglySorted_inv in H2 as [_ H2]. rewrite list.Forall_forall in H2.
  rewrite elem_of_app, elem_of_cons in Hn'. destruct Hn' as [Hn'|[->|Hn']]; [exfalso|done|exfalso].
  - eapply before_apart; [apply (H1 n' n); [done|by left]|done..].
  - eapply before_apart; [by apply (H2 n')|done..].
Qed.

Lemma value_at_Some (m : Map) a v : wf m -> value_at a m = Some v <-> exists n, n ∈ tree m /\ inside a (first n) /\ second n = v.
Proof.
  intros Hm. unfold value_at. split.
  - intros (n & (Hc & Hn)%head_Some_elem_of%list_elem_of_filter & ->)%fmap_Some. apply covers_iff in Hc. eauto.
  - intros (n & Hn & Hin & <-). destruct (filter _ (tree m)) as [|n' l] eqn:E.
    + assert (n ∈ @nil (Node V)) as []%elem_of_nil. rewrite <-E. apply list_elem_of_filter. by rewrite covers_iff.
    + assert (n' ∈ filter (fun n => covers a (first n) = true) (tree m)) as [Hc' Hn']%list_elem_of_filter by (rewrite E; by left).
      apply covers_iff in Hc'. simpl. by rewrite (value_at_unique m a n' n).
Qed.

Lemma value_at_None (m : Map) a : wf m -> value_at a m = None <-> forall n, n ∈ tree m -> ~ inside a (first n).
Proof.
  intros Hm. split.
  - intros Hnone n Hn Hin. assert (value_at a m = Some (second n)) by (apply value_at_Some; eauto). congruence.
  - intros Hno. destruct (value_at a m) as [v|] eqn:E; [|done]. apply value_at_Some in E as (n & Hn & Hin & _); [|done]. by destruct (Hno n Hn).
Qed.

Lemma value_at_same m m' a : same_entries m m' -> value_at a m' = value_at a m.
Proof. intros [Ht _]. unfold value_at. by rewrite Ht. Qed.

Lemma inside_start a r : inside a r -> _start r <= a < _end r.
Proof. by intros [? _]%inside_parts. Qed.

Lemma before_start x y : fit x -> before x y -> _start x <= _start y.
Proof. intros Hx [?|[(? & _)%merges_parts _]]; pose proof (fit_bounds _ Hx); lia. Qed.

Lemma contains_addr_ok (m : Map) a : wf m -> 0 <= a < 2 ^ 64 - 1 -> exists o m', AddrRangeMap.contains_addr max_cache_size a m = Ok (o, m') /\
  wf m' /\ same_entries m m' /\ second <$> o = value_at a m.
Proof.
  intros Hm Ha. unfold AddrRangeMap.contains_addr, AddrRangeMap.contains.
  assert (RangeSize a 1 = interval a (a + 1)) as Hr by (unfold RangeSize; by rewrite u64_small by lia).
  destruct (find_ok (fun r1 => AddrRange.isSubset r1 (RangeSize a 1)) (fun n => covers a (first n)) m Hm) with (r := RangeSize a 1) as (o & m' & Hf & Hwf & Hs & Ho).
  - intros n Hn. by apply isSubset_addr; [apply (wf_fit _ Hm)|].
  - intros h y Hh Hy HP%covers_iff%inside_start Hb Hlt. rewrite Hr in Hlt. apply (before_start _ _ (wf_fit _ Hm h Hh)) in Hb.
    unfold lt in Hlt. simpl in Hlt. destruct (Z.eqb_spec a (_start (first h))); simpl in Hlt; [done|lia].
  - intros y z Hy Hz HP%covers_iff%inside_start [Hb|[Hb _]] Hlt; [|done]. rewrite Hr in Hlt. unfold lt in Hlt. simpl in Hlt.
    destruct (Z.eqb_spec a (_start (first z))); simpl in Hlt; lia.
  - exists o, m'. split_and!; [done..|]. symmetry. destruct o as [n|]; simpl.
    + apply value_at_Some; [done|]. exists n. rewrite <-covers_iff. naive_solver.
    + apply value_at_None; [done|]. intros n Hn Hin%covers_iff. by rewrite Ho in Hin.
Qed.

(** ** Insertion *)

Lemma overlap_cases x y : compatible x y -> overlap x y = true ->
  _start y < _end x /\ _start x < _end y /\ ((plain x /\ plain y) \/ (mergesWith x y = true /\ intlvMatch x = intlvMatch y)).
Proof.
  unfold overlap. intros Hc [Ho Hm]%andb_true_iff. apply negb_true_iff, orb_false_iff in Ho as [H1%Z.leb_gt H2%Z.leb_gt]. split; [done|]. split; [done|].
  destruct Hc as [?|[?|[?|Hmerge]]]; [lia|lia|by left|]. right. split; [done|]. rewrite Hmerge in Hm. by apply Z.eqb_eq.
Qed.

(** The first range above one that overlaps another range overlaps it too, if
    any range above does. *)
Lemma overlap_above h y r : fit h -> fit y -> compatible y r -> overlap y r = true -> before h y -> lt r h = true -> overlap h r = true.
Proof.
  intros Hh Hy Hc Ho Hb Hlt. destruct (overlap_cases y r Hc Ho) as (H1 & H2 & Hcase). pose proof (before_start h y Hh Hb). pose proof (fit_bounds _ Hh).
  unfold lt in Hlt. destruct (Z.eqb_spec (_start r) (_start h)) as [Heq|Hne]; cbn [negb] in Hlt.
  - exfalso. destruct Hcase as [[_ [Hr _]]|[Hm Hk]]; [rewrite Hr in Hlt; done|]. pose proof (merges_interleaved _ _ Hm) as Hi. apply merges_parts in Hm as (Hs & _ & Hms).
    destruct Hb as [?|[Hm' Hk']]; [lia|]. rewrite <-Hi, (merges_interleaved _ _ Hm') in Hlt. destruct (interleaved h); [cbn [andb] in Hlt; lia|done].
  - apply Z.ltb_lt in Hlt. unfold overlap. rewrite (proj2 (Z.leb_gt (_end h) (_start r))), (proj2 (Z.leb_gt (_end r) (_start h))) by lia.
    assert (mergesWith h r = false) as -> by (apply not_true_is_false; intros (? & _)%merges_parts; lia). done.
Qed.

Lemma overlap_below y z r : fit z -> compatible y r -> overlap y r = true -> before y z -> lt r z = false -> mergesWith z y = true.
Proof.
  intros Hz Hc Ho [Hb|[Hm _]] Hlt; [|done]. exfalso. destruct (overlap_cases y r Hc Ho) as (H1 & _).
  unfold lt in Hlt. destruct (Z.eqb_spec (_start r) (_start z)); cbn [negb] in Hlt; lia.
Qed.

Lemma intersects_ok (m : Map) r : wf m -> fit r -> (forall n, n ∈ tree m -> compatible (first n) r) ->
  exists o m', AddrRangeMap.intersects max_cache_size r m = Ok (o, m') /\ wf m' /\ same_entries m m' /\
  match o with Some n => n ∈ tree m /\ overlap (first n) r = true | None => forall n, n ∈ tree m -> overlap (first n) r = false end.
Proof.
  intros Hm Hr Hc. pose proof (wf_fit _ Hm) as Hfit. apply (find_ok _ (fun n => overlap (first n) r)); [done| | |].
  - intros n Hn. apply intersects_overlap; auto.
  - intros h y Hh Hy HP Hb Hlt. apply (overlap_above _ (first y)); auto.
  - intros y z Hy Hz HP Hb Hlt. apply (overlap_below _ _ r); auto.
Qed.

Lemma before_trans x y z : fit y -> before x y -> before y z -> before x z.
Proof.
  intros Hy Hxy Hyz. pose proof (before_start y z Hy Hyz). destruct Hxy as [?|[H1%merges_parts ?]]; [left; lia|].
  destruct Hyz as [?|[H2%merges_parts ?]]; [left; lia|]. right. rewrite merges_parts. split; [naive_solver congruence|lia].
Qed.

Lemma tree_insert_ok (n : Node V) l : fit (first n) -> (forall x, x ∈ l -> fit (first x) /\ (before (first x) (first n) \/ before (first n) (first x))) ->
  StronglySorted (fun x y => before (first x) (first y)) l ->
  exists l', tree_insert n l = (l', n) /\ l' ≡ₚ n :: l /\ StronglySorted (fun x y => before (first x) (first y)) l'.
Proof.
  intros Hn. induction l as [|x l IH]; intros Hl Hs; simpl; [eexists; split; [done|]; split; [done|by repeat constructor]|].
  apply StronglySorted_inv in Hs as [Hs Hx]. destruct (Hl x ltac:(by left)) as [Hfx [Hb|Hb]].
  - destruct (before_lt _ _ Hfx Hn Hb) as [Hlt Hge]. rewrite Hge, Hlt. destruct IH as (l' & -> & Hp & Hs'); [intros y Hy; apply Hl; by right|done|]. exists (x :: l'). split; [done|].
    split; [rewrite Hp; constructor|]. constructor; [done|]. rewrite Hp. by constructor.
  - destruct (before_lt _ _ Hn Hfx Hb) as [-> _]. exists (n :: x :: l). split; [done|]. split; [done|]. constructor; [by constructor|]. constructor; [done|].
    eapply list.Forall_impl; [exact Hx|]. simpl. intros y. by apply before_trans.
Qed.

(** A map with one entry more. *)
Lemma insert_wf (m m' : Map) r d l : wf m -> fit r -> l ≡ₚ mkNode (fresh m) r d :: tree m ->
  StronglySorted (fun x y => before (first x) (first y)) l -> m' = m <| tree := l |> <| fresh ::= Z.succ |> -> wf m'.
Proof.
  intros [H1 H2 H3 H4 H5 H6 H7] Hr Hp Hs ->. split; simpl; [done|..|done|done].
  - intros n. rewrite Hp. intros [->|?]%elem_of_cons; auto.
  - rewrite Hp. simpl. apply list.NoDup_cons. split; [|done]. intros (n & Heq & Hn)%list_elem_of_fmap. specialize (H4 n Hn). lia.
  - intros n. rewrite Hp. intros [->|Hn]%elem_of_cons; simpl; [lia|]. specialize (H4 n Hn). lia.
  - intros it Hit. rewrite Hp. right. auto.
Qed.

Lemma insert_ok (m : Map) r d : wf m -> fit r -> (forall n, n ∈ tree m -> compatible (first n) r) ->
  exists o m', AddrRangeMap.insert max_cache_size r d m = Ok (o, m') /\ wf m' /\
  match o with
  | Some n => first n = r /\ second n = d /\ tree m' ≡ₚ n :: tree m /\ (forall n', n' ∈ tree m -> overlap (first n') r = false)
  | None => same_entries m m' /\ exists n', n' ∈ tree m /\ overlap (first n') r = true
  end.
Proof.
  intros Hm Hr Hc. unfold AddrRangeMap.insert. destruct (intersects_ok m r Hm Hr Hc) as (o & m1 & -> & Hwf & [Ht Hf] & Ho). cbn [mbind res_bind].
  destruct o as [n|]; [exists None, m1; split; [done|]; split; [done|]; split; [done|by exists n]|]. rewrite <-Ht in Ho, Hc |- *.
  destruct (tree_insert_ok (mkNode (fresh m1) r d) (tree m1)) as (l & -> & Hp & Hs); [done| |apply Hwf|].
  { intros x Hx. split; [by apply (wf_fit _ Hwf)|]. apply ordered; auto. by apply (wf_fit _ Hwf). }
  eexists _, _. split; [done|]. split; [by eapply (insert_wf m1)|]. by split_and!.
Qed.

(** What an insertion that succeeds does to the values. *)
Lemma value_at_insert (m m' : Map) n a : wf m -> wf m' -> tree m' ≡ₚ n :: tree m ->
  value_at a m' = if covers a (first n) then Some (second n) else value_at a m.
Proof.
  intros Hm Hm' Hp. destruct (covers a (first n)) eqn:Ec.
  - apply value_at_Some; [done|]. exists n. rewrite Hp, <-covers_iff. split; [by left|done].
  - assert (~ inside a (first n)) as Hn by (rewrite <-covers_iff; by rewrite Ec). apply option_eq. intros v. rewrite !value_at_Some by done. setoid_rewrite Hp.
    setoid_rewrite elem_of_cons. naive_solver.
Qed.

(** ** Removal *)

Lemma erase_ok (m : Map) n : wf m -> n ∈ tree m -> exists m', AddrRangeMap.erase (node_id n) m = Ok m' /\ wf m' /\
  forall a, value_at a m' = if covers a (first n) then None else value_at a m.
Proof.
  intros Hm Hn. unfold AddrRangeMap.erase. rewrite (deref_node m n Hm Hn). cbn [mbind res_bind]. eexists. split; [done|].
  set (m' := (drop_cached (node_id n) m) <| tree ::= filter (fun x => node_id x <> node_id n) |>).
  assert (forall x, x ∈ tree m' <-> x ∈ tree m /\ x <> n) as Hin.
  { intros x. unfold m'. simpl. rewrite list_elem_of_filter. split; [naive_solver|]. intros [Hx Hne]. split; [|done]. intros Heq.
    pose proof (deref_node m n Hm Hn) as Hd. rewrite <-Heq, (deref_node m x Hm Hx) in Hd. by injection Hd. }
  assert (wf m') as Hm'.
  { pose proof Hm as [H1 H2 H3 H4 H5 H6 H7]. split; simpl.
    - by apply filter_sorted.
    - intros x [Hx _]%Hin. auto.
    - eapply sublist_NoDup; [exact H3|]. apply fmap_sublist, sublist_filter.
    - intros x [Hx _]%Hin. auto.
    - intros it [Hne Hit]%list_elem_of_filter. destruct (cached_node m it Hm Hit) as (x & Hx & <-). apply list_elem_of_fmap_2, list_elem_of_filter. done.
    - by apply list.NoDup_filter.
    - etrans; [|exact H7]. unfold zlength. pose proof (length_filter (fun c => c <> node_id n) (cache m)). lia. }
  split; [done|]. intros a. destruct (covers a (first n)) eqn:Ec.
  - apply covers_iff in Ec. apply value_at_None; [done|]. intros x [Hx Hne]%Hin Hax. by apply Hne, (value_at_unique m a).
  - assert (~ inside a (first n)) as Hna by (rewrite <-covers_iff; by rewrite Ec). apply option_eq. intros v. rewrite !value_at_Some by done. setoid_rewrite Hin. naive_solver.
Qed.

Lemma no_entries_wf m : tree m = [] -> cache m = [] -> wf m.
Proof.
  intros Ht Hc. split; rewrite ?Ht, ?Hc; [constructor|intros ? []%elem_of_nil|constructor|intros ? []%elem_of_nil|intros ? []%elem_of_nil|constructor|].
  unfold zlength. simpl. lia.
Qed.

End map.

(** ** Theorems *)

(** C32: a map of ranges is a map of addresses.  As long as no range that
    is inserted cuts the stripes of another one, every operation runs without
    a failure and keeps the invariant: an address finds the value of the
    entry whose range it is in, and the search leaves the values as they are;
    an insertion is refused, without an effect, when the range overlaps an
    entry, and otherwise gives the addresses of the range their new value
    and no others; erasing an entry takes the values of its addresses away.
    The cache of iterators, of any size, has no influence. *)
Theorem range_map_refines {V} max_cache_size (m : AddrRangeMap.t V) : 0 <= max_cache_size < 2 ^ 31 ->
  wf max_cache_size (AddrRangeMap.new (V := V)) /\ (forall a, value_at a (AddrRangeMap.new (V := V)) = None) /\
  (wf max_cache_size m ->
    (forall a, 0 <= a < 2 ^ 64 - 1 -> exists o m', AddrRangeMap.contains_addr max_cache_size a m = Ok (o, m') /\ wf max_cache_size m' /\
      second <$> o = value_at a m /\ forall a', value_at a' m' = value_at a' m) /\
    (forall r d, fit r -> (forall n, n ∈ tree m -> compatible (first n) r) -> exists o m', AddrRangeMap.insert max_cache_size r d m = Ok (o, m') /\ wf max_cache_size m' /\
      (o = None <-> exists n, n ∈ tree m /\ overlap (first n) r = true) /\
      forall a, value_at a m' = if decide (o = None) then value_at a m else if covers a r then Some d else value_at a m) /\
    (forall n, n ∈ tree m -> exists m', AddrRangeMap.erase (node_id n) m = Ok m' /\ wf max_cache_size m' /\
      forall a, value_at a m' = if covers a (first n) then None else value_at a m) /\
    wf max_cache_size (AddrRangeMap.clear m) /\ forall a, value_at a (AddrRangeMap.clear m) = None).
Proof.
  intros Hmax. split; [by apply no_entries_wf|]. split; [done|]. intros Hm. split_and!; [| | |by apply no_entries_wf|done].
  - intros a Ha. destruct (contains_addr_ok max_cache_size Hmax m a Hm Ha) as (o & m' & Hc & Hwf & Hs & Hv). exists o, m'. split_and!; [done..|].
    intros a'. by apply value_at_same.
  - intros r d Hr Hc. destruct (insert_ok max_cache_size Hmax m r d Hm Hr Hc) as (o & m' & Hi & Hwf & Ho). exists o, m'. split_and!; [done..| |].
    + destruct o as [n|]; [|naive_solver]. destruct Ho as (_ & _ & _ & Hno). split; [done|]. intros (n' & Hn' & Hov). by rewrite Hno in Hov.
    + intros a. destruct o as [n|]; destruct (decide _); try done; [|by apply value_at_same, Ho].
      destruct Ho as (<- & <- & Hp & _). by apply (value_at_insert max_cache_size).
  - intros n Hn. by apply erase_ok.
Qed.

Lemma four_stripes_fit k : 0 <= k < 4 -> fit (four_stripes k).
Proof. intros Hk. split; [left; by apply four_stripes_ok|simpl; lia|]. intros _. by vm_compute. Qed.

Lemma range_map_refines_witness : exists o m o' m', AddrRangeMap.insert 2 (four_stripes 2) 7 AddrRangeMap.new = Ok (o, m) /\
  AddrRangeMap.contains_addr 2 0x50c4 m = Ok (o', m') /\ second <$> o' = Some 7.
Proof.
  destruct (range_map_refines 2 (AddrRangeMap.new (V := Z)) ltac:(lia)) as (Hnew & _ & Hops). destruct (Hops Hnew) as (_ & Hins & _).
  destruct (Hins (four_stripes 2) 7 (four_stripes_fit 2 ltac:(lia))) as (o & m & Hi & Hm & Ho & Hv); [by intros n ?%elem_of_nil|].
  destruct (range_map_refines 2 m ltac:(lia)) as (_ & _ & Hops'). destruct (Hops' Hm) as (Hfind & _). destruct (Hfind 0x50c4 ltac:(lia)) as (o' & m' & Hc & _ & Hv' & _).
  exists o, m, o', m'. split; [done|]. split; [done|]. rewrite Hv', Hv. destruct (decide (o = None)) as [Hnone|]; [|by vm_compute].
  apply Ho in Hnone as (n & []%elem_of_nil & _).
Defined.

(** ** Limits *)

(** Erasing several entries takes the first one out of the cache only: the
    iterators to the others stay, and the next search follows them. *)
Example erased_entry_cached :
  ('(_, m) ← AddrRangeMap.insert 2 (interval 0 4) 1 AddrRangeMap.new; '(_, m) ← AddrRangeMap.insert 2 (interval 4 8) 2 m;
   '(_, m) ← AddrRangeMap.contains_addr 2 5 m; m ← AddrRangeMap.erase_range (Some 0) None m;
   '(_, m) ← AddrRangeMap.contains_addr 2 5 m; Ok (AddrRangeMap.size m)) = Err Undefined.
Proof. by vm_compute. Qed.

(** The range of the last address ends at 0: it is found in an entry that
    ends before it. *)
Example last_address_found :
  ('(_, m) ← AddrRangeMap.insert 0 (interval 0 4) 1 AddrRangeMap.new; '(o, m) ← AddrRangeMap.contains_addr 0 MaxAddr m; Ok (option_map second o)) = Ok (Some 1).
Proof. by vm_compute. Qed.

(** A range that cuts the stripes of another one cannot be inserted. *)
Example stripes_cut :
  ('(_, m) ← AddrRangeMap.insert 0 (four_stripes 1) 1 AddrRangeMap.new; '(o, m) ← AddrRangeMap.insert 0 (interval 0 0x5000) 2 m; Ok (option_map second o)) = Err PanicCalled.
Proof. by vm_compute. Qed.
