(* ===== verification/AddressMap.v ===== *)
(** * AddressMap: from addresses to controllers

    The map of a network from machine types to the ranges of its controllers
    (Network.hh/.cc: [addrMap], [addressToNodeID]); the maps of a controller
    to the machines towards memory (slicc_interface/AbstractController.hh/.cc:
    the part of [init] that fills them, [mapAddressToMachine] and
    [mapAddressToDownstreamMachine]); and the selection of a machine by bits of
    the address (RubySlicc_ComponentMapping.hh).  Hash tables have an order of their
    own, which is a parameter.

    The map of the network and the maps of the controllers send an address
    to the same machine, whatever the order of the hash tables and whatever
    addresses were looked up before; and the machines that bits of the address
    select are the stripes of interleaved ranges. *)

From Stdlib Require Import Sorted.
From stdpp Require Import gmap sorting.
From S2P Require Import Prelude Bitfield BitfieldProofs NetDest Heap MessageBuffer AddrRange AddrRangeProofs AddrRangeMap.

(** The order in which a hash table gives its elements. *)
Class HashOrder := hash_order : forall {A : Type}, list A -> list A.
Class HashOrderOk `{HashOrder} : Prop := hash_order_perm : forall A (l : list A), hash_order l ≡ₚ l.

Record Controller := mkController { getMachineID : MachineID; getAddrRanges : list AddrRange.t }.

(** ** The map of the network *)

Module AddrMapNode.
Record t := mk { id : Z; ranges : list AddrRange.t }.
End AddrMapNode.

(** An [unordered_multimap]. *)
Definition AddrMap : Type := list (Z * AddrMapNode.t).

Definition map_ext_node (m : AddrMap) (c : Controller) : AddrMap :=
  match getAddrRanges c with
  | [] => m
  | rs => m ++ [(mach_type (getMachineID c), AddrMapNode.mk (mach_num (getMachineID c)) rs)]
  end.

Definition make_addrMap (ext_nodes : list Controller) : AddrMap := foldl map_ext_node [] ext_nodes.

Fixpoint any_contains (addr : Z) (rs : list AddrRange.t) : res bool :=
  match rs with
  | [] => Ok false
  | r :: rs' => b ← AddrRange.contains addr r; if b : bool then Ok true else any_contains addr rs'
  end.

Fixpoint first_node (addr : Z) (l : list AddrMapNode.t) : res (option Z) :=
  match l with
  | [] => Ok None
  | n :: l' => b ← any_contains addr (AddrMapNode.ranges n); if b : bool then Ok (Some (AddrMapNode.id n)) else first_node addr l'
  end.

Section machines.
Context `{MachineTypes} `{HashOrder}.

Definition equal_range (mtype : Z) (m : AddrMap) : list AddrMapNode.t := hash_order (snd <$> filter (fun p => p.1 = mtype) m).

Definition addressToNodeID (addr mtype : Z) (m : AddrMap) : res Z :=
  o ← first_node addr (equal_range mtype m);
  Ok (match o with Some n => n | None => MachineType_base_count mtype end).

Definition mapAddressToMachine (addr mtype : Z) (m : AddrMap) : res MachineID :=
  node ← addressToNodeID addr mtype m; Ok (mkMachineID mtype node).

(** ** The maps of a controller *)

Notation DownstreamMap := (gmap Z (AddrRangeMap.t MachineID)).

Record Destinations := mkDestinations {
  downstreamAddrMap : DownstreamMap;
  downstreamDestinations : NetDest.t;
  upstreamDestinations : NetDest.t;
}.
#[global] Instance Destinations_eta : Etaed Destinations := fun d =>
  mkDestinations (downstreamAddrMap d) (downstreamDestinations d) (upstreamDestinations d).

Definition map_range (mid : MachineID) (r : AddrRange.t) (m : DownstreamMap) : res DownstreamMap :=
  rm ← (match m !! mach_type mid with
        | Some rm => '(o, rm) ← AddrRangeMap.intersects 3 r rm; if o : option _ then Err FatalCalled else Ok rm
        | None => Ok AddrRangeMap.new
        end);
  '(_, rm) ← AddrRangeMap.insert 3 r mid rm;
  Ok (<[mach_type mid := rm]> m).

Definition map_controller (c : Controller) (d : Destinations) : res Destinations :=
  m ← for_each (getAddrRanges c) (map_range (getMachineID c)) (downstreamAddrMap d);
  dest ← NetDest.add (getMachineID c) (downstreamDestinations d);
  Ok (d <| downstreamAddrMap := m |> <| downstreamDestinations := dest |>).

Definition init_destinations (downstream upstream : list Controller) : res Destinations :=
  down ← NetDest.resize;
  d ← for_each downstream map_controller (mkDestinations ∅ down []);
  up ← NetDest.resize;
  up ← for_each upstream (fun c => NetDest.add (getMachineID c)) up;
  Ok (d <| upstreamDestinations := up |>).

(** The entries in turn; each search can change the cache of its map. *)
Fixpoint first_match (addr : Z) (l : list (Z * AddrRangeMap.t MachineID)) (m : DownstreamMap) : res (option MachineID * DownstreamMap) :=
  match l with
  | [] => Ok (None, m)
  | (mtype, rm) :: l' =>
      '(o, rm) ← AddrRangeMap.contains_addr 3 addr rm;
      let m := <[mtype := rm]> m in
      match o with Some n => Ok (Some (AddrRangeMap.second n), m) | None => first_match addr l' m end
  end.

Definition mapAddressToDownstreamMachine (addr mtype : Z) (d : Destinations) : res (MachineID * Destinations) :=
  let m := downstreamAddrMap d in
  '(o, m) ← (if mtype =? MachineType_NUM then first_match addr (hash_order (map_to_list m)) m
             else match m !! mtype with Some rm => first_match addr [(mtype, rm)] m | None => Ok (None, m) end);
  match o with Some mid => Ok (mid, d <| downstreamAddrMap := m |>) | None => Err FatalCalled end.

(** ** Selection by bits *)

Definition int_value (z : Z) : res Z := if (- 2 ^ 31 <=? z) && (z <? 2 ^ 31) then Ok z else Err Undefined.

(** [NodeID] has 32 bits; the last bit and the product are [int]s. *)
Definition mapAddressToRange (addr type_ low_bit num_bits cluster_id : Z) : res MachineID :=
  if num_bits =? 0 then Ok (mkMachineID type_ (u32 cluster_id))
  else
    last ← int_value (low_bit + num_bits - 1);
    sel ← bitSelect addr (u32 low_bit) (u32 last);
    size ← int_bit num_bits;
    offset ← int_value (size * cluster_id);
    Ok (mkMachineID type_ (u32 (sel + offset))).

Definition broadcast (type_ : Z) : res NetDest.t :=
  dest ← NetDest.new;
  for_ (Z.to_nat (MachineType_base_count type_)) 0 (fun i => NetDest.add (mkMachineID type_ i)) dest.

End machines.

Import AddrRangeMap(node_id, first, second, tree, cache, fresh).

(** ** Entries *)

Notation Entry := (MachineID * AddrRange.t)%type.

Definition entries_of (c : Controller) : list Entry := pair (getMachineID c) <$> getAddrRanges c.
Definition entries (cs : list Controller) : list Entry := cs ≫= entries_of.

Lemma elem_of_entries cs mid r : (mid, r) ∈ entries cs <-> exists c, c ∈ cs /\ getMachineID c = mid /\ r ∈ getAddrRanges c.
Proof.
  unfold entries, entries_of. rewrite list_elem_of_bind. split.
  - intros (c & (r' & [= -> ->] & Hr)%list_elem_of_fmap & Hc). eauto.
  - intros (c & Hc & <- & Hr). exists c. split; [|done]. apply list_elem_of_fmap. eauto.
Qed.

Notation same_type x y := (mach_type x.1 = mach_type y.1).

(** No two entries for machines of the same type overlap. *)
Definition apart (l : list Entry) : Prop :=
  forall i j x y, (i < j)%nat -> l !! i = Some x -> l !! j = Some y -> same_type x y -> overlap x.2 y.2 = false.

Lemma apart_prefix l l' : apart (l ++ l') -> apart l.
Proof. intros H i j x y Hij Hi Hj. apply (H i j); [done|by apply lookup_app_l_Some..]. Qed.

Lemma apart_snoc l y : apart (l ++ [y]) <-> apart l /\ forall x, x ∈ l -> same_type x y -> overlap x.2 y.2 = false.
Proof.
  split.
  - intros H. split; [by eapply apart_prefix|]. intros x [i Hi]%list_elem_of_lookup. pose proof (lookup_lt_Some _ _ _ Hi). apply (H i (length l)); [done|by apply lookup_app_l_Some|by apply list_lookup_middle].
  - intros [Hl Hy] i j x x' Hij Hi Hj Hs. apply lookup_snoc_Some in Hj as [[Hlt Hj]|[-> <-]].
    + rewrite lookup_app_l in Hi by lia. by apply (Hl i j).
    + rewrite lookup_app_l in Hi by lia. apply Hy; [by eapply list_elem_of_lookup_2|done].
Qed.

(** Entries that a controller can have: those for the machines of one type divide the memory. *)
Record regular (l : list Entry) : Prop := {
  rg_fit x : x ∈ l -> fit x.2;
  rg_compatible x y : x ∈ l -> y ∈ l -> same_type x y -> compatible x.2 y.2;
}.

Lemma regular_sub l l' : regular l -> (forall x, x ∈ l' -> x ∈ l) -> regular l'.
Proof. intros [H1 H2] Hs. split; auto. Qed.

(** One machine of a type has an address. *)
Lemma one_home l x y a : regular l -> apart l -> x ∈ l -> y ∈ l -> same_type x y -> inside a x.2 -> inside a y.2 -> x = y.
Proof.
  intros Hr Ha Hx Hy Hs Hix Hiy. pose proof Hx as [i Hi]%list_elem_of_lookup. pose proof Hy as [j Hj]%list_elem_of_lookup.
  destruct (decide (i = j)) as [->|Hne]; [congruence|]. exfalso.
  assert (exists x y, x ∈ l /\ y ∈ l /\ same_type x y /\ inside a x.2 /\ inside a y.2 /\ overlap x.2 y.2 = false) as (x' & y' & Hx' & Hy' & Hs' & Hix' & Hiy' & Ho).
  { destruct (decide (i < j)%nat); [exists x, y|exists y, x]; split_and!; try done; [by eapply (Ha i j)|eapply (Ha j i); [lia|done..]]. }
  destruct (ordered x'.2 y'.2) as [Hb|Hb]; [by apply (rg_fit _ Hr)..|by apply (rg_compatible _ Hr)|done| |]; by eapply before_apart.
Qed.

(** ** The maps of a controller *)

Section maps.
Context `{MachineTypesOk} `{!HashOrder} `{!HashOrderOk}.
Notation DownstreamMap := (gmap Z (AddrRangeMap.t MachineID)).

(** The map of a type holds its entries. *)
Record holds (l : list Entry) (mtype : Z) (rm : AddrRangeMap.t MachineID) : Prop := {
  hd_wf : wf 3 rm;
  hd_entries x : x ∈ l /\ mach_type x.1 = mtype <-> exists n, n ∈ tree rm /\ (second n, first n) = x;
}.

Definition represents (l : list Entry) (m : DownstreamMap) : Prop :=
  forall mtype, match m !! mtype with Some rm => holds l mtype rm | None => forall x, x ∈ l -> mach_type x.1 <> mtype end.

Lemma holds_new l mtype : (forall x, x ∈ l -> mach_type x.1 <> mtype) -> holds l mtype AddrRangeMap.new.
Proof.
  intros Hl. split; [by apply no_entries_wf|]. intros x. split; [intros [Hx Ht]; by destruct (Hl x Hx)|]. intros (n & []%elem_of_nil & _).
Qed.

Lemma holds_same l mtype rm rm' : holds l mtype rm -> wf 3 rm' -> same_entries rm rm' -> holds l mtype rm'.
Proof. intros [_ He] Hwf [Ht _]. split; [done|]. by rewrite Ht. Qed.

Lemma represents_update l m mtype rm : represents l m -> holds l mtype rm -> represents l (<[mtype := rm]> m).
Proof. intros Hm Hh ty. destruct (decide (ty = mtype)) as [->|]; [by rewrite lookup_insert_eq|]. rewrite lookup_insert_ne by done. apply Hm. Qed.

Lemma represents_snoc l m x rm : represents l m -> holds (l ++ [x]) (mach_type x.1) rm -> represents (l ++ [x]) (<[mach_type x.1 := rm]> m).
Proof.
  intros Hm Hh ty. destruct (decide (ty = mach_type x.1)) as [->|Hne]; [by rewrite lookup_insert_eq|]. rewrite lookup_insert_ne by done.
  specialize (Hm ty). destruct (m !! ty) as [rm'|].
  - destruct Hm as [Hwf He]. split; [done|]. intros y. rewrite <-He, elem_of_app, list_elem_of_singleton. naive_solver.
  - intros y [Hy| ->%list_elem_of_singleton]%elem_of_app; [by apply Hm|done].
Qed.

Lemma holds_insert l mid r rm : holds l (mach_type mid) rm -> fit r -> (forall n, n ∈ tree rm -> compatible (first n) r) ->
  (forall n, n ∈ tree rm -> overlap (first n) r = false) ->
  exists o rm', AddrRangeMap.insert 3 r mid rm = Ok (o, rm') /\ holds (l ++ [(mid, r)]) (mach_type mid) rm'.
Proof.
  intros [Hwf He] Hr Hc Hno. destruct (insert_ok 3 ltac:(lia) rm r mid Hwf Hr Hc) as (o & rm' & Hi & Hwf' & Ho). exists o, rm'. split; [done|].
  destruct o as [n|]; [|destruct Ho as [_ (n & Hn & Hov)]; by rewrite Hno in Hov]. destruct Ho as (<- & <- & Hp & _). split; [done|].
  intros x. setoid_rewrite Hp. setoid_rewrite elem_of_cons. rewrite elem_of_app, list_elem_of_singleton. specialize (He x).
  split; [intros [[Hx| ->] Ht]; [destruct (proj1 He) as (n' & ? & ?); eauto|by exists n; auto]|].
  intros (n' & [->|Hn'] & <-); [by auto|]. destruct (proj2 He) as [? ?]; eauto.
Qed.

(** An entry is added, or it overlaps another one. *)
Lemma map_range_ok l m mid r : represents l m -> regular (l ++ [(mid, r)]) ->
  match map_range mid r m with
  | Ok m' => represents (l ++ [(mid, r)]) m' /\ forall x, x ∈ l -> same_type x (mid, r) -> overlap x.2 r = false
  | Err e => e = FatalCalled /\ exists x, x ∈ l /\ same_type x (mid, r) /\ overlap x.2 r = true
  end.
Proof.
  intros Hm Hr. assert (fit r) as Hfit by (apply (rg_fit _ Hr (mid, r)); set_solver). unfold map_range.
  assert (forall rm, holds l (mach_type mid) rm -> forall n, n ∈ tree rm -> compatible (first n) r) as Hcomp.
  { intros rm Hh n Hn. destruct (proj2 (hd_entries _ _ _ Hh (second n, first n))) as [Hin Ht]; [eauto|].
    apply (rg_compatible _ Hr (second n, first n) (mid, r)); [set_solver..|done]. }
  pose proof (Hm (mach_type mid)) as Hty. destruct (m !! mach_type mid) as [rm|] eqn:Em.
  - destruct (intersects_ok 3 ltac:(lia) rm r (hd_wf _ _ _ Hty) Hfit (Hcomp rm Hty)) as (o & rm' & -> & Hwf & Hs & Ho). cbn [mbind res_bind].
    pose proof (holds_same _ _ _ _ Hty Hwf Hs) as Hh. destruct Hs as [Htree _]. rewrite <-Htree in Ho. destruct o as [n|]; cbn [mbind res_bind].
    + destruct Ho as [Hn Hov]. split; [done|]. destruct (proj2 (hd_entries _ _ _ Hh (second n, first n))) as [Hin Ht]; [eauto|]. by exists (second n, first n).
    + destruct (holds_insert l mid r rm' Hh Hfit (Hcomp rm' Hh) Ho) as (o & rm2 & -> & Hh2). cbn [mbind res_bind]. split; [by apply (represents_snoc l m (mid, r))|].
      intros x Hx Hxt. destruct (proj1 (hd_entries _ _ _ Hh x)) as (n & Hn & <-); [done|]. by apply Ho.
  - cbn [mbind res_bind]. destruct (holds_insert l mid r AddrRangeMap.new (holds_new l _ Hty) Hfit) as (o & rm2 & -> & Hh2); [intros n []%elem_of_nil..|].
    cbn [mbind res_bind]. split; [by apply (represents_snoc l m (mid, r))|]. intros x Hx Hxt. by destruct (Hty x Hx).
Qed.

(** The entries of a list are added, or they are not apart. *)
Definition added (l : list Entry) (m : res DownstreamMap) : Prop :=
  match m with Ok m => represents l m /\ apart l | Err e => e = FatalCalled /\ ~ apart l end.

Lemma map_ranges_ok l m mid rs : represents l m -> apart l -> regular (l ++ (pair mid <$> rs)) -> added (l ++ (pair mid <$> rs)) (for_each rs (map_range mid) m).
Proof.
  revert l m. induction rs as [|r rs IH]; intros l m Hm Ha Hr; [simpl; by rewrite app_nil_r|].
  rewrite fmap_cons, cons_middle, (assoc_L (++)) in *. simpl for_each. pose proof (map_range_ok l m mid r Hm) as Hstep.
  destruct (map_range mid r m) as [m'|e]; cbn [mbind res_bind].
  - destruct Hstep as [Hm' Hno]; [apply (regular_sub _ _ Hr); set_solver|]. apply IH; [done|by apply apart_snoc|done].
  - destruct Hstep as (-> & x & Hx & Hs & Ho); [apply (regular_sub _ _ Hr); set_solver|]. split; [done|]. intros Hap%apart_prefix%apart_snoc.
    destruct Hap as [_ Hno]. specialize (Hno x Hx Hs). simpl in Hno. congruence.
Qed.

Definition machine_ok (c : Controller) : Prop :=
  0 <= mach_type (getMachineID c) < MachineType_NUM /\ 0 <= mach_num (getMachineID c) < MachineType_base_count (mach_type (getMachineID c)).

(** A destination of exactly the machines of some controllers. *)
Definition names (cs : list Controller) (d : NetDest.t) : Prop :=
  NetDest.sized d /\ forall m i, NetDest.mem d m i <-> exists c, c ∈ cs /\ getMachineID c = mkMachineID m i.

Lemma names_none : safe NetDest.resize (names []).
Proof. eapply safe_mono; [apply NetDest.new_spec|]. intros d [Hs Hm]. split; [done|]. intros m i. split; [intros ?%Hm; done|]. intros (c & []%elem_of_nil & _). Qed.

Lemma names_add cs c d : names cs d -> machine_ok c -> safe (NetDest.add (getMachineID c) d) (names (cs ++ [c])).
Proof.
  intros [Hs Hm] [Ht Hn]. destruct (getMachineID c) as [ty num] eqn:E. eapply safe_mono; [by apply NetDest.add_spec|]. intros d' [Hs' Hm']. split; [done|].
  intros m i. rewrite Hm', Hm. setoid_rewrite elem_of_app. setoid_rewrite list_elem_of_singleton. split; [|naive_solver congruence].
  intros [(c' & Hc & Heq)|[-> ->]]; eauto.
Qed.

Lemma names_all cs : Forall machine_ok cs -> safe (up ← NetDest.resize; for_each cs (fun c => NetDest.add (getMachineID c)) up) (names cs).
Proof.
  intros Hcs. apply safe_bind. eapply safe_mono; [apply names_none|]. intros d0 Hd0. apply (safe_for_each names); [done|]. intros pre c post d -> Hd.
  apply list.Forall_app in Hcs as [_ [Hc _]%list.Forall_cons]. by apply names_add.
Qed.

Record ready (cs : list Controller) (d : Destinations) : Prop := {
  rd_map : represents (entries cs) (downstreamAddrMap d);
  rd_down : names cs (downstreamDestinations d);
}.

Lemma entries_snoc cs c : entries (cs ++ [c]) = entries cs ++ entries_of c.
Proof. unfold entries. rewrite bind_app. simpl. by rewrite app_nil_r. Qed.

Lemma map_controller_ok cs c d : ready cs d -> apart (entries cs) -> regular (entries (cs ++ [c])) -> machine_ok c ->
  match map_controller c d with
  | Ok d' => ready (cs ++ [c]) d' /\ apart (entries (cs ++ [c]))
  | Err e => e = FatalCalled /\ ~ apart (entries (cs ++ [c]))
  end.
Proof.
  intros [Hm Hd] Ha Hr Hc. rewrite entries_snoc in *. unfold map_controller. pose proof (map_ranges_ok _ _ _ _ Hm Ha Hr) as Hadd. fold (entries_of c) in Hadd.
  destruct (for_each _ _ _) as [m|e]; cbn [mbind res_bind]; [|done]. destruct Hadd as [Hm' Ha'].
  destruct (safe_inv _ _ (names_add cs c _ Hd Hc)) as (d' & -> & Hd'). cbn [mbind res_bind]. split; [|done]. split; [by rewrite entries_snoc|done].
Qed.

Lemma map_controllers_ok cs cs' d : ready cs d -> apart (entries cs) -> regular (entries (cs ++ cs')) -> Forall machine_ok cs' ->
  match for_each cs' map_controller d with
  | Ok d' => ready (cs ++ cs') d' /\ apart (entries (cs ++ cs'))
  | Err e => e = FatalCalled /\ ~ apart (entries (cs ++ cs'))
  end.
Proof.
  revert cs d. induction cs' as [|c cs' IH]; intros cs d Hd Ha Hr Hc; [simpl; by rewrite app_nil_r|].
  rewrite cons_middle, (assoc_L (++)) in *. apply list.Forall_cons in Hc as [Hc Hcs]. simpl for_each.
  assert (entries ((cs ++ [c]) ++ cs') = entries (cs ++ [c]) ++ entries cs') as He by apply bind_app.
  pose proof (map_controller_ok cs c d Hd Ha) as Hstep. destruct (map_controller c d) as [d'|e]; cbn [mbind res_bind].
  - destruct Hstep as [Hd' Ha']; [apply (regular_sub _ _ Hr); rewrite He; set_solver|done|]. by apply IH.
  - destruct Hstep as [-> Hna]; [apply (regular_sub _ _ Hr); rewrite He; set_solver|done|]. split; [done|]. rewrite He. by intros Hap%apart_prefix.
Qed.

Lemma ready_none d0 : names [] d0 -> ready [] (mkDestinations ∅ d0 []).
Proof. intros Hd. split; [|done]. intros ty. simpl. rewrite lookup_empty. by intros x []%elem_of_nil. Qed.

Lemma init_destinations_ok cs us : regular (entries cs) -> Forall machine_ok cs -> Forall machine_ok us ->
  match init_destinations cs us with
  | Ok d => ready cs d /\ names us (upstreamDestinations d) /\ apart (entries cs)
  | Err e => e = FatalCalled /\ ~ apart (entries cs)
  end.
Proof.
  intros Hr Hcs Hus. unfold init_destinations. destruct (safe_inv _ _ names_none) as (d0 & Hnew & Hd0). rewrite Hnew. cbn [mbind res_bind].
  pose proof (map_controllers_ok [] cs (mkDestinations ∅ d0 [])) as Hstep. destruct (for_each cs _ _) as [d|e]; cbn [mbind res_bind].
  - destruct Hstep as [Hd Ha]; [by apply ready_none|by intros i j x y _ Hi|done|done|].
    pose proof (names_all us Hus) as Hup. rewrite Hnew in Hup. cbn [mbind res_bind] in Hup.
    destruct (for_each us _ d0) as [up|]; [|done]. cbn [mbind res_bind]. split; [|done]. destruct Hd as [Hm Hn]. by split.
  - apply Hstep; [by apply ready_none|by intros i j x y _ Hi|done|done].
Qed.

(** ** Looking up *)

Lemma first_match_ok l ps m a : represents l m -> Forall (fun p => holds l p.1 p.2) ps -> 0 <= a < 2 ^ 64 - 1 ->
  exists o m', first_match a ps m = Ok (o, m') /\ represents l m' /\
  match o with
  | Some mid => exists r, (mid, r) ∈ l /\ mach_type mid ∈ ps.*1 /\ inside a r
  | None => forall x, x ∈ l -> mach_type x.1 ∈ ps.*1 -> ~ inside a x.2
  end.
Proof.
  intros Hm Hps Ha. revert m Hm. induction Hps as [|[ty rm] ps Hh Hps IH]; intros m Hm; simpl.
  { exists None, m. split; [done|]. split; [done|]. by intros x _ ?%elem_of_nil. }
  simpl in Hh. destruct (contains_addr_ok 3 ltac:(lia) rm a (hd_wf _ _ _ Hh) Ha) as (o & rm' & -> & Hwf & Hs & Hv). cbn [mbind res_bind].
  pose proof (represents_update _ _ _ _ Hm (holds_same _ _ _ _ Hh Hwf Hs)) as Hm'. destruct o as [n|]; simpl in Hv; symmetry in Hv.
  - apply (value_at_Some 3) in Hv as (n' & Hn' & Hin & Hsec); [|apply Hh]. destruct (proj2 (hd_entries _ _ _ Hh (second n', first n'))) as [Hx Ht]; [eauto|].
    eexists _, _. split; [done|]. split; [done|]. exists (first n'). rewrite <-Hsec. split; [done|]. split; [simpl in Ht; rewrite Ht; by left|done].
  - destruct (IH _ Hm') as (o & m' & -> & Hm2 & Ho). exists o, m'. split; [done|]. split; [done|]. destruct o as [mid|].
    + destruct Ho as (r & Hr & Ht & Hin). exists r. split; [done|]. split; [by right|done].
    + intros x Hx [Ht|Ht]%elem_of_cons; [|by apply Ho]. destruct (proj1 (hd_entries _ _ _ Hh x)) as (n & Hn & <-); [done|]. apply (value_at_None 3 rm); [apply Hh|done|done].
Qed.

(** The entries that a query asks for. *)
Definition asked (mtype : Z) (mid : MachineID) : Prop := mtype = MachineType_NUM \/ mach_type mid = mtype.

Lemma downstream_ok cs d a mtype : ready cs d -> 0 <= a < 2 ^ 64 - 1 ->
  match mapAddressToDownstreamMachine a mtype d with
  | Ok (mid, d') => ready cs d' /\ exists r, (mid, r) ∈ entries cs /\ asked mtype mid /\ inside a r
  | Err e => e = FatalCalled /\ forall x, x ∈ entries cs -> asked mtype x.1 -> ~ inside a x.2
  end.
Proof.
  intros [Hm Hd] Ha. unfold mapAddressToDownstreamMachine, asked.
  set (run := if mtype =? MachineType_NUM then _ else _).
  assert (exists o m', run = Ok (o, m') /\ represents (entries cs) m' /\
    match o with
    | Some mid => exists r, (mid, r) ∈ entries cs /\ (mtype = MachineType_NUM \/ mach_type mid = mtype) /\ inside a r
    | None => forall x, x ∈ entries cs -> mtype = MachineType_NUM \/ mach_type x.1 = mtype -> ~ inside a x.2
    end) as (o & m' & -> & Hm' & Ho).
  { unfold run. clear run. destruct (Z.eqb_spec mtype MachineType_NUM) as [->|Hne].
    - destruct (first_match_ok (entries cs) (hash_order (map_to_list (downstreamAddrMap d))) _ a Hm) as (o & m' & -> & Hm' & Ho); [|done|].
      { rewrite hash_order_perm. apply list.Forall_forall. intros [ty rm] Hin%elem_of_map_to_list. specialize (Hm ty). by rewrite Hin in Hm. }
      exists o, m'. split; [done|]. split; [done|]. destruct o as [mid|]; [destruct Ho as (r & ? & _ & ?); exists r; auto|]. intros x Hx _. apply Ho; [done|].
      rewrite hash_order_perm. specialize (Hm (mach_type x.1)). destruct (downstreamAddrMap d !! mach_type x.1) as [rm|] eqn:E; [|by destruct (Hm x Hx)].
      apply list_elem_of_fmap. exists (mach_type x.1, rm). split; [done|]. by apply elem_of_map_to_list.
    - pose proof (Hm mtype) as Hty. destruct (downstreamAddrMap d !! mtype) as [rm|] eqn:E.
      + destruct (first_match_ok (entries cs) [(mtype, rm)] _ a Hm) as (o & m' & -> & Hm' & Ho); [by apply list.Forall_singleton|done|].
        exists o, m'. split; [done|]. split; [done|]. simpl in Ho. destruct o as [mid|].
        * destruct Ho as (r & ? & ->%list_elem_of_singleton & ?). exists r. auto.
        * intros x Hx [?|<-]; [done|]. apply Ho; [done|by left].
      + exists None, (downstreamAddrMap d). split; [done|]. split; [done|]. intros x Hx [?|Ht]; [done|]. by destruct (Hty x Hx). }
  cbn [mbind res_bind]. destruct o as [mid|]; [|done]. split; [by split|done].
Qed.

(** ** The map of the network *)

Lemma any_contains_ok a rs : Forall fit rs -> exists b, any_contains a rs = Ok b /\ (b = true <-> exists r, r ∈ rs /\ inside a r).
Proof.
  induction 1 as [|r rs Hr _ IH]; simpl; [exists false; split; [done|]; split; [done|]; by intros (r & []%elem_of_nil & _)|].
  rewrite contains_covers by apply Hr. cbn [mbind res_bind]. setoid_rewrite elem_of_cons. destruct (covers a r) eqn:E.
  - exists true. split; [done|]. split; [|done]. intros _. apply covers_iff in E. eauto.
  - destruct IH as (b & -> & Hb). exists b. split; [done|]. rewrite Hb. split; [naive_solver|]. intros (r' & [->|Hr'] & Hin); [|eauto].
    apply covers_iff in Hin. congruence.
Qed.

Lemma first_node_ok a l : Forall (fun n => Forall fit (AddrMapNode.ranges n)) l -> exists o, first_node a l = Ok o /\
  match o with
  | Some i => exists n r, n ∈ l /\ AddrMapNode.id n = i /\ r ∈ AddrMapNode.ranges n /\ inside a r
  | None => forall n r, n ∈ l -> r ∈ AddrMapNode.ranges n -> ~ inside a r
  end.
Proof.
  induction 1 as [|n l Hn _ IH]; simpl; [exists None; split; [done|]; by intros n r []%elem_of_nil|].
  destruct (any_contains_ok a _ Hn) as (b & -> & Hb). cbn [mbind res_bind]. destruct b.
  - eexists. split; [done|]. destruct (proj1 Hb eq_refl) as (r & Hr & Hin). exists n, r. split; [by left|done].
  - destruct IH as (o & -> & Ho). exists o. split; [done|]. destruct o as [i|]; [destruct Ho as (n' & r & ? & ?); exists n', r; split; [by right|done]|].
    intros n' r [->|Hn']%elem_of_cons Hr Hin; [|by eapply Ho]. assert (false = true) by (apply Hb; eauto). done.
Qed.

Lemma elem_of_addrMap cs ty n : (ty, n) ∈ make_addrMap cs <->
  exists c, c ∈ cs /\ getAddrRanges c <> [] /\ ty = mach_type (getMachineID c) /\ n = AddrMapNode.mk (mach_num (getMachineID c)) (getAddrRanges c).
Proof.
  unfold make_addrMap. induction cs as [|c cs IH] using rev_ind; [simpl; split; [intros []%elem_of_nil|intros (c & []%elem_of_nil & _)]|].
  rewrite foldl_snoc. setoid_rewrite elem_of_app. setoid_rewrite list_elem_of_singleton. unfold map_ext_node at 1. destruct (getAddrRanges c) as [|r rs] eqn:E.
  - rewrite IH. split; [intros (c' & ? & ?); exists c'; auto|]. intros (c' & [Hc| ->] & Hne & Heq); [eauto|done].
  - rewrite elem_of_app, list_elem_of_singleton, IH. split.
    + intros [(c' & ? & ?)|[= -> ->]]; [exists c'; auto|]. exists c. rewrite E. auto.
    + intros (c' & [Hc| ->] & Hne & -> & ->); [left; eauto|]. rewrite E. auto.
Qed.

(** The machines of a type among the controllers of a network divide the memory. *)
Definition divided (mtype : Z) (nodes : list Controller) : Prop :=
  let l := filter (fun x => mach_type x.1 = mtype) (entries nodes) in regular l /\ apart l.

Lemma elem_of_divided mtype nodes x :
  x ∈ filter (fun x : Entry => mach_type x.1 = mtype) (entries nodes) <-> mach_type x.1 = mtype /\ exists c, c ∈ nodes /\ getMachineID c = x.1 /\ x.2 ∈ getAddrRanges c.
Proof. rewrite list_elem_of_filter. destruct x as [mid r]. by rewrite elem_of_entries. Qed.

(** The home of an address among the machines of a type. *)
Lemma addressToNodeID_ok nodes a mtype : divided mtype nodes ->
  (forall c r, c ∈ nodes -> mach_type (getMachineID c) = mtype -> r ∈ getAddrRanges c -> inside a r ->
    addressToNodeID a mtype (make_addrMap nodes) = Ok (mach_num (getMachineID c))) /\
  ((forall c r, c ∈ nodes -> mach_type (getMachineID c) = mtype -> r ∈ getAddrRanges c -> ~ inside a r) ->
    addressToNodeID a mtype (make_addrMap nodes) = Ok (MachineType_base_count mtype)).
Proof.
  intros [Hr Hap].
  assert (forall n, n ∈ equal_range mtype (make_addrMap nodes) <-> exists c, c ∈ nodes /\ getAddrRanges c <> [] /\ mtype = mach_type (getMachineID c) /\
    n = AddrMapNode.mk (mach_num (getMachineID c)) (getAddrRanges c)) as Hin.
  { intros n. unfold equal_range. rewrite hash_order_perm, list_elem_of_fmap. setoid_rewrite list_elem_of_filter. split.
    - intros ([ty n'] & -> & Ht & Hn%elem_of_addrMap). simpl in Ht. subst ty. done.
    - intros Hc. exists (mtype, n). split; [done|]. split; [done|]. by apply elem_of_addrMap. }
  destruct (first_node_ok a (equal_range mtype (make_addrMap nodes))) as (o & Ho & Hres).
  { apply list.Forall_forall. intros n (c & Hc & _ & Ht & ->)%Hin. simpl. apply list.Forall_forall. intros r Hrc.
    apply (rg_fit _ Hr (getMachineID c, r)), elem_of_divided. eauto. }
  unfold addressToNodeID. rewrite Ho. cbn [mbind res_bind]. destruct o as [i|].
  - destruct Hres as (n & r & (c & Hc & _ & Hty & ->)%Hin & <- & Hrc & Hir). simpl in *. split; [|intros Hno; by destruct (Hno c r Hc)].
    intros c' r' Hc' Ht' Hrc' Hir'.
    assert ((getMachineID c', r') = (getMachineID c, r)) as [= -> _]; [|done].
    apply (one_home _ _ _ a Hr Hap); [by apply elem_of_divided; eauto..|simpl; congruence|done|done].
  - split; [|done]. intros c r Hc Ht Hrc Hir. exfalso. eapply (Hres _ r); [apply Hin; exists c; split_and!; [done| |done|done]|done|done].
    intros Hnil. rewrite Hnil in Hrc. by apply elem_of_nil in Hrc.
Qed.

(** ** Theorems *)

(** A history of look-ups, each of which leaves its caches behind. *)
Definition look_ups (qs : list (Z * Z)) (d : Destinations) : res Destinations :=
  for_each qs (fun q d => '(_, d) ← mapAddressToDownstreamMachine q.1 q.2 d; Ok d) d.

Lemma look_ups_ready cs qs d d' : ready cs d -> Forall (fun q => 0 <= q.1 < 2 ^ 64 - 1) qs -> look_ups qs d = Ok d' -> ready cs d'.
Proof.
  intros Hd Hqs. revert d Hd. unfold look_ups. induction Hqs as [|[a ty] qs Hq _ IH]; intros d Hd; simpl; [by intros [= <-]|].
  pose proof (downstream_ok cs d a ty Hd Hq) as Hstep. destruct (mapAddressToDownstreamMachine a ty d) as [[mid d1]|]; [|done]. apply IH, Hstep.
Qed.

(** C31: every address has one home.  When the ranges of the controllers towards
    memory do not cut each other's stripes, [init] stops with an error exactly
    when ranges of two machines of a type overlap.  Otherwise, for every
    type and whatever was looked up before, [mapAddressToDownstreamMachine] finds
    the machine of the type that has the address, and an address that none of
    them has is an error.  The network's map is made of all its controllers,
    which may be others too: for a type whose machines divide the memory,
    [mapAddressToMachine] finds the controller of the network that has the
    address, which is the one found before when that is attached to the network,
    and gives a number that no machine has when there is none; all in any order
    of the hash tables.  The sets of destinations hold exactly the machines
    configured. *)
Theorem address_homes cs us : Forall machine_ok cs -> Forall machine_ok us -> regular (entries cs) ->
  (~ apart (entries cs) -> init_destinations cs us = Err FatalCalled) /\
  (apart (entries cs) -> exists d, init_destinations cs us = Ok d /\
    (forall m i, NetDest.mem (downstreamDestinations d) m i <-> exists c, c ∈ cs /\ getMachineID c = mkMachineID m i) /\
    (forall m i, NetDest.mem (upstreamDestinations d) m i <-> exists c, c ∈ us /\ getMachineID c = mkMachineID m i) /\
    forall qs d1, Forall (fun q => 0 <= q.1 < 2 ^ 64 - 1) qs -> look_ups qs d = Ok d1 -> forall a ty, 0 <= a < 2 ^ 64 - 1 -> 0 <= ty < MachineType_NUM ->
      (forall c r, c ∈ cs -> mach_type (getMachineID c) = ty -> r ∈ getAddrRanges c -> AddrRange.contains a r = Ok true ->
        exists d2, mapAddressToDownstreamMachine a ty d1 = Ok (getMachineID c, d2)) /\
      ((forall c r, c ∈ cs -> mach_type (getMachineID c) = ty -> r ∈ getAddrRanges c -> AddrRange.contains a r <> Ok true) ->
        mapAddressToDownstreamMachine a ty d1 = Err FatalCalled) /\
      forall nodes, divided ty nodes ->
        (forall c r, c ∈ nodes -> mach_type (getMachineID c) = ty -> r ∈ getAddrRanges c -> AddrRange.contains a r = Ok true ->
          mapAddressToMachine a ty (make_addrMap nodes) = Ok (getMachineID c)) /\
        ((forall c r, c ∈ nodes -> mach_type (getMachineID c) = ty -> r ∈ getAddrRanges c -> AddrRange.contains a r <> Ok true) ->
          mapAddressToMachine a ty (make_addrMap nodes) = Ok (mkMachineID ty (MachineType_base_count ty)))).
Proof.
  intros Hcs Hus Hr. pose proof (init_destinations_ok cs us Hr Hcs Hus) as Hinit. destruct (init_destinations cs us) as [d|e]; [|destruct Hinit as [-> Hna]; done].
  destruct Hinit as (Hd & [_ Hup] & Ha). split; [done|]. intros _. exists d. split; [done|]. split; [apply Hd|]. split; [done|].
  intros qs d1 Hqs Hrun a ty Haddr Hty. pose proof (look_ups_ready cs qs d d1 Hd Hqs Hrun) as Hd1. pose proof (downstream_ok cs d1 a ty Hd1 Haddr) as Hdown. split_and!.
  - intros c r Hc Ht Hrc Hin. assert ((getMachineID c, r) ∈ entries cs) as He by (apply elem_of_entries; eauto).
    destruct (mapAddressToDownstreamMachine a ty d1) as [[mid d2]|e]; [|destruct Hdown as [_ Hno]; exfalso; by eapply (Hno _ He); [right|]].
    destruct Hdown as (_ & r' & He' & [?|Ht'] & Hin'); [lia|]. exists d2. pose proof (one_home _ (mid, r') (getMachineID c, r) a Hr Ha He' He) as Heq.
    simpl in Heq. rewrite Ht, Ht' in Heq. by injection (Heq eq_refl Hin' Hin) as -> _.
  - intros Hno. destruct (mapAddressToDownstreamMachine a ty d1) as [[mid d2]|e]; [|by destruct Hdown as [-> _]].
    destruct Hdown as (_ & r' & (c & Hc & <- & Hrc)%elem_of_entries & [?|Ht'] & Hin'); [lia|]. by destruct (Hno c r' Hc Ht' Hrc).
  - intros nodes [Hnet Hnone]%(addressToNodeID_ok nodes a). unfold mapAddressToMachine. split; [|intros Hno; by rewrite (Hnone Hno)].
    intros c r Hc Ht Hrc Hin. rewrite (Hnet c r Hc Ht Hrc Hin). cbn [mbind res_bind]. rewrite <-Ht. by destruct (getMachineID c).
Qed.

End maps.

(** C36: selecting a machine by bits of the address is interleaving: the machine
    that [mapAddressToRange] gives an address, without a cluster, is the one whose number
    is the match value of the stripe, of any interval around the address, that
    is interleaved at these bits and has the address; the machines of a cluster
    follow those of the clusters before it. *)
Theorem banks_are_stripes a ty low nb start end_ cluster : 0 <= start <= a -> a < end_ -> end_ < 2 ^ 64 -> 0 <= low -> 0 < nb <= 8 -> low + nb <= 64 ->
  0 <= cluster -> 2 ^ nb * (cluster + 1) < 2 ^ 31 ->
  exists k r, mapAddressToRange a ty low nb cluster = Ok (mkMachineID ty (k + 2 ^ nb * cluster)) /\ 0 <= k < 2 ^ nb /\
    AddrRange.new_bits start end_ (low + nb - 1) 0 nb k = Ok r /\ AddrRange.contains a r = Ok true.
Proof.
  intros Hs He Hend Hlow Hnb Hlast Hc Hfit. assert (0 < 2 ^ nb) as Hpos by (apply Z.pow_pos_nonneg; lia).
  set (k := a / 2 ^ low mod 2 ^ nb). assert (0 <= k < 2 ^ nb) as Hk by (apply Z.mod_pos_bound; lia).
  exists k, (AddrRange.mk start end_ (masks_at (low + nb - 1) 0 nb) k). split; [|split; [done|split]].
  - assert (2 ^ nb <= 2 ^ 8) by (apply Z.pow_le_mono_r; lia). unfold mapAddressToRange, int_value, bitSelect. rewrite (proj2 (Z.eqb_neq nb 0)) by lia.
    rewrite (proj2 (Z.leb_le _ (low + nb - 1))), (proj2 (Z.ltb_lt _ (2 ^ 31))) by lia. cbn [andb mbind res_bind].
    rewrite !u32_small, (proj2 (Z.leb_le _ _)) by lia. cbn [assert mbind res_bind]. rewrite bits_value by lia. cbn [mbind res_bind].
    replace (low + nb - 1 - low + 1) with nb by lia. fold k. rewrite int_bit_ok by lia. cbn [mbind res_bind].
    rewrite (proj2 (Z.leb_le _ (2 ^ nb * cluster))), (proj2 (Z.ltb_lt _ (2 ^ 31))) by nia. cbn [andb mbind res_bind]. rewrite u32_small by nia. done.
  - apply new_bits_ok; [lia|lia|by left|done].
  - apply inside_bits; [lia|lia|by left|lia|done|]. split; [lia|]. intros i Hi. rewrite xorb_false_r. unfold k.
    rewrite Z.mod_pow2_bits_low, Z.div_pow2_bits by lia. f_equal. lia.
Qed.

(** ** Examples *)

#[local] Instance reverse_order : HashOrder := fun A => @reverse A.

#[local] Instance reverse_order_ok : HashOrderOk.
Proof. intros A l. apply reverse_Permutation. Qed.

(** Two directories with stripes, and a cache for all of memory. *)
Definition two_directories : list Controller :=
  [mkController (mkMachineID 1 0) [four_stripes 0]; mkController (mkMachineID 1 2) [four_stripes 2]; mkController (mkMachineID 0 5) [AddrRange.interval 0 0x20000]].

Lemma two_directories_regular : regular (entries two_directories).
Proof.
  split.
  - intros x. simpl. rewrite !elem_of_cons, elem_of_nil. intros [->|[->|[->|[]]]]; [by apply four_stripes_fit..|]. split; [by right|simpl; lia|done].
  - intros x y. simpl. rewrite !elem_of_cons, !elem_of_nil.
    intros [->|[->|[->|[]]]] [->|[->|[->|[]]]] Ht; try done; right; right; right; by vm_compute.
Qed.

Lemma two_directories_apart : apart (entries two_directories).
Proof. intros [|[|[|]]] [|[|[|]]] x y Hij Hi Hj Ht; simpl in *; try lia; simplify_eq; try done; by vm_compute. Qed.

(** A network with another directory, towards which this controller has no way,
    and with caches that all have the same range. *)
Definition three_directories : list Controller :=
  [mkController (mkMachineID 0 0) [AddrRange.interval 0 0x20000]; mkController (mkMachineID 1 1) [four_stripes 1]] ++ two_directories.

Lemma three_directories_divided : divided 1 three_directories.
Proof.
  split.
  - split.
    + intros x. vm_compute filter. rewrite !elem_of_cons, elem_of_nil. intros [->|[->|[->|[]]]]; by apply four_stripes_fit.
    + intros x y. vm_compute filter. rewrite !elem_of_cons, !elem_of_nil.
      intros [->|[->|[->|[]]]] [->|[->|[->|[]]]] Ht; right; right; right; by vm_compute.
  - intros [|[|[|]]] [|[|[|]]] x y Hij Hi Hj Ht; vm_compute in Hi; vm_compute in Hj; try lia; simplify_eq; by vm_compute.
Qed.

Lemma address_homes_witness : exists d d1 d2, @init_destinations two_machines two_directories [] = Ok d /\
  look_ups (H := two_machines) [(0x4000, 1); (0x4004, 1); (7, 0)] d = Ok d1 /\
  mapAddressToDownstreamMachine (H := two_machines) 0x50c4 1 d1 = Ok (mkMachineID 1 2, d2) /\
  mapAddressToMachine (H := two_machines) 0x50c4 1 (make_addrMap three_directories) = Ok (mkMachineID 1 2).
Proof.
  pose proof two_machines_ok as Hok.
  destruct (address_homes (H := two_machines) two_directories []) as [_ Hhomes]; [repeat constructor; simpl; lia|constructor|apply two_directories_regular|].
  destruct (Hhomes two_directories_apart) as (d & Hd & _ & _ & Hmap). exists d.
  assert (exists d1, look_ups (H := two_machines) [(0x4000, 1); (0x4004, 1); (7, 0)] d = Ok d1) as [d1 Hd1].
  { vm_compute in Hd. injection Hd as <-. eexists. vm_compute. reflexivity. }
  destruct (Hmap [(0x4000, 1); (0x4004, 1); (7, 0)] d1) with (a := 0x50c4) (ty := 1) as (Hdown & _ & Hnet); [|done|lia|simpl; lia|].
  { do 3 (apply List.Forall_cons; [simpl; lia|]). constructor. }
  set (c := mkController (mkMachineID 1 2) [four_stripes 2]).
  destruct (Hdown c (four_stripes 2)) as [d2 Hd2]; [by right; left|done|by left|by vm_compute|].
  destruct (Hnet three_directories three_directories_divided) as [Hfound _].
  exists d1, d2. split_and!; [done|done|exact Hd2|]. apply (Hfound c (four_stripes 2)); [by do 3 right; left|done|by left|by vm_compute].
Defined.

Lemma banks_are_stripes_witness : exists k r, mapAddressToRange 0x1234 1 6 2 3 = Ok (mkMachineID 1 (k + 2 ^ 2 * 3)) /\
  AddrRange.new_bits 0x1000 0x2000 7 0 2 k = Ok r /\ AddrRange.contains 0x1234 r = Ok true.
Proof. destruct (banks_are_stripes 0x1234 1 6 2 0x1000 0x2000 3) as (k & r & Hm & _ & Hn & Hc); [lia..|]. by exists k, r. Defined.
